(* ===== verification/_CoqProject ===== *)
-Q . S2P
Prelude.v
Memblock.v
Bitmap.v
Refcount.v
Fdtable.v
Buddy.v
Kfifo.v
Elf.v
Task.v
Sched.v
Signal.v
Kiov.v
Pipe.v
Rbtree.v
Vma.v
VmaRange.v
Pgtable.v
Mmap.v
Ext2.v
Fault.v
Virtqueue.v
Strings.v
Vsprintf.v
Slub.v
Timer.v
Tty.v
Ext2dir.v
Getdents.v
Dcache.v
Path.v
Icache.v
Pid.v
Wait.v
Pagecache.v
