(* ===== verification/Prelude.v ===== *)
(** * Nuvix: a verification library for the kernel

    Nuvix is a small multiprocessor RISC-V kernel with a Unix interface.  This
    library translates its core into executable Rocq functions and proves what
    each part promises to the others and to user programs.

    ** The program

    Boot code fills the early memory map ([mm/memblock.c]) from the device tree
    and hands what is not reserved to the page allocator ([mm/buddy.c]).  An
    address space ([mm/vma.c]) keeps its areas in a red-black tree
    ([lib/rbtree.c]) and its pages in a three-level table
    ([arch/riscv/pgtable.c]); the memory calls ([mm/mmap.c]) change both.  Tasks
    run under per-CPU round-robin queues ([kernel/sched.c]), are interrupted by
    signals ([kernel/signal.c]), and reach files through descriptor tables
    ([fs/vfs/fdtable.c]).  Pipes ([fs/pipe.c]) move bytes between user buffers
    described by I/O vectors ([fs/vfs/kiov.c], [mm/uaccess.c]).  Executables are
    validated by [lib/elf.c].  Names are resolved ([fs/vfs/path.c]) through caches
    of directory entries and inodes, over the ext2 driver ([fs/ext2]), whose blocks
    go through the page cache ([mm/mapping.c]) to virtio queues.  Tasks sleep on
    wait queues, mutexes and completions ([kernel/wait.c], [mutex.c],
    [completion.c]) and timers ([kernel/timer.c]), and carry the process, group and
    session identifiers of [kernel/pid.c].

    ** The files

    - [Prelude]: machine integers and their wrap-around, the error monad [res],
      array accesses that fault, loops, shared list and map lemmas, tactics.
    - [Memblock]: [mm/memblock.c].  State: the RAM range and the sorted array of
      reserved regions ([memblock]).  [memblock_reserve] refines set union;
      [early_alloc] finds the lowest fit.
    - [Bitmap]: [include/nuvix/bitmap.h]; [Refcount]: [include/nuvix/refcount.h].
      The counts are compare-and-swap loops run against arbitrary interference.
    - [Fdtable]: [fs/vfs/fdtable.c] and [dup], [dup3], [close], [fcntl] of
      [fs/vfs/file.c].  State: one table and the store of counted files.
    - [Buddy]: [mm/buddy.c], [mm/page.c].  State: descriptor array and free
      lists ([buddy]).  The invariant [wf] says that the lists partition the free
      pages into aligned blocks; [coalesced], that no two of them could be
      merged, is set up at boot and kept by [alloc_pages] and [free_pages].
    - [Kfifo]: [include/nuvix/kfifo.h], as a bounded queue ([Sequential]) and
      between one producer and one consumer that interleave ([Spsc]).
    - [Elf]: [lib/elf.c] on the bytes of an image.
    - [Task]: the record of [include/nuvix/task.h] that [Sched], [Signal] and
      [Pipe] share.
    - [Sched]: [kernel/sched.c].  State: the store of tasks with all run queues
      ([machine]).  A step relation has the operations of all CPUs; the
      invariant holds in every reachable state.
    - [Signal]: [kernel/signal.c]: sending, cancelling, choosing and delivering,
      with the waking of the target through [Sched].
    - [Kiov]: [mm/uaccess.c], [fs/vfs/kiov.c] on a memory with faults.
    - [Pipe]: [fs/pipe.c]: calls as sections under the pipe's mutex, with the
      other tasks' work between them as an argument.
    - [Rbtree]: [lib/rbtree.c] on a heap of linked nodes, refining operations on
      the in-order list.
    - [Vma], [VmaRange]: [mm/vma.c] over [Rbtree], [Fdtable] and a page table
      given by the class [PageTable]; [Pgtable] has the instance for the
      three-level tables of [arch/riscv/pgtable.c]; [Mmap]: [mm/mmap.c].
    - [Ext2]: [fs/ext2/balloc.c] and the paths and lookup of [fs/ext2/bmap.c].
    - [Fault]: [mm/page_fault.c], on the layout of [Vma], the tables of [Pgtable] and
      the contents of frames: which page a fault leaves behind, and when it is copied.
    - [Virtqueue]: [drivers/virtio/virtqueue.c]: the rings shared with a device that
      may write anything to its half.  Adding a request is the sequence of its
      stores, of which the device may see any part that the barrier allows.
    - [Strings], [Vsprintf]: [lib/string.c] on a memory with faults, [lib/vsprintf.c].
    - [Slub]: [mm/slub.c] as slabs of free chains inside the objects, refining the
      set of objects handed out.
    - [Timer]: [kernel/timer.c] over [Rbtree], refining the multiset of deadlines.
    - [Tty]: [drivers/tty/tty.c]: the line discipline as an edited line and a queue.
    - [Ext2dir], [Getdents]: [fs/ext2/dir.c] on the bytes of directory blocks, which
      represent a map from names to inodes, and the listing call on top of it.
    - [Dcache], [Path]: [fs/vfs/dentry.c] and [fs/vfs/path.c], the latter against the
      class [InodeOps] of a directory's lookup, which [ext2_lookup] instantiates.
    - [Icache]: [fs/vfs/inode.c] as sections under the cache lock, interleaved.
    - [Pid]: [kernel/pid.c] and the calls of [kernel/task.c] into it.  State: the
      bitmap of numbers, the counted identifiers with the lists of their tasks, the
      hash table.
    - [Wait]: wait queues, mutexes and completions.  The shared loop is proved once
      against the class [Waitable], of which owner, counter and condition are
      instances; a lemma ties the waking to [Sched].
    - [Pagecache]: [mm/mapping.c] as sections under the cache mutex, interleaved, with
      the disk and what was last written to each page beside it.

    ** Conventions

    A function of the source is a function of the same name; its loops are
    functions named after it ([..._loop]).  An integer is a [Z] with explicit
    wraps ([u16], [u32], [u64], [s32]).  The result type [res] tells a value
    ([Ok]) from a failed [Assert] or panic, a bad memory access or division
    ([Fault]), and a loop that ran out of fuel ([Loop]); the theorems state that
    the value is reached, so they exclude the other three.  An operation the
    source runs under one lock is one function; where other CPUs can act in the
    middle (reference counts, rings, pipe waits, scheduling) their actions are
    arguments or steps.  What an allocator, the device or a user pointer
    delivers is an argument, and the theorems hold for every value of it.

    Loops that are not structural carry fuel computed from the state: the number
    of regions, of groups, of bits, of tree nodes or of pages left, each shown
    to be enough; [get_signal] is shown to need at most one iteration per
    pending signal.

    ** The theorems

    - Memory safety of allocators: a block handed out was free and becomes
      exactly allocated, freeing merges it back, invalid frees change nothing
      (Memblock, Buddy, Slub, Ext2).
    - Layout and page table agree: [mmap], [munmap], [mprotect] and [brk] change
      exactly the range they name, pages leave the table before the TLB is
      flushed and are freed after it, shared frames never become writable, and a
      fault installs the right page or delivers the right error (Mmap, VmaRange,
      Pgtable, Fault).
    - Data structures refine their abstract counterpart: balanced trees the
      in-order list, rings the bounded queue, bitmaps the set of indices, timers the
      multiset of deadlines, directories the map of names, virtqueues the set of
      buffers the device has (Rbtree, Kfifo, Bitmap, Timer, Ext2dir, Virtqueue).
    - Scheduling and sleeping: each reachable state has every runnable task on
      exactly one queue, no wakeup is lost, a mutex has one owner, a completion ends
      one wait (Sched, Wait).
    - Signals: what is queued, cancelled, ignored, delivered and blocked, and
      that [SIGKILL] cannot be escaped (Signal).
    - Descriptors, pipes and terminal: aliasing, close-on-exec and reference
      counts; bytes are read in the order written, small writes are atomic, error
      exits leave the state as they should (Fdtable, Pipe, Kiov, Tty).
    - Names and caches: resolution of a path gives what a reference resolution
      gives, with every reference accounted for; a listing delivers each entry once;
      inodes and pages are in memory once, are not freed while held, and what was
      written to a page is not lost (Path, Dcache, Getdents, Icache, Pagecache).
    - Identifiers: numbers are unique, tables and lists agree, a group stays within
      one session under [setpgid] and [setsid] (Pid).
    - ELF: an accepted image has all its segments inside the file and the user
      range, without overlap (Elf).

    Two theorems show behaviour that the code does not mean to have:
    [clone_race_splits_group] (Pid) and [purge_race_panics] (Pagecache) run two calls
    whose sections interleave.

    ** Not modelled

    The device tree library ([lib/fdt], [libfdt.h]) and the configuration tool
    ([scripts/kconfig]) are vendored.  Assembly, trap entry, interrupt controllers,
    CPU bring-up and the virtio and serial drivers depend on device behaviour outside
    the source.  Start-up and [printk] are order and output.  Also left out: copying
    and freeing whole page tables ([pgtable_clone], [pgtable_free], [mm/mm.c]); the
    creation and truncation of block branches ([fs/ext2/bmap.c]); inodes and file data
    of ext2; process creation, exit, waiting and [execve], beyond the identifiers.
    They mostly call the parts modelled here.  Weak memory orders are not modelled:
    atomics are sequentially consistent. *)
From stdpp Require Import base tactics numbers list gmap sorting.

#[global] Open Scope Z_scope.

(** ** Machine integers

    A w-bit C integer is a [Z]; every operation that can leave the range is
    followed by an explicit wrap. *)

Definition wrap (w x : Z) : Z := x mod 2 ^ w.
Definition u8 (x : Z) : Z := wrap 8 x.
Definition u16 (x : Z) : Z := wrap 16 x.
Definition u32 (x : Z) : Z := wrap 32 x.
Definition u64 (x : Z) : Z := wrap 64 x.

(** Two's-complement reading of the low 32 bits, as in a conversion to [int]. *)
Definition s32 (x : Z) : Z := (u32 x + 2 ^ 31) mod 2 ^ 32 - 2 ^ 31.

Definition in_u32 (x : Z) : Prop := 0 ≤ x < 2 ^ 32.
Definition in_u64 (x : Z) : Prop := 0 ≤ x < 2 ^ 64.

Definition UINT32_MAX : Z := 2 ^ 32 - 1.
Definition UINT64_MAX : Z := 2 ^ 64 - 1.
Definition SIZE_MAX : Z := UINT64_MAX.
Definition INT32_MAX : Z := 2 ^ 31 - 1.

(** [~x] of a 64-bit operand. *)
Definition not64 (x : Z) : Z := u64 (Z.lnot x).
(** [~x] of a 32-bit operand. *)
Definition not32 (x : Z) : Z := u32 (Z.lnot x).

(** C truth value of an integer. *)
Definition truth (x : Z) : bool := negb (x =? 0).

(** ** [include/nuvix/math.h] *)

Definition MIN (a b : Z) : Z := if a <? b then a else b.
Definition MAX (a b : Z) : Z := if a >? b then a else b.
(** [IS_POWER_OF_2] at 32 bits, the width of its callers' operand. *)
Definition IS_POWER_OF_2 (x : Z) : bool :=
  truth x && negb (truth (Z.land x (u32 (x - 1)))).
(** [ALIGN_UP], [ALIGN_DOWN] and [IS_ALIGNED] at 64 bits. *)
Definition ALIGN_UP (x a : Z) : Z := Z.land (u64 (x + u64 (a - 1))) (not64 (u64 (a - 1))).
Definition ALIGN_DOWN (x a : Z) : Z := Z.land x (not64 (u64 (a - 1))).
Definition IS_ALIGNED (x a : Z) : bool := Z.land x (u64 (a - 1)) =? 0.
Definition BIT (n : Z) : Z := u64 (Z.shiftl 1 n).

(** ** Layout constants of [arch/riscv/include/asm/layout.h] *)

Definition PAGE_SHIFT : Z := 12.
Definition PAGE_SIZE : Z := 4096.

(** ** Error numbers of [include/nuvix/errno.h] *)

Definition EPERM : Z := 1.
Definition ENOENT : Z := 2.
Definition ESRCH : Z := 3.
Definition EINTR : Z := 4.
Definition EIO : Z := 5.
Definition ENOEXEC : Z := 8.
Definition EBADF : Z := 9.
Definition EAGAIN : Z := 11.
Definition ENOMEM : Z := 12.
Definition EACCES : Z := 13.
Definition EFAULT : Z := 14.
Definition EBUSY : Z := 16.
Definition EEXIST : Z := 17.
Definition ENODEV : Z := 19.
Definition ENOTDIR : Z := 20.
Definition EINVAL : Z := 22.
Definition EMFILE : Z := 24.
Definition EFBIG : Z := 27.
Definition ENOSPC : Z := 28.
Definition EPIPE : Z := 32.
Definition ENAMETOOLONG : Z := 36.
Definition EOVERFLOW : Z := 75.
Definition EOPNOTSUPP : Z := 95.
Definition EUCLEAN : Z := 117.
Definition ENOTSUPP : Z := 524.

(** ** Outcomes

    [Ok v] is a normal return; [Panic] is a failed [Assert] or [panic];
    [Fault] is an access outside the object it names (a NULL or dangling
    dereference, an array index out of range); [Loop] is a loop whose fuel ran
    out.  Theorems that say an operation returns exclude the last three. *)

Inductive res (A : Type) : Type :=
  | Ok (a : A)
  | Panic
  | Fault
  | Loop.
Arguments Ok {A} _.
Arguments Panic {A}.
Arguments Fault {A}.
Arguments Loop {A}.

Definition res_bind {A B} (m : res A) (f : A → res B) : res B :=
  match m with
  | Ok a => f a
  | Panic => Panic
  | Fault => Fault
  | Loop => Loop
  end.

Declare Scope res_scope.
Delimit Scope res_scope with res.
Notation "'let!' x ':=' m 'in' k" := (res_bind m (λ x, k))
  (at level 10, x pattern, m at level 100, k at level 200) : res_scope.
#[global] Open Scope res_scope.

(** A failed [Assert] panics. *)
Definition Assert (b : bool) : res unit := if b then Ok () else Panic.
(** A dereference of something that may be absent faults. *)
Definition deref {A} (o : option A) : res A :=
  match o with Some a => Ok a | None => Fault end.

Lemma res_bind_Ok {A B} (m : res A) (f : A → res B) b :
  res_bind m f = Ok b ↔ ∃ a, m = Ok a ∧ f a = Ok b.
Proof.
  split; [destruct m; simpl; intros; try discriminate; eauto|].
  by intros (a & -> & Hf).
Qed.

Lemma Ok_inj {A} (a b : A) : Ok a = Ok b → a = b.
Proof. by intros [= ->]. Qed.

Lemma Assert_Ok b u : Assert b = Ok u ↔ b = true.
Proof. by destruct b, u. Qed.

Lemma deref_Ok {A} (o : option A) a : deref o = Ok a ↔ o = Some a.
Proof. destruct o; simpl; naive_solver. Qed.

(** Invert a successful monadic computation into its successful steps. *)
Ltac res_inv :=
  repeat match goal with
  | H : res_bind _ _ = Ok _ |- _ =>
      let a := fresh "a" in let E := fresh "E" in
      apply res_bind_Ok in H as (a & E & H)
  | H : Assert _ = Ok _ |- _ => apply Assert_Ok in H
  | H : deref _ = Ok _ |- _ => apply deref_Ok in H
  | H : Ok _ = Ok _ |- _ => injection H as H
  | H : Panic = Ok _ |- _ => discriminate H
  | H : Fault = Ok _ |- _ => discriminate H
  | H : Loop = Ok _ |- _ => discriminate H
  | x : unit |- _ => destruct x
  | x : (_ * _)%type |- _ => destruct x
  end; simplify_eq/=.

(** Turn boolean tests in the context into the propositions they decide. *)
Ltac bools :=
  repeat match goal with
  | H : (_ && _) = true |- _ => apply andb_true_iff in H as [? ?]
  | H : (_ || _) = false |- _ => apply orb_false_iff in H as [? ?]
  | H : negb _ = true |- _ => apply negb_true_iff in H
  | H : negb _ = false |- _ => apply negb_false_iff in H
  | H : (_ <? _) = true |- _ => apply Z.ltb_lt in H
  | H : (_ <? _) = false |- _ => apply Z.ltb_ge in H
  | H : (_ <=? _) = true |- _ => apply Z.leb_le in H
  | H : (_ <=? _) = false |- _ => apply Z.leb_gt in H
  | H : (_ >? _) = _ |- _ => rewrite Z.gtb_ltb in H
  | H : (_ >=? _) = _ |- _ => rewrite Z.geb_leb in H
  | H : (_ =? _) = true |- _ => apply Z.eqb_eq in H
  | H : (_ =? _) = false |- _ => apply Z.eqb_neq in H
  end.

(** Split every [if] on a boolean in the goal, keeping arithmetic readings. *)
Ltac case_bools :=
  repeat match goal with
  | |- context [if ?b then _ else _] =>
      lazymatch type of b with
      | bool => let E := fresh "E" in destruct b eqn:E; simpl
      end
  end; bools.

(** ** Arithmetic of wraps and masks *)

Create HintDb word.

Lemma u64_small x : in_u64 x → u64 x = x.
Proof. intros [??]. unfold u64, wrap. by apply Z.mod_small. Qed.
Lemma u32_small x : in_u32 x → u32 x = x.
Proof. intros [??]. unfold u32, wrap. by apply Z.mod_small. Qed.
Lemma u64_range x : in_u64 (u64 x).
Proof. unfold in_u64, u64, wrap. apply Z.mod_pos_bound. lia. Qed.
Lemma u32_range x : in_u32 (u32 x).
Proof. unfold in_u32, u32, wrap. apply Z.mod_pos_bound. lia. Qed.
Lemma in_u32_u64 x : in_u32 x → in_u64 x.
Proof. unfold in_u32, in_u64. lia. Qed.
#[export] Hint Resolve u64_range u32_range in_u32_u64 : word.

Lemma wrap_land w x : 0 ≤ w → wrap w x = Z.land x (Z.ones w).
Proof. intros. unfold wrap. by rewrite Z.land_ones. Qed.

Lemma s32_small x : 0 ≤ x < 2 ^ 31 → s32 x = x.
Proof.
  intros Hx. unfold s32. rewrite u32_small by (unfold in_u32; lia).
  rewrite Z.mod_small by lia. lia.
Qed.

(** Bits of a wrapped value. *)
Lemma u64_spec x i : 0 ≤ i → Z.testbit (u64 x) i = (i <? 64) && Z.testbit x i.
Proof.
  intros. unfold u64, wrap. destruct (Z.ltb_spec i 64).
  - by rewrite Z.mod_pow2_bits_low by lia.
  - by rewrite Z.mod_pow2_bits_high by lia.
Qed.

Lemma testbit_u64_high x i : in_u64 x → 64 ≤ i → Z.testbit x i = false.
Proof.
  intros Hx Hi. rewrite <-(u64_small x Hx), u64_spec by lia.
  by replace (i <? 64) with false by lia.
Qed.

Lemma not64_spec x i : 0 ≤ i → Z.testbit (not64 x) i = (i <? 64) && negb (Z.testbit x i).
Proof. intros. unfold not64. rewrite u64_spec, Z.lnot_spec by lia. done. Qed.

(** Two 64-bit values are equal when their 64 bits are. *)
Lemma u64_bits_inj x y :
  in_u64 x → in_u64 y →
  (∀ i, 0 ≤ i < 64 → Z.testbit x i = Z.testbit y i) → x = y.
Proof.
  intros Hx Hy Hb. apply Z.bits_inj'. intros i Hi.
  destruct (decide (i < 64)); [auto|].
  by rewrite !testbit_u64_high by (done || lia).
Qed.

Lemma land_range w x y : 0 ≤ w → 0 ≤ x < 2 ^ w → 0 ≤ Z.land x y < 2 ^ w.
Proof.
  intros Hw Hx. rewrite <-(Z.mod_small x (2 ^ w)) by done.
  rewrite <-Z.land_ones, (Z.land_comm x), <-Z.land_assoc, Z.land_comm by done.
  rewrite Z.land_ones by done. apply Z.mod_pos_bound. lia.
Qed.

Lemma lor_range w x y : 0 ≤ w → 0 ≤ x < 2 ^ w → 0 ≤ y < 2 ^ w → 0 ≤ Z.lor x y < 2 ^ w.
Proof.
  intros Hw Hx Hy.
  assert (Z.lor x y = Z.lor x y mod 2 ^ w) as ->; [|apply Z.mod_pos_bound; lia].
  rewrite <-Z.land_ones, Z.land_lor_distr_l, !Z.land_ones, !Z.mod_small by lia. done.
Qed.

Lemma land_u64_l x y : in_u64 x → in_u64 (Z.land x y).
Proof. apply land_range. lia. Qed.
Lemma land_u64_r x y : in_u64 y → in_u64 (Z.land x y).
Proof. rewrite Z.land_comm. apply land_u64_l. Qed.
Lemma lor_u64 x y : in_u64 x → in_u64 y → in_u64 (Z.lor x y).
Proof. apply lor_range. lia. Qed.
Lemma not64_range x : in_u64 (not64 x).
Proof. apply u64_range. Qed.
#[export] Hint Resolve land_u64_l land_u64_r lor_u64 not64_range : word.

(** [x & (2^k - 1)] is the remainder. *)
Lemma land_pow2_mask x k : 0 ≤ k → Z.land x (2 ^ k - 1) = x mod 2 ^ k.
Proof. intros. rewrite <-Z.land_ones by done. by rewrite Z.ones_equiv, Z.sub_1_r. Qed.

(** [x & ~(2^k - 1)] rounds down. *)
Lemma land_not64_mask x k :
  in_u64 x → 0 ≤ k ≤ 64 → Z.land x (not64 (2 ^ k - 1)) = x - x mod 2 ^ k.
Proof.
  intros Hx Hk. transitivity (Z.ldiff x (Z.ones k)).
  - apply u64_bits_inj; [auto with word| |].
    + rewrite Z.ldiff_land. auto with word.
    + intros i Hi. rewrite Z.land_spec, not64_spec, Z.ldiff_spec by lia.
      replace (i <? 64) with true by lia. by rewrite Z.ones_equiv, Z.sub_1_r.
  - rewrite Z.ldiff_ones_r, Z.shiftl_mul_pow2, Z.shiftr_div_pow2 by lia.
    pose proof (Z.div_mod x (2 ^ k)). lia.
Qed.

(** [x & ~(2^k - 1)] of a 32-bit operand. *)
Lemma land_not32_mask x k :
  in_u32 x → 0 ≤ k ≤ 32 → Z.land x (not32 (2 ^ k - 1)) = x - x mod 2 ^ k.
Proof.
  intros Hx Hk. rewrite <-(land_not64_mask x k) by (auto with word || lia).
  apply Z.bits_inj'. intros i Hi. rewrite !Z.land_spec, not64_spec by done.
  unfold not32, u32, wrap. destruct (decide (i < 32)).
  - rewrite Z.mod_pow2_bits_low, Z.lnot_spec by lia. by replace (i <? 64) with true by lia.
  - replace (Z.testbit x i) with false; [done|]. rewrite <-(u32_small x Hx). unfold u32, wrap.
    by rewrite Z.mod_pow2_bits_high by lia.
Qed.

(** The power-of-two test. *)
Lemma land_pred_pow2 x : 2 ≤ x → Z.land x (x - 1) = 0 ↔ ∃ k, 1 ≤ k ∧ x = 2 ^ k.
Proof.
  intros Hx. split.
  - intros H0. pose proof (Z.log2_spec x ltac:(lia)) as [Hlo Hhi].
    rewrite Z.pow_succ_r in Hhi by apply Z.log2_nonneg. set (k := Z.log2 x) in *.
    assert (1 ≤ k) by (apply Z.log2_le_pow2; lia).
    exists k. split; [lia|]. destruct (decide (x = 2 ^ k)) as [|Hne]; [done|]. exfalso.
    assert (Hb : ∀ y, 2 ^ k ≤ y < 2 * 2 ^ k → Z.testbit y k = true).
    { intros y Hy. apply Z.testbit_true; [lia|].
      replace (y / 2 ^ k) with 1; [done|]. apply (Z.div_unique _ _ _ (y - 2 ^ k)); lia. }
    assert (Z.testbit (Z.land x (x - 1)) k = true) as Hc.
    { rewrite Z.land_spec, !Hb by lia. done. }
    by rewrite H0, Z.bits_0 in Hc.
  - intros (k&Hk&->). rewrite land_pow2_mask by lia. apply Z.mod_same. lia.
Qed.

Lemma pow2_mask_u64 k : 0 ≤ k < 64 → u64 (2 ^ k - 1) = 2 ^ k - 1.
Proof.
  intros. apply u64_small. split; [lia|].
  pose proof (Z.pow_lt_mono_r 2 k 64). lia.
Qed.

Lemma ALIGN_DOWN_spec x k :
  in_u64 x → 0 ≤ k < 64 → ALIGN_DOWN x (2 ^ k) = x - x mod 2 ^ k.
Proof.
  intros. unfold ALIGN_DOWN. rewrite pow2_mask_u64, land_not64_mask; [done|done|lia..].
Qed.

Lemma IS_ALIGNED_spec x k :
  0 ≤ k < 64 → IS_ALIGNED x (2 ^ k) = true ↔ x mod 2 ^ k = 0.
Proof.
  intros. unfold IS_ALIGNED. rewrite pow2_mask_u64, land_pow2_mask, Z.eqb_eq by lia. done.
Qed.

(** Without overflow, [ALIGN_UP] is the least multiple of [a] at or above [x]. *)
Lemma ALIGN_UP_spec x k :
  0 ≤ x → 0 ≤ k < 64 → x + (2 ^ k - 1) < 2 ^ 64 →
  let y := ALIGN_UP x (2 ^ k) in y mod 2 ^ k = 0 ∧ x ≤ y < x + 2 ^ k.
Proof.
  intros Hx Hk Ho. unfold ALIGN_UP. assert (0 < 2 ^ k) by lia.
  rewrite pow2_mask_u64, u64_small, land_not64_mask by (unfold in_u64; lia).
  simpl. set (z := x + (2 ^ k - 1)).
  pose proof (Z.div_mod z (2 ^ k)). pose proof (Z.mod_pos_bound z (2 ^ k)).
  split; [|lia].
  replace (z - z mod 2 ^ k) with ((z / 2 ^ k) * 2 ^ k) by lia. apply Z.mod_mul. lia.
Qed.

Lemma BIT_spec n i : 0 ≤ n < 64 → 0 ≤ i → Z.testbit (BIT n) i = (i =? n).
Proof.
  intros Hn Hi. unfold BIT. rewrite u64_spec, Z.shiftl_1_l, Z.pow2_bits_eqb by lia.
  rewrite (Z.eqb_sym n). destruct (Z.eqb_spec i n); [subst|apply andb_false_r].
  by replace (n <? 64) with true by lia.
Qed.

(** [x & BIT(n)] as a condition is the test of bit [n]. *)
Lemma truth_land_BIT w n : 0 ≤ n < 64 → truth (Z.land w (BIT n)) = Z.testbit w n.
Proof.
  intros Hn. unfold truth. destruct (Z.testbit w n) eqn:Hb.
  - apply negb_true_iff, Z.eqb_neq. intros H0.
    assert (Z.testbit (Z.land w (BIT n)) n = true) as Hc.
    { by rewrite Z.land_spec, Hb, BIT_spec, Z.eqb_refl by lia. }
    by rewrite H0, Z.bits_0 in Hc.
  - apply negb_false_iff, Z.eqb_eq, Z.bits_inj'. intros i Hi.
    rewrite Z.land_spec, BIT_spec, Z.bits_0 by lia.
    destruct (Z.eqb_spec i n) as [->|]; [by rewrite Hb|apply andb_false_r].
Qed.

Lemma MIN_spec a b : MIN a b = Z.min a b.
Proof. unfold MIN. destruct (Z.ltb_spec a b); lia. Qed.
Lemma MAX_spec a b : MAX a b = Z.max a b.
Proof. unfold MAX. rewrite Z.gtb_ltb. destruct (Z.ltb_spec b a); lia. Qed.

(** ** C arrays

    A fixed-size array is a list; an access outside it faults. *)

Definition arr_get {A} (l : list A) (i : nat) : res A := deref (l !! i).
Definition arr_set {A} (l : list A) (i : nat) (x : A) : res (list A) :=
  if decide (i < length l)%nat then Ok (<[i:=x]> l) else Fault.
(** [memmove(&l[dst], &l[src], n * sizeof(l[0]))] *)
Definition arr_move {A} (l : list A) (dst src n : nat) : res (list A) :=
  if decide (dst + n ≤ length l ∧ src + n ≤ length l)%nat
  then Ok (take dst l ++ take n (drop src l) ++ drop (dst + n) l)
  else Fault.

(** [memcpy(dst + d, src + s, n)] between two arrays. *)
Definition memcpy {A} (dst : list A) (d : nat) (src : list A) (s n : nat) : res (list A) :=
  if decide (d + n ≤ length dst ∧ s + n ≤ length src)%nat
  then Ok (take d dst ++ take n (drop s src) ++ drop (d + n) dst)
  else Fault.

Lemma memcpy_spec {A} (dst src : list A) d s n :
  (d + n ≤ length dst)%nat → (s + n ≤ length src)%nat →
  ∃ r, memcpy dst d src s n = Ok r ∧ length r = length dst ∧
    ∀ i, r !! i = if decide (d ≤ i < d + n)%nat then src !! (s + (i - d))%nat else dst !! i.
Proof.
  intros Hd Hs. unfold memcpy. rewrite decide_True by done. eexists. split; [done|]. split.
  - rewrite !length_app, !length_take, !length_drop. lia.
  - intros i. destruct (decide (i < d)%nat).
    { rewrite decide_False by lia. rewrite lookup_app_l by (rewrite length_take; lia).
      by rewrite lookup_take_lt by lia. }
    rewrite lookup_app_r by (rewrite length_take; lia). rewrite length_take, min_l by lia.
    case_decide.
    + rewrite lookup_app_l by (rewrite length_take, length_drop; lia).
      by rewrite lookup_take_lt, lookup_drop by lia.
    + rewrite lookup_app_r by (rewrite length_take, length_drop; lia).
      rewrite length_take, length_drop, lookup_drop. f_equal. lia.
Qed.

Lemma arr_get_Ok {A} (l : list A) i x : l !! i = Some x → arr_get l i = Ok x.
Proof. by intros; apply deref_Ok. Qed.

Lemma arr_set_Ok {A} (l : list A) i x :
  (i < length l)%nat → arr_set l i x = Ok (<[i:=x]> l).
Proof. intros. unfold arr_set. by rewrite decide_True by done. Qed.

Lemma take_S_insert {A} (l : list A) i x :
  (i < length l)%nat → take (S i) (<[i:=x]> l) = take i l ++ [x].
Proof.
  intros Hi. erewrite take_S_r by (by apply list_lookup_insert_eq).
  by rewrite take_insert_ge.
Qed.

Lemma drop_lookup_cons {A} (l : list A) i x :
  l !! i = Some x → drop i l = x :: drop (S i) l.
Proof. apply drop_S. Qed.

Lemma filter_id {A} (P : A → Prop) `{!∀ x, Decision (P x)} l : Forall P l → filter P l = l.
Proof. induction 1 as [|x l Hx _ IH]; [done|]. rewrite filter_cons, decide_True by done. by f_equal. Qed.

Lemma filter_none {A} (P : A → Prop) `{!∀ x, Decision (P x)} (l : list A) : Forall (λ x, ¬ P x) l → filter P l = [].
Proof. induction 1 as [|x l Hx _ IH]; [done|]. by rewrite filter_cons, decide_False. Qed.

Lemma filter_ext_in {A} (P Q : A → Prop) `{!∀ x, Decision (P x), !∀ x, Decision (Q x)} (l : list A) :
  (∀ x, x ∈ l → P x ↔ Q x) → filter P l = filter Q l.
Proof.
  induction l as [|x l IH]; intros Hin; [done|]. rewrite !filter_cons.
  assert (IH' : filter P l = filter Q l) by (apply IH; intros y Hy; apply Hin; by right).
  assert (Hx : P x ↔ Q x) by (apply Hin; by left).
  destruct (decide (P x)); [rewrite decide_True by tauto|rewrite decide_False by tauto]; by rewrite IH'.
Qed.

Lemma NoDup_fmap_filter {A B} (f : A → B) (P : A → Prop) `{!∀ x, Decision (P x)} l :
  NoDup (f <$> l) → NoDup (f <$> filter P l).
Proof.
  induction l as [|x l IH]; [done|]. rewrite fmap_cons, NoDup_cons, filter_cons. intros [Hx Hl].
  case_decide; [|auto]. rewrite fmap_cons, NoDup_cons. split; [|auto].
  intros (y&Heq&[_ Hy]%list_elem_of_filter)%list_elem_of_fmap. apply Hx. rewrite Heq. by apply list_elem_of_fmap_2.
Qed.

Lemma StronglySorted_app_iff {A} (R : relation A) l1 l2 :
  StronglySorted R (l1 ++ l2) ↔
    StronglySorted R l1 ∧ StronglySorted R l2 ∧ (∀ x y, x ∈ l1 → y ∈ l2 → R x y).
Proof.
  induction l1 as [|x l1 IH]; simpl.
  - split; [intros; split_and!; [constructor|done|set_solver]|naive_solver].
  - split.
    + intros [H1 H2]%StronglySorted_inv. apply IH in H1 as (?&?&?).
      rewrite Forall_forall in H2. split_and!; [constructor|done|].
      * done.
      * apply Forall_forall. set_solver.
      * set_solver.
    + intros ([H1 H2]%StronglySorted_inv&?&H3). rewrite Forall_forall in H2.
      constructor; [apply IH; set_solver|]. apply Forall_forall. set_solver.
Qed.

Lemma StronglySorted_filter {A} (R : relation A) (P : A → Prop) `{!∀ x, Decision (P x)} l :
  StronglySorted R l → StronglySorted R (filter P l).
Proof.
  induction 1 as [|x l Hl IH HF]; [constructor|].
  rewrite filter_cons. case_decide; [|done]. constructor; [done|].
  rewrite Forall_forall in *. intros y [??]%list_elem_of_filter. auto.
Qed.

(** ** Pairs *)

Lemma fst_app_inv {A B} (l : list (A * B)) l1 (x : A) l2 :
  l.*1 = l1 ++ x :: l2 → ∃ k1 y k2, l = k1 ++ (x, y) :: k2 ∧ k1.*1 = l1 ∧ k2.*1 = l2.
Proof.
  revert l1. induction l as [|[a b] l IH]; intros [|c l1] H; simplify_eq/=.
  - by exists [], b, l.
  - destruct (IH l1) as (k1&y&k2&->&<-&<-); [done|]. by exists ((c, b) :: k1), y, k2.
Qed.

(** ** Little-endian layout *)

Definition le16 (x : Z) : list Z := [u8 x; u8 (Z.shiftr x 8)].
Definition le32 (x : Z) : list Z := le16 x ++ le16 (Z.shiftr x 16).
Definition of_le (l : list Z) : Z := foldr (λ b acc, b + 256 * acc) 0 l.
Definition field (l : list Z) (off n : nat) : Z := of_le (take n (drop off l)).

Lemma le16_of x : 0 ≤ x < 2 ^ 16 → of_le (le16 x) = x.
Proof.
  intros Hx. unfold of_le, le16, u8, wrap. cbn [foldr]. rewrite Z.shiftr_div_pow2 by lia.
  change (2 ^ 8) with 256. rewrite (Z.mod_small (x / 256)); [|split; [apply Z.div_pos; lia|apply Z.div_lt_upper_bound; lia]].
  pose proof (Z.div_mod x 256). lia.
Qed.

Lemma of_le_app l k : of_le (l ++ k) = of_le l + 256 ^ Z.of_nat (length l) * of_le k.
Proof.
  unfold of_le. induction l as [|b l IH]; cbn [app foldr length]; [lia|]. rewrite IH, Nat2Z.inj_succ, Z.pow_succ_r by lia. lia.
Qed.

Lemma le32_of x : 0 ≤ x < 2 ^ 32 → of_le (le32 x) = x.
Proof.
  intros Hx. unfold le32. rewrite of_le_app. assert (of_le (le16 x) = x mod 2 ^ 16) as ->.
  { rewrite <-(le16_of (x mod 2 ^ 16)) by (apply Z.mod_pos_bound; lia). unfold le16, u8, wrap. f_equal. f_equal; [|f_equal].
    - apply Z.bits_inj'. intros j Hj. destruct (decide (j < 8)).
      + by rewrite !Z.mod_pow2_bits_low by lia.
      + by rewrite !Z.mod_pow2_bits_high by lia.
    - apply Z.bits_inj'. intros j Hj. destruct (decide (j < 8)).
      + rewrite !Z.mod_pow2_bits_low, !Z.shiftr_spec, Z.mod_pow2_bits_low by lia. done.
      + by rewrite !Z.mod_pow2_bits_high by lia. }
  rewrite le16_of; [change (256 ^ Z.of_nat (length (le16 x))) with (2 ^ 16); rewrite Z.shiftr_div_pow2 by lia; pose proof (Z.div_mod x (2 ^ 16)); lia|].
  rewrite Z.shiftr_div_pow2 by lia. split; [apply Z.div_pos; lia|apply Z.div_lt_upper_bound; lia].
Qed.
