(* ===== verification/Memblock.v ===== *)
(** * Early memory map: [mm/memblock.c]

    The boot allocator keeps one RAM range and a fixed array of reserved
    regions, sorted by base.  [memblock_reserve] merges a new range into the
    array in place; [early_alloc] finds the lowest free aligned range and
    reserves it.  The abstract state is the set of reserved addresses of each
    kind ([covered]). *)
From stdpp Require Import base tactics numbers list sets sorting.
From S2P Require Import Prelude.

Definition MEMBLOCK_MAX_RESERVED : nat := 32.

Record memblock_region := Region { base : Z; size : Z; no_map : bool }.

Record memblock := Memblock {
  memory : memblock_region;
  reserved : list memblock_region;   (* the array, 32 entries *)
  nr_reserved : nat;
}.

(** [region->base + region->size] *)
Definition region_end (r : memblock_region) : Z := u64 (base r + size r).

Definition live (mb : memblock) : list memblock_region := take (nr_reserved mb) (reserved mb).

(** ** Operations *)

(** First loop of [memblock_reserve]: widen [base, end) by the touching
    regions of the same kind and count them. *)
Fixpoint reserve_scan (n i : nat) (regions : list memblock_region) (nm : bool)
    (b e : Z) (merged : nat) : res (Z * Z * nat) :=
  match n with
  | O => Ok (b, e, merged)
  | S n' =>
      let! region := arr_get regions i in
      if negb (Bool.eqb (no_map region) nm) || (base region >? e) || (region_end region <? b)
      then reserve_scan n' (S i) regions nm b e merged
      else reserve_scan n' (S i) regions nm
             (MIN b (base region)) (MAX e (region_end region)) (S merged)
  end.

(** Second loop: drop the merged regions by compacting the array in place. *)
Fixpoint reserve_compact (n i : nat) (regions : list memblock_region) (nm : bool)
    (b e : Z) (count : nat) : res (list memblock_region * nat) :=
  match n with
  | O => Ok (regions, count)
  | S n' =>
      let! region := arr_get regions i in
      if Bool.eqb (no_map region) nm && (base region <=? e) && (region_end region >=? b)
      then reserve_compact n' (S i) regions nm b e count
      else let! regions' := arr_set regions count region in
           reserve_compact n' (S i) regions' nm b e (S count)
  end.

(** [while (pos < count && regions[pos].base < base) ++pos;] *)
Fixpoint reserve_pos (n pos : nat) (regions : list memblock_region) (b : Z) : res nat :=
  match n with
  | O => Ok pos
  | S n' =>
      let! region := arr_get regions pos in
      if base region <? b then reserve_pos n' (S pos) regions b else Ok pos
  end.

Definition memblock_reserve (mb : memblock) (b sz : Z) (nm : bool) : res (Z * memblock) :=
  if negb (truth sz) then Ok (- EINVAL, mb) else
  if sz >? UINT64_MAX - b then Ok (- EOVERFLOW, mb) else
  let! (b', e', merged) :=
    reserve_scan (nr_reserved mb) 0 (reserved mb) nm b (u64 (b + sz)) 0 in
  if Nat.eqb (nr_reserved mb - merged) MEMBLOCK_MAX_RESERVED then Ok (- ENOSPC, mb) else
  let! (regions, count) :=
    reserve_compact (nr_reserved mb) 0 (reserved mb) nm b' e' 0 in
  let! pos := reserve_pos count 0 regions b' in
  let! regions := arr_move regions (pos + 1) pos (count - pos) in
  let! regions := arr_set regions pos (Region b' (u64 (e' - b')) nm) in
  Ok (0, Memblock (memory mb) regions (count + 1)).

(** The search loop of [early_alloc]; [inl] is an error return, [inr] the base
    found at the [break]. *)
Fixpoint early_search (fuel i : nat) (mb : memblock) (sz align limit b : Z) : res (Z + Z) :=
  match fuel with
  | O => Loop
  | S fuel' =>
      if (b >=? limit) || (align - 1 >? UINT64_MAX - b) then Ok (inl (- ENOMEM)) else
      let b := ALIGN_UP b align in
      if (b >=? limit) || (sz >? limit - b) then Ok (inl (- ENOMEM)) else
      if Nat.eqb i (nr_reserved mb) then Ok (inr b) else
      let! region := arr_get (reserved mb) i in
      if region_end region <=? b then early_search fuel' (S i) mb sz align limit b else
      if base region >=? u64 (b + sz) then Ok (inr b) else
      early_search fuel' (S i) mb sz align limit (region_end region)
  end.

(** Returns the error code, the new state and [*paddr] when it is written. *)
Definition early_alloc (mb : memblock) (sz align : Z) : res (Z * memblock * option Z) :=
  if sz >? SIZE_MAX - (PAGE_SIZE - 1) then Ok (- EOVERFLOW, mb, None) else
  let sz := ALIGN_UP sz PAGE_SIZE in
  let align := MAX align PAGE_SIZE in
  let b := base (memory mb) in
  let limit := u64 (b + size (memory mb)) in
  let! found := early_search (S (nr_reserved mb)) 0 mb sz align limit b in
  match found with
  | inl err => Ok (err, mb, None)
  | inr b =>
      let! (ret, mb') := memblock_reserve mb b sz false in
      if truth ret then Ok (ret, mb', None) else Ok (0, mb', Some b)
  end.

(** Callbacks of the device-tree scans in [memblock_init]. *)
Definition register_memory (mb : memblock) (b sz : Z) : Z * memblock :=
  if truth (size (memory mb)) then (- EOPNOTSUPP, mb)
  else (0, Memblock (Region b sz (no_map (memory mb))) (reserved mb) (nr_reserved mb)).

Definition register_reserved (mb : memblock) (b sz : Z) (nm : bool) : res (Z * memblock) :=
  memblock_reserve mb b sz nm.

(** ** Invariant and abstraction *)

Definition valid_region (r : memblock_region) : Prop :=
  0 ≤ base r ∧ 0 < size r ∧ base r + size r ≤ UINT64_MAX.

(** Sorted by base; regions of one kind neither overlap nor touch. *)
Definition before (r1 r2 : memblock_region) : Prop :=
  base r1 ≤ base r2 ∧ (no_map r1 = no_map r2 → base r1 + size r1 < base r2).

Record wf (mb : memblock) : Prop := {
  wf_len : length (reserved mb) = MEMBLOCK_MAX_RESERVED;
  wf_nr : (nr_reserved mb ≤ MEMBLOCK_MAX_RESERVED)%nat;
  wf_valid : Forall valid_region (live mb);
  wf_sorted : StronglySorted before (live mb);
}.

Definition covers (r : memblock_region) (a : Z) : Prop := base r ≤ a < base r + size r.

Definition covered (mb : memblock) (k : bool) (a : Z) : Prop :=
  ∃ r, r ∈ live mb ∧ no_map r = k ∧ covers r a.

Definition touches (k : bool) (b e : Z) (r : memblock_region) : Prop :=
  no_map r = k ∧ base r ≤ e ∧ b ≤ base r + size r.
#[export] Instance touches_dec k b e r : Decision (touches k b e r).
Proof. unfold touches. apply _. Defined.

Lemma region_end_valid r : valid_region r → region_end r = base r + size r.
Proof.
  intros (?&?&?). unfold region_end. apply u64_small. unfold in_u64, UINT64_MAX in *. lia.
Qed.

(** ** The loops on lists *)

Section scan.
Context (k : bool).

Definition test (b e : Z) (r : memblock_region) : bool :=
  negb (Bool.eqb (no_map r) k) || (base r >? e) || (region_end r <? b).

Lemma test_false b e r : valid_region r → test b e r = false ↔ touches k b e r.
Proof.
  intros Hr. unfold test, touches. rewrite region_end_valid by done.
  rewrite !orb_false_iff, negb_false_iff, eqb_true_iff, Z.gtb_ltb, !Z.ltb_ge. tauto.
Qed.

Fixpoint scan (L : list memblock_region) (b e : Z) (m : nat) : Z * Z * nat :=
  match L with
  | [] => (b, e, m)
  | r :: L' =>
      if test b e r then scan L' b e m
      else scan L' (MIN b (base r)) (MAX e (region_end r)) (S m)
  end.

Lemma reserve_scan_list n i regions b e m :
  (i + n ≤ length regions)%nat →
  reserve_scan n i regions k b e m = Ok (scan (take n (drop i regions)) b e m).
Proof.
  revert i b e m. induction n as [|n IH]; intros i b e m Hlen; [done|].
  destruct (lookup_lt_is_Some_2 regions i) as [r Hr]; [lia|].
  simpl. rewrite (arr_get_Ok _ _ r) by done. simpl.
  rewrite (drop_lookup_cons _ _ r) by done. simpl.
  fold (test b e r). destruct (test b e r); rewrite IH by lia; done.
Qed.

(** What the scan computes on a sorted list: the hull of the range and of
    exactly those regions that touch the final hull. *)
Lemma scan_spec L b e m b' e' m' :
  Forall valid_region L → StronglySorted before L → 0 ≤ b → b < e → e ≤ UINT64_MAX →
  scan L b e m = (b', e', m') →
  0 ≤ b' ≤ b ∧ e ≤ e' ≤ UINT64_MAX ∧
  (∀ lo, lo < b → (∀ r, r ∈ L → no_map r = k → lo < base r) → lo < b') ∧
  ((∀ r, r ∈ L → no_map r = k → e < base r) → b' = b ∧ e' = e) ∧
  m' = (m + length (filter (touches k b' e') L))%nat ∧
  (∀ a, b' ≤ a < e' ↔ b ≤ a < e ∨ ∃ r, r ∈ filter (touches k b' e') L ∧ covers r a).
Proof.
  revert b e m. induction L as [|r L IH]; intros b e m HV HS Hb Hbe He Hscan; simpl in Hscan.
  { simplify_eq. split_and!; try done; try (simpl; lia); auto.
    - intros a. split; [by left|]. intros [?|(r&Hr&_)]; [done|]. by apply not_elem_of_nil in Hr. }
  apply Forall_cons in HV as [Hr HV]. apply StronglySorted_inv in HS as [HS HF].
  rewrite Forall_forall in HF. assert (Hr' := Hr). destruct Hr' as (?&?&?).
  destruct (test b e r) eqn:Ht.
  - assert (Hnt : ¬ touches k b e r) by (rewrite <-test_false, Ht by done; done).
    apply IH in Hscan as (?&?&Hlo&Hhi&Hm&Hcov); try done.
    assert (Hnt' : ¬ touches k b' e' r).
    { intros (Hk&Hbr&Her). destruct (decide (e < base r)).
      - destruct Hhi as [-> ->]; [|lia].
        intros r' Hr'L Hk'. destruct (HF r' Hr'L) as [_ Hsep].
        rewrite Hk, Hk' in Hsep. specialize (Hsep eq_refl). lia.
      - assert (base r + size r < b') as ?; [|lia]. apply Hlo.
        + destruct (decide (b ≤ base r + size r)); [|lia]. destruct Hnt. split_and!; [done|lia..].
        + intros r' Hr'L Hk'. destruct (HF r' Hr'L) as [_ Hsep]. apply Hsep. congruence. }
    rewrite filter_cons_False by done. split_and!; try lia; try done.
    + intros lo Hlo1 Hlo2. apply Hlo; [done|]. intros ???. apply Hlo2; [set_solver|done].
    + intros Hall. apply Hhi. intros ???. apply Hall; [set_solver|done].
  - assert (Htr : touches k b e r) by by apply test_false.
    rewrite MIN_spec, MAX_spec, region_end_valid in Hscan by done.
    destruct Htr as (Hk&Hbr&Her). pose proof Hr as (?&?&?).
    apply IH in Hscan as (?&?&Hlo&Hhi&Hm&Hcov); try done; try lia.
    assert (Htr' : touches k b' e' r) by (unfold touches; split_and!; [done|lia..]).
    rewrite filter_cons_True by done. split_and!; try lia.
    + intros lo Hlo1 Hlo2. apply Hlo.
      * pose proof (Hlo2 r ltac:(set_solver) Hk). lia.
      * intros ???. apply Hlo2; [set_solver|done].
    + intros Hall. pose proof (Hall r ltac:(set_solver) Hk). lia.
    + simpl. lia.
    + intros a. rewrite Hcov. unfold covers. split.
      * intros [?|(r'&?&?)]; [|right; exists r'; set_solver].
        destruct (decide (b ≤ a < e)); [by left|]. right. exists r. set_solver by lia.
      * intros [?|(r'&[->|?]%elem_of_cons&?)]; [left; lia|left; lia|right; exists r'; set_solver].
Qed.

Lemma reserve_compact_list n i regions b e count :
  (count ≤ i)%nat → (i + n ≤ length regions)%nat →
  Forall valid_region (take n (drop i regions)) →
  ∃ regions' count',
    reserve_compact n i regions k b e count = Ok (regions', count') ∧
    length regions' = length regions ∧ (count' ≤ i + n)%nat ∧
    take count' regions' =
      take count regions ++ filter (λ r, ¬ touches k b e r) (take n (drop i regions)).
Proof.
  revert i regions count. induction n as [|n IH]; intros i regions count Hc Hlen HV.
  { exists regions, count. simpl. rewrite app_nil_r. split_and!; (done || lia). }
  destruct (lookup_lt_is_Some_2 regions i) as [r Hr]; [lia|].
  rewrite (drop_lookup_cons _ _ r) in HV |- * by done. simpl in HV |- *.
  apply Forall_cons in HV as [Hvr HV]. rewrite (arr_get_Ok _ _ r) by done. simpl.
  assert (Htest : Bool.eqb (no_map r) k && (base r <=? e) && (region_end r >=? b) =
    negb (test b e r)).
  { unfold test. rewrite !negb_orb, negb_involutive, Z.gtb_ltb, Z.geb_leb, Z.leb_antisym.
    by rewrite (Z.leb_antisym (region_end r) b). }
  rewrite Htest. destruct (test b e r) eqn:Ht; simpl.
  - assert (¬ touches k b e r) by (rewrite <-test_false, Ht by done; done).
    rewrite arr_set_Ok by lia. simpl. rewrite filter_cons_True by done.
    destruct (IH (S i) (<[count:=r]> regions) (S count)) as (rs&c'&->&?&?&Htake);
      [lia|rewrite length_insert; lia|by rewrite drop_insert_lt by lia|].
    rewrite length_insert in *. exists rs, c'. split_and!; [done|done|lia|].
    rewrite Htake, take_S_insert, drop_insert_lt by lia. by rewrite <-app_assoc.
  - assert (touches k b e r) by by apply test_false.
    rewrite filter_cons_False by auto.
    destruct (IH (S i) regions count) as (rs&c'&->&?&?&?); [lia..|done|].
    exists rs, c'. split_and!; (done || lia).
Qed.
End scan.

Lemma reserve_pos_list n pos regions b :
  (pos + n ≤ length regions)%nat →
  ∃ pos', reserve_pos n pos regions b = Ok pos' ∧ (pos ≤ pos' ≤ pos + n)%nat ∧
    Forall (λ r, base r < b) (take (pos' - pos) (drop pos regions)) ∧
    (∀ r, (pos' < pos + n)%nat → regions !! pos' = Some r → b ≤ base r).
Proof.
  revert pos. induction n as [|n IH]; intros pos Hlen; simpl.
  { exists pos. rewrite Nat.sub_diag. split_and!; [done|lia|lia|done|lia]. }
  destruct (lookup_lt_is_Some_2 regions pos) as [r Hr]; [lia|].
  rewrite (arr_get_Ok _ _ r) by done. simpl. destruct (Z.ltb_spec (base r) b).
  - destruct (IH (S pos)) as (p&->&?&HF&Hp); [lia|]. exists p.
    split_and!; [done|lia|lia| |intros; apply Hp; [lia|done]].
    rewrite (drop_lookup_cons _ _ r) by done.
    replace (p - pos)%nat with (S (p - S pos)) by lia. simpl. by constructor.
  - exists pos. rewrite Nat.sub_diag. split_and!; [done|lia|lia|done|naive_solver].
Qed.

(** The [memmove] and the store insert one element into the live prefix. *)
Lemma array_insert {A} (l : list A) count pos x :
  (pos ≤ count)%nat → (count < length l)%nat →
  ∃ l1 l2, arr_move l (pos + 1) pos (count - pos) = Ok l1 ∧
    arr_set l1 pos x = Ok l2 ∧ length l2 = length l ∧
    take (count + 1) l2 = take pos (take count l) ++ x :: drop pos (take count l).
Proof.
  intros Hp Hc. unfold arr_move. rewrite decide_True by lia.
  set (l1 := take (pos + 1) l ++ take (count - pos) (drop pos l) ++
    drop (pos + 1 + (count - pos)) l).
  exists l1, (<[pos:=x]> l1). split; [done|].
  assert (Hl1 : length l1 = length l).
  { unfold l1. rewrite !length_app, !length_take, !length_drop. lia. }
  split; [by rewrite arr_set_Ok by lia|]. split; [by rewrite length_insert|].
  rewrite insert_take_drop by lia.
  assert (take pos l1 = take pos l) as ->.
  { unfold l1. rewrite take_app_le by (rewrite length_take; lia).
    by rewrite take_take, Nat.min_l by lia. }
  assert (drop (S pos) l1 = take (count - pos) (drop pos l) ++ drop (count + 1) l) as ->.
  { unfold l1. rewrite drop_app_length' by (rewrite length_take; lia).
    by replace (pos + 1 + (count - pos))%nat with (count + 1)%nat by lia. }
  rewrite take_take, Nat.min_l, skipn_firstn_comm by lia.
  rewrite take_app_ge by (rewrite length_take; lia). f_equal.
  rewrite length_take, Nat.min_l by lia.
  replace (count + 1 - pos)%nat with (S (count - pos)) by lia. simpl. f_equal.
  rewrite take_app_length' by (rewrite length_take, length_drop; lia). done.
Qed.

(** Inserting the hull of a scan between the regions it does not touch keeps
    the order. *)
Lemma insert_sorted k b e K1 K2 :
  let K := K1 ++ K2 in let N := Region b (e - b) k in
  0 ≤ b → b < e →
  Forall valid_region K → StronglySorted before K →
  (∀ r, r ∈ K → ¬ touches k b e r) →
  (∀ r, r ∈ K1 → base r < b) → (∀ r, r ∈ K2 → b ≤ base r) →
  StronglySorted before (K1 ++ N :: K2).
Proof.
  intros K N Hb Hbe HV HS HT H1 H2. rewrite Forall_forall in HV.
  apply StronglySorted_app_iff in HS as (HS1&HS2&HS12).
  apply StronglySorted_app_iff. split_and!; [done| |].
  - constructor; [done|]. apply Forall_forall. intros r Hr. split; simpl; [auto|].
    intros Hk. destruct (HV r) as (?&?&?); [set_solver|].
    pose proof (HT r ltac:(set_solver)) as Hn. specialize (H2 r Hr).
    destruct (decide (base r ≤ e)); [|lia]. destruct Hn. split_and!; [done|lia..].
  - intros r r' Hr [->|Hr']%elem_of_cons; [|auto].
    specialize (H1 r Hr). split; simpl; [lia|]. intros Hk.
    destruct (decide (b ≤ base r + size r)); [|lia].
    destruct (HT r); [set_solver|]. split_and!; [done|lia..].
Qed.

(** The sorted prefix splits at the position the search stops at. *)
Lemma pos_split L pos b :
  StronglySorted before L → (pos ≤ length L)%nat →
  (∀ r, (pos < length L)%nat → L !! pos = Some r → b ≤ base r) →
  ∀ r, r ∈ drop pos L → b ≤ base r.
Proof.
  intros HS Hp Hpos r Hr. destruct (decide (pos < length L)%nat) as [Hlt|Hge].
  - destruct (lookup_lt_is_Some_2 L pos) as [r0 Hr0]; [done|].
    specialize (Hpos r0 Hlt Hr0). rewrite (drop_lookup_cons _ _ r0) in Hr by done.
    apply elem_of_cons in Hr as [->|Hr]; [done|].
    rewrite <-(take_drop pos L), (drop_lookup_cons _ _ r0) in HS by done.
    apply StronglySorted_app_iff in HS as (_&[_ HF]%StronglySorted_inv&_).
    rewrite Forall_forall in HF. destruct (HF r Hr). lia.
  - rewrite drop_ge in Hr by lia. by apply not_elem_of_nil in Hr.
Qed.

(** ** [memblock_reserve] *)

Definition count_kind (k : bool) (b e : Z) (L : list memblock_region) : nat :=
  length (filter (touches k b e) L).

Lemma filter_split_length {A} (P : A → Prop) `{!∀ x, Decision (P x)} (l : list A) :
  (length (filter P l) + length (filter (λ x, ¬ P x) l) = length l)%nat.
Proof.
  induction l as [|x l IH]; [done|]. rewrite !filter_cons.
  destruct (decide (P x)); destruct (decide (¬ P x)); simpl; (done || lia).
Qed.

Lemma live_length mb : wf mb → length (live mb) = nr_reserved mb.
Proof. intros [Hl Hn _ _]. unfold live. rewrite length_take. lia. Qed.

(** The path that stores the new region. *)
Lemma reserve_store mb k b e b' e' merged :
  wf mb → 0 ≤ b → b < e → e ≤ UINT64_MAX →
  scan k (live mb) b e 0 = (b', e', merged) →
  (nr_reserved mb - merged)%nat ≠ MEMBLOCK_MAX_RESERVED →
  ∃ mb',
    (let! (regions, count) :=
       reserve_compact (nr_reserved mb) 0 (reserved mb) k b' e' 0 in
     let! pos := reserve_pos count 0 regions b' in
     let! regions := arr_move regions (pos + 1) pos (count - pos) in
     let! regions := arr_set regions pos (Region b' (u64 (e' - b')) k) in
     Ok (0, Memblock (memory mb) regions (count + 1))) = Ok (0, mb') ∧
    wf mb' ∧ memory mb' = memory mb ∧
    (∀ r, r ∈ live mb' ↔ r = Region b' (e' - b') k ∨ (r ∈ live mb ∧ ¬ touches k b' e' r)).
Proof.
  intros Hwf Hb Hbe He Hscan Hroom. pose proof (live_length mb Hwf) as Hll.
  destruct Hwf as [Hlen Hnr HV HS].
  pose proof (scan_spec k _ _ _ _ _ _ _ HV HS Hb Hbe He Hscan) as (Hb'&He'&_&_&Hm&_).
  destruct (reserve_compact_list k (nr_reserved mb) 0 (reserved mb) b' e' 0)
    as (rs&count&Hcomp&Hrl&Hcn&Htake); [lia|lia|exact HV|].
  rewrite Hcomp. simpl. change (take (nr_reserved mb) (drop 0 (reserved mb))) with (live mb) in *.
  set (K := filter (λ r, ¬ touches k b' e' r) (live mb)) in *. simpl in Htake.
  assert (HKlen : length K = count) by (rewrite <-Htake, length_take; lia).
  pose proof (filter_split_length (touches k b' e') (live mb)) as Hsplit. fold K in Hsplit.
  assert (Hcl : (count < length rs)%nat).
  { unfold MEMBLOCK_MAX_RESERVED in *. simpl in Hm. lia. }
  destruct (reserve_pos_list count 0 rs b') as (pos&Hpos&Hple&HFp&Hpp); [lia|].
  rewrite Hpos. simpl.
  destruct (array_insert rs count pos (Region b' (u64 (e' - b')) k)) as (l1&l2&->&Hset&Hl2&Ht2);
    [lia..|].
  simpl. rewrite Hset. simpl. eexists. split; [done|].
  rewrite u64_small in Ht2 by (unfold in_u64, UINT64_MAX in *; lia).
  rewrite Htake in Ht2. rewrite Nat.sub_0_r, drop_0 in HFp.
  assert (HKs : StronglySorted before K) by by apply StronglySorted_filter.
  assert (HKv : Forall valid_region K).
  { rewrite Forall_forall in HV |- *. intros r [_ Hr]%list_elem_of_filter. auto. }
  assert (Hpos1 : take pos rs = take pos K) by (rewrite <-Htake, take_take; f_equal; lia).
  assert (Hpos2 : ∀ r, r ∈ drop pos K → b' ≤ base r).
  { apply pos_split; [done|lia|]. intros r Hlt Hr. apply (Hpp r); [lia|].
    rewrite <-Hr, <-Htake, lookup_take_lt by lia. done. }
  assert (Hmem : ∀ r, r ∈ take pos K ++ Region b' (e' - b') k :: drop pos K ↔
    r = Region b' (e' - b') k ∨ r ∈ K).
  { intros r. rewrite <-(take_drop pos K) at 3. set_solver. }
  split_and!; [|done|].
  - split; simpl.
    + lia.
    + lia.
    + unfold live. simpl. rewrite Ht2. apply Forall_forall. intros r Hr%Hmem.
      rewrite Forall_forall in HKv. destruct Hr as [->|Hr]; [|auto].
      unfold valid_region; simpl; lia.
    + unfold live. simpl. rewrite Ht2. apply insert_sorted; rewrite ?take_drop; try done; try lia.
      * intros r [??]%list_elem_of_filter. done.
      * rewrite Hpos1 in HFp. rewrite Forall_forall in HFp. done.
  - intros r. unfold live at 1. simpl. rewrite Ht2, Hmem. unfold K.
    rewrite list_elem_of_filter. naive_solver.
Qed.

(** How [memblock_reserve] may return, and what it does to the map. *)
Definition reserve_outcome (mb : memblock) (b sz : Z) (nm : bool) (ret : Z) (mb' : memblock) : Prop :=
  (ret = 0 ∧ 0 < sz ∧ b + sz ≤ UINT64_MAX ∧
   ∀ k a, covered mb' k a ↔ covered mb k a ∨ (k = nm ∧ b ≤ a < b + sz)) ∨
  (ret = - EINVAL ∧ sz = 0 ∧ mb' = mb) ∨
  (ret = - EOVERFLOW ∧ b + sz > UINT64_MAX ∧ mb' = mb) ∨
  (ret = - ENOSPC ∧ mb' = mb ∧ nr_reserved mb = MEMBLOCK_MAX_RESERVED ∧
   ∀ r, r ∈ live mb → ¬ touches nm b (b + sz) r).

Lemma reserve_spec mb b sz nm :
  wf mb → in_u64 b → in_u64 sz →
  ∃ ret mb', memblock_reserve mb b sz nm = Ok (ret, mb') ∧ wf mb' ∧ memory mb' = memory mb ∧
    reserve_outcome mb b sz nm ret mb'.
Proof.
  intros Hwf Hb Hsz. pose proof (live_length mb Hwf) as Hll. pose proof Hwf as [Hlen Hnr HV HS].
  unfold in_u64 in *. unfold reserve_outcome, memblock_reserve, truth. rewrite negb_involutive.
  destruct (Z.eqb_spec sz 0); [by exists (- EINVAL), mb; eauto 8|].
  rewrite Z.gtb_ltb. destruct (Z.ltb_spec (UINT64_MAX - b) sz).
  { exists (- EOVERFLOW), mb. split_and!; auto. right; right; left. split_and!; (done || lia). }
  rewrite u64_small by (unfold in_u64, UINT64_MAX in *; lia).
  rewrite reserve_scan_list by lia. rewrite drop_0.
  change (take (nr_reserved mb) (reserved mb)) with (live mb).
  destruct (scan nm (live mb) b (b + sz) 0) as [[b' e'] merged] eqn:Hscan. simpl res_bind at 1.
  cbn beta iota.
  pose proof (scan_spec nm _ b (b + sz) _ _ _ _ HV HS ltac:(lia) ltac:(lia) ltac:(lia) Hscan)
    as (Hb'&He'&_&_&Hm&Hcov).
  pose proof (filter_split_length (touches nm b' e') (live mb)) as Hsplit.
  destruct (Nat.eqb_spec (nr_reserved mb - merged) MEMBLOCK_MAX_RESERVED) as [Hfull|Hroom].
  { exists (- ENOSPC), mb. split_and!; auto. right; right; right.
    assert (merged = 0%nat) as -> by lia. split_and!; [done|done|lia|].
    intros r Hr (?&?&?). assert (r ∈ filter (touches nm b' e') (live mb)) as Hin.
    { apply list_elem_of_filter. split; [|done]. split_and!; [done|lia..]. }
    destruct (filter (touches nm b' e') (live mb)); [by apply not_elem_of_nil in Hin|done]. }
  destruct (reserve_store mb nm b (b + sz) b' e' merged) as (mb'&->&Hwf'&Hmem&Hlive);
    [done|lia..|done|done|].
  exists 0, mb'. split_and!; [done..|]. left. split_and!; [done|lia|lia|].
  intros k a. unfold covered. setoid_rewrite Hlive. split.
  - intros (r&[->|[Hr _]]&Hk&Hc); [|left; eauto]. simpl in Hk. unfold covers in Hc. simpl in Hc.
    destruct (proj1 (Hcov a)) as [?|(r'&[[? ?]?]%list_elem_of_filter&?)]; [lia|by right|].
    left. exists r'. split_and!; [done|congruence|done].
  - intros [(r&Hr&Hk&Hc)|[-> Ha]].
    + destruct (decide (touches nm b' e' r)) as [Ht|Ht]; [|exists r; auto].
      exists (Region b' (e' - b') nm). split; [by left|]. destruct Ht as [Hk' ?].
      split; [simpl; congruence|]. unfold covers. simpl.
      cut (b' ≤ a < e'); [lia|]. apply Hcov. right. exists r.
      split; [|done]. apply list_elem_of_filter. done.
    + exists (Region b' (e' - b') nm). split; [by left|]. split; [done|].
      unfold covers. simpl. cut (b' ≤ a < e'); [lia|]. apply Hcov. by left.
Qed.

(** C13: [memblock_reserve] refines set union on the reserved addresses of each
    kind.  On a well-formed map it always returns (no array access is out of
    bounds) and keeps the map well formed: sorted by base, regions of one kind
    neither overlapping nor touching, at most 32 entries.  It returns 0 and adds
    exactly [base, base+size) to the requested kind, or returns -EINVAL for an
    empty range, -EOVERFLOW for one past 2^64, or -ENOSPC when all 32 entries
    are used and none can be merged, leaving the map unchanged. *)
Theorem memblock_reserve_refines mb b sz nm :
  wf mb → in_u64 b → in_u64 sz →
  ∃ ret mb', memblock_reserve mb b sz nm = Ok (ret, mb') ∧ wf mb' ∧ memory mb' = memory mb ∧
    reserve_outcome mb b sz nm ret mb'.
Proof. apply reserve_spec. Qed.

(** ** [early_alloc] *)

(** [c] is an aligned place for [sz] bytes of unreserved RAM. *)
Definition fits (mb : memblock) (sz align c : Z) : Prop :=
  base (memory mb) ≤ c ∧ c mod align = 0 ∧
  c + sz ≤ base (memory mb) + size (memory mb) ∧
  ∀ k x, c ≤ x < c + sz → ¬ covered mb k x.

Definition apart (sz c : Z) (r : memblock_region) : Prop :=
  base r + size r ≤ c ∨ c + sz ≤ base r.

Lemma uncovered_apart mb sz c :
  wf mb → 0 < sz →
  (∀ k x, c ≤ x < c + sz → ¬ covered mb k x) ↔ ∀ r, r ∈ live mb → apart sz c r.
Proof.
  intros Hwf Hsz. pose proof (wf_valid _ Hwf) as HV. rewrite Forall_forall in HV. split.
  - intros Hu r Hr. destruct (HV r Hr) as (?&?&?). unfold apart.
    destruct (decide (base r + size r ≤ c)); [by left|].
    destruct (decide (c + sz ≤ base r)); [by right|].
    destruct (Hu (no_map r) (Z.max c (base r))); [lia|].
    exists r. unfold covers. split_and!; (done || lia).
  - intros Ha k x Hx (r&Hr&_&Hc). unfold covers in Hc. destruct (Ha r Hr); lia.
Qed.

Lemma aligned_least k b c y :
  0 ≤ k → y mod 2 ^ k = 0 → b ≤ y < b + 2 ^ k → c mod 2 ^ k = 0 → b ≤ c → y ≤ c.
Proof.
  intros Hk Hy Hby Hc Hbc. assert (0 < 2 ^ k) by lia.
  apply Z.mod_divide in Hy as [p ->]; [|lia]. apply Z.mod_divide in Hc as [q ->]; [|lia].
  assert (p < q + 1) by (apply (Z.mul_lt_mono_pos_r (2 ^ k)); lia).
  apply Z.mul_le_mono_nonneg_r; lia.
Qed.

Lemma aligned_none k b c :
  0 ≤ k < 64 → 2 ^ k - 1 > UINT64_MAX - b → c mod 2 ^ k = 0 → b ≤ c → 2 ^ 64 ≤ c.
Proof.
  intros Hk Hb Hc Hbc. unfold UINT64_MAX in Hb. assert (0 < 2 ^ k) by lia.
  apply Z.mod_divide in Hc as [q ->]; [|lia].
  assert (Hp : 2 ^ 64 = 2 ^ (64 - k) * 2 ^ k).
  { rewrite <-Z.pow_add_r by lia. by replace (64 - k + k) with 64 by lia. }
  rewrite Hp in *.
  assert (2 ^ (64 - k) < q + 1) by (apply (Z.mul_lt_mono_pos_r (2 ^ k)); lia).
  apply Z.mul_le_mono_nonneg_r; lia.
Qed.

Section search.
Context (mb : memblock) (sz k : Z).
Hypothesis Hwf : wf mb.
Hypothesis Hmem : valid_region (memory mb).
Hypothesis Hk : 0 ≤ k < 64.
Hypothesis Hsz : 0 < sz < 2 ^ 64.
Let limit := base (memory mb) + size (memory mb).

Lemma early_search_spec fuel i b :
  (nr_reserved mb < fuel + i)%nat → (i ≤ nr_reserved mb)%nat →
  base (memory mb) ≤ b ≤ UINT64_MAX →
  (∀ r, r ∈ take i (live mb) → base r + size r ≤ b) →
  (∀ c, fits mb sz (2 ^ k) c → b ≤ c) →
  ∃ found, early_search fuel i mb sz (2 ^ k) limit b = Ok found ∧
    match found with
    | inl err => err = - ENOMEM ∧ ∀ c, ¬ fits mb sz (2 ^ k) c
    | inr a => fits mb sz (2 ^ k) a ∧ ∀ c, fits mb sz (2 ^ k) c → a ≤ c
    end.
Proof.
  pose proof (wf_valid _ Hwf) as HV. pose proof (wf_sorted _ Hwf) as HS.
  pose proof (live_length _ Hwf) as Hll. rewrite Forall_forall in HV.
  destruct Hmem as (Hm1&Hm2&Hm3). assert (0 < 2 ^ k) by lia.
  revert i b. induction fuel as [|fuel IH]; intros i b Hfuel Hi Hb Hearly Hleast; [lia|].
  simpl. rewrite Z.geb_leb, Z.gtb_ltb.
  destruct (Z.leb_spec limit b); simpl.
  { eexists. split; [done|]. split; [done|]. intros c Hc. pose proof (Hleast c Hc).
    destruct Hc as (?&?&?&?). unfold limit in *. lia. }
  destruct (Z.ltb_spec (UINT64_MAX - b) (2 ^ k - 1)).
  { eexists. split; [done|]. split; [done|]. intros c Hc. pose proof (Hleast c Hc).
    destruct Hc as (?&?&?&?). pose proof (aligned_none k b c). unfold UINT64_MAX in *. lia. }
  destruct (ALIGN_UP_spec b k) as [Hal Hup]; [lia|lia|unfold UINT64_MAX in *; lia|].
  set (b1 := ALIGN_UP b (2 ^ k)) in *.
  assert (Hleast1 : ∀ c, fits mb sz (2 ^ k) c → b1 ≤ c).
  { intros c Hc. pose proof (Hleast c Hc). destruct Hc as (?&?&?&?).
    apply (aligned_least k b); (done || lia). }
  rewrite Z.geb_leb, Z.gtb_ltb.
  destruct (Z.leb_spec limit b1); simpl.
  { eexists. split; [done|]. split; [done|]. intros c Hc. pose proof (Hleast1 c Hc).
    destruct Hc as (?&?&?&?). unfold limit in *. lia. }
  destruct (Z.ltb_spec (limit - b1) sz).
  { eexists. split; [done|]. split; [done|]. intros c Hc. pose proof (Hleast1 c Hc).
    destruct Hc as (?&?&?&?). unfold limit in *. lia. }
  assert (Hfit : (∀ r, r ∈ drop i (live mb) → b1 + sz ≤ base r) → fits mb sz (2 ^ k) b1).
  { intros Hlate. split_and!; [lia|done|unfold limit in *; lia|].
    apply uncovered_apart; [done|lia|]. intros r Hr. rewrite <-(take_drop i (live mb)) in Hr.
    apply elem_of_app in Hr as [Hr|Hr]; [left; specialize (Hearly r Hr); lia|right; auto]. }
  destruct (Nat.eqb_spec i (nr_reserved mb)) as [Heq|Hne].
  { eexists. split; [done|]. split; [|done]. apply Hfit. intros r Hr.
    rewrite drop_ge in Hr by lia. by apply not_elem_of_nil in Hr. }
  destruct (lookup_lt_is_Some_2 (live mb) i) as [r Hr]; [lia|].
  rewrite (arr_get_Ok _ _ r) by (unfold live in Hr; by apply lookup_take_Some in Hr as [? _]).
  assert (Hin : r ∈ live mb) by (by eapply list_elem_of_lookup_2).
  simpl. rewrite region_end_valid by auto. destruct (HV r Hin) as (?&?&?).
  assert (Htake : ∀ b', base r + size r ≤ b' → b ≤ b' →
    ∀ r', r' ∈ take (S i) (live mb) → base r' + size r' ≤ b').
  { intros b' ?? r'. erewrite take_S_r by done.
    intros [Hr'|Hr']%elem_of_app; [specialize (Hearly r' Hr'); lia|set_solver]. }
  destruct (Z.leb_spec (base r + size r) b1).
  { apply IH; [lia|lia|unfold limit in *; lia|by apply Htake; [|lia]|done]. }
  rewrite u64_small, Z.geb_leb by (unfold in_u64, limit, UINT64_MAX in *; lia).
  destruct (Z.leb_spec (b1 + sz) (base r)).
  { eexists. split; [done|]. split; [|done]. apply Hfit.
    apply pos_split; [done|lia|]. intros r' _ Hr'. simplify_eq. done. }
  apply IH; [lia|lia|lia|by apply Htake; [|lia]|].
  intros c Hc. pose proof (Hleast1 c Hc). destruct Hc as (?&?&?&Hu).
  rewrite uncovered_apart in Hu by (done || lia). destruct (Hu r Hin); lia.
Qed.
End search.

(** [early_alloc] is a lowest-fit allocator over unreserved RAM.  With a
    well-formed map, a valid RAM range and a power-of-two alignment it always
    returns; on success the address is the lowest aligned one whose
    page-rounded range lies in RAM and meets no reserved region, and exactly
    that range becomes reserved; -ENOMEM is returned only when no such place
    exists; on every error the map is unchanged and no address is written. *)
Theorem early_alloc_lowest_fit mb sz k :
  wf mb → valid_region (memory mb) → 0 < sz → in_u64 sz → 0 ≤ k < 64 →
  let bytes := ALIGN_UP sz PAGE_SIZE in
  let al := Z.max (2 ^ k) PAGE_SIZE in
  ∃ ret mb' p, early_alloc mb sz (2 ^ k) = Ok (ret, mb', p) ∧ wf mb' ∧ memory mb' = memory mb ∧
    ((∃ a, ret = 0 ∧ p = Some a ∧ sz ≤ bytes ∧ fits mb bytes al a ∧
        (∀ c, fits mb bytes al c → a ≤ c) ∧
        ∀ kd x, covered mb' kd x ↔ covered mb kd x ∨ (kd = false ∧ a ≤ x < a + bytes)) ∨
     (p = None ∧ mb' = mb ∧
      ((ret = - EOVERFLOW ∧ sz > SIZE_MAX - (PAGE_SIZE - 1)) ∨
       (ret = - ENOMEM ∧ ∀ c, ¬ fits mb bytes al c) ∨
       (ret = - ENOSPC ∧ nr_reserved mb = MEMBLOCK_MAX_RESERVED)))).
Proof.
  intros Hwf Hmem Hsz Hsz64 Hk bytes al. unfold early_alloc.
  rewrite Z.gtb_ltb. destruct (Z.ltb_spec (SIZE_MAX - (PAGE_SIZE - 1)) sz).
  { exists (- EOVERFLOW), mb, None. split_and!; [done..|]. right. split_and!; [done..|].
    left. split; [done|lia]. }
  fold bytes. rewrite MAX_spec. fold al. pose proof Hmem as (?&?&?).
  destruct (ALIGN_UP_spec sz 12) as [_ Hby]; [lia|lia|unfold SIZE_MAX, UINT64_MAX, PAGE_SIZE in *; lia|].
  change (2 ^ 12) with PAGE_SIZE in Hby. fold bytes in Hby.
  assert (Hbytes : 0 < bytes < 2 ^ 64).
  { pose proof (land_u64_l (u64 (sz + u64 (PAGE_SIZE - 1))) (not64 (u64 (PAGE_SIZE - 1)))
      (u64_range _)) as [_ ?]. unfold bytes, ALIGN_UP in *. lia. }
  assert (∃ k', 0 ≤ k' < 64 ∧ al = 2 ^ k') as (k'&Hk'&Hal).
  { unfold al. destruct (Z.max_spec (2 ^ k) PAGE_SIZE) as [[? ->]|[? ->]]; [by exists 12|by exists k]. }
  rewrite u64_small by (unfold in_u64, UINT64_MAX in *; lia). rewrite Hal.
  destruct (early_search_spec mb bytes k' Hwf Hmem Hk' Hbytes (S (nr_reserved mb)) 0
    (base (memory mb))) as (found&->&Hf).
  { lia. } { lia. } { lia. } { intros r Hr. by apply not_elem_of_nil in Hr. } { by intros c [? _]. }
  simpl. destruct found as [err|a].
  { destruct Hf as [-> Hf]. exists (- ENOMEM), mb, None. split_and!; [done..|]. right.
    split_and!; auto. }
  destruct Hf as [Hfit Hleast]. pose proof Hfit as (?&?&?&Hu).
  destruct (reserve_spec mb a bytes false) as (ret&mb'&->&?&?&Hcases);
    [done|unfold in_u64, UINT64_MAX in *; lia|unfold in_u64; lia|].
  simpl. destruct Hcases as [(->&?&?&Hc)|[(->&?&?)|[(->&?&?)|(->&->&?&_)]]].
  - exists 0, mb', (Some a). split_and!; [done..|]. left. exists a. split_and!; (done || lia || auto).
  - lia.
  - lia.
  - exists (- ENOSPC), mb, None. split_and!; [done..|]. right. split_and!; auto.
Qed.

(** ** Witnesses *)

(** 128 MiB of RAM at 2 GiB with a firmware region and an unmapped one. *)
Definition example_memblock : memblock :=
  Memblock (Region 0x80000000 0x8000000 false)
    ([Region 0x80000000 0x200000 true; Region 0x80200000 0x40000 false] ++
     replicate 30 (Region 0 0 false)) 2.

Lemma example_memblock_wf : wf example_memblock.
Proof.
  split; [done|unfold MEMBLOCK_MAX_RESERVED; simpl; lia| |].
  - unfold live. simpl. rewrite !Forall_cons, Forall_nil.
    unfold valid_region, UINT64_MAX. simpl. lia.
  - unfold live. simpl. repeat constructor; done.
Qed.

Lemma memblock_reserve_refines_witness :
  ∃ ret mb', memblock_reserve example_memblock 0x80240000 0x1000 false = Ok (ret, mb') ∧ wf mb' ∧
    memory mb' = memory example_memblock ∧
    reserve_outcome example_memblock 0x80240000 0x1000 false ret mb'.
Proof.
  apply (memblock_reserve_refines example_memblock 0x80240000 0x1000 false).
  - apply example_memblock_wf.
  - done.
  - done.
Defined.

Lemma early_alloc_lowest_fit_witness :
  ∃ ret mb' p, early_alloc example_memblock 0x1234 (2 ^ 16) = Ok (ret, mb', p) ∧ wf mb'.
Proof.
  destruct (early_alloc_lowest_fit example_memblock 0x1234 16) as (ret&mb'&p&H1&H2&_).
  - apply example_memblock_wf.
  - done.
  - lia.
  - done.
  - lia.
  - exists ret, mb', p. split; [exact H1|exact H2].
Defined.

Example early_alloc_example :
  early_alloc example_memblock 0x1234 (2 ^ 16) =
    Ok (0, Memblock (Region 0x80000000 0x8000000 false)
            ([Region 0x80000000 0x200000 true; Region 0x80200000 0x42000 false] ++
             replicate 30 (Region 0 0 false)) 2, Some 0x80240000).
Proof. vm_compute. reflexivity. Qed.
