(* ===== verification/Bitmap.v ===== *)
(** * Bitmaps: [include/nuvix/bitmap.h]

    A bitmap is an array of 64-bit words.  The abstract view is the predicate
    [bit map nr]; [bits map] is the number of bits the array holds. *)
From stdpp Require Import base tactics numbers list.
From S2P Require Import Prelude.

Definition BITS_PER_LONG : Z := 64.

(** [BITS_TO_LONGS], [BIT_WORD] and [BIT_MASK] *)
Definition BITS_TO_LONGS (nbits : Z) : Z :=
  nbits / BITS_PER_LONG + (if truth (nbits mod BITS_PER_LONG) then 1 else 0).
Definition BIT_WORD (nr : Z) : nat := Z.to_nat (nr / BITS_PER_LONG).
Definition BIT_MASK (nr : Z) : Z := u64 (Z.shiftl 1 (nr mod BITS_PER_LONG)).

Definition set_bit (nr : Z) (map : list Z) : res (list Z) :=
  let! w := arr_get map (BIT_WORD nr) in
  arr_set map (BIT_WORD nr) (Z.lor w (BIT_MASK nr)).

Definition clear_bit (nr : Z) (map : list Z) : res (list Z) :=
  let! w := arr_get map (BIT_WORD nr) in
  arr_set map (BIT_WORD nr) (Z.land w (not64 (BIT_MASK nr))).

Definition test_bit (nr : Z) (map : list Z) : res bool :=
  let! w := arr_get map (BIT_WORD nr) in
  Ok (truth (Z.land w (BIT_MASK nr))).

Fixpoint bitmap_zero_loop (n i : nat) (dst : list Z) : res (list Z) :=
  match n with
  | O => Ok dst
  | S n' => let! dst := arr_set dst i 0 in bitmap_zero_loop n' (S i) dst
  end.
Definition bitmap_zero (dst : list Z) (nbits : Z) : res (list Z) :=
  bitmap_zero_loop (Z.to_nat (BITS_TO_LONGS nbits)) 0 dst.

(** The scan both searches share: the first position from [start] whose bit is
    [want], or [nbits]. *)
Fixpoint find_next_loop (want : bool) (n : nat) (map : list Z) (nbits start : Z) : res Z :=
  match n with
  | O => Ok nbits
  | S n' =>
      let! b := test_bit start map in
      if Bool.eqb b want then Ok start else find_next_loop want n' map nbits (start + 1)
  end.
Definition find_next_bit (map : list Z) (nbits start : Z) : res Z :=
  find_next_loop true (Z.to_nat (nbits - start)) map nbits start.
Definition find_next_zero_bit (map : list Z) (nbits start : Z) : res Z :=
  find_next_loop false (Z.to_nat (nbits - start)) map nbits start.
Definition find_first_bit (map : list Z) (nbits : Z) : res Z := find_next_bit map nbits 0.
Definition find_first_zero_bit (map : list Z) (nbits : Z) : res Z := find_next_zero_bit map nbits 0.

(** ** Abstract view *)

Definition bits (map : list Z) : Z := 64 * Z.of_nat (length map).
Definition bit (map : list Z) (nr : Z) : bool :=
  Z.testbit (default 0 (map !! BIT_WORD nr)) (nr mod 64).
Definition words (map : list Z) : Prop := Forall in_u64 map.

Lemma BIT_MASK_spec nr i : 0 ≤ i → Z.testbit (BIT_MASK nr) i = (i =? nr mod 64).
Proof. intros Hi. pose proof (Z.mod_pos_bound nr 64). apply BIT_spec; lia. Qed.

Lemma BIT_MASK_range nr : in_u64 (BIT_MASK nr).
Proof. apply u64_range. Qed.
#[export] Hint Resolve BIT_MASK_range : word.

Lemma truth_land_mask w nr : truth (Z.land w (BIT_MASK nr)) = Z.testbit w (nr mod 64).
Proof. pose proof (Z.mod_pos_bound nr 64). apply truth_land_BIT. lia. Qed.

Lemma BIT_WORD_lookup map nr :
  0 ≤ nr < bits map → ∃ w, map !! BIT_WORD nr = Some w ∧ (BIT_WORD nr < length map)%nat.
Proof.
  unfold bits, BIT_WORD, BITS_PER_LONG. intros Hnr.
  assert (Hlt : (Z.to_nat (nr / 64) < length map)%nat).
  { pose proof (Z.div_lt_upper_bound nr 64 (Z.of_nat (length map))).
    pose proof (Z.div_pos nr 64). lia. }
  destruct (lookup_lt_is_Some_2 map _ Hlt) as [w Hw]. eauto.
Qed.

Lemma same_word nr nr' :
  0 ≤ nr → 0 ≤ nr' → BIT_WORD nr = BIT_WORD nr' → nr mod 64 = nr' mod 64 → nr = nr'.
Proof.
  unfold BIT_WORD, BITS_PER_LONG. intros ?? Hw Hm.
  pose proof (Z.div_pos nr 64). pose proof (Z.div_pos nr' 64).
  pose proof (Z.div_mod nr 64). pose proof (Z.div_mod nr' 64). lia.
Qed.

Lemma test_bit_spec map nr : 0 ≤ nr < bits map → test_bit nr map = Ok (bit map nr).
Proof.
  intros Hnr. destruct (BIT_WORD_lookup map nr Hnr) as (w&Hw&_).
  unfold test_bit, bit. rewrite (arr_get_Ok _ _ w), Hw by done. simpl.
  by rewrite truth_land_mask.
Qed.

(** A store of one word whose bits are those of [f] at [nr] and the old ones elsewhere. *)
Lemma store_word map nr w w' (v : bool) :
  0 ≤ nr < bits map → words map → map !! BIT_WORD nr = Some w → in_u64 w' →
  (∀ i, 0 ≤ i → Z.testbit w' i = if i =? nr mod 64 then v else Z.testbit w i) →
  words (<[BIT_WORD nr:=w']> map) ∧ bits (<[BIT_WORD nr:=w']> map) = bits map ∧
  ∀ nr', 0 ≤ nr' →
    bit (<[BIT_WORD nr:=w']> map) nr' = if nr' =? nr then v else bit map nr'.
Proof.
  intros Hnr HW Hw Hw' Hbits. pose proof (lookup_lt_Some _ _ _ Hw) as Hlt.
  split; [by apply Forall_insert|]. split; [unfold bits; by rewrite length_insert|].
  intros nr' Hnr'. unfold bit. pose proof (Z.mod_pos_bound nr' 64).
  destruct (decide (BIT_WORD nr = BIT_WORD nr')) as [Heq|Hne].
  - rewrite <-Heq, list_lookup_insert_eq, Hw by done. simpl. rewrite Hbits by lia.
    destruct (Z.eqb_spec nr' nr) as [->|Hn]; [by rewrite Z.eqb_refl|].
    destruct (Z.eqb_spec (nr' mod 64) (nr mod 64)); [|done].
    destruct Hn. apply same_word; (done || lia).
  - rewrite list_lookup_insert_ne by done.
    destruct (Z.eqb_spec nr' nr) as [->|]; [done|done].
Qed.

(** What a bitmap update promises. *)
Definition updates (map : list Z) (nr : Z) (v : bool) (map' : list Z) : Prop :=
  words map' ∧ bits map' = bits map ∧
  ∀ nr', 0 ≤ nr' → bit map' nr' = if nr' =? nr then v else bit map nr'.

Lemma set_bit_spec map nr :
  0 ≤ nr < bits map → words map →
  ∃ map', set_bit nr map = Ok map' ∧ updates map nr true map'.
Proof.
  intros Hnr HW. destruct (BIT_WORD_lookup map nr Hnr) as (w&Hw&Hlt).
  unfold set_bit. rewrite (arr_get_Ok _ _ w) by done. simpl. rewrite arr_set_Ok by done. eexists. split; [done|].
  apply (store_word _ _ w); [done..| |].
  - apply lor_u64; [by eapply Forall_lookup_1|apply BIT_MASK_range].
  - intros i Hi. rewrite Z.lor_spec, BIT_MASK_spec by lia.
    destruct (i =? nr mod 64); [apply orb_true_r|apply orb_false_r].
Qed.

Lemma clear_bit_spec map nr :
  0 ≤ nr < bits map → words map →
  ∃ map', clear_bit nr map = Ok map' ∧ updates map nr false map'.
Proof.
  intros Hnr HW. destruct (BIT_WORD_lookup map nr Hnr) as (w&Hw&Hlt).
  unfold clear_bit. rewrite (arr_get_Ok _ _ w) by done. simpl. rewrite arr_set_Ok by done. eexists. split; [done|].
  assert (Hw64 : in_u64 w) by by eapply Forall_lookup_1.
  apply (store_word _ _ w); [done..|by apply land_u64_l|].
  intros i Hi. rewrite Z.land_spec, not64_spec, BIT_MASK_spec by lia.
  destruct (i =? nr mod 64); [by rewrite andb_false_r, andb_false_r|].
  destruct (Z.ltb_spec i 64); [by rewrite andb_true_r|].
  by rewrite testbit_u64_high by (done || lia).
Qed.

(** ** Searches *)

Lemma find_next_loop_spec want n map nbits start :
  0 ≤ start → n = Z.to_nat (nbits - start) → nbits ≤ bits map →
  ∃ r, find_next_loop want n map nbits start = Ok r ∧
    (∀ j, start ≤ j < nbits → j < r → bit map j = negb want) ∧
    ((start ≤ r < nbits ∧ bit map r = want) ∨ r = nbits).
Proof.
  revert start. induction n as [|n IH]; intros start Hs Hn Hnb; simpl.
  { exists nbits. split_and!; [done|lia|by right]. }
  rewrite test_bit_spec by lia. simpl. destruct (Bool.eqb_spec (bit map start) want) as [Hb|Hb].
  { exists start. split_and!; [done|lia|left; split; [lia|done]]. }
  destruct (IH (start + 1)) as (r&->&Hbelow&Hr); [lia..|]. exists r. split_and!; [done| |].
  - intros j Hj Hjr. destruct (decide (j = start)) as [->|]; [|apply Hbelow; lia].
    by destruct (bit map start), want.
  - destruct Hr as [[? ?]|?]; [left; split; [lia|done]|by right].
Qed.

(** [find_next_zero_bit] and [find_next_bit] always return the least
    position at or above [start] whose bit is clear (set), or [nbits] when every
    bit of the range is set (clear). *)
Theorem find_next_spec map nbits start :
  0 ≤ start → nbits ≤ bits map →
  (∃ r, find_next_zero_bit map nbits start = Ok r ∧
     (∀ j, start ≤ j < nbits → j < r → bit map j = true) ∧
     ((start ≤ r < nbits ∧ bit map r = false) ∨ r = nbits)) ∧
  (∃ r, find_next_bit map nbits start = Ok r ∧
     (∀ j, start ≤ j < nbits → j < r → bit map j = false) ∧
     ((start ≤ r < nbits ∧ bit map r = true) ∨ r = nbits)).
Proof.
  intros Hs Hn. split; [apply (find_next_loop_spec false)|apply (find_next_loop_spec true)]; done.
Qed.

Lemma find_next_spec_witness :
  ∃ r, find_next_zero_bit [0xff; 0] 128 3 = Ok r.
Proof.
  destruct (find_next_spec [0xff; 0] 128 3) as [(r&Hr&_) _]; [lia|done|].
  exists r. exact Hr.
Defined.
