(* ===== verification/Refcount.v ===== *)
(** * Reference counts: [include/nuvix/refcount.h]

    A count is the 32-bit signed value of the atomic.  The operations are
    compare-and-swap loops; [env] is the sequence of values that the failed
    attempts read back, so a run is [old] (the first read) followed by the
    interference of other CPUs.  The result pairs the return value with the
    value the counter holds after the operation's last access.
    [CONFIG_DEBUG_REFCOUNT] turns the diagnostics on. *)
From stdpp Require Import base tactics numbers list sets.
From S2P Require Import Prelude.

Definition REFCOUNT_MAX : Z := INT32_MAX.

Section refcount.
Context (CONFIG_DEBUG_REFCOUNT : bool).

(** [IFDEF(CONFIG_DEBUG_REFCOUNT, Assert(...))] *)
Definition debug_Assert (b : bool) : res unit :=
  if CONFIG_DEBUG_REFCOUNT then Assert b else Ok ().

Definition refcount_set (r value : Z) : res Z :=
  let! _ := debug_Assert (value <=? REFCOUNT_MAX) in
  if value >? REFCOUNT_MAX then Ok r else Ok (s32 value).

Definition refcount_read (r : Z) : Z := u32 r.

Fixpoint refcount_inc_not_zero (env : list Z) (old : Z) : res (bool * Z) :=
  if negb (truth old) then Ok (false, old) else
  let! _ := debug_Assert ((old >? 0) && (old <? REFCOUNT_MAX)) in
  if (old <? 0) || (old =? REFCOUNT_MAX) then Ok (false, old) else
  match env with
  | [] => Ok (true, old + 1)
  | old' :: env' => refcount_inc_not_zero env' old'
  end.

Definition refcount_inc (env : list Z) (old : Z) : res Z :=
  let! (acquired, r) := refcount_inc_not_zero env old in
  let! _ := debug_Assert acquired in
  Ok r.

Fixpoint refcount_dec_and_test (env : list Z) (old : Z) : res (bool * Z) :=
  let! _ := debug_Assert (old >? 0) in
  if old <=? 0 then Ok (false, old) else
  if old =? 1 then
    match env with
    | [] => Ok (true, 0)
    | old' :: env' => refcount_dec_and_test env' old'
    end
  else
    match env with
    | [] => Ok (false, old - 1)
    | old' :: env' => refcount_dec_and_test env' old'
    end.

Fixpoint refcount_dec (env : list Z) (old : Z) : res Z :=
  let! _ := debug_Assert (old >? 0) in
  if old <=? 0 then Ok old else
  let! _ := debug_Assert (old >? 1) in
  if old =? 1 then Ok old else
  match env with
  | [] => Ok (old - 1)
  | old' :: env' => refcount_dec env' old'
  end.

(** ** Atomic specifications *)

Definition inc_not_zero_spec (x : Z) (b : bool) (y : Z) : Prop :=
  (b = true ∧ 0 < x < REFCOUNT_MAX ∧ y = x + 1) ∨
  (b = false ∧ y = x ∧ (x ≤ 0 ∨ REFCOUNT_MAX ≤ x)).

Definition dec_and_test_spec (x : Z) (b : bool) (y : Z) : Prop :=
  (b = true ∧ x = 1 ∧ y = 0) ∨
  (b = false ∧ 1 < x ∧ y = x - 1) ∨
  (b = false ∧ x ≤ 0 ∧ y = x).

Definition dec_spec (x y : Z) : Prop :=
  (1 < x ∧ y = x - 1) ∨ (x ≤ 1 ∧ y = x).

Definition in_count (x : Z) : Prop := 0 ≤ x ≤ REFCOUNT_MAX.

(** [x] is the last value the loop read: on each value before it the loop went on
    to a compare-and-swap, which failed, and [x] is the last of the reads or one
    on which the loop stops without a swap. *)
Definition last_read (go : Z → Prop) (reads : list Z) (x : Z) : Prop :=
  ∃ pre post, reads = pre ++ x :: post ∧ Forall go pre ∧ (post = [] ∨ ¬ go x).

Lemma last_read_one go x : last_read go [x] x.
Proof. exists [], []. auto. Qed.
Lemma last_read_stop (go : Z → Prop) x env : ¬ go x → last_read go (x :: env) x.
Proof. intros Hx. exists [], env. auto. Qed.
Lemma last_read_retry (go : Z → Prop) old env x : go old → last_read go env x → last_read go (old :: env) x.
Proof. intros Hgo (pre&post&->&Hpre&Hx). exists (old :: pre), post. split; [done|]. split; [by constructor|done]. Qed.
Lemma last_read_elem go reads x : last_read go reads x → x ∈ reads.
Proof. intros (pre&post&->&_). set_solver. Qed.

Definition inc_go (x : Z) : Prop := 0 < x < REFCOUNT_MAX.
Definition dec_go (x : Z) : Prop := 0 < x.
Definition dec_many_go (x : Z) : Prop := 1 < x.

(** The operation panics on [x], with the diagnostics on, or has done [done]. *)
Definition answers {A} (r : res A) (bad : Prop) (done : A → Prop) : Prop :=
  (CONFIG_DEBUG_REFCOUNT = true ∧ bad ∧ r = Panic) ∨
  (¬ (CONFIG_DEBUG_REFCOUNT = true ∧ bad) ∧ ∃ a, r = Ok a ∧ done a).

(** A check of the diagnostics before the rest of the loop. *)
Lemma answers_check {A} (b : bool) (r : res A) (bad : Prop) done :
  (b = false ↔ bad) → (CONFIG_DEBUG_REFCOUNT && negb b = false → answers r bad done) →
  answers (let! _ := debug_Assert b in r) bad done.
Proof.
  unfold debug_Assert. intros Hb Hr. destruct CONFIG_DEBUG_REFCOUNT eqn:Hd, b; cbn [Assert res_bind]; try by apply Hr.
  left. rewrite Hd. split_and!; [done|by apply Hb|done].
Qed.

Lemma answers_ok {A} (a : A) (bad : Prop) (done : A → Prop) :
  (CONFIG_DEBUG_REFCOUNT = true → ¬ bad) → done a → answers (Ok a) bad done.
Proof. intros Hn Ha. right. split; [tauto|eauto]. Qed.

Lemma inc_not_zero_atomic env old :
  Forall in_count (old :: env) →
  ∃ x, last_read inc_go (old :: env) x ∧
    answers (refcount_inc_not_zero env old) (x = REFCOUNT_MAX) (λ a, inc_not_zero_spec x a.1 a.2).
Proof.
  revert old. induction env as [|v env IH]; intros old [Hold Henv]%Forall_cons; unfold in_count in Hold;
    cbn [refcount_inc_not_zero]; unfold truth; rewrite negb_involutive;
    (destruct (Z.eqb_spec old 0) as [->|H0];
      [exists 0; split; [apply last_read_stop; unfold inc_go; lia|]; apply answers_ok; [done|right; cbn; lia]|]);
    (destruct (decide (old = REFCOUNT_MAX)) as [->|Hm];
      [exists REFCOUNT_MAX; split; [apply last_read_stop; unfold inc_go; lia|]; apply answers_check; [done|]; intros Hd;
       apply answers_ok; [by rewrite andb_true_r in Hd; intros Hd'; rewrite Hd' in Hd|right; cbn; lia]|]);
    unfold debug_Assert; replace ((old >? 0) && (old <? REFCOUNT_MAX)) with true by lia;
    replace ((old <? 0) || (old =? REFCOUNT_MAX)) with false by lia;
    replace (if CONFIG_DEBUG_REFCOUNT then Assert true else Ok ()) with (Ok () : res unit) by (by destruct CONFIG_DEBUG_REFCOUNT);
    cbn [res_bind].
  - exists old. split; [apply last_read_one|]. apply answers_ok; [done|]. left. cbn. lia.
  - destruct (IH v Henv) as (x&Hx&Ha). exists x. split; [|done]. apply last_read_retry; [unfold inc_go; lia|done].
Qed.

Lemma dec_and_test_atomic env old :
  Forall in_count (old :: env) →
  ∃ x, last_read dec_go (old :: env) x ∧
    answers (refcount_dec_and_test env old) (x = 0) (λ a, dec_and_test_spec x a.1 a.2).
Proof.
  revert old. induction env as [|v env IH]; intros old [Hold Henv]%Forall_cons; unfold in_count in Hold;
    cbn [refcount_dec_and_test];
    (destruct (decide (old = 0)) as [->|H0];
      [exists 0; split; [apply last_read_stop; unfold dec_go; lia|]; apply answers_check; [done|]; intros Hd;
       apply answers_ok; [by rewrite andb_true_r in Hd; intros Hd'; rewrite Hd' in Hd|right; right; cbn; lia]|]);
    unfold debug_Assert; replace (old >? 0) with true by lia; replace (old <=? 0) with false by lia;
    replace (if CONFIG_DEBUG_REFCOUNT then Assert true else Ok ()) with (Ok () : res unit) by (by destruct CONFIG_DEBUG_REFCOUNT);
    cbn [res_bind].
  - exists old. split; [apply last_read_one|]. destruct (Z.eqb_spec old 1); (apply answers_ok; [done|]); unfold dec_and_test_spec; cbn; lia.
  - destruct (IH v Henv) as (x&Hx&Ha). exists x. split; [apply last_read_retry; [unfold dec_go; lia|done]|]. by destruct (old =? 1).
Qed.

Lemma dec_atomic env old :
  Forall in_count (old :: env) →
  ∃ x, last_read dec_many_go (old :: env) x ∧ answers (refcount_dec env old) (x ≤ 1) (dec_spec x).
Proof.
  revert old. induction env as [|v env IH]; intros old [Hold Henv]%Forall_cons; unfold in_count in Hold;
    cbn [refcount_dec];
    (destruct (decide (old ≤ 1)) as [H1|H1];
      [exists old; split; [apply last_read_stop; unfold dec_many_go; lia|];
       unfold debug_Assert; destruct CONFIG_DEBUG_REFCOUNT eqn:Hd; destruct (decide (old = 0)) as [->|];
       [by left|replace old with 1 by lia; by left|right; rewrite Hd; split; [by intros [? _]|]..];
       [|replace old with 1 by lia]; cbn; eexists; (split; [done|]); right; lia|]);
    unfold debug_Assert; replace (old >? 0) with true by lia; replace (old >? 1) with true by lia;
    replace (old <=? 0) with false by lia; replace (old =? 1) with false by lia;
    replace (if CONFIG_DEBUG_REFCOUNT then Assert true else Ok ()) with (Ok () : res unit) by (by destruct CONFIG_DEBUG_REFCOUNT);
    cbn [res_bind].
  - exists old. split; [apply last_read_one|]. right. split; [lia|]. eexists. split; [done|]. left. lia.
  - destruct (IH v Henv) as (x&Hx&Ha). exists x. split; [|done]. apply last_read_retry; [unfold dec_many_go; lia|done].
Qed.

(** C34: the compare-and-swap loops of the reference count are linearizable
    under any interference of other CPUs that keeps the count in
    [0, REFCOUNT_MAX]: they terminate, and what they return and store is the
    effect of the atomic operation on the last value the loop read, the one its
    successful swap compared or on which it stopped.  A count of zero is never
    revived, the count never wraps at either end, and [refcount_dec_and_test] is
    true exactly for the step from 1 to 0.  The diagnostics panic exactly when
    they are on and that value is [REFCOUNT_MAX], for an increment, 0, for
    [refcount_dec_and_test], or at most 1, for [refcount_dec]. *)
Theorem refcount_linearizable env old :
  Forall in_count (old :: env) →
  (∃ x, last_read inc_go (old :: env) x ∧
     answers (refcount_inc_not_zero env old) (x = REFCOUNT_MAX) (λ a, inc_not_zero_spec x a.1 a.2 ∧ in_count a.2)) ∧
  (∃ x, last_read dec_go (old :: env) x ∧
     answers (refcount_dec_and_test env old) (x = 0) (λ a, dec_and_test_spec x a.1 a.2 ∧ in_count a.2)) ∧
  (∃ x, last_read dec_many_go (old :: env) x ∧
     answers (refcount_dec env old) (x ≤ 1) (λ y, dec_spec x y ∧ in_count y)).
Proof.
  intros HF. assert (HF' := HF). rewrite Forall_forall in HF'. unfold in_count in *. split_and!.
  - destruct (inc_not_zero_atomic env old HF) as (x&Hx&Ha). exists x. split; [done|]. specialize (HF' x (last_read_elem _ _ _ Hx)).
    destruct Ha as [?|(?&a&?&Hs)]; [by left|right]. split; [done|]. exists a. split_and!; [done..|destruct Hs; lia|destruct Hs; lia].
  - destruct (dec_and_test_atomic env old HF) as (x&Hx&Ha). exists x. split; [done|]. specialize (HF' x (last_read_elem _ _ _ Hx)).
    destruct Ha as [?|(?&a&?&Hs)]; [by left|right]. split; [done|]. exists a.
    split_and!; [done..|destruct Hs as [?|[?|?]]; lia|destruct Hs as [?|[?|?]]; lia].
  - destruct (dec_atomic env old HF) as (x&Hx&Ha). exists x. split; [done|]. specialize (HF' x (last_read_elem _ _ _ Hx)).
    destruct Ha as [?|(?&a&?&Hs)]; [by left|right]. split; [done|]. exists a. split_and!; [done..|destruct Hs; lia|destruct Hs; lia].
Qed.

(** Sequential forms used by the clients. *)
Lemma inc_live x : 0 < x < REFCOUNT_MAX → refcount_inc [] x = Ok (x + 1).
Proof.
  intros Hx. unfold refcount_inc. simpl. unfold truth. rewrite negb_involutive.
  replace (x =? 0) with false by lia. unfold debug_Assert.
  replace ((x >? 0) && (x <? REFCOUNT_MAX)) with true by lia.
  destruct CONFIG_DEBUG_REFCOUNT; simpl;
    replace ((x <? 0) || (x =? REFCOUNT_MAX)) with false by lia; done.
Qed.

Lemma dec_and_test_live x :
  0 < x → refcount_dec_and_test [] x = Ok (bool_decide (x = 1), x - 1).
Proof.
  intros Hx. simpl. unfold debug_Assert. replace (x >? 0) with true by lia.
  destruct CONFIG_DEBUG_REFCOUNT; simpl; replace (x <=? 0) with false by lia;
    (destruct (Z.eqb_spec x 1) as [->|]; [done|by rewrite bool_decide_eq_false_2]).
Qed.
End refcount.

#[global] Arguments refcount_inc_not_zero : simpl never.
#[global] Arguments refcount_inc : simpl never.
#[global] Arguments refcount_dec_and_test : simpl never.
#[global] Arguments refcount_dec : simpl never.

Lemma refcount_linearizable_witness :
  ∃ b y, refcount_dec_and_test true [2; 1] 3 = Ok (b, y) ∧ in_count y.
Proof.
  destruct (refcount_linearizable true [2; 1] 3) as (_&(x&_&[(_&_&H)|(_&[b y]&H1&_&H2)])&_).
  - repeat constructor; done.
  - discriminate H.
  - exists b, y. split; [exact H1|exact H2].
Defined.
