(* ===== verification/Fdtable.v ===== *)
(** * File-descriptor tables: [fs/vfs/fdtable.c] and the descriptor system calls

    A table is the array of 64 file pointers with the allocation and
    close-on-exec bitmaps.  Files are counted objects: [fget] and [fput] of
    [fs/vfs/file.c] work on a store of files shared with the rest of the
    kernel.  Operations run under [fdt->lock], so each is one step. *)
From stdpp Require Import base tactics numbers list gmap.
From S2P Require Import Prelude Bitmap Refcount.

Definition O_NONBLOCK : Z := 2048.      (* 00004000 *)
Definition O_CLOEXEC : Z := 524288.     (* 02000000 *)
Definition F_DUPFD : Z := 0.
Definition F_GETFD : Z := 1.
Definition F_SETFD : Z := 2.
Definition F_GETFL : Z := 3.
Definition F_SETFL : Z := 4.
Definition F_DUPFD_CLOEXEC : Z := 1030.
Definition FD_CLOEXEC : Z := 1.

(** The fields of [struct file] the descriptor layer touches. *)
Record file := File { f_count : Z; f_flags : Z }.

(** A file pointer; NULL is [None]. *)
Abbreviation fptr := (option positive).
Abbreviation fstore := (gmap positive file).

Record fdtable := Fdtable { files : list fptr; bitmap : Z; cloexec : Z }.

(** A bitmap operation on one word passed by address. *)
Definition on_word (f : list Z → res (list Z)) (w : Z) : res Z :=
  let! l := f [w] in arr_get l 0.

Section fdtable.
Context (CONFIG_DEBUG_REFCOUNT : bool).
(** [file->f_ops->release(file)], absent when the file has no such operation. *)
Context (release : positive → option Z).

(** ** [fget] and [fput] *)

Definition fget (fs : fstore) (fp : fptr) : res fstore :=
  match fp with
  | None => Ok fs
  | Some p =>
      let! f := deref (fs !! p) in
      let! c := refcount_inc CONFIG_DEBUG_REFCOUNT [] (f_count f) in
      Ok (<[p := File c (f_flags f)]> fs)
  end.

Definition fput (fs : fstore) (fp : fptr) : res (Z * fstore) :=
  match fp with
  | None => Ok (0, fs)
  | Some p =>
      let! f := deref (fs !! p) in
      let! (last, c) := refcount_dec_and_test CONFIG_DEBUG_REFCOUNT [] (f_count f) in
      if negb last then Ok (0, <[p := File c (f_flags f)]> fs)
      else Ok (default 0 (release p), delete p fs)
  end.

(** ** Table operations *)

(** [allocated] says whether the [kzalloc] of the array succeeded. *)
Definition fdtable_init (allocated : bool) : res (Z * option fdtable) :=
  if negb allocated then Ok (- ENOMEM, None) else
  let! bm := bitmap_zero [0] BITS_PER_LONG in
  let! ce := on_word (λ m, bitmap_zero m BITS_PER_LONG) 0 in
  let! bm := set_bit 0 bm in
  let! bm := set_bit 1 bm in
  let! bm := set_bit 2 bm in
  let! bm := arr_get bm 0 in
  Ok (0, Some (Fdtable (replicate 64 None) bm ce)).

Definition fd_alloc_from (fdt : fdtable) (min : Z) : res (Z * fdtable) :=
  if min >=? BITS_PER_LONG then Ok (- EMFILE, fdt) else
  let! fd := find_next_zero_bit [bitmap fdt] BITS_PER_LONG min in
  let! bm := if fd <? BITS_PER_LONG then on_word (set_bit fd) (bitmap fdt) else Ok (bitmap fdt) in
  Ok (if fd =? BITS_PER_LONG then - EMFILE else s32 fd, Fdtable (files fdt) bm (cloexec fdt)).

Definition fd_alloc (fdt : fdtable) : res (Z * fdtable) := fd_alloc_from fdt 0.

Definition fd_release (fdt : fdtable) (fd : Z) : res fdtable :=
  let! reserved :=
    if fd <? BITS_PER_LONG then
      let! set := test_bit fd [bitmap fdt] in
      if set then let! fp := arr_get (files fdt) (Z.to_nat fd) in Ok (bool_decide (fp = None))
      else Ok false
    else Ok false in
  let! _ := Assert reserved in
  let! bm := on_word (clear_bit fd) (bitmap fdt) in
  let! ce := on_word (clear_bit fd) (cloexec fdt) in
  Ok (Fdtable (files fdt) bm ce).

Definition fd_install (fdt : fdtable) (fd : Z) (fp : fptr) : res fdtable :=
  let! ready :=
    if bool_decide (fp ≠ None) && (fd <? BITS_PER_LONG) then test_bit fd [bitmap fdt]
    else Ok false in
  let! _ := Assert ready in
  let! fl := arr_set (files fdt) (Z.to_nat fd) fp in
  Ok (Fdtable fl (bitmap fdt) (cloexec fdt)).

Definition fd_set_cloexec (fdt : fdtable) (fd : Z) (enable : bool) : res fdtable :=
  let! _ := Assert (fd <? BITS_PER_LONG) in
  let! ce := if enable then on_word (set_bit fd) (cloexec fdt)
             else on_word (clear_bit fd) (cloexec fdt) in
  Ok (Fdtable (files fdt) (bitmap fdt) ce).

Definition fd_test_cloexec (fdt : fdtable) (fd : Z) : res bool :=
  let! _ := Assert (fd <? BITS_PER_LONG) in
  test_bit fd [cloexec fdt].

Definition fd_replace (fdt : fdtable) (fd : Z) (fp : fptr) (ce : bool) : res (fptr * fdtable) :=
  let! _ := Assert (bool_decide (fp ≠ None) && (fd <? BITS_PER_LONG)) in
  let! replaced := arr_get (files fdt) (Z.to_nat fd) in
  let! fl := arr_set (files fdt) (Z.to_nat fd) fp in
  let! bm := on_word (set_bit fd) (bitmap fdt) in
  let! cew := if ce then on_word (set_bit fd) (cloexec fdt)
              else on_word (clear_bit fd) (cloexec fdt) in
  Ok (replaced, Fdtable fl bm cew).

Definition fd_open (fdt : fdtable) (fs : fstore) (fd : Z) : res (fptr * fstore) :=
  if fd <? BITS_PER_LONG then
    let! fp := arr_get (files fdt) (Z.to_nat fd) in
    let! fs := fget fs fp in
    Ok (fp, fs)
  else Ok (None, fs).

Definition fd_close (fdt : fdtable) (fs : fstore) (fd : Z) : res (Z * fdtable * fstore) :=
  let! (fp, fdt) :=
    if fd <? BITS_PER_LONG then
      let! fp := arr_get (files fdt) (Z.to_nat fd) in
      match fp with
      | None => Ok (None, fdt)
      | Some p =>
          let! fl := arr_set (files fdt) (Z.to_nat fd) None in
          let! bm := on_word (clear_bit fd) (bitmap fdt) in
          let! ce := on_word (clear_bit fd) (cloexec fdt) in
          Ok (Some p, Fdtable fl bm ce)
      end
    else Ok (None, fdt) in
  match fp with
  | None => Ok (- EBADF, fdt, fs)
  | Some p => let! (ret, fs) := fput fs (Some p) in Ok (ret, fdt, fs)
  end.

(** The loop of [fdtable_clone]: [dst->files[fd] = fget(src->files[fd])]. *)
Fixpoint fdtable_clone_loop (n i : nat) (dst src : list fptr) (fs : fstore)
    : res (list fptr * fstore) :=
  match n with
  | O => Ok (dst, fs)
  | S n' =>
      let! fp := arr_get src i in
      let! fs := fget fs fp in
      let! dst := arr_set dst i fp in
      fdtable_clone_loop n' (S i) dst src fs
  end.
Definition fdtable_clone (dst src : fdtable) (fs : fstore) : res (fdtable * fstore) :=
  let! (fl, fs) := fdtable_clone_loop 64 0 (files dst) (files src) fs in
  Ok (Fdtable fl (bitmap src) (cloexec src), fs).

(** [for_each_set_bit (fd, &fdt->cloexec, BITS_PER_LONG) fd_close(fdt, fd);]
    The macro reads the bitmap again before every iteration. *)
Fixpoint close_on_exec_loop (fuel : nat) (fdt : fdtable) (fs : fstore) (fd : Z)
    : res (fdtable * fstore) :=
  match fuel with
  | O => Loop
  | S fuel' =>
      if fd <? BITS_PER_LONG then
        let! (_, fdt, fs) := fd_close fdt fs fd in
        let! fd := find_next_bit [cloexec fdt] BITS_PER_LONG (fd + 1) in
        close_on_exec_loop fuel' fdt fs fd
      else Ok (fdt, fs)
  end.
Definition fdtable_close_on_exec (fdt : fdtable) (fs : fstore) : res (fdtable * fstore) :=
  let! fd := find_first_bit [cloexec fdt] BITS_PER_LONG in
  close_on_exec_loop 65 fdt fs fd.

(** ** System calls; [syscallarg] values are 64-bit registers *)

Definition sys_dup (fdt : fdtable) (fs : fstore) (oldfd : Z) : res (Z * fdtable * fstore) :=
  let! (fp, fs) := fd_open fdt fs oldfd in
  match fp with
  | None => Ok (- EBADF, fdt, fs)
  | Some p =>
      let! (newfd, fdt) := fd_alloc fdt in
      if newfd <? 0 then
        let! (_, fs) := fput fs (Some p) in Ok (newfd, fdt, fs)
      else
        let! fdt := fd_install fdt newfd (Some p) in Ok (newfd, fdt, fs)
  end.

Definition sys_dup3 (fdt : fdtable) (fs : fstore) (arg0 arg1 arg2 : Z)
    : res (Z * fdtable * fstore) :=
  let oldfd := u32 arg0 in let newfd := u32 arg1 in let flags := u32 arg2 in
  if truth (Z.land flags (not32 O_CLOEXEC)) then Ok (- EINVAL, fdt, fs) else
  if oldfd =? newfd then Ok (- EINVAL, fdt, fs) else
  if newfd >=? BITS_PER_LONG then Ok (- EBADF, fdt, fs) else
  let! (fp, fs) := fd_open fdt fs oldfd in
  match fp with
  | None => Ok (- EBADF, fdt, fs)
  | Some p =>
      let! (replaced, fdt) := fd_replace fdt newfd (Some p) (truth (Z.land flags O_CLOEXEC)) in
      let! (_, fs) := fput fs replaced in
      Ok (newfd, fdt, fs)
  end.

Definition sys_close (fdt : fdtable) (fs : fstore) (arg0 : Z) : res (Z * fdtable * fstore) :=
  fd_close fdt fs (u32 arg0).

Definition sys_fcntl (fdt : fdtable) (fs : fstore) (arg0 arg1 arg : Z)
    : res (Z * fdtable * fstore) :=
  let fd := u32 arg0 in let cmd := u32 arg1 in
  let! (fp, fs) := fd_open fdt fs fd in
  match fp with
  | None => Ok (- EBADF, fdt, fs)
  | Some p =>
      (* every return but the move drops the reference taken by fd_open *)
      let leave (ret : Z) (fdt : fdtable) (fs : fstore) : res (Z * fdtable * fstore) :=
        let! (_, fs) := fput fs (Some p) in Ok (ret, fdt, fs) in
      if (cmd =? F_DUPFD) || (cmd =? F_DUPFD_CLOEXEC) then
        let min := s32 arg in
        if (min <? 0) || (min >=? BITS_PER_LONG) then leave (- EINVAL) fdt fs else
        let! (newfd, fdt) := fd_alloc_from fdt min in
        if newfd <? 0 then leave newfd fdt fs else
        let! (_, fdt) := fd_replace fdt newfd (Some p) (cmd =? F_DUPFD_CLOEXEC) in
        Ok (newfd, fdt, fs)
      else if cmd =? F_GETFD then
        let! set := fd_test_cloexec fdt fd in
        leave (if set then FD_CLOEXEC else 0) fdt fs
      else if cmd =? F_SETFD then
        let! fdt := fd_set_cloexec fdt fd (truth (Z.land arg FD_CLOEXEC)) in
        leave 0 fdt fs
      else if cmd =? F_GETFL then
        let! f := deref (fs !! p) in leave (f_flags f) fdt fs
      else if cmd =? F_SETFL then
        let! f := deref (fs !! p) in
        let flags := Z.lor (Z.land (f_flags f) (not32 O_NONBLOCK)) (u32 (Z.land arg O_NONBLOCK)) in
        leave 0 fdt (<[p := File (f_count f) flags]> fs)
      else leave (- EINVAL) fdt fs
  end.

#[local] Arguments fget : simpl never.
#[local] Arguments fput : simpl never.

(** ** Invariant and reference accounting *)

Record fd_wf (fdt : fdtable) : Prop := {
  fd_len : length (files fdt) = 64%nat;
  fd_bm : in_u64 (bitmap fdt);
  fd_ce : in_u64 (cloexec fdt);
  (* an open descriptor is allocated, and only allocated ones are close-on-exec *)
  fd_installed : ∀ fd p, 0 ≤ fd < 64 → files fdt !! Z.to_nat fd = Some (Some p) →
    Z.testbit (bitmap fdt) fd = true;
  fd_ce_alloc : ∀ fd, 0 ≤ fd < 64 → Z.testbit (cloexec fdt) fd = true →
    Z.testbit (bitmap fdt) fd = true;
}.

Definition occ (p : positive) (fl : list fptr) : Z :=
  Z.of_nat (length (filter (λ x, x = Some p) fl)).
Definition count_of (fs : fstore) (p : positive) : Z := default 0 (f_count <$> fs !! p).

(** Every count is the number of table slots that hold the file plus the
    references [ext] held elsewhere; a stored file is referenced. *)
Record acct (fl : list fptr) (fs : fstore) (ext : positive → Z) : Prop := {
  acct_count : ∀ p, count_of fs p = occ p fl + ext p;
  acct_pos : ∀ p f, fs !! p = Some f → 0 < f_count f;
  acct_ext : ∀ p, 0 ≤ ext p;
}.

(** References held outside the table leave room for the 64 slots. *)
Definition bounded (ext : positive → Z) : Prop := ∀ p, ext p + 66 < REFCOUNT_MAX.

Definition hold (p : positive) (ext : positive → Z) (q : positive) : Z :=
  ext q + (if decide (q = p) then 1 else 0).

Lemma occ_nonneg p fl : 0 ≤ occ p fl.
Proof. unfold occ. lia. Qed.
Lemma occ_le p fl : occ p fl ≤ Z.of_nat (length fl).
Proof. unfold occ. pose proof (length_filter (λ x, x = Some p) fl). lia. Qed.

Lemma occ_insert p fl i old new :
  fl !! i = Some old →
  occ p (<[i:=new]> fl) =
    occ p fl - (if decide (old = Some p) then 1 else 0) + (if decide (new = Some p) then 1 else 0).
Proof.
  intros Hi. pose proof (lookup_lt_Some _ _ _ Hi) as Hlt. unfold occ.
  rewrite insert_take_drop by done. rewrite <-(take_drop_middle fl i old Hi) at 3.
  rewrite !filter_app, !filter_cons. repeat case_decide; rewrite !length_app; simpl; lia.
Qed.

Lemma occ_pos p fl i : fl !! i = Some (Some p) → 1 ≤ occ p fl.
Proof.
  intros Hi. pose proof (occ_insert p fl i _ None Hi) as Ho. pose proof (occ_nonneg p (<[i:=None]> fl)).
  rewrite decide_True in Ho by done. rewrite decide_False in Ho by done. lia.
Qed.

Lemma acct_live fl fs ext p :
  acct fl fs ext → 1 ≤ occ p fl + ext p → ∃ f, fs !! p = Some f ∧ f_count f = occ p fl + ext p.
Proof.
  intros [Hc _ _] Hp. specialize (Hc p). unfold count_of in Hc.
  destruct (fs !! p) as [f|]; simpl in Hc; [by exists f|lia].
Qed.

Lemma acct_slot fl fs ext i p : acct fl fs ext → fl !! i = Some (Some p) → is_Some (fs !! p).
Proof.
  intros Ha Hi. pose proof (occ_pos _ _ _ Hi). pose proof (acct_ext _ _ _ Ha p).
  destruct (acct_live fl fs ext p) as (f&?&_); [done|lia|eauto].
Qed.

Lemma fget_room fl fs ext p :
  acct fl fs ext → ext p + Z.of_nat (length fl) < REFCOUNT_MAX → is_Some (fs !! p) →
  ∃ fs', fget fs (Some p) = Ok fs' ∧ acct fl fs' (hold p ext) ∧ dom fs' = dom fs.
Proof.
  intros Ha Hb [f Hf]. pose proof (acct_pos _ _ _ Ha p f Hf) as Hpos.
  pose proof (acct_count _ _ _ Ha p) as Hc. unfold count_of in Hc. rewrite Hf in Hc. simpl in Hc.
  pose proof (occ_le p fl). unfold fget. rewrite Hf. simpl.
  rewrite inc_live by lia. simpl. eexists. split; [done|]. split.
  - split.
    + intros q. unfold count_of, hold. rewrite lookup_insert.
      destruct (decide (p = q)) as [->|]; simpl.
      * rewrite decide_True by done. lia.
      * rewrite decide_False by done. pose proof (acct_count _ _ _ Ha q) as Hq. unfold count_of in Hq. lia.
    + intros q g. rewrite lookup_insert. case_decide; [|apply Ha].
      intros [= <-]. simpl. lia.
    + intros q. unfold hold. pose proof (acct_ext _ _ _ Ha q). case_decide; lia.
  - rewrite dom_insert_L. apply subseteq_union_1_L, singleton_subseteq_l, elem_of_dom. eauto.
Qed.

Lemma fget_spec fl fs ext p :
  length fl = 64%nat → acct fl fs ext → bounded ext → is_Some (fs !! p) →
  ∃ fs', fget fs (Some p) = Ok fs' ∧ acct fl fs' (hold p ext) ∧ dom fs' = dom fs.
Proof. intros Hl Ha Hb. specialize (Hb p). apply fget_room; [done|lia]. Qed.

Lemma acct_perm fl fl' fs ext : fl ≡ₚ fl' → acct fl fs ext → acct fl' fs ext.
Proof. intros Hp [Hc ? ?]. split; [|done..]. intros p. rewrite Hc. unfold occ. by rewrite Hp. Qed.

Lemma acct_None fl fs ext : acct (None :: fl) fs ext ↔ acct fl fs ext.
Proof. split; intros [Hc ? ?]; split; try done; intros p; apply Hc. Qed.

(** A reference held by one more holder of the list. *)
Lemma acct_Some fl fs ext p :
  (∀ q, 0 ≤ ext q) → acct (Some p :: fl) fs ext ↔ acct fl fs (hold p ext).
Proof.
  intros He. split; intros [Hc ? ?]; (split; [|done|]); unfold hold in *.
  - intros q. rewrite Hc. unfold occ. rewrite filter_cons. repeat case_decide; simplify_eq; simpl; lia.
  - intros q. specialize (He q). case_decide; lia.
  - intros q. rewrite Hc. unfold occ. rewrite filter_cons. repeat case_decide; simplify_eq; simpl; lia.
  - done.
Qed.

Lemma fput_spec fl fs ext p :
  acct fl fs (hold p ext) → (∀ q, 0 ≤ ext q) →
  ∃ ret fs', fput fs (Some p) = Ok (ret, fs') ∧ acct fl fs' ext.
Proof.
  intros Ha He. pose proof (occ_nonneg p fl). pose proof (He p).
  destruct (acct_live fl fs (hold p ext) p) as (f&Hf&Hc); [done|unfold hold; rewrite decide_True by done; lia|].
  unfold hold in Hc. rewrite decide_True in Hc by done. unfold fput. rewrite Hf. simpl.
  rewrite dec_and_test_live by lia. simpl.
  assert (Hother : ∀ q, q ≠ p → count_of fs q = occ q fl + ext q).
  { intros q Hq. rewrite (acct_count _ _ _ Ha q). unfold hold. rewrite decide_False by done. lia. }
  destruct (decide (f_count f = 1)) as [H1|H1].
  - rewrite bool_decide_eq_true_2 by done. simpl. do 2 eexists. split; [done|]. split; [| |done].
    + intros q. destruct (decide (q = p)) as [->|Hq].
      * unfold count_of. rewrite lookup_delete_eq. simpl. lia.
      * rewrite <-Hother by done. unfold count_of. by rewrite lookup_delete_ne.
    + intros q g [? Hg]%lookup_delete_Some. by apply Ha in Hg.
  - rewrite bool_decide_eq_false_2 by done. simpl. do 2 eexists. split; [done|]. split; [| |done].
    + intros q. destruct (decide (q = p)) as [->|Hq].
      * unfold count_of. rewrite lookup_insert_eq. simpl. lia.
      * rewrite <-Hother by done. unfold count_of. by rewrite lookup_insert_ne.
    + intros q g. rewrite lookup_insert. case_decide; [|by apply Ha]. intros [= <-]. simpl. lia.
Qed.

(** Storing a held reference in a slot hands the slot's old one back. *)
Lemma acct_store fl fs ext i old new :
  fl !! i = Some old →
  acct fl fs (match new with Some p => hold p ext | None => ext end) →
  (∀ q, 0 ≤ ext q) →
  acct (<[i:=new]> fl) fs (match old with Some p => hold p ext | None => ext end).
Proof.
  intros Hi Ha He. split; [|apply Ha|].
  - intros q. rewrite (acct_count _ _ _ Ha q), (occ_insert q _ _ old new Hi).
    destruct old as [o|], new as [n|]; unfold hold; repeat case_decide; simplify_eq; lia.
  - intros q. specialize (He q). destruct old; unfold hold; repeat case_decide; lia.
Qed.

(** ** One-word bitmaps *)

Definition word_upd (w fd : Z) (v : bool) (w' : Z) : Prop :=
  in_u64 w' ∧ ∀ i, 0 ≤ i < 64 → Z.testbit w' i = if i =? fd then v else Z.testbit w i.

Lemma bit_word w i : 0 ≤ i < 64 → bit [w] i = Z.testbit w i.
Proof.
  intros Hi. unfold bit, BIT_WORD, BITS_PER_LONG.
  by rewrite Z.div_small, Z.mod_small by lia.
Qed.

Lemma on_word_updates f w fd v map' :
  f [w] = Ok map' → updates [w] fd v map' → ∃ w', on_word f w = Ok w' ∧ word_upd w fd v w'.
Proof.
  intros Hf (Hwords&Hbits&Hupd). unfold bits in Hbits. simpl in Hbits.
  destruct map' as [|w' [|? ?]]; simpl in Hbits; [lia| |lia].
  exists w'. unfold on_word. rewrite Hf. simpl. split; [done|]. split.
  - unfold words in Hwords. by rewrite Forall_singleton in Hwords.
  - intros i Hi. specialize (Hupd i ltac:(lia)). rewrite !bit_word in Hupd by lia. done.
Qed.

Lemma set_word fd w :
  0 ≤ fd < 64 → in_u64 w → ∃ w', on_word (set_bit fd) w = Ok w' ∧ word_upd w fd true w'.
Proof.
  intros. destruct (set_bit_spec [w] fd) as (m&Hm&?); [done|by apply Forall_singleton|].
  by eapply on_word_updates.
Qed.
Lemma clear_word fd w :
  0 ≤ fd < 64 → in_u64 w → ∃ w', on_word (clear_bit fd) w = Ok w' ∧ word_upd w fd false w'.
Proof.
  intros. destruct (clear_bit_spec [w] fd) as (m&Hm&?); [done|by apply Forall_singleton|].
  by eapply on_word_updates.
Qed.
Lemma test_word fd w : 0 ≤ fd < 64 → test_bit fd [w] = Ok (Z.testbit w fd).
Proof. intros. by rewrite test_bit_spec, bit_word. Qed.

(** ** Table operations *)

(** [fd] is the lowest unallocated descriptor from [min] on. *)
Definition lowest_free (fdt : fdtable) (min fd : Z) : Prop :=
  min ≤ fd < 64 ∧ Z.testbit (bitmap fdt) fd = false ∧
  ∀ j, min ≤ j < fd → Z.testbit (bitmap fdt) j = true.
Definition none_free (fdt : fdtable) (min : Z) : Prop :=
  ∀ j, min ≤ j < 64 → Z.testbit (bitmap fdt) j = true.

Lemma fd_alloc_from_spec fdt min :
  fd_wf fdt → 0 ≤ min →
  (∃ fd fdt', fd_alloc_from fdt min = Ok (fd, fdt') ∧ lowest_free fdt min fd ∧ fd_wf fdt' ∧
     files fdt' = files fdt ∧ cloexec fdt' = cloexec fdt ∧
     word_upd (bitmap fdt) fd true (bitmap fdt')) ∨
  (fd_alloc_from fdt min = Ok (- EMFILE, fdt) ∧ none_free fdt min).
Proof.
  intros Hwf Hmin. unfold fd_alloc_from. rewrite Z.geb_leb. unfold BITS_PER_LONG.
  destruct (Z.leb_spec 64 min); [right; split; [done|intros j; lia]|].
  destruct (find_next_loop_spec false (Z.to_nat (64 - min)) [bitmap fdt] 64 min)
    as (r&Hr&Hbelow&Hcases); [done|done|done|].
  change (find_next_zero_bit [bitmap fdt] 64 min = Ok r) in Hr. rewrite Hr. simpl.
  destruct Hcases as [[Hrange Hbit]| ->].
  - left. rewrite bit_word in Hbit by lia.
    destruct (set_word r (bitmap fdt)) as (w'&Hw&Hupd); [lia|apply Hwf|].
    replace (r <? 64) with true by lia. rewrite Hw. simpl. replace (r =? 64) with false by lia.
    rewrite s32_small by lia. do 2 eexists. split; [done|]. simpl. destruct Hupd as [Hw64 Hupd].
    split; [|split; [|by split_and!]].
    + split; [lia|]. split; [done|]. intros j Hj. rewrite <-bit_word by lia. apply Hbelow; lia.
    + split; simpl; try apply Hwf; [done| |]; intros fd; [intros q Hfd Hq|intros Hfd Hq];
        rewrite Hupd by lia; destruct (fd =? r); eauto using fd_installed, fd_ce_alloc.
  - right. simpl. split; [by destruct fdt|]. intros j Hj.
    rewrite <-bit_word by lia. apply Hbelow; lia.
Qed.

Lemma slot_lookup fdt fd : fd_wf fdt → 0 ≤ fd < 64 → ∃ fp, files fdt !! Z.to_nat fd = Some fp.
Proof. intros [Hl _ _ _ _] Hfd. apply lookup_lt_is_Some_2. lia. Qed.

Lemma free_slot_empty fdt fd fp :
  fd_wf fdt → 0 ≤ fd < 64 → Z.testbit (bitmap fdt) fd = false →
  files fdt !! Z.to_nat fd = Some fp → fp = None.
Proof.
  intros Hwf Hfd Hb Hfp. destruct fp as [p|]; [|done].
  by rewrite (fd_installed _ Hwf fd p Hfd Hfp) in Hb.
Qed.

Lemma fd_open_spec fdt fs ext fd :
  fd_wf fdt → acct (files fdt) fs ext → bounded ext → 0 ≤ fd →
  (∃ p fs', fd < 64 ∧ files fdt !! Z.to_nat fd = Some (Some p) ∧ fd_open fdt fs fd = Ok (Some p, fs') ∧
     acct (files fdt) fs' (hold p ext) ∧ dom fs' = dom fs) ∨
  ((64 ≤ fd ∨ files fdt !! Z.to_nat fd = Some None) ∧ fd_open fdt fs fd = Ok (None, fs)).
Proof.
  intros Hwf Ha Hb Hfd. unfold fd_open, BITS_PER_LONG. destruct (Z.ltb_spec fd 64); [|right; auto].
  destruct (slot_lookup fdt fd Hwf) as [fp Hfp]; [lia|]. rewrite (arr_get_Ok _ _ fp) by done.
  destruct fp as [p|]; simpl; [|right; auto]. left.
  destruct (fget_spec (files fdt) fs ext p) as (fs'&Hg&?&?); [apply Hwf|done|done|by eapply acct_slot|].
  rewrite Hg. simpl. by exists p, fs'.
Qed.

(** The table after [fd] is given the file [p]. *)
Definition fd_assigned (fdt : fdtable) (fd : Z) (p : positive) (ce : bool) (fdt' : fdtable) : Prop :=
  files fdt' = <[Z.to_nat fd := Some p]> (files fdt) ∧
  word_upd (bitmap fdt) fd true (bitmap fdt') ∧
  word_upd (cloexec fdt) fd ce (cloexec fdt').

Lemma fd_assigned_wf fdt fd p ce fdt' :
  fd_wf fdt → 0 ≤ fd < 64 → fd_assigned fdt fd p ce fdt' → fd_wf fdt'.
Proof.
  intros Hwf Hfd (Hf&[? Hb]&[? Hc]). split; [|done|done| |].
  - rewrite Hf, length_insert. apply Hwf.
  - intros fd' q Hfd'. rewrite Hf, Hb by done. destruct (Z.eqb_spec fd' fd) as [->|]; [done|].
    rewrite list_lookup_insert_ne by lia. by apply fd_installed.
  - intros fd' Hfd'. rewrite Hb, Hc by done. destruct (Z.eqb_spec fd' fd); [done|].
    by apply fd_ce_alloc.
Qed.

Lemma fd_replace_table fdt fd p ce :
  fd_wf fdt → 0 ≤ fd < 64 →
  ∃ old fdt', files fdt !! Z.to_nat fd = Some old ∧
    fd_replace fdt fd (Some p) ce = Ok (old, fdt') ∧ fd_assigned fdt fd p ce fdt' ∧ fd_wf fdt'.
Proof.
  intros Hwf Hfd. destruct (slot_lookup fdt fd Hwf Hfd) as [old Hold].
  pose proof (lookup_lt_Some _ _ _ Hold) as Hlt.
  unfold fd_replace, BITS_PER_LONG. replace (fd <? 64) with true by lia. simpl.
  rewrite (arr_get_Ok _ _ old) by done. simpl. rewrite arr_set_Ok by done. simpl.
  destruct (set_word fd (bitmap fdt)) as (bm&->&Hbm); [done|apply Hwf|]. simpl.
  assert (∃ w, (if ce then on_word (set_bit fd) (cloexec fdt)
    else on_word (clear_bit fd) (cloexec fdt)) = Ok w ∧ word_upd (cloexec fdt) fd ce w)
    as (w&->&Hce).
  { destruct ce; [apply set_word|apply clear_word]; done || apply Hwf. }
  simpl. exists old, (Fdtable (<[Z.to_nat fd:=Some p]> (files fdt)) bm w).
  assert (Has : fd_assigned fdt fd p ce (Fdtable (<[Z.to_nat fd:=Some p]> (files fdt)) bm w)) by done.
  split_and!; [done..|by apply (fd_assigned_wf fdt fd p ce)].
Qed.

Lemma fd_replace_spec fdt fs ext fd p ce :
  fd_wf fdt → 0 ≤ fd < 64 → (∀ q, 0 ≤ ext q) → acct (files fdt) fs (hold p ext) →
  ∃ old fdt', files fdt !! Z.to_nat fd = Some old ∧
    fd_replace fdt fd (Some p) ce = Ok (old, fdt') ∧ fd_assigned fdt fd p ce fdt' ∧ fd_wf fdt' ∧
    acct (files fdt') fs (match old with Some q => hold q ext | None => ext end).
Proof.
  intros Hwf Hfd He Ha. destruct (fd_replace_table fdt fd p ce Hwf Hfd) as (old&fdt'&Hold&Hr&Has&Hwf').
  exists old, fdt'. split_and!; [done..|]. destruct Has as [-> _].
  by apply (acct_store (files fdt) fs ext _ old (Some p)).
Qed.

(** Giving back a descriptor that was allocated and not yet installed. *)
Lemma fd_release_undo fdt fd fdt1 :
  fd_wf fdt → 0 ≤ fd < 64 → Z.testbit (bitmap fdt) fd = false →
  files fdt1 = files fdt → cloexec fdt1 = cloexec fdt → word_upd (bitmap fdt) fd true (bitmap fdt1) →
  fd_release fdt1 fd = Ok fdt.
Proof.
  intros Hwf Hfd Hclr Hf Hc [Hb1 Hu]. destruct (slot_lookup fdt fd Hwf Hfd) as [fp Hfp].
  pose proof (free_slot_empty fdt fd fp Hwf Hfd Hclr Hfp) as ->.
  unfold fd_release, BITS_PER_LONG. replace (fd <? 64) with true by lia.
  rewrite test_word by done. simpl. rewrite Hu, Z.eqb_refl by done. simpl.
  rewrite (arr_get_Ok _ _ None) by (by rewrite Hf). simpl.
  destruct (clear_word fd (bitmap fdt1)) as (bm&->&[Hb2 Hu2]); [done..|]. simpl.
  rewrite Hc. destruct (clear_word fd (cloexec fdt)) as (ce&->&[Hb3 Hu3]); [done|apply Hwf|]. simpl.
  destruct fdt as [fl0 bm0 ce0]. simpl in *. rewrite Hf. f_equal. f_equal.
  - apply u64_bits_inj; [done|apply Hwf|]. intros i Hi. rewrite Hu2, Hu by done.
    destruct (Z.eqb_spec i fd) as [->|]; [done|done].
  - apply u64_bits_inj; [done|apply Hwf|]. intros i Hi. rewrite Hu3 by done.
    destruct (Z.eqb_spec i fd) as [->|]; [|done].
    destruct (Z.testbit ce0 fd) eqn:E; [|done]. pose proof (fd_ce_alloc _ Hwf fd Hi E). simpl in *. congruence.
Qed.

Lemma fd_install_spec fdt fs ext fd p :
  fd_wf fdt → 0 ≤ fd < 64 → (∀ q, 0 ≤ ext q) → Z.testbit (bitmap fdt) fd = true →
  files fdt !! Z.to_nat fd = Some None → acct (files fdt) fs (hold p ext) →
  ∃ fdt', fd_install fdt fd (Some p) = Ok fdt' ∧
    files fdt' = <[Z.to_nat fd := Some p]> (files fdt) ∧ bitmap fdt' = bitmap fdt ∧
    cloexec fdt' = cloexec fdt ∧ acct (files fdt') fs ext.
Proof.
  intros Hwf Hfd He Hb Hslot Ha. unfold fd_install, BITS_PER_LONG.
  replace (fd <? 64) with true by lia. simpl. rewrite test_word, Hb by done. simpl.
  rewrite arr_set_Ok by (by eapply lookup_lt_Some). simpl. eexists. split; [done|]. simpl.
  split_and!; [done..|]. by apply (acct_store (files fdt) fs ext _ None (Some p)).
Qed.

Definition is_open (fdt : fdtable) (fd : Z) (p : positive) : Prop :=
  0 ≤ fd < 64 ∧ files fdt !! Z.to_nat fd = Some (Some p).
Definition not_open (fdt : fdtable) (fd : Z) : Prop :=
  64 ≤ fd ∨ files fdt !! Z.to_nat fd = Some None.

(** How [sys_dup] may return. *)
Definition dup_outcome (fdt : fdtable) (oldfd ret : Z) (fdt' : fdtable) : Prop :=
  (ret = - EBADF ∧ not_open fdt oldfd ∧ fdt' = fdt) ∨
  (∃ p, is_open fdt oldfd p ∧
    ((ret = - EMFILE ∧ none_free fdt 0 ∧ fdt' = fdt) ∨
     (lowest_free fdt 0 ret ∧ fd_assigned fdt ret p false fdt'))).

(** [sys_dup] gives the lowest free descriptor the same file as [oldfd],
    with close-on-exec clear, and returns -EBADF or -EMFILE with the table
    unchanged otherwise.  It never panics or faults, keeps the table invariant,
    and every file's count stays the number of slots holding it plus the
    references held elsewhere (no reference is leaked or lost on any path). *)
Theorem sys_dup_spec fdt fs ext oldfd :
  fd_wf fdt → acct (files fdt) fs ext → bounded ext → 0 ≤ oldfd →
  ∃ ret fdt' fs', sys_dup fdt fs oldfd = Ok (ret, fdt', fs') ∧
    fd_wf fdt' ∧ acct (files fdt') fs' ext ∧ dup_outcome fdt oldfd ret fdt'.
Proof.
  intros Hwf Ha Hb Hfd. pose proof (acct_ext _ _ _ Ha) as He. unfold sys_dup, dup_outcome.
  destruct (fd_open_spec fdt fs ext oldfd Hwf Ha Hb Hfd) as [(p&fs1&?&Hslot&->&Ha1&_)|[Hno ->]];
    simpl; [|do 3 eexists; split_and!; [done..|]; left; done].
  assert (Hopen : is_open fdt oldfd p) by (split; [lia|done]).
  destruct (fd_alloc_from_spec fdt 0 Hwf) as [(fd&fdt1&Hal&Hlow&Hwf1&Hf1&Hc1&Hu1)|[Hal Hnone]]; [done| |];
    unfold fd_alloc; rewrite Hal; simpl.
  - pose proof Hlow as (Hr&Hclr&_). replace (fd <? 0) with false by lia.
    destruct (slot_lookup fdt fd Hwf Hr) as [fp Hfp].
    rewrite (free_slot_empty fdt fd fp Hwf Hr Hclr Hfp) in Hfp.
    destruct (fd_install_spec fdt1 fs1 ext fd p) as (fdt2&->&Hf2&Hb2&Hc2&Ha2); [done|done|done| |by rewrite Hf1|by rewrite Hf1|].
    { destruct Hu1 as [_ Hu1]. rewrite Hu1 by done. by rewrite Z.eqb_refl. }
    simpl. exists fd, fdt2, fs1.
    assert (Has : fd_assigned fdt fd p false fdt2).
    { split; [by rewrite Hf2, Hf1|]. rewrite Hb2, Hc2, Hc1. split; [done|].
      split; [apply Hwf|]. intros i Hi. destruct (Z.eqb_spec i fd) as [->|]; [|done].
      destruct (Z.testbit (cloexec fdt) fd) eqn:E; [|done].
      by rewrite (fd_ce_alloc _ Hwf fd Hi E) in Hclr. }
    split_and!; [done|by apply (fd_assigned_wf fdt fd p false)|done|]. right. exists p. split; [done|]. by right.
  - destruct (fput_spec (files fdt) fs1 ext p) as (ret&fs2&->&Ha2); [done|done|]. simpl.
    do 3 eexists. split_and!; [done..|]. right. exists p. split; [done|]. by left.
Qed.

(** How [sys_dup3] may return. *)
Definition dup3_outcome (fdt : fdtable) (oldfd newfd flags ret : Z) (fdt' : fdtable) : Prop :=
  (ret = - EINVAL ∧ (truth (Z.land flags (not32 O_CLOEXEC)) = true ∨ oldfd = newfd) ∧ fdt' = fdt) ∨
  (ret = - EBADF ∧ (64 ≤ newfd ∨ not_open fdt oldfd) ∧ fdt' = fdt) ∨
  (∃ p, ret = newfd ∧ is_open fdt oldfd p ∧
     fd_assigned fdt newfd p (truth (Z.land flags O_CLOEXEC)) fdt').

(** [sys_dup3] makes [newfd] refer to the file of [oldfd] with the requested
    close-on-exec flag, dropping the file [newfd] referred to; it returns
    -EINVAL for unknown flags or equal descriptors and -EBADF for a descriptor
    out of range or not open, leaving the table unchanged.  It never panics,
    keeps the table invariant and balances the reference counts. *)
Theorem sys_dup3_spec fdt fs ext a0 a1 a2 :
  fd_wf fdt → acct (files fdt) fs ext → bounded ext →
  ∃ ret fdt' fs', sys_dup3 fdt fs a0 a1 a2 = Ok (ret, fdt', fs') ∧
    fd_wf fdt' ∧ acct (files fdt') fs' ext ∧ dup3_outcome fdt (u32 a0) (u32 a1) (u32 a2) ret fdt'.
Proof.
  intros Hwf Ha Hb. pose proof (acct_ext _ _ _ Ha) as He.
  pose proof (u32_range a0) as [? _]. pose proof (u32_range a1) as [? _].
  unfold sys_dup3, dup3_outcome, BITS_PER_LONG. rewrite Z.geb_leb.
  destruct (truth (Z.land (u32 a2) (not32 O_CLOEXEC))) eqn:Hfl; [do 3 eexists; split_and!; eauto 6|].
  destruct (Z.eqb_spec (u32 a0) (u32 a1)); [do 3 eexists; split_and!; eauto 6|].
  destruct (Z.leb_spec 64 (u32 a1)); [do 3 eexists; split_and!; eauto 7|].
  destruct (fd_open_spec fdt fs ext (u32 a0)) as [(p&fs1&?&Hslot&->&Ha1&_)|[Hno ->]];
    [done..| |]; simpl; [|do 3 eexists; split_and!; [done..|]; right; left; auto].
  destruct (fd_replace_spec fdt fs1 ext (u32 a1) p (truth (Z.land (u32 a2) O_CLOEXEC)))
    as (old&fdt1&Hold&->&Has&Hwf1&Ha2); [done|lia|done|done|]. simpl.
  assert (∃ r fs2, fput fs1 old = Ok (r, fs2) ∧ acct (files fdt1) fs2 ext) as (r&fs2&->&Ha3).
  { destruct old as [q|]; [by apply fput_spec|]. by exists 0, fs1. }
  simpl. do 3 eexists. split_and!; [done..|]. right; right. exists p.
  split_and!; [done|split; [lia|done]|done].
Qed.

Lemma fd_close_spec fdt fs ext fd :
  fd_wf fdt → acct (files fdt) fs ext → 0 ≤ fd →
  ∃ ret fdt' fs', fd_close fdt fs fd = Ok (ret, fdt', fs') ∧ fd_wf fdt' ∧
    acct (files fdt') fs' ext ∧
    ((∃ p, is_open fdt fd p ∧ files fdt' = <[Z.to_nat fd := None]> (files fdt) ∧
        word_upd (bitmap fdt) fd false (bitmap fdt') ∧
        word_upd (cloexec fdt) fd false (cloexec fdt')) ∨
     (not_open fdt fd ∧ ret = - EBADF ∧ fdt' = fdt ∧ fs' = fs)).
Proof.
  intros Hwf Ha Hfd. pose proof (acct_ext _ _ _ Ha) as He. unfold fd_close, BITS_PER_LONG, not_open.
  destruct (Z.ltb_spec fd 64); simpl; [|do 3 eexists; split_and!; [done..|]; right; auto].
  destruct (slot_lookup fdt fd Hwf) as [fp Hfp]; [lia|]. rewrite (arr_get_Ok _ _ fp) by done.
  destruct fp as [p|]; simpl; [|do 3 eexists; split_and!; [done..|]; right; auto].
  pose proof (lookup_lt_Some _ _ _ Hfp). rewrite arr_set_Ok by done. simpl.
  destruct (clear_word fd (bitmap fdt)) as (bm&->&Hbm); [lia|apply Hwf|]. simpl.
  destruct (clear_word fd (cloexec fdt)) as (ce&->&Hce); [lia|apply Hwf|]. simpl.
  assert (Ha1 : acct (<[Z.to_nat fd:=None]> (files fdt)) fs (hold p ext)).
  { by apply (acct_store (files fdt) fs ext _ (Some p) None). }
  destruct (fput_spec _ fs ext p Ha1 He) as (ret&fs'&->&Ha2). simpl.
  do 3 eexists. split; [done|]. split; [|split; [done|]].
  - destruct Hbm as [? Hbm], Hce as [? Hce]. split; simpl; [rewrite length_insert; apply Hwf|done|done| |].
    + intros i q Hi. rewrite Hbm by done. destruct (Z.eqb_spec i fd) as [->|].
      * by rewrite list_lookup_insert_eq.
      * rewrite list_lookup_insert_ne by lia. by apply fd_installed.
    + intros i Hi. rewrite Hbm, Hce by done. destruct (Z.eqb_spec i fd); [done|by apply fd_ce_alloc].
  - left. exists p. split_and!; try done; split; (done || lia).
Qed.

Lemma fd_close_files fdt fs ext fd :
  fd_wf fdt → acct (files fdt) fs ext → 0 ≤ fd < 64 →
  ∃ ret fdt' fs', fd_close fdt fs fd = Ok (ret, fdt', fs') ∧ fd_wf fdt' ∧
    acct (files fdt') fs' ext ∧
    files fdt' = <[Z.to_nat fd := None]> (files fdt) ∧
    (∀ i, 0 ≤ i < 64 → i ≠ fd → Z.testbit (cloexec fdt') i = Z.testbit (cloexec fdt) i).
Proof.
  intros Hwf Ha Hfd.
  destruct (fd_close_spec fdt fs ext fd) as (ret&fdt'&fs'&?&?&?&Hcases); [done|done|lia|].
  exists ret, fdt', fs'. split_and!; [done..| |].
  - destruct Hcases as [(p&_&?&_)|([?|Hn]&_&->&_)]; [done|lia|]. by rewrite list_insert_id.
  - destruct Hcases as [(p&_&_&_&_&Hc)|(_&_&->&_)]; [|done]. intros i Hi Hne.
    rewrite Hc by done. by destruct (Z.eqb_spec i fd).
Qed.

Lemma close_on_exec_loop_spec fuel fdt fs ext fd :
  fd_wf fdt → acct (files fdt) fs ext → 0 ≤ fd ≤ 64 → (Z.to_nat (64 - fd) < fuel)%nat →
  (fd < 64 → Z.testbit (cloexec fdt) fd = true) →
  ∃ fdt' fs', close_on_exec_loop fuel fdt fs fd = Ok (fdt', fs') ∧ fd_wf fdt' ∧
    acct (files fdt') fs' ext ∧
    ∀ i, 0 ≤ i < 64 → files fdt' !! Z.to_nat i =
      if (fd <=? i) && Z.testbit (cloexec fdt) i then Some None else files fdt !! Z.to_nat i.
Proof.
  revert fdt fs fd. induction fuel as [|fuel IH]; intros fdt fs fd Hwf Ha Hfd Hfuel Hset; [lia|].
  simpl. unfold BITS_PER_LONG. destruct (Z.ltb_spec fd 64).
  - destruct (fd_close_files fdt fs ext fd) as (ret&fdt1&fs1&->&Hwf1&Ha1&Hf1&Hc1); [done|done|lia|].
    simpl.
    destruct (find_next_loop_spec true (Z.to_nat (64 - (fd + 1))) [cloexec fdt1] 64 (fd + 1))
      as (r&Hr&Hbelow&Hcases); [lia|done|done|].
    change (find_next_bit [cloexec fdt1] 64 (fd + 1) = Ok r) in Hr. rewrite Hr. simpl.
    assert (Hrange : fd + 1 ≤ r ≤ 64) by lia.
    destruct (IH fdt1 fs1 r) as (fdt2&fs2&->&?&?&Hres); [done|done|lia|lia| |].
    { intros Hlt. destruct Hcases as [[? Hb]|?]; [|lia]. rewrite bit_word in Hb by lia. done. }
    do 2 eexists. split_and!; [done..|]. intros i Hi. rewrite Hres by done.
    destruct (Z.leb_spec r i); simpl.
    + rewrite Hc1, Hf1, list_lookup_insert_ne by lia. by replace (fd <=? i) with true by lia.
    + rewrite Hf1. destruct (decide (i = fd)) as [->|Hne].
      * rewrite list_lookup_insert_eq by (rewrite (fd_len _ Hwf); lia).
        rewrite Hset by lia. by replace (fd <=? fd) with true by lia.
      * rewrite list_lookup_insert_ne by lia. destruct (Z.leb_spec fd i); simpl; [|done].
        rewrite <-Hc1 by lia. specialize (Hbelow i ltac:(lia) ltac:(lia)).
        rewrite bit_word in Hbelow by lia. by rewrite Hbelow.
  - assert (fd = 64) as -> by lia. do 2 eexists. split_and!; [done..|]. intros i Hi.
    by replace (64 <=? i) with false by lia.
Qed.

(** [fdtable_close_on_exec] closes exactly the close-on-exec descriptors:
    afterwards such a slot is empty and every other slot is unchanged.  The
    loop terminates although it deletes from the bitmap it iterates over, the
    table invariant holds, and the dropped references are accounted for. *)
Theorem close_on_exec_exact fdt fs ext :
  fd_wf fdt → acct (files fdt) fs ext →
  ∃ fdt' fs', fdtable_close_on_exec fdt fs = Ok (fdt', fs') ∧ fd_wf fdt' ∧
    acct (files fdt') fs' ext ∧
    ∀ i, 0 ≤ i < 64 → files fdt' !! Z.to_nat i =
      if Z.testbit (cloexec fdt) i then Some None else files fdt !! Z.to_nat i.
Proof.
  intros Hwf Ha. unfold fdtable_close_on_exec, find_first_bit, BITS_PER_LONG.
  destruct (find_next_loop_spec true (Z.to_nat (64 - 0)) [cloexec fdt] 64 0)
    as (r&Hr&Hbelow&Hcases); [done..|].
  change (find_next_bit [cloexec fdt] 64 0 = Ok r) in Hr. rewrite Hr. simpl res_bind.
  destruct (close_on_exec_loop_spec 65 fdt fs ext r) as (fdt'&fs'&Hl&?&?&Hres); [done|done|lia|lia| |].
  { intros Hlt. destruct Hcases as [[? Hb]|?]; [|lia]. rewrite bit_word in Hb by lia. done. }
  exists fdt', fs'. split_and!; [done..|]. intros i Hi. rewrite Hres by done.
  destruct (Z.leb_spec r i); simpl; [done|].
  specialize (Hbelow i ltac:(lia) ltac:(lia)). rewrite bit_word in Hbelow by lia. by rewrite Hbelow.
Qed.

(** ** Safety of the remaining system calls *)

Lemma acct_flags fl fs ext p f flags :
  acct fl fs ext → fs !! p = Some f → acct fl (<[p := File (f_count f) flags]> fs) ext.
Proof.
  intros Ha Hf. split; [| |apply Ha].
  - intros q. rewrite <-(acct_count _ _ _ Ha q). unfold count_of. rewrite lookup_insert.
    case_decide as Hq; [subst q; by rewrite Hf|done].
  - intros q g. rewrite lookup_insert. case_decide; [|by apply Ha].
    intros [= <-]. simpl. by eapply acct_pos.
Qed.

Lemma set_cloexec_spec fdt fd p enable :
  fd_wf fdt → is_open fdt fd p →
  ∃ fdt', fd_set_cloexec fdt fd enable = Ok fdt' ∧ fd_wf fdt' ∧ files fdt' = files fdt.
Proof.
  intros Hwf [Hfd Hp]. unfold fd_set_cloexec, BITS_PER_LONG. replace (fd <? 64) with true by lia. simpl.
  assert (∃ w, (if enable then on_word (set_bit fd) (cloexec fdt)
    else on_word (clear_bit fd) (cloexec fdt)) = Ok w ∧ word_upd (cloexec fdt) fd enable w)
    as (w&->&[? Hw]).
  { destruct enable; [apply set_word|apply clear_word]; done || apply Hwf. }
  simpl. eexists. split_and!; [done| |done]. split; simpl; try apply Hwf; [done|].
  intros i Hi. rewrite Hw by done. destruct (Z.eqb_spec i fd) as [->|]; [|by apply fd_ce_alloc].
  intros _. by eapply fd_installed.
Qed.

(** What a descriptor system call keeps: it returns, without panic or fault, in
    a well-formed table whose files are exactly accounted for. *)
Definition keeps (ext : positive → Z) (r : res (Z * fdtable * fstore)) : Prop :=
  ∃ ret fdt' fs', r = Ok (ret, fdt', fs') ∧ fd_wf fdt' ∧ acct (files fdt') fs' ext.

Lemma fput_keeps fdt fs ext p ret :
  fd_wf fdt → (∀ q, 0 ≤ ext q) → acct (files fdt) fs (hold p ext) →
  keeps ext (let! (_, fs) := fput fs (Some p) in Ok (ret, fdt, fs)).
Proof.
  intros Hwf He Ha. destruct (fput_spec (files fdt) fs ext p Ha He) as (r&fs'&->&?).
  simpl. unfold keeps. eauto 8.
Qed.

Lemma fcntl_dupfd_keeps fdt fs ext p min ce :
  fd_wf fdt → (∀ q, 0 ≤ ext q) → acct (files fdt) fs (hold p ext) → 0 ≤ min →
  keeps ext (let! (newfd, fdt) := fd_alloc_from fdt min in
    if newfd <? 0 then let! (_, fs) := fput fs (Some p) in Ok (newfd, fdt, fs) else
    let! (_, fdt) := fd_replace fdt newfd (Some p) ce in Ok (newfd, fdt, fs)).
Proof.
  intros Hwf He Ha Hmin.
  destruct (fd_alloc_from_spec fdt min Hwf Hmin)
    as [(fd&fdt1&->&Hlow&Hwf1&Hf1&_&_)|[-> _]]; simpl; [|by apply fput_keeps].
  pose proof Hlow as (Hr&Hclr&_). replace (fd <? 0) with false by lia.
  destruct (fd_replace_spec fdt1 fs ext fd p ce) as (old&fdt2&Hold&->&_&?&Ha2);
    [done|lia|done|by rewrite Hf1|].
  rewrite Hf1 in Hold. rewrite (free_slot_empty fdt fd old Hwf ltac:(lia) Hclr Hold) in Ha2.
  simpl. unfold keeps. eauto 8.
Qed.

(** [sys_close] and every command of [sys_fcntl], on any arguments, return
    without panic or fault from any well-formed table, keep it well formed and
    keep every file's count equal to the number of slots holding it plus the
    references held elsewhere. *)
Theorem close_fcntl_safe fdt fs ext a0 a1 a2 :
  fd_wf fdt → acct (files fdt) fs ext → bounded ext →
  keeps ext (sys_close fdt fs a0) ∧ keeps ext (sys_fcntl fdt fs a0 a1 a2).
Proof.
  intros Hwf Ha Hb. pose proof (acct_ext _ _ _ Ha) as He. pose proof (u32_range a0) as [? _].
  split.
  { destruct (fd_close_spec fdt fs ext (u32 a0)) as (r&fdt'&fs'&?&?&?&_); [done..|].
    exists r, fdt', fs'. done. }
  unfold sys_fcntl, BITS_PER_LONG.
  destruct (fd_open_spec fdt fs ext (u32 a0)) as [(p&fs1&?&Hslot&->&Ha1&_)|[Hno ->]];
    [done..| |]; simpl; [|do 3 eexists; done].
  assert (Hopen : is_open fdt (u32 a0) p) by (split; [lia|done]).
  destruct ((u32 a1 =? F_DUPFD) || (u32 a1 =? F_DUPFD_CLOEXEC)).
  { destruct ((s32 a2 <? 0) || (s32 a2 >=? 64)) eqn:Hm; [by apply fput_keeps|].
    apply fcntl_dupfd_keeps; [done..|]. apply orb_false_iff in Hm as [Hm _]. by apply Z.ltb_ge in Hm. }
  destruct (u32 a1 =? F_GETFD).
  { unfold fd_test_cloexec, BITS_PER_LONG. replace (u32 a0 <? 64) with true by lia. simpl.
    rewrite test_word by lia. simpl. by apply fput_keeps. }
  destruct (u32 a1 =? F_SETFD).
  { destruct (set_cloexec_spec fdt (u32 a0) p (truth (Z.land a2 FD_CLOEXEC))) as (fdt1&->&?&Hf1);
      [done..|]. simpl. apply fput_keeps; [done..|by rewrite Hf1]. }
  destruct (acct_live (files fdt) fs1 (hold p ext) p) as (f&Hf&_);
    [done|pose proof (occ_nonneg p (files fdt)); pose proof (He p); unfold hold;
      rewrite decide_True by done; lia|].
  destruct (u32 a1 =? F_GETFL); [rewrite Hf; simpl; by apply fput_keeps|].
  destruct (u32 a1 =? F_SETFL); [|by apply fput_keeps].
  rewrite Hf. simpl. apply fput_keeps; [done..|]. by apply acct_flags.
Qed.
End fdtable.

(** ** Witnesses: descriptor 0 is file 1, also referenced elsewhere; descriptor
    3 is file 2, close-on-exec; 1 and 2 are allocated but empty. *)

Definition example_fdt : fdtable :=
  Fdtable ([Some 1%positive; None; None; Some 2%positive] ++ replicate 60 None) 15 8.
Definition example_fs : fstore := {[ 1%positive := File 2 0; 2%positive := File 1 2 ]}.
Definition example_ext (p : positive) : Z := if decide (p = 1%positive) then 1 else 0.

Lemma filter_empty_slots p n : filter (λ x : fptr, x = Some p) (replicate n None) = [].
Proof. induction n as [|n IH]; [done|]. simpl replicate. by rewrite filter_cons_False. Qed.

Lemma example_fdt_wf : fd_wf example_fdt.
Proof.
  split; [done|done|done| |].
  - intros fd p Hfd Hl.
    assert (fd = 0 ∨ fd = 1 ∨ fd = 2 ∨ fd = 3 ∨ 4 ≤ fd) as [->|[->|[->|[->|?]]]] by lia; [done..|].
    unfold example_fdt in Hl. cbn [files] in Hl.
    rewrite lookup_app_r in Hl by (simpl; lia). by apply lookup_replicate in Hl as [? _].
  - intros fd Hfd Hb.
    assert (fd = 0 ∨ fd = 1 ∨ fd = 2 ∨ fd = 3 ∨ 4 ≤ fd) as [->|[->|[->|[->|?]]]] by lia; [done..|].
    simpl in Hb. by rewrite Z.bits_above_log2 in Hb by (simpl; lia).
Qed.

Lemma example_acct : acct (files example_fdt) example_fs example_ext.
Proof.
  split.
  - intros p. unfold example_ext.
    destruct (decide (p = 1%positive)) as [->|H1]; [done|].
    destruct (decide (p = 2%positive)) as [->|H2]; [done|].
    unfold count_of, example_fs, occ. rewrite lookup_insert_ne, lookup_singleton_ne by done.
    unfold example_fdt. cbn [files]. rewrite filter_app, filter_empty_slots.
    by rewrite !filter_cons_False by congruence.
  - intros p f. unfold example_fs. rewrite lookup_insert, lookup_singleton. repeat case_decide; naive_solver.
  - intros p. unfold example_ext. case_decide; lia.
Qed.

Lemma example_bounded : bounded example_ext.
Proof. intros p. unfold example_ext, REFCOUNT_MAX, INT32_MAX. case_decide; lia. Qed.

Lemma sys_dup_spec_witness :
  ∃ ret fdt' fs', sys_dup true (λ _, None) example_fdt example_fs 3 = Ok (ret, fdt', fs') ∧ fd_wf fdt'.
Proof.
  destruct (sys_dup_spec true (λ _, None) example_fdt example_fs example_ext 3) as (r&t&s&H1&H2&_).
  - apply example_fdt_wf.
  - apply example_acct.
  - apply example_bounded.
  - lia.
  - exists r, t, s. split; [exact H1|exact H2].
Defined.

Lemma sys_dup3_spec_witness :
  ∃ ret fdt' fs', sys_dup3 true (λ _, None) example_fdt example_fs 0 3 0 = Ok (ret, fdt', fs') ∧ fd_wf fdt'.
Proof.
  destruct (sys_dup3_spec true (λ _, None) example_fdt example_fs example_ext 0 3 0) as (r&t&s&H1&H2&_).
  - apply example_fdt_wf.
  - apply example_acct.
  - apply example_bounded.
  - exists r, t, s. split; [exact H1|exact H2].
Defined.

Lemma close_on_exec_exact_witness :
  ∃ fdt' fs', fdtable_close_on_exec true (λ _, None) example_fdt example_fs = Ok (fdt', fs') ∧ fd_wf fdt'.
Proof.
  destruct (close_on_exec_exact true (λ _, None) example_fdt example_fs example_ext) as (t&s&H1&H2&_).
  - apply example_fdt_wf.
  - apply example_acct.
  - exists t, s. split; [exact H1|exact H2].
Defined.

Lemma close_fcntl_safe_witness :
  keeps example_ext (sys_fcntl true (λ _, None) example_fdt example_fs 0 F_DUPFD_CLOEXEC 10).
Proof.
  destruct (close_fcntl_safe true (λ _, None) example_fdt example_fs example_ext 0 F_DUPFD_CLOEXEC 10)
    as [_ H].
  - apply example_fdt_wf.
  - apply example_acct.
  - apply example_bounded.
  - exact H.
Defined.

(** A fresh table satisfies the invariant. *)
Lemma fdtable_init_wf :
  ∃ fdt, fdtable_init true = Ok (0, Some fdt) ∧ fd_wf fdt ∧
    ∀ fs, (∀ p f, fs !! p = Some f → 0 < f_count f) → acct (files fdt) fs (count_of fs).
Proof.
  exists (Fdtable (replicate 64 None) 7 0). split; [done|]. split.
  - split; [done|done|done| |].
    + intros fd p _ Hl. by apply lookup_replicate in Hl as [? _].
    + intros fd _. simpl. by rewrite Z.bits_0.
  - intros fs Hpos. split; [|done|].
    + intros p. cbn [files]. unfold occ. rewrite filter_empty_slots. simpl. lia.
    + intros p. unfold count_of. destruct (fs !! p) eqn:E; simpl; [|lia].
      apply Z.lt_le_incl. by eapply Hpos.
Qed.
