(* ===== verification/Buddy.v ===== *)
(** * Physical page allocator: [mm/buddy.c], [mm/page.c], [include/nuvix/page.h]

    The flat descriptor array covers the pages [min_pfn, max_pfn); a free or
    allocated block is described by the descriptor of its first page.  A free
    list is the sequence of the page frame numbers of the blocks linked on it;
    [list_add] conses and [list_del] unlinks a descriptor from the list it is
    on.  All operations run under [buddy_lock]. *)
From Stdlib Require Import Sorting.Sorted.
From stdpp Require Import base tactics numbers list sets.
From S2P Require Import Prelude Refcount Memblock.

Definition PG_RESERVED : Z := BIT 0.
Definition PG_BUDDY : Z := BIT 1.
Definition PG_PGTABLE : Z := BIT 2.
Definition PG_ALLOCATED : Z := BIT 3.
Definition PG_SLAB : Z := BIT 4.
Definition PG_KMALLOC : Z := BIT 5.
Definition PAGE_ORDER_NONE : Z := UINT32_MAX.
(** [sizeof(struct page)]: flags 8, refcount 4, order 4, node 16, slab 24. *)
Definition SIZEOF_PAGE : Z := 56.

Record page := Page { flags : Z; refcount : Z; order : Z }.

Record buddy := Buddy {
  mem_map_addr : Z;                (* address of the descriptor array *)
  mem_map : list page;
  min_pfn : Z;
  max_pfn : Z;
  free_list : list (list Z);       (* free_area[].list *)
  nr_free : list Z;                (* free_area[].nr_free *)
  managed_pages : Z;
}.

Section buddy.
Context (CONFIG_DEBUG_REFCOUNT : bool).
Context (CONFIG_MAX_ORDER : nat).

(** ** Descriptors *)

Definition pfn_valid (b : buddy) (pfn : Z) : bool := (pfn >=? min_pfn b) && (pfn <? max_pfn b).
Definition pfn_index (b : buddy) (pfn : Z) : nat := Z.to_nat (pfn - min_pfn b).
(** [pfn_to_page] followed by a read; [None] is the NULL descriptor. *)
Definition pfn_to_page (b : buddy) (pfn : Z) : option page :=
  if pfn_valid b pfn then mem_map b !! pfn_index b pfn else None.
Definition page_addr (b : buddy) (pfn : Z) : Z := mem_map_addr b + (pfn - min_pfn b) * SIZEOF_PAGE.
Definition page_to_pfn (b : buddy) (addr : Z) : Z := min_pfn b + (addr - mem_map_addr b) / SIZEOF_PAGE.

(** A store to the descriptor of [pfn]. *)
Definition set_page (b : buddy) (pfn : Z) (p : page) : buddy :=
  Buddy (mem_map_addr b) (<[pfn_index b pfn := p]> (mem_map b)) (min_pfn b) (max_pfn b)
    (free_list b) (nr_free b) (managed_pages b).
Definition set_free (b : buddy) (fl : list (list Z)) (nr : list Z) : buddy :=
  Buddy (mem_map_addr b) (mem_map b) (min_pfn b) (max_pfn b) fl nr (managed_pages b).

(** ** Operations *)

Definition add_block (b : buddy) (pfn : Z) (o : nat) : res buddy :=
  let! p := deref (pfn_to_page b pfn) in
  let b := set_page b pfn (Page (Z.lor (flags p) PG_BUDDY) (refcount p) (Z.of_nat o)) in
  let! l := arr_get (free_list b) o in
  let! n := arr_get (nr_free b) o in
  Ok (set_free b (<[o := pfn :: l]> (free_list b)) (<[o := n + 1]> (nr_free b))).

Definition unlink (pfn : Z) (l : list Z) : list Z := filter (λ x, x ≠ pfn) l.

Definition del_block (b : buddy) (pfn : Z) : res buddy :=
  let! p := deref (pfn_to_page b pfn) in
  let! n := arr_get (nr_free b) (Z.to_nat (order p)) in
  let b := set_free b (unlink pfn <$> free_list b) (<[Z.to_nat (order p) := n - 1]> (nr_free b)) in
  Ok (set_page b pfn (Page (Z.land (flags p) (not64 PG_BUDDY)) (refcount p) PAGE_ORDER_NONE)).

(** [fuel] counts the orders left below [CONFIG_MAX_ORDER]. *)
Fixpoint merge_block (fuel : nat) (b : buddy) (pfn : Z) (o : nat) : res buddy :=
  match fuel with
  | O => Loop
  | S fuel' =>
      if (o + 1 <? CONFIG_MAX_ORDER)%nat then
        let buddy_pfn := Z.lxor pfn (BIT (Z.of_nat o)) in
        match pfn_to_page b buddy_pfn with
        | None => add_block b pfn o
        | Some p =>
            if negb (truth (Z.land (flags p) PG_BUDDY)) || negb (order p =? Z.of_nat o)
            then add_block b pfn o
            else let! b := del_block b buddy_pfn in
                 merge_block fuel' b (MIN pfn buddy_pfn) (o + 1)
        end
      else add_block b pfn o
  end.

(** [while (split_order > order) { --split_order; add_block(page + (1UL << split_order), ...); }] *)
Fixpoint split_block (b : buddy) (pfn : Z) (order_ split : nat) : res buddy :=
  match split with
  | O => Ok b
  | S s => if (order_ <? S s)%nat
           then let! b := add_block b (pfn + BIT (Z.of_nat s)) s in split_block b pfn order_ s
           else Ok b
  end.

(** The search of [alloc_pages] from [split] up; [n] orders are left. *)
Fixpoint alloc_search (n : nat) (b : buddy) (order_ split : nat) : res (option Z * buddy) :=
  match n with
  | O => Ok (None, b)
  | S n' =>
      let! l := arr_get (free_list b) split in
      match l with
      | [] => alloc_search n' b order_ (S split)
      | pfn :: _ =>
          let! b := del_block b pfn in
          let! b := split_block b pfn order_ split in
          let! p := deref (pfn_to_page b pfn) in
          let! r := refcount_set CONFIG_DEBUG_REFCOUNT (refcount p) 1 in
          Ok (Some pfn, set_page b pfn
                (Page (Z.lor (flags p) PG_ALLOCATED) r (Z.of_nat order_)))
      end
  end.

Definition alloc_pages (b : buddy) (ord : Z) : res (option Z * buddy) :=
  if (ord <? 0) || (ord >=? Z.of_nat CONFIG_MAX_ORDER) then Ok (None, b) else
  let o := Z.to_nat ord in alloc_search (CONFIG_MAX_ORDER - o) b o o.

(** [for (i = 1; i < nr; ++i)]: the other descriptors of the block are blank. *)
Fixpoint blank_tail (n : nat) (b : buddy) (pfn : Z) : res bool :=
  match n with
  | O => Ok true
  | S n' =>
      let! p := deref (mem_map b !! pfn_index b pfn) in
      if truth (flags p) || negb (order p =? PAGE_ORDER_NONE) || truth (refcount_read (refcount p))
      then Ok false else blank_tail n' b (pfn + 1)
  end.

Definition allocated_block (b : buddy) (addr ord : Z) : res bool :=
  let start := mem_map_addr b in
  if (ord <? 0) || (ord >=? Z.of_nat CONFIG_MAX_ORDER) then Ok false else
  if (addr <? start) || (addr >=? start + (max_pfn b - min_pfn b) * SIZEOF_PAGE) ||
     truth ((addr - start) mod SIZEOF_PAGE) then Ok false else
  let pfn := page_to_pfn b addr in
  let nr := BIT ord in
  let! p := deref (mem_map b !! pfn_index b pfn) in
  if truth (Z.land pfn (nr - 1)) || (nr >? max_pfn b - pfn) || negb (flags p =? PG_ALLOCATED) ||
     negb (order p =? ord) || negb (truth (refcount_read (refcount p))) then Ok false else
  blank_tail (Z.to_nat (nr - 1)) b (pfn + 1).

Definition free_pages (b : buddy) (addr ord : Z) : res buddy :=
  if negb (truth addr) then Ok b else
  let! ok := allocated_block b addr ord in
  if negb ok then Ok b else
  let pfn := page_to_pfn b addr in
  let! p := deref (mem_map b !! pfn_index b pfn) in
  let! (last, r) := refcount_dec_and_test CONFIG_DEBUG_REFCOUNT [] (refcount p) in
  let b := set_page b pfn (Page (flags p) r (order p)) in
  if last then
    let b := set_page b pfn (Page (Z.land (flags p) (not64 PG_ALLOCATED)) r PAGE_ORDER_NONE) in
    merge_block CONFIG_MAX_ORDER b pfn (Z.to_nat ord)
  else Ok b.

(** ** Boot *)

(** [while ((start & ((1UL << order) - 1)) || (1UL << order) > end - start) --order;] *)
Fixpoint release_order (o : nat) (start end_ : Z) : nat :=
  if truth (Z.land start (BIT (Z.of_nat o) - 1)) || (BIT (Z.of_nat o) >? end_ - start)
  then match o with O => O | S o' => release_order o' start end_ end
  else o.

Fixpoint release_unreserve (n : nat) (b : buddy) (pfn : Z) : res buddy :=
  match n with
  | O => Ok b
  | S n' =>
      let! p := deref (pfn_to_page b pfn) in
      release_unreserve n'
        (set_page b pfn (Page (Z.land (flags p) (not64 PG_RESERVED)) (refcount p) (order p)))
        (pfn + 1)
  end.

Fixpoint release_blocks (fuel : nat) (b : buddy) (start end_ : Z) : res buddy :=
  if start <? end_ then
    match fuel with
    | O => Loop
    | S fuel' =>
        let o := release_order (CONFIG_MAX_ORDER - 1) start end_ in
        let! b := add_block b start o in
        release_blocks fuel' b (start + BIT (Z.of_nat o)) end_
    end
  else Ok b.

Definition release_range (b : buddy) (start end_ : Z) : res buddy :=
  let! b := release_unreserve (Z.to_nat (end_ - start)) b start in
  let b := Buddy (mem_map_addr b) (mem_map b) (min_pfn b) (max_pfn b) (free_list b) (nr_free b)
             (u64 (managed_pages b + (end_ - start))) in
  release_blocks (Z.to_nat (end_ - start)) b start end_.

Fixpoint buddy_init_loop (regions : list memblock_region) (b : buddy) (start : Z)
    : res (Z * buddy) :=
  match regions with
  | [] => Ok (start, b)
  | region :: rest =>
      let end_ := u64 (base region + size region) in
      let first := Z.shiftr (base region) PAGE_SHIFT in
      let last := Z.shiftr end_ PAGE_SHIFT +
                  (if truth (Z.land end_ (PAGE_SIZE - 1)) then 1 else 0) in
      if last <=? start then buddy_init_loop rest b start else
      if first >=? max_pfn b then Ok (start, b) else
      let! b := if start <? first then release_range b start first else Ok b in
      buddy_init_loop rest b (MIN last (max_pfn b))
  end.

(** [buddy_init] without the page-table hook and the dump at its end. *)
Definition buddy_init (b : buddy) (mb : memblock) : res buddy :=
  let b := set_free b (replicate CONFIG_MAX_ORDER []) (nr_free b) in
  let! (start, b) := buddy_init_loop (live mb) b (min_pfn b) in
  release_range b start (max_pfn b).

(** [page_init]: size the array, allocate it early, blank every descriptor. *)
Definition page_init (mb : memblock) : res (Z * memblock * option buddy) :=
  let first_pfn := Z.shiftr (base (memory mb)) PAGE_SHIFT +
    (if truth (Z.land (base (memory mb)) (PAGE_SIZE - 1)) then 1 else 0) in
  let last_pfn := Z.shiftr (u64 (base (memory mb) + size (memory mb))) PAGE_SHIFT in
  if first_pfn >=? last_pfn then Ok (- ENODEV, mb, None) else
  let nr_pages := last_pfn - first_pfn in
  if nr_pages * SIZEOF_PAGE >? UINT64_MAX then Ok (- EOVERFLOW, mb, None) else
  let! (ret, mb, paddr) := early_alloc mb (nr_pages * SIZEOF_PAGE) PAGE_SIZE in
  if truth ret then Ok (ret, mb, None) else
  let! pages := deref paddr in
  Ok (0, mb, Some (Buddy pages (replicate (Z.to_nat nr_pages) (Page PG_RESERVED 0 PAGE_ORDER_NONE))
                     first_pfn last_pfn [] (replicate CONFIG_MAX_ORDER 0) 0)).

(** ** Blocks *)

Definition blank : page := Page 0 0 PAGE_ORDER_NONE.

Definition in_block (o : nat) (x y : Z) : Prop := x ≤ y < x + 2 ^ Z.of_nat o.

(** An aligned block inside the array whose descriptors after the first are blank. *)
Record block (b : buddy) (o : nat) (x : Z) : Prop := {
  block_order : (o < CONFIG_MAX_ORDER)%nat;
  block_lo : min_pfn b ≤ x;
  block_hi : x + 2 ^ Z.of_nat o ≤ max_pfn b;
  block_aligned : x mod 2 ^ Z.of_nat o = 0;
  block_tail : ∀ y, x < y → in_block o x y → pfn_to_page b y = Some blank;
}.

Definition free_block (b : buddy) (o : nat) (x : Z) : Prop :=
  ∃ l, free_list b !! o = Some l ∧ x ∈ l.
Definition alloc_block (b : buddy) (o : nat) (x : Z) : Prop :=
  ∃ p, pfn_to_page b x = Some p ∧ Z.testbit (flags p) 3 = true ∧ order p = Z.of_nat o.

(** The abstract state: which pages are free and which are allocated. *)
Definition is_free (b : buddy) (y : Z) : Prop := ∃ o x, free_block b o x ∧ in_block o x y.
Definition is_alloc (b : buddy) (y : Z) : Prop := ∃ o x, alloc_block b o x ∧ in_block o x y.

Record wf (b : buddy) : Prop := {
  wf_range : 0 ≤ min_pfn b ≤ max_pfn b;
  wf_len : length (mem_map b) = Z.to_nat (max_pfn b - min_pfn b);
  wf_lists : length (free_list b) = CONFIG_MAX_ORDER;
  wf_count : ∀ o l, free_list b !! o = Some l →
    NoDup l ∧ nr_free b !! o = Some (Z.of_nat (length l));
  wf_free : ∀ o x, free_block b o x →
    block b o x ∧ pfn_to_page b x = Some (Page PG_BUDDY 0 (Z.of_nat o));
  wf_buddy : ∀ x p, pfn_to_page b x = Some p → Z.testbit (flags p) 1 = true →
    ∃ o, order p = Z.of_nat o ∧ free_block b o x;
  wf_alloc : ∀ x p, pfn_to_page b x = Some p → Z.testbit (flags p) 3 = true →
    Z.testbit (flags p) 1 = false ∧ 0 < refcount p ≤ REFCOUNT_MAX ∧
    ∃ o, order p = Z.of_nat o ∧ block b o x;
}.

(** Freed memory is coalesced: no two free blocks of one order are buddies,
    except at the largest order. *)
Definition coalesced (b : buddy) : Prop :=
  ∀ o x, (S o < CONFIG_MAX_ORDER)%nat → free_block b o x →
    ¬ free_block b o (Z.lxor x (2 ^ Z.of_nat o)).

(** A block in transit: blank, and neither free nor allocated. *)
Definition loose (b : buddy) (o : nat) (x : Z) : Prop :=
  block b o x ∧ pfn_to_page b x = Some blank ∧
  ∀ y, in_block o x y → ¬ is_free b y ∧ ¬ is_alloc b y.

(** The part of the array an operation leaves alone. *)
Definition same_outside (S : Z → Prop) (b b' : buddy) : Prop :=
  min_pfn b' = min_pfn b ∧ max_pfn b' = max_pfn b ∧ mem_map_addr b' = mem_map_addr b ∧
  ∀ y, ¬ S y → pfn_to_page b' y = pfn_to_page b y.

Lemma in_block_head o x : in_block o x x.
Proof. unfold in_block. assert (0 < 2 ^ Z.of_nat o) by lia. lia. Qed.

Lemma BIT_pow o : (o < 64)%nat → BIT (Z.of_nat o) = 2 ^ Z.of_nat o.
Proof.
  intros Ho. unfold BIT. rewrite Z.shiftl_1_l. apply u64_small.
  split; [lia|]. apply Z.pow_lt_mono_r; lia.
Qed.

(** *** Descriptor lookups *)

Lemma pfn_to_page_range b x p : pfn_to_page b x = Some p → min_pfn b ≤ x < max_pfn b.
Proof. unfold pfn_to_page, pfn_valid. case_bools; [lia|done]. Qed.

Lemma pfn_to_page_Some b x :
  wf b → min_pfn b ≤ x < max_pfn b → ∃ p, pfn_to_page b x = Some p ∧ mem_map b !! pfn_index b x = Some p.
Proof.
  intros Hwf Hx. pose proof (wf_range _ Hwf). pose proof (wf_len _ Hwf).
  destruct (lookup_lt_is_Some_2 (mem_map b) (pfn_index b x)) as [p Hp]; [unfold pfn_index; lia|].
  exists p. split; [|done]. unfold pfn_to_page, pfn_valid.
  by replace ((x >=? min_pfn b) && (x <? max_pfn b)) with true by lia.
Qed.

Lemma lookup_set b x q p y :
  pfn_to_page b x = Some q →
  pfn_to_page (set_page b x p) y = if decide (y = x) then Some p else pfn_to_page b y.
Proof.
  intros Hx. pose proof (pfn_to_page_range _ _ _ Hx) as Hr. unfold pfn_to_page in *.
  change (pfn_valid (set_page b x p) y) with (pfn_valid b y).
  change (pfn_index (set_page b x p) y) with (pfn_index b y). simpl.
  destruct (pfn_valid b x) eqn:Hv; [|done]. case_decide as Hy.
  - subst y. rewrite Hv. apply list_lookup_insert_eq. by eapply lookup_lt_Some.
  - destruct (pfn_valid b y) eqn:Hvy; [|done]. unfold pfn_valid in Hv, Hvy. bools.
    apply list_lookup_insert_ne. unfold pfn_index. lia.
Qed.

Lemma lookup_set_free b fl nr y : pfn_to_page (set_free b fl nr) y = pfn_to_page b y.
Proof. done. Qed.

(** *** Heads are not inside other blocks *)

Lemma block_head_unique b o x z p :
  block b o x → in_block o x z → pfn_to_page b z = Some p → p ≠ blank → z = x.
Proof.
  intros Hb Hz Hp Hn. destruct (decide (z = x)); [done|].
  assert (x < z) by (unfold in_block in *; lia).
  rewrite (block_tail _ _ _ Hb z) in Hp by done. congruence.
Qed.

Lemma overlap_head b o x o' z p q y :
  block b o x → block b o' z → pfn_to_page b x = Some p → pfn_to_page b z = Some q →
  p ≠ blank → q ≠ blank → in_block o x y → in_block o' z y → x = z.
Proof.
  intros Hx Hz Hp Hq Hpn Hqn Hy1 Hy2. destruct (decide (x ≤ z)).
  - symmetry. eapply (block_head_unique b o x z q); try done. unfold in_block in *. lia.
  - eapply (block_head_unique b o' z x p); try done. unfold in_block in *. lia.
Qed.

Lemma buddy_page_not_blank o : Page PG_BUDDY 0 o ≠ blank.
Proof. done. Qed.
Lemma alloc_page_not_blank p : Z.testbit (flags p) 3 = true → p ≠ blank.
Proof. intros Hb ->. by rewrite Z.bits_0 in Hb. Qed.

Lemma free_unique b o x o' z y :
  wf b → free_block b o x → free_block b o' z → in_block o x y → in_block o' z y → o = o' ∧ x = z.
Proof.
  intros Hwf Hx Hz Hy1 Hy2. destruct (wf_free _ Hwf _ _ Hx) as [Hbx Hpx].
  destruct (wf_free _ Hwf _ _ Hz) as [Hbz Hpz].
  assert (x = z) as -> by (by eapply (overlap_head b o x o' z)).
  split; [|done]. rewrite Hpx in Hpz. injection Hpz. lia.
Qed.

Lemma alloc_block_spec b o x :
  wf b → alloc_block b o x → block b o x ∧ ∃ p, pfn_to_page b x = Some p ∧ p ≠ blank ∧
    Z.testbit (flags p) 1 = false.
Proof.
  intros Hwf (p&Hp&Hf&Ho). destruct (wf_alloc _ Hwf x p Hp Hf) as (?&?&o'&Ho'&?).
  assert (o' = o) as -> by lia. split; [done|]. exists p. split_and!; [done| |done].
  by apply alloc_page_not_blank.
Qed.

Lemma free_not_alloc b y : wf b → is_free b y → is_alloc b y → False.
Proof.
  intros Hwf (o&x&Hf&Hy) (o'&z&Ha&Hz). destruct (wf_free _ Hwf _ _ Hf) as [Hbx Hpx].
  destruct (alloc_block_spec _ _ _ Hwf Ha) as (Hbz&p&Hpz&Hn&H1).
  assert (x = z) as -> by (by eapply (overlap_head b o x o' z)).
  rewrite Hpx in Hpz. injection Hpz as <-. done.
Qed.

(** *** Moving blocks in and out of the lists *)

Lemma unlink_elem pfn l x : x ∈ unlink pfn l ↔ x ∈ l ∧ x ≠ pfn.
Proof. unfold unlink. rewrite list_elem_of_filter. tauto. Qed.

Lemma unlink_id pfn l : pfn ∉ l → unlink pfn l = l.
Proof.
  induction l as [|x l IH]; intros Hn; [done|]. unfold unlink in *.
  rewrite filter_cons_True by set_solver. f_equal. apply IH. set_solver.
Qed.

Lemma unlink_length pfn l : NoDup l → pfn ∈ l → S (length (unlink pfn l)) = length l.
Proof.
  intros Hnd Hin. induction Hnd as [|x l Hx Hnd IH]; [by apply not_elem_of_nil in Hin|].
  unfold unlink in *. destruct (decide (x = pfn)) as [->|Hne].
  - rewrite filter_cons_False by auto. fold (unlink pfn l). by rewrite unlink_id.
  - rewrite filter_cons_True by done. simpl. f_equal. apply IH. set_solver.
Qed.

Lemma unlink_NoDup pfn l : NoDup l → NoDup (unlink pfn l).
Proof. apply NoDup_filter. Qed.

(** Blocks survive a change of descriptors outside their tails. *)
Lemma block_frame b b' o x :
  block b o x → min_pfn b' = min_pfn b → max_pfn b' = max_pfn b →
  (∀ y, x < y → in_block o x y → pfn_to_page b' y = pfn_to_page b y) → block b' o x.
Proof.
  intros [? ? ? ? Ht] Hmin Hmax Hs. split; rewrite ?Hmin, ?Hmax; try done.
  intros y Hy1 Hy2. rewrite Hs by done. auto.
Qed.

Lemma loose_block_frame b b' o x :
  loose b o x → same_outside (λ y, ¬ in_block o x y) b b' → block b' o x ∧ pfn_to_page b' x = Some blank.
Proof.
  intros (Hb&Hp&_) (Hmin&Hmax&_&Hs). split.
  - apply (block_frame b); [done..|]. intros y _ Hy. apply Hs. auto.
  - rewrite Hs; [done|]. intros Hn. apply Hn, in_block_head.
Qed.

Lemma del_block_spec b o x :
  wf b → free_block b o x →
  ∃ b', del_block b x = Ok b' ∧ wf b' ∧ loose b' o x ∧
    (∀ y, is_free b' y ↔ is_free b y ∧ ¬ in_block o x y) ∧
    (∀ o' z, alloc_block b' o' z ↔ alloc_block b o' z) ∧
    same_outside (λ y, y = x) b b'.
Proof.
  intros Hwf Hf. pose proof Hf as (l&Hl&Hxl). destruct (wf_free _ Hwf _ _ Hf) as [Hbx Hpx].
  destruct (wf_count _ Hwf _ _ Hl) as [Hnd Hnr].
  unfold del_block. rewrite Hpx. simpl. rewrite Nat2Z.id, (arr_get_Ok _ _ _ Hnr). simpl.
  eexists. split; [done|].
  set (b1 := set_free b _ _). set (b' := set_page b1 x _).
  assert (Hlk : ∀ y, pfn_to_page b' y = if decide (y = x) then Some blank else pfn_to_page b y).
  { intros y. unfold b'. by rewrite (lookup_set b1 x (Page PG_BUDDY 0 (Z.of_nat o))). }
  assert (Hfb : ∀ o' z, free_block b' o' z ↔ free_block b o' z ∧ z ≠ x).
  { intros o' z. unfold free_block. simpl. setoid_rewrite list_lookup_fmap. split.
    - intros (l'&Hl'&Hz). apply fmap_Some in Hl' as (l0&Hl0&->). apply unlink_elem in Hz as [??]. eauto.
    - intros ((l0&Hl0&Hz)&Hne). exists (unlink x l0). rewrite Hl0. split; [done|]. by apply unlink_elem. }
  assert (Hab : ∀ o' z, alloc_block b' o' z ↔ alloc_block b o' z).
  { intros o' z. unfold alloc_block. setoid_rewrite Hlk. case_decide as Hz; [|done]. subst z.
    rewrite Hpx. split; intros (p&[= <-]&Hbit&_); done. }
  assert (Hso : same_outside (λ y, y = x) b b').
  { split_and!; [done..|]. intros y Hy. rewrite Hlk. by rewrite decide_False. }
  assert (Hbf : ∀ o' z, block b o' z → (∀ p, pfn_to_page b z = Some p → p ≠ blank) → block b' o' z).
  { intros o' z Hb Hz. apply (block_frame b); [done..|]. intros y Hy1 Hy2. rewrite Hlk.
    case_decide as Heq; [|done]. subst y.
    rewrite (block_tail _ _ _ Hb x) in Hpx by done. done. }
  assert (Hfree : ∀ y, is_free b' y ↔ is_free b y ∧ ¬ in_block o x y).
  { intros y. unfold is_free. setoid_rewrite Hfb. split.
    - intros (o'&z&[Hz Hne]&Hy). split; [eauto|]. intros Hyx.
      destruct (free_unique b o x o' z y); (done || congruence).
    - intros [(o'&z&Hz&Hy) Hn]. exists o', z. split_and!; [done| |done]. intros ->.
      apply Hn. destruct (free_unique b o x o' x x); auto using in_block_head; congruence. }
  split_and!; [|split_and!|done|done|done].
  - split; [apply Hwf| | | | | |].
    + simpl. rewrite length_insert. apply Hwf.
    + simpl. rewrite length_fmap. apply Hwf.
    + intros o' l' Hl'. simpl in Hl'. rewrite list_lookup_fmap in Hl'.
      apply fmap_Some in Hl' as (l0&Hl0&->). destruct (wf_count _ Hwf _ _ Hl0) as [Hnd0 Hnr0].
      split; [by apply unlink_NoDup|]. simpl. destruct (decide (o' = o)) as [->|Hne].
      * rewrite list_lookup_insert_eq by (by eapply lookup_lt_Some). rewrite Hl in Hl0. injection Hl0 as <-.
        pose proof (unlink_length x l Hnd Hxl). f_equal. lia.
      * rewrite list_lookup_insert_ne by done. rewrite unlink_id; [done|]. intros Hx0.
        assert (Hf0 : free_block b o' x) by (by exists l0).
        destruct (free_unique b o x o' x x); auto using in_block_head.
    + intros o' z [Hz Hne]%Hfb. destruct (wf_free _ Hwf _ _ Hz) as [Hbz Hpz]. split.
      * apply Hbf; [done|]. intros p Hp. rewrite Hpz in Hp. injection Hp as <-. done.
      * rewrite Hlk. by rewrite decide_False.
    + intros z p. rewrite Hlk. case_decide as Hz; [intros [= <-]; done|]. intros Hp Hbit.
      destruct (wf_buddy _ Hwf z p Hp Hbit) as (o'&?&?). exists o'. split; [done|]. by apply Hfb.
    + intros z p. rewrite Hlk. case_decide as Hz; [intros [= <-]; done|]. intros Hp Hbit.
      destruct (wf_alloc _ Hwf z p Hp Hbit) as (?&?&o'&?&?). split_and!; [done|lia|lia|].
      exists o'. split; [done|]. apply Hbf; [done|]. intros q Hq. simplify_eq.
      by apply alloc_page_not_blank.
  - apply Hbf; [done|]. intros p Hp. rewrite Hpx in Hp. injection Hp as <-. done.
  - rewrite Hlk. by rewrite decide_True.
  - intros y Hy. split; [intros [_ Hn]%Hfree; auto|]. intros (o'&z&Ha%Hab&Hz).
    apply (free_not_alloc b y Hwf); [by exists o, x|by exists o', z].
Qed.

Lemma add_block_spec b o x :
  wf b → loose b o x →
  ∃ b', add_block b x o = Ok b' ∧ wf b' ∧
    (∀ y, is_free b' y ↔ is_free b y ∨ in_block o x y) ∧
    (∀ o' z, alloc_block b' o' z ↔ alloc_block b o' z) ∧
    same_outside (λ y, y = x) b b'.
Proof.
  intros Hwf (Hbx&Hpx&Hout).
  destruct (lookup_lt_is_Some_2 (free_list b) o) as [l Hl];
    [rewrite (wf_lists _ Hwf); apply (block_order _ _ _ Hbx)|].
  destruct (wf_count _ Hwf _ _ Hl) as [Hnd Hnr].
  unfold add_block. rewrite Hpx. simpl. rewrite (arr_get_Ok _ _ _ Hl). simpl.
  rewrite (arr_get_Ok _ _ _ Hnr). simpl. eexists. split; [done|].
  set (b1 := set_page b x _). set (b' := set_free b1 _ _).
  assert (Hlk : ∀ y, pfn_to_page b' y =
    if decide (y = x) then Some (Page PG_BUDDY 0 (Z.of_nat o)) else pfn_to_page b y).
  { intros y. unfold b', b1. rewrite lookup_set_free. by rewrite (lookup_set b x blank). }
  pose proof (lookup_lt_Some _ _ _ Hl) as Hol.
  assert (Hfb : ∀ o' z, free_block b' o' z ↔ free_block b o' z ∨ (o' = o ∧ z = x)).
  { intros o' z. unfold free_block. simpl. destruct (decide (o' = o)) as [->|Hne].
    - rewrite list_lookup_insert_eq by done. rewrite Hl. split.
      + intros (l'&[= <-]&[->|?]%elem_of_cons); eauto.
      + intros [(l'&[= <-]&?)|[_ ->]]; eexists; (split; [done|]); by constructor.
    - rewrite list_lookup_insert_ne by done. split; [by left|]. by intros [?|[??]]. }
  assert (Hnf : ∀ o', ¬ free_block b o' x).
  { intros o' Hf. destruct (Hout x (in_block_head _ _)) as [Hn _]. apply Hn.
    exists o', x. split; [done|apply in_block_head]. }
  assert (Hab : ∀ o' z, alloc_block b' o' z ↔ alloc_block b o' z).
  { intros o' z. unfold alloc_block. setoid_rewrite Hlk. case_decide as Hz; [|done]. subst z.
    rewrite Hpx. split; intros (p&[= <-]&Hbit&_); done. }
  assert (Hbf : ∀ o' z, block b o' z → ¬ in_block o' z x → block b' o' z).
  { intros o' z Hb Hz. apply (block_frame b); [done..|]. intros y Hy1 Hy2. rewrite Hlk.
    case_decide as Heq; [by subst y|done]. }
  assert (Hso : same_outside (λ y, y = x) b b').
  { split_and!; [done..|]. intros y Hy. rewrite Hlk. by rewrite decide_False. }
  split_and!; [| |done|done].
  - split; [apply Hwf| | | | | |].
    + simpl. rewrite length_insert. apply Hwf.
    + simpl. rewrite length_insert. apply Hwf.
    + intros o' l'. simpl. destruct (decide (o' = o)) as [->|Hne].
      * rewrite list_lookup_insert_eq by done. intros [= <-].
        rewrite list_lookup_insert_eq by (by eapply lookup_lt_Some). split.
        -- constructor; [|done]. intros Hx. apply (Hnf o). by exists l.
        -- f_equal. simpl. lia.
      * rewrite !list_lookup_insert_ne by done. apply Hwf.
    + intros o' z [Hz|[-> ->]]%Hfb.
      * destruct (wf_free _ Hwf _ _ Hz) as [Hbz Hpz]. split.
        -- apply Hbf; [done|]. intros Hx. destruct (Hout x (in_block_head _ _)) as [Hn _].
           apply Hn. by exists o', z.
        -- rewrite Hlk. case_decide; [subst z; by apply Hnf in Hz|done].
      * split; [|rewrite Hlk; by rewrite decide_True].
        apply (block_frame b); [done..|]. intros y Hy _. rewrite Hlk. rewrite decide_False by lia. done.
    + intros z p. rewrite Hlk. case_decide as Hz.
      * intros [= <-] _. exists o. split; [done|]. apply Hfb. auto.
      * intros Hp Hbit. destruct (wf_buddy _ Hwf z p Hp Hbit) as (o'&?&?).
        exists o'. split; [done|]. apply Hfb. by left.
    + intros z p. rewrite Hlk. case_decide as Hz; [intros [= <-]; done|]. intros Hp Hbit.
      destruct (wf_alloc _ Hwf z p Hp Hbit) as (?&?&o'&?&?). split_and!; [done|lia|lia|].
      exists o'. split; [done|]. apply Hbf; [done|]. intros Hx.
      destruct (Hout x (in_block_head _ _)) as [_ Hn]. apply Hn. exists o', z. split; [by exists p|done].
  - intros y. unfold is_free. setoid_rewrite Hfb. split.
    + intros (o'&z&[Hz|[-> ->]]&Hy); [left; eauto|by right].
    + intros [(o'&z&Hz&Hy)|Hy]; [exists o', z; auto|exists o, x; auto].
Qed.

Lemma is_alloc_ext b b' y :
  (∀ o z, alloc_block b' o z ↔ alloc_block b o z) → is_alloc b' y ↔ is_alloc b y.
Proof. intros H. unfold is_alloc. by setoid_rewrite H. Qed.

(** *** The free lists as sets of blocks *)

Lemma add_block_free b b' x o :
  add_block b x o = Ok b' →
  (∀ o' z, free_block b' o' z ↔ free_block b o' z ∨ (o' = o ∧ z = x)) ∧ max_pfn b' = max_pfn b.
Proof.
  unfold add_block. intros H. res_inv. split; [|done]. intros o' z. unfold free_block. simpl.
  match goal with Hl : arr_get (free_list b) o = Ok _ |- _ =>
    apply deref_Ok in Hl as Hlo; pose proof (lookup_lt_Some _ _ _ Hlo) end.
  destruct (decide (o' = o)) as [->|Hne].
  - rewrite list_lookup_insert_eq by done. rewrite Hlo. split.
    + intros (l'&[= <-]&[->|?]%elem_of_cons); eauto.
    + intros [(l'&[= <-]&?)|[_ ->]]; eexists; (split; [done|]); by constructor.
  - rewrite list_lookup_insert_ne by done. split; [by left|]. by intros [?|[??]].
Qed.

Lemma del_block_free b b' x :
  del_block b x = Ok b' → ∀ o z, free_block b' o z ↔ free_block b o z ∧ z ≠ x.
Proof.
  unfold del_block. intros H o z. res_inv. unfold free_block. simpl.
  setoid_rewrite list_lookup_fmap. split.
  - intros (l'&Hl'&Hz). apply fmap_Some in Hl' as (l0&Hl0&->). apply unlink_elem in Hz as [??]. eauto.
  - intros ((l0&Hl0&Hz)&Hne). exists (unlink x l0). rewrite Hl0. split; [done|]. by apply unlink_elem.
Qed.

Lemma coalesced_subset b b' :
  coalesced b → (∀ o z, free_block b' o z → free_block b o z) → coalesced b'.
Proof. intros Hc Hs o x Ho Hx Hy. apply (Hc o x); auto. Qed.

Lemma lxor_pow_self x y o : Z.lxor x (2 ^ Z.of_nat o) = y ↔ Z.lxor y (2 ^ Z.of_nat o) = x.
Proof. split; intros <-; by rewrite Z.lxor_assoc, Z.lxor_nilpotent, Z.lxor_0_r. Qed.

Lemma lxor_pow_ne x o : Z.lxor x (2 ^ Z.of_nat o) ≠ x.
Proof.
  intros H. apply (f_equal (Z.lxor x)) in H.
  rewrite <-Z.lxor_assoc, Z.lxor_nilpotent, Z.lxor_0_l in H. lia.
Qed.

(** Linking a block keeps the lists coalesced when its buddy is not free. *)
Lemma add_block_coalesced b b' x o :
  coalesced b → add_block b x o = Ok b' →
  ((S o < CONFIG_MAX_ORDER)%nat → ¬ free_block b o (Z.lxor x (2 ^ Z.of_nat o))) →
  coalesced b'.
Proof.
  intros Hc Hadd Hbud o' z Ho'. destruct (add_block_free _ _ _ _ Hadd) as [Hf _].
  rewrite !Hf. intros [Hz|[-> ->]] [Hw|[Heq Hw]].
  - by apply (Hc o' z).
  - subst o'. rewrite lxor_pow_self in Hw. subst z. by apply Hbud.
  - by apply Hbud.
  - by apply lxor_pow_ne in Hw.
Qed.

(** A loose block stays loose while other blocks move. *)
Lemma loose_frame b b' o x S :
  loose b o x → same_outside S b b' → (∀ y, S y → ¬ in_block o x y) →
  (∀ y, in_block o x y → is_free b' y → is_free b y) →
  (∀ y, is_alloc b' y ↔ is_alloc b y) → loose b' o x.
Proof.
  intros Hl (Hmin&Hmax&Haddr&Hs) HS Hf Ha.
  destruct (loose_block_frame b b' o x Hl) as [??].
  { split_and!; [done..|]. intros y Hy. apply Hs. intros HSy. apply Hy. by apply HS. }
  destruct Hl as (_&_&Hout). split_and!; [done..|]. intros y Hy.
  destruct (Hout y Hy) as [Hnf Hna]. split; [eauto|]. by rewrite Ha.
Qed.

Lemma pow_S s : 2 ^ Z.of_nat (S s) = 2 * 2 ^ Z.of_nat s.
Proof. rewrite Nat2Z.inj_succ, Z.pow_succ_r by lia. done. Qed.

Lemma loose_halves b s x :
  loose b (S s) x → loose b s x ∧ loose b s (x + 2 ^ Z.of_nat s).
Proof.
  intros ([Ho Hlo Hhi Hal Ht]&Hp&Hout). rewrite pow_S in Hhi, Hal.
  assert (Hpos : 0 < 2 ^ Z.of_nat s) by lia.
  assert (Hin : ∀ y, x ≤ y < x + 2 * 2 ^ Z.of_nat s ↔ in_block (S s) x y)
    by (intros y; unfold in_block; by rewrite pow_S).
  assert (Hal' : x mod 2 ^ Z.of_nat s = 0).
  { apply Z.mod_divide in Hal as [q ->]; [|lia].
    replace (q * (2 * 2 ^ Z.of_nat s)) with ((q * 2) * 2 ^ Z.of_nat s) by lia. apply Z.mod_mul. lia. }
  split.
  - split_and!; [split|done|].
    + lia.
    + lia.
    + lia.
    + done.
    + intros y Hy1 Hy2. apply Ht; [done|]. apply Hin. unfold in_block in Hy2. lia.
    + intros y Hy. apply Hout, Hin. unfold in_block in Hy. lia.
  - split_and!; [split| |].
    + lia.
    + lia.
    + lia.
    + rewrite Z.add_mod, Hal', Z.mod_same, Z.add_0_l by lia. apply Z.mod_0_l. lia.
    + intros y Hy1 Hy2. apply Ht; [lia|]. apply Hin. unfold in_block in Hy2. lia.
    + apply Ht; [lia|]. apply Hin. lia.
    + intros y Hy. apply Hout, Hin. unfold in_block in Hy. lia.
Qed.

Hypothesis MAX_ORDER_le : (1 ≤ CONFIG_MAX_ORDER ≤ 11)%nat.

Lemma split_block_spec b x o s :
  wf b → loose b s x → (o ≤ s)%nat →
  ∃ b', split_block b x o s = Ok b' ∧ wf b' ∧ loose b' o x ∧
    (∀ y, is_free b' y ↔ is_free b y ∨ (in_block s x y ∧ ¬ in_block o x y)) ∧
    (∀ o' z, alloc_block b' o' z ↔ alloc_block b o' z) ∧
    same_outside (in_block s x) b b'.
Proof.
  revert b. induction s as [|s IH]; intros b Hwf Hl Hos; simpl.
  { assert (o = 0%nat) as -> by lia. exists b. split_and!; try done.
    intros y. split; [auto|]. intros [?|[??]]; done. }
  destruct (Nat.ltb_spec o (S s)) as [Hlt|Hge].
  2:{ assert (o = S s) as -> by lia. exists b. split_and!; try done.
      intros y. split; [auto|]. intros [?|[??]]; done. }
  pose proof (block_order _ _ _ (proj1 Hl)) as Hord.
  destruct (loose_halves b s x Hl) as [Hlow Hhigh]. rewrite BIT_pow by lia.
  destruct (add_block_spec b s _ Hwf Hhigh) as (b1&->&Hwf1&Hf1&Ha1&Hs1). simpl.
  assert (Hlow1 : loose b1 s x).
  { eapply (loose_frame b b1); [done|done| | |by intros; apply is_alloc_ext].
    - intros y -> Hy. unfold in_block in Hy. lia.
    - intros y Hy [?|Hin]%Hf1; [done|]. unfold in_block in *. lia. }
  destruct (IH b1 Hwf1 Hlow1) as (b2&->&Hwf2&Hl2&Hf2&Ha2&Hs2); [lia|].
  exists b2. split_and!; try done.
  - intros y. rewrite Hf2, Hf1. unfold in_block. rewrite pow_S.
    assert (2 ^ Z.of_nat o ≤ 2 ^ Z.of_nat s) by (apply Z.pow_le_mono_r; lia).
    split; [intros [[?|?]|[??]]; [auto|right; lia|right; lia]|].
    intros [?|[??]]; [auto|]. destruct (decide (y < x + 2 ^ Z.of_nat s)); [right; lia|left; right; lia].
  - intros o' z. by rewrite Ha2, Ha1.
  - destruct Hs1 as (?&?&?&Hs1), Hs2 as (?&?&?&Hs2). split_and!; try congruence.
    intros y Hy. unfold in_block in Hy. rewrite pow_S in Hy.
    rewrite Hs2 by (unfold in_block; lia). apply Hs1. lia.
Qed.

(** *** Marking a block allocated and back *)

Lemma mark_alloc_spec b o x :
  wf b → loose b o x →
  let b' := set_page b x (Page PG_ALLOCATED 1 (Z.of_nat o)) in
  wf b' ∧ alloc_block b' o x ∧
  (∀ y, is_free b' y ↔ is_free b y) ∧
  (∀ o' z, alloc_block b' o' z ↔ alloc_block b o' z ∨ (o' = o ∧ z = x)) ∧
  same_outside (λ y, y = x) b b'.
Proof.
  intros Hwf (Hbx&Hpx&Hout) b'.
  assert (Hlk : ∀ y, pfn_to_page b' y =
    if decide (y = x) then Some (Page PG_ALLOCATED 1 (Z.of_nat o)) else pfn_to_page b y).
  { intros y. unfold b'. by rewrite (lookup_set b x blank). }
  assert (Hbf : ∀ o' z, block b o' z → ¬ in_block o' z x → block b' o' z).
  { intros o' z Hb Hz. apply (block_frame b); [done..|]. intros y Hy1 Hy2. rewrite Hlk.
    case_decide as Heq; [by subst y|done]. }
  assert (Hbx' : block b' o x).
  { apply (block_frame b); [done..|]. intros y Hy _. rewrite Hlk. by rewrite decide_False by lia. }
  destruct (Hout x (in_block_head _ _)) as [Hnf Hna].
  assert (Hax : alloc_block b' o x).
  { eexists. rewrite Hlk, decide_True by done. done. }
  split_and!; [|done|done| |].
  - split; [apply Hwf| |apply Hwf|apply Hwf| | |].
    + simpl. rewrite length_insert. apply Hwf.
    + intros o' z Hz. destruct (wf_free _ Hwf _ _ Hz) as [Hbz Hpz]. split.
      * apply Hbf; [done|]. intros Hx. apply Hnf. by exists o', z.
      * rewrite Hlk. case_decide; [subst z|done]. destruct Hnf. exists o', x.
        split; [done|apply in_block_head].
    + intros z p. rewrite Hlk. case_decide as Hz; [intros [= <-]; done|]. apply Hwf.
    + intros z p. rewrite Hlk. case_decide as Hz.
      * intros [= <-] _. subst z. split_and!; [done|done|done|]. exists o. done.
      * intros Hp Hbit. destruct (wf_alloc _ Hwf z p Hp Hbit) as (?&?&o'&?&?).
        split_and!; [done|lia|lia|]. exists o'. split; [done|]. apply Hbf; [done|]. intros Hx.
        apply Hna. exists o', z. split; [by exists p|done].
  - intros o' z. unfold alloc_block. setoid_rewrite Hlk. case_decide as Hz.
    + subst z. rewrite Hpx. split.
      * intros (p&[= <-]&_&Ho). right. simpl in Ho. lia.
      * intros [(p&[= <-]&Hbit&_)|[-> _]]; [done|]. by eexists.
    + split; [by left|]. by intros [?|[??]].
  - split_and!; [done..|]. intros y Hy. rewrite Hlk. by rewrite decide_False.
Qed.

Lemma unmark_alloc_spec b o x :
  wf b → alloc_block b o x →
  let b' := set_page b x blank in
  wf b' ∧ loose b' o x ∧
  (∀ y, is_free b' y ↔ is_free b y) ∧
  (∀ o' z, alloc_block b' o' z ↔ alloc_block b o' z ∧ z ≠ x) ∧
  same_outside (λ y, y = x) b b'.
Proof.
  intros Hwf Ha b'. destruct (alloc_block_spec _ _ _ Hwf Ha) as (Hbx&p0&Hp0&Hn0&H10).
  assert (Hlk : ∀ y, pfn_to_page b' y = if decide (y = x) then Some blank else pfn_to_page b y).
  { intros y. unfold b'. by rewrite (lookup_set b x p0). }
  assert (Hbf : ∀ o' z, block b o' z → block b' o' z).
  { intros o' z Hb. apply (block_frame b); [done..|]. intros y Hy1 Hy2. rewrite Hlk.
    case_decide as Heq; [|done]. subst y. rewrite (block_tail _ _ _ Hb x) in Hp0 by done. congruence. }
  assert (Hab : ∀ o' z, alloc_block b' o' z ↔ alloc_block b o' z ∧ z ≠ x).
  { intros o' z. unfold alloc_block. setoid_rewrite Hlk. case_decide as Hz; [|tauto]. subst z.
    split; [|tauto]. intros (p&[= <-]&Hbit&_). done. }
  split_and!; [|split_and!|done|done|].
  - split; [apply Hwf| |apply Hwf|apply Hwf| | |].
    + simpl. rewrite length_insert. apply Hwf.
    + intros o' z Hz. destruct (wf_free _ Hwf _ _ Hz) as [Hbz Hpz]. split; [auto|].
      rewrite Hlk. case_decide; [subst z|done]. rewrite Hp0 in Hpz. injection Hpz as ->. done.
    + intros z p. rewrite Hlk. case_decide as Hz; [intros [= <-]; done|]. apply Hwf.
    + intros z p. rewrite Hlk. case_decide as Hz; [intros [= <-]; done|]. intros Hp Hbit.
      destruct (wf_alloc _ Hwf z p Hp Hbit) as (?&?&o'&?&?). split_and!; [done|lia|lia|]. eauto.
  - auto.
  - rewrite Hlk. by rewrite decide_True.
  - intros y Hy. split.
    + intros Hf. apply (free_not_alloc b y Hwf); [done|]. by exists o, x.
    + intros (o'&z&[Haz Hne]%Hab&Hz). apply Hne.
      destruct (alloc_block_spec _ _ _ Hwf Haz) as (Hbz&pz&Hpz&Hnz&_).
      symmetry. by eapply (overlap_head b o x o' z).
  - split_and!; [done..|]. intros y Hy. rewrite Hlk. by rewrite decide_False.
Qed.

(** ** [alloc_pages] *)

(** What a successful allocation of the block [x] of order [o] does. *)
Definition allocates (b : buddy) (o : nat) (x : Z) (b' : buddy) : Prop :=
  wf b' ∧ block b' o x ∧ pfn_to_page b' x = Some (Page PG_ALLOCATED 1 (Z.of_nat o)) ∧
  (∀ y, in_block o x y → is_free b y) ∧
  (∀ y, is_free b' y ↔ is_free b y ∧ ¬ in_block o x y) ∧
  (∀ o' z, alloc_block b' o' z ↔ alloc_block b o' z ∨ (o' = o ∧ z = x)) ∧
  same_outside (is_free b) b b'.

Lemma alloc_search_spec n b o split :
  wf b → (o ≤ split)%nat → (n + split = CONFIG_MAX_ORDER)%nat →
  (alloc_search n b o split = Ok (None, b) ∧ ∀ o' x, (split ≤ o')%nat → ¬ free_block b o' x) ∨
  (∃ s x b', alloc_search n b o split = Ok (Some x, b') ∧ (split ≤ s)%nat ∧ free_block b s x ∧
     (∀ o' z, (split ≤ o' < s)%nat → ¬ free_block b o' z) ∧ allocates b o x b').
Proof.
  revert split. induction n as [|n IH]; intros split Hwf Hos Hn; simpl.
  { left. split; [done|]. intros o' x Ho' (l&Hl&_). apply lookup_lt_Some in Hl.
    rewrite (wf_lists _ Hwf) in Hl. lia. }
  destruct (lookup_lt_is_Some_2 (free_list b) split) as [l Hl]; [rewrite (wf_lists _ Hwf); lia|].
  rewrite (arr_get_Ok _ _ _ Hl). simpl. destruct l as [|x l].
  { assert (Hempty : ∀ x, ¬ free_block b split x).
    { intros x (l'&Hl'&Hx). rewrite Hl in Hl'. injection Hl' as <-. by apply not_elem_of_nil in Hx. }
    destruct (IH (S split) Hwf) as [[-> Hno]|(s&x&b'&->&?&?&Hlow&?)]; [lia|lia| |].
    - left. split; [done|]. intros o' x Ho'. destruct (decide (o' = split)) as [->|]; [done|].
      apply Hno. lia.
    - right. exists s, x, b'. split_and!; [done|lia|done| |done]. intros o' z Ho'.
      destruct (decide (o' = split)) as [->|]; [done|]. apply Hlow. lia. }
  right. assert (Hf : free_block b split x) by (eexists; split; [done|]; by constructor).
  destruct (del_block_spec b split x Hwf Hf) as (b1&->&Hwf1&Hl1&Hf1&Ha1&Hs1). simpl.
  destruct (split_block_spec b1 x o split Hwf1 Hl1 Hos) as (b2&->&Hwf2&Hl2&Hf2&Ha2&Hs2). simpl.
  rewrite (proj1 (proj2 Hl2)). simpl.
  assert (Hrc : refcount_set CONFIG_DEBUG_REFCOUNT 0 1 = Ok 1).
  { unfold refcount_set, debug_Assert. by destruct CONFIG_DEBUG_REFCOUNT. }
  rewrite Hrc. simpl.
  destruct (mark_alloc_spec b2 o x Hwf2 Hl2) as (Hwf3&Hax&Hf3&Ha3&Hs3).
  change (Z.lor 0 PG_ALLOCATED) with PG_ALLOCATED.
  set (b3 := set_page b2 x (Page PG_ALLOCATED 1 (Z.of_nat o))) in *.
  assert (Hsub : ∀ y, in_block o x y → in_block split x y).
  { intros y. unfold in_block.
    assert (2 ^ Z.of_nat o ≤ 2 ^ Z.of_nat split) by (apply Z.pow_le_mono_r; lia). lia. }
  assert (Hblk : ∀ y, in_block split x y → is_free b y) by (intros y Hy; by exists split, x).
  exists split, x, b3. split_and!; [done|done|done|lia|]. unfold allocates. split_and!.
  - done.
  - apply (alloc_block_spec _ _ _ Hwf3 Hax).
  - unfold b3. rewrite (lookup_set b2 x blank) by apply Hl2. by rewrite decide_True.
  - auto.
  - intros y. rewrite Hf3, Hf2, Hf1. split.
    + intros [[? Hn']|[Hin Hn']]; [|auto]. split; [done|]. auto.
    + intros [Hy Hn']. destruct (decide (x ≤ y < x + 2 ^ Z.of_nat split)); [right; auto|left; auto].
  - intros o' z. by rewrite Ha3, Ha2, Ha1.
  - destruct Hs1 as (?&?&?&Hs1), Hs2 as (?&?&?&Hs2), Hs3 as (?&?&?&Hs3). split_and!; try congruence.
    intros y Hy. assert (y ≠ x) by (intros ->; apply Hy, Hblk, in_block_head).
    rewrite Hs3, Hs2, Hs1 by auto. done.
Qed.

(** The upper half split off has the part kept as its buddy. *)
Lemma lxor_upper x s :
  0 ≤ x → x mod 2 ^ Z.of_nat (S s) = 0 →
  Z.lxor (x + 2 ^ Z.of_nat s) (2 ^ Z.of_nat s) = x.
Proof.
  intros Hx Hal. rewrite pow_S in Hal. assert (0 < 2 ^ Z.of_nat s) by lia.
  apply Z.mod_divide in Hal as [q ->]; [|lia].
  replace (q * (2 * 2 ^ Z.of_nat s) + 2 ^ Z.of_nat s) with ((2 * q + 1) * 2 ^ Z.of_nat s) by lia.
  assert (Hxor : Z.lxor ((2 * q + 1) * 2 ^ Z.of_nat s) (1 * 2 ^ Z.of_nat s) =
    Z.lxor (2 * q + 1) 1 * 2 ^ Z.of_nat s).
  { rewrite <-!Z.shiftl_mul_pow2 by lia. by rewrite Z.shiftl_lxor. }
  rewrite Z.mul_1_l in Hxor. rewrite Hxor.
  assert (Hl : Z.lxor (2 * q + 1) 1 = 2 * q) by (destruct q as [|[]|[]]; lia || done).
  rewrite Hl. lia.
Qed.

Lemma split_block_coalesced b b' x o s :
  coalesced b → 0 ≤ x → x mod 2 ^ Z.of_nat s = 0 → (s < 64)%nat →
  (∀ o', ¬ free_block b o' x) → split_block b x o s = Ok b' → coalesced b'.
Proof.
  revert b. induction s as [|s IH]; intros b Hc Hx Hal Hs Hno; simpl; [by intros [= <-]|].
  destruct (o <? S s)%nat; [|by intros [= <-]]. intros H. res_inv.
  match goal with H1 : add_block _ _ _ = Ok _, H2 : split_block _ _ _ _ = Ok _ |- _ =>
    rename H1 into Hadd; rename H2 into Hrest end.
  rewrite BIT_pow in Hadd by lia. pose proof (lxor_upper x s Hx Hal) as Hup.
  assert (0 < 2 ^ Z.of_nat s) by lia.
  refine (IH _ _ Hx _ _ _ Hrest).
  - eapply add_block_coalesced; [done|exact Hadd|]. intros _. rewrite Hup. apply Hno.
  - rewrite pow_S in Hal. apply Z.mod_divide in Hal as [q ->]; [|lia].
    replace (q * (2 * 2 ^ Z.of_nat s)) with (q * 2 * 2 ^ Z.of_nat s) by lia. apply Z.mod_mul. lia.
  - lia.
  - intros o'. destruct (add_block_free _ _ _ _ Hadd) as [Hf _]. rewrite Hf.
    intros [?%Hno|[_ ?]]; [done|lia].
Qed.

Lemma alloc_search_coalesced n b o split r b' :
  wf b → coalesced b → alloc_search n b o split = Ok (r, b') → coalesced b'.
Proof.
  intros Hwf Hc. revert split. induction n as [|n IH]; intros split; simpl; [by intros [= <- <-]|].
  intros H. res_inv. match goal with Hl : arr_get (free_list b) split = Ok ?l |- _ =>
    apply deref_Ok in Hl as Hlo; destruct l as [|x l] end; [eauto|]. res_inv.
  match goal with H1 : del_block _ _ = Ok _ |- _ => rename H1 into Hdel end.
  match goal with H1 : split_block _ _ _ _ = Ok _ |- _ => rename H1 into Hsplit end.
  pose proof (del_block_free _ _ _ Hdel) as Hdf.
  destruct (wf_free _ Hwf split x) as [Hb _]; [eexists; split; [done|by left]|].
  pose proof (block_order _ _ _ Hb). pose proof (block_lo _ _ _ Hb). pose proof (wf_range _ Hwf).
  eapply (split_block_coalesced _ _ _ _ _) in Hsplit; [exact Hsplit| |lia|apply Hb|lia|].
  - eapply coalesced_subset; [done|]. intros o' z. rewrite Hdf. tauto.
  - intros o'. rewrite Hdf. tauto.
Qed.

Lemma alloc_pages_correct b ord :
  wf b →
  ∃ r b', alloc_pages b ord = Ok (r, b') ∧
    match r with
    | None => b' = b ∧
        (ord < 0 ∨ Z.of_nat CONFIG_MAX_ORDER ≤ ord ∨
         ∀ o x, free_block b o x → Z.of_nat o < ord)
    | Some x => 0 ≤ ord < Z.of_nat CONFIG_MAX_ORDER ∧
        allocates b (Z.to_nat ord) x b' ∧
        ∃ s, free_block b s x ∧ ord ≤ Z.of_nat s ∧
          ∀ o z, free_block b o z → ord ≤ Z.of_nat o → (s ≤ o)%nat
    end.
Proof.
  intros Hwf. unfold alloc_pages. rewrite Z.geb_leb.
  destruct (Z.ltb_spec ord 0); simpl; [exists None, b; auto|].
  destruct (Z.leb_spec (Z.of_nat CONFIG_MAX_ORDER) ord); [exists None, b; auto|].
  destruct (alloc_search_spec (CONFIG_MAX_ORDER - Z.to_nat ord) b (Z.to_nat ord) (Z.to_nat ord))
    as [[-> Hno]|(s&x&b'&->&?&?&Hlow&?)]; [done|lia|lia| |].
  - exists None, b. split_and!; [done..|]. right; right. intros o x Hf.
    destruct (decide (Z.of_nat o < ord)); [done|]. destruct (Hno o x); [lia|done].
  - exists (Some x), b'. split_and!; [done|lia|lia|done|]. exists s. split_and!; [done|lia|].
    intros o z Hz Ho. destruct (decide (s ≤ o)%nat); [done|]. destruct (Hlow o z); [lia|done].
Qed.

(** C17: [alloc_pages] from a consistent allocator never faults and keeps it
    consistent.  When it returns a block, the order is valid, the block is
    aligned, lies inside RAM, was entirely free, and starts a free block of the
    smallest sufficient order; exactly its pages stop being free and exactly
    this block becomes allocated with one reference, while every descriptor
    outside the free memory is untouched.  It returns NULL, changing nothing,
    only for an order out of range or when no free block is large enough.
    Splitting leaves no two free buddies behind. *)
Theorem alloc_pages_spec b ord :
  wf b →
  ∃ r b', alloc_pages b ord = Ok (r, b') ∧
    match r with
    | None => b' = b ∧
        (ord < 0 ∨ Z.of_nat CONFIG_MAX_ORDER ≤ ord ∨
         ∀ o x, free_block b o x → Z.of_nat o < ord)
    | Some x => 0 ≤ ord < Z.of_nat CONFIG_MAX_ORDER ∧
        allocates b (Z.to_nat ord) x b' ∧
        ∃ s, free_block b s x ∧ ord ≤ Z.of_nat s ∧
          ∀ o z, free_block b o z → ord ≤ Z.of_nat o → (s ≤ o)%nat
    end ∧ (coalesced b → coalesced b').
Proof.
  intros Hwf. destruct (alloc_pages_correct b ord Hwf) as (r&b'&Heq&Hr).
  exists r, b'. split_and!; [done..|]. intros Hc. revert Heq. unfold alloc_pages.
  destruct (_ || _); [intros [= ? ?]; by subst|]. by apply alloc_search_coalesced.
Qed.

(** ** [free_pages] *)

(** The buddy of an aligned block, and the pair's common start. *)
Lemma lxor_buddy x o :
  0 ≤ x → x mod 2 ^ Z.of_nat o = 0 →
  let y := Z.lxor x (2 ^ Z.of_nat o) in
  (y = x + 2 ^ Z.of_nat o ∨ y = x - 2 ^ Z.of_nat o) ∧
  Z.min x y mod 2 ^ Z.of_nat (S o) = 0 ∧ 0 ≤ y.
Proof.
  intros Hx Hal. simpl. assert (Hpos : 0 < 2 ^ Z.of_nat o) by lia.
  apply Z.mod_divide in Hal as [q ->]; [|lia].
  assert (Hxor : Z.lxor (q * 2 ^ Z.of_nat o) (2 ^ Z.of_nat o) = Z.lxor q 1 * 2 ^ Z.of_nat o).
  { rewrite <-(Z.mul_1_l (2 ^ Z.of_nat o)) at 2.
    rewrite <-!Z.shiftl_mul_pow2 by lia. by rewrite Z.shiftl_lxor. }
  rewrite Hxor, pow_S. assert (Hq : 0 ≤ q) by nia.
  destruct (Z.Even_or_Odd q) as [[k ->]|[k ->]].
  - assert (Hl : Z.lxor (2 * k) 1 = 2 * k + 1) by (destruct k as [|[]|[]]; done).
    rewrite Hl. rewrite Z.min_l by nia. split_and!; [left; lia| |nia].
    replace (2 * k * 2 ^ Z.of_nat o) with (k * (2 * 2 ^ Z.of_nat o)) by lia. apply Z.mod_mul. lia.
  - assert (Hl : Z.lxor (2 * k + 1) 1 = 2 * k) by (destruct k as [|[]|[]]; done).
    rewrite Hl. rewrite Z.min_r by nia. split_and!; [right; lia| |nia].
    replace (2 * k * 2 ^ Z.of_nat o) with (k * (2 * 2 ^ Z.of_nat o)) by lia. apply Z.mod_mul. lia.
Qed.

Lemma loose_join b o x y :
  loose b o x → loose b o y → (S o < CONFIG_MAX_ORDER)%nat →
  (y = x + 2 ^ Z.of_nat o ∨ y = x - 2 ^ Z.of_nat o) →
  Z.min x y mod 2 ^ Z.of_nat (S o) = 0 →
  loose b (S o) (Z.min x y) ∧
  ∀ z, in_block (S o) (Z.min x y) z ↔ in_block o x z ∨ in_block o y z.
Proof.
  intros (Hbx&Hpx&Hox) (Hby&Hpy&Hoy) Ho Hxy Hal.
  assert (Hpos : 0 < 2 ^ Z.of_nat o) by lia.
  assert (Hin : ∀ z, in_block (S o) (Z.min x y) z ↔ in_block o x z ∨ in_block o y z).
  { intros z. unfold in_block. rewrite pow_S. destruct Hxy; lia. }
  split; [|done]. pose proof (block_lo _ _ _ Hbx). pose proof (block_lo _ _ _ Hby).
  pose proof (block_hi _ _ _ Hbx). pose proof (block_hi _ _ _ Hby).
  assert (Hblank : ∀ z, in_block (S o) (Z.min x y) z → pfn_to_page b z = Some blank).
  { intros z [Hz|Hz]%Hin.
    - destruct (decide (z = x)) as [->|]; [done|].
      apply (block_tail _ _ _ Hbx); [unfold in_block in *; lia|done].
    - destruct (decide (z = y)) as [->|]; [done|].
      apply (block_tail _ _ _ Hby); [unfold in_block in *; lia|done]. }
  split_and!; [split| |].
  - done.
  - lia.
  - rewrite pow_S. destruct Hxy; lia.
  - done.
  - auto.
  - apply Hblank, in_block_head.
  - intros z [Hz|Hz]%Hin; auto.
Qed.

Lemma merge_block_spec fuel b x o :
  wf b → loose b o x → (CONFIG_MAX_ORDER ≤ fuel + o)%nat →
  ∃ b', merge_block fuel b x o = Ok b' ∧ wf b' ∧
    (∀ y, is_free b' y ↔ is_free b y ∨ in_block o x y) ∧
    (∀ o' z, alloc_block b' o' z ↔ alloc_block b o' z) ∧
    same_outside (λ y, is_free b y ∨ in_block o x y) b b'.
Proof.
  revert b x o. induction fuel as [|fuel IH]; intros b x o Hwf Hl Hfuel.
  { pose proof (block_order _ _ _ (proj1 Hl)). lia. }
  assert (Hadd : ∃ b', add_block b x o = Ok b' ∧ wf b' ∧
    (∀ y, is_free b' y ↔ is_free b y ∨ in_block o x y) ∧
    (∀ o' z, alloc_block b' o' z ↔ alloc_block b o' z) ∧
    same_outside (λ y, is_free b y ∨ in_block o x y) b b').
  { destruct (add_block_spec b o x Hwf Hl) as (b'&?&?&?&?&(?&?&?&Hs)). exists b'.
    split_and!; try done. split_and!; [done..|].
    intros y Hy. apply Hs. intros ->. apply Hy. right. apply in_block_head. }
  simpl. pose proof (block_order _ _ _ (proj1 Hl)) as Hord.
  destruct (Nat.ltb_spec (o + 1) CONFIG_MAX_ORDER) as [Hlt|]; [|done].
  rewrite BIT_pow by lia. pose proof (wf_range _ Hwf). pose proof (block_lo _ _ _ (proj1 Hl)).
  destruct (lxor_buddy x o) as (Hbud&Hmin&_); [lia|apply (proj1 Hl)|].
  set (y := Z.lxor x (2 ^ Z.of_nat o)) in *.
  destruct (pfn_to_page b y) as [p|] eqn:Hp; [|done].
  unfold PG_BUDDY. rewrite truth_land_BIT by lia.
  destruct (Z.testbit (flags p) 1) eqn:Hbit; [|done]. simpl.
  destruct (Z.eqb_spec (order p) (Z.of_nat o)) as [Heq|]; [|done]. simpl.
  destruct (wf_buddy _ Hwf y p Hp Hbit) as (o'&Ho'&Hfy). assert (o' = o) as -> by lia.
  destruct (del_block_spec b o y Hwf Hfy) as (b1&->&Hwf1&Hly&Hf1&Ha1&Hs1). simpl.
  assert (Hpos : 0 < 2 ^ Z.of_nat o) by lia.
  assert (Hlx : loose b1 o x).
  { eapply (loose_frame b b1); [done|done| | |by intros; apply is_alloc_ext].
    - intros z -> Hz. unfold in_block in Hz. lia.
    - intros z _ [? _]%Hf1. done. }
  destruct (loose_join b1 o x y) as [Hlj Hin]; [done|done|lia|done|done|].
  rewrite MIN_spec. replace (o + 1)%nat with (S o) by lia.
  destruct (IH b1 (Z.min x y) (S o)) as (b2&->&Hwf2&Hf2&Ha2&Hs2); [done|done|lia|].
  assert (Hyf : ∀ z, in_block o y z → is_free b z) by (intros z Hz; by exists o, y).
  exists b2. split_and!; try done.
  - intros z. rewrite Hf2, Hf1, Hin. split; [naive_solver|]. intros [Hz|Hz]; [|auto].
    destruct (decide (y ≤ z < y + 2 ^ Z.of_nat o)); [auto|left; auto].
  - intros o' z. by rewrite Ha2, Ha1.
  - destruct Hs1 as (?&?&?&Hs1), Hs2 as (?&?&?&Hs2). split_and!; try congruence.
    intros z Hz. rewrite Hs2; [apply Hs1|].
    + intros ->. apply Hz. left. apply Hyf, in_block_head.
    + rewrite Hf1, Hin. intros [[? _]|[?|?]]; apply Hz; auto.
Qed.

(** [merge_block] joins until no free buddy is left. *)
Lemma merge_block_coalesced fuel b b' x o :
  wf b → coalesced b → merge_block fuel b x o = Ok b' → coalesced b'.
Proof.
  revert b x o. induction fuel as [|fuel IH]; intros b x o Hwf Hc; [done|]. simpl.
  destruct (Nat.ltb_spec (o + 1) CONFIG_MAX_ORDER) as [Hlt|].
  2:{ intros Hadd. eapply add_block_coalesced; [done|done|lia]. }
  rewrite BIT_pow by lia. set (y := Z.lxor x _).
  assert (Hadd : ¬ free_block b o y → add_block b x o = Ok b' → coalesced b').
  { intros Hn Hadd. eapply add_block_coalesced; [done|done|]. intros _. done. }
  destruct (pfn_to_page b y) as [p|] eqn:Hp.
  2:{ apply Hadd. intros [_ Hy]%(wf_free _ Hwf). congruence. }
  destruct (negb (truth (Z.land (flags p) PG_BUDDY)) || negb (order p =? Z.of_nat o)) eqn:Ht.
  - apply Hadd. intros [_ Hy]%(wf_free _ Hwf). rewrite Hp in Hy. injection Hy as ->.
    cbn [flags order] in Ht. rewrite Z.eqb_refl in Ht. done.
  - unfold PG_BUDDY in Ht. rewrite truth_land_BIT in Ht by lia. apply orb_false_iff in Ht as [Hbit Heq].
    bools. destruct (wf_buddy _ Hwf y p Hp) as (o'&Ho'&Hfy); [done|]. assert (o' = o) as -> by lia.
    destruct (del_block_spec b o y Hwf Hfy) as (b1&Hdel&Hwf1&_). rewrite Hdel. simpl.
    apply IH; [done|].
    eapply coalesced_subset; [done|]. intros o' z. rewrite (del_block_free _ _ _ Hdel). tauto.
Qed.

Lemma blank_tail_total n b y :
  wf b → min_pfn b ≤ y → y + Z.of_nat n ≤ max_pfn b →
  ∃ t, blank_tail n b y = Ok t ∧
    ((∀ z, y ≤ z < y + Z.of_nat n → pfn_to_page b z = Some blank) → t = true).
Proof.
  intros Hwf. revert y. induction n as [|n IH]; intros y Hlo Hhi; simpl; [eauto|].
  destruct (pfn_to_page_Some b y Hwf) as (p&Hp&Hm); [lia|]. rewrite Hm. simpl.
  destruct (IH (y + 1)) as (t&Ht&Htt); [lia|lia|].
  destruct (truth (flags p) || negb (order p =? PAGE_ORDER_NONE) ||
            truth (refcount_read (refcount p))) eqn:Hc.
  - exists false. split; [done|]. intros Hall. rewrite (Hall y) in Hp by lia.
    injection Hp as <-. done.
  - exists t. split; [done|]. intros Hall. apply Htt. intros z Hz. apply Hall. lia.
Qed.

(** [addr] is the descriptor of an allocated block of order [ord] that no
    other subsystem has marked. *)
Definition freeable (b : buddy) (addr ord x : Z) (p : page) : Prop :=
  addr = page_addr b x ∧ pfn_to_page b x = Some p ∧ flags p = PG_ALLOCATED ∧ order p = ord.

Lemma freeable_block b addr ord x p :
  wf b → freeable b addr ord x p →
  0 ≤ ord ∧ alloc_block b (Z.to_nat ord) x ∧ block b (Z.to_nat ord) x ∧ 0 < refcount p ≤ REFCOUNT_MAX.
Proof.
  intros Hwf (_&Hp&Hf&Ho). assert (Hbit : Z.testbit (flags p) 3 = true) by by rewrite Hf.
  destruct (wf_alloc _ Hwf x p Hp Hbit) as (_&Hr&o&Ho'&Hb).
  assert (Z.to_nat ord = o) as -> by lia. split_and!; [lia| |done|lia|lia]. by exists p.
Qed.

Lemma allocated_block_spec b addr ord :
  wf b →
  (∃ x p, freeable b addr ord x p ∧ allocated_block b addr ord = Ok true ∧ page_to_pfn b addr = x) ∨
  (allocated_block b addr ord = Ok false ∧ ¬ ∃ x p, freeable b addr ord x p).
Proof.
  intros Hwf. pose proof (wf_range _ Hwf) as Hrange.
  assert (Hfind : ∀ x p, freeable b addr ord x p →
    page_to_pfn b addr = x ∧ 0 ≤ ord < Z.of_nat CONFIG_MAX_ORDER ∧
    mem_map_addr b ≤ addr < mem_map_addr b + (max_pfn b - min_pfn b) * SIZEOF_PAGE ∧
    (addr - mem_map_addr b) mod SIZEOF_PAGE = 0).
  { intros x p Hfr. destruct (freeable_block _ _ _ _ _ Hwf Hfr) as (?&_&Hb&_).
    destruct Hfr as (->&Hp&_&_). apply pfn_to_page_range in Hp.
    pose proof (block_order _ _ _ Hb). unfold page_to_pfn, page_addr, SIZEOF_PAGE in *.
    replace (mem_map_addr b + (x - min_pfn b) * 56 - mem_map_addr b) with ((x - min_pfn b) * 56) by lia.
    rewrite Z.div_mul, Z.mod_mul by lia. lia. }
  unfold allocated_block. rewrite !Z.geb_leb.
  destruct ((ord <? 0) || (Z.of_nat CONFIG_MAX_ORDER <=? ord)) eqn:Ho.
  { right. split; [done|]. intros (x&p&Hfr). apply Hfind in Hfr. lia. }
  destruct ((addr <? mem_map_addr b) ||
    (mem_map_addr b + (max_pfn b - min_pfn b) * SIZEOF_PAGE <=? addr) ||
    truth ((addr - mem_map_addr b) mod SIZEOF_PAGE)) eqn:Hadr.
  { right. split; [done|]. intros (x&p&Hfr). apply Hfind in Hfr as (_&_&Ha&Hm).
    rewrite Hm in Hadr. unfold truth in Hadr. simpl in Hadr. lia. }
  apply orb_false_iff in Hadr as [Hadr Hmod]. unfold truth in Hmod. bools.
  set (x := page_to_pfn b addr).
  assert (Hx : addr = page_addr b x ∧ min_pfn b ≤ x < max_pfn b).
  { unfold x, page_addr, page_to_pfn, SIZEOF_PAGE in *.
    pose proof (Z.div_mod (addr - mem_map_addr b) 56). lia. }
  destruct Hx as [Hxa Hxr]. destruct (pfn_to_page_Some b x Hwf Hxr) as (p&Hp&Hm).
  rewrite Hm. simpl. rewrite <-(Z2Nat.id ord), BIT_pow by lia. rewrite Z2Nat.id by lia.
  rewrite land_pow2_mask by lia.
  assert (Hfr : flags p = PG_ALLOCATED → order p = ord → freeable b addr ord x p) by done.
  assert (Hrej : ∀ x' p', freeable b addr ord x' p' → x' = x ∧ p' = p).
  { intros x' p' Hf'. pose proof (Hfind _ _ Hf') as (Hx'&_). destruct Hf' as (_&Hp'&_).
    fold x in Hx'. subst x'. split; [done|congruence]. }
  destruct (truth (x mod 2 ^ ord) || (2 ^ ord >? max_pfn b - x) || negb (flags p =? PG_ALLOCATED) ||
    negb (order p =? ord) || negb (truth (refcount_read (refcount p)))) eqn:Hc.
  - right. split; [done|]. intros (x'&p'&Hf'). pose proof (Hrej _ _ Hf') as [-> ->].
    destruct (freeable_block _ _ _ _ _ Hwf Hf') as (Hord&_&Hb&Hr). destruct Hf' as (_&_&Hfl&Hor).
    pose proof (block_aligned _ _ _ Hb) as Hal. pose proof (block_hi _ _ _ Hb) as Hhi.
    rewrite Z2Nat.id in Hal, Hhi by lia. rewrite Hal, Hfl, Hor in Hc.
    unfold truth, refcount_read in Hc. rewrite u32_small, !Z.eqb_refl in Hc
      by (unfold in_u32, REFCOUNT_MAX, INT32_MAX in *; lia).
    replace (refcount p =? 0) with false in Hc by lia. simpl in Hc. rewrite !orb_false_r in Hc. lia.
  - repeat match goal with H : _ || _ = false |- _ => apply orb_false_iff in H as [??] end. bools.
    destruct (blank_tail_total (Z.to_nat (2 ^ ord - 1)) b (x + 1)) as (t&->&Ht); [done|lia|lia|].
    left. exists x, p. split_and!; [by apply Hfr| |done]. f_equal. apply Ht. intros z Hz.
    destruct (freeable_block b addr ord x p Hwf) as (?&_&Hb&_); [by apply Hfr|].
    apply (block_tail _ _ _ Hb); [lia|]. unfold in_block. rewrite Z2Nat.id by lia. lia.
Qed.

(** What a call of [free_pages] on a freeable block does. *)
Definition releases (b : buddy) (x : Z) (p : page) (b' : buddy) : Prop :=
  (1 < refcount p ∧ b' = set_page b x (Page (flags p) (refcount p - 1) (order p))) ∨
  (refcount p = 1 ∧
   (∀ y, is_free b' y ↔ is_free b y ∨ in_block (Z.to_nat (order p)) x y) ∧
   (∀ o z, alloc_block b' o z ↔ alloc_block b o z ∧ z ≠ x) ∧
   same_outside (λ y, is_free b y ∨ in_block (Z.to_nat (order p)) x y) b b').

Lemma drop_ref_wf b x p :
  wf b → pfn_to_page b x = Some p → Z.testbit (flags p) 3 = true → 1 < refcount p →
  wf (set_page b x (Page (flags p) (refcount p - 1) (order p))).
Proof.
  intros Hwf Hp Hbit Hr. set (b' := set_page _ _ _).
  assert (Hlk : ∀ y, pfn_to_page b' y = if decide (y = x)
    then Some (Page (flags p) (refcount p - 1) (order p)) else pfn_to_page b y).
  { intros y. unfold b'. by rewrite (lookup_set b x p). }
  assert (Hbf : ∀ o' z, block b o' z → block b' o' z).
  { intros o' z Hb. apply (block_frame b); [done..|]. intros y Hy1 Hy2. rewrite Hlk.
    case_decide as Heq; [|done]. subst y. rewrite (block_tail _ _ _ Hb x) in Hp by done.
    injection Hp as <-. done. }
  destruct (wf_alloc _ Hwf x p Hp Hbit) as (H1&?&o&Ho&Hb).
  split; [apply Hwf| |apply Hwf|apply Hwf| | |].
  - simpl. rewrite length_insert. apply Hwf.
  - intros o' z Hz. destruct (wf_free _ Hwf _ _ Hz) as [Hbz Hpz]. split; [auto|].
    rewrite Hlk. case_decide; [subst z|done]. rewrite Hp in Hpz. injection Hpz as ->. done.
  - intros z q. rewrite Hlk. case_decide as Hz; [|apply Hwf]. intros [= <-] Hb1. cbn [flags] in Hb1. congruence.
  - intros z q. rewrite Hlk. case_decide as Hz.
    + intros [= <-] _. subst z. simpl. split_and!; [done|lia|lia|]. eauto.
    + intros Hq Hqb. destruct (wf_alloc _ Hwf z q Hq Hqb) as (?&?&o'&?&?). split_and!; eauto; lia.
Qed.

(** C7: [free_pages] accepts exactly the original head and order of an
    allocated block: then it drops one reference, and when that was the last
    one the block's pages - and no others - become free again, joined with free
    buddies as far as possible (when no two free blocks were buddies before,
    none are after), while all other allocated blocks and every descriptor outside
    free memory and the block are unchanged.  Any other address or order
    (NULL, an interior page, a wrong order, an address inside a descriptor, a
    block marked by another subsystem, an already free block) leaves the
    allocator state unchanged.  In every case it returns and the allocator stays
    consistent. *)
Theorem free_pages_spec b addr ord :
  wf b → 0 < mem_map_addr b →
  ∃ b', free_pages b addr ord = Ok b' ∧ wf b' ∧ (coalesced b → coalesced b') ∧
    ((∃ x p, freeable b addr ord x p ∧ releases b x p b') ∨
     (b' = b ∧ ¬ ∃ x p, freeable b addr ord x p)).
Proof.
  intros Hwf Hbase. unfold free_pages, truth. rewrite negb_involutive.
  destruct (Z.eqb_spec addr 0) as [->|Hnz].
  { exists b. split_and!; [done..|]. right. split; [done|]. intros (x&p&Ha&Hp&_).
    apply pfn_to_page_range in Hp. unfold page_addr, SIZEOF_PAGE in Ha. lia. }
  destruct (allocated_block_spec b addr ord Hwf) as [(x&p&Hfr&->&Hpfn)|[-> Hno]]; simpl.
  2:{ exists b. split_and!; [done..|]. by right. }
  rewrite Hpfn. pose proof Hfr as (_&Hp&Hfl&Hor).
  destruct (freeable_block _ _ _ _ _ Hwf Hfr) as (?&Hab&Hb&Hr).
  destruct (pfn_to_page_Some b x Hwf) as (p'&Hp'&Hm); [by eapply pfn_to_page_range|].
  rewrite Hp in Hp'. injection Hp' as <-. rewrite Hm. simpl.
  rewrite dec_and_test_live by lia. simpl.
  destruct (decide (refcount p = 1)) as [H1|H1].
  - rewrite bool_decide_eq_true_2 by done. rewrite Hfl, H1.
    change (Z.land PG_ALLOCATED (not64 PG_ALLOCATED)) with 0.
    assert (Hset : set_page (set_page b x (Page PG_ALLOCATED (1 - 1) (order p))) x
      (Page 0 (1 - 1) PAGE_ORDER_NONE) = set_page b x blank).
    { unfold set_page, blank. simpl. f_equal. apply list_insert_insert_eq. }
    rewrite Hset.
    destruct (unmark_alloc_spec b (Z.to_nat ord) x Hwf Hab) as (Hwf1&Hl1&Hf1&Ha1&Hs1).
    destruct (merge_block_spec CONFIG_MAX_ORDER (set_page b x blank) x (Z.to_nat ord))
      as (b2&Hmerge&Hwf2&Hf2&Ha2&Hs2); [done|done|lia|]. rewrite Hmerge.
    exists b2. split_and!; [done|done| |].
    { intros Hc. eapply merge_block_coalesced; [exact Hwf1| |exact Hmerge].
      eapply coalesced_subset; [exact Hc|done]. }
    left. exists x, p. split; [done|]. right. rewrite Hor.
    split_and!; [done| | |].
    + intros y. by rewrite Hf2, Hf1.
    + intros o z. by rewrite Ha2, Ha1.
    + destruct Hs1 as (?&?&?&Hs1), Hs2 as (?&?&?&Hs2). split_and!; try congruence.
      intros y Hy. rewrite Hs2; [apply Hs1|].
      * intros ->. apply Hy. right. apply in_block_head.
      * by rewrite Hf1.
  - rewrite bool_decide_eq_false_2 by done.
    exists (set_page b x (Page (flags p) (refcount p - 1) (order p))). split; [done|]. split_and!.
    + apply drop_ref_wf; [done..| |lia]. by rewrite Hfl.
    + intros Hc. by eapply coalesced_subset.
    + left. exists x, p. split; [done|]. left. split; [lia|done].
Qed.

(** ** Boot: [page_init] and [buddy_init] *)

(** The descriptor [page_init] stores. *)
Definition boot_page : page := Page PG_RESERVED 0 PAGE_ORDER_NONE.

Lemma unreserve_wf b x : wf b → pfn_to_page b x = Some boot_page → wf (set_page b x blank).
Proof.
  intros Hwf Hp. set (b' := set_page _ _ _).
  assert (Hlk : ∀ y, pfn_to_page b' y = if decide (y = x) then Some blank else pfn_to_page b y).
  { intros y. unfold b'. by rewrite (lookup_set b x boot_page). }
  assert (Hbf : ∀ o' z, block b o' z → block b' o' z).
  { intros o' z Hb. apply (block_frame b); [done..|]. intros y Hy1 Hy2. rewrite Hlk.
    case_decide as Heq; [|done]. subst y. by rewrite (block_tail _ _ _ Hb x) by done. }
  split; [apply Hwf| |apply Hwf|apply Hwf| | |].
  - simpl. rewrite length_insert. apply Hwf.
  - intros o' z Hz. destruct (wf_free _ Hwf _ _ Hz) as [Hbz Hpz]. split; [auto|].
    rewrite Hlk. case_decide; [subst z|done]. rewrite Hp in Hpz. discriminate.
  - intros z q. rewrite Hlk. case_decide as Hz; [|apply Hwf]. by intros [= <-].
  - intros z q. rewrite Hlk. case_decide as Hz; [by intros [= <-]|].
    intros Hq Hqb. destruct (wf_alloc _ Hwf z q Hq Hqb) as (?&?&o'&?&?). split_and!; eauto; lia.
Qed.

Lemma release_unreserve_spec n b x :
  wf b → (∀ y, x ≤ y < x + Z.of_nat n → pfn_to_page b y = Some boot_page) →
  ∃ b', release_unreserve n b x = Ok b' ∧ wf b' ∧
    free_list b' = free_list b ∧ managed_pages b' = managed_pages b ∧
    (∀ y, x ≤ y < x + Z.of_nat n → pfn_to_page b' y = Some blank) ∧
    same_outside (λ y, x ≤ y < x + Z.of_nat n) b b'.
Proof.
  revert b x. induction n as [|n IH]; intros b x Hwf Hpg; simpl.
  { exists b. split_and!; [done..| |]; [lia|]. by split_and!. }
  assert (Hx : pfn_to_page b x = Some boot_page) by (apply Hpg; lia).
  rewrite Hx. simpl. change (Z.land PG_RESERVED (not64 PG_RESERVED)) with 0. fold blank.
  destruct (IH (set_page b x blank) (x + 1)) as (b'&->&Hwf'&Hfl&Hm&Hb&Hmin&Hmax&Ha&Hs).
  { by apply unreserve_wf. }
  { intros y Hy. rewrite (lookup_set b x boot_page) by done. rewrite decide_False by lia. apply Hpg. lia. }
  exists b'. split_and!; [done..| |]; [|split_and!; [done..|]].
  - intros y Hy. destruct (decide (y = x)) as [->|]; [|apply Hb; lia].
    rewrite Hs by lia. rewrite (lookup_set b x boot_page) by done. by rewrite decide_True.
  - intros y Hy. rewrite Hs by lia. rewrite (lookup_set b x boot_page) by done.
    by rewrite decide_False by lia.
Qed.

(** The order chosen for a block is the largest aligned one that fits. *)
Lemma release_order_spec o s e :
  (o ≤ 11)%nat → s < e →
  (release_order o s e ≤ o)%nat ∧ s mod 2 ^ Z.of_nat (release_order o s e) = 0 ∧
  s + 2 ^ Z.of_nat (release_order o s e) ≤ e.
Proof.
  intros Ho Hse. induction o as [|o IH]; cbn [release_order].
  - change (BIT (Z.of_nat 0)) with 1. change (1 - 1) with 0. rewrite Z.land_0_r.
    replace (1 >? e - s) with false by lia. change (truth 0 || false) with false. change (2 ^ Z.of_nat 0) with 1.
    rewrite Z.mod_1_r. lia.
  - rewrite BIT_pow, land_pow2_mask by lia. unfold truth.
    destruct (Z.eqb_spec (s mod 2 ^ Z.of_nat (S o)) 0) as [Hm|]; cbn [negb orb].
    + rewrite Z.gtb_ltb. destruct (Z.ltb_spec (e - s) (2 ^ Z.of_nat (S o))).
      * destruct IH as (?&?&?); [lia|]. split_and!; [lia|done|done].
      * split_and!; [lia|done|lia].
    + destruct IH as (?&?&?); [lia|]. split_and!; [lia|done|done].
Qed.

Lemma release_blocks_spec fuel b s e :
  wf b → min_pfn b ≤ s → e ≤ max_pfn b → e - s ≤ Z.of_nat fuel →
  (∀ y, s ≤ y < e → pfn_to_page b y = Some blank ∧ ¬ is_free b y ∧ ¬ is_alloc b y) →
  ∃ b', release_blocks fuel b s e = Ok b' ∧ wf b' ∧
    (∀ y, is_free b' y ↔ is_free b y ∨ s ≤ y < e) ∧
    (∀ o z, alloc_block b' o z ↔ alloc_block b o z) ∧
    managed_pages b' = managed_pages b ∧
    same_outside (λ y, s ≤ y < e) b b'.
Proof.
  revert b s. induction fuel as [|fuel IH]; intros b s Hwf Hlo Hhi Hf Hpg; cbn [release_blocks];
    destruct (Z.ltb_spec s e) as [Hse|]; [lia| | |];
    try (exists b; split_and!; [done..| | | |]; [|done|done|by split_and!]; intros y; split; [by left|];
         intros [?|?]; [done|lia]).
  destruct (release_order_spec (CONFIG_MAX_ORDER - 1) s e) as (Ho&Hal&Hfit); [lia|done|].
  set (o := release_order _ s e) in *.
  assert (0 < 2 ^ Z.of_nat o) by lia.
  assert (Hl : loose b o s).
  { split_and!.
    - split; [lia|lia|lia|done|]. intros y Hy1 Hy2. unfold in_block in Hy2. apply Hpg. lia.
    - apply Hpg. lia.
    - unfold in_block. intros y Hy. apply Hpg. lia. }
  destruct (add_block_spec b o s Hwf Hl) as (b1&Hadd&Hwf1&Hf1&Ha1&Hmin1&Hmax1&Had1&Hs1).
  assert (Hm1 : managed_pages b1 = managed_pages b).
  { revert Hadd. unfold add_block. intros H'. res_inv. done. }
  rewrite Hadd. simpl. rewrite BIT_pow by lia.
  destruct (IH b1 (s + 2 ^ Z.of_nat o)) as (b2&->&Hwf2&Hf2&Ha2&Hm2&Hmin2&Hmax2&Had2&Hs2);
    [done|lia|lia|lia| |].
  { intros y Hy. rewrite Hs1 by lia. destruct (Hpg y) as (?&?&?); [lia|]. rewrite Hf1.
    rewrite (is_alloc_ext b b1) by done. split_and!; [done| |done]. unfold in_block. intros [?|?]; [done|lia]. }
  exists b2. split_and!; [done|done| | |congruence|split_and!; [congruence..|]].
  - intros y. rewrite Hf2, Hf1. unfold in_block.
    split; [intros [[?|?]|?]; [by left|right; lia|right; lia]|].
    intros [?|?]; [by left; left|]. destruct (decide (y < s + 2 ^ Z.of_nat o)); [left; right|right]; lia.
  - intros o' z. by rewrite Ha2, Ha1.
  - intros y Hy. rewrite Hs2 by lia. apply Hs1. lia.
Qed.
(** Blocks released from [start] on: aligned, below [start], with no buddies
    among them, and a block that ends at [start] as the lower half of its pair
    leaves a half that does not fit below [end_]. *)
Definition ends_below (b : buddy) (start : Z) : Prop :=
  ∀ o z, free_block b o z → 0 ≤ z ∧ z mod 2 ^ Z.of_nat o = 0 ∧ z + 2 ^ Z.of_nat o ≤ start.
Definition no_pair_at (b : buddy) (start end_ : Z) : Prop :=
  ∀ o z, (S o < CONFIG_MAX_ORDER)%nat → free_block b o z → Z.lxor z (2 ^ Z.of_nat o) = start →
    end_ < start + 2 ^ Z.of_nat o.

Lemma release_order_max o s e o' :
  (o ≤ 11)%nat → s < e → (release_order o s e < o' ≤ o)%nat → s mod 2 ^ Z.of_nat o' = 0 →
  e < s + 2 ^ Z.of_nat o'.
Proof.
  intros Ho Hse. revert o'. induction o as [|o IH]; intros o'; cbn [release_order].
  { intros ?. lia. }
  rewrite BIT_pow, land_pow2_mask, Z.gtb_ltb by lia. unfold truth.
  destruct (Z.eqb_spec (s mod 2 ^ Z.of_nat (S o)) 0) as [Hm|Hm]; cbn [negb orb].
  - destruct (Z.ltb_spec (e - s) (2 ^ Z.of_nat (S o))); [|lia]. intros Ho' Hal.
    destruct (decide (o' = S o)) as [->|]; [lia|]. apply IH; lia || done.
  - intros Ho' Hal. destruct (decide (o' = S o)) as [->|]; [done|]. apply IH; lia || done.
Qed.

(** The lower half of a pair is aligned to the pair. *)
Lemma lxor_lower x o :
  0 ≤ x → x mod 2 ^ Z.of_nat o = 0 → Z.lxor x (2 ^ Z.of_nat o) = x + 2 ^ Z.of_nat o →
  x mod 2 ^ Z.of_nat (S o) = 0.
Proof.
  intros Hx Hal Heq. destruct (lxor_buddy x o Hx Hal) as (_&Hm&_). rewrite Heq in Hm.
  rewrite Z.min_l in Hm by lia. done.
Qed.

Lemma release_blocks_coalesced fuel b b' s e :
  coalesced b → 0 ≤ s ≤ e → ends_below b s → no_pair_at b s e →
  release_blocks fuel b s e = Ok b' → coalesced b' ∧ ends_below b' e ∧ max_pfn b' = max_pfn b.
Proof.
  revert b s. induction fuel as [|fuel IH]; intros b s Hc Hse He Hp; cbn [release_blocks];
    destruct (Z.ltb_spec s e) as [Hlt|]; try done;
    try (intros [= <-]; replace e with s by lia; done).
  destruct (release_order_spec (CONFIG_MAX_ORDER - 1) s e) as (Ho&Hal&Hfit); [lia|done|].
  pose proof (λ o', release_order_max (CONFIG_MAX_ORDER - 1) s e o' ltac:(lia) Hlt) as Hbig.
  set (o := release_order _ s e) in *. intros H. res_inv.
  match goal with H1 : add_block _ _ _ = Ok ?c, H2 : release_blocks _ _ _ _ = Ok _ |- _ =>
    rename H1 into Hadd, H2 into Hrest; rename c into b1 end.
  destruct (add_block_free _ _ _ _ Hadd) as [Hf Hmx]. rewrite BIT_pow in Hrest by lia.
  assert (0 < 2 ^ Z.of_nat o) by lia. rewrite <-Hmx.
  destruct (lxor_buddy s o) as (Hbud&_); [lia|done|].
  apply (IH b1 (s + 2 ^ Z.of_nat o)); [|lia| | |done].
  - eapply add_block_coalesced; [done|done|]. intros Ho' Hw. destruct Hbud as [Hb|Hb].
    + rewrite Hb in Hw. apply He in Hw. lia.
    + pose proof (Hp o _ Ho' Hw) as Hpe. rewrite (proj2 (lxor_pow_self _ _ _) eq_refl) in Hpe. lia.
  - intros o' z [(?&?&?)%He|[-> ->]]%Hf; split_and!; lia || done.
  - intros o' z Ho' [Hz|[-> ->]]%Hf Heq.
    + destruct (He _ _ Hz) as (Hz0&Hza&Hzs). destruct (lxor_buddy z o' Hz0 Hza) as ([?|?]&_); lia.
    + pose proof (lxor_lower s o ltac:(lia) Hal Heq) as Hal'.
      pose proof (Hbig (S o) ltac:(lia) Hal') as Hb'. rewrite pow_S in Hb'. lia.
Qed.

Lemma release_unreserve_free n b b' x :
  release_unreserve n b x = Ok b' → free_list b' = free_list b ∧ max_pfn b' = max_pfn b.
Proof.
  revert b x. induction n as [|n IH]; intros b x; simpl; [by intros [= <-]|].
  intros H. res_inv. match goal with H' : release_unreserve _ _ _ = Ok _ |- _ => apply IH in H' end.
  done.
Qed.

Lemma release_range_coalesced b b' s e :
  coalesced b → 0 ≤ s ≤ e → ends_below b s → no_pair_at b s e →
  release_range b s e = Ok b' → coalesced b' ∧ ends_below b' e ∧ max_pfn b' = max_pfn b.
Proof.
  intros Hc Hse He Hp. unfold release_range. intros H. res_inv.
  match goal with H1 : release_unreserve _ _ _ = Ok _ |- _ =>
    apply release_unreserve_free in H1 as [Hfl Hmx] end.
  match goal with H2 : release_blocks _ _ _ _ = Ok _ |- _ => rename H2 into Hrest end.
  assert (Hsame : ∀ o z, free_block (Buddy (mem_map_addr a) (mem_map a) (min_pfn a) (max_pfn a)
    (free_list a) (nr_free a) (u64 (managed_pages a + (e - s)))) o z ↔ free_block b o z).
  { intros o z. unfold free_block. simpl. by rewrite Hfl. }
  apply release_blocks_coalesced in Hrest as (?&?&Hm2); [|
    eapply coalesced_subset; [exact Hc|intros o z; by rewrite Hsame]|done|
    intros o z Hz%Hsame; by apply He|intros o z Ho Hz%Hsame; by apply Hp].
  split_and!; [done..|]. simpl in Hm2. congruence.
Qed.

(** A gap before [start]: nothing free ends there. *)
Lemma gap_no_pair b s s' e :
  ends_below b s' → s' < s → no_pair_at b s e.
Proof.
  intros He Hlt o z _ Hz Heq. destruct (He _ _ Hz) as (Hz0&Hza&?).
  destruct (lxor_buddy z o Hz0 Hza) as ([?|?]&_); lia.
Qed.

(** The page frames a reserved region touches. *)
Definition region_pfns (r : memblock_region) (y : Z) : Prop :=
  ∃ a, covers r a ∧ a / PAGE_SIZE = y.

Lemma region_pfns_spec r y :
  valid_region r →
  region_pfns r y ↔ Z.shiftr (base r) PAGE_SHIFT ≤ y <
    Z.shiftr (u64 (base r + size r)) PAGE_SHIFT +
      (if truth (Z.land (u64 (base r + size r)) (PAGE_SIZE - 1)) then 1 else 0).
Proof.
  intros (Hb&Hs&He). rewrite u64_small by (unfold in_u64, UINT64_MAX in *; lia).
  rewrite !Z.shiftr_div_pow2 by (unfold PAGE_SHIFT; lia).
  change (PAGE_SIZE - 1) with (2 ^ 12 - 1). rewrite land_pow2_mask by lia.
  change (2 ^ PAGE_SHIFT) with 4096. change (2 ^ 12) with 4096.
  unfold region_pfns, covers, truth, PAGE_SIZE. change (2 ^ PAGE_SHIFT) with 4096.
  set (e := base r + size r) in *. split.
  - intros (a&Ha&<-). destruct (Z.eqb_spec (e mod 4096) 0); simpl;
      Z.to_euclidean_division_equations; lia.
  - destruct (Z.eqb_spec (e mod 4096) 0); simpl; intros Hy;
      exists (Z.max (base r) (y * 4096)); Z.to_euclidean_division_equations; lia.
Qed.

Lemma region_frames_nonempty r :
  valid_region r →
  Z.shiftr (base r) PAGE_SHIFT <
    Z.shiftr (u64 (base r + size r)) PAGE_SHIFT +
      (if truth (Z.land (u64 (base r + size r)) (PAGE_SIZE - 1)) then 1 else 0).
Proof.
  intros Hr. assert (Hne : region_pfns r (Z.shiftr (base r) PAGE_SHIFT)).
  { exists (base r). unfold covers. rewrite Z.shiftr_div_pow2 by (unfold PAGE_SHIFT; lia).
    split; [|done]. unfold valid_region in Hr. lia. }
  apply region_pfns_spec in Hne; [lia|done].
Qed.

Lemma buddy_init_loop_coalesced rs b s s' b' :
  Forall valid_region rs → coalesced b → 0 ≤ s ≤ max_pfn b →
  ends_below b s → (∀ e, no_pair_at b s e) →
  buddy_init_loop rs b s = Ok (s', b') →
  coalesced b' ∧ ends_below b' s' ∧ (∀ e, no_pair_at b' s' e) ∧ max_pfn b' = max_pfn b ∧
    0 ≤ s' ≤ max_pfn b'.
Proof.
  intros Hv. revert b s. induction Hv as [|r rs Hr _ IH]; intros b s Hc Hs He Hp; simpl.
  { intros H. by simplify_eq. }
  pose proof (region_frames_nonempty r Hr) as Hne. cbn zeta in Hne.
  set (first := Z.shiftr (base r) PAGE_SHIFT) in *. set (last := _ + _ : Z) in *.
  destruct (Z.leb_spec last s); [by apply IH|].
  rewrite Z.geb_leb. destruct (Z.leb_spec (max_pfn b) first); [intros H'; by simplify_eq|].
  intros H'. apply res_bind_Ok in H' as (b1&Hrel&Hrest). rewrite MIN_spec in Hrest.
  assert (coalesced b1 ∧ ends_below b1 (Z.max s first) ∧ max_pfn b1 = max_pfn b ∧
    (s < first ∨ b1 = b)) as (Hc1&He1&Hm1&Hcase).
  { destruct (Z.ltb_spec s first).
    - apply release_range_coalesced in Hrel as (?&?&?); [|done|lia|done|apply Hp].
      rewrite Z.max_r by lia. auto.
    - injection Hrel as <-. rewrite Z.max_l by lia. auto. }
  rewrite <-Hm1. apply (IH b1 (Z.min last (max_pfn b1))); [done|lia| | |done].
  - intros o z Hz. destruct (He1 _ _ Hz) as (?&?&?). split_and!; lia || done.
  - intros e. destruct (decide (Z.max s first < Z.min last (max_pfn b1))).
    + by eapply gap_no_pair.
    + destruct Hcase as [?| ->]; [lia|]. replace (Z.min last (max_pfn b)) with s by lia. apply Hp.
Qed.

(** Boot progress: everything from [start] on is still as [page_init] left it. *)
Record booting (b : buddy) (start : Z) : Prop := {
  boot_wf : wf b;
  boot_range : min_pfn b ≤ start ≤ max_pfn b;
  boot_pages : ∀ y, start ≤ y < max_pfn b → pfn_to_page b y = Some boot_page;
  boot_free : ∀ y, is_free b y → y < start;
  boot_alloc : ∀ o z, ¬ alloc_block b o z;
}.

Lemma booting_advance b start start' :
  booting b start → start ≤ start' ≤ max_pfn b → booting b start'.
Proof.
  intros [? ? Hp Hf ?] ?. split; [done|lia| | |done].
  - intros y Hy. apply Hp. lia.
  - intros y Hy. apply Hf in Hy. lia.
Qed.

Lemma wf_managed b m :
  wf b → wf (Buddy (mem_map_addr b) (mem_map b) (min_pfn b) (max_pfn b) (free_list b) (nr_free b) m).
Proof.
  set (b' := Buddy _ _ _ _ _ _ _). intros [? ? ? ? Hf Hb Ha].
  assert (Hbl : ∀ o x, block b o x → block b' o x) by (intros; by apply (block_frame b)).
  split; try done.
  - intros o x Hx. destruct (Hf o x Hx). auto.
  - intros x p Hp Hbit. destruct (Ha x p Hp Hbit) as (?&?&o&?&?). eauto 10.
Qed.

Lemma release_range_spec b start end_ :
  booting b start → start ≤ end_ ≤ max_pfn b →
  ∃ b', release_range b start end_ = Ok b' ∧ booting b' end_ ∧
    (∀ y, is_free b' y ↔ is_free b y ∨ start ≤ y < end_) ∧
    managed_pages b' = u64 (managed_pages b + (end_ - start)) ∧
    same_outside (λ y, start ≤ y < end_) b b'.
Proof.
  intros [Hwf Hr Hp Hf Ha] He. unfold release_range.
  destruct (release_unreserve_spec (Z.to_nat (end_ - start)) b start)
    as (b1&->&Hwf1&Hfl1&Hm1&Hb1&Hmin1&Hmax1&Had1&Hs1); [done|intros y Hy; apply Hp; lia|].
  simpl. set (b2 := Buddy _ _ _ _ _ _ _).
  assert (Hlk : ∀ y, pfn_to_page b2 y = pfn_to_page b1 y) by done.
  assert (Hfr : ∀ y, is_free b2 y ↔ is_free b y).
  { intros y. unfold is_free, free_block. simpl. by rewrite Hfl1. }
  assert (Hal : ∀ o z, ¬ alloc_block b2 o z).
  { intros o z (p&Hpz&Hbit&Hop). rewrite Hlk in Hpz.
    destruct (decide (start ≤ z < start + Z.of_nat (Z.to_nat (end_ - start)))) as [Hz|Hz].
    - rewrite Hb1 in Hpz by done. by injection Hpz as <-.
    - rewrite Hs1 in Hpz by done. apply (Ha o z). by exists p. }
  destruct (release_blocks_spec (Z.to_nat (end_ - start)) b2 start end_)
    as (b3&->&Hwf3&Hf3&Ha3&Hm3&Hmin3&Hmax3&Had3&Hs3).
  { by apply wf_managed. }
  { simpl. lia. } { simpl. lia. } { lia. }
  { intros y Hy. rewrite Hlk. split_and!; [apply Hb1; lia| |].
    - rewrite Hfr. intros ?%Hf. lia.
    - intros (o&z&Hz&_). by apply Hal in Hz. }
  simpl in Hm3, Hmin3, Hmax3, Had3. exists b3. split; [done|]. split_and!.
  - split; [done|lia| | |].
    + intros y Hy. rewrite Hs3, Hlk, Hs1 by lia. apply Hp. lia.
    + intros y. rewrite Hf3, Hfr. intros [?%Hf|?]; lia.
    + intros o z. rewrite Ha3. apply Hal.
  - intros y. by rewrite Hf3, Hfr.
  - by rewrite Hm3, Hm1.
  - split_and!; [congruence..|]. intros y Hy. rewrite Hs3, Hlk, Hs1 by lia. done.
Qed.

Lemma buddy_init_loop_spec rs b start :
  Forall valid_region rs → StronglySorted before rs → booting b start →
  ∃ start' b', buddy_init_loop rs b start = Ok (start', b') ∧ booting b' start' ∧
    start ≤ start' ∧
    (∀ y, is_free b' y ↔ is_free b y ∨ (start ≤ y < start' ∧ ∀ r, r ∈ rs → ¬ region_pfns r y)) ∧
    (∀ y r, start' ≤ y < max_pfn b → r ∈ rs → ¬ region_pfns r y) ∧
    min_pfn b' = min_pfn b ∧ max_pfn b' = max_pfn b ∧
    (∀ y, ¬ is_free b' y → pfn_to_page b' y = pfn_to_page b y).
Proof.
  revert b start. induction rs as [|r rs IH]; intros b start Hv Hs Hb; simpl.
  { exists start, b. split_and!; [done|done|lia| | |done..].
    - intros y. split; [by left|]. intros [?|?]; [done|lia].
    - intros y r _ Hr. inversion Hr. }
  inversion Hv as [|? ? Hvr Hv']; subst. inversion Hs as [|? ? Hs' Hbef]; subst.
  pose proof (λ y, region_pfns_spec r y Hvr) as Hreg.
  set (first := Z.shiftr (base r) PAGE_SHIFT) in *. set (last := _ + _ : Z) in *.
  assert (Hne : region_pfns r first).
  { exists (base r). unfold covers, first. rewrite Z.shiftr_div_pow2 by (unfold PAGE_SHIFT; lia).
    split; [|done]. unfold valid_region in Hvr. lia. }
  rewrite Hreg in Hne. pose proof (boot_range _ _ Hb) as Hrng.
  destruct (Z.leb_spec last start).
  { destruct (IH b start Hv' Hs' Hb) as (s'&b'&->&?&?&Hf&Hn&?&?&?).
    exists s', b'. split_and!; try done.
    - intros y. rewrite Hf. setoid_rewrite elem_of_cons.
      split; (intros [?|[? Hno]]; [by left|right; split; [done|]]); [|auto].
      intros q [->|?]; [rewrite Hreg; lia|auto].
    - intros y q Hy [->|?]%elem_of_cons; [rewrite Hreg; lia|by apply Hn]. }
  rewrite Z.geb_leb. destruct (Z.leb_spec (max_pfn b) first) as [Hmax|Hmax].
  { exists start, b. split_and!; [done|done|lia| | |done..].
    - intros y. split; [by left|]. intros [?|?]; [done|lia].
    - intros y q Hy [->|Hq]%elem_of_cons; [rewrite Hreg; lia|].
      rewrite Forall_forall in Hv', Hbef. rewrite region_pfns_spec by auto.
      destruct (Hbef _ Hq) as [Hle _].
      assert (first ≤ Z.shiftr (base q) PAGE_SHIFT); [|lia].
      unfold first. rewrite !Z.shiftr_div_pow2 by (unfold PAGE_SHIFT; lia).
      apply Z.div_le_mono; [by vm_compute|lia]. }
  assert (∃ b1, (if start <? first then release_range b start first else Ok b) = Ok b1 ∧
    booting b1 (Z.min last (max_pfn b)) ∧ min_pfn b1 = min_pfn b ∧ max_pfn b1 = max_pfn b ∧
    (∀ y, is_free b1 y ↔ is_free b y ∨ start ≤ y < first) ∧
    (∀ y, ¬ (start ≤ y < first) → pfn_to_page b1 y = pfn_to_page b y))
    as (b1&->&Hb1&Hmin1&Hmax1&Hf1&Hs1).
  { destruct (Z.ltb_spec start first).
    - destruct (release_range_spec b start first Hb) as (b1&->&Hb1&Hf1&_&Hmin&Hmx&_&Hs1); [lia|].
      exists b1. split_and!; try done. eapply booting_advance; [done|].
      lia.
    - exists b. split_and!; try done; [eapply booting_advance; [done|lia]|].
      intros y. split; [by left|]. intros [?|?]; [done|lia]. }
  cbn [res_bind]. rewrite MIN_spec, Hmax1.
  destruct (IH b1 _ Hv' Hs' Hb1) as (s'&b'&->&Hb'&?&Hf&Hn&?&Hmax'&Hsame).
  pose proof (boot_range _ _ Hb') as Hrng'. rewrite Hmax', Hmax1 in Hrng'.
  exists s', b'. split_and!; [done|done|lia| | |congruence..|].
  - intros y. rewrite Hf, Hf1. setoid_rewrite elem_of_cons. split.
    + intros [[?|Hy]|[Hy Hno]]; [by left|right|right].
      * split; [lia|]. intros q [->|Hq]; [rewrite Hreg; lia|].
        rewrite Forall_forall in Hv', Hbef. rewrite region_pfns_spec by auto.
        destruct (Hbef _ Hq) as [Hle _]. intros [Hlo _].
        assert (first ≤ Z.shiftr (base q) PAGE_SHIFT); [|lia].
        unfold first. rewrite !Z.shiftr_div_pow2 by (unfold PAGE_SHIFT; lia).
        apply Z.div_le_mono; [by vm_compute|lia].
      * split; [lia|]. intros q [->|Hq]; [rewrite Hreg; lia|auto].
    + intros [?|[Hy Hno]]; [by left; left|].
      destruct (decide (y < first)); [left; right; lia|]. right.
      pose proof (Hno r (or_introl eq_refl)) as Hnr. rewrite Hreg in Hnr.
      destruct (decide (y < s')); [|lia]. split; [lia|auto].
  - intros y q Hy [->|Hq]%elem_of_cons; [rewrite Hreg; lia|]. apply Hn; [lia|done].
  - intros y Hy. rewrite Hsame by done. apply Hs1. intros Hy'. apply Hy. rewrite Hf, Hf1. auto.
Qed.

Lemma buddy_init_correct b mb :
  Memblock.wf mb → 0 ≤ min_pfn b ≤ max_pfn b →
  mem_map b = replicate (Z.to_nat (max_pfn b - min_pfn b)) boot_page →
  nr_free b = replicate CONFIG_MAX_ORDER 0 →
  ∃ b', buddy_init b mb = Ok b' ∧ wf b' ∧ coalesced b' ∧
    (∀ y, is_free b' y ↔
       min_pfn b ≤ y < max_pfn b ∧ ∀ r, r ∈ live mb → ¬ region_pfns r y) ∧
    (∀ y, ¬ is_alloc b' y) ∧
    (∀ y, min_pfn b ≤ y < max_pfn b → ¬ is_free b' y → pfn_to_page b' y = Some boot_page).
Proof.
  intros Hmb Hr Hmm Hnr. unfold buddy_init. set (b0 := set_free _ _ _).
  assert (Hpg : ∀ y, min_pfn b ≤ y < max_pfn b → pfn_to_page b0 y = Some boot_page).
  { intros y Hy. unfold pfn_to_page, pfn_valid. simpl.
    replace ((y >=? min_pfn b) && (y <? max_pfn b)) with true by lia.
    rewrite Hmm. apply lookup_replicate_2. unfold pfn_index. simpl. lia. }
  assert (Hnf : ∀ o x, ¬ free_block b0 o x).
  { intros o x (l&Hl&Hx). apply lookup_replicate in Hl as [-> _]. inversion Hx. }
  assert (Hpp : ∀ y p, pfn_to_page b0 y = Some p → p = boot_page).
  { intros y p Hp. pose proof (pfn_to_page_range _ _ _ Hp) as Hy. simpl in Hy.
    rewrite Hpg in Hp by done. by injection Hp. }
  assert (Hb : booting b0 (min_pfn b0)).
  { split; [split| | | |].
    - done.
    - simpl. by rewrite Hmm, length_replicate.
    - simpl. apply length_replicate.
    - simpl. intros o l [-> ?]%lookup_replicate. split; [constructor|].
      rewrite Hnr. by apply lookup_replicate_2.
    - intros o x Hf. by apply Hnf in Hf.
    - by intros x p ->%Hpp.
    - by intros x p ->%Hpp.
    - simpl. lia.
    - done.
    - intros y (o&x&Hf&_). by apply Hnf in Hf.
    - intros o z (p&->%Hpp&?&_). done. }
  destruct (buddy_init_loop_spec (live mb) b0 (min_pfn b0)) as (s&b1&Hloop&Hb1&Hle&Hf&Hn&Hmin&Hmax&Hsame);
    [apply Hmb|apply Hmb|done|].
  rewrite Hloop. cbn [res_bind]. pose proof (boot_range _ _ Hb1).
  destruct (release_range_spec b1 s (max_pfn b1) Hb1) as (b2&Hrel&Hb2&Hf2&_&_&_&_&Hs2); [lia|].
  apply buddy_init_loop_coalesced in Hloop as (Hc1&He1&Hp1&_&_);
    [|apply Hmb|by intros o x _ ?%Hnf|done|by intros o x ?%Hnf|by intros e o x _ ?%Hnf].
  apply release_range_coalesced in Hrel as Hc2; [|done|simpl in *; lia|done|apply Hp1].
  rewrite Hrel. simpl in *. exists b2. split_and!; [done|apply Hb2|apply Hc2| | |].
  - intros y. rewrite Hf2, Hf. split.
    + intros [[(o&x&Hfb&_)|[Hy Hno]]|Hy]; [by apply Hnf in Hfb|split; [lia|done]|].
      split; [lia|]. intros r Hr'. apply Hn; [lia|done].
    + intros [Hy Hno]. destruct (decide (y < s)); [left; right|right]; (split; [lia|auto; lia]).
  - intros y (o&x&Hx&_). by apply (boot_alloc _ _ Hb2) in Hx.
  - intros y Hy Hny. rewrite Hs2; [rewrite Hsame; [by apply Hpg|]|].
    + intros ?. apply Hny, Hf2. by left.
    + intros ?. apply Hny, Hf2. by right.
Qed.

(** [buddy_init], run on the descriptor array [page_init] built and the
    reservation table, never faults and ends with a consistent allocator in
    which exactly the page frames of RAM that no reserved region touches - even
    by one byte - are free, none is allocated, and the descriptors of the
    reserved frames still read reserved.  No two free blocks are buddies. *)
Theorem buddy_init_spec b mb :
  Memblock.wf mb → 0 ≤ min_pfn b ≤ max_pfn b →
  mem_map b = replicate (Z.to_nat (max_pfn b - min_pfn b)) boot_page →
  nr_free b = replicate CONFIG_MAX_ORDER 0 →
  ∃ b', buddy_init b mb = Ok b' ∧ wf b' ∧ coalesced b' ∧
    (∀ y, is_free b' y ↔
       min_pfn b ≤ y < max_pfn b ∧ ∀ r, r ∈ live mb → ¬ region_pfns r y) ∧
    (∀ y, ¬ is_alloc b' y) ∧
    (∀ y, min_pfn b ≤ y < max_pfn b → ¬ is_free b' y → pfn_to_page b' y = Some boot_page).
Proof. apply buddy_init_correct. Qed.
End buddy.

(** ** A machine of 24 pages with the kernel and one odd region reserved *)

Definition example_map : memblock :=
  Memblock (Region 0x10000 0x18000 false)
    ([Region 0x10000 0x3000 false; Region 0x1b800 0x20 true] ++ replicate 30 (Region 0 0 false)) 2.

Definition example_boot : buddy :=
  Buddy 0x10000 (replicate 24 boot_page) 16 40 [] [0; 0; 0; 0] 0.

Definition example_buddy : buddy :=
  match buddy_init 4 example_boot example_map with Ok b => b | _ => example_boot end.

Example example_free_lists :
  free_list example_buddy = [[26; 19]; [24]; [28; 20]; [32]] ∧ nr_free example_buddy = [2; 1; 2; 1].
Proof. vm_compute. done. Qed.

Lemma example_map_wf : Memblock.wf example_map.
Proof.
  split; [done|vm_compute; lia| |]; unfold live; simpl.
  - repeat constructor; vm_compute; done.
  - repeat constructor; vm_compute; done.
Qed.

Lemma example_buddy_ok : buddy_init 4 example_boot example_map = Ok example_buddy.
Proof. vm_compute. done. Qed.

Lemma example_buddy_wf : wf 4 example_buddy.
Proof.
  destruct (buddy_init_correct 4 ltac:(lia) example_boot example_map) as (b'&Hb&Hwf&_);
    [apply example_map_wf|vm_compute; done|done|done|].
  rewrite example_buddy_ok in Hb. apply Ok_inj in Hb as ->. exact Hwf.
Qed.

Lemma buddy_init_spec_witness :
  ∃ b', buddy_init 4 example_boot example_map = Ok b' ∧ wf 4 b' ∧ is_free b' 19 ∧ ¬ is_free b' 27.
Proof.
  destruct (buddy_init_spec 4 ltac:(lia) example_boot example_map) as (b'&Hb&Hwf&Hf).
  - apply example_map_wf.
  - vm_compute; done.
  - done.
  - done.
  - destruct Hf as [_ Hf]. destruct Hf as [Hf _]. exists b'. refine (conj Hb (conj Hwf (conj _ _))).
    + clear Hb. apply Hf. split; [simpl; lia|]. unfold live, region_pfns, covers, PAGE_SIZE, PAGE_SHIFT.
      intros r Hr (a&Ha&Hy). change (2 ^ 12) with 4096 in Hy. simpl in Hr.
      repeat (apply elem_of_cons in Hr as [->|Hr]; [simpl in Ha; Z.to_euclidean_division_equations; lia|]).
      inversion Hr.
    + clear Hb. intros [_ Hn]%Hf. apply (Hn (Region 0x1b800 0x20 true)).
      * unfold live. simpl. right. left.
      * exists 0x1b800. split; vm_compute; done.
Defined.

Lemma alloc_pages_spec_witness :
  ∃ r b', alloc_pages true 4 example_buddy 1 = Ok (r, b') ∧ r = Some 24 ∧ wf 4 b'.
Proof.
  destruct (alloc_pages_spec true 4 ltac:(lia) example_buddy 1) as (r&b'&Heq&Hr).
  - apply example_buddy_wf.
  - destruct Hr as [Hr _]. exists r, b'. split; [exact Heq|]. assert (r = Some 24) as ->.
    { vm_compute in Heq. by injection Heq. }
    split; [done|]. apply Hr.
Defined.

(** The state after one allocation of order 1, and its release. *)
Definition example_used : buddy :=
  match alloc_pages true 4 example_buddy 1 with Ok (_, b) => b | _ => example_buddy end.

Lemma example_used_wf : wf 4 example_used.
Proof.
  destruct (alloc_pages_correct true 4 ltac:(lia) example_buddy 1) as (r&b'&Heq&Hr);
    [apply example_buddy_wf|].
  replace example_used with b' by (unfold example_used; by rewrite Heq).
  destruct r; [apply Hr|]. destruct Hr as [-> _]. apply example_buddy_wf.
Qed.

Lemma example_used_coalesced : coalesced 4 example_used.
Proof.
  assert (Hfl : free_list example_used = [[26; 19]; []; [28; 20]; [32]]) by (vm_compute; done).
  unfold coalesced, free_block. rewrite Hfl. clear Hfl. intros o x Ho (l&Hl&Hx) (l'&Hl'&Hy).
  rewrite Hl in Hl'. injection Hl' as <-.
  destruct o as [|[|[|o]]]; [| | |lia]; injection Hl as <-;
    repeat (apply elem_of_cons in Hx as [->|Hx]; [rewrite !elem_of_cons, elem_of_nil in Hy; vm_compute in Hy; naive_solver|]); by inversion Hx.
Qed.

Lemma free_pages_spec_witness :
  ∃ b', free_pages true 4 example_used (page_addr example_used 24) 1 = Ok b' ∧ wf 4 b' ∧
    coalesced 4 b' ∧ free_list b' = free_list example_buddy.
Proof.
  destruct (free_pages_spec true 4 ltac:(lia) example_used (page_addr example_used 24) 1)
    as (b'&Heq&Hwf&Hc&_).
  - apply example_used_wf.
  - vm_compute; done.
  - exists b'. refine (conj Heq (conj Hwf (conj (Hc example_used_coalesced) _))). vm_compute in Heq. by injection Heq as <-.
Defined.
