(* ===== verification/Kfifo.v ===== *)
(** * Byte rings: [include/nuvix/kfifo.h]

    A ring of [mask + 1] bytes with free-running 32-bit indices.  [Sequential]
    operations refine a bounded queue; [Spsc] takes the producer and the
    consumer apart into their loads, copies and stores and lets them
    interleave, which is how [drivers/tty/ns16550a.c] uses the ring between
    its interrupt handler ([kfifo_put]) and its reader ([kfifo_out]). *)
From stdpp Require Import base tactics numbers list.
From S2P Require Import Prelude.

Record kfifo := Kfifo { in_ : Z; out : Z; mask : Z; data : list Z }.

(** ** Operations *)

(** [data] is the caller's buffer; the fields of the old structure are lost. *)
Definition kfifo_init (fifo : kfifo) (buffer : list Z) (size : Z) : Z * kfifo :=
  if (size <? 2) || negb (IS_POWER_OF_2 size) then (- EINVAL, fifo)
  else (0, Kfifo 0 0 (u32 (size - 1)) buffer).

Definition kfifo_reset (fifo : kfifo) : kfifo := Kfifo 0 0 (mask fifo) (data fifo).
Definition kfifo_size (fifo : kfifo) : Z := u32 (mask fifo + 1).
Definition kfifo_len (fifo : kfifo) : Z := u32 (in_ fifo - out fifo).
Definition kfifo_avail (fifo : kfifo) : Z := u32 (kfifo_size fifo - kfifo_len fifo).
Definition kfifo_is_empty (fifo : kfifo) : bool := kfifo_len fifo =? 0.
Definition kfifo_is_full (fifo : kfifo) : bool := kfifo_len fifo =? kfifo_size fifo.

Definition kfifo_put (fifo : kfifo) (value : Z) : res (bool * kfifo) :=
  if u32 (in_ fifo - out fifo) =? kfifo_size fifo then Ok (false, fifo) else
  let! d := arr_set (data fifo) (Z.to_nat (Z.land (in_ fifo) (mask fifo))) value in
  Ok (true, Kfifo (u32 (in_ fifo + 1)) (out fifo) (mask fifo) d).

(** The byte stored to [*value], if any. *)
Definition kfifo_get (fifo : kfifo) : res (option Z * kfifo) :=
  if in_ fifo =? out fifo then Ok (None, fifo) else
  let! v := arr_get (data fifo) (Z.to_nat (Z.land (out fifo) (mask fifo))) in
  Ok (Some v, Kfifo (in_ fifo) (u32 (out fifo + 1)) (mask fifo) (data fifo)).

Definition kfifo_in (fifo : kfifo) (src : list Z) (len : Z) : res (Z * kfifo) :=
  let offset := Z.land (in_ fifo) (mask fifo) in
  let len := MIN len (u32 (kfifo_size fifo - u32 (in_ fifo - out fifo))) in
  if negb (truth len) then Ok (0, fifo) else
  let first := MIN len (u32 (kfifo_size fifo - offset)) in
  let! d := memcpy (data fifo) (Z.to_nat offset) src 0 (Z.to_nat first) in
  let! d := memcpy d 0 src (Z.to_nat first) (Z.to_nat (u32 (len - first))) in
  Ok (len, Kfifo (u32 (in_ fifo + len)) (out fifo) (mask fifo) d).

(** Returns the count, the caller's buffer and the ring. *)
Definition kfifo_out (fifo : kfifo) (dst : list Z) (len : Z) : res (Z * list Z * kfifo) :=
  let offset := Z.land (out fifo) (mask fifo) in
  let len := MIN len (u32 (in_ fifo - out fifo)) in
  if negb (truth len) then Ok (0, dst, fifo) else
  let first := MIN len (u32 (kfifo_size fifo - offset)) in
  let! dst := memcpy dst 0 (data fifo) (Z.to_nat offset) (Z.to_nat first) in
  let! dst := memcpy dst (Z.to_nat first) (data fifo) 0 (Z.to_nat (u32 (len - first))) in
  Ok (len, dst, Kfifo (in_ fifo) (u32 (out fifo + len)) (mask fifo) (data fifo)).

(** ** Representation of a queue *)

(** [repr k f q]: ring [f] of [2^k] bytes holds exactly the queue [q]. *)
Record repr (k : Z) (f : kfifo) (q : list Z) : Prop := {
  repr_k : 1 ≤ k ≤ 31;
  repr_mask : mask f = 2 ^ k - 1;
  repr_data : Z.of_nat (length (data f)) = 2 ^ k;
  repr_out : in_u32 (out f);
  repr_in : in_ f = u32 (out f + Z.of_nat (length q));
  repr_cap : Z.of_nat (length q) ≤ 2 ^ k;
  repr_bytes : ∀ i x, q !! i = Some x →
    data f !! Z.to_nat ((out f + Z.of_nat i) mod 2 ^ k) = Some x;
}.

Section ring.
Context (k : Z) (Hk : 1 ≤ k ≤ 31).
Abbreviation N := (2 ^ k).

Lemma ring_size : 2 ≤ N ∧ 2 * N ≤ 2 ^ 32.
Proof.
  pose proof (Z.pow_le_mono_r 2 k 31). pose proof (Z.pow_le_mono_r 2 1 k).
  change (2 ^ 32) with (2 * 2 ^ 31). change (2 ^ 1) with 2 in *. lia.
Qed.

(** The ring index of a wrapped counter is the counter modulo the size. *)
Lemma u32_mod x : u32 x mod N = x mod N.
Proof.
  unfold u32, wrap. apply Z.mod_mod_divide. exists (2 ^ (32 - k)).
  rewrite <-Z.pow_add_r by lia. f_equal. lia.
Qed.

(** The wrapped difference of two wrapped counters less than [2^32] apart. *)
Lemma u32_diff x d : 0 ≤ d < 2 ^ 32 → u32 (u32 (x + d) - x) = d.
Proof.
  intros Hd. unfold u32, wrap. rewrite Zminus_mod_idemp_l.
  replace (x + d - x) with d by lia. by apply Z.mod_small.
Qed.

(** Stepping from a ring position by less than the size wraps at most once. *)
Lemma ring_step x j :
  0 ≤ j < N → (x + j) mod N = if x mod N + j <? N then x mod N + j else x mod N + j - N.
Proof.
  intros Hj. destruct ring_size as [? _]. pose proof (Z.mod_pos_bound x N ltac:(lia)).
  rewrite <-Zplus_mod_idemp_l. destruct (Z.ltb_spec (x mod N + j) N).
  - apply Z.mod_small. lia.
  - rewrite <-(Z.mod_small (x mod N + j - N) N) by lia.
    rewrite <-(Z_mod_plus_full (x mod N + j - N) 1 N). f_equal. lia.
Qed.

Lemma ring_inj x i j :
  0 ≤ i < N → 0 ≤ j < N → (x + i) mod N = (x + j) mod N → i = j.
Proof.
  intros Hi Hj. rewrite !ring_step by done. destruct ring_size as [? _].
  pose proof (Z.mod_pos_bound x N ltac:(lia)). case_bools; lia.
Qed.

Section queue.
Context (f : kfifo) (q : list Z) (Hr : repr k f q).
Local Abbreviation lq := (Z.of_nat (length q)).

Lemma repr_size : kfifo_size f = N.
Proof.
  unfold kfifo_size. rewrite (repr_mask _ _ _ Hr). destruct ring_size.
  rewrite u32_small; unfold in_u32; lia.
Qed.

Lemma repr_len : kfifo_len f = lq.
Proof.
  unfold kfifo_len. rewrite (repr_in _ _ _ Hr). destruct ring_size.
  pose proof (repr_cap _ _ _ Hr). apply u32_diff. lia.
Qed.

Lemma repr_in_out : u32 (in_ f - out f) = lq.
Proof. apply repr_len. Qed.

Lemma repr_offset x : Z.land x (mask f) = x mod N.
Proof. rewrite (repr_mask _ _ _ Hr). apply land_pow2_mask. lia. Qed.

Lemma repr_in_mod : in_ f mod N = (out f + lq) mod N.
Proof. rewrite (repr_in _ _ _ Hr). apply u32_mod. Qed.

(** Appending bytes: the new contents agree with the old outside the window
    that starts at [in] and carry the appended bytes inside it. *)
Lemma repr_append new d :
  lq + Z.of_nat (length new) ≤ N → Z.of_nat (length d) = N →
  (∀ i x, new !! i = Some x → d !! Z.to_nat ((out f + lq + Z.of_nat i) mod N) = Some x) →
  (∀ j, 0 ≤ j < N → (∀ i, 0 ≤ i < Z.of_nat (length new) → j ≠ (out f + lq + i) mod N) →
     d !! Z.to_nat j = data f !! Z.to_nat j) →
  repr k (Kfifo (u32 (in_ f + Z.of_nat (length new))) (out f) (mask f) d) (q ++ new).
Proof.
  intros Hcap Hlen Hnew Hold. destruct Hr as [_ Hm Hd Ho Hi Hc Hb]. destruct ring_size.
  split; simpl; try done.
  - rewrite Hi, length_app, Nat2Z.inj_add. unfold u32, wrap. rewrite Zplus_mod_idemp_l. f_equal. lia.
  - rewrite length_app. lia.
  - intros i x Hx. destruct (decide (i < length q)%nat) as [Hiq|Hiq].
    + rewrite lookup_app_l in Hx by done. rewrite Hold; [by apply Hb|apply Z.mod_pos_bound; lia|].
      intros t Ht Heq. rewrite <-Z.add_assoc in Heq. apply ring_inj in Heq; lia.
    + rewrite lookup_app_r in Hx by lia.
      replace (out f + Z.of_nat i) with (out f + lq + Z.of_nat (i - length q)) by lia. auto.
Qed.

(** Dropping bytes from the front. *)
Lemma repr_drop n :
  (n ≤ length q)%nat →
  repr k (Kfifo (in_ f) (u32 (out f + Z.of_nat n)) (mask f) (data f)) (drop n q).
Proof.
  intros Hn. destruct Hr as [_ Hm Hd Ho Hi Hc Hb]. split; simpl; try done.
  - apply u32_range.
  - rewrite Hi, length_drop. unfold u32, wrap. rewrite Zplus_mod_idemp_l. f_equal. lia.
  - rewrite length_drop. lia.
  - intros i x. rewrite lookup_drop. intros Hx. apply Hb in Hx.
    rewrite <-Zplus_mod_idemp_l, u32_mod, Zplus_mod_idemp_l.
    replace (out f + Z.of_nat n + Z.of_nat i) with (out f + Z.of_nat (n + i)) by lia. done.
Qed.
End queue.

Lemma kfifo_put_repr f q v :
  repr k f q →
  if decide (Z.of_nat (length q) = N) then kfifo_put f v = Ok (false, f)
  else ∃ f', kfifo_put f v = Ok (true, f') ∧ repr k f' (q ++ [v]).
Proof.
  intros Hr. unfold kfifo_put. rewrite (repr_in_out f q), (repr_size f q), (repr_offset f q) by done.
  pose proof (repr_cap _ _ _ Hr). pose proof (repr_data _ _ _ Hr) as Hd. destruct ring_size.
  pose proof (Z.mod_pos_bound (in_ f) N ltac:(lia)).
  case_decide as Hc; [by rewrite Hc, Z.eqb_refl|].
  replace (Z.of_nat (length q) =? N) with false by lia.
  rewrite arr_set_Ok by lia. simpl. eexists. split; [done|].
  pose proof (repr_in_mod f q Hr) as Him.
  apply (repr_append f q Hr [v]); simpl.
  - lia.
  - by rewrite length_insert.
  - intros [|i] x Hx; [|done]. injection Hx as ->. rewrite Z.add_0_r, <-Him.
    apply list_lookup_insert_eq. lia.
  - intros j Hj Hne. apply list_lookup_insert_ne. specialize (Hne 0). rewrite Z.add_0_r, <-Him in Hne.
    specialize (Hne ltac:(lia)). lia.
Qed.

Lemma kfifo_get_repr f q :
  repr k f q →
  match q with
  | [] => kfifo_get f = Ok (None, f)
  | v :: q' => ∃ f', kfifo_get f = Ok (Some v, f') ∧ repr k f' q'
  end.
Proof.
  intros Hr. unfold kfifo_get. pose proof (repr_cap _ _ _ Hr). destruct ring_size.
  pose proof (repr_in _ _ _ Hr) as Hi. destruct q as [|v q].
  - rewrite Hi. rewrite Z.add_0_r, u32_small, Z.eqb_refl by apply Hr. done.
  - destruct (Z.eqb_spec (in_ f) (out f)) as [He|He].
    { pose proof (repr_in_out f _ Hr) as Hl. rewrite He, Z.sub_diag in Hl. done. }
    rewrite (repr_offset f _ Hr).
    pose proof (repr_bytes _ _ _ Hr 0%nat v eq_refl) as Hv. rewrite Z.add_0_r in Hv.
    rewrite (arr_get_Ok _ _ _ Hv). simpl. eexists. split; [done|].
    apply (repr_drop f _ Hr 1). simpl. lia.
Qed.

Lemma kfifo_in_repr f q src len :
  repr k f q → 0 ≤ len ≤ Z.of_nat (length src) → len < 2 ^ 32 →
  let n := Z.min len (N - Z.of_nat (length q)) in
  ∃ f', kfifo_in f src len = Ok (n, f') ∧ repr k f' (q ++ take (Z.to_nat n) src).
Proof.
  intros Hr Hlen H32 n. unfold kfifo_in. pose proof (repr_cap _ _ _ Hr).
  pose proof (repr_data _ _ _ Hr) as Hd. destruct ring_size.
  rewrite (repr_in_out f q), (repr_size f q), (repr_offset f q), !MIN_spec by done.
  pose proof (repr_in_mod f q Hr) as Him. set (off := in_ f mod N) in *.
  assert (0 ≤ off < N) by (apply Z.mod_pos_bound; lia).
  rewrite !(u32_small (N - _)) by (unfold in_u32; lia). fold n. unfold truth.
  destruct (Z.eqb_spec n 0) as [Hz|Hz]; cbn [negb].
  { exists f. rewrite Hz. simpl. by rewrite app_nil_r. }
  set (first := Z.min n (N - off)). rewrite u32_small by (unfold in_u32; lia).
  destruct (memcpy_spec (data f) src (Z.to_nat off) 0 (Z.to_nat first)) as (d1&->&Hl1&Hd1); [lia..|].
  cbn [res_bind].
  destruct (memcpy_spec d1 src 0 (Z.to_nat first) (Z.to_nat (n - first))) as (d2&->&Hl2&Hd2); [lia..|].
  cbn [res_bind]. eexists. split; [done|].
  assert (Hln : Z.of_nat (length (take (Z.to_nat n) src)) = n) by (rewrite length_take; lia).
  replace (in_ f + n) with (in_ f + Z.of_nat (length (take (Z.to_nat n) src))) by lia.
  apply (repr_append f q Hr).
  - lia.
  - lia.
  - intros i x Hx. pose proof (lookup_lt_Some _ _ _ Hx) as Hi.
    rewrite lookup_take_lt in Hx by lia. rewrite ring_step, <-Him by lia.
    rewrite Hd2, Hd1. case_bools; repeat case_decide; try lia; rewrite <-Hx; f_equal; lia.
  - intros j Hj Hne. rewrite Hd2, Hd1.
    assert (Hout : ∀ i, 0 ≤ i < n → j ≠ if off + i <? N then off + i else off + i - N).
    { intros i Hi. rewrite Him, <-ring_step by lia. apply Hne. lia. }
    destruct (decide (off ≤ j < off + first)) as [Hw|Hw].
    { exfalso. apply (Hout (j - off)); [lia|]. case_bools; lia. }
    destruct (decide (j < n - first)) as [Hw'|Hw'].
    { exfalso. apply (Hout (j + N - off)); [lia|]. case_bools; lia. }
    rewrite !decide_False by lia. done.
Qed.

Lemma kfifo_out_repr f q dst len :
  repr k f q → 0 ≤ len ≤ Z.of_nat (length dst) → len < 2 ^ 32 →
  let n := Z.to_nat (Z.min len (Z.of_nat (length q))) in
  ∃ f', kfifo_out f dst len = Ok (Z.of_nat n, take n q ++ drop n dst, f') ∧ repr k f' (drop n q).
Proof.
  intros Hr Hlen H32 n. unfold kfifo_out. pose proof (repr_cap _ _ _ Hr).
  pose proof (repr_data _ _ _ Hr) as Hd. destruct ring_size.
  rewrite (repr_in_out f q), (repr_size f q), (repr_offset f q), !MIN_spec by done.
  replace (Z.min len (Z.of_nat (length q))) with (Z.of_nat n) by lia.
  set (off := out f mod N) in *. assert (0 ≤ off < N) by (apply Z.mod_pos_bound; lia).
  unfold truth. destruct (Z.eqb_spec (Z.of_nat n) 0) as [Hz|Hz]; cbn [negb].
  { replace n with 0%nat by lia. exists f. done. }
  rewrite (u32_small (N - _)) by (unfold in_u32; lia).
  set (first := Z.min (Z.of_nat n) (N - off)). rewrite u32_small by (unfold in_u32; lia).
  destruct (memcpy_spec dst (data f) 0 (Z.to_nat off) (Z.to_nat first)) as (d1&->&Hl1&Hd1); [lia..|].
  cbn [res_bind].
  destruct (memcpy_spec d1 (data f) (Z.to_nat first) 0 (Z.to_nat (Z.of_nat n - first)))
    as (d2&->&Hl2&Hd2); [lia..|].
  cbn [res_bind]. eexists. split; [|apply (repr_drop f q Hr n); lia]. do 3 f_equal.
  apply list_eq. intros i. rewrite Hd2, Hd1. destruct (decide (i < n)%nat) as [Hi|Hi].
  - rewrite lookup_app_l by (rewrite length_take; lia). rewrite lookup_take_lt by done.
    destruct (lookup_lt_is_Some_2 q i) as [x Hx]; [lia|]. rewrite Hx.
    apply (repr_bytes _ _ _ Hr) in Hx. rewrite ring_step in Hx by lia. fold off in Hx.
    rewrite <-Hx. case_bools; repeat case_decide; try lia; f_equal; lia.
  - rewrite lookup_app_r by (rewrite length_take; lia). rewrite length_take, min_l, lookup_drop by lia.
    rewrite !decide_False by lia. f_equal. lia.
Qed.
End ring.

(** ** Refinement to a bounded queue *)

Lemma power_of_2_spec x :
  2 ≤ x → in_u32 x → IS_POWER_OF_2 x = true ↔ ∃ k, 1 ≤ k ≤ 31 ∧ x = 2 ^ k.
Proof.
  intros Hx H32. unfold IS_POWER_OF_2, truth. rewrite u32_small by (unfold in_u32 in *; lia).
  replace (x =? 0) with false by lia. cbn [negb andb]. rewrite negb_involutive, Z.eqb_eq.
  rewrite land_pred_pow2 by done. split; intros (k&?&->); exists k; (split; [|done]); [|lia].
  assert (k < 32); [|lia]. apply (Z.pow_lt_mono_r_iff 2); unfold in_u32 in *; lia.
Qed.

Inductive op :=
  | Put (v : Z)
  | Get
  | In (src : list Z) (len : Z)
  | Out (dst : list Z) (len : Z)
  | Len
  | Avail
  | Reset.

Inductive answer :=
  | ABool (b : bool)
  | AByte (v : option Z)
  | ACount (n : Z)
  | ABytes (n : Z) (dst : list Z)
  | ADone.

Definition fifo_op (f : kfifo) (o : op) : res (answer * kfifo) :=
  match o with
  | Put v => let! (b, f) := kfifo_put f v in Ok (ABool b, f)
  | Get => let! (v, f) := kfifo_get f in Ok (AByte v, f)
  | In src len => let! (n, f) := kfifo_in f src len in Ok (ACount n, f)
  | Out dst len => let! (n, dst, f) := kfifo_out f dst len in Ok (ABytes n dst, f)
  | Len => Ok (ACount (kfifo_len f), f)
  | Avail => Ok (ACount (kfifo_avail f), f)
  | Reset => Ok (ADone, kfifo_reset f)
  end.

Fixpoint fifo_ops (f : kfifo) (os : list op) : res (list answer * kfifo) :=
  match os with
  | [] => Ok ([], f)
  | o :: os => let! (a, f) := fifo_op f o in
               let! (l, f) := fifo_ops f os in Ok (a :: l, f)
  end.

(** The promise: a queue of at most [cap] bytes. *)
Definition queue_op (cap : Z) (q : list Z) (o : op) : answer * list Z :=
  match o with
  | Put v => if bool_decide (Z.of_nat (length q) = cap) then (ABool false, q)
             else (ABool true, q ++ [v])
  | Get => match q with [] => (AByte None, []) | v :: q => (AByte (Some v), q) end
  | In src len => let n := Z.min len (cap - Z.of_nat (length q)) in
                  (ACount n, q ++ take (Z.to_nat n) src)
  | Out dst len => let n := Z.to_nat (Z.min len (Z.of_nat (length q))) in
                   (ABytes (Z.of_nat n) (take n q ++ drop n dst), drop n q)
  | Len => (ACount (Z.of_nat (length q)), q)
  | Avail => (ACount (cap - Z.of_nat (length q)), q)
  | Reset => (ADone, [])
  end.

Fixpoint queue_ops (cap : Z) (q : list Z) (os : list op) : list answer * list Z :=
  match os with
  | [] => ([], q)
  | o :: os => let '(a, q) := queue_op cap q o in
               let '(l, q) := queue_ops cap q os in (a :: l, q)
  end.

(** Buffers hold at least the length passed with them. *)
Definition op_ok (o : op) : bool :=
  match o with
  | In b len | Out b len => (0 <=? len) && (len <=? Z.of_nat (length b)) && (len <? 2 ^ 32)
  | _ => true
  end.

Lemma fifo_op_refines k f q o :
  1 ≤ k ≤ 31 → repr k f q → op_ok o = true →
  ∃ f', fifo_op f o = Ok ((queue_op (2 ^ k) q o).1, f') ∧ repr k f' (queue_op (2 ^ k) q o).2.
Proof.
  intros Hk Hr Ho. destruct (ring_size k Hk). pose proof (repr_cap _ _ _ Hr).
  destruct o as [v| |src len|dst len| | |]; simpl in Ho |- *; bools.
  - pose proof (kfifo_put_repr k Hk f q v Hr) as H'. case_decide as Hc.
    + rewrite bool_decide_eq_true_2 by done. rewrite H'. simpl. eauto.
    + rewrite bool_decide_eq_false_2 by done. destruct H' as (f'&->&?). simpl. eauto.
  - pose proof (kfifo_get_repr k Hk f q Hr) as H'. destruct q; [rewrite H'; simpl; eauto|].
    destruct H' as (f'&->&?). simpl. eauto.
  - destruct (kfifo_in_repr k Hk f q src len Hr) as (f'&->&?); [lia..|]. simpl. eauto.
  - destruct (kfifo_out_repr k Hk f q dst len Hr) as (f'&->&?); [lia..|]. simpl. eauto.
  - rewrite (repr_len k Hk f q Hr). eauto.
  - unfold kfifo_avail. rewrite (repr_len k Hk f q Hr), (repr_size k Hk f q Hr).
    rewrite u32_small by (unfold in_u32; lia). eauto.
  - eexists. split; [done|]. destruct Hr. split; simpl; try done; lia.
Qed.

Lemma fifo_ops_refines k os f q :
  1 ≤ k ≤ 31 → repr k f q → forallb op_ok os = true →
  ∃ f', fifo_ops f os = Ok ((queue_ops (2 ^ k) q os).1, f') ∧ repr k f' (queue_ops (2 ^ k) q os).2.
Proof.
  intros Hk. revert f q. induction os as [|o os IH]; intros f q Hr Hos; simpl in *; [eauto|]. bools.
  destruct (fifo_op_refines k f q o) as (f1&->&Hr1); [done..|]. simpl.
  destruct (queue_op (2 ^ k) q o) as [a q1]. simpl in *.
  destruct (IH f1 q1) as (f2&->&Hr2); [done..|]. simpl.
  destruct (queue_ops (2 ^ k) q1 os) as [l q2]. simpl in *. eauto.
Qed.

(** C15: a ring refines a bounded queue of bytes.  [kfifo_init] accepts exactly
    the powers of two from 2 up and changes nothing otherwise; from then on any
    sequence of operations - single bytes, bulk transfers that wrap around the
    buffer and around the 32-bit counters, queries and resets - returns
    without fault exactly the answers of a queue of at most [size] bytes. *)
Theorem kfifo_refines_queue f0 buffer size os :
  Z.of_nat (length buffer) = size → in_u32 size → forallb op_ok os = true →
  let '(ret, f) := kfifo_init f0 buffer size in
  if bool_decide (2 ≤ size ∧ size = 2 ^ Z.log2 size)
  then ret = 0 ∧ ∃ f', fifo_ops f os = Ok ((queue_ops size [] os).1, f') ∧
                       repr (Z.log2 size) f' (queue_ops size [] os).2
  else ret = - EINVAL ∧ f = f0.
Proof.
  intros Hb H32 Hos. unfold kfifo_init. destruct (Z.ltb_spec size 2) as [Hs|Hs]; simpl.
  { rewrite bool_decide_eq_false_2 by lia. done. }
  pose proof (power_of_2_spec size Hs H32) as Hp. destruct (IS_POWER_OF_2 size); simpl.
  - destruct Hp as [(k&Hk&->) _]; [done|]. rewrite Z.log2_pow2 by lia.
    rewrite bool_decide_eq_true_2 by lia. split; [done|]. apply fifo_ops_refines; [done| |done].
    destruct (ring_size k Hk). rewrite u32_small by (unfold in_u32; lia).
    split; simpl; try done; lia.
  - rewrite bool_decide_eq_false_2; [done|]. intros [_ He]. destruct Hp as [_ Hp].
    enough (false = true) by done. apply Hp. exists (Z.log2 size). split; [|done].
    split; [apply Z.log2_le_pow2; lia|]. unfold in_u32 in H32.
    assert (Z.log2 size < 32); [apply Z.log2_lt_pow2; lia|lia].
Qed.

Lemma kfifo_refines_queue_witness :
  ∃ f', fifo_ops (kfifo_init (Kfifo 7 7 7 []) [0; 0; 0; 0] 4).2
          [In [1; 2; 3] 3; Get; Get; In [4; 5; 6; 7] 4; Put 8; Out [9; 9; 9; 9] 3; Len] =
        Ok ([ACount 3; AByte (Some 1); AByte (Some 2); ACount 3; ABool false;
             ABytes 3 [3; 4; 5; 9]; ACount 1], f') ∧ repr 2 f' [6].
Proof.
  destruct (kfifo_refines_queue (Kfifo 7 7 7 []) [0; 0; 0; 0] 4
    [In [1; 2; 3] 3; Get; Get; In [4; 5; 6; 7] 4; Put 8; Out [9; 9; 9; 9] 3; Len]) as [_ H].
  - reflexivity.
  - unfold in_u32. lia.
  - reflexivity.
  - exact H.
Defined.

(** ** One producer and one consumer, interleaved

    The producer runs [kfifo_put] and the consumer [kfifo_out], each split at
    its shared accesses: the load of the other side's index, every byte of the
    copy, and the store that publishes.  [written] and [taken] are the history
    of the bytes whose put returned true and of those handed to the reader. *)
Module Spsc.

Inductive producer :=
  | PIdle
  | PLoaded (v in_ out : Z)            (* both indices loaded *)
  | PStored (v in_ : Z).               (* byte stored, [in] not yet published *)

Inductive consumer :=
  | CIdle
  | CCopy (out n : Z) (got : list Z).  (* bytes copied so far of [n] *)

Record state := State {
  ring : kfifo; prod : producer; cons : consumer;
  written : list Z; taken : list Z;
}.

Inductive step : state → state → Prop :=
  | put_load s v : prod s = PIdle →
      step s (State (ring s) (PLoaded v (in_ (ring s)) (out (ring s))) (cons s) (written s) (taken s))
  | put_full s v i o : prod s = PLoaded v i o → u32 (i - o) = kfifo_size (ring s) →
      step s (State (ring s) PIdle (cons s) (written s) (taken s))
  | put_store s v i o d : prod s = PLoaded v i o → u32 (i - o) ≠ kfifo_size (ring s) →
      arr_set (data (ring s)) (Z.to_nat (Z.land i (mask (ring s)))) v = Ok d →
      step s (State (Kfifo (in_ (ring s)) (out (ring s)) (mask (ring s)) d) (PStored v i)
                    (cons s) (written s) (taken s))
  | put_publish s v i : prod s = PStored v i →
      step s (State (Kfifo (u32 (i + 1)) (out (ring s)) (mask (ring s)) (data (ring s))) PIdle
                    (cons s) (written s ++ [v]) (taken s))
  | out_load s len : cons s = CIdle → 0 ≤ len →
      truth (MIN len (u32 (in_ (ring s) - out (ring s)))) = true →
      step s (State (ring s) (prod s)
                (CCopy (out (ring s)) (MIN len (u32 (in_ (ring s) - out (ring s)))) [])
                (written s) (taken s))
  | out_byte s o n got v : cons s = CCopy o n got → Z.of_nat (length got) < n →
      arr_get (data (ring s))
        (Z.to_nat (Z.land (u32 (o + Z.of_nat (length got))) (mask (ring s)))) = Ok v →
      step s (State (ring s) (prod s) (CCopy o n (got ++ [v])) (written s) (taken s))
  | out_publish s o n got : cons s = CCopy o n got → Z.of_nat (length got) = n →
      step s (State (Kfifo (in_ (ring s)) (u32 (o + n)) (mask (ring s)) (data (ring s))) (prod s)
                    CIdle (written s) (taken s ++ got)).

Inductive reachable (s0 : state) : state → Prop :=
  | reach_refl : reachable s0 s0
  | reach_step s s' : reachable s0 s → step s s' → reachable s0 s'.

Definition start (buffer : list Z) (k : Z) : state :=
  State (Kfifo 0 0 (2 ^ k - 1) buffer) PIdle CIdle [] [].

(** [q] is what was written and not yet taken. *)
Record inv (k : Z) (s : state) (q : list Z) : Prop := {
  inv_repr : repr k (ring s) q;
  inv_hist : written s = taken s ++ q;
  inv_prod : match prod s with
    | PIdle => True
    | PLoaded v i o => i = in_ (ring s) ∧
        ∃ b, o = u32 (out (ring s) - Z.of_nat b) ∧ Z.of_nat (b + length q) ≤ 2 ^ k
    | PStored v i => i = in_ (ring s) ∧ Z.of_nat (length q) < 2 ^ k ∧
        data (ring s) !! Z.to_nat (i mod 2 ^ k) = Some v
    end;
  inv_cons : match cons s with
    | CIdle => True
    | CCopy o n got => o = out (ring s) ∧ n ≤ Z.of_nat (length q) ∧ got = take (length got) q
    end;
}.

Section inv.
Context (k : Z) (Hk : 1 ≤ k ≤ 31).

(** Storing the pending byte outside the live window keeps the queue. *)
Lemma store_repr f q v d :
  repr k f q → Z.of_nat (length q) < 2 ^ k →
  arr_set (data f) (Z.to_nat (Z.land (in_ f) (mask f))) v = Ok d →
  repr k (Kfifo (in_ f) (out f) (mask f) d) q ∧ d !! Z.to_nat (in_ f mod 2 ^ k) = Some v.
Proof.
  intros Hr Hq. rewrite (repr_offset k Hk f q Hr). unfold arr_set. case_decide as Hlt; [|done].
  intros [= <-]. destruct (ring_size k Hk).
  pose proof (Z.mod_pos_bound (in_ f) (2 ^ k) ltac:(lia)). split; [|by apply list_lookup_insert_eq].
  pose proof (repr_in_mod k Hk f q Hr) as Him. destruct Hr as [? ? Hd ? Hi ? Hb]. split; simpl; try done.
  - by rewrite length_insert.
  - intros i x Hx. pose proof (lookup_lt_Some _ _ _ Hx). rewrite list_lookup_insert_ne; [by apply Hb|].
    intros Heq. pose proof (Z.mod_pos_bound (out f + Z.of_nat i) (2 ^ k) ltac:(lia)).
    apply Z2Nat.inj in Heq; [|lia..]. rewrite Him in Heq. apply ring_inj in Heq; lia.
Qed.

Lemma publish_repr f q v :
  repr k f q → Z.of_nat (length q) < 2 ^ k → data f !! Z.to_nat (in_ f mod 2 ^ k) = Some v →
  repr k (Kfifo (u32 (in_ f + 1)) (out f) (mask f) (data f)) (q ++ [v]).
Proof.
  intros Hr Hq Hv. apply (repr_append k Hk f q Hr [v]); simpl.
  - lia.
  - apply Hr.
  - intros [|i] x Hx; [|done]. injection Hx as ->. by rewrite Z.add_0_r, <-(repr_in_mod k Hk f q Hr).
  - done.
Qed.

Lemma start_inv buffer : Z.of_nat (length buffer) = 2 ^ k → inv k (start buffer k) [].
Proof. intros Hb. split; simpl; [|done..]. split; simpl; try done; lia. Qed.

Lemma step_inv s s' q : inv k s q → step s s' → ∃ q', inv k s' q'.
Proof.
  intros [Hr Hh Hp Hc] Hs. destruct (ring_size k Hk). pose proof (repr_cap _ _ _ Hr) as Hcap.
  destruct Hs as [s v E|s v i o E Hf|s v i o d E Hf Hd|s v i E|s len E Hl Ht|s o n got v E Hn Hv|s o n got E Hn];
    rewrite E in *; simpl in *.
  - exists q. split; simpl; try done. split; [done|]. exists 0%nat. rewrite Z.sub_0_r. split; [|lia].
    rewrite u32_small; [done|apply Hr].
  - exists q. split; simpl; done.
  - destruct Hp as (->&b&->&Hb).
    rewrite (repr_size k Hk _ _ Hr), (repr_in _ _ _ Hr) in Hf.
    assert (Hlt : Z.of_nat (length q) < 2 ^ k).
    { destruct (decide (b = 0%nat)) as [->|]; [|lia].
      rewrite Z.sub_0_r, (u32_small (out (ring s))) in Hf by apply Hr.
      rewrite (u32_diff) in Hf by lia. lia. }
    destruct (store_repr (ring s) q v d) as [Hr' Hv']; [done..|].
    exists q. split; simpl; done.
  - destruct Hp as (->&Hlt&Hv). exists (q ++ [v]). split; simpl.
    + by apply publish_repr.
    + by rewrite Hh, app_assoc.
    + done.
    + destruct (cons s) as [|o n got]; [done|]. destruct Hc as (?&?&Hg). split_and!; [done| |].
      * rewrite length_app. lia.
      * assert (length got ≤ length q)%nat by (rewrite Hg, length_take; lia).
        by rewrite take_app_le by lia.
  - exists q. split; simpl; try done. split_and!; [done| |done].
    rewrite MIN_spec, (repr_in_out k Hk _ _ Hr). lia.
  - exists q. destruct Hc as (->&Hnq&Hg). split; simpl; try done. split_and!; [done..|].
    rewrite (repr_offset k Hk _ _ Hr), (u32_mod k Hk) in Hv.
    destruct (lookup_lt_is_Some_2 q (length got)) as [x Hx]; [lia|].
    rewrite (arr_get_Ok _ _ _ (repr_bytes _ _ _ Hr _ _ Hx)) in Hv. injection Hv as <-.
    rewrite length_app. simpl. rewrite Nat.add_1_r. erewrite take_S_r by done. by f_equal.
  - destruct Hc as (->&Hnq&Hg). exists (drop (length got) q). subst n. split; simpl.
    + apply (repr_drop k Hk (ring s) q Hr). lia.
    + rewrite Hh, <-app_assoc. f_equal. rewrite Hg at 1. by rewrite take_drop.
    + destruct (prod s) as [|v i o|v i]; [done| |].
      * destruct Hp as (?&b&->&Hb). split; [done|]. exists (b + length got)%nat.
        rewrite length_drop. split; [|lia]. unfold u32, wrap. rewrite Zminus_mod_idemp_l. f_equal. lia.
      * destruct Hp as (?&?&?). rewrite length_drop. split_and!; [done|lia|done].
    + done.
Qed.

Lemma reachable_inv buffer s :
  Z.of_nat (length buffer) = 2 ^ k → reachable (start buffer k) s → ∃ q, inv k s q.
Proof.
  intros Hb. induction 1 as [|s s' _ [q Hq] Hs]; [exists []; by apply start_inv|].
  by eapply step_inv.
Qed.

(** with one producer in [kfifo_put] and one consumer in [kfifo_out],
    interleaved at every shared access, no byte is lost, duplicated, reordered
    or invented: the bytes taken are always a prefix of the bytes written, at
    most a ring's worth is outstanding, what a reader has copied so far is
    exactly the next bytes in order even while the producer runs, and neither
    side is ever stuck on an access outside the buffer. *)
Theorem spsc_fifo buffer s :
  Z.of_nat (length buffer) = 2 ^ k → reachable (start buffer k) s →
  ∃ q, written s = taken s ++ q ∧ Z.of_nat (length q) ≤ 2 ^ k ∧
    kfifo_len (ring s) = Z.of_nat (length q) ∧
    match cons s with
    | CIdle => True
    | CCopy _ n got => n ≤ Z.of_nat (length q) ∧ got = take (length got) q ∧
        (Z.of_nat (length got) < n → ∃ s', step s s' ∧ ∃ v o, cons s' = CCopy o n (got ++ [v]))
    end ∧
    (∀ v i o, prod s = PLoaded v i o → ∃ s', step s s' ∧ (prod s' = PIdle ∨ prod s' = PStored v i)).
Proof.
  intros Hb Hreach. destruct (reachable_inv _ _ Hb Hreach) as [q Hinv].
  destruct Hinv as [Hr Hh Hp Hc]. destruct (ring_size k Hk). exists q. split; [done|].
  split; [apply Hr|]. split; [by apply (repr_len k)|]. split.
  - destruct (cons s) as [|o n got] eqn:E; [done|]. destruct Hc as (->&?&Hg). split_and!; [done..|].
    intros Hlt. destruct (lookup_lt_is_Some_2 q (length got)) as [x Hx]; [lia|].
    eexists. split; [eapply (out_byte s _ n got x E Hlt)|simpl; eauto].
    apply arr_get_Ok. rewrite (repr_offset k Hk _ _ Hr), (u32_mod k Hk).
    by apply (repr_bytes _ _ _ Hr).
  - intros v i o E. rewrite E in Hp. destruct Hp as [-> _].
    destruct (decide (u32 (in_ (ring s) - o) = kfifo_size (ring s))).
    + eexists. split; [by eapply put_full|]. simpl. auto.
    + eexists. split; [eapply put_store; [done|done|]|simpl; auto].
      apply arr_set_Ok. rewrite (repr_offset k Hk _ _ Hr).
      pose proof (Z.mod_pos_bound (in_ (ring s)) (2 ^ k) ltac:(lia)).
      pose proof (repr_data _ _ _ Hr). lia.
Qed.
End inv.

(** A put completed while the reader is in the middle of its copy. *)
Lemma spsc_fifo_witness :
  ∃ s, reachable (start [0; 0] 1) s ∧ written s = [5; 6] ∧ taken s = [] ∧
    cons s = CCopy 0 1 [5] ∧ ∃ q, written s = taken s ++ q ∧ Z.of_nat (length q) ≤ 2 ^ 1.
Proof.
  assert (Hreach : reachable (start [0; 0] 1)
    (State (Kfifo 2 0 1 [5; 6]) PIdle (CCopy 0 1 [5]) [5; 6] [])).
  { eapply reach_step; [|exact (put_publish (State (Kfifo 1 0 1 [5; 6]) (PStored 6 1) (CCopy 0 1 [5]) [5] []) 6 1 eq_refl)].
    eapply reach_step; [|refine (out_byte (State (Kfifo 1 0 1 [5; 6]) (PStored 6 1) (CCopy 0 1 []) [5] []) 0 1 [] 5 eq_refl _ eq_refl); done].
    eapply reach_step; [|refine (put_store (State (Kfifo 1 0 1 [5; 0]) (PLoaded 6 1 0) (CCopy 0 1 []) [5] []) 6 1 0 [5; 6] eq_refl _ eq_refl); done].
    eapply reach_step; [|exact (put_load (State (Kfifo 1 0 1 [5; 0]) PIdle (CCopy 0 1 []) [5] []) 6 eq_refl)].
    eapply reach_step; [|refine (out_load (State (Kfifo 1 0 1 [5; 0]) PIdle CIdle [5] []) 7 eq_refl _ eq_refl); done].
    eapply reach_step; [|exact (put_publish (State (Kfifo 0 0 1 [5; 0]) (PStored 5 0) CIdle [] []) 5 0 eq_refl)].
    eapply reach_step; [|refine (put_store (State (Kfifo 0 0 1 [0; 0]) (PLoaded 5 0 0) CIdle [] []) 5 0 0 [5; 0] eq_refl _ eq_refl); done].
    eapply reach_step; [|exact (put_load (State (Kfifo 0 0 1 [0; 0]) PIdle CIdle [] []) 5 eq_refl)].
    constructor. }
  exists (State (Kfifo 2 0 1 [5; 6]) PIdle (CCopy 0 1 [5]) [5; 6] []).
  split; [exact Hreach|]. split; [done|]. split; [done|]. split; [done|].
  destruct (spsc_fifo 1 ltac:(lia) [0; 0] _ eq_refl Hreach) as (q&Hq&Hl&_). exists q. done.
Defined.
End Spsc.
