(* ===== verification/Elf.v ===== *)
(** * ELF images: [lib/elf.c], [include/nuvix/elf.h], [arch/riscv/include/asm/elf.h]

    The validator of executables.  An image is the list of its bytes; a header
    is read out of it field by field, little endian, and a read outside the
    image faults. *)
From stdpp Require Import base tactics numbers list sets.
From S2P Require Import Prelude.

Definition EI_CLASS : nat := 4.
Definition EI_DATA : nat := 5.
Definition EI_VERSION : nat := 6.
Definition ELFMAG : list Z := [127; 69; 76; 70].
Definition ELFCLASS64 : Z := 2.
Definition ELFDATA2LSB : Z := 1.
Definition EV_CURRENT : Z := 1.
Definition ET_EXEC : Z := 2.
Definition ET_DYN : Z := 3.
Definition PN_XNUM : Z := 0xffff.
Definition PT_LOAD : Z := 1.
Definition PT_DYNAMIC : Z := 2.
Definition PT_INTERP : Z := 3.
Definition PT_SHLIB : Z := 5.
Definition PT_PHDR : Z := 6.
Definition PT_TLS : Z := 7.
Definition PT_GNU_STACK : Z := 0x6474e551.
Definition PT_GNU_RELRO : Z := 0x6474e552.
Definition PF_X : Z := 1.
Definition PF_W : Z := 2.
Definition PF_R : Z := 4.
Definition EM_RISCV : Z := 243.
Definition EF_RISCV_RVC : Z := 1.
Definition EF_RISCV_FLOAT_ABI : Z := 6.
Definition EF_RISCV_FLOAT_ABI_SOFT : Z := 0.
Definition EF_RISCV_FLOAT_ABI_DOUBLE : Z := 4.
Definition SIZEOF_EHDR : Z := 64.
Definition SIZEOF_PHDR : Z := 56.

Record elf64_ehdr := Ehdr {
  e_ident : list Z; e_type : Z; e_machine : Z; e_version : Z; e_entry : Z;
  e_phoff : Z; e_shoff : Z; e_flags : Z; e_ehsize : Z; e_phentsize : Z;
  e_phnum : Z; e_shentsize : Z; e_shnum : Z; e_shstrndx : Z;
}.

Record elf64_phdr := Phdr {
  p_type : Z; p_flags : Z; p_offset : Z; p_vaddr : Z; p_paddr : Z;
  p_filesz : Z; p_memsz : Z; p_align : Z;
}.

(** ** Reading headers *)

Fixpoint le_value (l : list Z) : Z :=
  match l with [] => 0 | b :: l => b + 256 * le_value l end.

(** [n] bytes at [off]. *)
Definition bytes_at (data : list Z) (off : Z) (n : nat) : res (list Z) :=
  if (0 <=? off) && (off + Z.of_nat n <=? Z.of_nat (length data))
  then Ok (take n (drop (Z.to_nat off) data)) else Fault.

Definition field (bytes : list Z) (off n : nat) : Z := le_value (take n (drop off bytes)).

Definition decode_ehdr (b : list Z) : elf64_ehdr :=
  Ehdr (take 16 b) (field b 16 2) (field b 18 2) (field b 20 4) (field b 24 8)
       (field b 32 8) (field b 40 8) (field b 48 4) (field b 52 2) (field b 54 2)
       (field b 56 2) (field b 58 2) (field b 60 2) (field b 62 2).

Definition decode_phdr (b : list Z) : elf64_phdr :=
  Phdr (field b 0 4) (field b 4 4) (field b 8 8) (field b 16 8) (field b 24 8)
       (field b 32 8) (field b 40 8) (field b 48 8).

Definition load_ehdr (data : list Z) (off : Z) : res elf64_ehdr :=
  let! b := bytes_at data off 64 in Ok (decode_ehdr b).
Definition load_phdr (data : list Z) (off : Z) : res elf64_phdr :=
  let! b := bytes_at data off 56 in Ok (decode_phdr b).

Record elf_image := Image { data : list Z; size : Z; ehdr : elf64_ehdr }.

(** ** Validation *)

Section elf.
Context (CONFIG_FPU : bool).

Definition elf_check_arch (h : elf64_ehdr) : bool :=
  let float_abi := Z.land (e_flags h) EF_RISCV_FLOAT_ABI in
  if (if CONFIG_FPU then float_abi >? EF_RISCV_FLOAT_ABI_DOUBLE
      else negb (float_abi =? EF_RISCV_FLOAT_ABI_SOFT)) then false else
  (e_machine h =? EM_RISCV) &&
  (nth EI_CLASS (e_ident h) 0 =? ELFCLASS64) &&
  (nth EI_DATA (e_ident h) 0 =? ELFDATA2LSB) &&
  negb (truth (Z.land (e_flags h) (not32 (Z.lor EF_RISCV_RVC EF_RISCV_FLOAT_ABI)))).

Definition file_range_valid (limit offset length : Z) : bool :=
  (offset <=? limit) && (length <=? u64 (limit - offset)).

Definition RWX : Z := Z.lor PF_R (Z.lor PF_W PF_X).

Definition segment_valid (file_limit : Z) (phdr : elf64_phdr) : bool :=
  if (p_filesz phdr >? p_memsz phdr) ||
     negb (file_range_valid file_limit (p_offset phdr) (p_filesz phdr)) ||
     (p_memsz phdr >? u64 (UINT64_MAX - p_vaddr phdr)) ||
     truth (Z.land (p_flags phdr) (not32 RWX)) then false else
  if p_align phdr >? 1 then
    let mask := u64 (p_align phdr - 1) in
    negb (truth (Z.land (p_align phdr) mask) ||
          negb (Z.land (p_vaddr phdr) mask =? Z.land (p_offset phdr) mask))
  else true.

Definition elf_check_ehdr (h : elf64_ehdr) (file_limit : Z) : Z :=
  if negb (bool_decide (take 4 (e_ident h) = ELFMAG)) || negb (elf_check_arch h) ||
     negb (nth EI_VERSION (e_ident h) 0 =? EV_CURRENT) ||
     negb (e_version h =? EV_CURRENT) ||
     (negb (e_type h =? ET_EXEC) && negb (e_type h =? ET_DYN)) ||
     negb (e_ehsize h =? SIZEOF_EHDR) ||
     negb (e_phentsize h =? SIZEOF_PHDR) || negb (truth (e_phnum h)) ||
     (e_phnum h =? PN_XNUM) || (e_phoff h <? SIZEOF_EHDR)
  then - ENOEXEC else
  let phsize := u64 (e_phnum h * SIZEOF_PHDR) in
  if negb (file_range_valid file_limit (e_phoff h) phsize) then - ENOEXEC else 0.

Definition checked_type (t : Z) : bool :=
  (t =? PT_DYNAMIC) || (t =? PT_LOAD) || (t =? PT_PHDR) || (t =? PT_TLS) || (t =? PT_GNU_RELRO).

(** The loop of [elf_check_phdrs]; [n] headers from [i] on are left. *)
Fixpoint check_phdrs_loop (n : nat) (h : elf64_ehdr) (phdrs : Z → res elf64_phdr)
    (file_limit i load_end : Z) (have_entry have_load : bool) : res Z :=
  match n with
  | O => Ok (if negb have_entry then - ENOEXEC else 0)
  | S n' =>
      let phsize := u64 (e_phnum h * SIZEOF_PHDR) in
      let! phdr := phdrs i in
      let next := check_phdrs_loop n' h phdrs file_limit (i + 1) in
      if checked_type (p_type phdr) && negb (segment_valid file_limit phdr) then Ok (- ENOEXEC) else
      if (p_type phdr =? PT_INTERP) || (p_type phdr =? PT_SHLIB) then Ok (- ENOEXEC) else
      if p_type phdr =? PT_LOAD then
        if have_load && (p_vaddr phdr <? load_end) then Ok (- ENOEXEC) else
        next (u64 (p_vaddr phdr + p_memsz phdr))
          (if truth (Z.land (p_flags phdr) PF_X) && (e_entry h >=? p_vaddr phdr) &&
              (u64 (e_entry h - p_vaddr phdr) <? p_memsz phdr) then true else have_entry) true
      else if p_type phdr =? PT_PHDR then
        if have_load || negb (p_offset phdr =? e_phoff h) || negb (p_filesz phdr =? phsize) ||
           negb (p_memsz phdr =? phsize) then Ok (- ENOEXEC) else
        next load_end have_entry have_load
      else if p_type phdr =? PT_GNU_STACK then
        if truth (Z.land (p_flags phdr) PF_X) || truth (Z.land (p_flags phdr) (not32 RWX))
        then Ok (- ENOEXEC) else next load_end have_entry have_load
      else next load_end have_entry have_load
  end.

(** [phdrs] is a pointer [off] bytes into [image]. *)
Definition elf_check_phdrs (h : elf64_ehdr) (image : list Z) (off file_limit : Z) : res Z :=
  check_phdrs_loop (Z.to_nat (e_phnum h)) h
    (λ i, load_phdr image (off + i * SIZEOF_PHDR)) file_limit 0 0 false false.

(** Returns the status and the image stored to [*image], if any. *)
Definition elf_parse (d : option (list Z)) (sz : Z) : res (Z * option elf_image) :=
  match d with
  | None => Ok (- EINVAL, None)
  | Some d =>
      if sz <? SIZEOF_EHDR then Ok (- ENOEXEC, None) else
      let! h := load_ehdr d 0 in
      let ret := elf_check_ehdr h sz in
      if truth ret then Ok (ret, None) else
      let! ret := elf_check_phdrs h d (e_phoff h) sz in
      if truth ret then Ok (ret, None) else
      Ok (0, Some (Image d sz h))
  end.

Definition elf_get_phdr (image : option elf_image) (index : Z) : res (Z * option elf64_phdr) :=
  match image with
  | None => Ok (- EINVAL, None)
  | Some im =>
      if index >=? e_phnum (ehdr im) then Ok (- EINVAL, None) else
      let! p := load_phdr (data im) (e_phoff (ehdr im) + index * SIZEOF_PHDR) in
      Ok (0, Some p)
  end.


(** ** What a valid program is *)

Definition is_load (p : elf64_phdr) : bool := p_type p =? PT_LOAD.

(** A segment that the loader will look at. *)
Record segment_ok (limit : Z) (p : elf64_phdr) : Prop := {
  seg_size : p_filesz p ≤ p_memsz p;
  seg_file : p_offset p + p_filesz p ≤ limit;
  seg_space : p_vaddr p + p_memsz p ≤ UINT64_MAX;
  seg_flags : p_flags p < 8;
  seg_align : 1 < p_align p → (∃ k, 1 ≤ k ∧ p_align p = 2 ^ k) ∧
    p_vaddr p mod p_align p = p_offset p mod p_align p;
}.

Definition holds_entry (h : elf64_ehdr) (p : elf64_phdr) : Prop :=
  p_type p = PT_LOAD ∧ Z.testbit (p_flags p) 0 = true ∧
  p_vaddr p ≤ e_entry h < p_vaddr p + p_memsz p.

(** One header, after [seen] (has a load segment come before it?). *)
Definition phdr_ok (h : elf64_ehdr) (limit : Z) (seen : bool) (p : elf64_phdr) : Prop :=
  p_type p ≠ PT_INTERP ∧ p_type p ≠ PT_SHLIB ∧
  (checked_type (p_type p) = true → segment_ok limit p) ∧
  (p_type p = PT_PHDR → seen = false ∧ p_offset p = e_phoff h ∧
     p_filesz p = e_phnum h * SIZEOF_PHDR ∧ p_memsz p = e_phnum h * SIZEOF_PHDR) ∧
  (p_type p = PT_GNU_STACK → Z.testbit (p_flags p) 0 = false ∧ p_flags p < 8).

Definition below (p q : elf64_phdr) : Prop := p_vaddr p + p_memsz p ≤ p_vaddr q.

(** The program headers of an acceptable executable. *)
Record program_ok (h : elf64_ehdr) (limit : Z) (ps : list elf64_phdr) : Prop := {
  prog_phdrs : ∀ l p l', ps = l ++ p :: l' → phdr_ok h limit (existsb is_load l) p;
  prog_loads : ∀ l p l' q l'', ps = l ++ p :: l' ++ q :: l'' →
    is_load p = true → is_load q = true → below p q;
  prog_entry : ∃ p, p ∈ ps ∧ holds_entry h p;
}.

Record header_ok (h : elf64_ehdr) (limit : Z) : Prop := {
  hdr_magic : take 4 (e_ident h) = ELFMAG;
  hdr_class : nth EI_CLASS (e_ident h) 0 = ELFCLASS64;
  hdr_data : nth EI_DATA (e_ident h) 0 = ELFDATA2LSB;
  hdr_ident_version : nth EI_VERSION (e_ident h) 0 = EV_CURRENT;
  hdr_version : e_version h = EV_CURRENT;
  hdr_machine : e_machine h = EM_RISCV;
  hdr_flags : e_flags h ≤ if CONFIG_FPU then 5 else 1;
  hdr_type : e_type h = ET_EXEC ∨ e_type h = ET_DYN;
  hdr_ehsize : e_ehsize h = SIZEOF_EHDR;
  hdr_phentsize : e_phentsize h = SIZEOF_PHDR;
  hdr_phnum : 0 < e_phnum h < PN_XNUM;
  hdr_phoff : SIZEOF_EHDR ≤ e_phoff h;
  hdr_table : e_phoff h + e_phnum h * SIZEOF_PHDR ≤ limit;
}.

Definition phdr_at (d : list Z) (h : elf64_ehdr) (i : nat) : elf64_phdr :=
  decode_phdr (take 56 (drop (Z.to_nat (e_phoff h + Z.of_nat i * SIZEOF_PHDR)) d)).
Definition phdrs_of (d : list Z) (h : elf64_ehdr) : list elf64_phdr :=
  phdr_at d h <$> seq 0 (Z.to_nat (e_phnum h)).

Definition executable (d : list Z) : Prop :=
  SIZEOF_EHDR ≤ Z.of_nat (length d) ∧
  let h := decode_ehdr (take 64 d) in
  header_ok h (Z.of_nat (length d)) ∧ program_ok h (Z.of_nat (length d)) (phdrs_of d h).

(** ** Fields are in range *)

Definition byte (b : Z) : Prop := 0 ≤ b < 256.

Lemma le_value_range l : Forall byte l → 0 ≤ le_value l < 256 ^ Z.of_nat (length l).
Proof.
  induction 1 as [|b l Hb Hl IH]; simpl le_value; simpl length; [done|].
  rewrite Nat2Z.inj_succ, Z.pow_succ_r by lia. unfold byte in Hb. lia.
Qed.

Lemma field_range b off n : Forall byte b → 0 ≤ field b off n < 256 ^ Z.of_nat n.
Proof.
  intros Hb. unfold field.
  pose proof (le_value_range (take n (drop off b)) ltac:(by apply Forall_take, Forall_drop)) as [? H].
  split; [done|]. eapply Z.lt_le_trans; [exact H|]. apply Z.pow_le_mono_r; [lia|].
  rewrite length_take. lia.
Qed.

Record phdr_range (p : elf64_phdr) : Prop := {
  rng_type : in_u32 (p_type p); rng_flags : in_u32 (p_flags p);
  rng_offset : in_u64 (p_offset p); rng_vaddr : in_u64 (p_vaddr p);
  rng_filesz : in_u64 (p_filesz p); rng_memsz : in_u64 (p_memsz p); rng_align : in_u64 (p_align p);
}.

Lemma decode_phdr_range b : Forall byte b → phdr_range (decode_phdr b).
Proof. intros Hb. split; simpl; (apply (field_range b _ 4 Hb) || apply (field_range b _ 8 Hb)). Qed.

Lemma flags_rwx x : in_u32 x → truth (Z.land x (not32 RWX)) = negb (x <? 8).
Proof.
  intros Hx. unfold truth. change RWX with (2 ^ 3 - 1). rewrite land_not32_mask by (done || lia).
  change (2 ^ 3) with 8. unfold in_u32 in Hx.
  destruct (Z.ltb_spec x 8).
  - rewrite Z.mod_small by lia. by rewrite Z.sub_diag.
  - simpl. apply negb_true_iff, Z.eqb_neq. pose proof (Z.mod_pos_bound x 8). lia.
Qed.

Lemma file_range_spec limit off len :
  0 ≤ limit < 2 ^ 64 → 0 ≤ off → 0 ≤ len → file_range_valid limit off len = true ↔ off + len ≤ limit.
Proof.
  intros. unfold file_range_valid. rewrite andb_true_iff, !Z.leb_le.
  destruct (decide (off ≤ limit)); [|lia]. rewrite u64_small by (unfold in_u64; lia). lia.
Qed.

Lemma segment_valid_spec limit p :
  0 ≤ limit < 2 ^ 64 → phdr_range p → segment_valid limit p = true ↔ segment_ok limit p.
Proof.
  intros Hl [? ? ? ? ? ? ?]. unfold segment_valid, in_u64 in *.
  pose proof (file_range_spec limit (p_offset p) (p_filesz p)) as Hf.
  rewrite flags_rwx, (u64_small (UINT64_MAX - _)) by (done || unfold UINT64_MAX, in_u64; lia).
  assert (Ha : 1 < p_align p →
    negb (truth (Z.land (p_align p) (u64 (p_align p - 1))) ||
      negb (Z.land (p_vaddr p) (u64 (p_align p - 1)) =? Z.land (p_offset p) (u64 (p_align p - 1)))) = true ↔
    (∃ k, 1 ≤ k ∧ p_align p = 2 ^ k) ∧ p_vaddr p mod p_align p = p_offset p mod p_align p).
  { intros Hgt. rewrite u64_small by (unfold in_u64; lia).
    rewrite negb_orb, andb_true_iff, negb_involutive, Z.eqb_eq. unfold truth.
    rewrite negb_involutive, Z.eqb_eq. rewrite land_pred_pow2 by lia.
    split; intros [(k&Hk&He) Hm]; (split; [by exists k|]); revert Hm;
      rewrite He, !land_pow2_mask by lia; done. }
  rewrite !Z.gtb_ltb. destruct (Z.ltb_spec (p_memsz p) (p_filesz p)); cbn [orb].
  { split; [done|]. intros []. lia. }
  destruct (file_range_valid _ _ _); cbn [orb negb].
  2:{ split; [done|]. intros []. enough (false = true) by done. apply Hf; lia. }
  destruct (Z.ltb_spec (UINT64_MAX - p_vaddr p) (p_memsz p)); cbn [orb].
  { split; [done|]. intros []. lia. }
  destruct (Z.ltb_spec (p_flags p) 8); cbn [negb].
  2:{ split; [done|]. intros []. lia. }
  destruct (Z.ltb_spec 1 (p_align p)).
  - rewrite Ha by done. split; [|intros [? ? ? ? Hal]; auto]. intros ?. split; (lia || done || (apply Hf; lia)).
  - split; [|done]. intros _. split; (lia || (apply Hf; lia)).
Qed.

(** ** The program-header loop *)

(** What the loop still demands of the headers [ps], given its variables. *)
Record rest_ok (h : elf64_ehdr) (limit load_end : Z) (entry seen : bool) (ps : list elf64_phdr) : Prop := {
  rest_phdrs : ∀ l p l', ps = l ++ p :: l' → phdr_ok h limit (seen || existsb is_load l) p;
  rest_first : ∀ l p l', ps = l ++ p :: l' → seen = true → is_load p = true → load_end ≤ p_vaddr p;
  rest_loads : ∀ l p l' q l'', ps = l ++ p :: l' ++ q :: l'' →
    is_load p = true → is_load q = true → below p q;
  rest_entry : entry = true ∨ ∃ p, p ∈ ps ∧ holds_entry h p;
}.

Lemma rest_ok_nil h limit e entry seen : rest_ok h limit e entry seen [] ↔ entry = true.
Proof.
  split; [intros [_ _ _ [?|(p&Hp&_)]]; [done|by apply elem_of_nil in Hp]|].
  intros ->. split; [intros [] ? ?; done..|by left].
Qed.

Definition enters (h : elf64_ehdr) (p : elf64_phdr) : bool :=
  is_load p && truth (Z.land (p_flags p) PF_X) && (e_entry h >=? p_vaddr p) &&
  (u64 (e_entry h - p_vaddr p) <? p_memsz p).

Lemma enters_spec h p : in_u64 (e_entry h) → phdr_range p → enters h p = true ↔ holds_entry h p.
Proof.
  intros He Hp. unfold enters, holds_entry, is_load.
  change PF_X with (BIT 0). rewrite truth_land_BIT by lia.
  rewrite !andb_true_iff, Z.eqb_eq, Z.geb_le, Z.ltb_lt.
  destruct (decide (p_vaddr p ≤ e_entry h)).
  - destruct Hp. rewrite u64_small by (unfold in_u64 in *; lia). intuition lia.
  - intuition lia.
Qed.

Lemma rest_ok_cons h limit e entry seen p ps :
  in_u64 (e_entry h) → phdr_range p →
  rest_ok h limit e entry seen (p :: ps) ↔
  phdr_ok h limit seen p ∧ (seen = true → is_load p = true → e ≤ p_vaddr p) ∧
  rest_ok h limit (if is_load p then u64 (p_vaddr p + p_memsz p) else e)
    (if enters h p then true else entry) (seen || is_load p) ps.
Proof.
  intros Hent Hp. split.
  - intros [H1 H2 H3 H4]. assert (Hpp : phdr_ok h limit seen p).
    { specialize (H1 [] p ps eq_refl). simpl in H1. by rewrite orb_false_r in H1. }
    assert (Hld : is_load p = true → p_vaddr p + p_memsz p ≤ UINT64_MAX).
    { intros Hl. destruct Hpp as (_&_&Hseg&_). apply Hseg. unfold is_load in Hl.
      apply Z.eqb_eq in Hl. by rewrite Hl. }
    split; [done|]. split; [by apply (H2 [] p ps)|]. split.
    + intros l q l' ->. specialize (H1 (p :: l) q l' eq_refl). simpl in H1. by rewrite orb_assoc in H1.
    + intros l q l' -> Hs Hq. destruct (is_load p) eqn:Hl.
      * rewrite u64_small by (specialize (Hld eq_refl); destruct Hp; unfold in_u64, UINT64_MAX in *; lia).
        by apply (H3 [] p l q l').
      * rewrite orb_false_r in Hs. by apply (H2 (p :: l) q l').
    + intros l a l' b l'' ->. apply (H3 (p :: l) a l' b l''). done.
    + destruct (enters h p) eqn:He; [by left|]. destruct H4 as [->|(q&Hq&Hh)]; [by left|].
      apply elem_of_cons in Hq as [->|Hq]; [|right; eauto].
      apply enters_spec in Hh; [congruence|done..].
  - intros (Hpp&Hfirst&[H1 H2 H3 H4]).
    assert (Hld : is_load p = true → p_vaddr p + p_memsz p ≤ UINT64_MAX).
    { intros Hl. destruct Hpp as (_&_&Hseg&_). apply Hseg. unfold is_load in Hl.
      apply Z.eqb_eq in Hl. by rewrite Hl. }
    split.
    + intros [|x l] q l' [= <- ->]; simpl; [by rewrite orb_false_r|].
      specialize (H1 l q l' eq_refl). by rewrite orb_assoc.
    + intros [|x l] q l' [= <- ->] Hs Hq; [by apply Hfirst|].
      specialize (H2 l q l' eq_refl). rewrite Hs in H2. specialize (H2 eq_refl Hq).
      destruct (is_load p) eqn:Hl; [|done]. specialize (Hfirst Hs eq_refl). specialize (Hld eq_refl).
      rewrite u64_small in H2 by (destruct Hp; unfold in_u64, UINT64_MAX in *; lia).
      destruct Hp. unfold in_u64 in *. lia.
    + intros [|x l] a l' b l'' [= <- ->] Ha Hb; [|by apply (H3 l a l' b l'')].
      specialize (H2 l' b l'' eq_refl). rewrite Ha, orb_true_r in H2. specialize (H2 eq_refl Hb).
      rewrite u64_small in H2 by (specialize (Hld Ha); destruct Hp; unfold in_u64, UINT64_MAX in *; lia).
      done.
    + destruct H4 as [He|(q&Hq&Hh)]; [|right; exists q; split; [by right|done]].
      destruct (enters h p) eqn:Hen; [|by left]. right. exists p. split; [by left|].
      by apply enters_spec.
Qed.

(** The conditions under which the loop goes on past a header. *)
Definition accepts (h : elf64_ehdr) (limit e : Z) (seen : bool) (p : elf64_phdr) : bool :=
  let phsize := u64 (e_phnum h * SIZEOF_PHDR) in
  negb (checked_type (p_type p) && negb (segment_valid limit p)) &&
  negb ((p_type p =? PT_INTERP) || (p_type p =? PT_SHLIB)) &&
  negb (is_load p && (seen && (p_vaddr p <? e))) &&
  negb ((p_type p =? PT_PHDR) && (seen || negb (p_offset p =? e_phoff h) ||
     negb (p_filesz p =? phsize) || negb (p_memsz p =? phsize))) &&
  negb ((p_type p =? PT_GNU_STACK) &&
     (truth (Z.land (p_flags p) PF_X) || truth (Z.land (p_flags p) (not32 RWX)))).

Lemma loop_step n h phdrs limit i e entry seen p :
  phdrs i = Ok p →
  check_phdrs_loop (S n) h phdrs limit i e entry seen =
  if accepts h limit e seen p then
    check_phdrs_loop n h phdrs limit (i + 1) (if is_load p then u64 (p_vaddr p + p_memsz p) else e)
      (if enters h p then true else entry) (seen || is_load p)
  else Ok (- ENOEXEC).
Proof.
  intros Hp. cbn [check_phdrs_loop]. rewrite Hp. cbn [res_bind]. unfold accepts, enters, is_load.
  destruct (checked_type (p_type p) && negb (segment_valid limit p)); [done|].
  destruct ((p_type p =? PT_INTERP) || (p_type p =? PT_SHLIB)); [done|]. cbn [negb andb].
  destruct (Z.eqb_spec (p_type p) PT_LOAD) as [->|].
  { change (PT_LOAD =? PT_PHDR) with false. change (PT_LOAD =? PT_GNU_STACK) with false.
    rewrite orb_true_r. cbn [andb negb]. rewrite !andb_true_r.
    by destruct (seen && (p_vaddr p <? e)). }
  cbn [andb negb]. rewrite orb_false_r. destruct (Z.eqb_spec (p_type p) PT_PHDR) as [->|].
  { change (PT_PHDR =? PT_GNU_STACK) with false. cbn [andb negb]. rewrite andb_true_r.
    by destruct (_ || _). }
  cbn [andb negb]. destruct (p_type p =? PT_GNU_STACK); [|done].
  cbn [andb negb]. by destruct (_ || _).
Qed.

Lemma impl_spec (a b : bool) : negb (a && negb b) = true ↔ (a = true → b = true).
Proof. destruct a, b; naive_solver. Qed.

Lemma accepts_spec h limit e seen p :
  0 ≤ limit < 2 ^ 64 → phdr_range p → 0 ≤ e_phnum h < 2 ^ 16 →
  accepts h limit e seen p = true ↔
  phdr_ok h limit seen p ∧ (seen = true → is_load p = true → e ≤ p_vaddr p).
Proof.
  intros Hl Hp Hn. unfold accepts, phdr_ok. rewrite flags_rwx by apply Hp.
  change PF_X with (BIT 0). rewrite truth_land_BIT by lia.
  rewrite u64_small by (unfold in_u64, SIZEOF_PHDR; lia).
  rewrite !andb_true_iff, impl_spec, segment_valid_spec by done.
  rewrite negb_orb, andb_true_iff, !negb_true_iff, !Z.eqb_neq.
  assert (∀ a b : bool, a && b = false ↔ (a = true → b = false)) as Himp by (intros [] []; naive_solver).
  rewrite !Himp, !orb_false_iff, !negb_false_iff, !Z.eqb_eq, !Z.ltb_ge, Z.ltb_lt. intuition auto.
Qed.

Lemma check_phdrs_loop_spec ps h phdrs limit i e entry seen :
  0 ≤ limit < 2 ^ 64 → in_u64 (e_entry h) → 0 ≤ e_phnum h < 2 ^ 16 → Forall phdr_range ps →
  (∀ j p, ps !! j = Some p → phdrs (i + Z.of_nat j) = Ok p) →
  ∃ r, check_phdrs_loop (length ps) h phdrs limit i e entry seen = Ok r ∧
    (r = 0 ∨ r = - ENOEXEC) ∧ (r = 0 ↔ rest_ok h limit e entry seen ps).
Proof.
  intros Hl He Hn. revert i e entry seen. induction ps as [|p ps IH]; intros i e entry seen Hr Hps.
  { simpl. exists (if negb entry then - ENOEXEC else 0). rewrite rest_ok_nil.
    destruct entry; simpl; (split; [done|split; [auto|done]]). }
  inversion Hr; subst. simpl length.
  assert (Hp : phdrs i = Ok p) by (specialize (Hps 0%nat p eq_refl); by rewrite Z.add_0_r in Hps).
  rewrite (loop_step _ h phdrs limit i e entry seen p Hp).
  pose proof (accepts_spec h limit e seen p) as Ha.
  destruct (accepts h limit e seen p).
  - destruct (IH (i + 1) (if is_load p then u64 (p_vaddr p + p_memsz p) else e)
      (if enters h p then true else entry) (seen || is_load p)) as (r&Hok&Hr0&Hiff); [done| |].
    { intros j q Hq. replace (i + 1 + Z.of_nat j) with (i + Z.of_nat (S j)) by lia. by apply Hps. }
    exists r. rewrite rest_ok_cons by done. split; [done|]. split; [done|]. rewrite Hiff. intuition auto.
  - exists (- ENOEXEC). rewrite rest_ok_cons by done.
    split; [done|]. split; [by right|]. split; [done|].
    intros (?&?&_). enough (false = true) by done. apply Ha; auto.
Qed.

Lemma program_ok_rest h limit ps : rest_ok h limit 0 false false ps ↔ program_ok h limit ps.
Proof.
  split.
  - intros [H1 _ H3 [?|H4]]; [done|]. by split.
  - intros [H1 H3 H4]. split; [done|done|done|by right].
Qed.

(** ** The headers and the whole image *)

Lemma elf_check_ehdr_spec h limit :
  0 ≤ limit < 2 ^ 64 → in_u32 (e_flags h) → in_u64 (e_phoff h) → 0 ≤ e_phnum h < 2 ^ 16 →
  (elf_check_ehdr h limit = 0 ∨ elf_check_ehdr h limit = - ENOEXEC) ∧
  (elf_check_ehdr h limit = 0 ↔ header_ok h limit).
Proof.
  intros Hl Hf Hp Hn. unfold elf_check_ehdr.
  assert (Harch : elf_check_arch h = true ↔
    e_machine h = EM_RISCV ∧ nth EI_CLASS (e_ident h) 0 = ELFCLASS64 ∧
    nth EI_DATA (e_ident h) 0 = ELFDATA2LSB ∧ e_flags h ≤ if CONFIG_FPU then 5 else 1).
  { unfold elf_check_arch. rewrite flags_rwx by done. rewrite negb_involutive.
    assert (Hcase : e_flags h < 8 → e_flags h ∈ [0; 1; 2; 3; 4; 5; 6; 7]).
    { intros ?. unfold in_u32 in Hf. assert (e_flags h = 0 ∨ e_flags h = 1 ∨ e_flags h = 2 ∨ e_flags h = 3 ∨
        e_flags h = 4 ∨ e_flags h = 5 ∨ e_flags h = 6 ∨ e_flags h = 7) as Hc by lia. set_solver. }
    destruct (Z.ltb_spec (e_flags h) 8) as [H8|H8].
    2:{ rewrite andb_false_r. split; [by destruct (if CONFIG_FPU then _ else _)|].
        intros (_&_&_&?). destruct CONFIG_FPU; lia. }
    specialize (Hcase H8). rewrite andb_true_r.
    repeat (apply elem_of_cons in Hcase as [->|Hcase]; [destruct CONFIG_FPU; simpl;
      rewrite ?andb_true_iff, ?Z.eqb_eq; intuition (done || lia)|]). by apply elem_of_nil in Hcase. }
  pose proof (file_range_spec limit (e_phoff h) (e_phnum h * SIZEOF_PHDR)) as Hrange.
  unfold in_u64 in Hp. assert (0 ≤ e_phnum h * SIZEOF_PHDR) by (unfold SIZEOF_PHDR; lia).
  specialize (Hrange Hl ltac:(lia) ltac:(lia)).
  rewrite (u64_small (e_phnum h * _)) by (unfold in_u64, SIZEOF_PHDR; lia).
  destruct (_ || (e_phoff h <? SIZEOF_EHDR)) eqn:Hc.
  - split; [by right|]. split; [done|]. intros Hok. exfalso. revert Hc. destruct Hok as [M C D V1 V2 Mc Fl T Es Ps Nm Of Tb].
    replace (elf_check_arch h) with true by (symmetry; apply Harch; auto).
    rewrite bool_decide_eq_true_2, V1, V2, Es, Ps by done. unfold truth, PN_XNUM in *.
    replace (e_phnum h =? 0) with false by lia. replace (e_phnum h =? 65535) with false by lia.
    replace (e_phoff h <? SIZEOF_EHDR) with false by lia.
    destruct T as [-> | ->]; done.
  - bools. rewrite bool_decide_eq_true in *. destruct (file_range_valid _ _ _) eqn:Hfr; cbn [negb].
    + split; [by left|]. split; [intros _|done]. destruct Hrange as [Hrange _]. specialize (Hrange eq_refl).
      destruct Harch as [(?&?&?&?) _]; [done|]. unfold truth, PN_XNUM in *. bools.
      split; try done; [|unfold PN_XNUM; lia]. destruct (Z.eqb_spec (e_type h) ET_EXEC); [by left|right].
      destruct (Z.eqb_spec (e_type h) ET_DYN); [done|discriminate].
    + split; [by right|]. split; [done|]. intros []. enough (false = true) by done.
      by apply Hrange.
Qed.

Lemma load_at d off n b :
  bytes_at d off n = Ok b ↔
  0 ≤ off ∧ off + Z.of_nat n ≤ Z.of_nat (length d) ∧ b = take n (drop (Z.to_nat off) d).
Proof.
  unfold bytes_at. destruct (Z.leb_spec 0 off); simpl; [|split; [done|lia]].
  destruct (Z.leb_spec (off + Z.of_nat n) (Z.of_nat (length d))); simpl; [|split; [done|lia]].
  split; [by intros [= <-]|]. by intros (_&_&->).
Qed.

Lemma load_phdr_at d h i :
  0 ≤ e_phoff h → e_phoff h + (Z.of_nat i + 1) * SIZEOF_PHDR ≤ Z.of_nat (length d) →
  load_phdr d (e_phoff h + Z.of_nat i * SIZEOF_PHDR) = Ok (phdr_at d h i).
Proof.
  intros H0 Hi. unfold load_phdr, SIZEOF_PHDR in *.
  assert (Hb : bytes_at d (e_phoff h + Z.of_nat i * 56) 56 =
    Ok (take 56 (drop (Z.to_nat (e_phoff h + Z.of_nat i * 56)) d))) by (apply load_at; split_and!; [lia|lia|done]).
  by rewrite Hb.
Qed.

(** C14: [elf_parse] accepts exactly the well-formed RISC-V executables and
    never reads outside the file.  On any byte string it returns 0 or
    -ENOEXEC, and 0 exactly when the file is [executable]: the identification,
    machine and flags are supported, the program-header table lies in the file,
    every segment's bytes lie in the file and its memory in the address space
    with congruent alignment, load segments are in ascending address order
    without overlap, there is no interpreter, the stack is not executable and
    the entry point lies in an executable load segment.  After success
    [elf_get_phdr] returns every header of the table. *)
Theorem elf_parse_spec d :
  Forall byte d → Z.of_nat (length d) < 2 ^ 64 →
  ∃ ret im, elf_parse (Some d) (Z.of_nat (length d)) = Ok (ret, im) ∧
    ((ret = 0 ∧ executable d ∧ ∃ image, im = Some image ∧
        ∀ i, 0 ≤ i < e_phnum (ehdr image) →
          elf_get_phdr im i = Ok (0, Some (phdr_at d (ehdr image) (Z.to_nat i)))) ∨
     (ret = - ENOEXEC ∧ ¬ executable d ∧ im = None)).
Proof.
  intros Hb Hlen. unfold elf_parse, executable. set (L := Z.of_nat (length d)) in *.
  destruct (Z.ltb_spec L SIZEOF_EHDR) as [Hs|Hs].
  { do 2 eexists. split; [done|]. right. split; [done|]. split; [|done]. intros [? _]. lia. }
  unfold SIZEOF_EHDR in Hs. unfold load_ehdr.
  assert (Hat : bytes_at d 0 64 = Ok (take 64 d)) by (apply load_at; split_and!; [lia|lia|done]).
  rewrite Hat. cbn [res_bind]. set (h := decode_ehdr (take 64 d)).
  assert (Hb64 : Forall byte (take 64 d)) by by apply Forall_take.
  destruct (elf_check_ehdr_spec h L) as [Hr Hiff];
    [lia|apply (field_range _ _ 4 Hb64)|apply (field_range _ _ 8 Hb64)|apply (field_range _ _ 2 Hb64)|].
  destruct Hr as [Hr|Hr]; rewrite Hr; cbn [truth].
  2:{ do 2 eexists. split; [done|]. right. split; [done|]. split; [|done]. intros (_&Hh&_).
      apply Hiff in Hh. rewrite Hr in Hh. done. }
  change (truth 0) with false. cbn iota. apply Hiff in Hr as Hh.
  assert (Hlp : length (phdrs_of d h) = Z.to_nat (e_phnum h))
    by (unfold phdrs_of; by rewrite length_fmap, length_seq).
  unfold elf_check_phdrs. rewrite <-Hlp.
  pose proof (hdr_table _ _ Hh) as Htab. pose proof (hdr_phoff _ _ Hh) as Hoff. unfold SIZEOF_EHDR in Hoff.
  assert (Hphdr : ∀ i, 0 ≤ i < e_phnum h →
    load_phdr d (e_phoff h + i * SIZEOF_PHDR) = Ok (phdr_at d h (Z.to_nat i))).
  { intros i Hi. replace i with (Z.of_nat (Z.to_nat i)) at 1 by lia.
    apply load_phdr_at; [lia|]. unfold SIZEOF_PHDR in *. lia. }
  destruct (check_phdrs_loop_spec (phdrs_of d h) h (λ i, load_phdr d (e_phoff h + i * SIZEOF_PHDR))
    L 0 0 false false) as (r&Hloop&Hr2&Hiff2);
    [lia|apply (field_range _ _ 8 Hb64)|apply (field_range _ _ 2 Hb64)| | |].
  { apply Forall_fmap, Forall_true. intros i. apply decode_phdr_range. by apply Forall_take, Forall_drop. }
  { intros j p Hj. unfold phdrs_of in Hj. rewrite list_lookup_fmap in Hj.
    apply fmap_Some in Hj as (i&[-> Hi]%lookup_seq&->). rewrite Z.add_0_l, Hphdr by lia. do 2 f_equal. lia. }
  rewrite Hloop. cbn [res_bind]. rewrite program_ok_rest in Hiff2. destruct Hr2 as [-> | ->].
  - change (truth 0) with false. cbn iota. do 2 eexists. split; [done|]. left.
    split; [done|]. split; [split; [done|]; split; [done|by apply Hiff2]|].
    eexists. split; [done|]. intros i Hi. cbn [ehdr data elf_get_phdr] in *.
    rewrite Z.geb_leb. destruct (Z.leb_spec (e_phnum h) i); [lia|]. by rewrite Hphdr.
  - do 2 eexists. split; [done|]. right. split; [done|]. split; [|done].
    intros (_&_&Hp). apply Hiff2 in Hp. done.
Qed.
End elf.

(** ** A minimal executable: one read-execute segment *)

Definition le_bytes (n : nat) (x : Z) : list Z :=
  (λ i, (x / 256 ^ Z.of_nat i) mod 256) <$> seq 0 n.

Definition example_elf : list Z :=
  [127; 69; 76; 70; 2; 1; 1; 0] ++ le_bytes 8 0 ++ le_bytes 2 2 ++ le_bytes 2 243 ++ le_bytes 4 1 ++
  le_bytes 8 0x10078 ++ le_bytes 8 64 ++ le_bytes 8 0 ++ le_bytes 4 5 ++ le_bytes 2 64 ++
  le_bytes 2 56 ++ le_bytes 2 1 ++ le_bytes 2 0 ++ le_bytes 2 0 ++ le_bytes 2 0 ++
  le_bytes 4 1 ++ le_bytes 4 5 ++ le_bytes 8 0 ++ le_bytes 8 0x10000 ++ le_bytes 8 0x10000 ++
  le_bytes 8 124 ++ le_bytes 8 124 ++ le_bytes 8 4096 ++ le_bytes 4 0x73.

Lemma elf_parse_spec_witness : executable true example_elf.
Proof.
  destruct (elf_parse_spec true example_elf) as (ret&im&Heq&[(_&H&_)|(Hr&_)]).
  - apply Forall_forall. intros x Hx. unfold byte.
    assert (Hall : forallb (λ b, (0 <=? b) && (b <? 256)) example_elf = true) by (vm_compute; reflexivity).
    rewrite forallb_forall in Hall. apply list_elem_of_In in Hx. specialize (Hall x Hx). bools. lia.
  - vm_compute. reflexivity.
  - exact H.
  - exfalso. vm_compute in Heq. injection Heq as <- _. discriminate Hr.
Defined.
