(* ===== verification/Task.v ===== *)
(** * Tasks: the data of [include/nuvix/task.h] and [include/nuvix/signal.h]

    The record that the scheduler, the signal code and the process code share.
    Tasks and address spaces live in stores indexed by their identity; a NULL
    pointer is [None].  List links are modelled by the lists that hold the
    task. *)
From stdpp Require Import base tactics numbers list gmap.
From S2P Require Import Prelude.

Definition TF_NEED_RESCHED : Z := BIT 0.
Definition TF_FORKNOEXEC : Z := BIT 1.
Definition TF_SIGPENDING : Z := BIT 2.
Definition TF_STOPPENDING : Z := BIT 3.
Definition TF_SIGSUSPEND : Z := BIT 4.

Definition TASK_NEW : Z := 0.
Definition TASK_RUNNABLE : Z := BIT 0.
Definition TASK_INTERRUPTIBLE : Z := BIT 1.
Definition TASK_UNINTERRUPTIBLE : Z := BIT 2.
Definition TASK_STOPPED : Z := BIT 3.
Definition TASK_ZOMBIE : Z := BIT 4.
Definition TASK_KILLABLE : Z := BIT 5.
Definition TASK_NORMAL : Z := Z.lor TASK_INTERRUPTIBLE TASK_UNINTERRUPTIBLE.

(** ** Signals *)

Definition SIGKILL : Z := 9.
Definition SIGCHLD : Z := 17.
Definition SIGCONT : Z := 18.
Definition SIGSTOP : Z := 19.
Definition SIGTSTP : Z := 20.
Definition SIGTTIN : Z := 21.
Definition SIGTTOU : Z := 22.
Definition SIGURG : Z := 23.
Definition SIGWINCH : Z := 28.
Definition SIG_MAX : Z := 31.

Definition SIG_DFL : Z := 0.
Definition SIG_IGN : Z := 1.

(** [1UL << ((sig) - 1)] *)
Definition sigmask (sig : Z) : Z := BIT (sig - 1).

Record sigaction := Sigaction { sa_handler : Z; sa_flags : Z; sa_mask : Z }.

(** [siginfo_t] with the members of its union that the kernel fills in. *)
Record siginfo := Siginfo {
  si_signo : Z; si_code : Z; si_pid : Z; si_uid : Z; si_status : Z; si_addr : Z;
}.

(** The fields of a task that [signal_lock] protects. *)
Record sigstate := Sigstate {
  pending_list : list siginfo;
  pending_signal : Z;
  blocked : Z;
  saved_mask : Z;                      (* task->sigmask *)
  actions : list sigaction;
}.

Record task := Task {
  t_refcount : Z;
  cpu_id : Z;
  state : Z;
  on_rq : bool;
  on_cpu : bool;
  tflags : Z;
  t_mm : option positive;
  t_fdtable : bool;                    (* task->fdtable is set *)
  t_parent : option positive;
  t_sig : sigstate;
}.

Definition with_refcount (t : task) (x : Z) : task :=
  Task x (cpu_id t) (state t) (on_rq t) (on_cpu t) (tflags t) (t_mm t) (t_fdtable t) (t_parent t) (t_sig t).
Definition with_cpu (t : task) (x : Z) : task :=
  Task (t_refcount t) x (state t) (on_rq t) (on_cpu t) (tflags t) (t_mm t) (t_fdtable t) (t_parent t) (t_sig t).
Definition with_state (t : task) (x : Z) : task :=
  Task (t_refcount t) (cpu_id t) x (on_rq t) (on_cpu t) (tflags t) (t_mm t) (t_fdtable t) (t_parent t) (t_sig t).
Definition with_on_rq (t : task) (x : bool) : task :=
  Task (t_refcount t) (cpu_id t) (state t) x (on_cpu t) (tflags t) (t_mm t) (t_fdtable t) (t_parent t) (t_sig t).
Definition with_on_cpu (t : task) (x : bool) : task :=
  Task (t_refcount t) (cpu_id t) (state t) (on_rq t) x (tflags t) (t_mm t) (t_fdtable t) (t_parent t) (t_sig t).
Definition with_flags (t : task) (x : Z) : task :=
  Task (t_refcount t) (cpu_id t) (state t) (on_rq t) (on_cpu t) x (t_mm t) (t_fdtable t) (t_parent t) (t_sig t).
Definition with_sig (t : task) (x : sigstate) : task :=
  Task (t_refcount t) (cpu_id t) (state t) (on_rq t) (on_cpu t) (tflags t) (t_mm t) (t_fdtable t) (t_parent t) x.

(** ** Flags *)

Definition task_test_flag (t : task) (mask : Z) : bool := truth (Z.land (tflags t) mask).
Definition task_set_flag (t : task) (mask : Z) : task := with_flags t (Z.lor (tflags t) mask).
Definition task_clear_flag (t : task) (mask : Z) : task := with_flags t (Z.land (tflags t) (not32 mask)).

Definition task_need_resched (t : task) : bool := task_test_flag t TF_NEED_RESCHED.
Definition task_set_need_resched (t : task) (value : bool) : task :=
  if value then task_set_flag t TF_NEED_RESCHED else task_clear_flag t TF_NEED_RESCHED.

Definition signal_pending (t : task) : bool := task_test_flag t TF_SIGPENDING.

Definition signal_pending_state (st : Z) (t : task) : bool :=
  (truth (Z.land st TASK_INTERRUPTIBLE) && signal_pending t) ||
  (truth (Z.land st TASK_KILLABLE) && truth (Z.land (pending_signal (t_sig t)) (sigmask SIGKILL))).

(** Bits of a 32-bit complement. *)
Lemma not32_spec x i : 0 ≤ i → Z.testbit (not32 x) i = (i <? 32) && negb (Z.testbit x i).
Proof.
  intros. unfold not32, u32, wrap. destruct (Z.ltb_spec i 32).
  - by rewrite Z.mod_pow2_bits_low, Z.lnot_spec by lia.
  - by rewrite Z.mod_pow2_bits_high by lia.
Qed.

Lemma flag_set t n m :
  0 ≤ n < 32 → 0 ≤ m < 32 →
  task_test_flag (task_set_flag t (BIT n)) (BIT m) = (m =? n) || task_test_flag t (BIT m).
Proof.
  intros. unfold task_test_flag. rewrite !truth_land_BIT by lia. simpl.
  rewrite Z.lor_spec, BIT_spec by lia. apply orb_comm.
Qed.

Lemma flag_clear t n m :
  0 ≤ n < 32 → 0 ≤ m < 32 →
  task_test_flag (task_clear_flag t (BIT n)) (BIT m) = negb (m =? n) && task_test_flag t (BIT m).
Proof.
  intros. unfold task_test_flag. rewrite !truth_land_BIT by lia. simpl.
  rewrite Z.land_spec, not32_spec, BIT_spec by lia. replace (m <? 32) with true by lia.
  simpl. apply andb_comm.
Qed.

(** A flag update leaves everything else of the task alone. *)
Lemma set_need_resched_fields t v :
  let t' := task_set_need_resched t v in
  cpu_id t' = cpu_id t ∧ state t' = state t ∧ on_rq t' = on_rq t ∧ on_cpu t' = on_cpu t ∧
  t_mm t' = t_mm t ∧ t_sig t' = t_sig t ∧ t_refcount t' = t_refcount t ∧
  t_parent t' = t_parent t ∧ t_fdtable t' = t_fdtable t.
Proof. by destruct v. Qed.
