(* ===== verification/Sched.v ===== *)
(** * Scheduler: [kernel/sched.c], [include/nuvix/sched.h]

    The machine is the store of tasks with the run queue of every CPU.  Each
    operation runs under the lock of the run queue it names, which a context
    switch holds from preparation to finish, so it is one step. *)
From stdpp Require Import base tactics numbers list gmap.
From S2P Require Import Prelude Refcount Task.

Record rq := Rq {
  curr : option positive;
  idle : option positive;
  active_mm : option positive;
  prev_mm : option positive;
  ready_list : list positive;
  nr_runnable : Z;
  quantum_deadline : Z;
}.

(** [mm->urefs] and [mm->refs]. *)
Record mmrefs := Mmrefs { urefs : Z; refs : Z }.

Record machine := Machine {
  tasks : gmap positive task;
  runqueues : list rq;              (* the [nr_cpus] run queues *)
  next_cpu : Z;
  mms : gmap positive mmrefs;
}.

Definition set_tasks (m : machine) (x : gmap positive task) : machine :=
  Machine x (runqueues m) (next_cpu m) (mms m).
Definition set_rqs (m : machine) (x : list rq) : machine :=
  Machine (tasks m) x (next_cpu m) (mms m).
Definition set_mms (m : machine) (x : gmap positive mmrefs) : machine :=
  Machine (tasks m) (runqueues m) (next_cpu m) x.

Definition with_ready (r : rq) (l : list positive) : rq :=
  Rq (curr r) (idle r) (active_mm r) (prev_mm r) l (nr_runnable r) (quantum_deadline r).
Definition with_runnable (r : rq) (n : Z) : rq :=
  Rq (curr r) (idle r) (active_mm r) (prev_mm r) (ready_list r) n (quantum_deadline r).
Definition with_deadline (r : rq) (d : Z) : rq :=
  Rq (curr r) (idle r) (active_mm r) (prev_mm r) (ready_list r) (nr_runnable r) d.
Definition with_curr (r : rq) (p : positive) : rq :=
  Rq (Some p) (idle r) (active_mm r) (prev_mm r) (ready_list r) (nr_runnable r) (quantum_deadline r).
Definition with_mms (r : rq) (a p : option positive) : rq :=
  Rq (curr r) (idle r) a p (ready_list r) (nr_runnable r) (quantum_deadline r).

Definition cpu_rq (m : machine) (c : nat) : res rq := arr_get (runqueues m) c.
Definition put_rq (m : machine) (c : nat) (r : rq) : machine :=
  set_rqs m (<[c := r]> (runqueues m)).
Definition get_task (m : machine) (p : positive) : res task := deref (tasks m !! p).
Definition put_task (m : machine) (p : positive) (t : task) : machine :=
  set_tasks m (<[p := t]> (tasks m)).

Section sched.
Context (CONFIG_DEBUG_REFCOUNT : bool).
(** [quantum_ticks] *)
Context (quantum_ticks : Z).

(** ** Queues *)

Definition enqueue_task (m : machine) (c : nat) (p : positive) : res machine :=
  let! r := cpu_rq m c in
  let! t := get_task m p in
  let! _ := Assert (negb (on_rq t) && bool_decide (Some p ≠ idle r)) in
  let m := put_rq m c (with_ready r (ready_list r ++ [p])) in
  let m := put_task m p (with_on_rq t true) in
  if bool_decide (curr r = idle r) then
    let! cu := deref (curr r) in
    let! tc := get_task m cu in
    Ok (put_task m cu (task_set_need_resched tc true))
  else Ok m.

Definition pick_next_task (m : machine) (c : nat) : res (option positive * machine) :=
  let! r := cpu_rq m c in
  match ready_list r with
  | [] => Ok (idle r, m)
  | p :: l =>
      let! t := get_task m p in
      Ok (Some p, put_task (put_rq m c (with_ready r l)) p (with_on_rq t false))
  end.

(** The loop of [select_cpu]; [n] further CPUs are examined. *)
Fixpoint select_loop (n : nat) (m : machine) (cpu : nat) (selected : nat) (least : Z) : res nat :=
  match n with
  | O => Ok selected
  | S n' =>
      let cpu := if (S cpu =? length (runqueues m))%nat then O else S cpu in
      let! r := cpu_rq m cpu in
      if nr_runnable r <? least then select_loop n' m cpu cpu (nr_runnable r)
      else select_loop n' m cpu selected least
  end.

Definition select_cpu (m : machine) : res (nat * machine) :=
  let start := Z.to_nat (next_cpu m) in
  let! r := cpu_rq m start in
  let! selected := select_loop (length (runqueues m) - 1) m start start (nr_runnable r) in
  let next := if (S selected =? length (runqueues m))%nat then 0 else Z.of_nat (S selected) in
  Ok (selected, Machine (tasks m) (runqueues m) next (mms m)).

(** ** Registration, publication and wakeups *)

Definition fresh_rq : rq := Rq None None None None [] 0 0.
Definition sched_init (m : machine) : machine :=
  Machine (tasks m) (replicate (length (runqueues m)) fresh_rq) 0 (mms m).

Definition task_get (m : machine) (p : positive) : res machine :=
  let! t := get_task m p in
  let! n := refcount_inc CONFIG_DEBUG_REFCOUNT [] (t_refcount t) in
  Ok (put_task m p (with_refcount t n)).

Definition sched_init_idle (m : machine) (c : nat) (i : positive) : res machine :=
  let! r := cpu_rq m c in
  let! t := get_task m i in
  let! _ := Assert (bool_decide (idle r = None) && (state t =? TASK_NEW) &&
                    bool_decide (t_parent t = None)) in
  let! m := task_get m i in
  let! t := get_task m i in
  let t := with_on_cpu (with_on_rq (with_state (with_cpu t (Z.of_nat c)) TASK_RUNNABLE) false) false in
  let m := put_task m i (task_set_need_resched t false) in
  Ok (put_rq m c (Rq (Some i) (Some i) (active_mm r) (prev_mm r) (ready_list r) (nr_runnable r)
                     (quantum_deadline r))).

(** Run by CPU [me]; the [bool] asks for a reschedule interrupt.  The identity
    tables that [pid_publish] updates are separate state. *)
Definition sched_publish (m : machine) (me : nat) (p : positive) : res (nat * bool * machine) :=
  let! t := get_task m p in
  let! _ := Assert (state t =? TASK_NEW) in
  let! (c, m) := select_cpu m in
  let m := put_task m p (with_cpu t (Z.of_nat c)) in
  let! m := task_get m p in
  let! t := get_task m p in
  let m := put_task m p (with_state t TASK_RUNNABLE) in
  let! m := enqueue_task m c p in
  let! r := cpu_rq m c in
  let m := put_rq m c (with_runnable r (nr_runnable r + 1)) in
  Ok (c, bool_decide (curr r = idle r) && negb (c =? me)%nat, m).

Definition wake_task (m : machine) (me : nat) (p : positive) (states : Z)
    : res (bool * bool * machine) :=
  let! t := get_task m p in
  let c := Z.to_nat (cpu_id t) in
  if truth (Z.land states (state t)) then
    let m := put_task m p (with_state t TASK_RUNNABLE) in
    if negb (on_cpu t) then
      let! m := enqueue_task m c p in
      let! r := cpu_rq m c in
      let m := put_rq m c (with_runnable r (nr_runnable r + 1)) in
      Ok (true, bool_decide (curr r = idle r) && negb (c =? me)%nat, m)
    else Ok (true, false, m)
  else Ok (false, false, m).

Definition sched_wake (m : machine) (me : nat) (p : positive) :=
  wake_task m me p (Z.lor TASK_NORMAL TASK_KILLABLE).
Definition sched_wake_interruptible (m : machine) (me : nat) (p : positive) :=
  wake_task m me p TASK_INTERRUPTIBLE.
Definition sched_wake_signal (m : machine) (me : nat) (p : positive) (sig : Z) :=
  wake_task m me p (if sig =? SIGKILL then Z.lor TASK_INTERRUPTIBLE TASK_KILLABLE
                    else TASK_INTERRUPTIBLE).
Definition sched_resume (m : machine) (me : nat) (p : positive) :=
  wake_task m me p TASK_STOPPED.

(** ** The current task of a CPU *)

Definition sched_set_sleep_locked (m : machine) (c : nat) (st : Z) : res machine :=
  let! r := cpu_rq m c in
  let! _ := Assert (bool_decide (curr r ≠ idle r) &&
    ((st =? TASK_INTERRUPTIBLE) || (st =? TASK_UNINTERRUPTIBLE) || (st =? TASK_KILLABLE))) in
  let! cu := deref (curr r) in
  let! t := get_task m cu in
  Ok (put_task m cu (with_state t st)).

(** [sched_stop] up to its [sched_park]. *)
Definition sched_stop (m : machine) (c : nat) : res machine :=
  let! r := cpu_rq m c in
  let! cu := deref (curr r) in
  let! t := get_task m cu in
  if task_test_flag t TF_STOPPENDING then
    Ok (put_task m cu (with_state (task_clear_flag t TF_STOPPENDING) TASK_STOPPED))
  else Ok m.

(** ** Address-space references *)

Definition mm_grab (m : machine) (q : positive) : res machine :=
  let! x := deref (mms m !! q) in
  let! n := refcount_inc CONFIG_DEBUG_REFCOUNT [] (refs x) in
  Ok (set_mms m (<[q := Mmrefs (urefs x) n]> (mms m))).

Definition mm_drop (m : machine) (q : positive) : res machine :=
  let! x := deref (mms m !! q) in
  let! (last, n) := refcount_dec_and_test CONFIG_DEBUG_REFCOUNT [] (refs x) in
  if negb last then Ok (set_mms m (<[q := Mmrefs (urefs x) n]> (mms m))) else
  let! _ := Assert (negb (truth (refcount_read (urefs x)))) in
  Ok (set_mms m (delete q (mms m))).

(** ** Switching *)

(** The tail of [sched_prepare_switch_locked]: pick the next task, move the
    address-space reference of the CPU and make it current.  [now] is the value
    [time_read] returns. *)
Definition switch_next (m : machine) (c : nat) (prev : positive) (now : Z) : res (positive * machine) :=
  let! t := get_task m prev in
  let m := put_task m prev (task_set_need_resched t false) in
  let! (n, m) := pick_next_task m c in
  let! next := deref n in
  let! tn := get_task m next in
  let! r := cpu_rq m c in
  let! m :=
    if bool_decide (t_mm tn ≠ active_mm r) then
      let! m := match t_mm tn with Some q => mm_grab m q | None => Ok m end in
      Ok (put_rq m c (with_mms r (t_mm tn) (active_mm r)))
    else Ok m in
  let! r := cpu_rq m c in
  let m := put_rq m c (with_deadline (with_curr r next) (u64 (now + quantum_ticks))) in
  let! tn := get_task m next in
  Ok (next, put_task m next (with_on_cpu tn true)).

Definition sched_prepare_switch_locked (m : machine) (c : nat) (rotate : bool) (now : Z)
    : res (positive * machine) :=
  let! r := cpu_rq m c in
  let! prev := deref (curr r) in
  let! t := get_task m prev in
  let t := if signal_pending_state (state t) t then with_state t TASK_RUNNABLE else t in
  let m := put_task m prev t in
  if negb (state t =? TASK_RUNNABLE) then
    switch_next (put_rq m c (with_runnable r (nr_runnable r - 1))) c prev now
  else
    match ready_list r with
    | [] =>
        let r := if bool_decide (Some prev ≠ idle r) && (rotate || task_need_resched t)
                 then with_deadline r (u64 (now + quantum_ticks)) else r in
        Ok (prev, put_task (put_rq m c r) prev (task_set_need_resched t false))
    | _ :: _ =>
        if bool_decide (Some prev ≠ idle r) then
          if negb rotate && negb (task_need_resched t) then Ok (prev, m)
          else let! m := enqueue_task m c prev in switch_next m c prev now
        else switch_next m c prev now
    end.

(** Returns the address-space reference to drop after the unlock. *)
Definition sched_finish_switch_locked (m : machine) (c : nat) (prev : positive)
    : res (option positive * machine) :=
  let! r := cpu_rq m c in
  let! _ := Assert (bool_decide (Some prev ≠ curr r)) in
  let! t := get_task m prev in
  let m := put_task m prev (with_on_cpu t false) in
  Ok (prev_mm r, put_rq m c (with_mms r (active_mm r) None)).

(** [sched_switch] on CPU [c]: the result names a task whose exit
    [task_finish_exit] must complete. *)
Definition sched_switch (m : machine) (c : nat) (rotate : bool) (now : Z)
    : res (option positive * machine) :=
  let! r := cpu_rq m c in
  let! prev := deref (curr r) in
  let! (next, m) := sched_prepare_switch_locked m c rotate now in
  if bool_decide (prev ≠ next) then
    let! t := get_task m prev in
    let! (q, m) := sched_finish_switch_locked m c prev in
    let! m := match q with Some q => mm_drop m q | None => Ok m end in
    Ok (if state t =? TASK_ZOMBIE then Some prev else None, m)
  else Ok (None, m).

Definition sched_exit (m : machine) (c : nat) (now : Z) : res (option positive * machine) :=
  let! r := cpu_rq m c in
  let! prev := deref (curr r) in
  let! _ := Assert (bool_decide (Some prev ≠ idle r)) in
  let! t := get_task m prev in
  let! _ := Assert (bool_decide (t_mm t = None) && negb (t_fdtable t)) in
  sched_switch (put_task m prev (with_state t TASK_ZOMBIE)) c false now.

Definition sched_tick (m : machine) (c : nat) (now : Z) : res machine :=
  let! r := cpu_rq m c in
  if bool_decide (curr r ≠ idle r) && (now >=? quantum_deadline r) then
    match ready_list r with
    | _ :: _ =>
        let! cu := deref (curr r) in
        let! t := get_task m cu in
        Ok (put_task m cu (task_set_need_resched t true))
    | [] => Ok (put_rq m c (with_deadline r (u64 (now + quantum_ticks))))
    end
  else Ok m.

(** ** The invariant

    It speaks of the scheduling fields of the tasks only. *)

Record view := View { v_cpu : Z; v_state : Z; v_rq : bool; v_run : bool; v_mm : option positive }.
Definition vw (t : task) : view := View (cpu_id t) (state t) (on_rq t) (on_cpu t) (t_mm t).
Definition vtab (m : machine) (p : positive) : option view := vw <$> tasks m !! p.

(** [Q] holds the run queues.  A published task is queued, running or asleep
    on its own CPU, and never lost while it is runnable. *)
Record task_ok (Q : list rq) (p : positive) (v : view) (r : rq) : Prop := {
  tk_cpu : 0 ≤ v_cpu v;
  tk_rq : Q !! Z.to_nat (v_cpu v) = Some r;
  tk_on_rq : v_rq v = true ↔ p ∈ ready_list r;
  tk_on_cpu : v_run v = true ↔ curr r = Some p;
  tk_lost : v_state v = TASK_RUNNABLE → idle r = Some p ∨ p ∈ ready_list r ∨ curr r = Some p;
  tk_ready : p ∈ ready_list r → v_state v = TASK_RUNNABLE ∧ idle r ≠ Some p ∧ curr r ≠ Some p;
  tk_idle : idle r = Some p → v_state v = TASK_RUNNABLE ∧ v_mm v = None;
}.

Definition occupied (r : rq) : Z := if decide (curr r = idle r) then 0 else 1.

Record rq_ok (V : positive → option view) (c : nat) (r : rq) : Prop := {
  rk_idle : is_Some (idle r);
  rk_curr : is_Some (curr r);
  rk_nodup : NoDup (ready_list r);
  rk_count : nr_runnable r = Z.of_nat (length (ready_list r)) + occupied r;
  rk_prev : prev_mm r = None;
  rk_member : ∀ p, p ∈ ready_list r ∨ idle r = Some p ∨ curr r = Some p →
    ∃ v, V p = Some v ∧ v_state v ≠ TASK_NEW ∧ v_cpu v = Z.of_nat c;
}.

(** CPUs running on address space [q]. *)
Definition users (q : positive) (Q : list rq) : Z :=
  Z.of_nat (length (filter (λ r, active_mm r = Some q) Q)).

Record mm_ok (V : positive → option view) (Q : list rq) (M : gmap positive mmrefs) : Prop := {
  mk_refs : ∀ q x, M !! q = Some x →
    refs x = (if decide (0 < urefs x) then 1 else 0) + users q Q ∧ 0 ≤ urefs x < REFCOUNT_MAX;
  mk_active : ∀ r q, r ∈ Q → active_mm r = Some q → is_Some (M !! q);
  mk_task : ∀ p v q, V p = Some v → v_mm v = Some q → ∃ x, M !! q = Some x ∧ 0 < urefs x;
}.

Record inv (V : positive → option view) (Q : list rq) (M : gmap positive mmrefs) : Prop := {
  inv_new : ∀ p v, V p = Some v → v_state v = TASK_NEW → v_rq v = false ∧ v_run v = false;
  inv_task : ∀ p v, V p = Some v → v_state v ≠ TASK_NEW → ∃ r, task_ok Q p v r;
  inv_rq : ∀ c r, Q !! c = Some r → rq_ok V c r;
  inv_mm : mm_ok V Q M;
  inv_cpus : Z.of_nat (length Q) < REFCOUNT_MAX - 1;
}.

Definition sched_inv (m : machine) : Prop := inv (vtab m) (runqueues m) (mms m).

(** *** Lookups *)

Lemma vtab_put m p t q : vtab (put_task m p t) q = if decide (q = p) then Some (vw t) else vtab m q.
Proof.
  unfold vtab, put_task. simpl. case_decide as H; [subst; by rewrite lookup_insert_eq|].
  by rewrite lookup_insert_ne.
Qed.

Lemma vtab_get m p v : vtab m p = Some v → ∃ t, get_task m p = Ok t ∧ tasks m !! p = Some t ∧ vw t = v.
Proof.
  unfold vtab, get_task. destruct (tasks m !! p) as [t|]; [|done]. intros [= <-]. eauto.
Qed.

Lemma vw_need_resched t b : vw (task_set_need_resched t b) = vw t.
Proof. by destruct b. Qed.

Lemma vtab_same m p t q : vtab m p = Some (vw t) → vtab (put_task m p t) q = vtab m q.
Proof. intros Hp. rewrite vtab_put. case_decide; [by subst|done]. Qed.

Lemma get_put m p t : get_task (put_task m p t) p = Ok t.
Proof. unfold get_task, put_task. simpl. by rewrite lookup_insert_eq. Qed.

Lemma inv_ext V V' Q M : (∀ p, V' p = V p) → inv V Q M → inv V' Q M.
Proof.
  intros Hv [H1 H2 H3 H4 H5]. split.
  - intros p v Hp. rewrite Hv in Hp. eauto.
  - intros p v Hp. rewrite Hv in Hp. eauto.
  - intros c r Hr. destruct (H3 c r Hr). split; try done. intros p Hp. rewrite Hv. auto.
  - destruct H4 as [Ha Hb Hc]. split; [done|done|]. intros p v q Hp. rewrite Hv in Hp. eauto.
  - done.
Qed.

(** The effect of [enqueue_task]. *)
Lemma enqueue_spec m c p r v cu :
  runqueues m !! c = Some r → vtab m p = Some v → v_rq v = false → idle r ≠ Some p →
  curr r = Some cu → is_Some (vtab m cu) →
  ∃ m', enqueue_task m c p = Ok m' ∧
    runqueues m' = <[c := with_ready r (ready_list r ++ [p])]> (runqueues m) ∧
    (∀ q, vtab m' q = if decide (q = p)
       then Some (View (v_cpu v) (v_state v) true (v_run v) (v_mm v)) else vtab m q) ∧
    mms m' = mms m ∧ next_cpu m' = next_cpu m.
Proof.
  intros Hr Hp Hq Hi Hc [vc Hvc]. unfold enqueue_task, cpu_rq.
  rewrite (arr_get_Ok _ _ _ Hr). cbn [res_bind].
  destruct (vtab_get m p v Hp) as (t&->&_&<-). cbn [res_bind]. simpl in Hq. rewrite Hq.
  rewrite bool_decide_eq_true_2 by done. cbn [Assert negb andb res_bind].
  set (m1 := put_task _ p _).
  assert (Hv1 : ∀ q, vtab m1 q = if decide (q = p)
    then Some (View (cpu_id t) (state t) true (on_cpu t) (t_mm t)) else vtab m q).
  { intros q. unfold m1. by rewrite vtab_put. }
  case_bool_decide as Hci; [|exists m1; done].
  rewrite Hc. cbn [deref res_bind].
  assert (is_Some (vtab m1 cu)) as [w Hw]. { rewrite Hv1. case_decide; eauto. }
  destruct (vtab_get m1 cu w Hw) as (tc&->&_&Hwt). cbn [res_bind].
  eexists. split; [done|]. split; [done|]. split; [|done].
  intros q. rewrite (vtab_same m1 cu) by (rewrite vw_need_resched; congruence). apply Hv1.
Qed.

(** An operation on CPU [c] that touches only the tasks in [S] and run queue
    [c] keeps the invariant when those are in order afterwards. *)
Lemma inv_update V V' Q M M' c r r' (S : positive → Prop) :
  inv V Q M → Q !! c = Some r → (∀ p, {S p} + {¬ S p}) →
  (∀ p, ¬ S p → V' p = V p) →
  idle r' = idle r →
  (∀ p, ¬ S p → (p ∈ ready_list r' ↔ p ∈ ready_list r) ∧ (curr r' = Some p ↔ curr r = Some p)) →
  (∀ p v, S p → V p = Some v → v_state v ≠ TASK_NEW → v_cpu v = Z.of_nat c) →
  (∀ p v, S p → V' p = Some v → v_state v ≠ TASK_NEW ∧ task_ok (<[c := r']> Q) p v r') →
  rq_ok V' c r' → mm_ok V' (<[c := r']> Q) M' → inv V' (<[c := r']> Q) M'.
Proof.
  intros Hinv Hc HS Hout Hidle Hmem Hcpu Hin Hrq Hmm.
  assert (Hlen : (c < length Q)%nat) by (by eapply lookup_lt_Some). split.
  - intros p v Hv Hnew. destruct (HS p) as [Hs|Hs]; [by destruct (Hin p v Hs Hv)|].
    rewrite Hout in Hv by done. by eapply Hinv.
  - intros p v Hv Hnew. destruct (HS p) as [Hs|Hs]; [exists r'; by apply Hin|].
    rewrite Hout in Hv by done. destruct (inv_task _ _ _ Hinv p v Hv Hnew) as [r0 Ht].
    destruct (decide (Z.to_nat (v_cpu v) = c)) as [He|He].
    + assert (r0 = r) as -> by (pose proof (tk_rq _ _ _ _ Ht); congruence).
      exists r'. destruct (Hmem p Hs) as [Hm1 Hm2].
      destruct Ht; split; rewrite ?Hidle, ?Hm1, ?Hm2; try done.
      rewrite He. by apply list_lookup_insert_eq.
    + exists r0. destruct Ht. split; try done. by rewrite list_lookup_insert_ne.
  - intros c' r0 Hr0. destruct (decide (c' = c)) as [->|Hne].
    + rewrite list_lookup_insert_eq in Hr0 by done. by injection Hr0 as <-.
    + rewrite list_lookup_insert_ne in Hr0 by done. destruct (inv_rq _ _ _ Hinv c' r0 Hr0).
      split; try done. intros p Hp. destruct (rk_member0 p Hp) as (v&Hv&Hn&Hvc).
      exists v. rewrite Hout; [done|]. intros Hs. specialize (Hcpu p v Hs Hv Hn). lia.
  - done.
  - rewrite length_insert. apply Hinv.
Qed.

(** Run queues of one address-space use are interchangeable in the counts. *)
Lemma users_insert q Q c r r' :
  Q !! c = Some r →
  users q (<[c := r']> Q) = users q Q - (if decide (active_mm r = Some q) then 1 else 0) +
                            (if decide (active_mm r' = Some q) then 1 else 0).
Proof.
  intros Hc. unfold users. revert c Hc. induction Q as [|a Q IH]; intros [|c] Hc; simplify_eq/=.
  - rewrite !filter_cons. repeat case_decide; simpl; lia.
  - rewrite !filter_cons. specialize (IH c Hc).
    destruct (decide (active_mm a = Some q)); cbn [length]; lia.
Qed.

Lemma users_same q Q c r r' :
  Q !! c = Some r → active_mm r' = active_mm r → users q (<[c := r']> Q) = users q Q.
Proof. intros Hc Ha. rewrite (users_insert q Q c r r' Hc), Ha. lia. Qed.

Lemma mm_ok_keep V V' Q M c r r' :
  mm_ok V Q M → Q !! c = Some r → active_mm r' = active_mm r →
  (∀ p v q, V' p = Some v → v_mm v = Some q → ∃ p' v', V p' = Some v' ∧ v_mm v' = Some q) →
  mm_ok V' (<[c := r']> Q) M.
Proof.
  intros [H1 H2 H3] Hc Ha Hv. split.
  - intros q x Hx. rewrite (users_same q Q c r r') by done. auto.
  - intros r0 q Hr0 Hq. apply list_elem_of_lookup in Hr0 as [i Hi].
    destruct (decide (i = c)) as [->|].
    + rewrite list_lookup_insert_eq in Hi by (by eapply lookup_lt_Some). injection Hi as <-.
      rewrite Ha in Hq. eapply H2; [|done]. by eapply list_elem_of_lookup_2.
    + rewrite list_lookup_insert_ne in Hi by done. eapply H2; [|done]. by eapply list_elem_of_lookup_2.
  - intros p v q Hp Hq. destruct (Hv p v q Hp Hq) as (p'&v'&?&?). eauto.
Qed.

(** ** Wakeups *)

(** A task that is on no queue joins the ready list of its CPU. *)
Lemma join_ready_inv V V' Q M c r p v :
  inv V Q M → Q !! c = Some r → V p = Some v →
  (v_state v ≠ TASK_NEW → v_cpu v = Z.of_nat c) →
  p ∉ ready_list r → curr r ≠ Some p → idle r ≠ Some p →
  (∀ q, V' q = if decide (q = p) then Some (View (Z.of_nat c) TASK_RUNNABLE true false (v_mm v)) else V q) →
  inv V' (<[c := with_runnable (with_ready r (ready_list r ++ [p])) (nr_runnable r + 1)]> Q) M.
Proof.
  intros Hinv Hr Hvp Hcpu Hnq Hncu Hni HV. pose proof (inv_rq _ _ _ Hinv c r Hr) as Hrq.
  assert (Hlen : (c < length Q)%nat) by (by eapply lookup_lt_Some).
  apply (inv_update V _ _ M _ c r _ (λ q, q = p)); try done.
  - intros q. apply decide. apply _.
  - intros q Hq. rewrite HV. by rewrite decide_False.
  - intros q Hq. simpl. rewrite elem_of_app, list_elem_of_singleton. naive_solver.
  - intros q w -> Hw Hnew. rewrite Hvp in Hw. injection Hw as <-. auto.
  - intros q w -> Hw. rewrite HV, decide_True in Hw by done. injection Hw as <-. split; [done|].
    split; simpl; try done; try lia.
    + rewrite Nat2Z.id. by apply list_lookup_insert_eq.
    + rewrite elem_of_app, list_elem_of_singleton. naive_solver.
    + intros _. right; left. rewrite elem_of_app, list_elem_of_singleton. auto.
  - destruct Hrq. split; simpl; try done.
    + apply NoDup_app. split_and!; [done| |apply NoDup_singleton].
      intros q Hq. rewrite list_elem_of_singleton. naive_solver.
    + rewrite rk_count0, length_app. simpl. unfold occupied. simpl. lia.
    + intros q. rewrite elem_of_app, list_elem_of_singleton. intros Hq. rewrite HV.
      case_decide as Heq; [subst q; by eexists|]. apply rk_member0. naive_solver.
  - eapply mm_ok_keep; [apply Hinv|done|done|]. intros q w mm Hq Hm. rewrite HV in Hq.
    case_decide; [|eauto]. injection Hq as <-. eauto.
Qed.

(** The current task of a CPU changes its state. *)
Lemma curr_state_inv V V' Q M c r p v st :
  inv V Q M → Q !! c = Some r → V p = Some v → curr r = Some p → v_cpu v = Z.of_nat c →
  v_state v ≠ TASK_NEW → idle r ≠ Some p → st ≠ TASK_NEW →
  (∀ q, V' q = if decide (q = p) then Some (View (v_cpu v) st (v_rq v) (v_run v) (v_mm v)) else V q) →
  inv V' Q M.
Proof.
  intros Hinv Hr Hvp Hcu Hcpu Hnew Hni Hst HV. rewrite <-(list_insert_id Q c r Hr).
  pose proof (inv_rq _ _ _ Hinv c r Hr) as Hrq.
  destruct (inv_task _ _ _ Hinv p v Hvp Hnew) as [r0 Hok].
  assert (r0 = r) as -> by (pose proof (tk_rq _ _ _ _ Hok) as H'; rewrite Hcpu, Nat2Z.id in H'; congruence).
  apply (inv_update V _ _ M _ c r r (λ q, q = p)); try done.
  - intros q. apply decide. apply _.
  - intros q Hq. rewrite HV. by rewrite decide_False.
  - intros q w -> Hw _. rewrite Hvp in Hw. by injection Hw as <-.
  - intros q w -> Hw. rewrite HV, decide_True in Hw by done. injection Hw as <-. split; [done|].
    destruct Hok. split; simpl; try done.
    + by rewrite list_insert_id.
    + auto.
    + intros Hin. by destruct (tk_ready0 Hin) as (_&_&?).
  - destruct Hrq. split; try done. intros q Hq. destruct (rk_member0 q Hq) as (w&Hw&?&?).
    rewrite HV. case_decide; [subst q; by eexists|eauto].
  - eapply mm_ok_keep; [apply Hinv|done|done|]. intros q w mm Hq Hm. rewrite HV in Hq.
    case_decide; [|eauto]. injection Hq as <-. eauto.
Qed.

Lemma vtab_lookup m p v : vtab m p = Some v → ∃ t, tasks m !! p = Some t ∧ vw t = v.
Proof. unfold vtab. destruct (tasks m !! p) as [t|]; [|done]. intros [= <-]. eauto. Qed.

(** A wakeup of a sleeping task that is off its CPU. *)
Lemma wake_queue m c p r t cu :
  runqueues m !! c = Some r → tasks m !! p = Some t → on_rq t = false → idle r ≠ Some p →
  curr r = Some cu → is_Some (vtab m cu) →
  ∃ m1 m', enqueue_task (put_task m p (with_state t TASK_RUNNABLE)) c p = Ok m1 ∧
    cpu_rq m1 c = Ok (with_ready r (ready_list r ++ [p])) ∧
    m' = put_rq m1 c (with_runnable (with_ready r (ready_list r ++ [p])) (nr_runnable r + 1)) ∧
    runqueues m' = <[c := with_runnable (with_ready r (ready_list r ++ [p])) (nr_runnable r + 1)]>
                     (runqueues m) ∧
    (∀ q, vtab m' q = if decide (q = p)
       then Some (View (cpu_id t) TASK_RUNNABLE true (on_cpu t) (t_mm t)) else vtab m q) ∧
    mms m' = mms m ∧ next_cpu m' = next_cpu m.
Proof.
  intros Hr Ht Hoff Hni Hcu Hc. set (m1 := put_task m p _).
  assert (Hv1 : ∀ q, vtab m1 q = if decide (q = p)
     then Some (View (cpu_id t) TASK_RUNNABLE (on_rq t) (on_cpu t) (t_mm t)) else vtab m q)
    by (intros q; apply vtab_put).
  destruct (enqueue_spec m1 c p r (View (cpu_id t) TASK_RUNNABLE false (on_cpu t) (t_mm t)) cu)
    as (m2&->&Hrq2&Hv2&Hm2&Hn2); [done| |done|done|done| |].
  { rewrite Hv1, decide_True by done. by rewrite Hoff. }
  { rewrite Hv1. case_decide; eauto. }
  assert (Hlen : (c < length (runqueues m))%nat) by (by eapply lookup_lt_Some).
  exists m2. eexists. split; [done|]. split; [|split; [done|]].
  - unfold cpu_rq. rewrite Hrq2. apply arr_get_Ok. by apply list_lookup_insert_eq.
  - split; [|split; [|done]].
    + simpl. rewrite Hrq2. apply list_insert_insert_eq.
    + intros q. change (vtab (put_rq m2 c _) q) with (vtab m2 q). rewrite Hv2. simpl.
      case_decide; [done|]. rewrite Hv1. by rewrite decide_False.
Qed.

Definition woken (m : machine) (p : positive) : Prop :=
  ∃ t r, tasks m !! p = Some t ∧ state t = TASK_RUNNABLE ∧
    runqueues m !! Z.to_nat (cpu_id t) = Some r ∧ (p ∈ ready_list r ∨ curr r = Some p).

Lemma wake_task_inv m me p states t :
  sched_inv m → tasks m !! p = Some t → Z.land states TASK_RUNNABLE = 0 →
  ∃ ipi m', wake_task m me p states = Ok (truth (Z.land states (state t)), ipi, m') ∧ sched_inv m' ∧
    (if truth (Z.land states (state t)) then woken m' p else m' = m) ∧
    (∀ q, q ≠ p → vtab m' q = vtab m q).
Proof.
  intros Hinv Ht Hmask. unfold wake_task, get_task. rewrite Ht. cbn [deref res_bind].
  destruct (truth (Z.land states (state t))) eqn:Hw.
  2:{ do 2 eexists. split; [done|]. done. }
  assert (Hvp : vtab m p = Some (vw t)) by (unfold vtab; by rewrite Ht).
  assert (Hnew : state t ≠ TASK_NEW). { intros E. rewrite E, Z.land_0_r in Hw. done. }
  assert (Hnr : state t ≠ TASK_RUNNABLE). { intros E. rewrite E, Hmask in Hw. done. }
  destruct (inv_task _ _ _ Hinv p _ Hvp Hnew) as [r Hok]. pose proof (tk_rq _ _ _ _ Hok) as Hr.
  cbn [vw v_cpu] in Hr. set (c := Z.to_nat (cpu_id t)) in *.
  pose proof (inv_rq _ _ _ Hinv c r Hr) as Hrq. destruct (rk_curr _ _ _ Hrq) as [cu Hcu].
  assert (Hni : idle r ≠ Some p). { intros E. apply (tk_idle _ _ _ _ Hok) in E as [E _]. done. }
  assert (Hnq : p ∉ ready_list r). { intros E. apply (tk_ready _ _ _ _ Hok) in E as [E _]. done. }
  assert (Hcpu : cpu_id t = Z.of_nat c). { pose proof (tk_cpu _ _ _ _ Hok). simpl in *. lia. }
  assert (Hlen : (c < length (runqueues m))%nat) by (by eapply lookup_lt_Some).
  destruct (on_cpu t) eqn:Hcpu_on; cbn [negb].
  - assert (Hcp : curr r = Some p) by (by apply (tk_on_cpu _ _ _ _ Hok)).
    do 2 eexists. split; [done|]. split; [|split].
    + eapply (curr_state_inv (vtab m) _ _ _ c r p (vw t) TASK_RUNNABLE); try done. intros q. apply vtab_put.
    + exists (with_state t TASK_RUNNABLE), r. simpl. rewrite lookup_insert_eq. auto.
    + intros q Hq. rewrite vtab_put. by rewrite decide_False.
  - assert (Hncu : curr r ≠ Some p).
    { intros E. apply (tk_on_cpu _ _ _ _ Hok) in E. simpl in E. congruence. }
    destruct (wake_queue m c p r t cu) as (m1&m'&->&Hrq1&Hm'&Hq'&Hv'&Hmm&_); try done.
    { destruct (on_rq t) eqn:E; [|done]. exfalso. by apply Hnq, (tk_on_rq _ _ _ _ Hok). }
    { destruct (rk_member _ _ _ Hrq cu) as (v&->&_); eauto. }
    cbn [res_bind]. rewrite Hrq1. cbn [res_bind]. eexists _, m'. split; [by rewrite Hm'|].
    split; [|split].
    + unfold sched_inv. rewrite Hq', Hmm. eapply (join_ready_inv (vtab m)); try done.
      intros q. rewrite Hv'. by rewrite Hcpu, Hcpu_on.
    + destruct (vtab_lookup m' p (View (cpu_id t) TASK_RUNNABLE true (on_cpu t) (t_mm t))) as (t'&Ht'&Hvw).
      { rewrite Hv'. by rewrite decide_True. }
      injection Hvw as Hc' Hst _ _ _. eexists t', _. split; [done|]. split; [done|].
      rewrite Hc'. fold c. rewrite Hq'. split; [by apply list_lookup_insert_eq|].
      simpl. rewrite elem_of_app, list_elem_of_singleton. auto.
    + intros q Hq. rewrite Hv'. by rewrite decide_False.
Qed.

(** ** Switching *)

(** The ready list after [prev] was queued behind it or not. *)
Lemma queue_nodup (l : list positive) p (queued : bool) :
  NoDup l → p ∉ l → NoDup (l ++ if queued then [p] else []).
Proof.
  intros Hl Hp. destruct queued; [|by rewrite app_nil_r]. apply NoDup_app. split_and!; [done| |apply NoDup_singleton].
  intros x Hx Hx'. apply list_elem_of_singleton in Hx'. by subst x.
Qed.

Lemma queue_elem (l : list positive) p (queued : bool) q :
  q ∈ (l ++ if queued then [p] else []) ↔ q ∈ l ∨ (queued = true ∧ q = p).
Proof.
  rewrite elem_of_app. destruct queued; [rewrite list_elem_of_singleton|rewrite elem_of_nil]; tauto || intuition congruence.
Qed.

Lemma queue_rest (l rest : list positive) p n (queued : bool) q :
  NoDup l → p ∉ l → l ++ (if queued then [p] else []) = n :: rest →
  NoDup rest ∧ (q ∈ rest ↔ q ≠ n ∧ (q ∈ l ∨ (queued = true ∧ q = p))).
Proof.
  intros Hl Hp He. pose proof (queue_nodup l p queued Hl Hp) as Hnd. rewrite He in Hnd.
  apply NoDup_cons in Hnd as [Hn Hr]. split; [done|].
  rewrite <-(queue_elem l p queued q), He, elem_of_cons.
  split; [|tauto]. intros Hq. split; [by intros ->|by right].
Qed.

(** The CPU [c] goes from [prev] to [next]; [queued] says whether [prev] went
    to the end of the ready list. *)
Lemma switch_view_inv V V' Q M M' c r r' prev v next vn rest st (queued : bool) :
  inv V Q M → Q !! c = Some r → curr r = Some prev → V prev = Some v → V next = Some vn →
  st ≠ TASK_NEW → prev ≠ next →
  (if queued then st = TASK_RUNNABLE ∧ idle r ≠ Some prev ∧ ready_list r ≠ []
   else idle r = Some prev ∨ st ≠ TASK_RUNNABLE) →
  (idle r = Some prev → st = TASK_RUNNABLE ∧ ready_list r ≠ []) →
  (ready_list r ++ (if queued then [prev] else []) = next :: rest ∨
   (ready_list r = [] ∧ queued = false ∧ idle r = Some next ∧ rest = [])) →
  curr r' = Some next → idle r' = idle r → ready_list r' = rest → prev_mm r' = None →
  nr_runnable r' = nr_runnable r - (if decide (st = TASK_RUNNABLE) then 0 else 1) →
  (∀ q, V' q = if decide (q = prev) then Some (View (v_cpu v) st queued false (v_mm v))
               else if decide (q = next) then Some (View (v_cpu vn) (v_state vn) false true (v_mm vn))
               else V q) →
  mm_ok V' (<[c := r']> Q) M' → inv V' (<[c := r']> Q) M'.
Proof.
  intros Hinv Hr Hcu Hv Hvn Hst Hne Hq Hidle Hl Hc' Hi' Hl' Hp' Hn' HV Hmm.
  assert (Hlen : (c < length Q)%nat) by (by eapply lookup_lt_Some).
  pose proof (inv_rq _ _ _ Hinv c r Hr) as Hrq.
  destruct (rk_member _ _ _ Hrq prev) as (v0&Hv0&Hnew&Hcpu); [auto|]. rewrite Hv in Hv0. injection Hv0 as <-.
  assert (Htask : ∀ q w, V q = Some w → v_state w ≠ TASK_NEW → v_cpu w = Z.of_nat c → task_ok Q q w r).
  { intros q w Hw Hn Hcw. destruct (inv_task _ _ _ Hinv q w Hw Hn) as [r0 Hok].
    assert (r0 = r) as ->; [|done]. pose proof (tk_rq _ _ _ _ Hok) as H'. rewrite Hcw, Nat2Z.id in H'. congruence. }
  pose proof (Htask prev v Hv Hnew Hcpu) as Hokp.
  assert (Hnr : prev ∉ ready_list r). { intros E. by apply (tk_ready _ _ _ _ Hokp) in E as (_&_&?). }
  assert (Hnext : next ∈ ready_list r ∨ (ready_list r = [] ∧ idle r = Some next)).
  { destruct Hl as [Hl|(?&?&?&?)]; [left|by right]. destruct queued.
    - destruct Hq as (_&_&Hnn). destruct (ready_list r); [done|]. simplify_eq/=. by left.
    - rewrite app_nil_r in Hl. rewrite Hl. by left. }
  destruct (rk_member _ _ _ Hrq next) as (v1&Hv1&Hnewn&Hcpun); [tauto|].
  rewrite Hvn in Hv1. injection Hv1 as <-. pose proof (Htask next vn Hvn Hnewn Hcpun) as Hokn.
  assert (Hrest : ∀ q, q ∈ rest ↔ q ≠ next ∧ (q ∈ ready_list r ∨ (queued = true ∧ q = prev))).
  { intros q. destruct Hl as [Hl|(E&->&?&->)].
    - by eapply queue_rest; [apply Hrq| |].
    - rewrite E, !elem_of_nil. split; [done|]. by intros (_&[?|[? _]]). }
  apply (inv_update V _ _ M _ c r r' (λ q, q = prev ∨ q = next)); try done.
  - intros q. apply decide. apply _.
  - intros q Hq'. rewrite HV. rewrite !decide_False by tauto. done.
  - intros q Hq'. rewrite Hl', Hc', Hcu, Hrest. split; [tauto|]. split; intros [= ->]; tauto.
  - intros q w [-> | ->] Hw _; congruence.
  - intros q w Hqs Hw. rewrite HV in Hw. destruct Hqs as [-> | ->].
    + rewrite decide_True in Hw by done. injection Hw as <-. split; [done|].
      split; simpl; rewrite ?Hi', ?Hc', ?Hl', ?Hrest; try lia.
      * rewrite Hcpu, Nat2Z.id. by apply list_lookup_insert_eq.
      * split; [auto|]. by intros [_ [?|[? _]]].
      * split; [done|]. congruence.
      * intros E. destruct queued; [|destruct Hq; [by left|done]]. right; left. auto.
      * intros [_ [?|[E _]]]; [done|]. rewrite E in Hq. destruct Hq as (?&?&?). split_and!; [done..|congruence].
      * intros E. split; [by apply Hidle|]. by apply (tk_idle _ _ _ _ Hokp).
    + rewrite decide_False, decide_True in Hw by done. injection Hw as <-. split; [done|].
      destruct Hokn. split; simpl in *; rewrite ?Hi', ?Hc', ?Hl', ?Hrest; try done; try tauto.
      * rewrite Hcpun, Nat2Z.id. by apply list_lookup_insert_eq.
      * split; [done|]. by intros [? _].
  - destruct Hrq as [Ri Rc Rn Rk Rp Rm]. split; rewrite ?Hi', ?Hc', ?Hl', ?Hp'; try done.
    + destruct Hl as [Hl|(_&_&_&->)]; [|constructor].
      by apply (queue_rest (ready_list r) rest prev next queued next).
    + rewrite Hn', Rk. unfold occupied. rewrite Hcu, Hc', Hi'. destruct Hnext as [Hnx|[E Hnx]].
      * rewrite (decide_False (P := Some next = idle r)) by (destruct (tk_ready _ _ _ _ Hokn Hnx) as (_&?&_); congruence).
        destruct Hl as [Hl|(E&_)]; [|rewrite E in Hnx; by apply elem_of_nil in Hnx].
        apply (f_equal length) in Hl. rewrite length_app in Hl. simpl in Hl.
        destruct queued; simpl in Hl.
        { destruct Hq as (->&?&_). rewrite (decide_True (P := TASK_RUNNABLE = TASK_RUNNABLE)) by done.
          rewrite decide_False by congruence. lia. }
        destruct (decide (Some prev = idle r)) as [E|E].
        { destruct (Hidle (eq_sym E)) as [-> _]. rewrite decide_True by done. lia. }
        destruct Hq as [Hq|Hq]; [congruence|]. rewrite decide_False by done. lia.
      * rewrite E, Hnx. rewrite (decide_True (P := Some next = Some next)) by done.
        rewrite decide_False by congruence. destruct Hl as [Hl|(_&->&_&->)].
        { rewrite E in Hl. destruct queued; [by destruct Hq as (_&_&?)|done]. }
        destruct Hq as [Hq|Hq]; [congruence|]. rewrite decide_False by done. simpl. lia.
    + intros q Hq'. rewrite Hrest in Hq'. rewrite HV.
      destruct (decide (q = prev)) as [E1|E1]; [eexists; split; [done|]; simpl; done|].
      destruct (decide (q = next)) as [E2|E2]; [eexists; split; [done|]; simpl; done|]. apply Rm. destruct Hq' as [(_&[?|[_ ?]])|[?|[= ?]]]; [auto|done|auto|done].
Qed.

Definition grab_opt (m : machine) (o : option positive) : res machine :=
  match o with Some q => mm_grab m q | None => Ok m end.
Definition drop_opt (m : machine) (o : option positive) : res machine :=
  match o with Some q => mm_drop m q | None => Ok m end.

Lemma users_range q Q : 0 ≤ users q Q ≤ Z.of_nat (length Q).
Proof. unfold users. pose proof (length_filter (λ r, active_mm r = Some q) Q). lia. Qed.

Lemma users_pos q Q c r : Q !! c = Some r → active_mm r = Some q → 1 ≤ users q Q.
Proof.
  intros Hc Ha. pose proof (users_insert q Q c r (with_mms r None None) Hc) as Hu.
  rewrite decide_True, decide_False in Hu by done.
  pose proof (users_range q (<[c := with_mms r None None]> Q)). lia.
Qed.

(** Taking the CPU reference on the next address space and then dropping the
    one on the old: no count overflows, and the old space is freed exactly when
    no task and no CPU uses it. *)
Lemma mm_switch_ok V V' Q M c r r' :
  mm_ok V Q M → Q !! c = Some r → Z.of_nat (length Q) < REFCOUNT_MAX - 1 →
  active_mm r' ≠ active_mm r →
  (∀ p v q, V' p = Some v → v_mm v = Some q → ∃ p' v', V p' = Some v' ∧ v_mm v' = Some q) →
  (∀ q, active_mm r' = Some q → ∃ p v, V p = Some v ∧ v_mm v = Some q) →
  ∃ M1 M3,
    (∀ m, mms m = M → grab_opt m (active_mm r') = Ok (set_mms m M1)) ∧
    (∀ m, mms m = M1 → drop_opt m (active_mm r) = Ok (set_mms m M3)) ∧
    mm_ok V' (<[c := r']> Q) M3.
Proof.
  intros [H1 H2 H3] Hc Hcpus Hne HV Hb.
  assert (Hr : r ∈ Q) by (by eapply list_elem_of_lookup_2).
  (* the map after the grab, with its counts *)
  assert (∃ M1, (∀ m, mms m = M → grab_opt m (active_mm r') = Ok (set_mms m M1)) ∧
    (∀ q x, M1 !! q = Some x →
       refs x = (if decide (0 < urefs x) then 1 else 0) + users q Q +
                (if decide (active_mm r' = Some q) then 1 else 0) ∧ 0 ≤ urefs x < REFCOUNT_MAX) ∧
    (∀ q, is_Some (M !! q) → is_Some (M1 !! q)) ∧
    (∀ q x, M !! q = Some x → 0 < urefs x → ∃ y, M1 !! q = Some y ∧ 0 < urefs y)) as (M1&Hg&Hc1&Hs1&Hu1).
  { destruct (active_mm r') as [b|].
    - destruct (Hb b eq_refl) as (p&v&Hp&Hv). destruct (H3 p v b Hp Hv) as (x&Hx&Hux).
      destruct (H1 b x Hx) as [Hrefs Hur]. pose proof (users_range b Q).
      exists (<[b := Mmrefs (urefs x) (refs x + 1)]> M). split_and!.
      + intros m <-. simpl. unfold mm_grab. rewrite Hx. cbn [deref res_bind].
        rewrite inc_live by (case_decide; lia). done.
      + intros q y. destruct (decide (q = b)) as [->|Hq].
        * rewrite lookup_insert_eq. intros [= <-]. simpl. rewrite (decide_True (P := Some b = Some b)) by done. lia.
        * rewrite lookup_insert_ne by done. intros Hy. destruct (H1 q y Hy). rewrite (decide_False (P := Some b = Some q)) by congruence. lia.
      + intros q [y Hy]. destruct (decide (q = b)) as [->|Hq]; [rewrite lookup_insert_eq; eauto|].
        rewrite lookup_insert_ne by done. eauto.
      + intros q y Hy Huy. destruct (decide (q = b)) as [->|Hq]; [|rewrite lookup_insert_ne by done; eauto].
        rewrite lookup_insert_eq. eexists. split; [done|]. simpl. congruence.
    - exists M. split_and!; [|intros q x Hx; destruct (H1 q x Hx); rewrite (decide_False (P := None = Some q)) by done; lia|done|eauto].
      intros m <-. by destruct m. }
  exists M1. pose proof (λ q, users_insert q Q c r r' Hc) as Huq.
  assert (Hact : ∀ r0 q, r0 ∈ <[c := r']> Q → active_mm r0 = Some q → is_Some (M1 !! q)).
  { intros r0 q Hin Hq. apply list_elem_of_lookup in Hin as [i Hi]. destruct (decide (i = c)) as [->|].
    - rewrite list_lookup_insert_eq in Hi by (by eapply lookup_lt_Some). injection Hi as <-.
      destruct (Hb q Hq) as (p&v&Hp&Hv). destruct (H3 p v q Hp Hv) as (x&Hx&_). eauto.
    - rewrite list_lookup_insert_ne in Hi by done. apply Hs1. eapply H2; [|done]. by eapply list_elem_of_lookup_2. }
  assert (Htask : ∀ p v q, V' p = Some v → v_mm v = Some q → ∃ x, M1 !! q = Some x ∧ 0 < urefs x).
  { intros p v q Hp Hv. destruct (HV p v q Hp Hv) as (p'&v'&Hp'&Hv').
    destruct (H3 p' v' q Hp' Hv') as (x&Hx&Hux). eauto. }
  destruct (active_mm r) as [a|] eqn:Ha.
  2:{ exists M1. split_and!; [done|intros m <-; by destruct m|]. split; [|done|done].
      intros q x Hx. destruct (Hc1 q x Hx). specialize (Huq q). rewrite (decide_False (P := None = Some q)) in Huq by done. lia. }
  destruct (H2 r a Hr Ha) as [x0 Hx0]. destruct (Hs1 a ltac:(eauto)) as [x Hx].
  destruct (Hc1 a x Hx) as [Hrefs Hur]. pose proof (users_pos a Q c r Hc Ha) as Hpos.
  rewrite (decide_False (P := active_mm r' = Some a)) in Hrefs by done.
  pose proof (Huq a) as Hua. rewrite (decide_True (P := Some a = Some a)), (decide_False (P := active_mm r' = Some a)) in Hua by done.
  assert (Hother : ∀ q y, q ≠ a → M1 !! q = Some y →
    refs y = (if decide (0 < urefs y) then 1 else 0) + users q (<[c := r']> Q) ∧ 0 ≤ urefs y < REFCOUNT_MAX).
  { intros q y Hq Hy. destruct (Hc1 q y Hy). specialize (Huq q).
    rewrite (decide_False (P := Some a = Some q)) in Huq by congruence. lia. }
  assert (Hdrop : ∀ m, mms m = M1 → drop_opt m (Some a) = Ok (set_mms m
    (if decide (refs x = 1) then delete a M1 else <[a := Mmrefs (urefs x) (refs x - 1)]> M1))).
  { intros m <-. simpl. unfold mm_drop. rewrite Hx. cbn [deref res_bind].
    rewrite dec_and_test_live by (case_decide; lia). cbn [res_bind].
    destruct (decide (refs x = 1)) as [E|E];
      [rewrite bool_decide_eq_true_2 by done|by rewrite bool_decide_eq_false_2 by done]. cbn [negb].
    assert (urefs x = 0) as -> by (case_decide; lia). done. }
  eexists. split_and!; [exact Hg|exact Hdrop|]. destruct (decide (refs x = 1)) as [E|E].
  - assert (urefs x = 0) as Hu0 by (case_decide; lia). rewrite Hu0 in Hrefs.
    rewrite (decide_False (P := 0 < 0)) in Hrefs by lia. split.
    + intros q y. rewrite lookup_delete_Some. intros [Hq Hy]. by apply Hother.
    + intros r0 q Hin Hq. destruct (decide (q = a)) as [->|].
      * exfalso. apply list_elem_of_lookup in Hin as [i Hi]. pose proof (users_pos a _ i r0 Hi Hq). lia.
      * rewrite lookup_delete_ne by done. eauto.
    + intros p v q Hp Hv. destruct (Htask p v q Hp Hv) as (y&Hy&Huy). exists y. split; [|done].
      rewrite lookup_delete_ne; [done|]. intros ->. rewrite Hx in Hy. injection Hy as <-. lia.
  - split.
    + intros q y. destruct (decide (q = a)) as [->|Hq]; [|rewrite lookup_insert_ne by done; by apply Hother].
      rewrite lookup_insert_eq. intros [= <-]. simpl. lia.
    + intros r0 q Hin Hq. destruct (decide (q = a)) as [->|]; [rewrite lookup_insert_eq; eauto|].
      rewrite lookup_insert_ne by done. eauto.
    + intros p v q Hp Hv. destruct (Htask p v q Hp Hv) as (y&Hy&Huy).
      destruct (decide (q = a)) as [->|]; [|rewrite lookup_insert_ne by done; eauto].
      rewrite lookup_insert_eq. eexists. split; [done|]. simpl. congruence.
Qed.

Lemma pick_spec m c r next vn rest :
  runqueues m !! c = Some r → vtab m next = Some vn →
  ready_list r = next :: rest ∨ (ready_list r = [] ∧ idle r = Some next ∧ rest = [] ∧ v_rq vn = false) →
  ∃ m', pick_next_task m c = Ok (Some next, m') ∧
    runqueues m' = <[c := with_ready r rest]> (runqueues m) ∧ mms m' = mms m ∧
    ∀ q, vtab m' q = if decide (q = next)
      then Some (View (v_cpu vn) (v_state vn) false (v_run vn) (v_mm vn)) else vtab m q.
Proof.
  intros Hr Hn Hl. unfold pick_next_task, cpu_rq. rewrite (arr_get_Ok _ _ _ Hr). cbn [res_bind].
  destruct Hl as [->|(Hl&Hi&->&Hq)].
  - destruct (vtab_get m next vn Hn) as (t&->&_&<-). cbn [res_bind]. eexists. split_and!; try done.
    intros q. by rewrite vtab_put.
  - rewrite Hl. exists m. rewrite Hi. split_and!; try done.
    + rewrite list_insert_id; [done|]. destruct r; simpl in *. by subst.
    + intros q. case_decide; [subst q|done]. rewrite Hn. destruct vn; simpl in *. by subst.
Qed.

(** A real switch, from the choice of the next task to the reference drop. *)
Lemma switch_spec m c r prev v next vn rest now M3 :
  runqueues m !! c = Some r → vtab m prev = Some v → vtab m next = Some vn → prev ≠ next →
  prev_mm r = None →
  ready_list r = next :: rest ∨ (ready_list r = [] ∧ idle r = Some next ∧ rest = [] ∧ v_rq vn = false) →
  (v_mm vn = active_mm r ∧ M3 = mms m) ∨
  (v_mm vn ≠ active_mm r ∧ ∃ M1, (∀ m', mms m' = mms m → grab_opt m' (v_mm vn) = Ok (set_mms m' M1)) ∧
     (∀ m', mms m' = M1 → drop_opt m' (active_mm r) = Ok (set_mms m' M3))) →
  ∃ m1 t1 q m2 m3, switch_next m c prev now = Ok (next, m1) ∧
    get_task m1 prev = Ok t1 ∧ state t1 = v_state v ∧
    sched_finish_switch_locked m1 c prev = Ok (q, m2) ∧ drop_opt m2 q = Ok m3 ∧
    runqueues m3 = <[c := Rq (Some next) (idle r) (v_mm vn) None rest (nr_runnable r)
                             (u64 (now + quantum_ticks))]> (runqueues m) ∧
    mms m3 = M3 ∧
    ∀ q, vtab m3 q = if decide (q = prev) then Some (View (v_cpu v) (v_state v) (v_rq v) false (v_mm v))
      else if decide (q = next) then Some (View (v_cpu vn) (v_state vn) false true (v_mm vn)) else vtab m q.
Proof.
  intros Hr Hp Hn Hne Hpm Hl HM. assert (Hlen : (c < length (runqueues m))%nat) by (by eapply lookup_lt_Some).
  unfold switch_next. destruct (vtab_get m prev v Hp) as (t&->&_&<-). cbn [res_bind].
  set (ma := put_task m prev _).
  assert (Hva : ∀ q, vtab ma q = vtab m q) by (intros q; apply vtab_same; by rewrite vw_need_resched).
  destruct (pick_spec ma c r next vn rest) as (mb&->&Hrb&Hmb&Hvb); [done|by rewrite Hva|done|].
  cbn [res_bind deref]. change (mms ma) with (mms m) in Hmb. change (runqueues ma) with (runqueues m) in Hrb.
  destruct (vtab_get mb next (View (v_cpu vn) (v_state vn) false (v_run vn) (v_mm vn))) as (tn&->&Htn&Hvn).
  { rewrite Hvb. by rewrite decide_True. }
  cbn [res_bind]. assert (Hcb : cpu_rq mb c = Ok (with_ready r rest)).
  { unfold cpu_rq. rewrite Hrb. apply arr_get_Ok. by apply list_lookup_insert_eq. }
  rewrite Hcb. cbn [res_bind]. assert (Hmm : t_mm tn = v_mm vn) by (by injection Hvn).
  change (active_mm (with_ready r rest)) with (active_mm r). rewrite Hmm.
  (* the machine with the address space switched *)
  assert (∃ mc a' p', (if bool_decide (v_mm vn ≠ active_mm r) then
      let! m0 := grab_opt mb (v_mm vn) in
      Ok (put_rq m0 c (with_mms (with_ready r rest) (v_mm vn) (active_mm r))) else Ok mb) = Ok mc ∧
    tasks mc = tasks mb ∧ a' = v_mm vn ∧
    runqueues mc = <[c := with_mms (with_ready r rest) a' p']> (runqueues m) ∧
    ∀ m', mms m' = mms mc → drop_opt m' p' = Ok (set_mms m' M3)) as (mc&a'&p'&Hgc&Htc&->&Hrc&Hdrop).
  { destruct HM as [[Heq ->]|(Hdiff&M1&Hg&Hd)].
    - rewrite bool_decide_eq_false_2 by tauto. exists mb, (v_mm vn), None. split_and!; try done.
      + rewrite Hrb. f_equal. unfold with_mms, with_ready. simpl. by rewrite Heq, Hpm.
      + intros m' Hm'. simpl. rewrite <-Hmb, <-Hm'. by destruct m'.
    - rewrite bool_decide_eq_true_2 by done. rewrite (Hg mb Hmb). cbn [res_bind].
      eexists _, (v_mm vn), (active_mm r). split_and!; try done.
      simpl. rewrite Hrb. by rewrite list_insert_insert_eq. }
  unfold grab_opt in Hgc. rewrite Hgc. cbn [res_bind]. unfold cpu_rq at 1. rewrite Hrc.
  rewrite (arr_get_Ok _ c (with_mms (with_ready r rest) (v_mm vn) p')) by (by apply list_lookup_insert_eq).
  cbn [res_bind]. set (rn := with_deadline _ _). set (md := put_rq mc c rn).
  assert (Htd : tasks md = tasks mb) by done.
  unfold get_task at 1. rewrite Htd, Htn. cbn [deref res_bind]. set (me := put_task md next _).
  assert (Hve : ∀ q, vtab me q = if decide (q = next)
     then Some (View (v_cpu vn) (v_state vn) false true (v_mm vn)) else vtab m q).
  { intros q. unfold me. rewrite vtab_put. injection Hvn as Hc1 Hs1 Hq1 _ Hm1. unfold vw. simpl.
    rewrite Hc1, Hs1, Hq1, Hm1. destruct (decide (q = next)); [done|]. unfold vtab. rewrite Htd.
    change (vtab mb q = vtab m q). rewrite Hvb, Hva. by rewrite decide_False. }
  assert (Hre : runqueues me = <[c := rn]> (runqueues m)).
  { simpl. rewrite Hrc. apply list_insert_insert_eq. }
  destruct (vtab_get me prev (vw t)) as (t1&Ht1&_&Hvt1). { rewrite Hve. by rewrite decide_False. }
  assert (Hcr : cpu_rq me c = Ok rn).
  { unfold cpu_rq. rewrite Hre. apply arr_get_Ok. by apply list_lookup_insert_eq. }
  set (mf := put_rq (put_task me prev (with_on_cpu t1 false)) c (with_mms rn (active_mm rn) None)).
  exists me, t1, p', mf, (set_mms mf M3). split; [done|]. split; [done|]. split; [by injection Hvt1|].
  split.
  { unfold sched_finish_switch_locked. rewrite Hcr. cbn [res_bind]. simpl (curr rn).
    rewrite bool_decide_eq_true_2 by congruence. cbn [Assert res_bind]. rewrite Ht1. done. }
  split; [by apply Hdrop|]. split; [|split; [done|]].
  - simpl. rewrite Hrc, !list_insert_insert_eq. done.
  - intros q. change (vtab (set_mms mf M3) q) with (vtab (put_task me prev (with_on_cpu t1 false)) q).
    rewrite vtab_put. injection Hvt1 as Hc1 Hs1 Hq1 _ Hm1. unfold vw. simpl. rewrite Hc1, Hs1, Hq1, Hm1.
    destruct (decide (q = prev)); [done|]. apply Hve.
Qed.

(** From the state [ma] in which [prev] has been queued or not, the switch to
    [next] re-establishes the invariant. *)
Lemma switch_case m ma c r prev v st (queued : bool) next rest now :
  sched_inv m → runqueues m !! c = Some r → curr r = Some prev → vtab m prev = Some v →
  st ≠ TASK_NEW → prev ≠ next →
  (if queued then st = TASK_RUNNABLE ∧ idle r ≠ Some prev ∧ ready_list r ≠ []
   else idle r = Some prev ∨ st ≠ TASK_RUNNABLE) →
  (idle r = Some prev → st = TASK_RUNNABLE ∧ ready_list r ≠ []) →
  (ready_list r ++ (if queued then [prev] else []) = next :: rest ∨
   (ready_list r = [] ∧ queued = false ∧ idle r = Some next ∧ rest = [])) →
  runqueues ma = <[c := with_runnable (with_ready r (ready_list r ++ if queued then [prev] else []))
                       (nr_runnable r - if decide (st = TASK_RUNNABLE) then 0 else 1)]> (runqueues m) →
  (∀ q, vtab ma q = if decide (q = prev) then Some (View (v_cpu v) st queued true (v_mm v)) else vtab m q) →
  mms ma = mms m →
  ∃ m1 t1 q m2 m3 r3, switch_next ma c prev now = Ok (next, m1) ∧
    get_task m1 prev = Ok t1 ∧ state t1 = st ∧
    sched_finish_switch_locked m1 c prev = Ok (q, m2) ∧ drop_opt m2 q = Ok m3 ∧ sched_inv m3 ∧
    runqueues m3 = <[c := r3]> (runqueues m) ∧
    curr r3 = Some next ∧ ready_list r3 = rest ∧ idle r3 = idle r.
Proof.
  intros Hinv Hr Hcu Hv Hst Hne Hq Hidle Hl Hra Hva Hma.
  assert (Hlen : (c < length (runqueues m))%nat) by (by eapply lookup_lt_Some).
  pose proof (inv_rq _ _ _ Hinv c r Hr) as Hrq.
  assert (Hnext : next ∈ ready_list r ∨ (ready_list r = [] ∧ idle r = Some next)).
  { destruct Hl as [Hl|(?&?&?&?)]; [left|by right]. destruct queued.
    - destruct Hq as (_&_&Hnn). destruct (ready_list r); [done|]. simplify_eq/=. by left.
    - rewrite app_nil_r in Hl. rewrite Hl. by left. }
  destruct (rk_member _ _ _ Hrq next) as (vn&Hvn&Hnewn&Hcpun); [tauto|].
  destruct (inv_task _ _ _ Hinv next vn Hvn Hnewn) as [rn Hokn].
  assert (rn = r) as -> by (pose proof (tk_rq _ _ _ _ Hokn) as H'; rewrite Hcpun, Nat2Z.id in H'; congruence).
  set (ra := with_runnable _ _) in Hra. set (V3 := λ q, if decide (q = prev)
    then Some (View (v_cpu v) st queued false (v_mm v))
    else if decide (q = next) then Some (View (v_cpu vn) (v_state vn) false true (v_mm vn)) else vtab m q).
  set (r3 := Rq (Some next) (idle r) (v_mm vn) None rest (nr_runnable ra) (u64 (now + quantum_ticks))).
  assert (HV3 : ∀ p w q, V3 p = Some w → v_mm w = Some q → ∃ p' w', vtab m p' = Some w' ∧ v_mm w' = Some q).
  { intros p w q. unfold V3. repeat case_decide; [intros [= <-]; eauto|intros [= <-]; eauto|eauto]. }
  assert (∃ M3, ((v_mm vn = active_mm ra ∧ M3 = mms ma) ∨
    (v_mm vn ≠ active_mm ra ∧ ∃ M1, (∀ m', mms m' = mms ma → grab_opt m' (v_mm vn) = Ok (set_mms m' M1)) ∧
       (∀ m', mms m' = M1 → drop_opt m' (active_mm ra) = Ok (set_mms m' M3)))) ∧
    mm_ok V3 (<[c := r3]> (runqueues m)) M3) as (M3&HM&Hok3).
  { change (active_mm ra) with (active_mm r). rewrite Hma. destruct (decide (v_mm vn = active_mm r)) as [E|E].
    - exists (mms m). split; [by left|]. eapply mm_ok_keep; [apply Hinv|done|done|done].
    - destruct (mm_switch_ok (vtab m) V3 (runqueues m) (mms m) c r r3) as (M1&M3&Hg&Hd&Hok3);
        [apply Hinv|done|apply Hinv|done|done| |].
      { intros q Hqm. exists next, vn. done. }
      exists M3. split; [|done]. right. split; [done|]. by exists M1. }
  destruct (switch_spec ma c ra prev (View (v_cpu v) st queued true (v_mm v)) next vn rest now M3)
    as (m1&t1&q&m2&m3&H1&H2&H3&H4&H5&H6&H7&H8).
  { rewrite Hra. by apply list_lookup_insert_eq. } { rewrite Hva. by rewrite decide_True. }
  { rewrite Hva. by rewrite decide_False. } { done. } { apply Hrq. }
  { simpl. destruct Hl as [Hl|(E&->&Hi&->)]; [by left|right]. rewrite E. split_and!; try done.
    destruct (v_rq vn) eqn:Ev; [|done]. apply (tk_on_rq _ _ _ _ Hokn) in Ev. rewrite E in Ev. by apply elem_of_nil in Ev. }
  { exact HM. }
  assert (Hv3 : ∀ q, vtab m3 q = V3 q).
  { intros q'. rewrite H8. unfold V3. simpl. destruct (decide (q' = prev)); [done|].
    destruct (decide (q' = next)); [done|]. rewrite Hva. by rewrite decide_False. }
  rewrite Hra, list_insert_insert_eq in H6. fold r3 in H6.
  exists m1, t1, q, m2, m3, r3. split_and!; try done.
  unfold sched_inv. rewrite H6, H7. eapply inv_ext; [exact Hv3|].
  eapply (switch_view_inv (vtab m) V3 _ (mms m) M3 c r r3 prev v next vn rest st queued); try done.
Qed.

(** The scheduling decision, on the run queue alone. *)
Definition policy (runnable rotate : bool) (prev i : positive) (ready : list positive)
    : positive * list positive :=
  if runnable then
    match ready with
    | [] => (prev, [])
    | n :: l => if decide (prev = i) then (n, l)
                else if rotate then (n, l ++ [prev]) else (prev, ready)
    end
  else match ready with [] => (i, []) | n :: l => (n, l) end.

(** Only the deadline of run queue [c] changes. *)
Lemma deadline_inv V Q M c r d :
  inv V Q M → Q !! c = Some r → inv V (<[c := with_deadline r d]> Q) M.
Proof.
  intros Hinv Hr. apply (inv_update V V Q M M c r _ (λ _, False)); try done.
  - intros q. right. by intros [].
  - by destruct (inv_rq _ _ _ Hinv c r Hr).
  - eapply mm_ok_keep; [apply Hinv|done|done|eauto].
Qed.

Lemma sched_switch_ok m c r prev t i rotate now :
  sched_inv m → runqueues m !! c = Some r → curr r = Some prev → idle r = Some i →
  tasks m !! prev = Some t →
  let runnable := (state t =? TASK_RUNNABLE) || signal_pending_state (state t) t in
  let next := (policy runnable (rotate || task_need_resched t) prev i (ready_list r)).1 in
  ∃ m' r', sched_switch m c rotate now =
      Ok (if bool_decide (prev ≠ next) && (state t =? TASK_ZOMBIE) then Some prev else None, m') ∧
    sched_inv m' ∧ runqueues m' = <[c := r']> (runqueues m) ∧ curr r' = Some next ∧
    ready_list r' = (policy runnable (rotate || task_need_resched t) prev i (ready_list r)).2 ∧
    idle r' = Some i.
Proof.
  intros Hinv Hr Hcu Hi Ht runnable next. pose proof (inv_rq _ _ _ Hinv c r Hr) as Hrq.
  assert (Hlen : (c < length (runqueues m))%nat) by (by eapply lookup_lt_Some).
  assert (Hv : vtab m prev = Some (vw t)) by (unfold vtab; by rewrite Ht).
  destruct (rk_member _ _ _ Hrq prev) as (v0&Hv0&Hnew&Hcpu); [auto|]. rewrite Hv in Hv0. injection Hv0 as <-.
  destruct (inv_task _ _ _ Hinv prev _ Hv Hnew) as [r0 Hok].
  assert (r0 = r) as -> by (pose proof (tk_rq _ _ _ _ Hok) as H'; rewrite Hcpu, Nat2Z.id in H'; congruence).
  assert (Hnin : prev ∉ ready_list r). { intros E. by apply (tk_ready _ _ _ _ Hok) in E as (_&_&?). }
  assert (Hrun : on_cpu t = true) by (by apply (tk_on_cpu _ _ _ _ Hok)).
  assert (Hnrq : on_rq t = false).
  { destruct (on_rq t) eqn:E; [|done]. exfalso. by apply Hnin, (tk_on_rq _ _ _ _ Hok). }
  assert (Hidlest : prev = i → state t = TASK_RUNNABLE). { intros ->. by apply (tk_idle _ _ _ _ Hok). }
  unfold sched_switch, cpu_rq. rewrite (arr_get_Ok _ _ _ Hr). cbn [res_bind]. rewrite Hcu. cbn [deref res_bind].
  unfold sched_prepare_switch_locked, cpu_rq. rewrite (arr_get_Ok _ _ _ Hr). cbn [res_bind]. rewrite Hcu.
  cbn [deref res_bind]. unfold get_task at 1. rewrite Ht. cbn [deref res_bind].
  set (t' := if signal_pending_state _ _ then _ else _).
  assert (Hst : state t' = if runnable then TASK_RUNNABLE else state t).
  { unfold t', runnable. destruct (Z.eqb_spec (state t) TASK_RUNNABLE) as [E|]; [by destruct (signal_pending_state _ _)|].
    by destruct (signal_pending_state _ _). }
  assert (Hz : (state t' =? TASK_ZOMBIE) = (state t =? TASK_ZOMBIE)).
  { rewrite Hst. unfold runnable. destruct (Z.eqb_spec (state t) TASK_ZOMBIE) as [->|]; [done|].
    destruct (_ || _); [done|]. by apply Z.eqb_neq. }
  assert (Hnr : runnable = false → state t ≠ TASK_RUNNABLE).
  { unfold runnable. intros [E _]%orb_false_iff. by apply Z.eqb_neq. }
  assert (Hnst : state t' ≠ TASK_NEW). { rewrite Hst. by destruct runnable. }
  assert (Hneed : task_need_resched t' = task_need_resched t) by (unfold t'; by destruct (signal_pending_state _ _)).
  assert (Hvw : vw t' = View (cpu_id t) (state t') false true (t_mm t)).
  { unfold vw, t'. destruct (signal_pending_state _ _); simpl; by rewrite Hnrq, Hrun. }
  set (m1 := put_task m prev t').
  assert (Hv1 : ∀ q, vtab m1 q = if decide (q = prev)
    then Some (View (cpu_id t) (state t') false true (t_mm t)) else vtab m q).
  { intros q. unfold m1. by rewrite vtab_put, Hvw. }
  (* the two ways in which prev keeps the CPU *)
  assert (Hkeep : sched_inv m1).
  { destruct (decide (prev = i)) as [E|E].
    - eapply inv_ext; [|exact Hinv]. intros q. rewrite Hv1. case_decide; [subst q|done].
      rewrite Hv. unfold vw. rewrite Hnrq, Hrun, Hst, (Hidlest E). by destruct runnable.
    - eapply (curr_state_inv (vtab m) _ _ _ c r prev (vw t) (state t')); try done; [congruence|].
      intros q. rewrite Hv1. simpl. by rewrite Hnrq, Hrun. }
  (* any real switch *)
  assert (Hswitch : ∀ ma (queued : bool) n rest,
    (policy runnable (rotate || task_need_resched t) prev i (ready_list r)) = (n, rest) → prev ≠ n →
    (if queued then state t' = TASK_RUNNABLE ∧ idle r ≠ Some prev ∧ ready_list r ≠ []
     else idle r = Some prev ∨ state t' ≠ TASK_RUNNABLE) →
    (idle r = Some prev → state t' = TASK_RUNNABLE ∧ ready_list r ≠ []) →
    (ready_list r ++ (if queued then [prev] else []) = n :: rest ∨
     (ready_list r = [] ∧ queued = false ∧ idle r = Some n ∧ rest = [])) →
    runqueues ma = <[c := with_runnable (with_ready r (ready_list r ++ if queued then [prev] else []))
                         (nr_runnable r - if decide (state t' = TASK_RUNNABLE) then 0 else 1)]> (runqueues m) →
    (∀ q, vtab ma q = if decide (q = prev) then Some (View (cpu_id t) (state t') queued true (t_mm t)) else vtab m q) →
    mms ma = mms m →
    ∃ m' r', (let! (next0, m0) := switch_next ma c prev now in
        if bool_decide (prev ≠ next0) then
          let! t0 := get_task m0 prev in
          let! (q, m2) := sched_finish_switch_locked m0 c prev in
          let! m3 := match q with Some q => mm_drop m2 q | None => Ok m2 end in
          Ok (if state t0 =? TASK_ZOMBIE then Some prev else None, m3)
        else Ok (None, m0)) =
        Ok (if bool_decide (prev ≠ next) && (state t =? TASK_ZOMBIE) then Some prev else None, m') ∧
      sched_inv m' ∧ runqueues m' = <[c := r']> (runqueues m) ∧ curr r' = Some next ∧
      ready_list r' = (policy runnable (rotate || task_need_resched t) prev i (ready_list r)).2 ∧
      idle r' = Some i).
  { intros ma queued n rest Hpol Hpn Hq Hid Hl Hra Hva Hma. unfold next. rewrite Hpol. simpl.
    destruct (switch_case m ma c r prev (vw t) (state t') queued n rest now)
      as (ma1&t1&q&m2&m3&r3&->&Hg1&Hs1&Hfin&Hdr&Hinv3&Hr3&Hc3&Hl3&Hi3); try done.
    cbn [res_bind]. rewrite bool_decide_eq_true_2 by done. rewrite Hg1. cbn [res_bind]. rewrite Hfin. cbn [res_bind].
    unfold drop_opt in Hdr. rewrite Hdr. cbn [res_bind]. exists m3, r3. rewrite Hs1, Hz.
    split_and!; try done. congruence. }
  unfold next in *. destruct runnable eqn:Hrunn; rewrite Hst in *.
  - change (TASK_RUNNABLE =? TASK_RUNNABLE) with true. cbn [negb]. destruct (ready_list r) as [|n l] eqn:Hready.
    + cbn [res_bind policy fst snd]. rewrite (bool_decide_eq_false_2 (prev ≠ prev)) by tauto. cbn [andb].
      set (rr := if _ && _ then _ else _).
      assert (∃ d, rr = with_deadline r d) as [d Hrr].
      { unfold rr. destruct (bool_decide (Some prev ≠ idle r) && _); [eauto|].
        exists (quantum_deadline r). by destruct r. }
      eexists _, rr. split; [done|]. split; [|rewrite Hrr; done].
      unfold sched_inv. eapply inv_ext.
      { intros q. apply (vtab_same (put_rq m1 c rr)). rewrite vw_need_resched.
        change (vtab m1 prev = Some (vw t')). rewrite Hv1, decide_True, Hvw by done. done. }
      simpl. rewrite Hrr. apply deadline_inv; [exact Hkeep|done].
    + destruct (decide (prev = i)) as [Epi|Epi].
      * rewrite bool_decide_eq_false_2 by (rewrite Hi; congruence). apply (Hswitch m1 false n l).
        { cbn [policy]. by rewrite decide_True. } { intros ->. apply Hnin. by left. }
        { left. congruence. } { done. } { left. by rewrite app_nil_r. } 2: { done. } 2: { done. }
        simpl. rewrite app_nil_r, Z.sub_0_r. symmetry. apply list_insert_id. rewrite Hr. f_equal.
        destruct r; simpl in *. by subst.
      * rewrite bool_decide_eq_true_2 by (rewrite Hi; congruence). rewrite Hneed.
        destruct (rotate || task_need_resched t) eqn:Hrot.
        -- rewrite <-negb_orb, Hrot. cbn [negb].
           destruct (enqueue_spec m1 c prev r (View (cpu_id t) TASK_RUNNABLE false true (t_mm t)) prev)
             as (m2&->&Hr2&Hv2&Hm2&_); [done| |done|congruence|done| |].
           { rewrite Hv1. by rewrite decide_True. } { rewrite Hv1. rewrite decide_True by done. eauto. }
           cbn [res_bind]. apply (Hswitch m2 true n (l ++ [prev])).
           { cbn [policy]. by rewrite decide_False. } { intros ->. apply Hnin. by left. }
           { split_and!; [done|congruence|done]. } { intros E. congruence. } { left. done. }
           { rewrite Hr2, Hready. simpl. f_equal. unfold with_ready, with_runnable. simpl. by rewrite Z.sub_0_r. }
           { intros q. rewrite Hv2. simpl. destruct (decide (q = prev)); [done|]. rewrite Hv1. by rewrite decide_False. }
           { done. }
        -- rewrite <-negb_orb, Hrot. cbn [negb policy res_bind]. rewrite (decide_False (P := prev = i)) by done. cbn [fst snd].
           rewrite (bool_decide_eq_false_2 (prev ≠ prev)) by tauto. cbn [andb]. exists m1, r. split; [done|]. split; [done|].
           split; [simpl; by rewrite list_insert_id|]. done.
  - specialize (Hnr eq_refl). destruct (Z.eqb_spec (state t) TASK_RUNNABLE) as [|_]; [done|]. cbn [negb].
    assert (Hpi : prev ≠ i) by (intros E; by apply Hidlest in E).
    set (n := match ready_list r with [] => i | n :: _ => n end). set (l := tail (ready_list r)).
    apply (Hswitch _ false n l).
    { cbn [policy]. unfold n, l. by destruct (ready_list r). }
    { unfold n. destruct (ready_list r); [done|]. intros ->. apply Hnin. by left. }
    { by right. } { intros E. congruence. }
    { unfold n, l. destruct (ready_list r); [right; split_and!; done|left; by rewrite app_nil_r]. }
    { simpl. rewrite app_nil_r, decide_False by done. done. }
    { intros q. change (vtab (put_rq m1 c _) q) with (vtab m1 q). apply Hv1. }
    { done. }
Qed.

(** ** The current task and the clock *)

Lemma curr_lookup m c r :
  sched_inv m → runqueues m !! c = Some r →
  ∃ cu t, curr r = Some cu ∧ tasks m !! cu = Some t ∧ state t ≠ TASK_NEW ∧ cpu_id t = Z.of_nat c.
Proof.
  intros Hinv Hr. pose proof (inv_rq _ _ _ Hinv c r Hr) as Hrq. destruct (rk_curr _ _ _ Hrq) as [cu Hcu].
  destruct (rk_member _ _ _ Hrq cu) as (v&Hv&Hn&Hc); [auto|].
  destruct (vtab_lookup m cu v Hv) as (t&Ht&<-). eauto 10.
Qed.

Lemma curr_put_inv m c r cu t t' :
  sched_inv m → runqueues m !! c = Some r → curr r = Some cu → tasks m !! cu = Some t →
  vw t' = View (cpu_id t) (state t') (on_rq t) (on_cpu t) (t_mm t) →
  (state t' = state t ∨ (idle r ≠ Some cu ∧ state t' ≠ TASK_NEW)) → sched_inv (put_task m cu t').
Proof.
  intros Hinv Hr Hcu Ht Hvw Hst. unfold sched_inv. destruct Hst as [Hst|[Hi Hst]].
  - eapply inv_ext; [|exact Hinv]. intros q. apply vtab_same. unfold vtab. rewrite Ht, Hvw, Hst. done.
  - assert (Hv : vtab m cu = Some (vw t)) by (unfold vtab; by rewrite Ht).
    destruct (rk_member _ _ _ (inv_rq _ _ _ Hinv c r Hr) cu) as (v&Hv'&Hn&Hc); [auto|].
    rewrite Hv in Hv'. injection Hv' as <-.
    eapply (curr_state_inv (vtab m) _ _ _ c r cu (vw t) (state t')); try done.
    intros q. rewrite vtab_put, Hvw. done.
Qed.

Lemma set_sleep_inv m c r st :
  sched_inv m → runqueues m !! c = Some r → curr r ≠ idle r →
  st ∈ [TASK_INTERRUPTIBLE; TASK_UNINTERRUPTIBLE; TASK_KILLABLE] →
  ∃ m', sched_set_sleep_locked m c st = Ok m' ∧ sched_inv m' ∧ next_cpu m' = next_cpu m.
Proof.
  intros Hinv Hr Hne Hst. destruct (curr_lookup m c r Hinv Hr) as (cu&t&Hcu&Ht&Hn&Hc).
  unfold sched_set_sleep_locked, cpu_rq. rewrite (arr_get_Ok _ _ _ Hr). cbn [res_bind].
  rewrite bool_decide_eq_true_2 by done.
  replace ((st =? TASK_INTERRUPTIBLE) || _ || _) with true
    by (rewrite !elem_of_cons, elem_of_nil in Hst; destruct Hst as [->|[->|[->|[]]]]; done).
  cbn [andb Assert res_bind]. rewrite Hcu. cbn [deref res_bind]. unfold get_task. rewrite Ht. cbn [deref res_bind].
  eexists. split; [done|]. split; [|done]. eapply curr_put_inv; try done. right. split; [congruence|].
  simpl. rewrite !elem_of_cons, elem_of_nil in Hst; destruct Hst as [->|[->|[->|[]]]]; done.
Qed.

Lemma sched_stop_inv m c r :
  sched_inv m → runqueues m !! c = Some r → curr r ≠ idle r →
  ∃ m', sched_stop m c = Ok m' ∧ sched_inv m' ∧ next_cpu m' = next_cpu m.
Proof.
  intros Hinv Hr Hne. destruct (curr_lookup m c r Hinv Hr) as (cu&t&Hcu&Ht&Hn&Hc).
  unfold sched_stop, cpu_rq. rewrite (arr_get_Ok _ _ _ Hr). cbn [res_bind]. rewrite Hcu. cbn [deref res_bind].
  unfold get_task. rewrite Ht. cbn [deref res_bind]. destruct (task_test_flag t TF_STOPPENDING); [|eauto].
  eexists. split; [done|]. split; [|done]. eapply curr_put_inv; try done. right. split; [congruence|done].
Qed.

Lemma sched_tick_inv m c r now :
  sched_inv m → runqueues m !! c = Some r →
  ∃ m', sched_tick m c now = Ok m' ∧ sched_inv m' ∧ next_cpu m' = next_cpu m.
Proof.
  intros Hinv Hr. destruct (curr_lookup m c r Hinv Hr) as (cu&t&Hcu&Ht&Hn&Hc).
  unfold sched_tick, cpu_rq. rewrite (arr_get_Ok _ _ _ Hr). cbn [res_bind].
  destruct (_ && _); [|eauto]. destruct (ready_list r).
  - eexists. split; [done|]. split; [|done]. by apply deadline_inv.
  - rewrite Hcu. cbn [deref res_bind]. unfold get_task. rewrite Ht. cbn [deref res_bind].
    eexists. split; [done|]. split; [|done]. eapply curr_put_inv; try done. by left.
Qed.

(** ** Placement and publication *)

Definition load (m : machine) (c : nat) : option Z := nr_runnable <$> runqueues m !! c.

Lemma select_loop_spec n m cpu selected least :
  (cpu < length (runqueues m))%nat → load m selected = Some least →
  ∃ s l, select_loop n m cpu selected least = Ok s ∧ load m s = Some l ∧ l ≤ least ∧
    ∀ j x, (1 ≤ j ≤ n)%nat → load m ((cpu + j) mod length (runqueues m))%nat = Some x → l ≤ x.
Proof.
  revert cpu selected least. induction n as [|n IH]; intros cpu selected least Hcpu Hsel; cbn [select_loop]; cbv zeta.
  { exists selected, least. split_and!; [done..|lia|]. intros j x Hj. lia. }
  set (len := length (runqueues m)) in *. set (nxt := if (S cpu =? len)%nat then 0%nat else S cpu).
  assert (Hnxt : nxt = ((cpu + 1) mod len)%nat ∧ (nxt < len)%nat).
  { unfold nxt. destruct (Nat.eqb_spec (S cpu) len) as [E|E].
    - rewrite Nat.add_1_r, E, Nat.Div0.mod_same. lia.
    - rewrite Nat.mod_small; lia. }
  destruct Hnxt as [Hnxt Hlt]. destruct (lookup_lt_is_Some_2 (runqueues m) nxt Hlt) as [r Hr].
  unfold cpu_rq. rewrite (arr_get_Ok _ _ _ Hr). cbn [res_bind].
  assert (Hl : load m nxt = Some (nr_runnable r)) by (unfold load; by rewrite Hr).
  assert (Hstep : ∀ j, ((nxt + j) mod len = (cpu + S j) mod len)%nat).
  { intros j. rewrite Hnxt, Nat.Div0.add_mod_idemp_l. f_equal. lia. }
  destruct (Z.ltb_spec (nr_runnable r) least).
  - destruct (IH nxt nxt (nr_runnable r) Hlt Hl) as (s'&l&->&Hs&Hle&Hall).
    exists s', l. split_and!; [done|done|lia|]. intros j x Hj Hx. destruct (decide (j = 1%nat)) as [->|].
    + rewrite <-Hnxt, Hl in Hx. injection Hx as <-. lia.
    + apply (Hall (j - 1)%nat); [lia|]. rewrite Hstep. replace (S (j - 1)) with j by lia. done.
  - destruct (IH nxt selected least Hlt Hsel) as (s'&l&->&Hs&Hle&Hall).
    exists s', l. split_and!; [done|done|lia|]. intros j x Hj Hx. destruct (decide (j = 1%nat)) as [->|].
    + rewrite <-Hnxt, Hl in Hx. injection Hx as <-. lia.
    + apply (Hall (j - 1)%nat); [lia|]. rewrite Hstep. replace (S (j - 1)) with j by lia. done.
Qed.

Definition placed (m : machine) : Prop := 0 ≤ next_cpu m < Z.of_nat (length (runqueues m)).

(** [select_cpu] returns a least-loaded CPU and stays in range. *)
Lemma select_cpu_spec m :
  placed m →
  ∃ c l m', select_cpu m = Ok (c, m') ∧ load m c = Some l ∧
    (∀ c' x, load m c' = Some x → l ≤ x) ∧
    tasks m' = tasks m ∧ runqueues m' = runqueues m ∧ mms m' = mms m ∧ placed m'.
Proof.
  intros Hp. unfold placed in Hp. unfold select_cpu. set (start := Z.to_nat (next_cpu m)).
  destruct (lookup_lt_is_Some_2 (runqueues m) start) as [r Hr]; [lia|].
  unfold cpu_rq. rewrite (arr_get_Ok _ _ _ Hr). cbn [res_bind].
  destruct (select_loop_spec (length (runqueues m) - 1) m start start (nr_runnable r)) as (s&l&->&Hs&Hle&Hall);
    [lia|unfold load; by rewrite Hr|]. cbn [res_bind].
  assert (Hsl : (s < length (runqueues m))%nat).
  { unfold load in Hs. destruct (runqueues m !! s) eqn:E; [by eapply lookup_lt_Some|done]. }
  eexists s, l, _. split_and!; try done.
  - intros c' x Hx. assert (Hc' : (c' < length (runqueues m))%nat).
    { unfold load in Hx. destruct (runqueues m !! c') eqn:E; [by eapply lookup_lt_Some|done]. }
    destruct (decide (c' = start)) as [->|Hne].
    { unfold load in Hx. rewrite Hr in Hx. injection Hx as <-. done. }
    apply (Hall ((c' + length (runqueues m) - start) mod length (runqueues m))%nat x).
    + destruct (decide (start < c')%nat).
      * replace (c' + length (runqueues m) - start)%nat with (c' - start + 1 * length (runqueues m))%nat by lia.
        rewrite Nat.Div0.mod_add, Nat.mod_small by lia. lia.
      * rewrite Nat.mod_small by lia. lia.
    + rewrite Nat.Div0.add_mod_idemp_r. replace (start + (c' + length (runqueues m) - start))%nat
        with (c' + 1 * length (runqueues m))%nat by lia.
      rewrite Nat.Div0.mod_add, Nat.mod_small by lia. done.
  - unfold placed. cbn [next_cpu runqueues].
    destruct (Nat.eqb_spec (S s) (length (runqueues m))); lia.
Qed.

Lemma sched_publish_inv m me p t :
  sched_inv m → placed m → tasks m !! p = Some t → state t = TASK_NEW →
  0 < t_refcount t < REFCOUNT_MAX →
  ∃ c l ipi m', sched_publish m me p = Ok (c, ipi, m') ∧ sched_inv m' ∧ placed m' ∧ woken m' p ∧
    load m c = Some l ∧ (∀ c' x, load m c' = Some x → l ≤ x) ∧ load m' c = Some (l + 1).
Proof.
  intros Hinv Hpl Ht Hst Href. unfold sched_publish, get_task. rewrite Ht. cbn [deref res_bind].
  rewrite Hst. cbn [Z.eqb TASK_NEW Assert res_bind].
  destruct (select_cpu_spec m Hpl) as (c&l&m1&->&Hl&Hmin&Ht1&Hr1&Hm1&Hpl1). cbn [res_bind].
  set (t1 := with_cpu t (Z.of_nat c)). unfold task_get. rewrite get_put. cbn [res_bind].
  change (t_refcount t1) with (t_refcount t). rewrite inc_live by done. cbn [res_bind].
  set (t2 := with_refcount t1 _). set (m2 := put_task (put_task m1 p t1) p t2).
  assert (Hg2 : tasks m2 !! p = Some t2) by (unfold m2; simpl; by rewrite lookup_insert_eq).
  rewrite Hg2. cbn [deref res_bind].
  unfold load in Hl. destruct (runqueues m !! c) as [r|] eqn:Hr; [|done]. injection Hl as Hl.
  pose proof (inv_rq _ _ _ Hinv c r Hr) as Hrq. destruct (rk_curr _ _ _ Hrq) as [cu Hcu].
  assert (Hv : vtab m p = Some (vw t)) by (unfold vtab; by rewrite Ht).
  destruct (inv_new _ _ _ Hinv p (vw t) Hv Hst) as [Hnq Hnc]. simpl in Hnq, Hnc.
  assert (Hnone : ∀ q, q ∈ ready_list r ∨ idle r = Some q ∨ curr r = Some q → q ≠ p).
  { intros q Hq ->. destruct (rk_member _ _ _ Hrq p Hq) as (v&Hv'&Hn&_). rewrite Hv in Hv'.
    injection Hv' as <-. done. }
  assert (Hv2 : ∀ q, vtab m2 q = if decide (q = p) then Some (vw t2) else vtab m q).
  { intros q. unfold m2. rewrite !vtab_put. destruct (decide (q = p)); [done|]. unfold vtab. by rewrite Ht1. }
  destruct (wake_queue m2 c p r t2 cu) as (m3&m'&->&Hrq3&Hm'&Hq'&Hv'&Hmm&Hnx); try done.
  { simpl. by rewrite Hr1. } { intros E. by apply (Hnone p); auto. }
  { rewrite Hv2. case_decide; [eauto|]. destruct (rk_member _ _ _ Hrq cu) as (v&->&_); eauto. }
  cbn [res_bind]. rewrite Hrq3. cbn [res_bind].
  assert (Hlen : (c < length (runqueues m))%nat) by (by eapply lookup_lt_Some).
  change (runqueues m2) with (runqueues m1) in Hq'. rewrite Hr1 in Hq'.
  eexists c, l, _, m'. split; [by rewrite Hm'|]. split_and!.
  - unfold sched_inv. rewrite Hq', Hmm. change (mms m2) with (mms m1). rewrite Hm1.
    eapply (join_ready_inv (vtab m) _ _ _ c r p (vw t)); try done.
    + intros E. by apply (Hnone p); auto.
    + intros E. by apply (Hnone p); auto.
    + intros E. by apply (Hnone p); auto.
    + intros q. rewrite Hv', Hv2. by destruct (decide (q = p)); [simpl; rewrite Hnc|].
  - unfold placed. rewrite Hnx, Hq', length_insert. change (next_cpu m2) with (next_cpu m1).
    unfold placed in Hpl1. by rewrite Hr1 in Hpl1.
  - destruct (vtab_lookup m' p (View (Z.of_nat c) TASK_RUNNABLE true (on_cpu t2) (t_mm t2))) as (t'&Ht'&Hvw).
    { rewrite Hv'. by rewrite decide_True. }
    injection Hvw as Hc' Hs' _ _ _. eexists t', _. split; [done|]. split; [done|].
    rewrite Hc', Nat2Z.id, Hq'. split; [by apply list_lookup_insert_eq|].
    simpl. rewrite elem_of_app, list_elem_of_singleton. auto.
  - unfold load. by rewrite Hr, <-Hl.
  - done.
  - unfold load. rewrite Hq', list_lookup_insert_eq by done. simpl. by rewrite <-Hl.
Qed.

(** ** Next-CPU cursor is only moved by publication *)

Lemma enqueue_next m c p m' : enqueue_task m c p = Ok m' → next_cpu m' = next_cpu m ∧ length (runqueues m') = length (runqueues m).
Proof.
  unfold enqueue_task. intros H. res_inv. destruct (bool_decide (curr _ = _)); res_inv; simpl; by rewrite ?length_insert.
Qed.

Lemma wake_placed m me p st b i m' : wake_task m me p st = Ok (b, i, m') → placed m → placed m'.
Proof.
  unfold wake_task, placed. intros H. res_inv. destruct (truth _); res_inv; [|done].
  destruct (negb _); res_inv; [|done]. apply enqueue_next in E0 as [Hn Hl].
  simpl. rewrite length_insert, Hn, Hl. done.
Qed.

Lemma grab_next m o m' : grab_opt m o = Ok m' → next_cpu m' = next_cpu m.
Proof. unfold grab_opt, mm_grab. intros H. destruct o; res_inv; done. Qed.

Lemma drop_next m o m' : drop_opt m o = Ok m' → next_cpu m' = next_cpu m.
Proof.
  unfold drop_opt, mm_drop. intros H. destruct o; res_inv; [|done].
  match goal with H : (if ?b then _ else _) = _ |- _ => destruct b end; res_inv; done.
Qed.

Lemma switch_next_cursor m c prev now n m' : switch_next m c prev now = Ok (n, m') → next_cpu m' = next_cpu m.
Proof.
  unfold switch_next. intros H. res_inv. unfold pick_next_task in *. res_inv.
  destruct (ready_list _); res_inv;
    match goal with H : (if bool_decide ?P then _ else _) = Ok _ |- _ => destruct (bool_decide P) end;
    res_inv; try done;
    match goal with H : match ?o with Some q => mm_grab _ q | None => _ end = Ok _ |- _ =>
      apply (grab_next _ o) in H; done end.
Qed.

Lemma prepare_cursor m c rotate now n m' :
  sched_prepare_switch_locked m c rotate now = Ok (n, m') → next_cpu m' = next_cpu m.
Proof.
  unfold sched_prepare_switch_locked. intros H. res_inv.
  match goal with H : (if ?b then _ else _) = Ok _ |- _ => destruct b end.
  { by apply switch_next_cursor in H. }
  destruct (ready_list _); res_inv; [done|].
  destruct (bool_decide (Some _ ≠ _)); res_inv; [|by apply switch_next_cursor in H].
  destruct (negb rotate && _); res_inv; [done|].
  match goal with H' : enqueue_task _ _ _ = Ok _ |- _ =>
    apply switch_next_cursor in H; apply enqueue_next in H' as [? _]; simpl in *; congruence end.
Qed.

Lemma sched_switch_cursor m c rotate now z m' :
  sched_switch m c rotate now = Ok (z, m') → next_cpu m' = next_cpu m.
Proof.
  unfold sched_switch. intros H. res_inv.
  match goal with H' : sched_prepare_switch_locked _ _ _ _ = Ok _ |- _ => apply prepare_cursor in H' end.
  match goal with H : (if bool_decide ?P then _ else _) = Ok _ |- _ => destruct (bool_decide P) end;
    res_inv; [|done].
  unfold sched_finish_switch_locked in *. res_inv.
  match goal with H : match ?o with Some q => mm_drop _ q | None => _ end = Ok _ |- _ =>
    apply (drop_next _ o) in H; simpl in *; congruence end.
Qed.

(** ** The machine as a whole *)

Inductive sched_op :=
  | OPublish (me : nat) (p : positive)
  | OWake (me : nat) (p : positive) (states : Z)
  | OSleep (c : nat) (st : Z)
  | OStop (c : nat)
  | OSwitch (c : nat) (rotate : bool) (now : Z)
  | OExit (c : nat) (now : Z)
  | OTick (c : nat) (now : Z).

Definition run_op (m : machine) (o : sched_op) : res machine :=
  match o with
  | OPublish me p => let! (_, _, m) := sched_publish m me p in Ok m
  | OWake me p states => let! (_, _, m) := wake_task m me p states in Ok m
  | OSleep c st => sched_set_sleep_locked m c st
  | OStop c => sched_stop m c
  | OSwitch c rotate now => let! (_, m) := sched_switch m c rotate now in Ok m
  | OExit c now => let! (_, m) := sched_exit m c now in Ok m
  | OTick c now => sched_tick m c now
  end.

Definition ordinary (m : machine) (c : nat) : Prop :=
  ∃ r, runqueues m !! c = Some r ∧ curr r ≠ idle r.

(** What the header asks of the callers. *)
Definition op_pre (m : machine) (o : sched_op) : Prop :=
  match o with
  | OPublish _ p => ∃ t, tasks m !! p = Some t ∧ state t = TASK_NEW ∧ 0 < t_refcount t < REFCOUNT_MAX
  | OWake _ p states => is_Some (tasks m !! p) ∧ Z.land states TASK_RUNNABLE = 0
  | OSleep c st => ordinary m c ∧ st ∈ [TASK_INTERRUPTIBLE; TASK_UNINTERRUPTIBLE; TASK_KILLABLE]
  | OStop c => ordinary m c
  | OSwitch c _ _ | OTick c _ => is_Some (runqueues m !! c)
  | OExit c _ => ∃ r p t, runqueues m !! c = Some r ∧ curr r = Some p ∧ idle r ≠ Some p ∧
      tasks m !! p = Some t ∧ t_mm t = None ∧ t_fdtable t = false
  end.

Inductive reachable (m0 : machine) : machine → Prop :=
  | reach_here : reachable m0 m0
  | reach_op m o m' : reachable m0 m → op_pre m o → run_op m o = Ok m' → reachable m0 m'.

Lemma switch_op_ok m c rotate now :
  sched_inv m → is_Some (runqueues m !! c) →
  ∃ z m', sched_switch m c rotate now = Ok (z, m') ∧ sched_inv m' ∧ (placed m → placed m').
Proof.
  intros Hinv [r Hr]. destruct (curr_lookup m c r Hinv Hr) as (cu&t&Hcu&Ht&_&_).
  destruct (rk_idle _ _ _ (inv_rq _ _ _ Hinv c r Hr)) as [i Hi].
  destruct (sched_switch_ok m c r cu t i rotate now) as (m'&r'&Hsw&Hinv'&Hr'&_); try done.
  eexists _, m'. split; [exact Hsw|]. split; [done|]. unfold placed.
  rewrite (sched_switch_cursor _ _ _ _ _ _ Hsw), Hr', length_insert. done.
Qed.

Lemma run_op_ok m o :
  sched_inv m → placed m → op_pre m o → ∃ m', run_op m o = Ok m' ∧ sched_inv m' ∧ placed m'.
Proof.
  intros Hinv Hpl Hpre.
  assert (Hkeep : ∀ c r, runqueues m !! c = Some r → ∀ m', length (runqueues m') = length (runqueues m) →
    next_cpu m' = next_cpu m → placed m') by (intros c r _ m' Hl Hn; unfold placed; by rewrite Hl, Hn).
  destruct o as [me p|me p states|c st|c|c rotate now|c now|c now]; simpl in *.
  - destruct Hpre as (t&Ht&Hs&Hrf).
    destruct (sched_publish_inv m me p t) as (c&l&i&m'&->&?&?&_); try done. simpl. eauto.
  - destruct Hpre as [[t Ht] Hmask].
    destruct (wake_task_inv m me p states t) as (i&m'&Hw&?&_); try done. rewrite Hw. simpl.
    exists m'. split_and!; [done..|]. by eapply wake_placed.
  - destruct Hpre as [(r&Hr&Hne) Hst]. destruct (set_sleep_inv m c r st) as (m'&Hm&?&?); try done.
    exists m'. split_and!; [done..|]. eapply Hkeep; [done| |done].
    unfold sched_set_sleep_locked in Hm. res_inv. done.
  - destruct Hpre as (r&Hr&Hne). destruct (sched_stop_inv m c r) as (m'&Hm&?&?); try done.
    exists m'. split_and!; [done..|]. eapply Hkeep; [done| |done].
    unfold sched_stop in Hm. res_inv. destruct (task_test_flag _ _); res_inv; done.
  - destruct (switch_op_ok m c rotate now) as (z&m'&->&?&?); try done. simpl. eauto.
  - destruct Hpre as (r&p&t&Hr&Hc&Hi&Ht&Hmm&Hfd). unfold sched_exit, cpu_rq.
    rewrite (arr_get_Ok _ _ _ Hr). cbn [res_bind]. rewrite Hc. cbn [deref res_bind].
    rewrite bool_decide_eq_true_2 by congruence. cbn [Assert res_bind]. unfold get_task. rewrite Ht. cbn [deref res_bind].
    rewrite bool_decide_eq_true_2, Hfd by done. cbn [andb negb Assert res_bind].
    destruct (switch_op_ok (put_task m p (with_state t TASK_ZOMBIE)) c false now) as (z&m'&->&?&?).
    { eapply curr_put_inv; try done. by right. } { simpl. eauto. } simpl. eauto.
  - destruct Hpre as [r Hr]. destruct (sched_tick_inv m c r now) as (m'&Hm&?&?); try done.
    exists m'. split_and!; [done..|]. eapply Hkeep; [done| |done].
    unfold sched_tick in Hm. res_inv. destruct (_ && _); res_inv; [|done].
    destruct (ready_list _); res_inv; simpl; by rewrite ?length_insert.
Qed.

(** C1: from a consistent machine every sequence of scheduler operations by
    any CPUs - publication, wakeups, going to sleep, stopping, switching,
    exiting, ticks - runs without a failed assertion or a bad access and keeps
    the invariant: a runnable task is always the idle task, in the ready list
    of its own CPU exactly once, or running there; the flags on_rq and on_cpu
    say so; the load counts and the address-space reference counts are exact. *)
Theorem sched_reachable_safe m0 m :
  sched_inv m0 → placed m0 → reachable m0 m →
  sched_inv m ∧ (∀ o, op_pre m o → ∃ m', run_op m o = Ok m') ∧
  (∀ p t, tasks m !! p = Some t → state t = TASK_RUNNABLE →
     ∃ r, runqueues m !! Z.to_nat (cpu_id t) = Some r ∧
       (idle r = Some p ∨ p ∈ ready_list r ∨ curr r = Some p)).
Proof.
  intros Hinv Hpl Hreach.
  assert (sched_inv m ∧ placed m) as [Hm Hp].
  { induction Hreach as [|m o m' _ [IH1 IH2] Hpre Hrun]; [done|].
    destruct (run_op_ok m o) as (m''&Hrun'&?&?); try done. rewrite Hrun in Hrun'. by injection Hrun' as <-. }
  split; [done|]. split.
  - intros o Ho. destruct (run_op_ok m o) as (m'&?&_); eauto.
  - intros p t Ht Hst. assert (Hv : vtab m p = Some (vw t)) by (unfold vtab; by rewrite Ht).
    destruct (inv_task _ _ _ Hm p (vw t) Hv) as [r Hok]; [simpl; by rewrite Hst|].
    exists r. split; [apply (tk_rq _ _ _ _ Hok)|by apply (tk_lost _ _ _ _ Hok)].
Qed.

(** C31: a context switch implements the scheduling policy on the run queue:
    a task that can no longer run leaves the CPU to the head of the ready list
    or to idle, a runnable one keeps it unless it must rotate and someone
    waits, in which case it goes to the tail, and a pending signal makes an
    interruptible sleeper runnable before it is switched out.  A task that
    exited is handed over for burial exactly when it leaves the CPU. *)
Theorem sched_switch_policy m c r prev t i rotate now :
  sched_inv m → runqueues m !! c = Some r → curr r = Some prev → idle r = Some i →
  tasks m !! prev = Some t →
  let runnable := (state t =? TASK_RUNNABLE) || signal_pending_state (state t) t in
  let next := (policy runnable (rotate || task_need_resched t) prev i (ready_list r)).1 in
  ∃ m' r', sched_switch m c rotate now =
      Ok (if bool_decide (prev ≠ next) && (state t =? TASK_ZOMBIE) then Some prev else None, m') ∧
    sched_inv m' ∧ runqueues m' = <[c := r']> (runqueues m) ∧ curr r' = Some next ∧
    ready_list r' = (policy runnable (rotate || task_need_resched t) prev i (ready_list r)).2 ∧
    idle r' = Some i.
Proof. apply sched_switch_ok. Qed.

(** a wakeup is never lost: when the task's state is one of those asked
    for, it ends up runnable and queued on its CPU or still running there,
    whether it had already left the CPU or not; otherwise nothing changes, and
    no other task's scheduling state is touched. *)
Theorem wake_task_never_lost m me p states t :
  sched_inv m → tasks m !! p = Some t → Z.land states TASK_RUNNABLE = 0 →
  ∃ ipi m', wake_task m me p states = Ok (truth (Z.land states (state t)), ipi, m') ∧ sched_inv m' ∧
    (if truth (Z.land states (state t)) then woken m' p else m' = m) ∧
    (∀ q, q ≠ p → vtab m' q = vtab m q).
Proof. apply wake_task_inv. Qed.

(** Publication places a new task on a CPU with the fewest runnable
    tasks, where it is queued and counted. *)
Theorem sched_publish_least_loaded m me p t :
  sched_inv m → placed m → tasks m !! p = Some t → state t = TASK_NEW →
  0 < t_refcount t < REFCOUNT_MAX →
  ∃ c l ipi m', sched_publish m me p = Ok (c, ipi, m') ∧ sched_inv m' ∧ placed m' ∧ woken m' p ∧
    load m c = Some l ∧ (∀ c' x, load m c' = Some x → l ≤ x) ∧ load m' c = Some (l + 1).
Proof. apply sched_publish_inv. Qed.

(** Yields of whatever runs on CPU [c], one after another. *)
Fixpoint rotations (n : nat) (m : machine) (c : nat) (now : nat → Z) : res machine :=
  match n with
  | O => Ok m
  | S n' => let! (_, m) := sched_switch m c true (now n) in rotations n' m c now
  end.

Lemma policy_rotate runnable rotate prev i n l :
  (policy runnable (true || rotate) prev i (n :: l)).1 = n ∧
  ∃ l', (policy runnable (true || rotate) prev i (n :: l)).2 = l ++ l'.
Proof.
  unfold policy. destruct runnable; [destruct (decide (prev = i))|]; simpl; (split; [done|]);
    [exists []; by rewrite app_nil_r|eauto|exists []; by rewrite app_nil_r].
Qed.

(** round robin: a task at position k of a ready list runs after at most
    k + 1 yields of its CPU, whatever the tasks before it do with theirs. *)
Theorem round_robin k m c r p now :
  sched_inv m → runqueues m !! c = Some r → ready_list r !! k = Some p →
  ∃ m' r', rotations (S k) m c now = Ok m' ∧ sched_inv m' ∧
    runqueues m' !! c = Some r' ∧ curr r' = Some p.
Proof.
  revert m r. induction k as [|k IH]; intros m r Hinv Hr Hk;
    (destruct (ready_list r) as [|n l] eqn:Hl; [done|]);
    destruct (curr_lookup m c r Hinv Hr) as (cu&t&Hcu&Ht&_&_);
    destruct (rk_idle _ _ _ (inv_rq _ _ _ Hinv c r Hr)) as [i Hi];
    assert (Hlen : (c < length (runqueues m))%nat) by (by eapply lookup_lt_Some).
  - simpl in Hk. injection Hk as ->.
    destruct (sched_switch_ok m c r cu t i true (now 1%nat)) as (m'&r'&Hsw&Hinv'&Hr'&Hc'&_); try done.
    exists m', r'. cbn [rotations]. rewrite Hsw. cbn [res_bind]. split_and!; [done|done| |].
    + rewrite Hr'. by apply list_lookup_insert_eq.
    + rewrite Hc', Hl. f_equal. by apply policy_rotate.
  - simpl in Hk. set (now0 := now (S (S k))).
    destruct (sched_switch_ok m c r cu t i true now0) as (m1&r1&Hsw&Hinv1&Hr1&Hc1&Hl1&_); try done.
    destruct (policy_rotate ((state t =? TASK_RUNNABLE) || signal_pending_state (state t) t)
      (task_need_resched t) cu i n l) as [_ [l' Hp]].
    destruct (IH m1 r1) as (m'&r'&Hrot&?&?&?); [done| | |].
    + rewrite Hr1. by apply list_lookup_insert_eq.
    + rewrite Hl1, Hl, Hp. by apply lookup_app_l_Some.
    + exists m', r'. split; [|done]. change (rotations (S (S k)) m c now) with
        (let! (_, m) := sched_switch m c true now0 in rotations (S k) m c now).
      rewrite Hsw. done.
Qed.
End sched.

(** ** A machine with one CPU, its idle task and two new user tasks *)

Definition no_signals : sigstate := Sigstate [] 0 0 0 (replicate 31 (Sigaction 0 0 0)).
Definition example_idle : task := Task 2 0 TASK_RUNNABLE false true 0 None false None no_signals.
Definition example_user : task := Task 1 0 TASK_NEW false false 0 (Some 7%positive) true (Some 2%positive) no_signals.
Definition example_machine : machine :=
  Machine {[ 1%positive := example_idle; 2%positive := example_user; 3%positive := example_user ]}
    [Rq (Some 1%positive) (Some 1%positive) None None [] 0 0] 0 {[ 7%positive := Mmrefs 2 1 ]}.

Lemma example_machine_inv : sched_inv example_machine.
Proof.
  assert (Hv : ∀ p v, vtab example_machine p = Some v →
    (p = 1%positive ∧ v = vw example_idle) ∨ v = vw example_user).
  { intros p v. unfold vtab, example_machine. simpl.
    destruct (decide (p = 1%positive)) as [->|]; [intros [= <-]; by left|].
    destruct (decide (p = 2%positive)) as [->|]; [intros [= <-]; by right|].
    destruct (decide (p = 3%positive)) as [->|]; [intros [= <-]; by right|].
    rewrite !lookup_insert_ne, lookup_singleton_ne by done. done. }
  split.
  - by intros p v [[-> ->]| ->]%Hv.
  - intros p v [[-> ->]| ->]%Hv Hn; [|done].
    exists (Rq (Some 1%positive) (Some 1%positive) None None [] 0 0). split; simpl; try done.
    + split; [done|]. intros H; inversion H.
    + auto.
    + intros H; inversion H.
  - intros [|c] r Hr; [|done]. injection Hr as <-. split; simpl; try done; [by constructor|].
    intros p [Hp|[[= <-]|[= <-]]]; [inversion Hp| |]; exists (vw example_idle); done.
  - split.
    + intros q x. simpl. rewrite lookup_singleton_Some. intros [<- <-]. vm_compute. split; [done|]. split; done.
    + intros r q Hr Hq. apply list_elem_of_singleton in Hr as ->. done.
    + intros p v q [[-> ->]| ->]%Hv Hq; [done|]. injection Hq as <-. exists (Mmrefs 2 1). done.
  - vm_compute. done.
Qed.

(** One, then both user tasks published. *)
Definition example_mid : machine :=
  match run_op true 100 example_machine (OPublish 0 2%positive) with Ok m => m | _ => example_machine end.
Definition example_running : machine :=
  match run_op true 100 example_mid (OPublish 0 3%positive) with Ok m => m | _ => example_mid end.

Lemma example_ops :
  run_op true 100 example_machine (OPublish 0 2%positive) = Ok example_mid ∧
  run_op true 100 example_mid (OPublish 0 3%positive) = Ok example_running ∧
  op_pre example_machine (OPublish 0 2%positive) ∧ op_pre example_mid (OPublish 0 3%positive) ∧
  placed example_machine.
Proof.
  split; [vm_compute; reflexivity|]. split; [vm_compute; reflexivity|].
  split; [exists example_user; split; [reflexivity|split; [reflexivity|vm_compute; done]]|].
  split; [exists example_user; split; [vm_compute; reflexivity|split; [reflexivity|vm_compute; done]]|].
  vm_compute. done.
Qed.

Lemma example_reachable : reachable true 100 example_machine example_running.
Proof.
  destruct example_ops as (H1&H2&H3&H4&_).
  eapply reach_op; [|exact H4|exact H2]. eapply reach_op; [constructor|exact H3|exact H1].
Qed.

Lemma example_running_inv : sched_inv example_running ∧ placed example_running.
Proof.
  destruct example_ops as (H1&H2&H3&H4&Hp).
  destruct (run_op_ok true 100 example_machine _ example_machine_inv Hp H3) as (m1&E1&Hi1&Hp1).
  rewrite H1 in E1. apply Ok_inj in E1 as <-.
  destruct (run_op_ok true 100 example_mid _ Hi1 Hp1 H4) as (m2&E2&Hi2&Hp2).
  rewrite H2 in E2. apply Ok_inj in E2 as <-. split; assumption.
Qed.

Lemma sched_reachable_safe_witness : sched_inv example_running.
Proof.
  apply (sched_reachable_safe true 100 example_machine example_running).
  - apply example_machine_inv.
  - vm_compute. done.
  - apply example_reachable.
Defined.

Lemma sched_publish_least_loaded_witness :
  ∃ c l ipi m', sched_publish true example_machine 0 2%positive = Ok (c, ipi, m') ∧
    load example_machine c = Some l ∧ load m' c = Some (l + 1).
Proof.
  destruct (sched_publish_least_loaded true example_machine 0 2%positive example_user)
    as (c&l&ipi&m'&H1&_&_&_&H2&_&H3).
  - apply example_machine_inv.
  - vm_compute. done.
  - reflexivity.
  - reflexivity.
  - vm_compute. done.
  - exists c, l, ipi, m'. split; [exact H1|]. split; [exact H2|exact H3].
Defined.

Definition example_task (p : positive) : task := default example_user (tasks example_running !! p).

Lemma sched_switch_policy_witness :
  ∃ m' r', sched_switch true 100 example_running 0 false 5 = Ok (None, m') ∧
    runqueues m' !! 0%nat = Some r' ∧ curr r' = Some 2%positive ∧ ready_list r' = [3%positive].
Proof.
  destruct (sched_switch_policy true 100 example_running 0
    (Rq (Some 1%positive) (Some 1%positive) None None [2%positive; 3%positive] 2 0)
    1%positive (example_task 1%positive) 1%positive false 5) as (m'&r'&H1&_&H2&H3&H4&_).
  - apply example_running_inv.
  - vm_compute. reflexivity.
  - reflexivity.
  - reflexivity.
  - vm_compute. reflexivity.
  - exists m', r'. split; [exact H1|]. split; [rewrite H2; reflexivity|]. split; [exact H3|exact H4].
Defined.

Lemma wake_task_never_lost_witness :
  ∃ ipi m', wake_task example_running 0 2%positive TASK_NORMAL = Ok (false, ipi, m') ∧ m' = example_running.
Proof.
  destruct (wake_task_never_lost example_running 0 2%positive TASK_NORMAL (example_task 2%positive))
    as (ipi&m'&H1&_&H2&_).
  - apply example_running_inv.
  - vm_compute. reflexivity.
  - reflexivity.
  - exists ipi, m'. split; [exact H1|exact H2].
Defined.

Lemma round_robin_witness :
  ∃ m' r', rotations true 100 2 example_running 0 (λ n, Z.of_nat n) = Ok m' ∧
    runqueues m' !! 0%nat = Some r' ∧ curr r' = Some 3%positive.
Proof.
  destruct (round_robin true 100 1 example_running 0
    (Rq (Some 1%positive) (Some 1%positive) None None [2%positive; 3%positive] 2 0) 3%positive (λ n, Z.of_nat n))
    as (m'&r'&H1&_&H2&H3).
  - apply example_running_inv.
  - vm_compute. reflexivity.
  - reflexivity.
  - exists m', r'. split; [exact H1|]. split; [exact H2|exact H3].
Defined.
