(* ===== verification/Signal.v ===== *)
(** * Signals: [kernel/signal.c], [arch/riscv/signal.c] (return path)

    The part of a task under [signal_lock] is a record ([Task.sigstate]); the
    handlers are functions on the task, and [send_signal] runs on the whole
    machine because it wakes its target through the scheduler.  User pointers
    are NULL, unreadable, or carry the value they point to. *)
From stdpp Require Import base tactics numbers list gmap.
From S2P Require Import Prelude Bitmap Refcount Task Sched.

Definition SIGSET_SIZE : Z := 8.
Definition SA_NODEFER : Z := 0x40000000.
Definition SA_RESETHAND : Z := 0x80000000.
Definition SI_USER : Z := 0.
Definition SIG_BLOCK : Z := 0.
Definition SIG_UNBLOCK : Z := 1.
Definition SIG_SETMASK : Z := 2.

Definition SIG_UNBLOCKMASK : Z := Z.lor (sigmask SIGKILL) (sigmask SIGSTOP).
Definition SIG_STOPMASK : Z :=
  Z.lor (Z.lor (Z.lor (sigmask SIGSTOP) (sigmask SIGTSTP)) (sigmask SIGTTIN)) (sigmask SIGTTOU).
Definition SIG_IGNORED : Z :=
  Z.lor (Z.lor (Z.lor (sigmask SIGCHLD) (sigmask SIGCONT)) (sigmask SIGURG)) (sigmask SIGWINCH).

Record ksignal := Ksignal { ks_info : siginfo; ks_action : sigaction; ks_oldmask : Z }.

(** A pointer argument that the kernel reads through. *)
Inductive uread (A : Type) := UNull | UBad | UVal (a : A).
Arguments UNull {A}.
Arguments UBad {A}.
Arguments UVal {A} _.
(** One that it writes through. *)
Inductive uwrite := WNull | WBad | WGood.

(** ** State updates *)

Definition with_pending (t : task) (l : list siginfo) (x : Z) : task :=
  with_sig t (Sigstate l x (blocked (t_sig t)) (saved_mask (t_sig t)) (actions (t_sig t))).
Definition with_blocked (t : task) (x : Z) : task :=
  with_sig t (Sigstate (pending_list (t_sig t)) (pending_signal (t_sig t)) x (saved_mask (t_sig t))
                       (actions (t_sig t))).
Definition with_saved (t : task) (x : Z) : task :=
  with_sig t (Sigstate (pending_list (t_sig t)) (pending_signal (t_sig t)) (blocked (t_sig t)) x
                       (actions (t_sig t))).
Definition with_actions (t : task) (x : list sigaction) : task :=
  with_sig t (Sigstate (pending_list (t_sig t)) (pending_signal (t_sig t)) (blocked (t_sig t))
                       (saved_mask (t_sig t)) x).

(** ** Helpers *)

Definition signal_ignored (a : sigaction) (sig : Z) : bool :=
  (sa_handler a =? SIG_IGN) ||
  ((sa_handler a =? SIG_DFL) && truth (Z.land SIG_IGNORED (sigmask sig))).

Definition sig_pending (t : task) (sig : Z) : bool :=
  truth (Z.land (pending_signal (t_sig t)) (sigmask sig)).
Definition sig_valid (t : task) (sig : Z) : bool := negb (sig_pending t sig).

Definition recalc_sigpending (t : task) : task :=
  if truth (Z.land (pending_signal (t_sig t)) (not64 (blocked (t_sig t))))
  then task_set_flag t TF_SIGPENDING else task_clear_flag t TF_SIGPENDING.

Definition signal_task_init (t : task) : task :=
  with_sig t (Sigstate [] 0 0 (saved_mask (t_sig t)) (replicate 31 (Sigaction SIG_DFL 0 0))).

Definition signal_task_free (t : task) : task := with_pending t [] 0.

Definition flush_signals_locked (t : task) (mask : Z) : task :=
  with_pending t
    (filter (λ i, truth (Z.land mask (sigmask (si_signo i))) = false) (pending_list (t_sig t)))
    (Z.land (pending_signal (t_sig t)) (not64 mask)).

(** ** Sending *)

(** The critical section of [send_signal] up to [recalc_sigpending]; [queue]
    says whether the queue entry could be allocated. *)
Definition send_locked (t : task) (info : siginfo) (queue : bool) : res task :=
  let sig := si_signo info in
  let t := if truth (Z.land SIG_STOPMASK (sigmask sig)) then flush_signals_locked t (sigmask SIGCONT)
           else if sig =? SIGCONT then flush_signals_locked t SIG_STOPMASK else t in
  let t := if (sig =? SIGCONT) || (sig =? SIGKILL) then task_clear_flag t TF_STOPPENDING else t in
  let! add :=
    if sig_valid t sig then
      if truth (Z.land (blocked (t_sig t)) (sigmask sig)) then Ok true else
      let! a := arr_get (actions (t_sig t)) (Z.to_nat (sig - 1)) in
      Ok (negb (signal_ignored a sig))
    else Ok false in
  let t := if add then
      with_pending t (if queue then pending_list (t_sig t) ++ [info] else pending_list (t_sig t))
        (Z.lor (pending_signal (t_sig t)) (sigmask sig))
    else t in
  Ok (recalc_sigpending t).

Definition send_signal (m : machine) (me : nat) (p : positive) (info : siginfo) (queue : bool)
    : res (Z * machine) :=
  let sig := si_signo info in
  if negb (truth sig) then Ok (0, m) else
  let! t := get_task m p in
  let! t := send_locked t info queue in
  let m := put_task m p t in
  let! m := if (sig =? SIGCONT) || (sig =? SIGKILL)
            then let! (_, _, m) := sched_resume m me p in Ok m else Ok m in
  let! t := get_task m p in
  if signal_pending t then let! (_, _, m) := sched_wake_signal m me p sig in Ok (0, m)
  else Ok (0, m).

(** ** Taking a signal *)

(** Unlink the first entry for [sig]. *)
Fixpoint take_queued (sig : Z) (l : list siginfo) : option (siginfo * list siginfo) :=
  match l with
  | [] => None
  | i :: l => if negb (si_signo i =? sig) then
                match take_queued sig l with Some (x, l) => Some (x, i :: l) | None => None end
              else Some (i, l)
  end.

Definition dequeue_signal_locked (t : task) (sig : Z) : siginfo * task :=
  let pend := Z.land (pending_signal (t_sig t)) (not64 (sigmask sig)) in
  match take_queued sig (pending_list (t_sig t)) with
  | Some (i, l) => (i, with_pending t l pend)
  | None => (Siginfo sig SI_USER 0 0 0 0, with_pending t (pending_list (t_sig t)) pend)
  end.

(** One round of the loop of [get_signal]: what happens after the lock is
    dropped is the result's constructor. *)
Inductive fetched :=
  | Deliver (ks : ksignal) (t : task)     (* return true *)
  | Nothing (t : task)                    (* return false *)
  | Wait (t : task)                       (* wait_for_signal, then again *)
  | Skip (t : task)                       (* ignored: again *)
  | Stop (t : task)                       (* sched_stop, then again *)
  | Exit (sig : Z) (t : task).            (* task_exit, does not return *)

(** [signal_default] *)
Definition signal_default (sig : Z) (t : task) : fetched :=
  if truth (Z.land SIG_IGNORED (sigmask sig)) then Skip t else
  if (sig =? SIGSTOP) || (sig =? SIGTSTP) || (sig =? SIGTTIN) || (sig =? SIGTTOU) then Stop t
  else Exit sig t.

(** The part after the choice of the signal. *)
Definition act_on (sig : Z) (info : siginfo) (fault : bool) (t : task) : res fetched :=
  let! action := arr_get (actions (t_sig t)) (Z.to_nat (sig - 1)) in
  let oldmask := if task_test_flag t TF_SIGSUSPEND then saved_mask (t_sig t) else blocked (t_sig t) in
  let special := (sa_handler action =? SIG_DFL) || (sa_handler action =? SIG_IGN) in
  let fatal := fault && (truth (Z.land (blocked (t_sig t)) (sigmask sig)) || special) in
  let t := if negb fatal && negb special && truth (Z.land (sa_flags action) SA_RESETHAND)
           then with_actions t (<[Z.to_nat (sig - 1) := Sigaction SIG_DFL (sa_flags action) (sa_mask action)]>
                                  (actions (t_sig t))) else t in
  let t := if (sa_handler action =? SIG_DFL) && truth (Z.land SIG_STOPMASK (sigmask sig))
           then task_set_flag t TF_STOPPENDING else t in
  let t := recalc_sigpending t in
  if fatal then Ok (Exit sig t) else
  if sa_handler action =? SIG_IGN then Ok (Skip t) else
  if sa_handler action =? SIG_DFL then Ok (signal_default sig t) else
  Ok (Deliver (Ksignal info action oldmask) t).

Definition get_signal_step (t : task) (fault : option siginfo) : res fetched :=
  match fault with
  | Some f =>
      let sig := si_signo f in
      if sig_pending t sig then let '(i, t) := dequeue_signal_locked t sig in act_on sig i true t
      else act_on sig f true t
  | None =>
      let pending := Z.land (pending_signal (t_sig t)) (not64 (blocked (t_sig t))) in
      if negb (truth pending) then
        Ok (if task_test_flag t TF_SIGSUSPEND then Wait t else Nothing t)
      else
        let! sig := if truth (Z.land pending (sigmask SIGKILL)) then Ok SIGKILL
                    else let! b := find_first_bit [pending] SIG_MAX in Ok (s32 (b + 1)) in
        let '(i, t) := dequeue_signal_locked t sig in act_on sig i false t
  end.

(** The loop, run until it leaves the kernel or has to give up the CPU. *)
Fixpoint get_signal (fuel : nat) (t : task) (fault : option siginfo) : res fetched :=
  match fuel with
  | O => Loop
  | S fuel' =>
      let! f := get_signal_step t fault in
      match f with Skip t => get_signal fuel' t fault | _ => Ok f end
  end.

Definition signal_delivered (ks : ksignal) (t : task) : task :=
  let t := task_clear_flag t TF_SIGSUSPEND in
  let t := with_blocked t (Z.lor (blocked (t_sig t)) (sa_mask (ks_action ks))) in
  let t := if negb (truth (Z.land (sa_flags (ks_action ks)) SA_NODEFER))
           then with_blocked t (Z.lor (blocked (t_sig t)) (sigmask (si_signo (ks_info ks)))) else t in
  recalc_sigpending t.

(** ** System calls on the current task *)

(** Up to the wait. *)
Definition sys_rt_sigsuspend (t : task) (mask : uread Z) (sigsetsize : Z) : Z * task :=
  if negb (sigsetsize =? SIGSET_SIZE) then (- EINVAL, t) else
  match mask with
  | UVal set =>
      let t := with_saved t (blocked (t_sig t)) in
      let t := with_blocked t (Z.land set (not64 SIG_UNBLOCKMASK)) in
      let t := task_set_flag t TF_SIGSUSPEND in
      (- EINTR, recalc_sigpending t)
  | _ => (- EFAULT, t)
  end.

(** The value stored to [*oldact], if any. *)
Definition sys_rt_sigaction (t : task) (sig : Z) (act : uread sigaction) (oldact : uwrite)
    (sigsetsize : Z) : res (Z * option sigaction * task) :=
  if negb (sigsetsize =? SIGSET_SIZE) || (sig =? 0) || negb ((0 <=? sig) && (sig <=? SIG_MAX))
  then Ok (- EINVAL, None, t) else
  let commit (new : option sigaction) : res (Z * option sigaction * task) :=
    let! old := arr_get (actions (t_sig t)) (Z.to_nat (sig - 1)) in
    let t := match new with
      | Some a =>
          let t := with_actions t (<[Z.to_nat (sig - 1) := a]> (actions (t_sig t))) in
          let t := if signal_ignored a sig then flush_signals_locked t (sigmask sig) else t in
          recalc_sigpending t
      | None => t
      end in
    match oldact with
    | WNull => Ok (0, None, t)
    | WBad => Ok (- EFAULT, None, t)
    | WGood => Ok (0, Some old, t)
    end in
  match act with
  | UNull => commit None
  | UBad => if (sig =? SIGKILL) || (sig =? SIGSTOP) then Ok (- EINVAL, None, t) else Ok (- EFAULT, None, t)
  | UVal a =>
      if (sig =? SIGKILL) || (sig =? SIGSTOP) then Ok (- EINVAL, None, t) else
      commit (Some (Sigaction (sa_handler a) (sa_flags a) (Z.land (sa_mask a) (not64 SIG_UNBLOCKMASK))))
  end.

Definition sys_rt_sigprocmask (t : task) (how : Z) (set : uread Z) (oldset : uwrite)
    (sigsetsize : Z) : Z * option Z * task :=
  if negb (sigsetsize =? SIGSET_SIZE) then (- EINVAL, None, t) else
  let old := blocked (t_sig t) in
  let finish (t : task) : Z * option Z * task :=
    match oldset with
    | WNull => (0, None, t)
    | WBad => (- EFAULT, None, t)
    | WGood => (0, Some old, t)
    end in
  match set with
  | UBad => (- EFAULT, None, t)
  | UNull => finish t
  | UVal s =>
      let new := Z.land s (not64 SIG_UNBLOCKMASK) in
      if how =? SIG_BLOCK then finish (recalc_sigpending (with_blocked t (Z.lor old new))) else
      if how =? SIG_UNBLOCK then finish (recalc_sigpending (with_blocked t (Z.land old (not64 new)))) else
      if how =? SIG_SETMASK then finish (recalc_sigpending (with_blocked t new)) else
      (- EINVAL, None, t)
  end.

(** [writable]: the [sigsetsize] bytes at the pointer can be written; the low
    [sigsetsize] bytes of the set are stored there. *)
Definition sys_rt_sigpending (t : task) (writable : bool) (sigsetsize : Z) : Z * option Z :=
  if sigsetsize >? 8 then (- EINVAL, None) else
  if writable || (sigsetsize =? 0)
  then (0, Some (wrap (8 * sigsetsize) (Z.land (pending_signal (t_sig t)) (blocked (t_sig t)))))
  else (- EFAULT, None).

(** The signal part of [sys_rt_sigreturn]: [mask] is [sf.uc.uc_sigmask]. *)
Definition sigreturn_mask (t : task) (mask : Z) : task :=
  recalc_sigpending (with_blocked t (Z.land mask (not64 SIG_UNBLOCKMASK))).

(** [signal_clone], the reset of the actions on exec. *)
Definition signal_clone (t : task) : task :=
  with_actions t ((λ a, Sigaction (if negb (sa_handler a =? SIG_IGN) then SIG_DFL else sa_handler a) 0 0)
                    <$> actions (t_sig t)).

(** ** Invariant *)

(** A mask that leaves SIGKILL and SIGSTOP alone. *)
Definition maskable (x : Z) : Prop :=
  in_u64 x ∧ Z.testbit x (SIGKILL - 1) = false ∧ Z.testbit x (SIGSTOP - 1) = false.

Definition pend (s : sigstate) (sig : Z) : bool := Z.testbit (pending_signal s) (sig - 1).
Definition blk (s : sigstate) (sig : Z) : bool := Z.testbit (blocked s) (sig - 1).
Definition act (s : sigstate) (sig : Z) : sigaction :=
  default (Sigaction 0 0 0) (actions s !! Z.to_nat (sig - 1)).
Definition valid_sig (sig : Z) : Prop := 1 ≤ sig ≤ SIG_MAX.

Record sig_ok (s : sigstate) : Prop := {
  so_pending : 0 ≤ pending_signal s < 2 ^ 31;
  so_queue : ∀ i, i ∈ pending_list s → valid_sig (si_signo i) ∧ pend s (si_signo i) = true;
  so_unique : NoDup (si_signo <$> pending_list s);
  so_blocked : maskable (blocked s);
  so_saved : maskable (saved_mask s);
  so_length : length (actions s) = 31%nat;
  so_masks : Forall (λ a, maskable (sa_mask a)) (actions s);
  so_kill : sa_handler (act s SIGKILL) = SIG_DFL;
  so_stop : sa_handler (act s SIGSTOP) = SIG_DFL;
}.

(** The TF_SIGPENDING flag says exactly whether a signal can be taken. *)
Definition deliverable (s : sigstate) : bool := truth (Z.land (pending_signal s) (not64 (blocked s))).
Record sig_wf (t : task) : Prop := {
  sw_ok : sig_ok (t_sig t);
  sw_flag : signal_pending t = deliverable (t_sig t);
}.

Lemma sigmask_bit x sig : valid_sig sig → truth (Z.land x (sigmask sig)) = Z.testbit x (sig - 1).
Proof. intros [? ?]. unfold SIG_MAX in *. apply truth_land_BIT. lia. Qed.

Lemma sigmask_test sig i : valid_sig sig → 0 ≤ i → Z.testbit (sigmask sig) i = (i =? sig - 1).
Proof. intros [? ?] Hi. unfold SIG_MAX in *. unfold sigmask. apply BIT_spec; lia. Qed.

Lemma land_not64_bit x y i : 0 ≤ i < 64 → Z.testbit (Z.land x (not64 y)) i = Z.testbit x i && negb (Z.testbit y i).
Proof. intros Hi. rewrite Z.land_spec, not64_spec by lia. by replace (i <? 64) with true by lia. Qed.

Lemma maskable_land x y : maskable x → maskable (Z.land x y).
Proof. intros (?&H1&H2). split; [auto with word|]. by rewrite !Z.land_spec, H1, H2. Qed.

Lemma maskable_lor x y : maskable x → maskable y → maskable (Z.lor x y).
Proof. intros (?&H1&H2) (?&H3&H4). split; [auto with word|]. by rewrite !Z.lor_spec, H1, H2, H3, H4. Qed.

Lemma maskable_user x : maskable (Z.land x (not64 SIG_UNBLOCKMASK)).
Proof. split; [auto with word|]. rewrite !land_not64_bit by (unfold SIGKILL, SIGSTOP; lia). rewrite !andb_false_iff. split; right; done. Qed.

Lemma maskable_sig sig : valid_sig sig → sig ≠ SIGKILL → sig ≠ SIGSTOP → maskable (sigmask sig).
Proof.
  intros Hs Hk Ht. split; [apply u64_range|].
  rewrite !sigmask_test by (done || (unfold SIGKILL, SIGSTOP; lia)). split; apply Z.eqb_neq; lia.
Qed.

Lemma recalc_sig t : t_sig (recalc_sigpending t) = t_sig t.
Proof. unfold recalc_sigpending. by destruct (truth _). Qed.

Lemma recalc_vw t : vw (recalc_sigpending t) = vw t.
Proof. unfold recalc_sigpending. by destruct (truth _). Qed.

Lemma recalc_wf t : sig_ok (t_sig t) → sig_wf (recalc_sigpending t).
Proof.
  intros Hok. split; [by rewrite recalc_sig|]. rewrite recalc_sig. unfold recalc_sigpending, deliverable, signal_pending, TF_SIGPENDING.
  destruct (truth _); [rewrite flag_set by lia; done|rewrite flag_clear by lia; done].
Qed.

Lemma recalc_flag t n :
  0 ≤ n < 32 → n ≠ 2 → task_test_flag (recalc_sigpending t) (BIT n) = task_test_flag t (BIT n).
Proof.
  intros Hn H2. unfold recalc_sigpending, TF_SIGPENDING.
  destruct (truth _); [rewrite flag_set by lia|rewrite flag_clear by lia]; by replace (n =? 2) with false by lia.
Qed.

(** *** The pending queue *)

Lemma sig_ok_pending s l x :
  sig_ok s → 0 ≤ x < 2 ^ 31 →
  (∀ i, i ∈ l → valid_sig (si_signo i) ∧ Z.testbit x (si_signo i - 1) = true) →
  NoDup (si_signo <$> l) →
  sig_ok (Sigstate l x (blocked s) (saved_mask s) (actions s)).
Proof. intros [] Hx Hl Hd. by split. Qed.

Lemma flush_ok t mask : sig_ok (t_sig t) → sig_ok (t_sig (flush_signals_locked t mask)).
Proof.
  intros Hok. apply sig_ok_pending; [done| | |].
  - apply land_range; [lia|apply Hok].
  - intros i [Hm Hi]%list_elem_of_filter. destruct (so_queue _ Hok i Hi) as [Hv Hp]. split; [done|].
    rewrite sigmask_bit in Hm by done. unfold valid_sig, SIG_MAX in Hv.
    rewrite land_not64_bit by lia. unfold pend in Hp. by rewrite Hp, Hm.
  - apply NoDup_fmap_filter, Hok.
Qed.

Lemma take_queued_spec sig l :
  NoDup (si_signo <$> l) →
  match take_queued sig l with
  | Some (i, l') => i ∈ l ∧ si_signo i = sig ∧ l' = filter (λ j, si_signo j ≠ sig) l
  | None => ∀ i, i ∈ l → si_signo i ≠ sig
  end.
Proof.
  induction l as [|j l IH]; simpl.
  { intros _ i Hi. inversion Hi. }
  rewrite NoDup_cons. intros [Hj Hl]. specialize (IH Hl). rewrite filter_cons.
  destruct (Z.eqb_spec (si_signo j) sig) as [He|He]; cbn [negb].
  - rewrite decide_False by tauto. split; [by left|]. split; [done|]. symmetry. apply filter_id.
    apply Forall_forall. intros x Hx Hs. apply Hj. rewrite He, <-Hs. by apply list_elem_of_fmap_2.
  - destruct (take_queued sig l) as [[i l']|].
    + destruct IH as (?&?&->). rewrite decide_True by done. split; [by right|done].
    + intros i [->|Hi]%elem_of_cons; auto.
Qed.

Definition dequeued (t : task) (sig : Z) (info : siginfo) (t' : task) : Prop :=
  t_sig t' = Sigstate (filter (λ j, si_signo j ≠ sig) (pending_list (t_sig t)))
    (Z.land (pending_signal (t_sig t)) (not64 (sigmask sig)))
    (blocked (t_sig t)) (saved_mask (t_sig t)) (actions (t_sig t)) ∧
  tflags t' = tflags t ∧ state t' = state t ∧
  si_signo info = sig ∧
  (info ∈ pending_list (t_sig t) ∨ info = Siginfo sig SI_USER 0 0 0 0).

Lemma dequeue_spec t sig info t' :
  sig_ok (t_sig t) → valid_sig sig → dequeue_signal_locked t sig = (info, t') →
  dequeued t sig info t' ∧ sig_ok (t_sig t').
Proof.
  intros Hok Hv Hd.
  assert (Hdq : dequeued t sig info t').
  { unfold dequeue_signal_locked in Hd. pose proof (take_queued_spec sig _ (so_unique _ Hok)) as Ht.
    destruct (take_queued sig _) as [[i l]|]; injection Hd as <- <-; unfold dequeued; simpl.
    - destruct Ht as (?&?&->). split_and!; try done. by left.
    - rewrite filter_id by (by apply Forall_forall). split_and!; try done. by right. }
  split; [done|]. destruct Hdq as (->&_). apply sig_ok_pending; [done| | |].
  - apply land_range; [lia|apply Hok].
  - intros i [Hne Hi]%list_elem_of_filter. destruct (so_queue _ Hok i Hi) as [Hvi Hp]. split; [done|].
    unfold valid_sig, SIG_MAX in Hvi. rewrite land_not64_bit, sigmask_test by (done || lia).
    unfold pend in Hp. rewrite Hp. simpl. apply negb_true_iff, Z.eqb_neq. lia.
  - apply NoDup_fmap_filter, Hok.
Qed.

(** ** Taking a signal *)

Definition task_of (f : fetched) : task :=
  match f with Deliver _ t | Nothing t | Wait t | Skip t | Stop t | Exit _ t => t end.

(** The disposition of [sig] as POSIX describes it. *)
Inductive disposition := Handled | Ignored | Stopped | Killed.
Definition default_stop (sig : Z) : bool :=
  (sig =? SIGSTOP) || (sig =? SIGTSTP) || (sig =? SIGTTIN) || (sig =? SIGTTOU).
Definition default_ignore (sig : Z) : bool :=
  (sig =? SIGCHLD) || (sig =? SIGCONT) || (sig =? SIGURG) || (sig =? SIGWINCH).
Definition disposition_of (a : sigaction) (sig : Z) : disposition :=
  if sa_handler a =? SIG_IGN then Ignored else
  if sa_handler a =? SIG_DFL then
    if default_ignore sig then Ignored else if default_stop sig then Stopped else Killed
  else Handled.

(** Masks over the 31 signals, decided by running through them. *)
Lemma valid_cases sig (P : Z → bool) :
  valid_sig sig → forallb P (Z.of_nat <$> seq 1 31) = true → P sig = true.
Proof.
  intros Hv Hall. rewrite forallb_forall in Hall. apply Hall, list_elem_of_In, list_elem_of_fmap.
  exists (Z.to_nat sig). unfold valid_sig, SIG_MAX in Hv. split; [lia|]. apply elem_of_seq. lia.
Qed.

Lemma stopmask_spec sig : valid_sig sig → truth (Z.land SIG_STOPMASK (sigmask sig)) = default_stop sig.
Proof.
  intros Hv. apply eqb_prop.
  apply (valid_cases sig (λ s, Bool.eqb (truth (Z.land SIG_STOPMASK (sigmask s))) (default_stop s)) Hv).
  by vm_compute.
Qed.

Lemma ignored_spec sig : valid_sig sig → truth (Z.land SIG_IGNORED (sigmask sig)) = default_ignore sig.
Proof.
  intros Hv. apply eqb_prop.
  apply (valid_cases sig (λ s, Bool.eqb (truth (Z.land SIG_IGNORED (sigmask s))) (default_ignore s)) Hv).
  by vm_compute.
Qed.

Lemma signal_ignored_spec a sig :
  valid_sig sig → signal_ignored a sig = true ↔ disposition_of a sig = Ignored.
Proof.
  intros Hv. unfold signal_ignored, disposition_of. rewrite ignored_spec by done.
  destruct (Z.eqb_spec (sa_handler a) SIG_IGN) as [->|]; [done|]. cbn [orb].
  destruct (sa_handler a =? SIG_DFL); [|done]. destruct (default_ignore sig); [done|]. by destruct (default_stop sig).
Qed.

Lemma act_lookup s sig :
  sig_ok s → valid_sig sig → actions s !! Z.to_nat (sig - 1) = Some (act s sig).
Proof.
  intros Hok Hv. unfold act. destruct (lookup_lt_is_Some_2 (actions s) (Z.to_nat (sig - 1))) as [a Ha].
  { rewrite (so_length _ Hok). unfold valid_sig, SIG_MAX in Hv. lia. } by rewrite Ha.
Qed.

Lemma sig_ok_actions s l :
  sig_ok s → length l = 31%nat → Forall (λ a, maskable (sa_mask a)) l →
  (∀ a, l !! Z.to_nat (SIGKILL - 1) = Some a → sa_handler a = SIG_DFL) →
  (∀ a, l !! Z.to_nat (SIGSTOP - 1) = Some a → sa_handler a = SIG_DFL) →
  sig_ok (Sigstate (pending_list s) (pending_signal s) (blocked s) (saved_mask s) l).
Proof.
  intros [] Hl Hm Hk Hs. split; try done; unfold act; simpl.
  - destruct (l !! Z.to_nat (SIGKILL - 1)) eqn:E; [by apply Hk|done].
  - destruct (l !! Z.to_nat (SIGSTOP - 1)) eqn:E; [by apply Hs|done].
Qed.

(** Replacing the action of a signal other than SIGKILL and SIGSTOP. *)
Lemma sig_ok_set_action s sig a :
  sig_ok s → valid_sig sig → maskable (sa_mask a) →
  ((sig ≠ SIGKILL ∧ sig ≠ SIGSTOP) ∨ sa_handler a = SIG_DFL) →
  sig_ok (Sigstate (pending_list s) (pending_signal s) (blocked s) (saved_mask s)
            (<[Z.to_nat (sig - 1) := a]> (actions s))).
Proof.
  intros Hok Hv Hm Hd. assert (Hdef : ∀ k b, valid_sig k → sa_handler (act s k) = SIG_DFL → (k = SIGKILL ∨ k = SIGSTOP) →
    <[Z.to_nat (sig - 1) := a]> (actions s) !! Z.to_nat (k - 1) = Some b → sa_handler b = SIG_DFL).
  { intros k b Hk Hdfl Hks. destruct (decide (k = sig)) as [->|Hne].
    - rewrite list_lookup_insert_eq by (rewrite (so_length _ Hok); unfold valid_sig, SIG_MAX in Hv; lia).
      intros [= <-]. tauto.
    - rewrite list_lookup_insert_ne by (unfold valid_sig in *; lia). rewrite act_lookup by done. by intros [= <-]. }
  apply sig_ok_actions; [done|by rewrite length_insert, (so_length _ Hok)|by apply Forall_insert; [apply Hok|]| |].
  - intros b. apply (Hdef SIGKILL); [by vm_compute|apply Hok|by left].
  - intros b. apply (Hdef SIGSTOP); [by vm_compute|apply Hok|by right].
Qed.

(** A taken signal: what the caller of [get_signal] will see. *)
Definition delivered_ok (ks : ksignal) : Prop :=
  valid_sig (si_signo (ks_info ks)) ∧ si_signo (ks_info ks) ≠ SIGKILL ∧ si_signo (ks_info ks) ≠ SIGSTOP ∧
  maskable (sa_mask (ks_action ks)) ∧ maskable (ks_oldmask ks) ∧
  sa_handler (ks_action ks) ≠ SIG_DFL ∧ sa_handler (ks_action ks) ≠ SIG_IGN.

Lemma act_on_spec sig info t :
  sig_ok (t_sig t) → valid_sig sig → si_signo info = sig →
  ∃ f, act_on sig info false t = Ok f ∧ sig_wf (task_of f) ∧
    pending_signal (t_sig (task_of f)) = pending_signal (t_sig t) ∧
    blocked (t_sig (task_of f)) = blocked (t_sig t) ∧
    match disposition_of (act (t_sig t) sig) sig, f with
    | Handled, Deliver ks _ => delivered_ok ks ∧ ks_info ks = info ∧ ks_action ks = act (t_sig t) sig
    | Ignored, Skip _ => True
    | Stopped, Stop t' => task_test_flag t' TF_STOPPENDING = true
    | Killed, Exit s _ => s = sig
    | _, _ => False
    end.
Proof.
  intros Hok Hv Hi. unfold act_on. rewrite (arr_get_Ok _ _ _ (act_lookup _ _ Hok Hv)). cbn [res_bind andb].
  set (a := act (t_sig t) sig). set (special := (_ || _) : bool). rewrite stopmask_spec by done.
  cbn [negb]. set (t1 := if true && negb special && _ then _ else t).
  assert (Ham : maskable (sa_mask a)).
  { pose proof (so_masks _ Hok) as HF. rewrite Forall_lookup in HF. eapply HF. by apply act_lookup. }
  assert (Hdflk : sig = SIGKILL ∨ sig = SIGSTOP → sa_handler a = SIG_DFL).
  { intros [-> | ->]; [apply (so_kill _ Hok)|apply (so_stop _ Hok)]. }
  assert (H1 : sig_ok (t_sig t1) ∧ pending_signal (t_sig t1) = pending_signal (t_sig t) ∧
    blocked (t_sig t1) = blocked (t_sig t)).
  { unfold t1. destruct (_ && _ && _); [|done]. split; [|done].
    apply sig_ok_set_action; [done|done|done|by right]. }
  destruct H1 as (Hok1&Hp1&Hb1). set (t2 := if _ && default_stop sig then _ else t1).
  assert (Hs2 : t_sig t2 = t_sig t1) by (unfold t2; by destruct ((sa_handler a =? SIG_DFL) && default_stop sig)).
  assert (Hwf : sig_wf (recalc_sigpending t2)) by (apply recalc_wf; by rewrite Hs2).
  assert (Hsig : t_sig (recalc_sigpending t2) = t_sig t1) by (by rewrite recalc_sig, Hs2).
  unfold signal_default. rewrite ignored_spec by done. fold (default_stop sig).
  assert (Hflag : sa_handler a = SIG_DFL → default_stop sig = true →
    task_test_flag (recalc_sigpending t2) TF_STOPPENDING = true).
  { intros E1 E2. unfold TF_STOPPENDING. rewrite recalc_flag by lia. unfold t2. rewrite E1, E2, Z.eqb_refl.
    cbn [andb]. unfold TF_STOPPENDING. rewrite flag_set by lia. done. }
  unfold disposition_of. destruct (Z.eqb_spec (sa_handler a) SIG_IGN) as [E|E].
  { eexists. split; [done|]. cbn [task_of]. rewrite Hsig. done. }
  destruct (Z.eqb_spec (sa_handler a) SIG_DFL) as [E'|E'].
  - destruct (default_ignore sig); [eexists; split; [done|]; cbn [task_of]; by rewrite Hsig|].
    destruct (default_stop sig) eqn:Hst; eexists; (split; [done|]); cbn [task_of]; rewrite Hsig; split_and!; auto.
  - eexists. split; [done|]. cbn [task_of]. rewrite Hsig. split_and!; try done. unfold delivered_ok. simpl. rewrite Hi.
    split_and!; try done.
    + intros ->. apply E', Hdflk. by left.
    + intros ->. apply E', Hdflk. by right.
    + destruct (task_test_flag t TF_SIGSUSPEND); apply Hok.
Qed.

(** [sig] is the signal to take next: SIGKILL first, then the lowest number
    that is pending and not blocked. *)
Definition takes (s : sigstate) (sig : Z) : Prop :=
  valid_sig sig ∧ pend s sig = true ∧ blk s sig = false ∧
  (sig = SIGKILL ∨
   (pend s SIGKILL = false ∧ ∀ k, valid_sig k → k < sig → pend s k = true → blk s k = true)).

Lemma deliverable_bits s :
  sig_ok s → deliverable s = true ↔ ∃ sig, valid_sig sig ∧ pend s sig = true ∧ blk s sig = false.
Proof.
  intros Hok. unfold deliverable, truth, pend, blk. rewrite negb_true_iff, Z.eqb_neq. split.
  - intros Hne. set (x := Z.land _ _) in *.
    assert (0 ≤ x < 2 ^ 31) as Hx by (apply land_range; [lia|apply Hok]).
    pose proof (Z.log2_spec x ltac:(lia)) as [Hlo Hhi]. pose proof (Z.bit_log2 x ltac:(lia)) as Hb.
    assert (Z.log2 x < 31) by (apply Z.log2_lt_pow2; lia). pose proof (Z.log2_nonneg x).
    unfold x in Hb. rewrite land_not64_bit in Hb by (fold x; lia). fold x in Hb. bools.
    exists (Z.log2 x + 1). replace (Z.log2 x + 1 - 1) with (Z.log2 x) by lia.
    unfold valid_sig, SIG_MAX. split; [lia|]. done.
  - intros (sig&Hv&Hp&Hb) H0. unfold valid_sig, SIG_MAX in Hv.
    assert (Z.testbit (Z.land (pending_signal s) (not64 (blocked s))) (sig - 1) = true) as Hc.
    { rewrite land_not64_bit by lia. by rewrite Hp, Hb. }
    by rewrite H0, Z.bits_0 in Hc.
Qed.

(** The choice the code makes. *)
Lemma choose_spec s :
  sig_ok s → deliverable s = true →
  ∃ sig, (if truth (Z.land (Z.land (pending_signal s) (not64 (blocked s))) (sigmask SIGKILL)) then Ok SIGKILL
          else let! b := find_first_bit [Z.land (pending_signal s) (not64 (blocked s))] SIG_MAX in
               Ok (s32 (b + 1))) = Ok sig ∧ takes s sig.
Proof.
  intros Hok Hd. set (x := Z.land (pending_signal s) (not64 (blocked s))).
  assert (Hx : ∀ k, valid_sig k → Z.testbit x (k - 1) = pend s k && negb (blk s k)).
  { intros k Hk. unfold x, pend, blk, valid_sig, SIG_MAX in *. apply land_not64_bit. lia. }
  assert (Hkv : valid_sig SIGKILL) by (by vm_compute).
  assert (Hkb : blk s SIGKILL = false) by apply (so_blocked _ Hok).
  rewrite sigmask_bit, (Hx SIGKILL Hkv), Hkb by done. rewrite andb_true_r.
  destruct (pend s SIGKILL) eqn:Hk.
  { exists SIGKILL. split; [done|]. split_and!; try done. by left. }
  destruct (find_next_loop_spec true (Z.to_nat (SIG_MAX - 0)) [x] SIG_MAX 0) as (r&Hr&Hlow&Hhit); [lia|done|done|].
  unfold find_first_bit, find_next_bit. rewrite Hr. cbn [res_bind].
  assert (Hbit : ∀ j, 0 ≤ j < 31 → bit [x] j = Z.testbit x j).
  { intros j Hj. unfold bit, BIT_WORD, BITS_PER_LONG. rewrite Z.div_small, Z.mod_small by lia. done. }
  destruct Hhit as [[Hrr Hb]|Hnone].
  - unfold SIG_MAX in *. rewrite s32_small by lia. exists (r + 1). split; [done|].
    rewrite Hbit in Hb by lia.
    assert (valid_sig (r + 1)) as Hv by (unfold valid_sig, SIG_MAX; lia).
    specialize (Hx (r + 1) Hv) as Hxr. replace (r + 1 - 1) with r in Hxr by lia. rewrite Hb in Hxr.
    symmetry in Hxr. bools. split_and!; try done. right. split; [done|]. intros k Hkv' Hlt Hpk.
    specialize (Hlow (k - 1)). unfold valid_sig, SIG_MAX in Hkv'. rewrite Hbit in Hlow by lia.
    specialize (Hlow ltac:(lia) ltac:(lia)). rewrite (Hx k Hkv'), Hpk in Hlow. simpl in Hlow.
    by apply negb_false_iff in Hlow.
  - exfalso. apply deliverable_bits in Hd as (sig&Hv&Hp&Hb); [|done].
    pose proof (Hx sig Hv) as Hxs. rewrite Hp, Hb in Hxs. unfold valid_sig, SIG_MAX in *.
    specialize (Hlow (sig - 1)). rewrite Hbit in Hlow by lia. rewrite Hlow in Hxs by lia. done.
Qed.

(** What one round of [get_signal] does when a signal can be taken. *)
Definition taken (t : task) (sig : Z) (f : fetched) : Prop :=
  sig_wf (task_of f) ∧
  (∀ k, valid_sig k → pend (t_sig (task_of f)) k = pend (t_sig t) k && negb (k =? sig)) ∧
  blocked (t_sig (task_of f)) = blocked (t_sig t) ∧
  match disposition_of (act (t_sig t) sig) sig, f with
  | Handled, Deliver ks _ => delivered_ok ks ∧ si_signo (ks_info ks) = sig ∧ ks_action ks = act (t_sig t) sig ∧
      (ks_info ks ∈ pending_list (t_sig t) ∨ ks_info ks = Siginfo sig SI_USER 0 0 0 0)
  | Ignored, Skip _ => True
  | Stopped, Stop t' => task_test_flag t' TF_STOPPENDING = true
  | Killed, Exit k _ => k = sig
  | _, _ => False
  end.

Lemma get_signal_step_ok t :
  sig_wf t →
  if deliverable (t_sig t) then ∃ sig f, takes (t_sig t) sig ∧ get_signal_step t None = Ok f ∧ taken t sig f
  else get_signal_step t None = Ok (if task_test_flag t TF_SIGSUSPEND then Wait t else Nothing t).
Proof.
  intros [Hok _]. unfold get_signal_step. destruct (deliverable (t_sig t)) eqn:Hd; pose proof Hd as Hd';
    unfold deliverable in Hd'; rewrite Hd'; cbn [negb]; [|done].
  destruct (choose_spec _ Hok Hd) as (sig&Hc&Htk). rewrite Hc. cbn [res_bind].
  destruct (dequeue_signal_locked t sig) as [info t1] eqn:Hdq. destruct Htk as (Hv&Hp&Hb&Hord).
  destruct (dequeue_spec t sig info t1) as [(Hs1&_&_&Hsig&Hinfo) Hok1]; try done.
  destruct (act_on_spec sig info t1) as (f&->&Hwf&Hpf&Hbf&Hdisp); try done.
  assert (Hact : act (t_sig t1) sig = act (t_sig t) sig) by (unfold act; by rewrite Hs1).
  rewrite Hact in Hdisp. exists sig, f. split; [done|]. split; [done|]. split; [done|]. split_and!.
  - intros k Hk. unfold pend. rewrite Hpf, Hs1. cbn [pending_signal]. unfold valid_sig, SIG_MAX in Hk.
    rewrite land_not64_bit, sigmask_test by (done || lia). f_equal. f_equal.
    destruct (Z.eqb_spec k sig); [subst; apply Z.eqb_refl|apply Z.eqb_neq; lia].
  - by rewrite Hbf, Hs1.
  - destruct (disposition_of _ _), f; try done. destruct Hdisp as (?&Hks&?). rewrite Hks. split_and!; try done; by rewrite <-Hks.
Qed.

Definition count_pending (s : sigstate) : nat := length (filter (λ k, pend s k = true) (Z.of_nat <$> seq 1 31)).

Lemma filter_shrinks {A} (P Q : A → Prop) `{!∀ x, Decision (P x), !∀ x, Decision (Q x)} l x :
  (∀ y, y ∈ l → Q y → P y) → x ∈ l → P x → ¬ Q x → (length (filter Q l) < length (filter P l))%nat.
Proof.
  assert (Hle : ∀ l, (∀ y, y ∈ l → Q y → P y) → (length (filter Q l) ≤ length (filter P l))%nat).
  { clear. induction l as [|a l IH]; intros Hs; [done|]. rewrite !filter_cons.
    assert (Hs' : ∀ y, y ∈ l → Q y → P y) by (intros y Hy; apply Hs; by right). specialize (IH Hs').
    destruct (decide (Q a)) as [Hq|]; [|destruct (decide (P a)); simpl; lia].
    rewrite decide_True by (apply Hs; [by left|done]). simpl. lia. }
  induction l as [|a l IH]; intros Hs Hx Hp Hq; [inversion Hx|]. rewrite !filter_cons.
  assert (Hs' : ∀ y, y ∈ l → Q y → P y) by (intros y Hy; apply Hs; by right).
  apply elem_of_cons in Hx as [->|Hx].
  - rewrite decide_False, decide_True by done. specialize (Hle l Hs'). simpl. lia.
  - specialize (IH Hs' Hx Hp Hq). destruct (decide (Q a)).
    + rewrite decide_True by (apply Hs; [by left|done]). simpl. lia.
    + destruct (decide (P a)); simpl; lia.
Qed.

Lemma taken_shrinks t sig f :
  takes (t_sig t) sig → taken t sig f → (count_pending (t_sig (task_of f)) < count_pending (t_sig t))%nat.
Proof.
  intros (Hv&Hp&_) (_&Hk&_). unfold count_pending.
  assert (Hin : ∀ y, y ∈ Z.of_nat <$> seq 1 31 → valid_sig y).
  { intros y (n&->&Hn%elem_of_seq)%list_elem_of_fmap. unfold valid_sig, SIG_MAX. lia. }
  apply (filter_shrinks _ _ _ sig).
  - intros y Hy Hpy. rewrite Hk in Hpy by auto. by bools.
  - apply list_elem_of_fmap. exists (Z.to_nat sig). unfold valid_sig, SIG_MAX in Hv. rewrite elem_of_seq. lia.
  - done.
  - rewrite Hk, Z.eqb_refl by done. simpl. rewrite andb_false_r. done.
Qed.

(** The loop stops within one round per pending signal and one more. *)
Lemma get_signal_ok fuel t :
  sig_wf t → (count_pending (t_sig t) < fuel)%nat →
  ∃ f, get_signal fuel t None = Ok f ∧ sig_wf (task_of f) ∧ (∀ t', f ≠ Skip t').
Proof.
  revert t. induction fuel as [|fuel IH]; intros t Hwf Hc; [lia|]. cbn [get_signal].
  pose proof (get_signal_step_ok t Hwf) as Hs. destruct (deliverable (t_sig t)).
  - destruct Hs as (sig&f&Htk&->&Hf). cbn [res_bind].
    pose proof (taken_shrinks _ _ _ Htk Hf) as Hlt. pose proof Hf as (Hw&_).
    destruct f as [ks t'|t'|t'|t'|t'|k t']; cbn [task_of] in *;
      first [apply IH; [done|lia]|eexists; split; [done|]; split; [done|]; done].
  - rewrite Hs. cbn [res_bind]. destruct (task_test_flag t TF_SIGSUSPEND); eexists; (split; [done|]); done.
Qed.

Lemma count_pending_max s : (count_pending s ≤ 31)%nat.
Proof. unfold count_pending. etransitivity; [apply length_filter|]. by rewrite length_fmap, length_seq. Qed.

(** ** Sending *)

(** [sig] removes a pending [k]: stop signals and SIGCONT cancel each other. *)
Definition cancels (sig k : Z) : bool :=
  (default_stop sig && (k =? SIGCONT)) || ((sig =? SIGCONT) && default_stop k).

Definition accepted (s : sigstate) (sig : Z) : bool :=
  blk s sig || negb (signal_ignored (act s sig) sig).

Record sent (s : sigstate) (info : siginfo) (queue : bool) (s' : sigstate) : Prop := {
  sent_pend : ∀ k, valid_sig k →
    pend s' k = if k =? si_signo info then pend s k || accepted s k
                else pend s k && negb (cancels (si_signo info) k);
  sent_blocked : blocked s' = blocked s;
  sent_saved : saved_mask s' = saved_mask s;
  sent_actions : actions s' = actions s;
  sent_queue : pending_list s' =
    filter (λ i, cancels (si_signo info) (si_signo i) = false) (pending_list s) ++
    (if negb (pend s (si_signo info)) && accepted s (si_signo info) && queue then [info] else []);
}.

Lemma not_self_cancel sig : valid_sig sig → cancels sig sig = false.
Proof.
  intros Hv. apply negb_true_iff. apply (valid_cases sig (λ s, negb (cancels s s)) Hv). by vm_compute.
Qed.

(** The flush at the start of [send_signal]. *)
Lemma flush_sent t sig :
  sig_ok (t_sig t) → valid_sig sig →
  let t1 := if truth (Z.land SIG_STOPMASK (sigmask sig)) then flush_signals_locked t (sigmask SIGCONT)
            else if sig =? SIGCONT then flush_signals_locked t SIG_STOPMASK else t in
  sig_ok (t_sig t1) ∧ vw t1 = vw t ∧ tflags t1 = tflags t ∧
  (∀ k, valid_sig k → pend (t_sig t1) k = pend (t_sig t) k && negb (cancels sig k)) ∧
  blocked (t_sig t1) = blocked (t_sig t) ∧ saved_mask (t_sig t1) = saved_mask (t_sig t) ∧
  actions (t_sig t1) = actions (t_sig t) ∧
  pending_list (t_sig t1) = filter (λ i, cancels sig (si_signo i) = false) (pending_list (t_sig t)).
Proof.
  intros Hok Hv. rewrite stopmask_spec by done.
  assert (Hflush : ∀ mask, (∀ k, valid_sig k → Z.testbit mask (k - 1) = cancels sig k) →
    let t1 := flush_signals_locked t mask in
    (∀ k, valid_sig k → pend (t_sig t1) k = pend (t_sig t) k && negb (cancels sig k)) ∧
    pending_list (t_sig t1) = filter (λ i, cancels sig (si_signo i) = false) (pending_list (t_sig t))).
  { intros mask Hm. split.
    - intros k Hk. unfold pend. simpl. rewrite <-Hm by done. unfold valid_sig, SIG_MAX in *. by rewrite land_not64_bit by lia.
    - simpl. apply filter_ext_in. intros i Hi. destruct (so_queue _ Hok i Hi) as [Hvi _].
      by rewrite sigmask_bit, Hm by done. }
  destruct (default_stop sig) eqn:Hst; [|destruct (Z.eqb_spec sig SIGCONT) as [->|Hc]]; cbn zeta.
  - destruct (Hflush (sigmask SIGCONT)) as [H1 H2]; [|split_and!; try done; by apply flush_ok].
    intros k Hk. unfold valid_sig, SIG_MAX in Hk. rewrite sigmask_test by (done || lia). unfold cancels. rewrite Hst. simpl.
    replace (sig =? SIGCONT) with false; [|destruct (Z.eqb_spec sig SIGCONT) as [->|]; done].
    rewrite orb_false_r. destruct (Z.eqb_spec k SIGCONT); [subst; done|]. apply Z.eqb_neq. unfold SIGCONT in *. lia.
  - destruct (Hflush SIG_STOPMASK) as [H1 H2]; [|split_and!; try done; by apply flush_ok].
    intros k Hk. rewrite <-sigmask_bit, stopmask_spec by done. done.
  - assert (Hno : ∀ k, cancels sig k = false).
    { intros k. unfold cancels. rewrite Hst. by replace (sig =? SIGCONT) with false by lia. }
    split_and!; try done.
    + intros k _. by rewrite Hno, andb_true_r.
    + symmetry. apply filter_id. apply Forall_forall. intros i _. apply Hno.
Qed.

Lemma send_locked_spec t info queue :
  sig_ok (t_sig t) → valid_sig (si_signo info) →
  ∃ t', send_locked t info queue = Ok t' ∧ sig_wf t' ∧ vw t' = vw t ∧ sent (t_sig t) info queue (t_sig t').
Proof.
  intros Hok Hv. unfold send_locked. set (sig := si_signo info) in *.
  destruct (flush_sent t sig Hok Hv) as (Hok1&Hvw1&_&Hp1&Hb1&Hs1&Ha1&Hq1). set (t1 := if truth _ then _ else _) in *.
  set (t2 := if (sig =? SIGCONT) || (sig =? SIGKILL) then _ else t1).
  assert (H2 : t_sig t2 = t_sig t1 ∧ vw t2 = vw t1) by (unfold t2; by destruct (_ || _)).
  destruct H2 as [H2 Hvw2]. unfold sig_valid, sig_pending. rewrite H2, !sigmask_bit by done.
  fold (pend (t_sig t1) sig) (blk (t_sig t1) sig).
  assert (Hact : act (t_sig t1) sig = act (t_sig t) sig) by (unfold act; by rewrite Ha1).
  assert (Hblk : blk (t_sig t1) sig = blk (t_sig t) sig) by (unfold blk; by rewrite Hb1).
  assert (Hps : pend (t_sig t1) sig = pend (t_sig t) sig) by (rewrite Hp1, not_self_cancel, andb_true_r by done; done).
  rewrite (arr_get_Ok _ _ _ (act_lookup _ _ Hok1 Hv)), Hact, Hblk, Hps. cbn [res_bind].
  set (addr := if negb (pend (t_sig t) sig) then _ else _).
  assert (Hadd : addr = Ok (negb (pend (t_sig t) sig) && accepted (t_sig t) sig)).
  { unfold addr, accepted. destruct (pend (t_sig t) sig); [done|]. by destruct (blk (t_sig t) sig). }
  rewrite Hadd. cbn [res_bind]. set (add := negb _ && accepted _ _).
  assert (Hmin : 0 ≤ sigmask sig < 2 ^ 31).
  { unfold sigmask, BIT. rewrite Z.shiftl_1_l. unfold valid_sig, SIG_MAX in Hv.
    assert (0 < 2 ^ (sig - 1) < 2 ^ 31) by (split; [lia|apply Z.pow_lt_mono_r; lia]).
    rewrite u64_small by (unfold in_u64; lia). lia. }
  eexists. split; [done|]. split; [|split].
  - apply recalc_wf. destruct add eqn:Hadd'; [|by rewrite H2]. unfold add in Hadd'. bools.
    assert (Hnp : pend (t_sig t1) sig = false) by congruence.
    cbn [with_pending with_sig t_sig]. rewrite H2. apply sig_ok_pending; [done| | |].
    + apply lor_range; [lia|apply Hok1|done].
    + intros i Hi. assert (Hc : i ∈ pending_list (t_sig t1) ∨ i = info).
      { destruct queue; [|by left]. apply elem_of_app in Hi as [?|Hi]; [by left|]. apply list_elem_of_singleton in Hi. by right. }
      destruct Hc as [Hi'| ->].
      * destruct (so_queue _ Hok1 i Hi') as [Hvi Hpi]. split; [done|]. unfold pend in Hpi. by rewrite Z.lor_spec, Hpi.
      * split; [done|]. fold sig. unfold valid_sig, SIG_MAX in Hv. rewrite Z.lor_spec, sigmask_test, Z.eqb_refl by (done || lia).
        apply orb_true_r.
    + destruct queue; [|apply Hok1]. rewrite fmap_app. apply NoDup_app. split_and!; [apply Hok1| |exact (NoDup_singleton sig)].
      intros x (i&->&Hi)%list_elem_of_fmap Hx. change (si_signo i ∈ [sig]) in Hx. apply list_elem_of_singleton in Hx.
      destruct (so_queue _ Hok1 i Hi) as [_ Hpi]. rewrite Hx in Hpi. congruence.
  - rewrite recalc_vw. destruct add; [|congruence]. rewrite <-Hvw1, <-Hvw2. done.
  - rewrite recalc_sig. fold sig. split; fold sig.
    + intros k Hk. destruct (Z.eqb_spec k sig) as [->|Hne].
      * destruct add eqn:Hadd'; unfold add in Hadd'.
        -- bools. unfold pend at 1. cbn [with_pending with_sig t_sig pending_signal].
           unfold valid_sig, SIG_MAX in Hv. rewrite Z.lor_spec, sigmask_test, Z.eqb_refl by (done || lia).
           rewrite orb_true_r. symmetry. apply orb_true_iff. by right.
        -- rewrite H2, Hps. destruct (pend (t_sig t) sig); [done|]. cbn [negb andb] in Hadd'. by rewrite Hadd'.
      * rewrite <-Hp1 by done. destruct add; [|by rewrite H2]. unfold pend. cbn [with_pending with_sig t_sig pending_signal].
        unfold valid_sig, SIG_MAX in Hk. rewrite ?H2, Z.lor_spec, sigmask_test by (done || lia).
        replace (k - 1 =? sig - 1) with false by lia. apply orb_false_r.
    + destruct add; cbn [with_pending with_sig t_sig blocked]; by rewrite ?H2, Hb1.
    + destruct add; cbn [with_pending with_sig t_sig saved_mask]; by rewrite ?H2, Hs1.
    + destruct add; cbn [with_pending with_sig t_sig actions]; by rewrite ?H2, Ha1.
    + fold add. destruct add; cbn [with_pending with_sig t_sig pending_list andb]; rewrite ?H2, Hq1.
      * destruct queue; [done|]. by rewrite app_nil_r.
      * by rewrite app_nil_r.
Qed.

(** Scheduler operations leave the signal state of every task alone. *)
Definition sigsame (t t' : task) : Prop :=
  t_sig t' = t_sig t ∧ ∀ n, 0 < n < 32 → task_test_flag t' (BIT n) = task_test_flag t (BIT n).
Definition sigkept (m m' : machine) : Prop :=
  ∀ q t, tasks m !! q = Some t → ∃ t', tasks m' !! q = Some t' ∧ sigsame t t'.

Lemma sigsame_refl t : sigsame t t.
Proof. done. Qed.
Lemma sigkept_refl m : sigkept m m.
Proof. intros q t Ht. eauto using sigsame_refl. Qed.
Lemma sigkept_trans m1 m2 m3 : sigkept m1 m2 → sigkept m2 m3 → sigkept m1 m3.
Proof.
  intros H1 H2 q t Ht. destruct (H1 q t Ht) as (t1&Ht1&Hs1&Hf1). destruct (H2 q t1 Ht1) as (t2&Ht2&Hs2&Hf2).
  exists t2. split; [done|]. split; [congruence|]. intros n Hn. by rewrite Hf2, Hf1.
Qed.
Lemma sigkept_put m p t t' : tasks m !! p = Some t → sigsame t t' → sigkept m (put_task m p t').
Proof.
  intros Hp Hs q x Hx. simpl. destruct (decide (q = p)) as [->|].
  - rewrite lookup_insert_eq. rewrite Hp in Hx. injection Hx as <-. eauto.
  - rewrite lookup_insert_ne by done. eauto using sigsame_refl.
Qed.

Lemma resched_same t b : sigsame t (task_set_need_resched t b).
Proof.
  split; [by destruct b|]. intros n Hn. unfold task_set_need_resched, TF_NEED_RESCHED.
  destruct b; [rewrite flag_set by lia|rewrite flag_clear by lia]; by replace (n =? 0) with false by lia.
Qed.

Lemma enqueue_sigkept m c p m' : enqueue_task m c p = Ok m' → sigkept m m'.
Proof.
  unfold enqueue_task, get_task. intros H. res_inv.
  assert (H1 : ∀ l, sigkept m (put_task (put_rq m c (with_ready a l)) p (with_on_rq a0 true))).
  { intros l. by apply (sigkept_put (put_rq m c (with_ready a l)) p a0). }
  destruct (bool_decide (curr a = idle a)); res_inv; [|apply H1].
  eapply sigkept_trans; [apply H1|]. eapply sigkept_put; [done|]. apply (resched_same _ true).
Qed.

Lemma wake_sigkept m me p st b i m' : wake_task m me p st = Ok (b, i, m') → sigkept m m'.
Proof.
  unfold wake_task, get_task. intros H. res_inv. destruct (truth _); res_inv; [|apply sigkept_refl].
  assert (H1 : sigkept m (put_task m p (with_state a TASK_RUNNABLE))) by (by eapply sigkept_put).
  destruct (negb _); res_inv; [|done]. match goal with H : enqueue_task _ _ _ = Ok _ |- _ =>
    apply enqueue_sigkept in H; exact (sigkept_trans _ _ _ H1 H) end.
Qed.

Lemma sig_wf_same t t' : sigsame t t' → sig_wf t → sig_wf t'.
Proof.
  intros [Hs Hf] [Hok Hfl]. split; [by rewrite Hs|]. rewrite Hs, <-Hfl. apply (Hf 2). lia.
Qed.

(** The states from which [sig] takes the task. *)
Definition wakes (s' : sigstate) (sig : Z) : Z :=
  Z.lor (if (sig =? SIGCONT) || (sig =? SIGKILL) then TASK_STOPPED else 0)
        (if deliverable s' then if sig =? SIGKILL then Z.lor TASK_INTERRUPTIBLE TASK_KILLABLE
                                else TASK_INTERRUPTIBLE else 0).

Lemma truth_lor a b : truth (Z.lor a b) = truth a || truth b.
Proof.
  unfold truth. destruct (Z.eqb_spec a 0) as [->|Ha]; [done|]. simpl. apply negb_true_iff, Z.eqb_neq.
  intros H. by apply Z.lor_eq_0_iff in H as [??].
Qed.

Lemma send_signal_ok m me p info queue t :
  sched_inv m → tasks m !! p = Some t → sig_wf t → valid_sig (si_signo info) →
  ∃ m' t', send_signal m me p info queue = Ok (0, m') ∧ sched_inv m' ∧ tasks m' !! p = Some t' ∧
    sig_wf t' ∧ sent (t_sig t) info queue (t_sig t') ∧
    (truth (Z.land (wakes (t_sig t') (si_signo info)) (state t)) = true → woken m' p) ∧
    (∀ q t1, q ≠ p → tasks m !! q = Some t1 → ∃ t2, tasks m' !! q = Some t2 ∧ sigsame t1 t2 ∧ vw t2 = vw t1).
Proof.
  intros Hinv Ht Hwf Hv. unfold send_signal. set (sig := si_signo info) in *.
  replace (truth sig) with true by (unfold truth, valid_sig in *; lia). cbn [negb].
  unfold get_task at 1. rewrite Ht. cbn [deref res_bind].
  destruct (send_locked_spec t info queue (sw_ok _ Hwf) Hv) as (t1&->&Hwf1&Hvw1&Hsent). cbn [res_bind].
  set (m1 := put_task m p t1).
  assert (Hinv1 : sched_inv m1).
  { eapply inv_ext; [|exact Hinv]. intros q. apply vtab_same. unfold vtab. rewrite Ht. by rewrite Hvw1. }
  assert (Ht1 : tasks m1 !! p = Some t1) by (unfold m1; simpl; by rewrite lookup_insert_eq).
  assert (Hst1 : state t1 = state t) by (by injection Hvw1).
  (* the resume of a stopped task *)
  assert (∃ m2, (if (sig =? SIGCONT) || (sig =? SIGKILL) then let! (_, _, m) := sched_resume m1 me p in Ok m
      else Ok m1) = Ok m2 ∧ sched_inv m2 ∧ sigkept m1 m2 ∧
    (if truth (Z.land (if (sig =? SIGCONT) || (sig =? SIGKILL) then TASK_STOPPED else 0) (state t))
     then woken m2 p else m2 = m1) ∧ (∀ q, q ≠ p → vtab m2 q = vtab m1 q)) as (m2&->&Hinv2&Hk2&Hw2&Ho2).
  { destruct (_ || _).
    - unfold sched_resume. destruct (wake_task_inv m1 me p TASK_STOPPED t1) as (ipi&m2&Hwk&Hi2&Hw&Ho); try done.
      rewrite Hwk. cbn [res_bind]. exists m2. rewrite <-Hst1. split_and!; try done. by eapply wake_sigkept.
    - exists m1. rewrite Z.land_0_l. split_and!; try done. apply sigkept_refl. }
  cbn [res_bind]. destruct (Hk2 p t1 Ht1) as (t2&Ht2&Hs2). unfold get_task. rewrite Ht2. cbn [deref res_bind].
  assert (Hflag : signal_pending t2 = deliverable (t_sig t1)).
  { destruct Hs2 as [_ Hf]. transitivity (signal_pending t1); [apply (Hf 2); lia|apply Hwf1]. }
  rewrite Hflag. set (mask := if sig =? SIGKILL then Z.lor TASK_INTERRUPTIBLE TASK_KILLABLE else TASK_INTERRUPTIBLE).
  (* the wakeup *)
  assert (∃ m3, (if deliverable (t_sig t1) then let! (_, _, m) := sched_wake_signal m2 me p sig in Ok (0, m)
      else Ok (0, m2)) = Ok (0, m3) ∧ sched_inv m3 ∧ sigkept m2 m3 ∧
    (if truth (Z.land (if deliverable (t_sig t1) then mask else 0) (state t2)) then woken m3 p else m3 = m2) ∧
    (∀ q, q ≠ p → vtab m3 q = vtab m2 q)) as (m3&->&Hinv3&Hk3&Hw3&Ho3).
  { destruct (deliverable (t_sig t1)).
    - unfold sched_wake_signal. fold mask. destruct (wake_task_inv m2 me p mask t2) as (ipi&m3&Hwk&Hi3&Hw&Ho); try done.
      { unfold mask. by destruct (sig =? SIGKILL). }
      rewrite Hwk. cbn [res_bind]. exists m3. split_and!; try done. by eapply wake_sigkept.
    - exists m2. rewrite Z.land_0_l. split_and!; try done. apply sigkept_refl. }
  destruct (Hk3 p t2 Ht2) as (t3&Ht3&Hs3). exists m3, t3.
  assert (Hsig3 : t_sig t3 = t_sig t1). { destruct Hs2 as [E2 _], Hs3 as [E3 _]. congruence. }
  split; [done|]. split; [done|]. split; [done|].
  split; [by apply (sig_wf_same t2), (sig_wf_same t1)|]. split; [by rewrite Hsig3|]. split.
  - rewrite Hsig3. unfold wakes. fold mask. rewrite Z.land_lor_distr_l, truth_lor.
    destruct (truth (Z.land (if (sig =? SIGCONT) || (sig =? SIGKILL) then _ else _) (state t))).
    + intros _. destruct Hw2 as (t2'&r&Ht2'&Hst2&Hr&Hq). rewrite Ht2 in Ht2'. injection Ht2' as <-.
      rewrite Hst2 in Hw3. replace (truth _) with false in Hw3.
      { subst m3. exists t2, r. done. }
      unfold mask. destruct (deliverable (t_sig t1)), (sig =? SIGKILL); done.
    + subst m2. cbn [orb]. rewrite Ht1 in Ht2. injection Ht2 as <-. rewrite Hst1 in Hw3. intros E. rewrite E in Hw3. done.
  - intros q x Hq Hx. assert (Hx1 : tasks m1 !! q = Some x) by (unfold m1; simpl; by rewrite lookup_insert_ne).
    destruct (sigkept_trans _ _ _ Hk2 Hk3 q x Hx1) as (x3&Hx3&Hsame). exists x3. split; [done|]. split; [done|].
    specialize (Ho3 q Hq). specialize (Ho2 q Hq). unfold vtab in *. rewrite Hx3 in Ho3. rewrite Ho2, Hx1 in Ho3.
    by apply (inj Some) in Ho3.
Qed.

(** C11: [send_signal] on a consistent machine never fails: it returns 0, keeps
    the scheduler and signal invariants and every other task's state, and
    leaves exactly the right set pending - the signal itself if it was pending,
    is blocked or is not ignored, every other one unless SIGCONT and the stop
    signals cancel it - queuing its information at most once and in order.  The
    target is woken whenever it sleeps in a state the signal may interrupt:
    SIGCONT and SIGKILL resume a stopped task, SIGKILL also a killable one. *)
Theorem send_signal_spec m me p info queue t :
  sched_inv m → tasks m !! p = Some t → sig_wf t → valid_sig (si_signo info) →
  ∃ m' t', send_signal m me p info queue = Ok (0, m') ∧ sched_inv m' ∧ tasks m' !! p = Some t' ∧
    sig_wf t' ∧ sent (t_sig t) info queue (t_sig t') ∧
    (truth (Z.land (wakes (t_sig t') (si_signo info)) (state t)) = true → woken m' p) ∧
    (∀ q t1, q ≠ p → tasks m !! q = Some t1 → ∃ t2, tasks m' !! q = Some t2 ∧ sigsame t1 t2 ∧ vw t2 = vw t1).
Proof. apply send_signal_ok. Qed.

(** one round of [get_signal] without a fault takes the right signal:
    SIGKILL if pending, else the lowest-numbered pending unblocked one.  Exactly
    that signal stops being pending; it is delivered to the handler with the
    information that was queued for it, ignored, stops the task or ends it as
    its disposition says, and SIGKILL and SIGSTOP never reach a handler.  With
    nothing to take it reports so, or waits inside sigsuspend. *)
Theorem get_signal_takes_next t :
  sig_wf t →
  if deliverable (t_sig t) then ∃ sig f, takes (t_sig t) sig ∧ get_signal_step t None = Ok f ∧ taken t sig f
  else get_signal_step t None = Ok (if task_test_flag t TF_SIGSUSPEND then Wait t else Nothing t).
Proof. apply get_signal_step_ok. Qed.

(** the loop of [get_signal] terminates: 32 rounds are enough to skip
    every ignored signal and reach a handler, an exit, a stop, a wait or the
    end of the pending set. *)
Theorem get_signal_terminates t :
  sig_wf t → ∃ f, get_signal 32 t None = Ok f ∧ sig_wf (task_of f) ∧ (∀ t', f ≠ Skip t').
Proof. intros Hwf. apply get_signal_ok; [done|]. pose proof (count_pending_max (t_sig t)). lia. Qed.

(** SIGKILL cannot be survived: after it is sent, whatever the target
    blocks, ignores, handles or has pending, its next look for signals ends it,
    and the send has made it runnable if it slept interruptibly, killably or
    stopped. *)
Theorem kill_is_fatal m me p info queue t :
  sched_inv m → tasks m !! p = Some t → sig_wf t → si_signo info = SIGKILL →
  ∃ m' t', send_signal m me p info queue = Ok (0, m') ∧ tasks m' !! p = Some t' ∧
    (∃ t2, get_signal 1 t' None = Ok (Exit SIGKILL t2)) ∧
    (state t ∈ [TASK_INTERRUPTIBLE; TASK_KILLABLE; TASK_STOPPED] → woken m' p).
Proof.
  intros Hinv Ht Hwf Hk. assert (Hv : valid_sig (si_signo info)) by (rewrite Hk; by vm_compute).
  destruct (send_signal_ok m me p info queue t) as (m'&t'&Hs&_&Ht'&Hwf'&Hsent&Hwoken&_); try done.
  exists m', t'. split; [done|]. split; [done|].
  assert (Hkv : valid_sig SIGKILL) by (by vm_compute).
  assert (Hblk : ∀ s, sig_ok s → blk s SIGKILL = false) by (intros s Hok; apply (so_blocked _ Hok)).
  assert (Hpend : pend (t_sig t') SIGKILL = true).
  { rewrite (sent_pend _ _ _ _ Hsent SIGKILL Hkv), Hk, Z.eqb_refl. apply orb_true_iff. right.
    unfold accepted, signal_ignored. rewrite (so_kill _ (sw_ok _ Hwf)). apply orb_true_r. }
  assert (Hdel : deliverable (t_sig t') = true).
  { apply deliverable_bits; [apply Hwf'|]. exists SIGKILL. split_and!; [done|done|]. apply Hblk, Hwf'. }
  split.
  - pose proof (get_signal_step_ok t' Hwf') as Hg. rewrite Hdel in Hg.
    destruct Hg as (sig&f&(Hsv&_&_&Hord)&Hgs&Htk). assert (sig = SIGKILL) as ->.
    { destruct Hord as [?|[E _]]; [done|congruence]. }
    destruct Htk as (_&_&_&Hd). unfold disposition_of in Hd. rewrite (so_kill _ (sw_ok _ Hwf')) in Hd. simpl in Hd.
    destruct f as [| | | | |k t2]; try done. subst k. exists t2. cbn [get_signal]. rewrite Hgs. done.
  - intros Hst. apply Hwoken. unfold wakes. rewrite Hk, Hdel. rewrite !elem_of_cons, elem_of_nil in Hst.
    destruct Hst as [->|[->|[->|[]]]]; done.
Qed.

(** ** Masks and actions *)

Lemma sig_ok_blocked s x : sig_ok s → maskable x →
  sig_ok (Sigstate (pending_list s) (pending_signal s) x (saved_mask s) (actions s)).
Proof. intros [] Hx. by split. Qed.

Lemma set_blocked_wf t x : sig_ok (t_sig t) → maskable x → sig_wf (recalc_sigpending (with_blocked t x)).
Proof. intros Hok Hx. apply recalc_wf. by apply sig_ok_blocked. Qed.

Lemma sigprocmask_wf t how set oldset size : sig_wf t → sig_wf (sys_rt_sigprocmask t how set oldset size).2.
Proof.
  intros Hwf. pose proof (sw_ok _ Hwf) as Hok. pose proof (so_blocked _ Hok) as Hb. unfold sys_rt_sigprocmask.
  destruct (negb _); [done|]. destruct set as [| |s]; [by destruct oldset|done|].
  pose proof (maskable_user s) as Hs.
  destruct (how =? SIG_BLOCK); [destruct oldset; (apply set_blocked_wf; [done|by apply maskable_lor])|].
  destruct (how =? SIG_UNBLOCK); [destruct oldset; (apply set_blocked_wf; [done|by apply maskable_land])|].
  destruct (how =? SIG_SETMASK); [destruct oldset; by apply set_blocked_wf|done].
Qed.

Lemma sigaction_wf t sig a oldact size :
  sig_wf t → ∃ ret o t', sys_rt_sigaction t sig a oldact size = Ok (ret, o, t') ∧ sig_wf t'.
Proof.
  intros Hwf. pose proof (sw_ok _ Hwf) as Hok. unfold sys_rt_sigaction.
  destruct (_ || _ || _) eqn:Hg; [eauto 10|]. bools.
  assert (Hv : valid_sig sig) by (unfold valid_sig; lia).
  assert (Hold : ∀ t', sig_wf t' → ∃ ret o t'', match oldact with
    | WNull => Ok (0, None, t') | WBad => Ok (- EFAULT, None, t')
    | WGood => Ok (0, Some (act (t_sig t) sig), t') end = Ok (ret, o, t'') ∧ sig_wf t'')
    by (intros t' Ht'; destruct oldact; eauto 10).
  rewrite (arr_get_Ok _ _ _ (act_lookup _ _ Hok Hv)). cbn [res_bind].
  destruct a as [| |a]; [by apply Hold|destruct (_ || _); eauto 10|].
  destruct (_ || _) eqn:Hks; [eauto 10|]. bools. apply Hold, recalc_wf.
  match goal with |- sig_ok (t_sig (if _ then flush_signals_locked ?x _ else _)) =>
    assert (Hx : sig_ok (t_sig x)) end.
  { apply sig_ok_set_action; [done|done|apply maskable_user|left; lia]. }
  destruct (signal_ignored _ _); [by apply flush_ok|done].
Qed.

Lemma delivered_wf ks t : sig_wf t → delivered_ok ks → sig_wf (signal_delivered ks t).
Proof.
  intros Hwf (Hv&Hk&Hs&Hm&_). unfold signal_delivered. apply recalc_wf.
  assert (Hb : maskable (Z.lor (blocked (t_sig t)) (sa_mask (ks_action ks)))).
  { apply maskable_lor; [apply (sw_ok _ Hwf)|done]. }
  assert (Hok : sig_ok (t_sig (with_blocked (task_clear_flag t TF_SIGSUSPEND)
    (Z.lor (blocked (t_sig t)) (sa_mask (ks_action ks)))))) by (apply sig_ok_blocked; [apply Hwf|done]).
  destruct (negb _); [|exact Hok]. apply (sig_ok_blocked _ _ Hok). apply maskable_lor; [done|by apply maskable_sig].
Qed.

Lemma clone_wf t : sig_wf t → sig_wf (signal_clone t).
Proof.
  intros [Hok Hf]. split; [|done]. apply sig_ok_actions; [done|by rewrite length_fmap, (so_length _ Hok)| | |].
  - apply Forall_fmap, Forall_true. intros a. by vm_compute.
  - intros a. rewrite list_lookup_fmap, act_lookup by (done || by vm_compute). intros [= <-]. simpl. by rewrite (so_kill _ Hok).
  - intros a. rewrite list_lookup_fmap, act_lookup by (done || by vm_compute). intros [= <-]. simpl. by rewrite (so_stop _ Hok).
Qed.

(** every system call and kernel path that changes masks or actions -
    sigaction, sigprocmask, sigsuspend, handler entry, sigreturn with an
    arbitrary user-supplied mask, and exec - keeps the signal invariant: the
    pending flag is exact and SIGKILL and SIGSTOP stay unblocked and at their
    default, whatever user space passes. *)
Theorem signal_calls_safe t :
  sig_wf t →
  (∀ how set oldset size, sig_wf (sys_rt_sigprocmask t how set oldset size).2) ∧
  (∀ sig a oldact size, ∃ ret o t', sys_rt_sigaction t sig a oldact size = Ok (ret, o, t') ∧ sig_wf t') ∧
  (∀ mask size, sig_wf (sys_rt_sigsuspend t mask size).2) ∧
  (∀ ks, delivered_ok ks → sig_wf (signal_delivered ks t)) ∧
  (∀ mask, sig_wf (sigreturn_mask t mask)) ∧
  sig_wf (signal_clone t).
Proof.
  intros Hwf. split_and!.
  - intros. by apply sigprocmask_wf.
  - intros. by apply sigaction_wf.
  - intros mask size. unfold sys_rt_sigsuspend. destruct (negb _); [done|]. destruct mask as [| |x]; [done|done|].
    apply recalc_wf. destruct (sw_ok _ Hwf). split; try done. apply maskable_user.
  - intros ks. by apply delivered_wf.
  - intros mask. apply set_blocked_wf; [apply Hwf|apply maskable_user].
  - by apply clone_wf.
Qed.

Lemma maskable_unblock x : maskable x → Z.land x (not64 SIG_UNBLOCKMASK) = x.
Proof.
  intros (Hx&Hk&Hs). apply u64_bits_inj; [auto with word|done|]. intros i Hi. rewrite land_not64_bit by done.
  destruct (decide (i = SIGKILL - 1)) as [->|]; [by rewrite Hk|]. destruct (decide (i = SIGSTOP - 1)) as [->|]; [by rewrite Hs|].
  replace (Z.testbit SIG_UNBLOCKMASK i) with false; [by rewrite andb_true_r|].
  unfold SIG_UNBLOCKMASK. rewrite Z.lor_spec, !sigmask_test by (done || lia).
  symmetry. apply orb_false_iff. split; apply Z.eqb_neq; lia.
Qed.

(** a handler runs with its mask and returns to the old one: after
    [get_signal] delivers a signal, entry blocks the action's mask and, without
    SA_NODEFER, the signal itself on top of what was blocked, and the return
    path restores exactly the mask from before - the caller's own one when the
    signal ended a sigsuspend. *)
Theorem handler_mask_roundtrip t ks t1 :
  sig_wf t → get_signal_step t None = Ok (Deliver ks t1) →
  let t2 := signal_delivered ks t1 in
  (∀ k, valid_sig k → blk (t_sig t2) k =
     blk (t_sig t) k || Z.testbit (sa_mask (ks_action ks)) (k - 1) ||
     (negb (truth (Z.land (sa_flags (ks_action ks)) SA_NODEFER)) && (k =? si_signo (ks_info ks)))) ∧
  task_test_flag t2 TF_SIGSUSPEND = false ∧
  blocked (t_sig (sigreturn_mask t2 (ks_oldmask ks))) =
    (if task_test_flag t TF_SIGSUSPEND then saved_mask (t_sig t) else blocked (t_sig t)).
Proof.
  intros Hwf Hg. pose proof (get_signal_step_ok t Hwf) as Hs. destruct (deliverable (t_sig t)) eqn:Hd.
  2:{ rewrite Hs in Hg. destruct (task_test_flag t TF_SIGSUSPEND); discriminate. }
  destruct Hs as (sig&f&(Hv&_)&Hf&Htk). rewrite Hg in Hf. injection Hf as <-.
  destruct Htk as (_&_&Hb&Hdisp). cbn [task_of] in Hb.
  assert (delivered_ok ks ∧ si_signo (ks_info ks) = sig) as [Hok Hsig]
    by (destruct (disposition_of _ _); [tauto|done..]).
  cbv zeta. split_and!.
  - intros k Hk. unfold signal_delivered. rewrite recalc_sig. unfold blk. unfold valid_sig, SIG_MAX in Hk.
    destruct (truth _); cbn [negb andb with_blocked with_sig t_sig blocked task_clear_flag with_flags].
    + rewrite Z.lor_spec, Hb, orb_false_r. done.
    + rewrite !Z.lor_spec, Hb, Hsig, sigmask_test by (done || lia). f_equal.
      destruct (Z.eqb_spec k sig); [subst; apply Z.eqb_refl|apply Z.eqb_neq; lia].
  - unfold signal_delivered, TF_SIGSUSPEND. rewrite recalc_flag by lia.
    assert (Hc : ∀ x y, task_test_flag (with_blocked x y) (BIT 4) = task_test_flag x (BIT 4)) by done.
    destruct (negb _); rewrite !Hc, flag_clear by lia; done.
  - unfold sigreturn_mask. rewrite recalc_sig. cbn [with_blocked with_sig t_sig blocked].
    rewrite maskable_unblock by apply Hok.
    revert Hg. unfold get_signal_step. unfold deliverable in Hd. rewrite Hd. cbn [negb].
    intros Hg. res_inv. destruct (dequeue_signal_locked t _) as [info t0] eqn:Hdq.
    assert (H0 : blocked (t_sig t0) = blocked (t_sig t) ∧ saved_mask (t_sig t0) = saved_mask (t_sig t) ∧
      task_test_flag t0 TF_SIGSUSPEND = task_test_flag t TF_SIGSUSPEND).
    { unfold dequeue_signal_locked in Hdq. destruct (take_queued _ _) as [[??]|]; injection Hdq as <- <-; done. }
    destruct H0 as (Hb0&Hs0&Hf0). unfold act_on in Hg. res_inv. cbn [andb negb] in Hg.
    match type of Hg with (if sa_handler ?x =? _ then _ else _) = _ =>
      destruct (sa_handler x =? SIG_IGN) in Hg; [discriminate Hg|]; destruct (sa_handler x =? SIG_DFL) in Hg end.
    { unfold signal_default in Hg. destruct (truth _) in Hg; [discriminate Hg|].
      destruct (_ || _ || _ || _) in Hg; discriminate Hg. }
    injection Hg as <- _. simpl. by rewrite Hf0, Hb0, Hs0.
Qed.

(** ** Examples *)

Lemma no_signals_ok : sig_ok no_signals.
Proof.
  split; cbn [pending_list pending_signal blocked saved_mask actions no_signals].
  - lia.
  - intros i Hi. inversion Hi.
  - constructor.
  - by vm_compute.
  - by vm_compute.
  - reflexivity.
  - apply Forall_replicate. by vm_compute.
  - by vm_compute.
  - by vm_compute.
Qed.

Lemma example_task_wf : sig_wf (example_task 2%positive).
Proof. split; [|by vm_compute]. replace (t_sig (example_task 2%positive)) with no_signals by (by vm_compute). apply no_signals_ok. Qed.

Definition example_info (sig : Z) : siginfo := Siginfo sig SI_USER 1 0 0 0.

Lemma send_signal_spec_witness :
  ∃ m' t', send_signal example_running 0 2%positive (example_info 15) true = Ok (0, m') ∧
    tasks m' !! 2%positive = Some t' ∧ sig_wf t' ∧ pend (t_sig t') 15 = true.
Proof.
  destruct (send_signal_spec example_running 0 2%positive (example_info 15) true (example_task 2%positive))
    as (m'&t'&H1&_&H2&H3&H4&_).
  - apply example_running_inv.
  - vm_compute. reflexivity.
  - apply example_task_wf.
  - unfold valid_sig, SIG_MAX. simpl. lia.
  - exists m', t'. split; [exact H1|]. split; [exact H2|]. split; [exact H3|].
    rewrite (sent_pend _ _ _ _ H4 15) by (unfold valid_sig, SIG_MAX; lia). vm_compute. reflexivity.
Defined.

Lemma kill_is_fatal_witness :
  ∃ m' t' t2, send_signal example_running 0 2%positive (example_info SIGKILL) false = Ok (0, m') ∧
    tasks m' !! 2%positive = Some t' ∧ get_signal 1 t' None = Ok (Exit SIGKILL t2).
Proof.
  destruct (kill_is_fatal example_running 0 2%positive (example_info SIGKILL) false (example_task 2%positive))
    as (m'&t'&H1&H2&(t2&H3)&_).
  - apply example_running_inv.
  - vm_compute. reflexivity.
  - apply example_task_wf.
  - reflexivity.
  - exists m', t', t2. split; [exact H1|]. split; [exact H2|exact H3].
Defined.

(** A task with handlers for SIGUSR1 and SIGTERM, both pending, SIGCHLD too. *)
Definition example_sig : sigstate :=
  Sigstate [example_info 15; example_info 10] (Z.lor (sigmask 10) (Z.lor (sigmask 15) (sigmask 17))) (sigmask 2) 0
    (<[9%nat := Sigaction 0x1000 0 (sigmask 15)]> (<[14%nat := Sigaction 0x2000 SA_NODEFER 0]>
       (replicate 31 (Sigaction 0 0 0)))).
Definition example_handled : task := recalc_sigpending (with_sig (example_task 2%positive) example_sig).

Lemma example_handled_wf : sig_wf example_handled.
Proof.
  apply recalc_wf. cbn [with_sig t_sig]. split; cbn [pending_list pending_signal blocked saved_mask actions example_sig].
  - by vm_compute.
  - intros i Hi. rewrite !elem_of_cons, elem_of_nil in Hi. destruct Hi as [->|[->|[]]]; by vm_compute.
  - simpl. rewrite !NoDup_cons, !elem_of_cons, !elem_of_nil. split_and!; [lia|tauto|by constructor].
  - by vm_compute.
  - by vm_compute.
  - reflexivity.
  - apply Forall_insert; [apply Forall_insert; [apply Forall_replicate|]|]; by vm_compute.
  - by vm_compute.
  - by vm_compute.
Qed.

Lemma get_signal_takes_next_witness :
  ∃ sig f, takes (t_sig example_handled) sig ∧ get_signal_step example_handled None = Ok f ∧ taken example_handled sig f.
Proof.
  pose proof (get_signal_takes_next example_handled example_handled_wf) as H.
  replace (deliverable (t_sig example_handled)) with true in H by (vm_compute; reflexivity). exact H.
Defined.

Lemma get_signal_terminates_witness :
  ∃ f, get_signal 32 example_handled None = Ok f ∧ sig_wf (task_of f) ∧ (∀ t', f ≠ Skip t').
Proof. apply (get_signal_terminates example_handled). apply example_handled_wf. Defined.

Lemma signal_calls_safe_witness : sig_wf (sigreturn_mask example_handled (2 ^ 64 - 1)).
Proof. apply (signal_calls_safe example_handled). apply example_handled_wf. Defined.

Definition example_delivery : option (ksignal * task) :=
  match get_signal_step example_handled None with Ok (Deliver ks t) => Some (ks, t) | _ => None end.

Lemma handler_mask_roundtrip_witness :
  ∃ ks t1, get_signal_step example_handled None = Ok (Deliver ks t1) ∧ si_signo (ks_info ks) = 10 ∧
    blocked (t_sig (sigreturn_mask (signal_delivered ks t1) (ks_oldmask ks))) = sigmask 2.
Proof.
  destruct example_delivery as [[ks t1]|] eqn:E; [|vm_compute in E; discriminate E].
  unfold example_delivery in E. destruct (get_signal_step example_handled None) as [[ks' t'| | | | |]| | |] eqn:G; try discriminate E.
  injection E as <- <-. exists ks', t'. split; [reflexivity|]. split.
  - vm_compute in G. injection G as <- _. reflexivity.
  - destruct (handler_mask_roundtrip example_handled ks' t' example_handled_wf G) as (_&_&H). exact H.
Defined.
