(* ===== verification/Kiov.v ===== *)
(** * User memory and I/O vectors: [mm/uaccess.c], [fs/vfs/kiov.c]

    Memory is the map of the bytes that can be read, with the addresses that
    can be written.  The assembly loop behind [__copy_from_user] and
    [__copy_to_user] moves one byte at a time and stops at the first access
    that faults. *)
From stdpp Require Import base tactics numbers list gmap.
From S2P Require Import Prelude.

Definition UVADDR_START : Z := 0x10000.
Definition UVADDR_END : Z := 0x4000000000.

Record amem := Amem { bytes : gmap Z Z; writable : Z → bool }.

(** Consecutive addresses from [a]; pointer arithmetic wraps at 64 bits. *)
Definition range (a : Z) (n : nat) : list Z := (λ i, u64 (a + Z.of_nat i)) <$> seq 0 n.

(** Bytes loaded before the first fault. *)
Fixpoint load_bytes (m : amem) (addrs : list Z) : list Z :=
  match addrs with
  | [] => []
  | a :: l => match bytes m !! a with Some v => v :: load_bytes m l | None => [] end
  end.

(** Bytes stored before the first fault: how many, and the memory. *)
Fixpoint store_bytes (m : amem) (addrs data : list Z) : nat * amem :=
  match addrs, data with
  | a :: l, v :: d =>
      match bytes m !! a with
      | Some _ => if writable m a then
                    let '(n, m') := store_bytes (Amem (<[a := v]> (bytes m)) (writable m)) l d in (S n, m')
                  else (O, m)
      | None => (O, m)
      end
  | _, _ => (O, m)
  end.

(** ** [mm/uaccess.c] *)

Definition access_ok (addr size : Z) : bool :=
  (addr >=? UVADDR_START) && (addr <? UVADDR_END) && (size <=? UVADDR_END - addr).

(** Returns the count not copied and the [size] bytes now at the destination. *)
Definition copy_from_user (m : amem) (has_mm : bool) (src : Z) (size : nat) : nat * list Z :=
  match size with
  | O => (O, [])
  | _ =>
      let got := if access_ok src (Z.of_nat size) && has_mm then load_bytes m (range src size) else [] in
      ((size - length got)%nat, got ++ replicate (size - length got) 0)
  end.

Definition copy_to_user (m : amem) (has_mm : bool) (dst : Z) (data : list Z) : nat * amem :=
  match data with
  | [] => (O, m)
  | _ =>
      if negb (access_ok dst (Z.of_nat (length data))) || negb has_mm then (length data, m) else
      let '(n, m) := store_bytes m (range dst (length data)) data in ((length data - n)%nat, m)
  end.

(** ** [fs/vfs/kiov.c] *)

Record kiov := Kiov {
  vec : list (Z * Z);          (* the [segs] segments left: iov_base, iov_len *)
  offset : Z;
  count : Z;
  user : bool;
}.

(** The loop of [kiov_advance]. *)
Fixpoint advance_loop (v : list (Z * Z)) (offset n : Z) : list (Z * Z) * Z :=
  match v with
  | [] => ([], offset)
  | (base, len) :: v' =>
      let left := u64 (len - offset) in
      if n <? left then (v, u64 (offset + n)) else advance_loop v' 0 (u64 (n - left))
  end.

Definition kiov_advance (iov : kiov) (n : Z) : kiov :=
  let '(v, o) := advance_loop (vec iov) (offset iov) n in
  Kiov v o (u64 (count iov - n)) (user iov).

Section copy.
(** The current task has an address space. *)
Context (has_mm : bool).

(** One piece of the transfer to the vector. *)
Definition put_piece (m : amem) (u : bool) (base : Z) (data : list Z) : res (nat * amem) :=
  if u then Ok (copy_to_user m has_mm base data)
  else let '(n, m') := store_bytes m (range base (length data)) data in
       if decide (n = length data) then Ok (O, m') else Fault.

Definition get_piece (m : amem) (u : bool) (base : Z) (n : nat) : res (nat * list Z) :=
  if u then Ok (copy_from_user m has_mm base n)
  else let l := load_bytes m (range base n) in
       if decide (length l = n) then Ok (O, l) else Fault.

(** The loop of [copy_kiov] towards the vector; [data] is what is left of the
    buffer, [done] counts the bytes moved. *)
Fixpoint to_loop (fuel : nat) (m : amem) (data : list Z) (iov : kiov) (done : nat)
    : res (nat * amem * kiov) :=
  match data with
  | [] => Ok (done, m, iov)
  | _ =>
      match fuel with
      | O => Loop
      | S fuel' =>
          let! (base, len) := deref (head (vec iov)) in
          let n := Z.to_nat (MIN (Z.of_nat (length data)) (u64 (len - offset iov))) in
          let! (missing, m) := put_piece m (user iov) (u64 (base + offset iov)) (take n data) in
          let iov := kiov_advance iov (Z.of_nat (n - missing)) in
          let done := (done + (n - missing))%nat in
          if decide (missing = O) then to_loop fuel' m (drop n data) iov done else Ok (done, m, iov)
      end
  end.

(** Towards the buffer: [want] bytes are left; the bytes written to the buffer
    so far, including zeroes after a fault, are accumulated in [acc]. *)
Fixpoint from_loop (fuel : nat) (m : amem) (want : nat) (iov : kiov) (done : nat) (acc : list Z)
    : res (nat * list Z * kiov) :=
  match want with
  | O => Ok (done, acc, iov)
  | _ =>
      match fuel with
      | O => Loop
      | S fuel' =>
          let! (base, len) := deref (head (vec iov)) in
          let n := Z.to_nat (MIN (Z.of_nat want) (u64 (len - offset iov))) in
          let! (missing, got) := get_piece m (user iov) (u64 (base + offset iov)) n in
          let iov := kiov_advance iov (Z.of_nat (n - missing)) in
          let done := (done + (n - missing))%nat in
          if decide (missing = O) then from_loop fuel' m (want - n) iov done (acc ++ got)
          else Ok (done, acc ++ got, iov)
      end
  end.

Definition copy_to_kiov (m : amem) (buffer : list Z) (iov : kiov) : res (nat * amem * kiov) :=
  let n := Z.to_nat (MIN (Z.of_nat (length buffer)) (count iov)) in
  let iov := kiov_advance iov 0 in
  to_loop n m (take n buffer) iov O.

Definition copy_from_kiov (m : amem) (n : nat) (iov : kiov) : res (nat * list Z * kiov) :=
  let n := Z.to_nat (MIN (Z.of_nat n) (count iov)) in
  let iov := kiov_advance iov 0 in
  from_loop n m n iov O [].
End copy.

(** ** The addresses of a vector *)

Definition seg_addrs (s : Z * Z) : list Z := range s.1 (Z.to_nat s.2).
Definition all_addrs (v : list (Z * Z)) : list Z := mjoin (seg_addrs <$> v).
Definition addrs (iov : kiov) : list Z :=
  drop (Z.to_nat (offset iov)) (all_addrs (vec iov)).

Definition vec_ok (v : list (Z * Z)) : Prop := Forall (λ s, 0 ≤ s.2 < 2 ^ 64) v.

Definition offset_ok (v : list (Z * Z)) (o : Z) : Prop :=
  0 ≤ o ∧ match v with [] => o = 0 | s :: _ => o ≤ s.2 end.

(** A vector as the system calls set it up: [count] bytes are left in it. *)
Record kiov_ok (iov : kiov) : Prop := {
  ko_vec : vec_ok (vec iov);
  ko_offset : offset_ok (vec iov) (offset iov);
  ko_count : 0 ≤ count iov < 2 ^ 64;
  ko_addrs : Z.of_nat (length (addrs iov)) = count iov;
}.

Lemma range_length a n : length (range a n) = n.
Proof. unfold range. by rewrite length_fmap, length_seq. Qed.

Lemma range_u64 a n : range (u64 a) n = range a n.
Proof.
  unfold range. apply list_fmap_ext. intros _ i _. unfold u64, wrap. by rewrite Zplus_mod_idemp_l.
Qed.

Lemma range_lookup a n i : range a n !! i = if decide (i < n)%nat then Some (u64 (a + Z.of_nat i)) else None.
Proof.
  unfold range. rewrite list_lookup_fmap. case_decide.
  - by rewrite lookup_seq_lt by lia.
  - by rewrite lookup_seq_ge by lia.
Qed.

Lemma range_drop a n i : drop i (range a n) = range (a + Z.of_nat i) (n - i).
Proof.
  apply list_eq. intros j. rewrite lookup_drop, !range_lookup.
  repeat case_decide; try lia; [|done]. do 2 f_equal. lia.
Qed.

Lemma range_take a n i : (i ≤ n)%nat → take i (range a n) = range a i.
Proof.
  intros. apply list_eq. intros j. rewrite lookup_take. repeat (rewrite range_lookup || case_decide); done || lia.
Qed.

(** *** Loads and stores of a prefix *)

(** [data] stored at [addrs], one address after the other. *)
Fixpoint puts (b : gmap Z Z) (l d : list Z) : gmap Z Z :=
  match l, d with a :: l, v :: d => puts (<[a := v]> b) l d | _, _ => b end.

Definition can_load (m : amem) (a : Z) : Prop := is_Some (bytes m !! a).
Definition can_store (m : amem) (a : Z) : Prop := can_load m a ∧ writable m a = true.

Lemma load_bytes_spec m l :
  (length (load_bytes m l) ≤ length l)%nat ∧
  (∀ i v, load_bytes m l !! i = Some v → ∃ a, l !! i = Some a ∧ bytes m !! a = Some v) ∧
  (Forall (can_load m) l → length (load_bytes m l) = length l).
Proof.
  induction l as [|a l (IH1&IH2&IH3)]; simpl; [naive_solver|].
  destruct (bytes m !! a) as [v|] eqn:E; simpl; split_and!; try lia.
  - intros [|i] w; simpl; [intros [= <-]; eauto|apply IH2].
  - intros [_ ?]%Forall_cons. f_equal. auto.
  - done.
  - intros [[? Ha] _]%Forall_cons. congruence.
Qed.

Lemma can_store_insert m a v b :
  bytes m !! a ≠ None → can_store m b → can_store (Amem (<[a := v]> (bytes m)) (writable m)) b.
Proof.
  intros Ha [[w Hb] Hw]. split; [|done]. unfold can_load. simpl.
  destruct (decide (a = b)) as [->|]; [rewrite lookup_insert_eq|rewrite lookup_insert_ne by done]; eauto.
Qed.

Lemma store_bytes_spec m l d n m' :
  length l = length d → store_bytes m l d = (n, m') →
  (n ≤ length d)%nat ∧ writable m' = writable m ∧ bytes m' = puts (bytes m) (take n l) (take n d) ∧
  (∀ a, can_store m a → can_store m' a) ∧
  (Forall (can_store m) l → n = length d).
Proof.
  revert m d n m'. induction l as [|a l IH]; intros m [|v d] n m' Hlen H; try discriminate; simpl in *.
  { injection H as <- <-. naive_solver lia. }
  assert (Hstop : (n, m') = (O, m) → ¬ can_store m a →
    (n ≤ S (length d))%nat ∧ writable m' = writable m ∧
    bytes m' = puts (bytes m) (take n (a :: l)) (take n (v :: d)) ∧
    (∀ a, can_store m a → can_store m' a) ∧ (Forall (can_store m) (a :: l) → n = S (length d))).
  { intros [= -> ->] Ha. split_and!; [lia|done..|]. by intros [? _]%Forall_cons. }
  destruct (bytes m !! a) as [w|] eqn:E.
  2: { apply Hstop; [done|]. intros [[? ?] _]. congruence. }
  destruct (writable m a) eqn:Ew; [|apply Hstop; [done|]; intros [_ ?]; congruence].
  destruct (store_bytes _ l d) as [k m1] eqn:Es. injection H as <- <-.
  apply IH in Es as (?&?&?&Hst&Hall); [|lia]. simpl in *.
  assert (Hi : ∀ b, can_store m b → can_store (Amem (<[a := v]> (bytes m)) (writable m)) b).
  { intros b. apply can_store_insert. congruence. }
  split_and!; [lia|done|done|auto|]. intros [_ Hl]%Forall_cons. f_equal. apply Hall.
  eapply Forall_impl; eauto.
Qed.

(** *** Advancing *)

Lemma all_addrs_cons s v : all_addrs (s :: v) = seg_addrs s ++ all_addrs v.
Proof. done. Qed.
Lemma seg_addrs_length s : length (seg_addrs s) = Z.to_nat s.2.
Proof. apply range_length. Qed.

Lemma advance_loop_spec v o n v' o' :
  vec_ok v → offset_ok v o → 0 ≤ n ≤ Z.of_nat (length (drop (Z.to_nat o) (all_addrs v))) → n < 2 ^ 64 →
  advance_loop v o n = (v', o') →
  vec_ok v' ∧ 0 ≤ o' ∧ match v' with [] => o' = 0 | s :: _ => o' < s.2 end ∧
  drop (Z.to_nat o') (all_addrs v') = drop (Z.to_nat n) (drop (Z.to_nat o) (all_addrs v)).
Proof.
  revert o n. induction v as [|[base len] v IH]; intros o n Hv [Ho Hle] Hn Hn64 H; simpl in *.
  { injection H as <- <-. subst o. split_and!; try done.
    change (all_addrs []) with (@nil Z). by rewrite !drop_nil. }
  apply Forall_cons in Hv as [Hlen Hv]. simpl in *.
  rewrite all_addrs_cons, length_drop, length_app, seg_addrs_length in Hn. simpl in Hn.
  rewrite (u64_small (len - o)) in H by (unfold in_u64; lia).
  destruct (Z.ltb_spec n (len - o)).
  - injection H as <- <-. rewrite u64_small by (unfold in_u64; lia).
    split_and!; [by apply Forall_cons|lia|simpl; lia|]. rewrite drop_drop. f_equal. lia.
  - rewrite (u64_small (n - (len - o))) in H by (unfold in_u64; lia).
    apply IH in H as (?&?&?&Heq); [|done| | |lia].
    + split_and!; [done..|]. rewrite Heq, !drop_drop.
      rewrite all_addrs_cons, drop_app_ge; rewrite seg_addrs_length; [|simpl; lia].
      f_equal. simpl. lia.
    + split; [lia|]. destruct v as [|s v]; [done|]. apply Forall_cons in Hv as [? _]. lia.
    + rewrite drop_0. lia.
Qed.

Lemma kiov_advance_spec iov n :
  kiov_ok iov → 0 ≤ n ≤ count iov →
  let iov' := kiov_advance iov n in
  kiov_ok iov' ∧ addrs iov' = drop (Z.to_nat n) (addrs iov) ∧ count iov' = count iov - n ∧
  user iov' = user iov ∧ match vec iov' with [] => True | s :: _ => offset iov' < s.2 end.
Proof.
  intros [Hv Ho Hc Ha] Hn. unfold kiov_advance. destruct (advance_loop _ _ _) as [v o] eqn:E.
  apply advance_loop_spec in E as (?&?&Hs&Heq); [|done|done|unfold addrs in Ha; lia|lia].
  unfold addrs. simpl. rewrite (u64_small (count iov - n)) by (unfold in_u64; lia).
  split_and!; [|done|done|done|by destruct v]. split; simpl; [done| |lia|].
  - split; [done|]. destruct v; [done|lia].
  - unfold addrs in *. simpl. rewrite Heq, length_drop. lia.
Qed.

(** Addresses left in the segment at the front. *)
Lemma addrs_head iov base len v n :
  kiov_ok iov → vec iov = (base, len) :: v → 0 ≤ n ≤ len - offset iov →
  take (Z.to_nat n) (addrs iov) = range (u64 (base + offset iov)) (Z.to_nat n).
Proof.
  intros [Hv [Ho Hl] _ _] E Hn. unfold addrs. rewrite E in *. simpl in Hl.
  rewrite all_addrs_cons, drop_app_le by (rewrite seg_addrs_length; simpl; lia).
  unfold seg_addrs. simpl. rewrite range_drop, take_app_le by (rewrite range_length; lia).
  rewrite range_take, range_u64 by lia. f_equal. lia.
Qed.

(** *** Transfers *)

Lemma puts_app b l1 d1 l2 d2 :
  length l1 = length d1 → puts (puts b l1 d1) l2 d2 = puts b (l1 ++ l2) (d1 ++ d2).
Proof. revert b d1. induction l1; intros b [|v d1] ?; simplify_eq/=; auto. Qed.

Section transfer.
Context (has_mm : bool).

(** The bytes at [a] can be stored through a user, or a kernel, vector. *)
Definition ok_store (m : amem) (u : bool) (a : Z) : Prop :=
  can_store m a ∧ (u = true → has_mm = true ∧ UVADDR_START ≤ a < UVADDR_END).
Definition ok_load (m : amem) (u : bool) (a : Z) : Prop :=
  can_load m a ∧ (u = true → has_mm = true ∧ UVADDR_START ≤ a < UVADDR_END).

Lemma access_ok_range base n :
  (0 < n)%nat → 0 ≤ base < 2 ^ 64 → Forall (λ a, UVADDR_START ≤ a < UVADDR_END) (range base n) →
  access_ok base (Z.of_nat n) = true.
Proof.
  unfold UVADDR_START, UVADDR_END. intros Hn Hb Hall. rewrite Forall_lookup in Hall.
  pose proof (λ i (Hi : (i < n)%nat), Hall i _ (eq_trans (range_lookup base n i) (decide_True _ _ Hi))) as Hin.
  clear Hall. pose proof (Hin 0%nat Hn) as H0. rewrite Z.add_0_r, u64_small in H0 by done.
  unfold access_ok, UVADDR_START, UVADDR_END. rewrite !andb_true_iff.
  split_and!; [lia..|].
  destruct (decide (0x4000000000 - base < Z.of_nat n)) as [Hlt|]; [|lia].
  specialize (Hin (Z.to_nat (0x4000000000 - base)) ltac:(lia)).
  rewrite u64_small in Hin by (unfold in_u64; lia). lia.
Qed.

Lemma put_piece_spec m u base data missing m' :
  (0 < length data)%nat → 0 ≤ base < 2 ^ 64 → put_piece has_mm m u base data = Ok (missing, m') →
  let n := (length data - missing)%nat in
  (missing ≤ length data)%nat ∧ writable m' = writable m ∧
  bytes m' = puts (bytes m) (take n (range base (length data))) (take n data) ∧
  (∀ a, can_store m a → can_store m' a) ∧
  (Forall (ok_store m u) (range base (length data)) → missing = O).
Proof.
  intros Hd Hb H n. unfold put_piece, copy_to_user in H.
  destruct (store_bytes m (range base (length data)) data) as [k m1] eqn:E.
  pose proof (store_bytes_spec _ _ _ _ _ (range_length _ _) E) as (Hk&?&?&?&Hall).
  destruct u.
  - destruct data as [|v d]; [simpl in Hd; lia|]. set (data := v :: d) in *.
    destruct (negb _ || negb _) eqn:Eacc; injection H as <- <-.
    + subst n. rewrite Nat.sub_diag. split_and!; [done..|]. intros Hok. exfalso.
      assert (Hp : Forall (λ a, has_mm = true ∧ UVADDR_START ≤ a < UVADDR_END) (range base (length data))).
      { eapply Forall_impl; [done|]. intros a [_ ?]. auto. }
      apply Forall_and in Hp as [Hmm Hr].
      rewrite (access_ok_range base) in Eacc by done. simpl in Eacc.
      rewrite Forall_lookup in Hmm. rewrite (Hmm 0%nat base) in Eacc; [done|].
      rewrite range_lookup, decide_True by done. by rewrite Z.add_0_r, u64_small.
    + change (S (length d)) with (length data) in *. subst n.
      replace (length data - (length data - k))%nat with k by lia.
      split_and!; [lia|done..|]. intros Hok. rewrite Hall; [lia|].
      eapply Forall_impl; [done|]. by intros ? [? _].
  - case_decide as Ek; [|done]. injection H as <- <-. subst n. rewrite Nat.sub_0_r.
    subst k. split_and!; (done || lia).
Qed.

Lemma put_piece_total m u base data :
  (u = true ∨ Forall (can_store m) (range base (length data))) →
  ∃ r, put_piece has_mm m u base data = Ok r.
Proof.
  intros Hok. unfold put_piece. destruct u; [eauto|]. destruct Hok as [|Hok]; [done|].
  destruct (store_bytes m _ data) as [k m1] eqn:E.
  pose proof (store_bytes_spec _ _ _ _ _ (range_length _ _) E) as (_&_&_&_&Hall).
  rewrite decide_True by auto. eauto.
Qed.

Lemma take_add {A} (n k : nat) (l : list A) : take (n + k) l = take n l ++ take k (drop n l).
Proof. by rewrite take_take_drop. Qed.

(** The head segment of a normalised vector that has bytes left. *)
Lemma kiov_head iov :
  kiov_ok iov → 0 < count iov → match vec iov with [] => True | s :: _ => offset iov < s.2 end →
  ∃ base len v, vec iov = (base, len) :: v ∧ 0 ≤ offset iov < len ∧ len < 2 ^ 64 ∧
    u64 (len - offset iov) = len - offset iov.
Proof.
  intros [Hv [Ho _] Hc Ha] Hpos Hs. unfold addrs in Ha. destruct (vec iov) as [|[base len] v].
  { change (all_addrs []) with (@nil Z) in Ha. rewrite drop_nil in Ha. simpl in Ha. lia. }
  apply Forall_cons in Hv as [? _]. simpl in *. exists base, len, v.
  rewrite u64_small by (unfold in_u64; lia). split_and!; (done || lia).
Qed.

Definition moved (iov iov' : kiov) (k : nat) : Prop :=
  kiov_ok iov' ∧ addrs iov' = drop k (addrs iov) ∧ count iov' = count iov - Z.of_nat k ∧
  user iov' = user iov ∧ match vec iov' with [] => True | s :: _ => offset iov' < s.2 end.

Lemma moved_0 iov :
  kiov_ok iov → match vec iov with [] => True | s :: _ => offset iov < s.2 end → moved iov iov 0.
Proof. intros. split_and!; (done || lia). Qed.

Lemma moved_advance iov k :
  kiov_ok iov → Z.of_nat k ≤ count iov → moved iov (kiov_advance iov (Z.of_nat k)) k.
Proof.
  intros Hok Hk. pose proof (kiov_advance_spec iov (Z.of_nat k) Hok ltac:(lia)) as H.
  simpl in H. unfold moved. by rewrite Nat2Z.id in H.
Qed.

Lemma moved_trans iov iov1 iov2 n k : moved iov iov1 n → moved iov1 iov2 k → moved iov iov2 (n + k).
Proof.
  intros (?&A1&C1&U1&?) (?&A2&C2&U2&?). split_and!; [done| |lia|congruence|done].
  by rewrite A2, A1, drop_drop.
Qed.

Lemma to_loop_spec fuel m data iov done :
  kiov_ok iov → match vec iov with [] => True | s :: _ => offset iov < s.2 end →
  Z.of_nat (length data) ≤ count iov → (length data ≤ fuel)%nat →
  (user iov = true ∨ Forall (can_store m) (take (length data) (addrs iov))) →
  ∃ k m' iov', to_loop has_mm fuel m data iov done = Ok ((done + k)%nat, m', iov') ∧
    (k ≤ length data)%nat ∧ moved iov iov' k ∧ writable m' = writable m ∧
    bytes m' = puts (bytes m) (take k (addrs iov)) (take k data) ∧
    (∀ a, can_store m a → can_store m' a) ∧
    (Forall (ok_store m (user iov)) (take (length data) (addrs iov)) → k = length data).
Proof.
  revert m data iov done. induction fuel as [|fuel IH]; intros m data iov done Hok Hs Hc Hf Hk.
  { destruct data; [|simpl in Hf; lia]. exists 0%nat, m, iov. simpl. rewrite Nat.add_0_r.
    split_and!; try done. by apply moved_0. }
  destruct data as [|v0 d0].
  { exists 0%nat, m, iov. simpl. rewrite Nat.add_0_r.
    split_and!; try done. by apply moved_0. }
  set (data := v0 :: d0) in *. assert (0 < length data)%nat by (simpl; lia).
  destruct (kiov_head iov) as (base&len&v&Ev&Ho&Hlen&Eu); [done|lia|done|].
  simpl. rewrite Ev. simpl. change (S (length d0)) with (length data).
  rewrite Eu, MIN_spec. set (n := Z.to_nat (Z.min _ _)).
  assert (Hn : (0 < n ≤ length data)%nat) by (subst n; lia).
  assert (Hln : length (take n data) = n) by (rewrite length_take; lia).
  assert (Hr : take n (addrs iov) = range (u64 (base + offset iov)) n)
    by (apply (addrs_head iov base len v (Z.min (Z.of_nat (length data)) (len - offset iov))); [done..|lia]).
  destruct (put_piece_total m (user iov) (u64 (base + offset iov)) (take n data)) as [[missing m1] Ep].
  { destruct Hk as [|Hk]; [by left|right]. rewrite Hln, <-Hr. eapply Forall_take in Hk.
    rewrite take_take in Hk. rewrite Nat.min_l in Hk by apply Hn. done. }
  rewrite Ep. cbn [res_bind]. apply put_piece_spec in Ep as (Hm&Hw&Hb&Hst&Hall); [|lia|apply u64_range].
  rewrite Hln, <-Hr in *. rewrite !take_take, (Nat.min_l (n - missing) n) in Hb by lia.
  pose proof (moved_advance iov (n - missing) Hok ltac:(lia)) as Hmv.
  case_decide as Em.
  - subst missing. rewrite Nat.sub_0_r in *. pose proof Hmv as (Hok1&Ha1&Hc1&Hu1&Hs1).
    assert (Hsub : take (length data) (addrs iov) =
      take n (addrs iov) ++ take (length (drop n data)) (drop n (addrs iov))).
    { rewrite <-take_add, length_drop. f_equal. lia. }
    edestruct (IH m1 (drop n data) (kiov_advance iov (Z.of_nat n)) (done + n)%nat)
      as (k&m2&iov2&El&Hk2&Hmv2&Hw2&Hb2&Hst2&Hall2); rewrite ?length_drop; [done|done|lia|lia| |].
    { rewrite Hu1, Ha1, <-length_drop. destruct Hk as [|Hk]; [by left|right]. rewrite Hsub in Hk.
      apply Forall_app in Hk as [_ Hk]. eapply Forall_impl; eauto. }
    exists (n + k)%nat, m2, iov2. rewrite El, Nat.add_assoc. rewrite length_drop in Hk2.
    split_and!; [done|lia|by eapply moved_trans|congruence| |auto|].
    + rewrite Hb2, Hb, Ha1, puts_app by (rewrite !length_take; pose proof (ko_addrs _ Hok); lia).
      by rewrite !take_add.
    + rewrite Hsub. intros [Hf1 Hf2]%Forall_app. rewrite Hall2; [rewrite length_drop; lia|].
      rewrite Hu1, Ha1. eapply Forall_impl; [exact Hf2|]. intros a [??]. split; auto.
  - eexists _, _, _. split_and!; [done|lia|done|done|done|done|].
    intros Hf1. destruct Em. apply Hall. eapply Forall_take in Hf1.
    rewrite take_take, Nat.min_l in Hf1 by apply Hn. done.
Qed.
Definition loaded (m : amem) (l d : list Z) : Prop := Forall2 (λ a v, bytes m !! a = Some v) l d.

Lemma load_bytes_loaded m l : loaded m (take (length (load_bytes m l)) l) (load_bytes m l).
Proof.
  destruct (load_bytes_spec m l) as (Hl&Hv&_). apply Forall2_same_length_lookup_2.
  { rewrite length_take. lia. }
  intros i a v Ha Hi. apply Hv in Hi as (a'&Ha'&?). rewrite lookup_take_Some in Ha. naive_solver.
Qed.

Lemma get_piece_spec m u base n missing got :
  (0 < n)%nat → 0 ≤ base < 2 ^ 64 → get_piece has_mm m u base n = Ok (missing, got) →
  (missing ≤ n)%nat ∧ length got = n ∧
  loaded m (take (n - missing) (range base n)) (take (n - missing) got) ∧
  (Forall (ok_load m u) (range base n) → missing = O).
Proof.
  intros Hn Hb H. unfold get_piece in H.
  destruct (load_bytes_spec m (range base n)) as (Hl&_&Hall). rewrite range_length in *.
  pose proof (load_bytes_loaded m (range base n)) as Hld. set (got0 := load_bytes m _) in *.
  destruct u.
  - assert (Hc : copy_from_user m has_mm base n =
      let got := if access_ok base (Z.of_nat n) && has_mm then got0 else [] in
      ((n - length got)%nat, got ++ replicate (n - length got) 0)) by (by destruct n; [lia|]).
    rewrite Hc in H. clear Hc. destruct (access_ok _ _ && has_mm) eqn:Ea; apply Ok_inj in H as [= <- <-].
    + replace (n - (n - length got0))%nat with (length got0) by lia.
      rewrite take_app_length. split_and!; [lia|rewrite length_app, length_replicate; lia|done|].
      intros Hok. rewrite Hall; [lia|]. eapply Forall_impl; [done|]. by intros ? [? _].
    + rewrite ?Nat.sub_0_r, Nat.sub_diag. split_and!; [lia|simpl; by rewrite length_replicate|constructor|].
      intros Hok. exfalso.
      assert (Hp : Forall (λ a, has_mm = true ∧ UVADDR_START ≤ a < UVADDR_END) (range base n)).
      { eapply Forall_impl; [done|]. intros a [_ ?]. auto. }
      apply Forall_and in Hp as [Hmm Hr]. rewrite (access_ok_range base) in Ea by done. simpl in Ea.
      rewrite Forall_lookup in Hmm. rewrite (Hmm 0%nat base) in Ea; [done|].
      rewrite range_lookup, decide_True by done. by rewrite Z.add_0_r, u64_small.
  - case_decide as Ek; [|done]. apply Ok_inj in H as [= <- <-]. rewrite Nat.sub_0_r.
    rewrite Ek in Hld. rewrite (take_ge got0 n) by lia. split_and!; (done || lia).
Qed.

Lemma get_piece_total m u base n :
  (u = true ∨ Forall (can_load m) (range base n)) → ∃ r, get_piece has_mm m u base n = Ok r.
Proof.
  intros Hok. unfold get_piece. destruct u; [eauto|]. destruct Hok as [|Hok]; [done|].
  destruct (load_bytes_spec m (range base n)) as (_&_&Hall). rewrite range_length in Hall.
  rewrite decide_True by auto. eauto.
Qed.

Lemma from_loop_spec fuel m want iov done acc :
  kiov_ok iov → match vec iov with [] => True | s :: _ => offset iov < s.2 end →
  Z.of_nat want ≤ count iov → (want ≤ fuel)%nat →
  (user iov = true ∨ Forall (can_load m) (take want (addrs iov))) →
  ∃ k buf iov', from_loop has_mm fuel m want iov done acc = Ok ((done + k)%nat, acc ++ buf, iov') ∧
    (k ≤ length buf ≤ want)%nat ∧ moved iov iov' k ∧
    loaded m (take k (addrs iov)) (take k buf) ∧
    (Forall (ok_load m (user iov)) (take want (addrs iov)) → k = want).
Proof.
  revert want iov done acc. induction fuel as [|fuel IH]; intros want iov done acc Hok Hs Hc Hf Hk.
  { destruct want; [|lia]. exists 0%nat, [], iov. simpl. rewrite Nat.add_0_r, app_nil_r.
    split_and!; try (done || lia); [by apply moved_0|constructor]. }
  destruct want as [|w0].
  { exists 0%nat, [], iov. simpl. rewrite Nat.add_0_r, app_nil_r.
    split_and!; try (done || lia); [by apply moved_0|constructor]. }
  set (want := S w0) in *.
  destruct (kiov_head iov) as (base&len&v&Ev&Ho&Hlen&Eu); [done|lia|done|].
  change (from_loop has_mm (S fuel) m want iov done acc) with
    (let! (base, len) := deref (head (vec iov)) in
     let n := Z.to_nat (MIN (Z.of_nat want) (u64 (len - offset iov))) in
     let! (missing, got) := get_piece has_mm m (user iov) (u64 (base + offset iov)) n in
     if decide (missing = O)
     then from_loop has_mm fuel m (want - n) (kiov_advance iov (Z.of_nat (n - missing)))
            (done + (n - missing)) (acc ++ got)
     else Ok ((done + (n - missing))%nat, acc ++ got, kiov_advance iov (Z.of_nat (n - missing)))).
  rewrite Ev. cbn [head deref res_bind]. rewrite Eu, MIN_spec. cbv zeta. set (n := Z.to_nat (Z.min _ _)).
  assert (Hn : (0 < n ≤ want)%nat) by lia.
  assert (Hr : take n (addrs iov) = range (u64 (base + offset iov)) n)
    by (apply (addrs_head iov base len v (Z.min (Z.of_nat want) (len - offset iov))); [done..|lia]).
  assert (Hsub : take want (addrs iov) = take n (addrs iov) ++ take (want - n) (drop n (addrs iov))).
  { rewrite <-take_add. f_equal. lia. }
  destruct (get_piece_total m (user iov) (u64 (base + offset iov)) n) as [[missing got] Ep].
  { rewrite <-Hr. destruct Hk as [|Hk]; [by left|right]. rewrite Hsub in Hk. by apply Forall_app in Hk as [? _]. }
  rewrite Ep. cbn [res_bind]. apply get_piece_spec in Ep as (Hm&Hg&Hb&Hall); [|lia|apply u64_range].
  rewrite <-Hr in *. rewrite take_take, (Nat.min_l (n - missing) n) in Hb by lia.
  pose proof (moved_advance iov (n - missing) Hok ltac:(lia)) as Hmv.
  case_decide as Em.
  - subst missing. rewrite Nat.sub_0_r in *. pose proof Hmv as (Hok1&Ha1&Hc1&Hu1&Hs1).
    edestruct (IH (want - n)%nat (kiov_advance iov (Z.of_nat n)) (done + n)%nat (acc ++ got))
      as (k&buf&iov2&El&Hk2&Hmv2&Hb2&Hall2); [done|done|lia|lia| |].
    { rewrite Hu1, Ha1. destruct Hk as [|Hk]; [by left|right]. rewrite Hsub in Hk.
      by apply Forall_app in Hk as [_ Hk]. }
    exists (n + k)%nat, (got ++ buf), iov2. rewrite El, Nat.add_assoc, <-app_assoc, length_app.
    split_and!; [done|lia|lia|by eapply moved_trans| |].
    + rewrite !take_add. rewrite <-Hg at 3 4. rewrite take_app_length, drop_app_length.
      apply Forall2_app; [|by rewrite <-Ha1]. rewrite <-Hg in Hb at 2. by rewrite firstn_all in Hb.
    + rewrite Hsub. intros [Hf1 Hf2]%Forall_app. rewrite Hall2; [lia|]. by rewrite Hu1, Ha1.
  - eexists _, got, _. split_and!; [done|lia|lia|done|done|].
    intros Hf1. destruct Em. apply Hall. rewrite Hsub in Hf1. by apply Forall_app in Hf1 as [? _].
Qed.
Lemma copy_to_kiov_ok m buffer iov :
  kiov_ok iov →
  let n := Nat.min (length buffer) (Z.to_nat (count iov)) in
  (user iov = true ∨ Forall (can_store m) (take n (addrs iov))) →
  ∃ k m' iov', copy_to_kiov has_mm m buffer iov = Ok (k, m', iov') ∧
    (k ≤ n)%nat ∧ moved iov iov' k ∧ writable m' = writable m ∧
    bytes m' = puts (bytes m) (take k (addrs iov)) (take k buffer) ∧
    (∀ a, can_store m a → can_store m' a) ∧
    (Forall (ok_store m (user iov)) (take n (addrs iov)) → k = n).
Proof.
  intros Hok n Hk. pose proof (ko_count _ Hok). unfold copy_to_kiov. rewrite MIN_spec.
  replace (Z.to_nat (Z.min _ _)) with n by lia. cbv zeta.
  pose proof (moved_advance iov 0 Hok ltac:(lia)) as Hmv. pose proof Hmv as (Hok1&Ha&Hc&Hu&Hs).
  change (Z.of_nat 0) with 0 in *. rewrite drop_0 in Ha.
  assert (Hln : length (take n buffer) = n) by (rewrite length_take; lia).
  edestruct (to_loop_spec n m (take n buffer) (kiov_advance iov 0) 0)
    as (k&m'&iov'&El&Hkn&Hmv2&Hw&Hb&Hst&Hall); rewrite ?Hln; [done|done|lia|lia|by rewrite Hu, Ha|].
  rewrite Hln in *. exists k, m', iov'. rewrite El. rewrite Hu, Ha in *.
  split_and!; [done|lia|by apply (moved_trans _ _ _ 0 k Hmv)|done| |done|done].
  by rewrite Hb, take_take, Nat.min_l by lia.
Qed.

Lemma copy_from_kiov_ok m want iov :
  kiov_ok iov →
  let n := Nat.min want (Z.to_nat (count iov)) in
  (user iov = true ∨ Forall (can_load m) (take n (addrs iov))) →
  ∃ k buf iov', copy_from_kiov has_mm m want iov = Ok (k, buf, iov') ∧
    (k ≤ length buf ≤ n)%nat ∧ moved iov iov' k ∧ loaded m (take k (addrs iov)) (take k buf) ∧
    (Forall (ok_load m (user iov)) (take n (addrs iov)) → k = n).
Proof.
  intros Hok n Hk. pose proof (ko_count _ Hok). unfold copy_from_kiov. rewrite MIN_spec.
  replace (Z.to_nat (Z.min _ _)) with n by lia. cbv zeta.
  pose proof (moved_advance iov 0 Hok ltac:(lia)) as Hmv. pose proof Hmv as (Hok1&Ha&Hc&Hu&Hs).
  change (Z.of_nat 0) with 0 in *. rewrite drop_0 in Ha.
  edestruct (from_loop_spec n m n (kiov_advance iov 0) 0 [])
    as (k&buf&iov'&El&Hkn&Hmv2&Hb&Hall); [done|done|lia|lia|by rewrite Hu, Ha|].
  exists k, buf, iov'. rewrite El. rewrite Hu, Ha in *.
  split_and!; [done|lia|lia|by apply (moved_trans _ _ _ 0 k Hmv)|done..].
Qed.
End transfer.

(** ** Round trip *)

Lemma puts_lookup_other b l d a : a ∉ l → puts b l d !! a = b !! a.
Proof.
  revert b d. induction l as [|x l IH]; intros b [|v d] Ha; try done. simpl.
  apply not_elem_of_cons in Ha as [? ?]. rewrite IH by done. by apply lookup_insert_ne.
Qed.

Lemma puts_loaded b w l d :
  NoDup l → length l = length d → loaded (Amem (puts b l d) w) l d.
Proof.
  revert b d. induction l as [|a l IH]; intros b [|v d] Hnd Hl; try discriminate; [constructor|].
  apply NoDup_cons in Hnd as [Ha Hnd]. injection Hl as Hl. constructor; [|by apply (IH (<[a:=v]> b))].
  simpl. rewrite puts_lookup_other by done. apply lookup_insert_eq.
Qed.

Lemma loaded_inj m l d1 d2 : loaded m l d1 → loaded m l d2 → d1 = d2.
Proof.
  intros H1. revert d2. induction H1 as [|a v l d Hv _ IH]; intros d2 H2.
  - by apply Forall2_nil_inv_l in H2.
  - apply Forall2_cons_inv_l in H2 as (w&d'&?&?&->). f_equal; [congruence|auto].
Qed.

(** C32: scatter and gather over any list of segments (empty ones included),
    user or kernel: copying a buffer to a vector whose addresses are distinct
    and accessible stores all of it, advances the vector by exactly that many
    bytes and touches nothing else; gathering from the same vector afterwards
    returns the same bytes, and both calls leave the vector at the same place. *)
Theorem copy_kiov_roundtrip has_mm m buffer iov :
  kiov_ok iov → NoDup (addrs iov) → Z.of_nat (length buffer) ≤ count iov →
  Forall (ok_store has_mm m (user iov)) (take (length buffer) (addrs iov)) →
  ∃ m' iov' iov'', copy_to_kiov has_mm m buffer iov = Ok (length buffer, m', iov') ∧
    copy_from_kiov has_mm m' (length buffer) iov = Ok (length buffer, buffer, iov'') ∧
    addrs iov' = drop (length buffer) (addrs iov) ∧ addrs iov'' = addrs iov' ∧
    count iov' = count iov - Z.of_nat (length buffer) ∧
    (∀ a, a ∉ take (length buffer) (addrs iov) → bytes m' !! a = bytes m !! a).
Proof.
  intros Hok Hnd Hc Hst. pose proof (ko_addrs _ Hok) as Ha.
  destruct (copy_to_kiov_ok has_mm m buffer iov Hok) as (k&m'&iov'&E&_&(_&Ha'&Hc'&_)&Hw&Hb&Hmono&Hall);
    rewrite Nat.min_l in * by lia.
  { right. eapply Forall_impl; [done|]. by intros a [? _]. }
  rewrite (Hall Hst) in *. clear Hall k.
  destruct (copy_from_kiov_ok has_mm m' (length buffer) iov Hok) as (k&buf&iov''&E2&Hk&(_&Ha''&_)&Hld&Hall);
    rewrite Nat.min_l in * by lia.
  { right. eapply Forall_impl; [done|]. by intros a [[? _]%Hmono _]. }
  assert (k = length buffer) as ->.
  { apply Hall. eapply Forall_impl; [done|]. intros a [[??]%Hmono ?]. done. }
  rewrite !(take_ge buffer), (take_ge buf) in * by lia. exists m', iov', iov''.
  split_and!; [done| |done|congruence|done|].
  - rewrite E2. repeat f_equal. eapply loaded_inj; [done|].
    destruct m' as [b' w']. simpl in Hb. subst b'. apply puts_loaded; [|rewrite length_take; lia].
    rewrite <-(take_drop (length buffer) (addrs iov)) in Hnd. by apply NoDup_app in Hnd as [? _].
  - intros a Hna. rewrite Hb. by apply puts_lookup_other.
Qed.

Definition example_amem : amem :=
  Amem (list_to_map ((λ i, (Z.of_nat i + 0x10000, 0)) <$> seq 0 16)) (λ _, true).
Definition example_iov : kiov := Kiov [(0x10000, 2); (0x10008, 0); (0x10004, 3)] 1 4 true.

Lemma copy_kiov_roundtrip_witness :
  ∃ m' iov' iov'', copy_to_kiov true example_amem [7; 8; 9] example_iov = Ok (3%nat, m', iov') ∧
    copy_from_kiov true m' 3 example_iov = Ok (3%nat, [7; 8; 9], iov'') ∧ addrs iov' = [0x10006].
Proof.
  destruct (copy_kiov_roundtrip true example_amem [7; 8; 9] example_iov) as (m'&iov'&iov''&H1&H2&H3&_).
  - split; [|split; simpl; lia|simpl; lia|reflexivity].
    repeat (apply Forall_cons; split; [simpl; lia|]). constructor.
  - refine (bool_decide_eq_true_1 _ _). vm_compute. reflexivity.
  - simpl. lia.
  - repeat (apply Forall_cons; split; [split; [split; [eexists; reflexivity|reflexivity]|split; [done|vm_compute; split; congruence]]|]). constructor.
  - exists m', iov', iov''. split; [exact H1|]. split; [exact H2|]. rewrite H3. reflexivity.
Defined.
