(* ===== verification/Pipe.v ===== *)
(** * Pipes: [fs/pipe.c]

    The ring of a pipe is indexed like the rings of [Kfifo]: two free-running
    32-bit counters and a buffer of [PIPE_BUF_SIZE] bytes.  [pipe_read] and
    [pipe_write] hold [pipe->mutex] except while they wait, so a call is a
    sequence of sections under the mutex; what other tasks do in between is
    the [env] argument, one [wake] per wait.  [pipe->readers] and
    [pipe->writers] are not protected by the mutex ([pipe_release] takes only
    the wait queue's lock), so [pipe_write], which reads [readers] again for
    every piece, takes the values it sees as an argument. *)
From stdpp Require Import base tactics numbers list gmap.
From S2P Require Import Prelude Bitmap Refcount Fdtable Kfifo Task Signal Kiov.

Definition PIPE_BUF_SIZE : Z := PAGE_SIZE.
Definition O_RDONLY : Z := 0.
Definition O_WRONLY : Z := 1.
Definition O_ACCMODE : Z := 3.
Definition SIGPIPE : Z := 13.
Definition FILE_READ (f_flags : Z) : bool := negb (Z.land f_flags O_ACCMODE =? O_WRONLY).
Definition FILE_WRITE (f_flags : Z) : bool := negb (Z.land f_flags O_ACCMODE =? O_RDONLY).

Record pipe := Pipe { head : Z; tail : Z; buffer : list Z; readers : Z; writers : Z }.

(** The end of a wait, as the waiting call sees it. *)
Inductive wake :=
  | Signalled                       (* wait_event_interruptible fails *)
  | LockFailed (err : Z)            (* the mutex is not taken again *)
  | Resumed (p : pipe) (m : amem).  (* the mutex is held; pipe and memory now *)

(** How a call ends; [Blocked] is a wait nothing ends. *)
Inductive outcome := Blocked | Returned (ret : Z).

Definition used (p : pipe) : Z := u32 (head p - tail p).

(** [n] bytes of the ring's buffer from [off]. *)
Definition slice (l : list Z) (off n : nat) : res (list Z) :=
  if decide (off + n ≤ length l)%nat then Ok (take n (drop off l)) else Fault.

Definition pipe_sigpipe (tgid : Z) : siginfo := Siginfo SIGPIPE SI_USER tgid 0 0 0.

Section calls.
Context (has_mm : bool).

(** ** [pipe_read] *)

(** The first loop: left with the pipe to read from, or with a return. *)
Fixpoint read_wait (nonblock : bool) (p : pipe) (m : amem) (env : list wake)
    : outcome + (pipe * amem) :=
  if negb (head p =? tail p) || negb (truth (writers p)) then inr (p, m) else
  if nonblock then inl (Returned (- EAGAIN)) else
  match env with
  | [] => inl Blocked
  | Signalled :: _ => inl (Returned (- EINTR))
  | LockFailed e :: _ => inl (Returned e)
  | Resumed p m :: env => read_wait nonblock p m env
  end.

(** The second loop; the result has [done] and [ret]. *)
Fixpoint read_copy (fuel : nat) (p : pipe) (m : amem) (iov : kiov) (done : Z)
    : res (Z * Z * pipe * amem * kiov) :=
  if truth (count iov) && negb (head p =? tail p) then
    match fuel with
    | O => Loop
    | S fuel' =>
        let offset := Z.land (tail p) (u32 (PIPE_BUF_SIZE - 1)) in
        let cnt := MIN (u32 (head p - tail p)) (u64 (PIPE_BUF_SIZE - offset)) in
        let cnt := MIN cnt (count iov) in
        let! data := slice (buffer p) (Z.to_nat offset) (Z.to_nat cnt) in
        let! (copied, m, iov) := copy_to_kiov has_mm m data iov in
        let copied := Z.of_nat copied in
        let p := Pipe (head p) (u32 (tail p + copied)) (buffer p) (readers p) (writers p) in
        let done := u64 (done + copied) in
        if negb (copied =? cnt) then Ok (done, - EFAULT, p, m, iov)
        else read_copy fuel' p m iov done
    end
  else Ok (done, 0, p, m, iov).

Record read_result := ReadResult {
  r_out : outcome; r_pipe : pipe; r_mem : amem; r_iov : kiov; r_wake_all : bool }.

(** [lock] is what the first [mutex_lock_interruptible] returns. *)
Definition pipe_read (f_flags : Z) (lock : Z) (p : pipe) (m : amem) (iov : kiov) (env : list wake)
    : res read_result :=
  if negb (FILE_READ f_flags) then Ok (ReadResult (Returned (- EBADF)) p m iov false) else
  if truth lock then Ok (ReadResult (Returned lock) p m iov false) else
  match read_wait (truth (Z.land f_flags O_NONBLOCK)) p m env with
  | inl o => Ok (ReadResult o p m iov false)
  | inr (p, m) =>
      let! (done, ret, p, m, iov) := read_copy (Z.to_nat (count iov)) p m iov 0 in
      Ok (ReadResult (Returned (if truth done then done else ret)) p m iov (truth done))
  end.

(** ** [pipe_write] *)

Record write_result := WriteResult {
  w_out : outcome; w_pipe : pipe; w_iov : kiov; w_sig : option siginfo }.

(** The loop; [i] numbers its iterations and [readers_at i] is the value of
    [pipe->readers] the iteration sees. *)
Fixpoint write_loop (fuel : nat) (readers_at : nat → Z) (i : nat) (nonblock atomic : bool) (tgid : Z)
    (p : pipe) (m : amem) (iov : kiov) (env : list wake) (done : Z) : res write_result :=
  if negb (truth (count iov)) then Ok (WriteResult (Returned done) p iov None) else
  match fuel with
  | O => Loop
  | S fuel' =>
      let or_done (ret : Z) : outcome := Returned (if truth done then done else ret) in
      if negb (truth (readers_at i)) then
        Ok (WriteResult (or_done (- EPIPE)) p iov (Some (pipe_sigpipe tgid)))
      else
      let need := if atomic then count iov else 1 in
      if u32 (PIPE_BUF_SIZE - u32 (head p - tail p)) <? need then
        if nonblock then Ok (WriteResult (or_done (- EAGAIN)) p iov None) else
        match env with
        | [] => Ok (WriteResult Blocked p iov None)
        | Signalled :: _ => Ok (WriteResult (or_done (- EINTR)) p iov None)
        | LockFailed e :: _ => Ok (WriteResult (Returned e) p iov None)
        | Resumed p m :: env => write_loop fuel' readers_at (S i) nonblock atomic tgid p m iov env done
        end
      else
      let offset := Z.land (head p) (u32 (PIPE_BUF_SIZE - 1)) in
      let cnt := MIN (u32 (PIPE_BUF_SIZE - u32 (head p - tail p))) (u64 (PIPE_BUF_SIZE - offset)) in
      let cnt := MIN cnt (count iov) in
      let! (copied, buf, iov) := copy_from_kiov has_mm m (Z.to_nat cnt) iov in
      let! b := memcpy (buffer p) (Z.to_nat offset) buf 0 (length buf) in
      let copied := Z.of_nat copied in
      let p := Pipe (u32 (head p + copied)) (tail p) b (readers p) (writers p) in
      let done := u64 (done + copied) in
      if negb (copied =? cnt)
      then Ok (WriteResult (Returned (if truth done then done else - EFAULT)) p iov None)
      else write_loop fuel' readers_at (S i) nonblock atomic tgid p m iov env done
  end.

Definition pipe_write (f_flags : Z) (lock : Z) (readers_at : nat → Z) (tgid : Z)
    (p : pipe) (m : amem) (iov : kiov) (env : list wake) : res write_result :=
  let total := count iov in
  let atomic := total <=? PIPE_BUF_SIZE in
  if negb (FILE_WRITE f_flags) then Ok (WriteResult (Returned (- EBADF)) p iov None) else
  if truth lock then Ok (WriteResult (Returned lock) p iov None) else
  write_loop (Z.to_nat total + length env) readers_at 0 (truth (Z.land f_flags O_NONBLOCK)) atomic tgid
    p m iov env 0.

End calls.

(** ** Pipes, their two files and the descriptors: creation and release *)

(** The pipes, [file->f_private] of the files that are pipe ends, the files; of each
    pipe [pipe->inode] and [pipe->buffer], NULL until they are set; [i_count] of the
    inodes and the buffers that are allocated.  A block of memory is in its map or set
    exactly while it is allocated. *)
Record pstate := PState {
  pipes : gmap positive pipe;
  ends : gmap positive positive;
  fstore_ : fstore;
  parts : gmap positive (option positive * option positive);
  icounts : gmap positive Z;
  buffers : gset positive;
}.
Definition set_pipe (s : pstate) (id : positive) (p : pipe) : pstate :=
  PState (<[id := p]> (pipes s)) (ends s) (fstore_ s) (parts s) (icounts s) (buffers s).
Definition set_parts (s : pstate) (id : positive) (inode buf : option positive) : pstate :=
  PState (pipes s) (ends s) (fstore_ s) (<[id := (inode, buf)]> (parts s)) (icounts s) (buffers s).

(** [iput] of an inode of no file system: [kfree] at the last reference. *)
Definition iput_pipe (dbg : bool) (s : pstate) (inode : option positive) : res pstate :=
  match inode with
  | None => Ok s
  | Some i =>
      let! n := deref (icounts s !! i) in
      let! (last, n) := refcount_dec_and_test dbg [] n in
      Ok (PState (pipes s) (ends s) (fstore_ s) (parts s)
            (if last then delete i (icounts s) else <[i := n]> (icounts s)) (buffers s))
  end.
(** [kfree] of a buffer, of a [struct pipe] and of a [struct file]; one that is not
    allocated faults. *)
Definition kfree_buffer (s : pstate) (buf : option positive) : res pstate :=
  match buf with
  | None => Ok s
  | Some x => if decide (x ∈ buffers s)
      then Ok (PState (pipes s) (ends s) (fstore_ s) (parts s) (icounts s) (buffers s ∖ {[x]})) else Fault
  end.
Definition kfree_pipe (s : pstate) (id : positive) : res pstate :=
  let! _ := deref (pipes s !! id) in
  Ok (PState (delete id (pipes s)) (ends s) (fstore_ s) (delete id (parts s)) (icounts s) (buffers s)).
Definition kfree_file (s : pstate) (f : positive) : res pstate :=
  let! _ := deref (fstore_ s !! f) in
  Ok (PState (pipes s) (delete f (ends s)) (delete f (fstore_ s)) (parts s) (icounts s) (buffers s)).

(** [iput(pipe->inode); kfree(pipe->buffer); kfree(pipe);] *)
Definition pipe_free (dbg : bool) (s : pstate) (id : positive) : res pstate :=
  let! (inode, buf) := deref (parts s !! id) in
  let! s := iput_pipe dbg s inode in
  let! s := kfree_buffer s buf in
  kfree_pipe s id.

Definition pipe_release (dbg : bool) (s : pstate) (f : positive) : res (Z * pstate) :=
  let! id := deref (ends s !! f) in
  let! p := deref (pipes s !! id) in
  let! file := deref (fstore_ s !! f) in
  let p := if FILE_READ (f_flags file)
           then Pipe (head p) (tail p) (buffer p) (u32 (readers p - 1)) (writers p)
           else Pipe (head p) (tail p) (buffer p) (readers p) (u32 (writers p - 1)) in
  let dead := negb (truth (readers p)) && negb (truth (writers p)) in
  let s := set_pipe s id p in
  let! s := if dead then pipe_free dbg s id else Ok s in
  Ok (0, s).

(** [fput] of a pipe end, or of NULL. *)
Definition fput_end (dbg : bool) (s : pstate) (fp : fptr) : res pstate :=
  match fp with
  | None => Ok s
  | Some f =>
      let! file := deref (fstore_ s !! f) in
      let! (last, c) := refcount_dec_and_test dbg [] (f_count file) in
      if negb last
      then Ok (PState (pipes s) (ends s) (<[f := File c (f_flags file)]> (fstore_ s)) (parts s) (icounts s) (buffers s)) else
      let! (_, s) := pipe_release dbg s f in
      kfree_file s f
  end.

(** What the allocators return in one [pipe_alloc]; a buffer comes with its bytes. *)
Record allocs := Allocs {
  a_pipe : option positive;
  a_inode : option positive;
  a_buffer : option (positive * list Z);
  a_rfile : option positive;
  a_wfile : option positive;
}.

(** [kzalloc] of the file, and its fields. *)
Definition pipe_file (file : option positive) (flags : Z) (s : pstate) (id : positive) : res (option positive * pstate) :=
  match file with
  | None => Ok (None, s)
  | Some f =>
      let! (inode, _) := deref (parts s !! id) in
      let! i := deref inode in
      let! _ := deref (icounts s !! i) in
      Ok (Some f, PState (pipes s) (<[f := id]> (ends s)) (<[f := File 1 flags]> (fstore_ s)) (parts s) (icounts s) (buffers s))
  end.

(** The two files, or the error and what the failing exits leave behind. *)
Definition pipe_alloc (dbg : bool) (a : allocs) (flags : Z) (s : pstate) : res (Z * fptr * fptr * pstate) :=
  match a_pipe a with
  | None => Ok (- ENOMEM, None, None, s)
  | Some id =>
      let s := set_parts (set_pipe s id (Pipe 0 0 [] 0 0)) id None None in
      let s := match a_inode a with
        | None => s
        | Some i => PState (pipes s) (ends s) (fstore_ s) (parts s) (<[i := 1]> (icounts s)) (buffers s)
        end in
      let s := set_parts s id (a_inode a) None in
      let s := match a_buffer a with
        | None => s
        | Some (x, _) => PState (pipes s) (ends s) (fstore_ s) (parts s) (icounts s) ({[x]} ∪ buffers s)
        end in
      let s := set_parts s id (a_inode a) (fst <$> a_buffer a) in
      (* pipe->inode->i_nlink = 1 *)
      let! _ := deref (a_inode a) in
      let nomem (s : pstate) := let! s := pipe_free dbg s id in Ok (- ENOMEM, None, None, s) in
      match a_buffer a with
      | None => nomem s
      | Some (_, b) =>
          let s := set_pipe s id (Pipe 0 0 b 1 1) in
          let! (r, s) := pipe_file (a_rfile a) (Z.lor O_RDONLY (Z.land flags O_NONBLOCK)) s id in
          match r with
          | None => nomem s
          | Some r =>
              let! (w, s) := pipe_file (a_wfile a) (Z.lor O_WRONLY (Z.land flags O_NONBLOCK)) s id in
              match w with
              | None => let! s := kfree_file s r in nomem s
              | Some w => Ok (0, Some r, Some w, s)
              end
          end
      end
  end.

(** An [int] in memory. *)
Definition int_bytes (x : Z) : list Z :=
  [u8 x; u8 (Z.shiftr x 8); u8 (Z.shiftr x 16); u8 (Z.shiftr x 24)].

Definition sys_pipe2 (dbg has_mm : bool) (a : allocs) (upipefd arg1 : Z)
    (fdt : fdtable) (s : pstate) (m : amem) : res (Z * fdtable * pstate * amem) :=
  let flags := u32 arg1 in
  if truth (Z.land flags (not32 (Z.lor O_CLOEXEC O_NONBLOCK))) then Ok (- EINVAL, fdt, s, m) else
  let! (fd0, fdt) := fd_alloc fdt in
  if fd0 <? 0 then Ok (fd0, fdt, s, m) else
  let! (fd1, fdt) := fd_alloc fdt in
  if fd1 <? 0 then let! fdt := fd_release fdt fd0 in Ok (fd1, fdt, s, m) else
  (* [fail], then the cleanups in reverse order of declaration *)
  let fail (ret : Z) (rfile wfile : fptr) (s : pstate) (m : amem) :=
    let! fdt := fd_release fdt fd0 in
    let! fdt := fd_release fdt fd1 in
    let! s := fput_end dbg s wfile in
    let! s := fput_end dbg s rfile in
    Ok (ret, fdt, s, m) in
  let! (ret, rfile, wfile, s) := pipe_alloc dbg a flags s in
  if truth ret then fail ret rfile wfile s m else
  let (missing, m) := copy_to_user m has_mm upipefd (int_bytes fd0 ++ int_bytes fd1) in
  if decide (missing ≠ O) then fail (- EFAULT) rfile wfile s m else
  let! (_, fdt) := fd_replace fdt fd0 rfile (truth (Z.land flags O_CLOEXEC)) in
  let! (_, fdt) := fd_replace fdt fd1 wfile (truth (Z.land flags O_CLOEXEC)) in
  Ok (0, fdt, s, m).

(** ** The queue in a pipe *)

Definition as_ring (p : pipe) : kfifo := Kfifo (head p) (tail p) (PIPE_BUF_SIZE - 1) (buffer p).
(** [holds p q]: the bytes in the pipe, oldest first. *)
Definition holds (p : pipe) (q : list Z) : Prop := repr 12 (as_ring p) q.

Local Lemma k12 : 1 ≤ 12 ≤ 31. Proof. lia. Qed.

Section holds.
Context (p : pipe) (q : list Z) (Hq : holds p q).

Lemma holds_cap : Z.of_nat (length q) ≤ 4096.
Proof. exact (repr_cap _ _ _ Hq). Qed.
Lemma holds_used : u32 (head p - tail p) = Z.of_nat (length q).
Proof. exact (repr_in_out 12 k12 _ _ Hq). Qed.
Lemma holds_free : u32 (PIPE_BUF_SIZE - u32 (head p - tail p)) = 4096 - Z.of_nat (length q).
Proof.
  rewrite holds_used. pose proof holds_cap. unfold PIPE_BUF_SIZE, PAGE_SIZE.
  apply u32_small. unfold in_u32. lia.
Qed.
Lemma holds_empty : (head p =? tail p) = bool_decide (q = []).
Proof.
  pose proof holds_used as Hu. pose proof holds_cap. pose proof (repr_in _ _ _ Hq) as Hi.
  pose proof (repr_out _ _ _ Hq) as Ho. simpl in Hi, Ho.
  destruct q as [|x l]; simpl in Hi.
  - rewrite Z.add_0_r, u32_small in Hi by done. rewrite bool_decide_eq_true_2 by done. lia.
  - rewrite bool_decide_eq_false_2 by done. apply Z.eqb_neq. intros E. rewrite E, Z.sub_diag in Hu.
    change (u32 0) with 0 in Hu. simpl in Hu. lia.
Qed.
Lemma ring_offset x : Z.land x (u32 (PIPE_BUF_SIZE - 1)) = x mod 4096.
Proof. change (u32 (PIPE_BUF_SIZE - 1)) with (2 ^ 12 - 1). by apply land_pow2_mask. Qed.
Lemma offset_left x : u64 (PIPE_BUF_SIZE - x mod 4096) = 4096 - x mod 4096.
Proof.
  pose proof (Z.mod_pos_bound x 4096 ltac:(lia)). unfold PIPE_BUF_SIZE, PAGE_SIZE.
  apply u64_small. unfold in_u64. lia.
Qed.

Lemma holds_len : Z.of_nat (length (buffer p)) = 4096.
Proof. exact (repr_data _ _ _ Hq). Qed.
Lemma holds_bytes i x :
  q !! i = Some x → buffer p !! Z.to_nat ((tail p + Z.of_nat i) mod 4096) = Some x.
Proof. exact (repr_bytes _ _ _ Hq i x). Qed.
Lemma holds_head : head p = u32 (tail p + Z.of_nat (length q)).
Proof. exact (repr_in _ _ _ Hq). Qed.
Lemma holds_head_mod : head p mod 4096 = (tail p + Z.of_nat (length q)) mod 4096.
Proof. exact (repr_in_mod 12 k12 _ _ Hq). Qed.
Lemma ring_step12 x j :
  0 ≤ j < 4096 → (x + j) mod 4096 = if x mod 4096 + j <? 4096 then x mod 4096 + j else x mod 4096 + j - 4096.
Proof. exact (ring_step 12 k12 x j). Qed.

(** The oldest bytes up to the end of the buffer are contiguous. *)
Lemma slice_queue n :
  (n ≤ length q)%nat → tail p mod 4096 + Z.of_nat n ≤ 4096 →
  slice (buffer p) (Z.to_nat (tail p mod 4096)) n = Ok (take n q).
Proof.
  intros Hn Hle. pose proof (Z.mod_pos_bound (tail p) 4096 ltac:(lia)) as Hm.
  pose proof holds_len as Hd. unfold slice. rewrite decide_True by lia. f_equal. apply list_eq. intros i.
  rewrite !lookup_take. case_decide as Hi; [|done]. rewrite lookup_drop.
  destruct (lookup_lt_is_Some_2 q i) as [x Hx]; [lia|]. rewrite Hx.
  rewrite <-(holds_bytes i x Hx). f_equal. rewrite ring_step12 by lia.
  destruct (Z.ltb_spec (tail p mod 4096 + Z.of_nat i) 4096); lia.
Qed.

Lemma holds_read n r w :
  (n ≤ length q)%nat → holds (Pipe (head p) (u32 (tail p + Z.of_nat n)) (buffer p) r w) (drop n q).
Proof. intros Hn. exact (repr_drop 12 k12 (as_ring p) q Hq n Hn). Qed.

(** Bytes stored after the newest one, of which the first [n] are published. *)
Lemma holds_written buf b n r w :
  Z.of_nat (length q + length buf) ≤ 4096 → head p mod 4096 + Z.of_nat (length buf) ≤ 4096 →
  (n ≤ length buf)%nat →
  memcpy (buffer p) (Z.to_nat (head p mod 4096)) buf 0 (length buf) = Ok b →
  holds (Pipe (u32 (head p + Z.of_nat n)) (tail p) b r w) (q ++ take n buf).
Proof.
  intros Hcap Hfit Hn Hb. pose proof holds_len as Hd.
  pose proof (Z.mod_pos_bound (head p) 4096 ltac:(lia)) as Hm.
  destruct (memcpy_spec (buffer p) buf (Z.to_nat (head p mod 4096)) 0 (length buf)) as (b'&Hb'&Hlb&Hlk); [lia..|].
  rewrite Hb' in Hb. injection Hb as ->.
  assert (Hpos : ∀ j, 0 ≤ j < Z.of_nat (length buf) →
    (tail p + Z.of_nat (length q) + j) mod 4096 = head p mod 4096 + j).
  { intros j Hj. rewrite ring_step12, <-holds_head_mod by lia.
    destruct (Z.ltb_spec (head p mod 4096 + j) 4096); lia. }
  assert (Hr : repr 12 (Kfifo (u32 (head p + Z.of_nat (length buf))) (tail p) (PIPE_BUF_SIZE - 1) b) (q ++ buf)).
  { apply (repr_append 12 k12 (as_ring p) q Hq buf b); simpl; change (Z.pow_pos 2 12) with 4096; [lia|lia| |].
    - intros i x Hx. pose proof (lookup_lt_Some _ _ _ Hx). rewrite Hpos, Hlk, decide_True by lia.
      rewrite <-Hx. f_equal. lia.
    - intros j Hj Hout. rewrite Hlk, decide_False; [done|]. intros Hin.
      apply (Hout (j - head p mod 4096)); [lia|]. rewrite Hpos by lia. lia. }
  destruct Hr as [Hk Hmk Hdt Hot Hin Hcp Hby]. split; [done..| | |].
  - cbn [as_ring in_ out head tail]. rewrite holds_head, length_app, length_take. unfold u32, wrap.
    rewrite Zplus_mod_idemp_l. f_equal. lia.
  - rewrite length_app, length_take. change (2 ^ 12) with 4096. lia.
  - intros i x Hx. apply Hby. rewrite lookup_app in *. destruct (q !! i); [done|].
    rewrite lookup_take in Hx. by case_decide.
Qed.
End holds.

Lemma holds_inj p q1 q2 : holds p q1 → holds p q2 → q1 = q2.
Proof.
  intros H1 H2. pose proof (holds_used _ _ H1) as E. rewrite (holds_used _ _ H2) in E.
  apply list_eq_same_length with (length q1); [lia|lia|].
  intros i x y _ Hx Hy. apply (holds_bytes _ _ H1) in Hx. apply (holds_bytes _ _ H2) in Hy. congruence.
Qed.

(** ** Reading *)

(** [k] bytes of the vector have been used up. *)
Definition consumed (iov iov' : kiov) (k : nat) : Prop :=
  kiov_ok iov' ∧ addrs iov' = drop k (addrs iov) ∧ count iov' = count iov - Z.of_nat k ∧
  user iov' = user iov.

Lemma moved_consumed iov iov' k : moved iov iov' k → consumed iov iov' k.
Proof. intros (?&?&?&?&_). done. Qed.
Lemma consumed_0 iov : kiov_ok iov → consumed iov iov 0.
Proof. intros. split_and!; (done || lia). Qed.
Lemma consumed_trans iov iov1 iov2 n k : consumed iov iov1 n → consumed iov1 iov2 k → consumed iov iov2 (n + k).
Proof.
  intros (?&A1&C1&U1) (?&A2&C2&U2). split_and!; [done| |lia|congruence]. by rewrite A2, A1, drop_drop.
Qed.

Lemma Forall_take_le {A} (P : A → Prop) n k l :
  (n ≤ k)%nat → Forall P (take k l) → Forall P (take n l).
Proof. intros Hle H. rewrite <-(Nat.min_l n k), <-take_take by done. by apply Forall_take. Qed.

Lemma Forall_take_drop {A} (P : A → Prop) n k l :
  (n ≤ k)%nat → Forall P (take k l) → Forall P (take (k - n) (drop n l)).
Proof.
  intros Hle. replace k with (n + (k - n))%nat at 1 by lia. rewrite take_add.
  by intros [_ ?]%Forall_app.
Qed.

Section spec.
Context (has_mm : bool).

(** Nothing to move. *)
Lemma read_copy_stop fuel p m iov q acc n :
  holds p q → kiov_ok iov → n = Nat.min (length q) (Z.to_nat (count iov)) → n = 0%nat →
  ∃ k p' m' iov', read_copy has_mm fuel p m iov acc =
      Ok (acc + Z.of_nat k, if decide (k = n) then 0 else - EFAULT, p', m', iov') ∧
    (k ≤ n)%nat ∧ holds p' (drop k q) ∧ consumed iov iov' k ∧ writable m' = writable m ∧
    bytes m' = puts (bytes m) (take k (addrs iov)) (take k q) ∧
    (readers p', writers p') = (readers p, writers p) ∧
    (Forall (ok_store has_mm m (user iov)) (take n (addrs iov)) → k = n).
Proof.
  intros Hq Hok En Hn. rewrite Hn. pose proof (holds_empty p q Hq) as He. pose proof (ko_count _ Hok).
  exists 0%nat, p, m, iov. rewrite Z.add_0_r. split; [|split_and!; try done; by apply consumed_0].
  assert (Hc : truth (count iov) && negb (head p =? tail p) = false).
  { unfold truth. destruct (Z.eqb_spec (count iov) 0); [done|]. rewrite He, bool_decide_eq_true_2; [done|].
    apply nil_length_inv. lia. }
  destruct fuel; simpl; by rewrite Hc.
Qed.

Lemma read_copy_spec fuel p m iov q acc :
  holds p q → kiov_ok iov → (Z.to_nat (count iov) ≤ fuel)%nat → 0 ≤ acc → acc + count iov < 2 ^ 64 →
  let n := Nat.min (length q) (Z.to_nat (count iov)) in
  (user iov = true ∨ Forall (can_store m) (take n (addrs iov))) →
  ∃ k p' m' iov', read_copy has_mm fuel p m iov acc =
      Ok (acc + Z.of_nat k, if decide (k = n) then 0 else - EFAULT, p', m', iov') ∧
    (k ≤ n)%nat ∧ holds p' (drop k q) ∧ consumed iov iov' k ∧ writable m' = writable m ∧
    bytes m' = puts (bytes m) (take k (addrs iov)) (take k q) ∧
    (readers p', writers p') = (readers p, writers p) ∧
    (Forall (ok_store has_mm m (user iov)) (take n (addrs iov)) → k = n).
Proof.
  revert p m iov q acc. induction fuel as [|fuel IH]; intros p m iov q acc Hq Hok Hf Hd Hov n Hk;
    pose proof (ko_count _ Hok); pose proof (holds_empty p q Hq) as He;
    (assert (n = 0%nat ∨ (0 < count iov ∧ q ≠ [])) as [Hn|[Hc Hne]];
      [destruct (decide (q = [])) as [->|]; [by left|]; destruct (decide (count iov = 0)); [left; lia|right; split; [lia|done]] | |]).
  { by apply read_copy_stop. }
  { lia. }
  { by apply read_copy_stop. }
  simpl. rewrite He, bool_decide_eq_false_2 by done. unfold truth. rewrite (proj2 (Z.eqb_neq _ _)) by lia.
  simpl. rewrite ring_offset, offset_left, (holds_used p q Hq), !MIN_spec.
  pose proof (holds_cap p q Hq). pose proof (Z.mod_pos_bound (tail p) 4096 ltac:(lia)) as Hm.
  assert (0 < length q)%nat by (destruct q; [done|simpl; lia]).
  set (cntz := Z.min _ _). set (cnt := Z.to_nat cntz).
  assert (Hcnt : (0 < cnt ≤ n)%nat ∧ cntz = Z.of_nat cnt ∧ tail p mod 4096 + Z.of_nat cnt ≤ 4096) by lia.
  destruct Hcnt as (Hcnt&Ecz&Hfit).
  rewrite (slice_queue p q Hq) by lia. simpl.
  assert (Hlen : length (take cnt q) = cnt) by (rewrite length_take; lia).
  destruct (copy_to_kiov_ok has_mm m (take cnt q) iov Hok)
    as (k1&m1&iov1&Ec&Hk1&Hmv&Hw&Hb&Hst&Hall); rewrite Hlen, Nat.min_l in * by lia.
  { destruct Hk as [|Hk]; [by left|right]. eapply Forall_take_le; [|done]. lia. }
  rewrite Ec. simpl. apply moved_consumed in Hmv. rewrite take_take, Nat.min_l in Hb by lia.
  rewrite u64_small by (unfold in_u64; lia). rewrite Ecz.
  pose proof (holds_read p q Hq k1 (readers p) (writers p) ltac:(lia)) as Hq1.
  destruct (Z.eqb_spec (Z.of_nat k1) (Z.of_nat cnt)) as [Ek|Ek]; simpl.
  - assert (k1 = cnt) as -> by lia. clear Ek Hall. pose proof Hmv as (Hok1&Ha1&Hc1&Hu1).
    edestruct (IH _ m1 iov1 _ (acc + Z.of_nat cnt) Hq1) as (k&p'&m'&iov'&El&Hkn&Hq'&Hcs&Hw'&Hb'&Hrw&Hall);
      [done|lia|lia|lia| |].
    { rewrite Hu1, Ha1, length_drop. destruct Hk as [|Hk]; [by left|right].
      replace (Nat.min _ _) with (n - cnt)%nat by lia. eapply Forall_impl; [|exact Hst].
      apply Forall_take_drop; [lia|done]. }
    rewrite length_drop in *. replace (Nat.min (length q - cnt) _) with (n - cnt)%nat in * by lia.
    exists (cnt + k)%nat, p', m', iov'. rewrite El, drop_drop in *.
    split_and!; [|lia|done|by eapply consumed_trans|congruence| |done|].
    + rewrite Nat2Z.inj_add, Z.add_assoc. by repeat case_decide; try lia.
    + rewrite Hb', Hb, Ha1, puts_app; [by rewrite !take_add|]. rewrite !length_take.
      pose proof (ko_addrs _ Hok). lia.
    + intros Hf1. rewrite Hall; [lia|]. rewrite Hu1, Ha1.
      eapply Forall_impl; [by apply Forall_take_drop; [|done]; lia|]. intros a [??]. split; auto.
  - eexists k1, _, m1, iov1. split; [by rewrite decide_False by lia|].
    split_and!; [lia|done..|]. intros Hf1. destruct Ek. rewrite Hall; [done|].
    eapply Forall_take_le; [|done]. lia.
Qed.
(** A state of the pipe and of memory in which the call holds the mutex. *)
Definition seen (p : pipe) (m : amem) (env : list wake) (pf : pipe) (mf : amem) : Prop :=
  (pf = p ∧ mf = m) ∨ Resumed pf mf ∈ env.

(** Pipes others leave behind hold some queue. *)
Definition env_ok (env : list wake) : Prop :=
  ∀ p m, Resumed p m ∈ env → ∃ q, holds p q.

Definition empty_open (p : pipe) : Prop := holds p [] ∧ truth (writers p) = true.

(** The wait ends with data or without writers, or the call returns an error
    having seen only empty pipes with a writer. *)
Lemma read_wait_spec nonblock p m env q :
  holds p q → env_ok env →
  match read_wait nonblock p m env with
  | inr (pf, mf) => seen p m env pf mf ∧ ∃ qf, holds pf qf ∧ (qf ≠ [] ∨ writers pf = 0)
  | inl Blocked => nonblock = false ∧ ∀ pf mf, seen p m env pf mf → empty_open pf
  | inl (Returned r) => empty_open p ∧
      (nonblock = true ∧ r = - EAGAIN ∨
       nonblock = false ∧ (r = - EINTR ∧ Signalled ∈ env ∨ LockFailed r ∈ env))
  end.
Proof.
  revert p m q. induction env as [|w env IH]; intros p m q Hq Henv.
  all: simpl; rewrite (holds_empty p q Hq).
  all: destruct (negb (bool_decide (q = [])) || negb (truth (writers p))) eqn:E; simpl.
  1, 3: split; [by left|]; exists q; split; [done|];
    apply orb_true_iff in E as [E|E]; [left; by apply negb_true_iff, bool_decide_eq_false in E|
    right; unfold truth in E; rewrite negb_involutive in E; lia].
  all: apply orb_false_iff in E as [E1 E2]; apply negb_false_iff in E2;
    apply negb_false_iff, bool_decide_eq_true in E1; subst q.
  all: assert (Heo : empty_open p) by done.
  - destruct nonblock; [by split; [|left]|]. split; [done|]. intros pf mf [[-> ->]|Hin]; [done|].
    by apply elem_of_nil in Hin.
  - destruct nonblock; [by split; [|left]|]. destruct w as [|e|p1 m1].
    + split; [done|]. right. split; [done|]. left. split; [done|]. by left.
    + split; [done|]. right. split; [done|]. right. by left.
    + destruct (Henv p1 m1) as [q1 Hq1]; [by left|].
      specialize (IH p1 m1 q1 Hq1 ltac:(intros ???; eapply Henv; by right)).
      destruct (read_wait false p1 m1 env) as [[|r]|[pf mf]].
      * destruct IH as [_ IH]. split; [done|]. intros pf mf [[-> ->]|Hin]; [done|].
        apply (IH pf mf). apply elem_of_cons in Hin as [[= -> ->]|]; [by left|by right].
      * destruct IH as [_ [[? ?]|[_ IH]]]; [done|]. split; [done|]. right. split; [done|].
        destruct IH as [[? ?]|?]; [left|right]; [split; [done|]|]; by right.
      * destruct IH as [Hs ?]. split; [|done]. right. destruct Hs as [[-> ->]|]; [by left|by right].
Qed.

(** What a read that gets past the wait does to a pipe holding [q]: it moves the
    [k] oldest bytes, in order, to the first [k] addresses of the vector. *)
Definition read_moves (pf : pipe) (mf : amem) (q : list Z) (iov : kiov) (ret : Z) (r : read_result) : Prop :=
  let n := Nat.min (length q) (Z.to_nat (count iov)) in
  ∃ k, (k ≤ n)%nat ∧ holds (r_pipe r) (drop k q) ∧ consumed iov (r_iov r) k ∧
    bytes (r_mem r) = puts (bytes mf) (take k (addrs iov)) (take k q) ∧
    r_wake_all r = bool_decide (k ≠ 0%nat) ∧
    ret = (if decide (k = 0%nat) then if decide (n = 0%nat) then 0 else - EFAULT else Z.of_nat k) ∧
    (Forall (ok_store has_mm mf (user iov)) (take n (addrs iov)) → k = n).

(** a read from a pipe.  Whatever other tasks do while it waits, a read
    returns only when the pipe has bytes or no writer, when it may not block,
    or when it is interrupted.  It then takes the oldest bytes of the queue as
    it is at that moment, in order, as many as the vector and the queue allow
    (all of them when the destination is accessible), leaves the rest queued,
    and reports the exact count: 0 only at end of file or for an empty vector,
    -EFAULT only if nothing could be stored.  A byte that could not be stored
    stays in the pipe.  Errors and blocking change nothing. *)
Theorem pipe_read_spec f_flags p m iov env q :
  FILE_READ f_flags = true → holds p q → env_ok env → kiov_ok iov → user iov = true →
  ∃ r, pipe_read has_mm f_flags 0 p m iov env = Ok r ∧
    let nonblock := truth (Z.land f_flags O_NONBLOCK) in
    match r_out r with
    | Blocked => nonblock = false ∧ (∀ pf mf, seen p m env pf mf → empty_open pf) ∧
        r_iov r = iov ∧ r_pipe r = p ∧ r_mem r = m
    | Returned ret =>
        (empty_open p ∧ r_iov r = iov ∧ r_pipe r = p ∧ r_mem r = m ∧
          (nonblock = true ∧ ret = - EAGAIN ∨
           nonblock = false ∧ (ret = - EINTR ∧ Signalled ∈ env ∨ LockFailed ret ∈ env))) ∨
        ∃ pf mf qf, seen p m env pf mf ∧ holds pf qf ∧ (qf ≠ [] ∨ writers pf = 0) ∧
          read_moves pf mf qf iov ret r
    end.
Proof.
  intros Hfr Hq Henv Hok Hu. unfold pipe_read. rewrite Hfr. simpl.
  pose proof (read_wait_spec (truth (Z.land f_flags O_NONBLOCK)) p m env q Hq Henv) as Hw.
  destruct (read_wait _ p m env) as [[|ret]|[pf mf]].
  - eexists. split; [done|]. simpl. naive_solver.
  - eexists. split; [done|]. simpl. left. naive_solver.
  - destruct Hw as (Hs&qf&Hqf&Hor). pose proof (ko_count _ Hok).
    destruct (read_copy_spec (Z.to_nat (count iov)) pf mf iov qf 0)
      as (k&p'&m'&iov'&El&Hk&Hq'&Hcs&Hw'&Hb'&_&Hall); [done|done|lia|lia|lia|by left|].
    rewrite El. simpl. eexists. split; [done|]. simpl. right. exists pf, mf, qf.
    split_and!; [done..|]. exists k. simpl. split_and!; [done..| | |done].
    + rewrite Z.add_0_l. unfold truth. destruct k; [done|]. by rewrite bool_decide_eq_true_2.
    + rewrite ?Z.add_0_l. unfold truth. destruct k; [|done]. by repeat case_decide.
Qed.
(** ** Writing *)

Definition or_err (total err : Z) : Z := if truth total then total else err.

(** Why a write stops, with [total] bytes written in all. *)
Inductive write_end (readers_at : nat → Z) (nonblock atomic : bool) (tgid : Z) (env : list wake)
    (free left total : Z) (loadable : Prop) : outcome → option siginfo → Prop :=
  | end_complete : left = 0 → write_end readers_at nonblock atomic tgid env free left total loadable (Returned total) None
  | end_no_reader i : readers_at i = 0 →
      write_end readers_at nonblock atomic tgid env free left total loadable
        (Returned (or_err total (- EPIPE))) (Some (pipe_sigpipe tgid))
  | end_full : nonblock = true → free < (if atomic then left else 1) →
      write_end readers_at nonblock atomic tgid env free left total loadable (Returned (or_err total (- EAGAIN))) None
  | end_blocked : nonblock = false → free < (if atomic then left else 1) →
      write_end readers_at nonblock atomic tgid env free left total loadable Blocked None
  | end_signal : nonblock = false → Signalled ∈ env →
      write_end readers_at nonblock atomic tgid env free left total loadable (Returned (or_err total (- EINTR))) None
  | end_lock e : nonblock = false → LockFailed e ∈ env →
      write_end readers_at nonblock atomic tgid env free left total loadable (Returned e) None
  | end_fault : ¬ loadable →
      write_end readers_at nonblock atomic tgid env free left total loadable (Returned (or_err total (- EFAULT))) None.

Lemma write_end_mono ra nb at_ tg env env' fr lf tot (L L' : Prop) o s :
  (∀ w, w ∈ env → w ∈ env') → (L' → L) →
  write_end ra nb at_ tg env fr lf tot L o s → write_end ra nb at_ tg env' fr lf tot L' o s.
Proof.
  intros He HL. destruct 1; [by apply end_complete|by eapply end_no_reader|by apply end_full|
    by apply end_blocked|by apply end_signal; auto|by apply end_lock; auto|by apply end_fault; auto].
Qed.

(** What a write did: [pf] is the pipe, holding [qf], when the mutex was taken
    for the last time; [j] bytes had gone out before that and [data], the next
    bytes of the vector, went out after it. *)
Definition wrote (readers_at : nat → Z) (nonblock atomic : bool) (tgid : Z)
    (p : pipe) (q : list Z) (m : amem) (iov : kiov) (env : list wake) (acc : Z) (r : write_result) : Prop :=
  ∃ pf mf qf j data,
    (pf = p ∧ mf = m ∧ qf = q ∧ j = 0%nat ∨
     Resumed pf mf ∈ env ∧ (atomic = true → j = 0%nat ∧ 4096 - Z.of_nat (length q) < count iov)) ∧
    holds pf qf ∧ holds (w_pipe r) (qf ++ data) ∧
    loaded mf (take (length data) (drop j (addrs iov))) data ∧
    consumed iov (w_iov r) (j + length data) ∧
    write_end readers_at nonblock atomic tgid env
      (4096 - Z.of_nat (length (qf ++ data))) (count (w_iov r)) (acc + Z.of_nat (j + length data))
      (Forall (ok_load has_mm mf (user iov)) (drop j (addrs iov))) (w_out r) (w_sig r).

Lemma wrote_stop ra nb at_ tg p q m iov env acc r :
  holds p q → kiov_ok iov → w_pipe r = p → w_iov r = iov →
  write_end ra nb at_ tg env (4096 - Z.of_nat (length q)) (count iov) acc
    (Forall (ok_load has_mm m (user iov)) (addrs iov)) (w_out r) (w_sig r) →
  wrote ra nb at_ tg p q m iov env acc r.
Proof.
  intros Hq Hok Ep Ei He. exists p, m, q, 0%nat, []. rewrite Ep, Ei. simpl. rewrite app_nil_r, Z.add_0_r.
  split_and!; [by left|done|done|constructor|by apply consumed_0|]. by rewrite drop_0.
Qed.

(** What is returned once bytes went out. *)
Lemma wrote_count ra nb at_ tg p q m iov env r ret :
  wrote ra nb at_ tg p q m iov env 0 r → w_out r = Returned ret → count (w_iov r) < count iov →
  ret = count iov - count (w_iov r) ∨ nb = false ∧ LockFailed ret ∈ env.
Proof.
  intros (pf&mf&qf&j&data&_&_&_&_&(_&_&Hc&_)&He) Hret Hlt. rewrite Hc in Hlt |- *.
  replace (count iov - _) with (0 + Z.of_nat (j + length data)) by lia. rewrite Hret in He.
  assert (Htot : ∀ e, or_err (0 + Z.of_nat (j + length data)) e = 0 + Z.of_nat (j + length data)).
  { intros e. unfold or_err, truth. by rewrite (proj2 (Z.eqb_neq _ _)) by lia. }
  inversion He; subst; rewrite ?Htot; auto.
Qed.

Lemma wrote_resume ra nb at_ tg p q m p1 m1 q1 iov env acc r :
  holds p1 q1 → (at_ = true → 4096 - Z.of_nat (length q) < count iov) →
  wrote ra nb at_ tg p1 q1 m1 iov env acc r →
  wrote ra nb at_ tg p q m iov (Resumed p1 m1 :: env) acc r.
Proof.
  intros Hq1 Hat (pf&mf&qf&j&data&Hor&Hqf&Hqr&Hld&Hc&He). exists pf, mf, qf, j, data.
  split_and!; [|done..|].
  - right. destruct Hor as [(->&->&->&->)|[Hin Hj]].
    + split; [by left|]. auto.
    + split; [by right|]. intros Ha. split; [by apply Hj|auto].
  - eapply write_end_mono; [|done|done]. intros w Hw. by right.
Qed.
Lemma wrote_piece ra nb at_ tg p q m p1 iov iov1 env acc r data1 :
  kiov_ok iov → holds p q → loaded m (take (length data1) (addrs iov)) data1 →
  consumed iov iov1 (length data1) →
  (at_ = true → Z.of_nat (length q) + count iov ≤ 4096) →
  wrote ra nb at_ tg p1 (q ++ data1) m iov1 env (acc + Z.of_nat (length data1)) r →
  wrote ra nb at_ tg p q m iov env acc r.
Proof.
  intros Hok Hq Hld1 Hc1 Hat (pf&mf&qf&j&data&Hor&Hqf&Hqr&Hld&Hc&He).
  pose proof Hc1 as (_&Ha1&Hcnt1&Hu1).
  destruct Hor as [(->&->&->&->)|[Hin Hj]].
  - exists p, m, q, 0%nat, (data1 ++ data). rewrite Ha1, drop_0, Nat.add_0_l in *. split_and!; [by left|done| | | |].
    + by rewrite app_assoc.
    + rewrite length_app, take_add. by apply Forall2_app.
    + rewrite length_app. by eapply consumed_trans.
    + rewrite Hu1 in He. rewrite app_assoc, (length_app data1 data), Nat2Z.inj_add, Z.add_assoc.
      eapply write_end_mono; [done| |done]. intros. by apply Forall_drop.
  - exists pf, mf, qf, (length data1 + j)%nat, data. rewrite Ha1, drop_drop, Hu1 in *. split_and!; [|done|done|done| |].
    + right. split; [done|]. intros Ha. specialize (Hat Ha). destruct (Hj Ha) as [_ Hlt].
      rewrite length_app, Nat2Z.inj_add in Hlt. lia.
    + rewrite <-Nat.add_assoc. by eapply consumed_trans.
    + rewrite <-Nat.add_assoc, Nat2Z.inj_add, Z.add_assoc. done.
Qed.

Lemma write_loop_spec fuel ra i nb at_ tg p m iov env acc q :
  holds p q → env_ok env → kiov_ok iov → user iov = true → (at_ = true → count iov ≤ 4096) →
  (Z.to_nat (count iov) + length env ≤ fuel)%nat → 0 ≤ acc → acc + count iov < 2 ^ 64 →
  ∃ r, write_loop has_mm fuel ra i nb at_ tg p m iov env acc = Ok r ∧
    wrote ra nb at_ tg p q m iov env acc r.
Proof.
  revert i p m iov env acc q.
  induction fuel as [|fuel IH]; intros i p m iov env acc q Hq Henv Hok Hu Hat Hf Hacc Hov;
    pose proof (ko_count _ Hok) as Hcnt.
  { simpl. unfold truth. replace (count iov =? 0) with true by lia. simpl. eexists. split; [done|].
    apply wrote_stop; [done..|]. simpl. apply end_complete. lia. }
  simpl. unfold truth. destruct (Z.eqb_spec (count iov) 0) as [E0|E0]; simpl.
  { eexists. split; [done|]. apply wrote_stop; [done..|]. by apply end_complete. }
  destruct (Z.eqb_spec (ra i) 0) as [Er|Er]; simpl.
  { eexists. split; [done|]. apply wrote_stop; [done..|]. simpl. by eapply (end_no_reader _ _ _ _ _ _ _ _ _ i). }
  rewrite (holds_free p q Hq), ring_offset, offset_left, !MIN_spec. pose proof (holds_cap p q Hq) as Hcap.
  destruct (Z.ltb_spec (4096 - Z.of_nat (length q)) (if at_ then count iov else 1)) as [Hlt|Hge].
  { destruct nb.
    { eexists. split; [done|]. apply wrote_stop; [done..|]. by apply end_full. }
    destruct env as [|[|e|p1 m1] env].
    - eexists. split; [done|]. apply wrote_stop; [done..|]. by apply end_blocked.
    - eexists. split; [done|]. apply wrote_stop; [done..|]. apply end_signal; [done|]. by left.
    - eexists. split; [done|]. apply wrote_stop; [done..|]. apply end_lock; [done|]. by left.
    - destruct (Henv p1 m1) as [q1 Hq1]; [by left|].
      destruct (IH (S i) p1 m1 iov env acc q1) as (r&Hr&Hw); [done| |done|done|done|simpl in Hf; lia|done|done|].
      { intros ???. eapply Henv. by right. }
      exists r. split; [done|]. eapply wrote_resume; [done| |done]. intros ->. done. }
  pose proof (Z.mod_pos_bound (head p) 4096 ltac:(lia)) as Hm.
  set (cntz := Z.min _ _). set (cnt := Z.to_nat cntz).
  assert (Hge1 : 1 ≤ 4096 - Z.of_nat (length q)) by (destruct at_; lia).
  assert (Hc : (0 < cnt ≤ Z.to_nat (count iov))%nat ∧ cntz = Z.of_nat cnt ∧ head p mod 4096 + Z.of_nat cnt ≤ 4096 ∧
    Z.of_nat (length q + cnt) ≤ 4096) by lia.
  destruct Hc as (Hc&Ecz&Hfit&Hroom).
  destruct (copy_from_kiov_ok has_mm m cnt iov Hok) as (k1&buf&iov1&Ec&Hk1&Hmv&Hld&Hall);
    rewrite Nat.min_l in * by lia; [by left|].
  rewrite Ec. simpl. pose proof (holds_len p q Hq) as Hlen.
  destruct (memcpy_spec (buffer p) buf (Z.to_nat (head p mod 4096)) 0 (length buf)) as (b&Hb&_&_); [lia..|].
  rewrite Hb. simpl. apply moved_consumed in Hmv. rewrite u64_small by (unfold in_u64; lia). rewrite Ecz.
  pose proof (holds_written p q Hq buf b k1 (readers p) (writers p) ltac:(lia) ltac:(lia) ltac:(lia) Hb) as Hq1.
  assert (Hl1 : length (take k1 buf) = k1) by (rewrite length_take; lia).
  assert (Hspace : at_ = true → Z.of_nat (length q) + count iov ≤ 4096) by (intros ->; lia).
  destruct (Z.eqb_spec (Z.of_nat k1) (Z.of_nat cnt)) as [Ek|Ek]; simpl.
  - pose proof Hmv as (Hok1&Ha1&Hc1&Hu1).
    edestruct (IH (S i) _ m iov1 env (acc + Z.of_nat k1) _ Hq1) as (r&Hr&Hw);
      [done|done|congruence|intros Ha; specialize (Hat Ha); lia|lia|lia|lia|].
    exists r. split; [done|]. eapply (wrote_piece _ _ _ _ _ _ _ _ _ iov1 _ _ _ (take k1 buf)); rewrite ?Hl1; done.
  - eexists. split; [done|]. exists p, m, q, 0%nat, (take k1 buf). rewrite Hl1, drop_0, Nat.add_0_l. simpl.
    split_and!; [by left|done..|]. apply end_fault. intros Hf1. destruct Ek. rewrite Hall; [done|].
    by apply Forall_take.
Qed.

(** C6: a write to a pipe always returns or blocks for a stated reason (no
    reader, no room, a signal, a lost mutex, an unreadable source, or done); it
    appends consecutive bytes of the vector, in order and unchanged, behind
    what the pipe holds.  When bytes went out it returns exactly how many, with
    one exception, which the code has: when a wait for room ended well but
    taking the mutex again fails, the error of the lock is returned whatever went
    out before.  A write of at most [PIPE_BUF_SIZE] bytes is atomic: however often it waits and whatever other writers do
    meanwhile, all its bytes follow each other directly in the queue, and
    nothing is written before there is room for all of it. *)
Theorem pipe_write_spec f_flags readers_at tgid p m iov env q :
  FILE_WRITE f_flags = true → holds p q → env_ok env → kiov_ok iov → user iov = true →
  ∃ r, pipe_write has_mm f_flags 0 readers_at tgid p m iov env = Ok r ∧
    wrote readers_at (truth (Z.land f_flags O_NONBLOCK)) (count iov <=? PIPE_BUF_SIZE) tgid
      p q m iov env 0 r ∧
    ∀ ret, w_out r = Returned ret → count (w_iov r) < count iov →
      ret = count iov - count (w_iov r) ∨ truth (Z.land f_flags O_NONBLOCK) = false ∧ LockFailed ret ∈ env.
Proof.
  intros Hfw Hq Henv Hok Hu. unfold pipe_write. rewrite Hfw. simpl. pose proof (ko_count _ Hok).
  destruct (write_loop_spec (Z.to_nat (count iov) + length env) readers_at 0 (truth (Z.land f_flags O_NONBLOCK))
    (count iov <=? PIPE_BUF_SIZE) tgid p m iov env 0 q) as (r&Hr&Hw); try done; [|lia|].
  { unfold PIPE_BUF_SIZE, PAGE_SIZE. intros. lia. }
  exists r. split_and!; [done..|]. intros ret Hret Hlt. by eapply wrote_count.
Qed.
End spec.

Definition empty_pipe : pipe := Pipe 0 0 (replicate 4096 0) 1 1.

Lemma empty_pipe_holds : holds empty_pipe [].
Proof.
  split; [lia|reflexivity|reflexivity|unfold in_u32; simpl; lia|reflexivity|simpl; lia|intros i x Hx; inversion Hx].
Qed.

Definition example_src : amem :=
  Amem (list_to_map ((λ i, (Z.of_nat i + 0x10000, Z.of_nat i)) <$> seq 0 16)) (λ _, true).

Lemma example_iov_ok : kiov_ok example_iov.
Proof.
  split; [|split; simpl; lia|simpl; lia|reflexivity].
  repeat (apply Forall_cons; split; [simpl; lia|]). constructor.
Qed.

(** A write of four bytes into an empty pipe. *)
Lemma pipe_write_spec_witness :
  ∃ r, pipe_write true O_WRONLY 0 (λ _, 1) 1 empty_pipe example_src example_iov [] = Ok r ∧
    w_out r = Returned 4 ∧ holds (w_pipe r) [1; 4; 5; 6].
Proof.
  destruct (pipe_write_spec true O_WRONLY (λ _, 1) 1 empty_pipe example_src example_iov [] [] eq_refl
    empty_pipe_holds ltac:(intros ?? Hin; inversion Hin) example_iov_ok eq_refl) as (r&Hr&Hw&_).
  exists r. split; [exact Hr|]. assert (Ho : w_out r = Returned 4 ∧ count (w_iov r) = 0).
  { vm_compute in Hr. injection Hr as <-. done. }
  destruct Ho as [Ho Hcnt0]. split; [exact Ho|].
  destruct Hw as (pf&mf&qf&j&data&[(->&->&->&->)|[Hin _]]&_&Hq&Hld&(_&_&Hc&_)&_); [|inversion Hin].
  rewrite Hcnt0 in Hc. simpl in Hc. assert (Hl : length data = 4%nat) by lia.
  rewrite Hl in Hld. replace data with [1; 4; 5; 6] in Hq; [exact Hq|].
  eapply loaded_inj; [|exact Hld]. repeat constructor.
Defined.

(** A read that waits once, for a writer that leaves two bytes. *)
Lemma pipe_read_spec_witness :
  ∃ r p, holds p [7; 8] ∧
    pipe_read true O_RDONLY 0 empty_pipe example_amem example_iov [Resumed p example_amem] = Ok r ∧
    r_out r = Returned 2 ∧ holds (r_pipe r) [].
Proof.
  set (p := Pipe 2 0 (7 :: 8 :: replicate 4094 0) 1 1).
  assert (Hp : holds p [7; 8]).
  { split; [lia|reflexivity|reflexivity|unfold in_u32; simpl; lia|reflexivity|simpl; lia|].
    intros [|[|i]] x Hx; [| |inversion Hx]; injection Hx as <-; reflexivity. }
  destruct (pipe_read_spec true O_RDONLY empty_pipe example_amem example_iov [Resumed p example_amem] [] eq_refl
    empty_pipe_holds) as (r&Hr&Hout); [|exact example_iov_ok|reflexivity|].
  { intros p' m' Hin. apply list_elem_of_singleton in Hin. injection Hin as -> ->. exists [7; 8]. exact Hp. }
  exists r, p. split; [exact Hp|]. split; [exact Hr|].
  assert (Ho : r_out r = Returned 2 ∧ Z.of_nat 2 = 4 - count (r_iov r)).
  { subst p. vm_compute in Hr. injection Hr as <-. done. }
  destruct Ho as [Ho Hc2]. split; [exact Ho|]. rewrite Ho in Hout. simpl in Hout.
  destruct Hout as [(_&Hi&_)|(pf&mf&qf&Hs&Hqf&_&k&Hk&Hq&(_&_&Hc&_)&_)].
  { rewrite Hi in Hc2. simpl in Hc2. lia. }
  simpl in Hc. assert (k = 2%nat) as -> by lia. destruct Hs as [[-> ->]|Hin].
  - rewrite (holds_inj _ _ _ Hqf empty_pipe_holds) in Hk. simpl in Hk. lia.
  - apply list_elem_of_singleton in Hin. injection Hin as -> ->.
    rewrite (holds_inj _ _ _ Hqf Hp) in Hq. exact Hq.
Defined.

(** ** Descriptors of a new pipe *)

(** The allocators return objects that are not in use. *)
Record fresh (a : allocs) (s : pstate) : Prop := {
  fresh_pipe : ∀ id, a_pipe a = Some id → pipes s !! id = None ∧ parts s !! id = None;
  fresh_inode : ∀ i, a_inode a = Some i → icounts s !! i = None;
  fresh_buffer : ∀ x b, a_buffer a = Some (x, b) → (x ∉ buffers s) ∧ Z.of_nat (length b) = 4096;
  fresh_r : ∀ r, a_rfile a = Some r → fstore_ s !! r = None ∧ ends s !! r = None;
  fresh_w : ∀ w, a_wfile a = Some w → fstore_ s !! w = None ∧ ends s !! w = None ∧ a_rfile a ≠ Some w;
}.

(** A successful [sys_pipe2]. *)
Definition pipe_made (flags : Z) (upipefd : Z) (fdt fdt' : fdtable) (s s' : pstate) (m m' : amem) : Prop :=
  ∃ fd0 fd1 id r w p i x,
    lowest_free fdt 0 fd0 ∧ fd0 < fd1 ∧ lowest_free fdt (fd0 + 1) fd1 ∧
    let ce := truth (Z.land flags O_CLOEXEC) in
    files fdt' = <[Z.to_nat fd1 := Some w]> (<[Z.to_nat fd0 := Some r]> (files fdt)) ∧
    (∀ i, 0 ≤ i < 64 →
      Z.testbit (bitmap fdt') i = (i =? fd0) || (i =? fd1) || Z.testbit (bitmap fdt) i ∧
      Z.testbit (cloexec fdt') i = if (i =? fd0) || (i =? fd1) then ce else Z.testbit (cloexec fdt) i) ∧
    fd_wf fdt' ∧
    pipes s !! id = None ∧ pipes s' = <[id := p]> (pipes s) ∧ holds p [] ∧ readers p = 1 ∧ writers p = 1 ∧
    parts s' = <[id := (Some i, Some x)]> (parts s) ∧ icounts s' = <[i := 1]> (icounts s) ∧ buffers s' = {[x]} ∪ buffers s ∧
    ends s' !! r = Some id ∧ ends s' !! w = Some id ∧ r ≠ w ∧
    (∃ f, fstore_ s' !! r = Some f ∧ f_count f = 1 ∧ FILE_READ (f_flags f) = true ∧ FILE_WRITE (f_flags f) = false) ∧
    (∃ f, fstore_ s' !! w = Some f ∧ f_count f = 1 ∧ FILE_READ (f_flags f) = false ∧ FILE_WRITE (f_flags f) = true) ∧
    bytes m' = puts (bytes m) (range upipefd 8) (int_bytes fd0 ++ int_bytes fd1).

Lemma end_flags acc flags :
  Z.land acc O_ACCMODE = acc →
  Z.land (Z.lor acc (Z.land flags O_NONBLOCK)) O_ACCMODE = acc.
Proof.
  intros Ha. rewrite Z.land_lor_distr_l, Ha, <-Z.land_assoc. change (Z.land O_NONBLOCK O_ACCMODE) with 0.
  by rewrite Z.land_0_r, Z.lor_0_r.
Qed.

(** The two descriptors taken by [sys_pipe2], and giving both back. *)
Lemma fd_alloc_two fdt :
  fd_wf fdt →
  (fd_alloc fdt = Ok (- EMFILE, fdt) ∧ none_free fdt 0) ∨
  ∃ fd0 fdt1, fd_alloc fdt = Ok (fd0, fdt1) ∧ lowest_free fdt 0 fd0 ∧
    ((fd_alloc fdt1 = Ok (- EMFILE, fdt1) ∧ fd_release fdt1 fd0 = Ok fdt ∧ none_free fdt (fd0 + 1)) ∨
     ∃ fd1 fdt2 fdt3, fd_alloc fdt1 = Ok (fd1, fdt2) ∧ fd0 < fd1 ∧ lowest_free fdt (fd0 + 1) fd1 ∧
       fd_release fdt2 fd0 = Ok fdt3 ∧ fd_release fdt3 fd1 = Ok fdt ∧
       fd_wf fdt2 ∧ files fdt2 = files fdt ∧ cloexec fdt2 = cloexec fdt ∧
       in_u64 (bitmap fdt2) ∧
       ∀ i, 0 ≤ i < 64 → Z.testbit (bitmap fdt2) i = (i =? fd0) || (i =? fd1) || Z.testbit (bitmap fdt) i).
Proof.
  intros Hwf. unfold fd_alloc.
  destruct (fd_alloc_from_spec fdt 0 Hwf) as [(fd0&fdt1&E0&(Hr0&Hc0&Hl0)&Hwf1&Hf1&Hce1&[Hb1 Hu1])|[E0 Hno]];
    [done| |by left].
  right. exists fd0, fdt1. split; [done|]. split; [done|].
  destruct (fd_alloc_from_spec fdt1 0 Hwf1) as [(fd1&fdt2&E1&(Hr1&Hc1&Hl1)&Hwf2&Hf2&Hce2&[Hb2 Hu2])|[E1 Hno]];
    [done| |left; split; [done|]; split; [by apply fd_release_undo|]].
  2: { intros j Hj. specialize (Hno j ltac:(lia)). rewrite Hu1 in Hno by lia.
    destruct (Z.eqb_spec j fd0); [lia|done]. }
  right. rewrite Hu1 in Hc1 by done. destruct (Z.eqb_spec fd1 fd0) as [|Hne]; [done|].
  assert (Hlt : fd0 < fd1).
  { destruct (decide (fd1 < fd0)); [|lia]. rewrite Hl0 in Hc1 by lia. done. }
  destruct (set_word fd1 (bitmap fdt)) as (w&_&[Hw Huw]); [done|apply Hwf|].
  set (B := Fdtable (files fdt) w (cloexec fdt)).
  assert (HwfB : fd_wf B).
  { destruct Hwf as [H1 H2 H3 H4 H5]. split; simpl; [done..| |].
    - intros fd p Hfd Hp. rewrite Huw by done. destruct (fd =? fd1); [done|]. by eapply H4.
    - intros fd Hfd Hp. rewrite Huw by done. destruct (fd =? fd1); [done|]. by apply H5. }
  exists fd1, fdt2, B. split; [done|]. split; [done|]. split; [split; [lia|split; [done|]]|].
  2: split; [|split; [|split; [done|split; [congruence|split; [congruence|split; [done|]]]]]].
  - intros j Hj. specialize (Hl1 j ltac:(lia)). rewrite Hu1 in Hl1 by lia.
    destruct (Z.eqb_spec j fd0); [lia|done].
  - apply fd_release_undo; [done|done| |by rewrite Hf2|by rewrite Hce2|].
    + simpl. rewrite Huw by done. by destruct (Z.eqb_spec fd0 fd1); [lia|].
    + split; [done|]. intros i Hi. simpl. rewrite Hu2, Hu1, Huw by done.
      by destruct (Z.eqb_spec i fd1), (Z.eqb_spec i fd0).
  - apply fd_release_undo; try done.
  - intros i Hi. rewrite Hu2, Hu1 by done. by destruct (i =? fd0), (i =? fd1).
Qed.

(** The stores with a new pipe and its two files. *)
Definition with_pipe (s : pstate) (id i x : positive) (p : pipe) (fs : fstore) (es : gmap positive positive) : pstate :=
  PState (<[id := p]> (pipes s)) es fs (<[id := (Some i, Some x)]> (parts s)) (<[i := 1]> (icounts s)) ({[x]} ∪ buffers s).

Lemma dec_last dbg : refcount_dec_and_test dbg [] 1 = Ok (true, 0).
Proof. by destruct dbg. Qed.

Lemma drop_buffer (x : positive) (B : gset positive) : (x ∉ B) → ({[x]} ∪ B) ∖ {[x]} = B.
Proof. intros Hx. apply set_eq. set_solver. Qed.

(** What [pipe_alloc] allocated is given back by the three calls at its end. *)
Lemma pipe_free_spec dbg s id i x p fs es :
  pipes s !! id = None → parts s !! id = None → icounts s !! i = None → (x ∉ buffers s) →
  pipe_free dbg (with_pipe s id i x p fs es) id = Ok (PState (pipes s) es fs (parts s) (icounts s) (buffers s)).
Proof.
  intros Hp Hpa Hi Hx. unfold pipe_free, iput_pipe, kfree_buffer, kfree_pipe, with_pipe. cbn [parts icounts].
  rewrite lookup_insert_eq. cbn [deref res_bind]. rewrite lookup_insert_eq. cbn [deref res_bind].
  rewrite dec_last. cbn [res_bind pipes ends fstore_ parts icounts buffers].
  rewrite decide_True by set_solver. cbn [res_bind pipes ends fstore_ parts icounts buffers].
  rewrite lookup_insert_eq. cbn [deref res_bind]. by rewrite !delete_insert_id, drop_buffer.
Qed.

(** The same when the buffer was not allocated. *)
Lemma pipe_free_no_buffer dbg s id i p :
  pipes s !! id = None → parts s !! id = None → icounts s !! i = None →
  pipe_free dbg (PState (<[id := p]> (pipes s)) (ends s) (fstore_ s) (<[id := (Some i, None)]> (parts s)) (<[i := 1]> (icounts s)) (buffers s)) id = Ok s.
Proof.
  intros Hp Hpa Hi. unfold pipe_free, iput_pipe, kfree_buffer, kfree_pipe. cbn [parts icounts].
  rewrite lookup_insert_eq. cbn [deref res_bind]. rewrite lookup_insert_eq. cbn [deref res_bind].
  rewrite dec_last. cbn [res_bind pipes ends fstore_ parts icounts buffers].
  rewrite lookup_insert_eq. cbn [deref res_bind]. rewrite !delete_insert_id by done. by destruct s.
Qed.

Lemma pipe_file_with f flags s id i x p fs es :
  pipe_file (Some f) flags (with_pipe s id i x p fs es) id =
  Ok (Some f, with_pipe s id i x p (<[f := File 1 flags]> fs) (<[f := id]> es)).
Proof.
  unfold pipe_file, with_pipe. cbn [pipes ends fstore_ parts icounts buffers]. rewrite lookup_insert_eq. cbn [deref res_bind].
  rewrite lookup_insert_eq. done.
Qed.

Lemma kfree_file_with f file s id i x p fs es :
  fs !! f = None → es !! f = None →
  kfree_file (with_pipe s id i x p (<[f := file]> fs) (<[f := id]> es)) f = Ok (with_pipe s id i x p fs es).
Proof.
  intros Hf He. unfold kfree_file, with_pipe. cbn [pipes ends fstore_ parts icounts buffers].
  rewrite lookup_insert_eq. cbn [deref res_bind]. by rewrite !delete_insert_id.
Qed.

Definition rend (flags : Z) : file := File 1 (Z.lor O_RDONLY (Z.land flags O_NONBLOCK)).
Definition wend (flags : Z) : file := File 1 (Z.lor O_WRONLY (Z.land flags O_NONBLOCK)).

(** Every exit of [pipe_alloc]: the pipe with its two files, a NULL dereference when
    there is no inode, and otherwise an error that leaves nothing behind. *)
Lemma pipe_alloc_spec dbg a flags s :
  fresh a s →
  pipe_alloc dbg a flags s =
    match a_pipe a, a_inode a with
    | None, _ => Ok (- ENOMEM, None, None, s)
    | Some _, None => Fault
    | Some id, Some i =>
        match a_buffer a, a_rfile a, a_wfile a with
        | Some (x, b), Some r, Some w => Ok (0, Some r, Some w,
            with_pipe s id i x (Pipe 0 0 b 1 1) (<[w := wend flags]> (<[r := rend flags]> (fstore_ s))) (<[w := id]> (<[r := id]> (ends s))))
        | _, _, _ => Ok (- ENOMEM, None, None, s)
        end
    end.
Proof.
  intros [Hp Hi Hb Hr Hw]. unfold pipe_alloc. destruct (a_pipe a) as [id|]; [|done].
  destruct (Hp id eq_refl) as [Hp1 Hp2]. destruct (a_inode a) as [i|]; [|done]. specialize (Hi i eq_refl).
  unfold set_parts, set_pipe. cbn [pipes ends fstore_ parts icounts buffers deref res_bind].
  destruct (a_buffer a) as [[x b]|]; cbn [fst fmap option_fmap option_map pipes ends fstore_ parts icounts buffers]; rewrite !insert_insert_eq.
  2: { by rewrite pipe_free_no_buffer. }
  destruct (Hb x b eq_refl) as [Hx _].
  assert (Hfree : ∀ p, pipe_free dbg (with_pipe s id i x p (fstore_ s) (ends s)) id = Ok s).
  { intros p. rewrite pipe_free_spec by done. by destruct s. }
  cbn [pipes ends fstore_ parts icounts buffers].
  fold (with_pipe s id i x (Pipe 0 0 b 1 1) (fstore_ s) (ends s)).
  destruct (a_rfile a) as [r|].
  2: { cbn [pipe_file res_bind]. by rewrite Hfree. }
  destruct (Hr r eq_refl) as [Hr1 Hr2].
  rewrite pipe_file_with. cbn [res_bind]. destruct (a_wfile a) as [w|].
  - by rewrite pipe_file_with.
  - cbn [pipe_file res_bind]. rewrite kfree_file_with by done. cbn [res_bind]. by rewrite Hfree.
Qed.

(** The last [fput] of an end whose pipe then is [p']. *)
Lemma fput_with dbg s id i x p p' f file fs es :
  f_count file = 1 →
  p' = (if FILE_READ (f_flags file)
        then Pipe (head p) (tail p) (buffer p) (u32 (readers p - 1)) (writers p)
        else Pipe (head p) (tail p) (buffer p) (readers p) (u32 (writers p - 1))) →
  let s' := with_pipe s id i x p' (<[f := file]> fs) (<[f := id]> es) in
  fput_end dbg (with_pipe s id i x p (<[f := file]> fs) (<[f := id]> es)) (Some f) =
    let! s1 := if negb (truth (readers p')) && negb (truth (writers p')) then pipe_free dbg s' id else Ok s' in
    kfree_file s1 f.
Proof.
  intros Hc Hp s'. set (s0 := with_pipe s id i x p _ _).
  assert (Hf : fstore_ s0 !! f = Some file) by apply lookup_insert_eq.
  assert (He : ends s0 !! f = Some id) by apply lookup_insert_eq.
  assert (Hi : pipes s0 !! id = Some p) by apply lookup_insert_eq.
  assert (Hs : set_pipe s0 id p' = s') by (unfold set_pipe, s0, s', with_pipe; cbn [pipes ends fstore_ parts icounts buffers]; by rewrite insert_insert_eq).
  unfold fput_end, pipe_release. rewrite Hf. cbn [deref res_bind]. rewrite Hc, dec_last. cbn [res_bind negb].
  rewrite He. cbn [deref res_bind]. rewrite Hi. cbn [deref res_bind]. rewrite <-Hp, Hs.
  destruct (if negb (truth (readers p')) && negb (truth (writers p')) then pipe_free dbg s' id else Ok s'); done.
Qed.

(** Dropping both ends of a pipe nobody used leaves nothing behind. *)
Lemma fput_both dbg flags s id i x r w b :
  pipes s !! id = None → parts s !! id = None → icounts s !! i = None → (x ∉ buffers s) →
  fstore_ s !! r = None → ends s !! r = None → fstore_ s !! w = None → ends s !! w = None → r ≠ w →
  (let! s1 := fput_end dbg (with_pipe s id i x (Pipe 0 0 b 1 1) (<[w := wend flags]> (<[r := rend flags]> (fstore_ s))) (<[w := id]> (<[r := id]> (ends s)))) (Some w) in
   fput_end dbg s1 (Some r)) = Ok s.
Proof.
  intros Hp Hpa Hi Hx Hr1 Hr2 Hw1 Hw2 Hrw.
  assert (HR : FILE_READ (f_flags (wend flags)) = false) by (unfold FILE_READ; cbn; by rewrite (end_flags O_WRONLY)).
  assert (HW : FILE_READ (f_flags (rend flags)) = true) by (unfold FILE_READ; cbn; by rewrite (end_flags O_RDONLY)).
  rewrite (fput_with dbg s id i x _ (Pipe 0 0 b 1 0)) by (try done; by rewrite HR).
  cbn zeta. cbn [readers writers]. change (negb (truth 1) && negb (truth 0)) with false. cbn [res_bind].
  rewrite kfree_file_with by (by rewrite lookup_insert_ne). cbn [res_bind].
  rewrite (fput_with dbg s id i x _ (Pipe 0 0 b 0 0)) by (try done; by rewrite HW).
  cbn zeta. cbn [readers writers]. change (negb (truth 0) && negb (truth 0)) with true. cbn [res_bind]. rewrite pipe_free_spec by done. cbn [res_bind].
  unfold kfree_file. cbn [pipes ends fstore_ parts icounts buffers]. rewrite lookup_insert_eq. cbn [deref res_bind].
  rewrite !delete_insert_id by done. by destruct s.
Qed.

Lemma copy_to_user_spec m has_mm dst data missing m' :
  (0 < length data)%nat → 0 ≤ dst < 2 ^ 64 → copy_to_user m has_mm dst data = (missing, m') →
  missing = O → bytes m' = puts (bytes m) (range dst (length data)) data.
Proof.
  intros Hd Hdst E ->. assert (Hp : put_piece has_mm m true dst data = Ok (O, m')) by (unfold put_piece; by rewrite E).
  apply put_piece_spec in Hp as (_&_&Hb&_); [|done..].
  by rewrite Nat.sub_0_r, firstn_all, take_ge in Hb by (rewrite range_length; lia).
Qed.

Lemma new_pipe_holds b r w : Z.of_nat (length b) = 4096 → holds (Pipe 0 0 b r w) [].
Proof. intros Hb. split; simpl; [lia|done|done|unfold in_u32; lia|done|lia|done]. Qed.

#[local] Arguments copy_to_user : simpl never.
#[local] Arguments fput_end : simpl never.

Definition bad_flags (flags : Z) : bool := truth (Z.land flags (not32 (Z.lor O_CLOEXEC O_NONBLOCK))).
Definition two_free (fdt : fdtable) : Prop :=
  ∃ fd0 fd1, lowest_free fdt 0 fd0 ∧ fd0 < fd1 ∧ lowest_free fdt (fd0 + 1) fd1.

(** When a call fails, and with what. *)
Inductive pipe2_fails (has_mm : bool) (a : allocs) (flags upipefd : Z) (fdt : fdtable) (m : amem) : Z → Prop :=
  | fails_flags : bad_flags flags = true → pipe2_fails has_mm a flags upipefd fdt m (- EINVAL)
  | fails_fds : bad_flags flags = false → ¬ two_free fdt → pipe2_fails has_mm a flags upipefd fdt m (- EMFILE)
  | fails_memory :
      bad_flags flags = false → two_free fdt →
      a_pipe a = None ∨ a_inode a ≠ None ∧ (a_buffer a = None ∨ a_rfile a = None ∨ a_wfile a = None) →
      pipe2_fails has_mm a flags upipefd fdt m (- ENOMEM)
  | fails_copy :
      bad_flags flags = false → two_free fdt → a_pipe a ≠ None → a_inode a ≠ None →
      a_buffer a ≠ None → a_rfile a ≠ None → a_wfile a ≠ None →
      ¬ Forall (ok_store has_mm m true) (range upipefd 8) → pipe2_fails has_mm a flags upipefd fdt m (- EFAULT).

Lemma one_free fdt fd0 : lowest_free fdt 0 fd0 → none_free fdt (fd0 + 1) → ¬ two_free fdt.
Proof.
  intros (Hr&Hc&Hl) Hno (x&y&(Hxr&Hxc&Hxl)&Hlt&(Hyr&Hyc&_)).
  assert (x = fd0) as ->.
  { destruct (decide (x < fd0)); [rewrite Hl in Hxc by lia; done|]. destruct (decide (fd0 < x)); [rewrite Hxl in Hc by lia; done|lia]. }
  rewrite Hno in Hyc by lia. done.
Qed.

Lemma no_free fdt : none_free fdt 0 → ¬ two_free fdt.
Proof. intros Hno (x&y&(Hxr&Hxc&_)&_). rewrite Hno in Hxc by lia. done. Qed.

Lemma copy_missing m has_mm dst data missing m' :
  (0 < length data)%nat → 0 ≤ dst < 2 ^ 64 → copy_to_user m has_mm dst data = (missing, m') →
  missing ≠ O → ¬ Forall (ok_store has_mm m true) (range dst (length data)).
Proof.
  intros Hd Hdst E Hne Hall. assert (Hp : put_piece has_mm m true dst data = Ok (missing, m')) by (unfold put_piece; by rewrite E).
  apply put_piece_spec in Hp as (_&_&_&_&Hm); [|done..]. auto.
Qed.

(** C35: [sys_pipe2] either installs both ends of a new, empty pipe on the two
    lowest free descriptors (read end first, with the requested close-on-exec
    flags) and reports them to user memory, or fails: with [-EINVAL] for other
    flags, [-EMFILE] when no two descriptors are free, [-ENOMEM] when an
    allocation fails, [-EFAULT] when the numbers cannot be stored.  A failure
    leaves no trace: both descriptors are free again, and the pipe, its inode, its
    buffer and its files that were allocated by then are freed, each once, so that
    the table and the stores are what they were.  One failure is not handled: with
    no memory for the inode the call dereferences NULL. *)
Theorem sys_pipe2_spec dbg has_mm a upipefd arg1 fdt s m :
  fd_wf fdt → fresh a s → 0 ≤ upipefd < 2 ^ 64 →
  if decide (bad_flags (u32 arg1) = false ∧ a_pipe a ≠ None ∧ a_inode a = None) then
    two_free fdt ∧ sys_pipe2 dbg has_mm a upipefd arg1 fdt s m = Fault ∨
    ¬ two_free fdt ∧ sys_pipe2 dbg has_mm a upipefd arg1 fdt s m = Ok (- EMFILE, fdt, s, m)
  else
    ∃ ret fdt' s' m', sys_pipe2 dbg has_mm a upipefd arg1 fdt s m = Ok (ret, fdt', s', m') ∧
      ((ret = 0 ∧ bad_flags (u32 arg1) = false ∧ pipe_made (u32 arg1) upipefd fdt fdt' s s' m m') ∨
       (pipe2_fails has_mm a (u32 arg1) upipefd fdt m ret ∧ fdt' = fdt ∧ s' = s ∧ (ret ≠ - EFAULT → m' = m))).
Proof.
  intros Hwf Hfr Hup. unfold sys_pipe2. set (flags := u32 arg1). fold (bad_flags flags).
  destruct (bad_flags flags) eqn:Hbad.
  { rewrite decide_False by naive_solver. do 4 eexists. split; [done|]. right. split; [by apply fails_flags|done]. }
  destruct (fd_alloc_two fdt Hwf) as [[E Hno]|(fd0&fdt1&E&Hlow0&[(E1&Er&Hno)|(fd1&fdt2&fdt3&E1&Hlt&Hlow1&R0&R1&Hwf2&Hf2&Hc2&Hb2&Hu2)])];
    rewrite E; simpl.
  { pose proof (no_free _ Hno). case_decide; [by right|]. do 4 eexists. split; [done|]. right. split; [by apply fails_fds|done]. }
  { pose proof Hlow0 as [? _]. replace (fd0 <? 0) with false by lia. rewrite E1. simpl. rewrite Er. simpl.
    pose proof (one_free _ _ Hlow0 Hno). case_decide; [by right|]. do 4 eexists. split; [done|]. right. split; [by apply fails_fds|done]. }
  pose proof Hlow0 as (Hr0&Hc0&_). pose proof Hlow1 as (Hr1&Hc1&_).
  assert (Htwo : two_free fdt) by (by exists fd0, fd1).
  replace (fd0 <? 0) with false by lia. rewrite E1. simpl. replace (fd1 <? 0) with false by lia.
  rewrite pipe_alloc_spec by done.
  destruct (decide (a_pipe a = None ∨ a_inode a ≠ None ∧ (a_buffer a = None ∨ a_rfile a = None ∨ a_wfile a = None))) as [Hmem|Hmem].
  { rewrite decide_False by naive_solver. exists (- ENOMEM), fdt, s, m. split; [|right; split; [by apply fails_memory|done]].
    replace (match a_pipe a with Some _ => _ | None => _ end) with (Ok (- ENOMEM, None, None, s) : res (Z * fptr * fptr * pstate)).
    - cbn [res_bind]. change (truth (- ENOMEM)) with true. rewrite R0. cbn [res_bind]. by rewrite R1.
    - destruct (a_pipe a), (a_inode a), (a_buffer a) as [[??]|], (a_rfile a), (a_wfile a); naive_solver. }
  destruct (a_pipe a) as [id|] eqn:Ep; [|naive_solver]. destruct (a_inode a) as [i|] eqn:Ei.
  2: { rewrite decide_True by done. by left. }
  rewrite decide_False by naive_solver.
  destruct (a_buffer a) as [[x b]|] eqn:Eb; [|naive_solver]. destruct (a_rfile a) as [r|] eqn:Er; [|naive_solver].
  destruct (a_wfile a) as [w|] eqn:Ew; [|naive_solver].
  pose proof Hfr as [Hfp Hfi Hfb' Hfr1 Hfw]. destruct (Hfp _ Ep) as [Hp1 Hp2]. specialize (Hfi _ Ei). destruct (Hfb' _ _ Eb) as [Hx Hlen].
  destruct (Hfr1 _ Er) as [Hr1' Hr2']. destruct (Hfw _ Ew) as (Hw1&Hw2&Hne). assert (Hrw : r ≠ w) by congruence.
  pose proof (fput_both dbg flags s id i x r w b Hp1 Hp2 Hfi Hx Hr1' Hr2' Hw1 Hw2 Hrw) as Hboth.
  set (s' := with_pipe _ _ _ _ _ _ _) in *. cbn [res_bind]. change (truth 0) with false. cbv iota.
  destruct (copy_to_user m has_mm upipefd _) as [missing m'] eqn:Ec. case_decide as Hmiss.
  { rewrite R0. cbn [res_bind]. rewrite R1. cbn [res_bind].
    destruct (fput_end dbg s' (Some w)) as [s1| | |]; cbn [res_bind] in *; try done. rewrite Hboth.
    do 4 eexists. split; [done|]. right. split; [|done]. apply fails_copy; [done|done|congruence..|].
    refine (copy_missing m has_mm upipefd _ missing m' _ Hup Ec Hmiss). simpl. lia. }
  destruct (fd_replace_table fdt2 fd0 r (truth (Z.land flags O_CLOEXEC))) as (o1&ft1&Ho1&->&Has1&Hwf3); [done|lia|].
  simpl. destruct (fd_replace_table ft1 fd1 w (truth (Z.land flags O_CLOEXEC))) as (o2&ft2&Ho2&->&Has2&Hwf4); [done|lia|].
  simpl. do 4 eexists. split; [done|]. left. split; [done|]. split; [done|].
  apply copy_to_user_spec in Ec; [|simpl; lia|done|lia].
  destruct Has1 as (Hfa&[_ Hba]&[_ Hca]). destruct Has2 as (Hfb&[_ Hbb]&[_ Hcb]).
  exists fd0, fd1, id, r, w, (Pipe 0 0 b 1 1), i, x.
  split; [done|]. split; [done|]. split; [done|]. cbn zeta. split; [by rewrite Hfb, Hfa, Hf2|].
  split.
  { intros k Hk. rewrite Hbb, Hba, Hu2, Hcb, Hca, Hc2 by done.
    by destruct (k =? fd1), (k =? fd0), (Z.testbit (bitmap fdt) k). }
  split; [done|]. split; [done|]. split; [done|]. split; [by apply new_pipe_holds|].
  split; [done|]. split; [done|]. split; [done|]. split; [done|]. split; [done|]. unfold s'. cbn [with_pipe ends fstore_].
  split; [by rewrite lookup_insert_ne, lookup_insert_eq|]. split; [by rewrite lookup_insert_eq|].
  split; [done|]. split; [|split; [|exact Ec]].
  - rewrite lookup_insert_ne, lookup_insert_eq by done. eexists. split; [done|].
    unfold FILE_READ, FILE_WRITE, rend. cbn [f_flags f_count]. by rewrite !end_flags.
  - rewrite lookup_insert_eq. eexists. split; [done|].
    unfold FILE_READ, FILE_WRITE, wend. cbn [f_flags f_count]. by rewrite !end_flags.
Qed.

(** A pipe made by a process with three open files; and the call
    whose inode is not allocated. *)
Definition example_allocs (inode : option positive) : allocs :=
  Allocs (Some 1%positive) inode (Some (1%positive, replicate 4096 0)) (Some 1%positive) (Some 2%positive).
Definition no_pipes : pstate := PState ∅ ∅ ∅ ∅ ∅ ∅.
Definition three_open : fdtable := Fdtable (replicate 64 None) 7 0.

Lemma three_open_wf : fd_wf three_open.
Proof.
  split; [reflexivity|unfold in_u64; simpl; lia..| |].
  - intros fd p Hfd Hp. cbn [three_open files] in Hp. apply lookup_replicate in Hp as [Hp _]. discriminate.
  - intros fd Hfd. simpl. by rewrite Z.bits_0.
Qed.

Lemma example_fresh inode : fresh (example_allocs inode) no_pipes.
Proof. split; cbn; [done|done|by intros x b [= <- <-]|done|by intros w [= <-]]. Qed.

Lemma sys_pipe2_spec_witness :
  (∃ ret fdt' s' m',
    sys_pipe2 false true (example_allocs (Some 1%positive)) 0x10000 O_CLOEXEC three_open no_pipes example_amem = Ok (ret, fdt', s', m') ∧
    ret = 0 ∧ pipe_made O_CLOEXEC 0x10000 three_open fdt' no_pipes s' example_amem m') ∧
  sys_pipe2 false true (example_allocs None) 0x10000 O_CLOEXEC three_open no_pipes example_amem = Fault.
Proof.
  split.
  - pose proof (sys_pipe2_spec false true (example_allocs (Some 1%positive)) 0x10000 O_CLOEXEC three_open no_pipes example_amem
      three_open_wf (example_fresh _) ltac:(lia)) as H.
    rewrite decide_False in H by (intros (_&_&?); discriminate). destruct H as (ret&fdt'&s'&m'&E&Hcase).
    exists ret, fdt', s', m'. split; [exact E|].
    assert (Hret : ret = 0) by (vm_compute in E; congruence). split; [exact Hret|].
    destruct Hcase as [(_&_&Hm)|[Hf _]]; [exact Hm|]. exfalso. rewrite Hret in Hf. inversion Hf.
  - pose proof (sys_pipe2_spec false true (example_allocs None) 0x10000 O_CLOEXEC three_open no_pipes example_amem
      three_open_wf (example_fresh _) ltac:(lia)) as H.
    rewrite decide_True in H by done. destruct H as [[_ H]|[_ H]]; [exact H|]. vm_compute in H. discriminate H.
Defined.
