(* ===== verification/Rbtree.v ===== *)
(** * Red-black trees: [lib/rbtree.c], [include/nuvix/rbtree.h]

    Nodes live in a heap from addresses to records with parent, left and right
    pointers, as in C; a root pointer designates the tree.  Every operation is
    the sequence of pointer loads and stores of the source, faulting on NULL
    and on absent nodes.  Code the source writes twice, once per side, is
    written once here with the side as an argument.

    The proofs relate a heap to a pure tree through a cursor: a subtree and the
    path of frames from it to the root.  Each pointer operation has one lemma
    that says how it moves the cursor; the loops are inductions on the path. *)
From stdpp Require Import base tactics numbers list gmap.
From S2P Require Import Prelude.

Abbreviation ptr := (option positive).

Record rb_node := Node {
  rb_parent : ptr;
  rb_left : ptr;
  rb_right : ptr;
  rb_red : bool;
}.

(** The heap of nodes and [root->rb_node]. *)
Record rb := Rb { nodes : gmap positive rb_node; root : ptr }.

Inductive dir := L | R.
#[global] Instance dir_eq_dec : EqDecision dir.
Proof. solve_decision. Defined.
Definition opp (d : dir) : dir := match d with L => R | R => L end.

Definition child (d : dir) (n : rb_node) : ptr := match d with L => rb_left n | R => rb_right n end.
Definition with_child (d : dir) (c : ptr) (n : rb_node) : rb_node :=
  match d with
  | L => Node (rb_parent n) c (rb_right n) (rb_red n)
  | R => Node (rb_parent n) (rb_left n) c (rb_red n)
  end.
Definition with_parent (p : ptr) (n : rb_node) : rb_node := Node p (rb_left n) (rb_right n) (rb_red n).
Definition with_red (c : bool) (n : rb_node) : rb_node := Node (rb_parent n) (rb_left n) (rb_right n) c.

(** ** Loads and stores *)

Definition load (s : rb) (p : ptr) : res rb_node := deref (p ≫= λ i, nodes s !! i).
Definition store (s : rb) (p : ptr) (f : rb_node → rb_node) : res rb :=
  let! i := deref p in
  let! n := deref (nodes s !! i) in
  Ok (Rb (<[i := f n]> (nodes s)) (root s)).
Definition set_child (d : dir) (s : rb) (p c : ptr) : res rb := store s p (with_child d c).
Definition set_parent (s : rb) (p q : ptr) : res rb := store s p (with_parent q).
Definition set_red (s : rb) (p : ptr) (c : bool) : res rb := store s p (with_red c).

(** [RB_EMPTY_NODE] and [RB_CLEAR_NODE]. *)
Definition RB_EMPTY_NODE (s : rb) (p : ptr) : res bool :=
  let! n := load s p in Ok (bool_decide (rb_parent n = p)).
Definition RB_CLEAR_NODE (s : rb) (p : ptr) : res rb := set_parent s p p.

Definition rb_is_red (s : rb) (p : ptr) : res bool :=
  match p with
  | None => Ok false
  | Some _ => let! n := load s p in Ok (rb_red n)
  end.

(** ** Structure changes *)

Definition rb_change_child (s : rb) (old new parent : ptr) : res rb :=
  let! s :=
    match parent with
    | None => Ok (Rb (nodes s) new)
    | Some _ =>
        let! p := load s parent in
        if decide (rb_left p = old) then set_child L s parent new else set_child R s parent new
    end in
  match new with None => Ok s | Some _ => set_parent s new parent end.

(** [rb_rotate_left] is [rb_rotate L], [rb_rotate_right] is [rb_rotate R]. *)
Definition rb_rotate (d : dir) (s : rb) (node : ptr) : res rb :=
  let! n := load s node in
  let next := child (opp d) n in
  let! x := load s next in
  let! s := set_child (opp d) s node (child d x) in
  let! s := match child d x with None => Ok s | Some _ => set_parent s (child d x) node end in
  let! n := load s node in
  let! s := rb_change_child s node next (rb_parent n) in
  let! s := set_child d s next node in
  set_parent s node next.

(** The link [rb_link_node] stores through: [&parent->rb_left],
    [&parent->rb_right], or [&root->rb_node]. *)
Definition set_link (s : rb) (parent : ptr) (d : dir) (node : ptr) : res rb :=
  match parent with
  | None => Ok (Rb (nodes s) node)
  | Some _ => set_child d s parent node
  end.

Definition rb_link_node (s : rb) (node parent : ptr) (d : dir) : res rb :=
  let! s := set_parent s node parent in
  let! s := set_child R s node None in
  let! s := set_child L s node None in
  let! s := set_red s node true in
  set_link s parent d node.

(** One side of the body of [rb_insert_color]: [parent] is the [d] child of
    [grand].  Returns the node the loop goes on with. *)
Definition insert_side (d : dir) (s : rb) (node parent grand : ptr) : res (rb * ptr) :=
  let! g := load s grand in
  let uncle := child (opp d) g in
  let! ured := rb_is_red s uncle in
  if ured then
    let! s := set_red s parent false in
    let! s := set_red s uncle false in
    let! s := set_red s grand true in
    Ok (s, grand)
  else
    let! p := load s parent in
    let! (s, node, parent) :=
      if decide (node = child (opp d) p) then
        let node := parent in
        let! s := rb_rotate d s node in
        let! n := load s node in
        Ok (s, node, rb_parent n)
      else Ok (s, node, parent) in
    let! s := set_red s parent false in
    let! s := set_red s grand true in
    let! s := rb_rotate (opp d) s grand in
    Ok (s, node).

Fixpoint insert_loop (fuel : nat) (s : rb) (node : ptr) : res rb :=
  let! n := load s node in
  let! pred := rb_is_red s (rb_parent n) in
  if pred then
    match fuel with
    | O => Loop
    | S fuel' =>
        let parent := rb_parent n in
        let! p := load s parent in
        let grand := rb_parent p in
        let! g := load s grand in
        let! (s, node) := insert_side (if decide (parent = rb_left g) then L else R) s node parent grand in
        insert_loop fuel' s node
    end
  else Ok s.

Definition rb_insert_color (s : rb) (node : ptr) : res rb :=
  let! s := insert_loop (S (size (nodes s))) s node in
  set_red s (root s) false.

(** One side of the body of [rb_erase_fixup], from a black [sibling] on.
    [inl] goes on with a new node and parent, [inr] breaks. *)
Definition erase_black (d : dir) (s : rb) (parent sibling : ptr) : res (rb * (ptr * ptr + ())) :=
  let! w := load s sibling in
  let! lred := rb_is_red s (rb_left w) in
  let! rred := rb_is_red s (rb_right w) in
  if negb lred && negb rred then
    let! s := set_red s sibling true in
    let! p := load s parent in
    Ok (s, inl (parent, rb_parent p))
  else
    let! fred := rb_is_red s (child (opp d) w) in
    let! (s, sibling) :=
      if negb fred then
        let! s := set_red s (child d w) false in
        let! s := set_red s sibling true in
        let! s := rb_rotate (opp d) s sibling in
        let! p := load s parent in
        Ok (s, child (opp d) p)
      else Ok (s, sibling) in
    let! p := load s parent in
    let! s := set_red s sibling (rb_red p) in
    let! s := set_red s parent false in
    let! w := load s sibling in
    let! s := set_red s (child (opp d) w) false in
    let! s := rb_rotate d s parent in
    Ok (s, inr ()).

(** The whole side: [node] is the [d] child of [parent]. *)
Definition erase_side (d : dir) (s : rb) (parent : ptr) : res (rb * (ptr * ptr + ())) :=
  let! p := load s parent in
  let sibling := child (opp d) p in
  let! sred := rb_is_red s sibling in
  let! (s, sibling) :=
    if sred then
      let! s := set_red s sibling false in
      let! s := set_red s parent true in
      let! s := rb_rotate d s parent in
      let! p := load s parent in
      Ok (s, child (opp d) p)
    else Ok (s, sibling) in
  erase_black d s parent sibling.

Fixpoint fixup_loop (fuel : nat) (s : rb) (node parent : ptr) : res (rb * ptr) :=
  let! nred := rb_is_red s node in
  if negb (bool_decide (node = root s)) && negb nred then
    match fuel with
    | O => Loop
    | S fuel' =>
        let! p := load s parent in
        let! (s, next) := erase_side (if decide (node = rb_left p) then L else R) s parent in
        match next with
        | inl (node, parent) => fixup_loop fuel' s node parent
        | inr _ => Ok (s, root s)
        end
    end
  else Ok (s, node).

Definition rb_erase_fixup (s : rb) (node parent : ptr) : res rb :=
  let! (s, node) := fixup_loop (S (size (nodes s))) s node parent in
  match node with None => Ok s | Some _ => set_red s node false end.

(** [while (node->rb_left) node = node->rb_left;] and its mirror image. *)
Fixpoint descend (d : dir) (fuel : nat) (s : rb) (p : ptr) : res ptr :=
  let! n := load s p in
  match child d n with
  | None => Ok p
  | c => match fuel with O => Loop | S fuel' => descend d fuel' s c end
  end.

(** The part of [rb_erase] that takes the node out: the new heap, the colour
    that left the tree, [child] and [parent]. *)
Definition rb_unlink (s : rb) (node : ptr) : res (rb * bool * ptr * ptr) :=
  let! n := load s node in
  match rb_left n, rb_right n with
  | None, ch | ch, None =>
      let! s := rb_change_child s node ch (rb_parent n) in
      Ok (s, rb_red n, ch, rb_parent n)
  | Some _, rgt =>
      let! succ := descend L (size (nodes s)) s rgt in
      let! y := load s succ in
      let ch := rb_right y in
      let! (s, parent) :=
        if decide (rb_parent y = node) then
          let! s := match ch with None => Ok s | Some _ => set_parent s ch succ end in
          Ok (s, succ)
        else
          let! s := rb_change_child s succ ch (rb_parent y) in
          let! n := load s node in
          let! s := set_child R s succ (rb_right n) in
          let! s := set_parent s (rb_right n) succ in
          Ok (s, rb_parent y) in
      let! n := load s node in
      let! s := rb_change_child s node succ (rb_parent n) in
      let! n := load s node in
      let! s := set_child L s succ (rb_left n) in
      let! s := set_parent s (rb_left n) succ in
      let! s := set_red s succ (rb_red n) in
      Ok (s, rb_red y, ch, parent)
  end.

Definition rb_erase (s : rb) (node : ptr) : res rb :=
  let! (s, red, ch, parent) := rb_unlink s node in
  let! s := if red then Ok s else rb_erase_fixup s ch parent in
  let! s := set_child R s node None in
  let! s := set_child L s node None in
  let! s := set_red s node false in
  RB_CLEAR_NODE s node.

(** ** Traversal *)

Definition rb_end (d : dir) (s : rb) : res ptr :=
  match root s with None => Ok None | r => descend d (size (nodes s)) s r end.
Definition rb_first (s : rb) : res ptr := rb_end L s.
Definition rb_last (s : rb) : res ptr := rb_end R s.

(** [while ((parent = node->rb_parent) && node == parent->rb_right) node = parent;] *)
Fixpoint climb (d : dir) (fuel : nat) (s : rb) (node : ptr) : res ptr :=
  let! n := load s node in
  match rb_parent n with
  | None => Ok None
  | parent =>
      let! p := load s parent in
      if decide (node = child d p) then
        match fuel with O => Loop | S fuel' => climb d fuel' s parent end
      else Ok parent
  end.

(** [rb_next] is [rb_step R], [rb_prev] is [rb_step L]. *)
Definition rb_step (d : dir) (s : rb) (node : ptr) : res ptr :=
  match node with
  | None => Ok None
  | Some _ =>
      let! empty := RB_EMPTY_NODE s node in
      if empty then Ok None else
      let! n := load s node in
      match child d n with
      | None => climb d (size (nodes s)) s node
      | c => descend (opp d) (size (nodes s)) s c
      end
  end.
Definition rb_next (s : rb) (node : ptr) : res ptr := rb_step R s node.
Definition rb_prev (s : rb) (node : ptr) : res ptr := rb_step L s node.

(** ** Pure trees and cursors *)

Inductive tree := E | T (c : bool) (l : tree) (x : positive) (r : tree).
#[global] Instance tree_eq_dec : EqDecision tree.
Proof. solve_decision. Defined.

Fixpoint inorder (t : tree) : list positive :=
  match t with E => [] | T _ l x r => inorder l ++ x :: inorder r end.
Abbreviation ids := inorder.
Definition rid (t : tree) : ptr := match t with E => None | T _ _ x _ => Some x end.
Definition isred (t : tree) : bool := match t with T true _ _ _ => true | _ => false end.

(** The node with [a] on its [d] side and [b] on the other. *)
Definition mk (d : dir) (c : bool) (a : tree) (x : positive) (b : tree) : tree :=
  match d with L => T c a x b | R => T c b x a end.

(** A step of the path to the root: on side [fd] of node [fx] hangs the cursor,
    on the other side [fs]. *)
#[global] Arguments mk : simpl never.
Record frame := F { fd : dir; fc : bool; fx : positive; fs : tree }.

Definition fill1 (f : frame) (t : tree) : tree := mk (fd f) (fc f) t (fx f) (fs f).
Fixpoint fill (path : list frame) (t : tree) : tree :=
  match path with [] => t | f :: path => fill path (fill1 f t) end.
Definition pid (path : list frame) : ptr := match path with [] => None | f :: _ => Some (fx f) end.
Fixpoint pids (path : list frame) : list positive :=
  match path with [] => [] | f :: path => fx f :: ids (fs f) ++ pids path end.

Fixpoint height (t : tree) : nat :=
  match t with E => 0 | T _ l _ r => S (Nat.max (height l) (height r)) end.

(** ** Representation *)

Section rep.
Context (h : gmap positive rb_node).

Fixpoint tree_at (p : ptr) (t : tree) : Prop :=
  match t with
  | E => True
  | T c l x r => h !! x = Some (Node p (rid l) (rid r) c) ∧ tree_at (Some x) l ∧ tree_at (Some x) r
  end.

Definition mk_node (d : dir) (p a b : ptr) (c : bool) : rb_node :=
  match d with L => Node p a b c | R => Node p b a c end.

Fixpoint ctx_at (rt c : ptr) (path : list frame) : Prop :=
  match path with
  | [] => rt = c
  | f :: path =>
      h !! fx f = Some (mk_node (fd f) (pid path) c (rid (fs f)) (fc f)) ∧
      tree_at (Some (fx f)) (fs f) ∧ ctx_at rt (Some (fx f)) path
  end.
End rep.

(** The heap holds the tree [fill path t], with the cursor at [t], and agrees
    with [h0] elsewhere. *)
Record zrep (h0 : gmap positive rb_node) (s : rb) (t : tree) (path : list frame) : Prop := {
  z_tree : tree_at (nodes s) (pid path) t;
  z_ctx : ctx_at (nodes s) (root s) (rid t) path;
  z_nodup : NoDup (ids t ++ pids path);
  z_frame : ∀ i, i ∉ ids t ++ pids path → nodes s !! i = h0 !! i;
}.

(** *** Reading a node by side *)

Section sides.
Context (d : dir) (p a b : ptr) (c : bool).
Lemma mkn_near : child d (mk_node d p a b c) = a. Proof. by destruct d. Qed.
Lemma mkn_far : child (opp d) (mk_node d p a b c) = b. Proof. by destruct d. Qed.
Lemma mkn_parent : rb_parent (mk_node d p a b c) = p. Proof. by destruct d. Qed.
Lemma mkn_red : rb_red (mk_node d p a b c) = c. Proof. by destruct d. Qed.
Lemma mkn_opp : mk_node (opp d) p b a c = mk_node d p a b c. Proof. by destruct d. Qed.
Lemma with_parent_mkn q : with_parent q (mk_node d p a b c) = mk_node d q a b c.
Proof. by destruct d. Qed.
Lemma with_red_mkn c' : with_red c' (mk_node d p a b c) = mk_node d p a b c'.
Proof. by destruct d. Qed.
Lemma with_near_mkn x : with_child d x (mk_node d p a b c) = mk_node d p x b c.
Proof. by destruct d. Qed.
Lemma with_far_mkn x : with_child (opp d) x (mk_node d p a b c) = mk_node d p a x c.
Proof. by destruct d. Qed.
End sides.
Create Rewrite HintDb side.
#[export] Hint Rewrite mkn_near mkn_far mkn_parent mkn_red with_parent_mkn with_red_mkn
  with_near_mkn with_far_mkn : side.

Lemma opp_opp d : opp (opp d) = d. Proof. by destruct d. Qed.
Lemma mk_opp d c a x b : mk (opp d) c b x a = mk d c a x b. Proof. by destruct d. Qed.
Lemma rid_mk d c a x b : rid (mk d c a x b) = Some x. Proof. by destruct d. Qed.
Lemma ids_mk d c a x b : ids (mk d c a x b) ≡ₚ x :: ids a ++ ids b.
Proof. destruct d; simpl; rewrite <-Permutation_middle; [done|]. by rewrite (Permutation_app_comm (ids b)). Qed.
Lemma isred_mk d c a x b : isred (mk d c a x b) = c. Proof. by destruct d, c. Qed.
Lemma tree_at_mk h p d c a x b :
  tree_at h p (mk d c a x b) ↔
    h !! x = Some (mk_node d p (rid a) (rid b) c) ∧ tree_at h (Some x) a ∧ tree_at h (Some x) b.
Proof. destruct d; simpl; tauto. Qed.
(** Any non-empty tree, seen from either side. *)
Lemma mk_case d t : t = E ∨ ∃ c a x b, t = mk d c a x b.
Proof. destruct t as [|c l x r]; [by left|right]. destruct d; [by exists c, l, x, r|by exists c, r, x, l]. Qed.

Lemma elem_of_mk i d c a x b : i ∈ ids (mk d c a x b) ↔ i = x ∨ i ∈ ids a ∨ i ∈ ids b.
Proof. rewrite ids_mk. set_solver. Qed.

Lemma height_mk d c a x b : height (mk d c a x b) = S (Nat.max (height a) (height b)).
Proof. destruct d; simpl; lia. Qed.
Lemma height_ids t : (height t ≤ length (ids t))%nat.
Proof. induction t; simpl; rewrite ?length_app; simpl; lia. Qed.

(** *** Frame *)

Lemma tree_at_ext h h' p t : (∀ i, i ∈ ids t → h' !! i = h !! i) → tree_at h p t → tree_at h' p t.
Proof.
  revert p. induction t as [|c l IHl x r IHr]; intros p He; [done|]. simpl in *.
  intros (?&?&?). split_and!; [rewrite He by set_solver; done|apply IHl; set_solver|apply IHr; set_solver].
Qed.

Lemma ctx_at_ext h h' rt c path :
  (∀ i, i ∈ pids path → h' !! i = h !! i) → ctx_at h rt c path → ctx_at h' rt c path.
Proof.
  revert c. induction path as [|f path IH]; intros c He; [done|]. simpl in *.
  intros (?&?&?). split_and!; [rewrite He by set_solver; done| |apply IH; set_solver].
  eapply tree_at_ext; [|done]. set_solver.
Qed.

Lemma tree_at_lookup h p t i : tree_at h p t → i ∈ ids t → is_Some (h !! i).
Proof.
  revert p. induction t as [|c l IHl x r IHr]; intros p; simpl; [set_solver|].
  intros (?&?&?) [?|[->|?]%elem_of_cons]%elem_of_app; eauto.
Qed.

Lemma fill1_ids f t : ids (fill1 f t) ≡ₚ fx f :: ids t ++ ids (fs f).
Proof. apply ids_mk. Qed.

Lemma fill_ids path t : ids (fill path t) ≡ₚ ids t ++ pids path.
Proof.
  revert t. induction path as [|f path IH]; intros t; simpl; [by rewrite app_nil_r|].
  rewrite IH, fill1_ids. simpl. rewrite <-Permutation_middle, app_assoc. done.
Qed.

Section cursor.
Context (h0 : gmap positive rb_node).

Lemma zrep_up s t d c x sb path : zrep h0 s t (F d c x sb :: path) ↔ zrep h0 s (mk d c t x sb) path.
Proof.
  assert (Hp : ids (mk d c t x sb) ++ pids path ≡ₚ ids t ++ x :: ids sb ++ pids path).
  { rewrite ids_mk. simpl. by rewrite <-Permutation_middle, app_assoc. }
  split; intros [Ht Hc Hn Hf]; simpl in *.
  - destruct Hc as (?&?&?). split; [by apply tree_at_mk|by rewrite rid_mk|by rewrite Hp|].
    intros i. rewrite Hp. apply Hf.
  - apply tree_at_mk in Ht as (?&?&?). rewrite rid_mk in Hc. split; [done|done|simpl; by rewrite <-Hp|].
    intros i. simpl. rewrite <-Hp. apply Hf.
Qed.

(** Into the sibling. *)
Lemma zrep_other s d c x a b path :
  zrep h0 s a (F d c x b :: path) ↔ zrep h0 s b (F (opp d) c x a :: path).
Proof. rewrite !zrep_up. by rewrite mk_opp. Qed.

Lemma zrep_fill s t path : zrep h0 s t path ↔ zrep h0 s (fill path t) [].
Proof. revert t. induction path as [|[d c x sb] path IH]; intros t; [done|]. by rewrite zrep_up, IH. Qed.

(** Loads at the cursor. *)
Lemma load_cursor s d c a x b path :
  zrep h0 s (mk d c a x b) path → load s (Some x) = Ok (mk_node d (pid path) (rid a) (rid b) c).
Proof. intros [Ht _ _ _]. apply tree_at_mk in Ht as [Hx _]. unfold load. simpl. by rewrite Hx. Qed.

Lemma load_frame s t d c x sb path :
  zrep h0 s t (F d c x sb :: path) → load s (Some x) = Ok (mk_node d (pid path) (rid t) (rid sb) c).
Proof. rewrite zrep_up. apply load_cursor. Qed.

Lemma is_red_cursor s t path : zrep h0 s t path → rb_is_red s (rid t) = Ok (isred t).
Proof.
  intros Hz. destruct (mk_case L t) as [->|(c&a&x&b&->)]; [done|].
  rewrite rid_mk, isred_mk. simpl. rewrite (load_cursor _ _ _ _ _ _ _ Hz). simpl. by destruct c.
Qed.

Lemma is_red_sibling s t d c x sb path :
  zrep h0 s t (F d c x sb :: path) → rb_is_red s (rid sb) = Ok (isred sb).
Proof. rewrite zrep_other. apply is_red_cursor. Qed.

Lemma store_Ok s i n f : nodes s !! i = Some n → store s (Some i) f = Ok (Rb (<[i := f n]> (nodes s)) (root s)).
Proof. intros H. unfold store. simpl. by rewrite H. Qed.

Lemma NoDup_cursor d c a x b path :
  NoDup (ids (mk d c a x b) ++ pids path) →
  (x ∉ ids a) ∧ (x ∉ ids b) ∧ (x ∉ pids path) ∧ (∀ i, i ∈ ids a → (i ∉ ids b) ∧ (i ∉ pids path)) ∧
  (∀ i, i ∈ ids b → i ∉ pids path) ∧ NoDup (ids a) ∧ NoDup (ids b) ∧ NoDup (pids path).
Proof.
  rewrite ids_mk. simpl. rewrite NoDup_cons, !NoDup_app. set_solver.
Qed.

Lemma set_red_cursor s d c a x b path c' :
  zrep h0 s (mk d c a x b) path →
  ∃ s', set_red s (Some x) c' = Ok s' ∧ zrep h0 s' (mk d c' a x b) path.
Proof.
  intros [Ht Hc Hn Hf]. pose proof (NoDup_cursor _ _ _ _ _ _ Hn) as (Hxa&Hxb&Hxp&_).
  apply tree_at_mk in Ht as (Hx&Ha&Hb). unfold set_red. rewrite (store_Ok _ _ _ _ Hx). eexists. split; [done|].
  rewrite with_red_mkn. split; simpl.
  - apply tree_at_mk. rewrite lookup_insert_eq. split_and!; [done| |].
    all: eapply tree_at_ext; [|done]; intros i Hi; apply lookup_insert_ne; set_solver.
  - rewrite rid_mk in *. eapply ctx_at_ext; [|done]. intros i Hi. apply lookup_insert_ne. set_solver.
  - by rewrite ids_mk in *.
  - intros i Hi. rewrite lookup_insert_ne; [apply Hf|]; rewrite ids_mk in *; set_solver.
Qed.

Lemma set_red_frame s t d c x sb path c' :
  zrep h0 s t (F d c x sb :: path) →
  ∃ s', set_red s (Some x) c' = Ok s' ∧ zrep h0 s' t (F d c' x sb :: path).
Proof.
  rewrite zrep_up. intros Hz. apply (set_red_cursor _ _ _ _ _ _ _ c') in Hz as (s'&E&Hz).
  exists s'. split; [done|]. by rewrite zrep_up.
Qed.
(** Replacing the subtree below a path by the pointer [new]. *)
Lemma change_child_spec s o new path :
  ctx_at (nodes s) (root s) (Some o) path → NoDup (pids path) → o ∉ pids path →
  (∀ y, new = Some y → (y ∉ pids path) ∧ is_Some (nodes s !! y)) →
  ∃ s', rb_change_child s (Some o) new (pid path) = Ok s' ∧
    ctx_at (nodes s') (root s') new path ∧
    (∀ i, i ∉ pids path → new ≠ Some i → nodes s' !! i = nodes s !! i) ∧
    (∀ y n, new = Some y → nodes s !! y = Some n → nodes s' !! y = Some (with_parent (pid path) n)).
Proof.
  intros Hc Hn Ho Hnew.
  assert (∃ s1, (match pid path with
      | None => Ok (Rb (nodes s) new)
      | Some _ => let! p := load s (pid path) in
          if decide (rb_left p = Some o) then set_child L s (pid path) new else set_child R s (pid path) new
      end) = Ok s1 ∧ ctx_at (nodes s1) (root s1) new path ∧
      (∀ i, i ∉ pids path → nodes s1 !! i = nodes s !! i)) as (s1&E1&Hc1&Hs1).
  { destruct path as [|[d c x sb] path]; simpl in *.
    { eexists. split; [done|]. done. }
    destruct Hc as (Hx&Hsb&Hc). unfold load. simpl. rewrite Hx. simpl.
    apply not_elem_of_cons in Ho as [Hox Ho]. apply not_elem_of_app in Ho as [Hosb Ho].
    apply NoDup_cons in Hn as [Hxn Hn]. apply not_elem_of_app in Hxn as [Hxs Hxp].
    assert (Hpick : (if decide (rb_left (mk_node d (pid path) (Some o) (rid sb) c) = Some o)
      then set_child L s (Some x) new else set_child R s (Some x) new) = set_child d s (Some x) new).
    { destruct d; simpl; [by rewrite decide_True|]. rewrite decide_False; [done|].
      destruct sb as [|? ? z ?]; [done|]. simpl in *. intros [= ->]. set_solver. }
    rewrite Hpick. unfold set_child. rewrite (store_Ok _ _ _ _ Hx), with_near_mkn. eexists. split; [done|]. simpl.
    rewrite lookup_insert_eq. split_and!; [done| | |].
    - eapply tree_at_ext; [|done]. intros i Hi. apply lookup_insert_ne. set_solver.
    - eapply ctx_at_ext; [|done]. intros i Hi. apply lookup_insert_ne. set_solver.
    - intros i Hi. apply lookup_insert_ne. set_solver. }
  unfold rb_change_child. rewrite E1. simpl. destruct new as [y|].
  - destruct (Hnew y) as [Hy [n Hyn]]; [done|]. rewrite <-Hs1 in Hyn by done. unfold set_parent.
    rewrite (store_Ok _ _ _ _ Hyn). eexists. split; [done|]. simpl. split_and!.
    + eapply ctx_at_ext; [|done]. intros i Hi. apply lookup_insert_ne. set_solver.
    + intros i Hi Hne. rewrite lookup_insert_ne by congruence. by apply Hs1.
    + intros ? n' [= <-] Hn'. rewrite <-Hs1 in Hn' by done. rewrite lookup_insert_eq. congruence.
  - exists s1. split_and!; [done|done|auto|done].
Qed.

(** Hanging a tree under a new parent. *)
Lemma adopt_spec s p t q :
  tree_at (nodes s) p t → NoDup (ids t) →
  ∃ s', match rid t with None => Ok s | Some _ => set_parent s (rid t) q end = Ok s' ∧
    root s' = root s ∧ tree_at (nodes s') q t ∧ (∀ i, i ∉ ids t → nodes s' !! i = nodes s !! i).
Proof.
  intros Ht Hn. destruct (mk_case L t) as [->|(c&a&x&b&->)]; [by exists s|].
  rewrite rid_mk. apply tree_at_mk in Ht as (Hx&Ha&Hb). unfold set_parent. rewrite (store_Ok _ _ _ _ Hx), with_parent_mkn.
  rewrite ids_mk, NoDup_cons in Hn. eexists. split; [done|]. simpl nodes. split_and!; [done| |].
  - rewrite tree_at_mk, lookup_insert_eq. split_and!; [done| |];
      (eapply tree_at_ext; [|done]; intros i Hi; apply lookup_insert_ne; set_solver).
  - intros i Hi. rewrite elem_of_mk in Hi. apply lookup_insert_ne. set_solver.
Qed.
(** A rotation moves the root of the far subtree up. *)
Lemma rotate_spec s d c a x c2 b y e path :
  zrep h0 s (mk d c a x (mk d c2 b y e)) path →
  ∃ s', rb_rotate d s (Some x) = Ok s' ∧ zrep h0 s' (mk d c2 (mk d c a x b) y e) path.
Proof.
  intros Hz. pose proof Hz as [Ht Hc Hn Hf]. rewrite rid_mk in Hc.
  assert (Hp : ids (mk d c a x (mk d c2 b y e)) ≡ₚ ids (mk d c2 (mk d c a x b) y e)).
  { rewrite !ids_mk. simpl. rewrite <-Permutation_middle, app_assoc. apply Permutation_swap. }
  pose proof (NoDup_cursor _ _ _ _ _ _ Hn) as (Hxa&Hxm&Hxp&Hda&Hdm&Hna&Hnm&Hnp).
  rewrite ids_mk, NoDup_cons, NoDup_app in Hnm. destruct Hnm as (Hym&Hnb&Hbe&Hne).
  apply tree_at_mk in Ht as (Hx&Ha&Hm). apply tree_at_mk in Hm as (Hy&Hb&He).
  rewrite rid_mk in Hx. setoid_rewrite elem_of_mk in Hda. setoid_rewrite elem_of_mk in Hdm. rewrite elem_of_mk in Hxm.
  assert (Hxy : x ≠ y) by set_solver.
  unfold rb_rotate. rewrite (load_cursor _ _ _ _ _ _ _ Hz). cbn [res_bind]. rewrite mkn_far, rid_mk.
  unfold load at 1. simpl. rewrite Hy. cbn [deref res_bind]. rewrite mkn_near.
  unfold set_child at 1. rewrite (store_Ok _ _ _ _ Hx), with_far_mkn. cbn [res_bind].
  set (s1 := Rb _ _).
  destruct (adopt_spec s1 (Some y) b (Some x)) as (s2&E2&Hr2&Hb2&Hs2); [|done|].
  { eapply tree_at_ext; [|done]. intros i Hi. apply lookup_insert_ne. set_solver. }
  rewrite E2. cbn [res_bind]. clear E2.
  assert (Hx2 : nodes s2 !! x = Some (mk_node d (pid path) (rid a) (rid b) c)).
  { rewrite Hs2 by set_solver. apply lookup_insert_eq. }
  assert (Hin2 : ∀ i, i ≠ x → i ∉ ids b → nodes s2 !! i = nodes s !! i).
  { intros i Hi Hib. rewrite Hs2 by done. by apply lookup_insert_ne. }
  unfold load. simpl. rewrite Hx2. cbn [deref res_bind]. rewrite mkn_parent.
  assert (Hy2 : nodes s2 !! y = Some (mk_node d (Some x) (rid b) (rid e) c2)).
  { rewrite Hin2; set_solver. }
  destruct (change_child_spec s2 x (Some y) path) as (s3&->&Hc3&Hs3&Hy3); [|done|done| |].
  { rewrite Hr2. eapply ctx_at_ext; [|done]. intros i Hi. apply Hin2; set_solver. }
  { intros ? [= <-]. split; [set_solver|eauto]. }
  specialize (Hy3 y _ eq_refl Hy2). rewrite with_parent_mkn in Hy3. cbn [res_bind].
  unfold set_child. rewrite (store_Ok _ _ _ _ Hy3), with_near_mkn. cbn [res_bind].
  unfold set_parent.
  erewrite store_Ok by (simpl; rewrite lookup_insert_ne by done; rewrite Hs3; [exact Hx2|done|congruence]).
  rewrite with_parent_mkn. eexists. split; [done|].
  assert (Hin : ∀ i, i ≠ x → i ≠ y → i ∉ pids path → i ∉ ids b →
    <[x:=mk_node d (Some y) (rid a) (rid b) c]> (<[y:=mk_node d (pid path) (Some x) (rid e) c2]> (nodes s3)) !! i
      = nodes s !! i).
  { intros i ????. rewrite !lookup_insert_ne by done. rewrite Hs3 by (done || congruence). by apply Hin2. }
  split; simpl nodes.
  - rewrite tree_at_mk, rid_mk, tree_at_mk, lookup_insert_ne, lookup_insert_eq, lookup_insert_eq by done.
    split_and!; [done|done| | |].
    + eapply tree_at_ext; [|done]. intros i Hi. apply Hin; set_solver.
    + eapply tree_at_ext; [|exact Hb2]. intros i Hi. rewrite !lookup_insert_ne by set_solver.
      apply Hs3; set_solver.
    + eapply tree_at_ext; [|done]. intros i Hi. apply Hin; set_solver.
  - rewrite rid_mk. simpl. eapply ctx_at_ext; [|exact Hc3]. intros i Hi. rewrite !lookup_insert_ne; set_solver.
  - by rewrite <-Hp.
  - intros i Hi. rewrite <-Hf by (by rewrite Hp). rewrite <-Hp, ids_mk, ids_mk in Hi. apply Hin; set_solver.
Qed.
(** Linking a node in at an empty position. *)
Lemma link_spec s x path d :
  zrep h0 s E path → x ∉ pids path → is_Some (nodes s !! x) →
  (∀ f rest, path = f :: rest → fd f = d) →
  ∃ s', rb_link_node s (Some x) (pid path) d = Ok s' ∧ zrep h0 s' (T true E x E) path.
Proof.
  intros [_ Hc Hn Hf] Hx [n Hxn] Hd. simpl in *. unfold rb_link_node, set_parent, set_child, set_red.
  rewrite (store_Ok _ _ _ _ Hxn). cbn [res_bind].
  erewrite store_Ok by apply lookup_insert_eq. cbn [res_bind].
  erewrite store_Ok by apply lookup_insert_eq. cbn [res_bind].
  erewrite store_Ok by apply lookup_insert_eq. cbn [res_bind nodes root]. rewrite !insert_insert_eq. simpl.
  set (h1 := <[x := _]> (nodes s)).
  assert (Hh1 : ∀ i, i ∈ pids path → h1 !! i = nodes s !! i) by (intros i Hi; apply lookup_insert_ne; set_solver).
  assert (∃ s', set_link (Rb h1 (root s)) (pid path) d (Some x) = Ok s' ∧
    ctx_at (nodes s') (root s') (Some x) path ∧ ∀ i, i ∉ pids path → nodes s' !! i = h1 !! i) as (s'&E'&Hc'&Hs').
  { unfold set_link, set_child. destruct path as [|[d' c y sb] path]; simpl in *; [by eexists|].
    pose proof (Hd _ _ eq_refl) as Hdd. simpl in Hdd. subst d'. destruct Hc as (Hy&Hsb&Hc). apply NoDup_cons in Hn as [Hy1 Hn].
    erewrite store_Ok by (simpl; rewrite Hh1 by set_solver; exact Hy).
    eexists. split; [done|]. simpl. rewrite with_near_mkn, lookup_insert_eq. split; [split_and!; [done| |]|].
    - eapply tree_at_ext; [|done]. intros i Hi. rewrite lookup_insert_ne by set_solver. apply Hh1. set_solver.
    - eapply ctx_at_ext; [|done]. intros i Hi. rewrite lookup_insert_ne by set_solver. apply Hh1. set_solver.
    - intros i Hi. apply lookup_insert_ne. set_solver. }
  exists s'. split; [done|]. split; simpl.
  - rewrite Hs' by done. subst h1. by rewrite lookup_insert_eq.
  - done.
  - by apply NoDup_cons.
  - intros i Hi. rewrite Hs' by set_solver. subst h1. rewrite lookup_insert_ne by set_solver. apply Hf. set_solver.
Qed.
End cursor.

(** ** The red-black invariant *)

(** Black height [n], no red node with a red child. *)
Fixpoint rbt (n : nat) (t : tree) : Prop :=
  match t with
  | E => n = O
  | T true l _ r => isred l = false ∧ isred r = false ∧ rbt n l ∧ rbt n r
  | T false l _ r => match n with O => False | S m => rbt m l ∧ rbt m r end
  end.

Definition pred_path (path : list frame) : bool := match path with F _ c _ _ :: _ => c | [] => false end.

(** A tree of black height [n] fits at the end of the path, up to a conflict of
    its root with a red frame. *)
Fixpoint rbp (n : nat) (path : list frame) : Prop :=
  match path with
  | [] => True
  | F _ true _ sb :: rest => isred sb = false ∧ rbt n sb ∧ pred_path rest = false ∧ rest ≠ [] ∧ rbp n rest
  | F _ false _ sb :: rest => rbt n sb ∧ rbp (S n) rest
  end.

Definition rbtree_ok (t : tree) : Prop := isred t = false ∧ ∃ n, rbt n t.

Lemma rbt_mk n d c a x b :
  rbt n (mk d c a x b) ↔
    if c then isred a = false ∧ isred b = false ∧ rbt n a ∧ rbt n b
    else match n with O => False | S m => rbt m a ∧ rbt m b end.
Proof. destruct d, c; simpl; [tauto|done|tauto|]. destruct n; tauto. Qed.

(** Filling a fitting path without a conflict. *)
Lemma fill_rbt n t path :
  rbt n t → rbp n path → (isred t && pred_path path = false) → ∃ m, rbt m (fill path t) ∧
    (isred (fill path t) = true → path = []).
Proof.
  revert n t. induction path as [|[d c x sb] path IH]; intros n t Ht Hp Hr; [by exists n|].
  simpl in Hp. destruct c.
  - destruct Hp as (?&?&Hpr&Hne&Hp). simpl in Hr. rewrite andb_true_r in Hr.
    destruct (IH n (mk d true t x sb)) as (m&Hm&Hm2); [by apply rbt_mk|done|rewrite isred_mk; by rewrite Hpr|].
    exists m. split; [done|]. intros E. by specialize (Hm2 E).
  - destruct Hp as [? Hp].
    destruct (IH (S n) (mk d false t x sb)) as (m&Hm&Hm2); [by apply rbt_mk|done|by rewrite isred_mk|].
    exists m. split; [done|]. intros E. simpl in E. unfold fill1 in E. simpl in E. pose proof (Hm2 E) as ->.
    simpl in E. by rewrite isred_mk in E.
Qed.

Lemma blacken_rbt n c l x r : rbt n (T c l x r) → ∃ m, rbt m (T false l x r).
Proof. destruct c; intros H; [|by exists n]. destruct H as (_&_&?&?). by exists (S n). Qed.

Lemma inorder_mk d c a x b :
  inorder (mk d c a x b) = match d with L => inorder a ++ x :: inorder b | R => inorder b ++ x :: inorder a end.
Proof. by destruct d. Qed.

Lemma inorder_fill path t t' : inorder t = inorder t' → inorder (fill path t) = inorder (fill path t').
Proof.
  revert t t'. induction path as [|f path IH]; intros t t' Heq; [done|]. simpl. apply IH.
  unfold fill1. rewrite !inorder_mk. by rewrite Heq.
Qed.

Lemma inorder_rotate d c1 c2 c3 c4 a x b y e :
  inorder (mk d c1 a x (mk d c2 b y e)) = inorder (mk d c3 (mk d c4 a x b) y e).
Proof. rewrite !inorder_mk. destruct d; by rewrite <-?app_assoc. Qed.

(** Two arrangements of the same subtrees have the same order. *)
Ltac same_order d :=
  unfold fill1; simpl; rewrite ?inorder_mk; destruct d; simpl;
  repeat (rewrite ?inorder_mk, <-?app_assoc; simpl); done.

(** ** Insertion *)

Section insert.
Context (h0 : gmap positive rb_node).

Lemma rid_in t x : rid t = Some x → x ∈ ids t.
Proof. destruct t; [done|]. intros [= ->]. simpl. set_solver. Qed.

Lemma rid_sibling s t d c x sb path :
  zrep h0 s t (F d c x sb :: path) → t ≠ E ∨ sb ≠ E → rid t ≠ rid sb.
Proof.
  intros [_ _ Hn _] Hor He. simpl in Hn. rewrite NoDup_app in Hn. destruct Hn as (_&Hn&_).
  destruct (rid t) as [z|] eqn:Et.
  - apply (Hn z); [by apply rid_in|]. symmetry in He. apply rid_in in He. set_solver.
  - destruct t; [|done]. destruct sb; [|done]. naive_solver.
Qed.

(** Comparing with [parent->rb_left] finds the side of the cursor. *)
Lemma side_test s t d c x sb path p :
  zrep h0 s t (F d c x sb :: path) → t ≠ E ∨ sb ≠ E →
  (if decide (rid t = rb_left (mk_node d p (rid t) (rid sb) c)) then L else R) = d.
Proof.
  intros Hz Hor. pose proof (rid_sibling _ _ _ _ _ _ _ Hz Hor). destruct d; simpl; case_decide; done.
Qed.

Lemma far_test s t d d' c x sb path p :
  zrep h0 s t (F d' c x sb :: path) → t ≠ E →
  bool_decide (rid t = child (opp d) (mk_node d' p (rid t) (rid sb) c)) = bool_decide (d' = opp d).
Proof.
  intros Hz Hne. pose proof (rid_sibling _ _ _ _ _ _ _ Hz (or_introl Hne)). apply bool_decide_ext.
  destruct d, d'; simpl; naive_solver.
Qed.

(** The final recolouring and rotation of an insertion. *)
Lemma insert_outer s t d p sb g u rest :
  zrep h0 s t (F d true p sb :: F d false g u :: rest) →
  ∃ s1 s2 s3, set_red s (Some p) false = Ok s1 ∧ set_red s1 (Some g) true = Ok s2 ∧
    rb_rotate (opp d) s2 (Some g) = Ok s3 ∧ zrep h0 s3 t (F d false p (mk d true sb g u) :: rest).
Proof.
  intros Hz. destruct (set_red_frame _ _ _ _ _ _ _ _ false Hz) as (s1&E1&Hz1).
  rewrite zrep_up in Hz1. destruct (set_red_frame _ _ _ _ _ _ _ _ true Hz1) as (s2&E2&Hz2).
  rewrite zrep_up in Hz2.
  rewrite <-(mk_opp d true), <-(mk_opp d false) in Hz2.
  destruct (rotate_spec _ _ _ _ _ _ _ _ _ _ _ Hz2) as (s3&E3&Hz3). exists s1, s2, s3.
  do 3 (split; [done|]). rewrite zrep_up. by rewrite (mk_opp d true), (mk_opp d false) in Hz3.
Qed.

Lemma insert_side_spec s t z dp p sb d g u rest n :
  let path := F dp true p sb :: F d false g u :: rest in
  rid t = Some z → isred t = true → rbt n t → rbp n path → zrep h0 s t path →
  ∃ s' t' path' n', insert_side d s (Some z) (Some p) (Some g) = Ok (s', rid t') ∧
    zrep h0 s' t' path' ∧ isred t' = true ∧ rbt n' t' ∧ rbp n' path' ∧
    inorder (fill path' t') = inorder (fill path t) ∧
    (length path' < length path)%nat.
Proof.
  intros path Hid Hred Hrb Hp Hz. simpl in Hp. destruct Hp as (Hsb&Hrsb&_&_&Hru&Hrest).
  assert (Hzg : zrep h0 s (mk dp true t p sb) (F d false g u :: rest)) by (by rewrite <-zrep_up).
  unfold insert_side. rewrite (load_frame _ _ _ _ _ _ _ _ Hzg). cbn [res_bind].
  rewrite mkn_far, (is_red_sibling _ _ _ _ _ _ _ _ Hzg). cbn [res_bind].
  destruct (isred u) eqn:Eu.
  - (* red uncle *)
    destruct (set_red_frame _ _ _ _ _ _ _ _ false Hz) as (s1&->&Hz1). cbn [res_bind].
    rewrite zrep_up, zrep_other in Hz1.
    destruct (mk_case L u) as [->|(cu&a&ux&b&->)]; [done|]. rewrite rid_mk. rewrite isred_mk in Eu. subst cu.
    destruct (set_red_cursor _ _ _ _ _ _ _ _ false Hz1) as (s2&->&Hz2). cbn [res_bind].
    destruct (set_red_frame _ _ _ _ _ _ _ _ true Hz2) as (s3&->&Hz3). cbn [res_bind].
    rewrite zrep_other, opp_opp, zrep_up in Hz3.
    change (T false a ux b) with (mk L false a ux b) in *. apply rbt_mk in Hru as (?&?&?&?).
    eexists s3, _, rest, (S n). split; [by rewrite rid_mk|]. split; [done|].
    rewrite isred_mk, !rbt_mk, !isred_mk. split_and!; try done; [|simpl; lia].
    simpl. apply inorder_fill. same_order d.
  - rewrite (load_frame _ _ _ _ _ _ _ _ Hz). cbn [res_bind].
    destruct (decide (dp = opp d)) as [->|Hd].
    + (* inner child: rotate it outwards first *)
      rewrite decide_True by (rewrite mkn_near; done).
      destruct (mk_case d t) as [->|(ct&a&z'&b&->)]; [done|]. rewrite rid_mk in Hid. injection Hid as ->.
      rewrite isred_mk in Hred. subst ct. rewrite <-(mk_opp (opp d)), opp_opp in Hzg.
      destruct (rotate_spec _ _ _ _ _ _ _ _ _ _ _ Hzg) as (s1&->&Hz1). cbn [res_bind].
      rewrite <-zrep_up in Hz1. rewrite (load_cursor _ _ _ _ _ _ _ _ Hz1). cbn [res_bind]. rewrite mkn_parent. simpl pid.
      destruct (insert_outer _ _ _ _ _ _ _ _ Hz1) as (s2&s3&s4&E2&E3&E4&Hz4).
      cbn [res_bind]. rewrite E2. cbn [res_bind]. rewrite E3. cbn [res_bind]. rewrite E4. cbn [res_bind].
      apply rbt_mk in Hrb as (?&?&?&?).
      eexists s4, _, _, n. rewrite rid_mk. split; [done|]. split; [done|].
      rewrite isred_mk, rbt_mk. simpl. rewrite rbt_mk. split_and!; try done; [|lia].
      apply inorder_fill. same_order d.
    + assert (Hne : t ≠ E) by (by intros ->).
      pose proof (rid_sibling _ _ _ _ _ _ _ Hz (or_introl Hne)).
      rewrite decide_False by (destruct d, dp; try done; simpl; congruence).
      assert (dp = d) as -> by (by destruct d, dp).
      destruct (insert_outer _ _ _ _ _ _ _ _ Hz) as (s2&s3&s4&E2&E3&E4&Hz4).
      cbn [res_bind]. rewrite E2. cbn [res_bind]. rewrite E3. cbn [res_bind]. rewrite E4. cbn [res_bind].
      eexists s4, t, _, n. rewrite Hid. split; [done|]. split; [done|]. simpl. rewrite rbt_mk.
      split_and!; try done; [|lia].
      apply inorder_fill. same_order d.
Qed.

Lemma fill_not_E path d c a x b : fill path (mk d c a x b) ≠ E.
Proof.
  intros Eq. apply (f_equal (length ∘ ids)) in Eq. simpl in Eq.
  rewrite fill_ids, length_app, ids_mk in Eq. simpl in Eq. lia.
Qed.

Lemma insert_loop_spec fuel s t path n z :
  rid t = Some z → isred t = true → rbt n t → rbp n path → zrep h0 s t path → (length path ≤ fuel)%nat →
  ∃ s' t' m, insert_loop fuel s (Some z) = Ok s' ∧ zrep h0 s' t' [] ∧ rbt m t' ∧ t' ≠ E ∧
    inorder t' = inorder (fill path t).
Proof.
  revert s t path n z. induction fuel as [|fuel IH]; intros s t path n z Hid Hred Hrb Hp Hz Hf.
  all: destruct (mk_case L t) as [->|(ct&a&z'&b&->)]; [done|].
  all: rewrite rid_mk in Hid; injection Hid as ->; rewrite isred_mk in Hred; subst ct.
  all: assert (Hdone : pred_path path = false → ∃ s' t' m, Ok s = Ok s' ∧ zrep h0 s' t' [] ∧ rbt m t' ∧ t' ≠ E ∧
      inorder t' = inorder (fill path (mk L true a z b))).
  1, 3: intros Hpp; destruct (fill_rbt n (mk L true a z b) path) as (m&Hm&_); [done|done|by rewrite Hpp, andb_false_r|];
    exists s, (fill path (mk L true a z b)), m; split; [done|]; split; [by rewrite <-zrep_fill|]; split; [done|]; split; [|done];
    apply fill_not_E.
  all: simpl; rewrite (load_cursor _ _ _ _ _ _ _ _ Hz); cbn [res_bind]; rewrite mkn_parent.
  - destruct path as [|f path]; [|simpl in Hf; lia]. simpl. by apply Hdone.
  - destruct path as [|[dp c p sb] path]; [by apply Hdone|]. simpl pid.
    cbn [rb_is_red]. rewrite (load_frame _ _ _ _ _ _ _ _ Hz). cbn [res_bind]. rewrite mkn_red.
    destruct c; [|by apply Hdone]. rewrite mkn_parent.
    pose proof Hp as (_&_&Hpp&Hne&Hp'). destruct path as [|[d c g u] rest]; [done|].
    simpl in Hpp. subst c. simpl pid.
    assert (Hzg := Hz). rewrite zrep_up in Hzg. rewrite (load_frame _ _ _ _ _ _ _ _ Hzg). cbn [res_bind].
    pose proof (side_test _ _ _ _ _ _ _ (pid rest) Hzg) as Hside. rewrite rid_mk in Hside |- *. rewrite Hside.
    2: { left. apply (fill_not_E []). }
    destruct (insert_side_spec s (mk L true a z b) z dp p sb d g u rest n)
      as (s'&t'&path'&n'&Es&Hz'&Hr'&Hrb'&Hp2&Hin&Hlen); [by rewrite rid_mk|by rewrite isred_mk|done|done|done|].
    rewrite Es. cbn [res_bind]. destruct (rid t') as [z2|] eqn:Et; [|by destruct t'].
    destruct (IH s' t' path' n' z2) as (s2&t2&m&E2&Hz2&Hm&Hne2&Hin2); [done..|simpl in *; lia|].
    exists s2, t2, m. split_and!; [done..|]. by rewrite Hin2, Hin.
Qed.
Lemma ids_size h l : NoDup l → (∀ i, i ∈ l → is_Some (h !! i)) → (length l ≤ size (h : gmap positive rb_node))%nat.
Proof.
  intros Hn Hin. rewrite <-size_dom. rewrite <-(size_list_to_set (C := gset positive) l) by done.
  apply subseteq_size. intros i. rewrite elem_of_list_to_set, elem_of_dom. auto.
Qed.

Lemma zrep_live s t path i : zrep h0 s t path → i ∈ ids t ++ pids path → is_Some (nodes s !! i).
Proof.
  intros Hz Hi. rewrite <-fill_ids in Hi. apply zrep_fill in Hz. destruct Hz as [Ht _ _ _].
  eapply tree_at_lookup; done.
Qed.

Lemma zrep_size s t path : zrep h0 s t path → (length (ids t ++ pids path) ≤ size (nodes s))%nat.
Proof. intros Hz. apply ids_size; [apply Hz|]. intros i. by eapply zrep_live. Qed.

Lemma path_pids path : (length path ≤ length (pids path))%nat.
Proof. induction path; simpl; [done|]. rewrite length_app. lia. Qed.

Lemma zrep_path_size s t path : zrep h0 s t path → (length path ≤ size (nodes s))%nat.
Proof. intros Hz. apply zrep_size in Hz. rewrite length_app in Hz. pose proof (path_pids path). lia. Qed.

Lemma insert_color_spec s x path :
  zrep h0 s (T true E x E) path → rbp 0 path →
  ∃ s' t', rb_insert_color s (Some x) = Ok s' ∧ zrep h0 s' t' [] ∧ rbtree_ok t' ∧
    inorder t' = inorder (fill path (T true E x E)).
Proof.
  intros Hz Hp. unfold rb_insert_color. pose proof (zrep_path_size _ _ _ Hz).
  destruct (insert_loop_spec (S (size (nodes s))) s (T true E x E) path 0 x) as (s1&t1&m&->&Hz1&Hm&Hne&Hin);
    [done..|lia|]. cbn [res_bind]. pose proof (z_ctx _ _ _ _ Hz1) as Hrt. simpl in Hrt. rewrite Hrt.
  destruct (mk_case L t1) as [->|(c&a&y&b&->)]; [done|]. rewrite rid_mk.
  destruct (set_red_cursor _ _ _ _ _ _ _ _ false Hz1) as (s2&->&Hz2).
  eexists s2, _. split; [done|]. split; [done|]. split; [|by rewrite <-Hin].
  split; [by rewrite isred_mk|]. destruct (blacken_rbt _ _ _ _ _ Hm) as [k Hk]. by exists k.
Qed.
End insert.

(** ** Removal *)

Section erase.
Context (h0 : gmap positive rb_node).

(** Valid once its root is painted black. *)
Definition rbw (n : nat) (t : tree) : Prop :=
  match t with T true l _ r => rbt n l ∧ rbt n r | _ => rbt n t end.

Lemma rbw_mk n d c a x b :
  rbw n (mk d c a x b) ↔ if c then rbt n a ∧ rbt n b else rbt n (mk d false a x b).
Proof. destruct d, c; simpl; tauto. Qed.
Lemma rbt_rbw n t : rbt n t → rbw n t.
Proof. destruct t as [|[] l x r]; simpl; naive_solver. Qed.

(** The last step: recolour and rotate the red far nephew up. *)
Lemma erase_final s t d c p w1 y f1 v f2 rest :
  zrep h0 s t (F d c p (mk d false w1 y (mk d true f1 v f2)) :: rest) →
  ∃ s', (let! p' := load s (Some p) in
         let! s := set_red s (Some y) (rb_red p') in
         let! s := set_red s (Some p) false in
         let! w := load s (Some y) in
         let! s := set_red s (child (opp d) w) false in
         let! s := rb_rotate d s (Some p) in
         Ok (s, inr () : (ptr * ptr + ()))) = Ok (s', inr ()) ∧
    zrep h0 s' (mk d c (mk d false t p w1) y (mk d false f1 v f2)) rest.
Proof.
  intros Hz. rewrite (load_frame _ _ _ _ _ _ _ _ Hz). cbn [res_bind]. rewrite mkn_red.
  rewrite zrep_other in Hz. destruct (set_red_cursor _ _ _ _ _ _ _ _ c Hz) as (s1&->&Hz1). cbn [res_bind].
  destruct (set_red_frame _ _ _ _ _ _ _ _ false Hz1) as (s2&->&Hz2). cbn [res_bind].
  rewrite (load_cursor _ _ _ _ _ _ _ _ Hz2). cbn [res_bind]. rewrite mkn_far, rid_mk.
  rewrite <-zrep_up, zrep_other in Hz2.
  destruct (set_red_cursor _ _ _ _ _ _ _ _ false Hz2) as (s3&->&Hz3). cbn [res_bind].
  rewrite zrep_other, opp_opp, zrep_up, zrep_other, opp_opp, zrep_up in Hz3.
  destruct (rotate_spec _ _ _ _ _ _ _ _ _ _ _ Hz3) as (s4&->&Hz4). cbn [res_bind]. by exists s4.
Qed.

Lemma is_red_sides s d c w1 y w2 path :
  zrep h0 s (mk d c w1 y w2) path →
  let w := mk_node d (pid path) (rid w1) (rid w2) c in
  ∃ l r, rb_is_red s (rb_left w) = Ok l ∧ rb_is_red s (rb_right w) = Ok r ∧
    rb_is_red s (child (opp d) w) = Ok (isred w2) ∧
    negb l && negb r = negb (isred w1) && negb (isred w2).
Proof.
  rewrite <-zrep_up. intros Hz. pose proof (is_red_cursor _ _ _ _ Hz) as E1.
  pose proof (is_red_sibling _ _ _ _ _ _ _ _ Hz) as E2.
  destruct d; simpl; rewrite E1, E2; do 2 eexists; split_and!; try done. apply andb_comm.
Qed.

(** What one round establishes. *)
Definition fixed (path : list frame) (t : tree) (s' : rb) (next : ptr * ptr + ()) : Prop :=
  match next with
  | inl (node, parent) => ∃ t' path' n', node = rid t' ∧ parent = pid path' ∧ zrep h0 s' t' path' ∧
      rbw n' t' ∧ rbp (S n') path' ∧ inorder (fill path' t') = inorder (fill path t) ∧
      (isred t' = true ∨ (length path' < length path)%nat) ∧ (length path' ≤ length path)%nat
  | inr _ => ∃ t' m, zrep h0 s' t' [] ∧ rbt m t' ∧ t' ≠ E ∧ inorder t' = inorder (fill path t)
  end.

Lemma erase_done s' t d c p w1 y f1 v f2 rest n sb :
  zrep h0 s' (mk d c (mk d false t p w1) y (mk d false f1 v f2)) rest →
  rbt n t → rbt n w1 → rbt n f1 → rbt n f2 → rbp (S n) (F d c p sb :: rest) →
  inorder sb = inorder (mk d false w1 y (mk d true f1 v f2)) →
  fixed (F d c p sb :: rest) t s' (inr ()).
Proof.
  intros Hz Ht Hw1 Hf1 Hf2 Hp Hin. rewrite zrep_fill in Hz.
  destruct (fill_rbt (if c then S n else S (S n)) (mk d c (mk d false t p w1) y (mk d false f1 v f2)) rest) as (m&Hm&_).
  - rewrite rbt_mk. destruct c; rewrite ?isred_mk, !rbt_mk; done.
  - destruct c; [by destruct Hp as (_&_&_&_&?)|by destruct Hp as (_&?)].
  - rewrite isred_mk. destruct c; [|done]. by destruct Hp as (_&_&->&_).
  - eexists _, m. split; [done|]. split; [done|]. split; [apply fill_not_E|].
    simpl. apply inorder_fill. unfold fill1. simpl. rewrite !inorder_mk, Hin.
    destruct d; rewrite !inorder_mk; repeat (rewrite <-app_assoc; simpl); done.
Qed.
Lemma erase_black_spec s t d c p w1 y w2 rest n :
  let path := F d c p (mk d false w1 y w2) :: rest in
  zrep h0 s t path → isred t = false → rbt n t → rbp (S n) path →
  ∃ s' next, erase_black d s (Some p) (Some y) = Ok (s', next) ∧
    match next with
    | inl (node, parent) => node = Some p ∧ parent = pid rest ∧ isred w1 = false ∧ isred w2 = false ∧
        zrep h0 s' (mk d c t p (mk d true w1 y w2)) rest
    | inr _ => fixed path t s' next
    end.
Proof.
  intros path Hz Hb Ht Hp. assert (Hw : rbt n w1 ∧ rbt n w2).
  { destruct c; [destruct Hp as (_&Hw&_)|destruct Hp as (Hw&_)]; by rewrite rbt_mk in Hw. }
  destruct Hw as [Hw1 Hw2]. assert (Hzo := Hz). unfold path in Hzo. rewrite zrep_other in Hzo.
  destruct (is_red_sides _ _ _ _ _ _ _ Hzo) as (l&r&El&Er&Ef&Elr).
  unfold erase_black. rewrite (load_cursor _ _ _ _ _ _ _ _ Hzo). cbn [res_bind].
  rewrite El. cbn [res_bind]. rewrite Er. cbn [res_bind]. rewrite Elr.
  destruct (negb (isred w1) && negb (isred w2)) eqn:Eblack.
  { apply andb_true_iff in Eblack as [E1%negb_true_iff E2%negb_true_iff].
    destruct (set_red_cursor _ _ _ _ _ _ _ _ true Hzo) as (s1&->&Hz1). cbn [res_bind].
    rewrite (load_frame _ _ _ _ _ _ _ _ Hz1). cbn [res_bind]. rewrite mkn_parent.
    eexists s1, _. split; [done|]. simpl. split_and!; try done.
    by rewrite zrep_other, opp_opp, zrep_up in Hz1. }
  rewrite Ef. cbn [res_bind]. destruct (isred w2) eqn:E2; simpl.
  - destruct (mk_case d w2) as [->|(cw&f1&v&f2&->)]; [done|]. rewrite isred_mk in E2. subst cw.
    apply rbt_mk in Hw2 as (_&_&?&?).
    destruct (erase_final _ _ _ _ _ _ _ _ _ _ _ Hz) as (s1&E1&Hz1). rewrite E1.
    eexists s1, _. split; [done|]. eapply erase_done; try done.
  - rewrite andb_true_r in Eblack. apply negb_false_iff in Eblack.
    destruct (mk_case d w1) as [->|(cw&a&z&b&->)]; [done|]. rewrite isred_mk in Eblack. subst cw.
    rewrite mkn_near, rid_mk. apply rbt_mk in Hw1 as (Ha&Hbb&Hra&Hrb).
    rewrite <-zrep_up in Hzo. destruct (set_red_cursor _ _ _ _ _ _ _ _ false Hzo) as (s1&->&Hz1). cbn [res_bind].
    destruct (set_red_frame _ _ _ _ _ _ _ _ true Hz1) as (s2&->&Hz2). cbn [res_bind].
    rewrite zrep_up, <-(mk_opp d true), <-(mk_opp d false) in Hz2.
    destruct (rotate_spec _ _ _ _ _ _ _ _ _ _ _ Hz2) as (s3&->&Hz3). cbn [res_bind].
    rewrite (mk_opp d true), (mk_opp d false) in Hz3.
    rewrite (load_frame _ _ _ _ _ _ _ _ Hz3). cbn [res_bind].
    rewrite zrep_other, opp_opp in Hz3. rewrite mkn_opp, mkn_far, rid_mk.
    destruct (erase_final _ _ _ _ _ _ _ _ _ _ _ Hz3) as (s4&E4&Hz4). rewrite E4.
    eexists s4, _. split; [done|]. eapply erase_done; try done.
    rewrite !inorder_mk. destruct d; repeat (rewrite <-app_assoc; simpl); done.
Qed.

Lemma erase_side_spec s t d c p sb rest n :
  let path := F d c p sb :: rest in
  zrep h0 s t path → isred t = false → rbt n t → rbp (S n) path →
  ∃ s' next, erase_side d s (Some p) = Ok (s', next) ∧ fixed path t s' next.
Proof.
  intros path Hz Hb Ht Hp. unfold erase_side. rewrite (load_frame _ _ _ _ _ _ _ _ Hz). cbn [res_bind].
  rewrite mkn_far, (is_red_sibling _ _ _ _ _ _ _ _ Hz). cbn [res_bind].
  destruct (mk_case d sb) as [->|(cs&w1&y&w2&->)].
  { destruct c; [destruct Hp as (_&Hw&_)|destruct Hp as (Hw&_)]; done. }
  rewrite isred_mk, rid_mk. destruct cs; cbn [res_bind].
  - (* red sibling *)
    destruct c; [by destruct Hp as (Hr&_); rewrite isred_mk in Hr|]. destruct Hp as [Hw Hp].
    apply rbt_mk in Hw as (Hr1&Hr2&Hw1&Hw2).
    unfold path in Hz. rewrite zrep_other in Hz. destruct (set_red_cursor _ _ _ _ _ _ _ _ false Hz) as (s1&->&Hz1). cbn [res_bind].
    destruct (set_red_frame _ _ _ _ _ _ _ _ true Hz1) as (s2&->&Hz2). cbn [res_bind].
    rewrite zrep_other, opp_opp, zrep_up in Hz2.
    destruct (rotate_spec _ _ _ _ _ _ _ _ _ _ _ Hz2) as (s3&->&Hz3). cbn [res_bind].
    rewrite <-!zrep_up in Hz3. rewrite (load_frame _ _ _ _ _ _ _ _ Hz3). cbn [res_bind]. rewrite mkn_far.
    destruct (mk_case d w1) as [->|(cw&a&z&b&->)]; [done|]. rewrite isred_mk in Hr1. subst cw. rewrite rid_mk.
    assert (Hin : inorder (fill (F d true p (mk d false a z b) :: F d false y w2 :: rest) t) =
      inorder (fill path t)) by (simpl; apply inorder_fill; same_order d).
    edestruct (erase_black_spec _ _ _ _ _ _ _ _ _ n Hz3 Hb Ht) as (s4&next&->&Hn).
    { simpl. rewrite isred_mk. done. }
    exists s4, next. split; [done|]. destruct next as [[node parent]|].
    + destruct Hn as (->&->&Ha&Hb2&Hz4). eexists _, _, n. rewrite rid_mk. split; [done|]. split; [done|]. split; [done|].
      rewrite isred_mk. split; [|split; [by split|split; [|split; [by left|done]]]].
      * apply rbt_mk in Hw1. rewrite rbw_mk, rbt_mk. naive_solver.
      * rewrite <-Hin. simpl. apply inorder_fill. same_order d.
    + destruct Hn as (t'&m&?&?&?&Hin'). exists t', m. rewrite <-Hin, <-Hin'. done.
  - destruct (erase_black_spec _ _ _ _ _ _ _ _ _ n Hz Hb Ht Hp) as (s4&next&->&Hn).
    exists s4, next. split; [done|]. destruct next as [[node parent]|]; [|done].
    destruct Hn as (->&->&Ha&Hb2&Hz4). eexists _, _, (if c then n else S n). rewrite rid_mk.
    split; [done|]. split; [done|]. split; [done|]. rewrite isred_mk.
    assert (Hw : rbt (S n) (mk d false w1 y w2)) by (destruct c; [destruct Hp as (_&?&_)|destruct Hp as (?&_)]; done).
    apply rbt_mk in Hw. split; [|split; [|split; [|split]]].
    + rewrite rbw_mk. destruct c; rewrite ?rbt_mk; naive_solver.
    + destruct c; [by destruct Hp as (_&_&_&_&?)|by destruct Hp as (_&?)].
    + simpl. apply inorder_fill. same_order d.
    + right. simpl. lia.
    + simpl. lia.
Qed.
Lemma ctx_root h rt c path : ctx_at h rt c path → path ≠ [] → ∃ x, rt = Some x ∧ x ∈ pids path.
Proof.
  revert c. induction path as [|f path IH]; intros c Hc Hne; [done|]. destruct Hc as (_&_&Hc). simpl.
  destruct path as [|f' path]; [exists (fx f); split; [done|set_solver]|].
  destruct (IH _ Hc) as (x&->&Hx); [done|]. exists x. split; [done|]. set_solver.
Qed.

Lemma root_test s t path : zrep h0 s t path → bool_decide (rid t = root s) = bool_decide (path = []).
Proof.
  intros [_ Hc Hn _]. destruct path as [|f path].
  { simpl in Hc. by rewrite !bool_decide_eq_true_2 by done. }
  rewrite !bool_decide_eq_false_2; [done|done|].
  destruct (ctx_root _ _ _ _ Hc) as (x&->&Hx); [done|]. intros Heq. apply rid_in in Heq.
  rewrite NoDup_app in Hn. destruct Hn as (_&Hn&_). by apply (Hn x).
Qed.

(** Where the loop stops, painting the cursor black restores the invariant. *)
Definition stopped (path : list frame) (t : tree) : Prop :=
  match t with E => path = [] | T _ a x b => rbtree_ok (fill path (T false a x b)) end.

Lemma stopped_root t m : rbt m t → stopped [] t.
Proof.
  destruct t as [|c a x b]; [done|]. intros Hm. destruct (blacken_rbt _ _ _ _ _ Hm) as [k Hk].
  split; [done|]. by exists k.
Qed.

Lemma stopped_red n t path : isred t = true → rbw n t → rbp (S n) path → stopped path t.
Proof.
  destruct t as [|[] a x b]; [done| |done]. intros _ Hw Hp. simpl.
  destruct (fill_rbt (S n) (T false a x b) path) as (m&Hm&Hr); [done..|]. split; [|by exists m].
  destruct (isred (fill path (T false a x b))) eqn:Er; [|done]. pose proof (Hr eq_refl) as ->. done.
Qed.

Lemma fixup_loop_spec fuel s t path n :
  zrep h0 s t path → rbw n t → rbp (S n) path → (isred t = true ∨ (length path ≤ fuel)%nat) →
  ∃ s' t' path', fixup_loop fuel s (rid t) (pid path) = Ok (s', rid t') ∧ zrep h0 s' t' path' ∧
    inorder (fill path' t') = inorder (fill path t) ∧ stopped path' t'.
Proof.
  revert s t path n. induction fuel as [|fuel IH]; intros s t path n Hz Hw Hp Hf.
  all: cbn [fixup_loop]; rewrite (is_red_cursor _ _ _ _ Hz); cbn [res_bind]; rewrite (root_test _ _ _ Hz).
  all: destruct (isred t) eqn:Er;
    [rewrite andb_false_r; exists s, t, path; split_and!; [done..|]; by eapply stopped_red|].
  all: assert (Ht : rbt n t) by (by destruct t as [|[] ? ? ?]).
  all: destruct path as [|[d c p sb] rest];
    [exists s, t, []; split_and!; [done..|]; by eapply stopped_root|].
  { destruct Hf as [|Hf]; [done|]. simpl in Hf. lia. }
  rewrite bool_decide_eq_false_2 by done. cbn [negb andb]. simpl pid.
  rewrite (load_frame _ _ _ _ _ _ _ _ Hz). cbn [res_bind].
  rewrite (side_test _ _ _ _ _ _ _ _ (pid rest) Hz).
  2: { right. intros ->. destruct c; [by destruct Hp as (_&?&_)|by destruct Hp as (?&_)]. }
  destruct (erase_side_spec s t d c p sb rest n) as (s1&next&->&Hn); [done..|]. cbn [res_bind].
  destruct next as [[node parent]|].
  - destruct Hn as (t1&path1&n1&->&->&Hz1&Hw1&Hp1&Hin&Hl&_).
    destruct (IH s1 t1 path1 n1) as (s2&t2&path2&E2&Hz2&Hin2&Hs2); [done..| |].
    { destruct Hl as [|Hl]; [by left|]. destruct Hf as [|Hf]; [congruence|]. right. simpl in *. lia. }
    exists s2, t2, path2. rewrite E2. split_and!; [done..| |done]. by rewrite Hin2.
  - destruct Hn as (t1&m&Hz1&Hm&Hne&Hin). exists s1, t1, []. rewrite <-(z_ctx _ _ _ _ Hz1).
    split_and!; [done..|]. by eapply stopped_root.
Qed.

Lemma erase_fixup_spec s t path n :
  zrep h0 s t path → rbw n t → rbp (S n) path →
  ∃ s' t', rb_erase_fixup s (rid t) (pid path) = Ok s' ∧ zrep h0 s' t' [] ∧ rbtree_ok t' ∧
    inorder t' = inorder (fill path t).
Proof.
  intros Hz Hw Hp. unfold rb_erase_fixup. pose proof (zrep_path_size _ _ _ _ Hz).
  destruct (fixup_loop_spec (S (size (nodes s))) s t path n) as (s1&t1&path1&->&Hz1&Hin&Hs); [done..|right; lia|].
  cbn [res_bind]. destruct (mk_case L t1) as [->|(c&a&x&b&->)].
  - simpl in Hs. subst path1. exists s1, E. split; [done|]. split; [done|]. split; [|done]. split; [done|by exists 0%nat].
  - rewrite rid_mk. destruct (set_red_cursor _ _ _ _ _ _ _ _ false Hz1) as (s2&->&Hz2).
    rewrite zrep_fill in Hz2. eexists s2, _. split; [done|]. split; [done|]. split; [exact Hs|]. rewrite <-Hin. by apply inorder_fill.
Qed.
(** *** Taking a node out *)

Lemma fill_app p1 p2 t : fill (p1 ++ p2) t = fill p2 (fill p1 t).
Proof. revert t. induction p1 as [|f p1 IH]; intros t; [done|]. simpl. apply IH. Qed.

Lemma zrep_fill_app s t p1 p2 : zrep h0 s t (p1 ++ p2) ↔ zrep h0 s (fill p1 t) p2.
Proof. rewrite (zrep_fill _ _ _ (p1 ++ p2)), (zrep_fill _ _ _ p2). by rewrite fill_app. Qed.

Lemma descend_height fuel d s t path :
  zrep h0 s t path → t ≠ E → (height t ≤ S fuel)%nat →
  ∃ c x b path', descend d fuel s (rid t) = Ok (Some x) ∧ t = fill path' (mk d c E x b) ∧
    Forall (λ f, fd f = d) path'.
Proof.
  revert t path. induction fuel as [|fuel IH]; intros t path Hz Hne Hl;
    (destruct (mk_case d t) as [->|(c&a&x&b&->)]; [done|]); cbn [descend]; rewrite rid_mk;
    rewrite (load_cursor _ _ _ _ _ _ _ _ Hz); cbn [res_bind]; rewrite mkn_near;
    destruct a as [|ca al ax ar]; try by (exists c, x, b, []).
  - rewrite height_mk in Hl. simpl in Hl. lia.
  - cbn [rid]. rewrite <-zrep_up in Hz.
    destruct (IH _ _ Hz) as (c'&x'&b'&path'&Ed&Ht&Hd); [done| |].
    { rewrite height_mk in Hl. simpl in Hl |- *. lia. }
    cbn [rid] in Ed. rewrite Ed.
    exists c', x', b', (path' ++ [F d c x b]). split; [done|]. split; [|apply Forall_app; by repeat constructor].
    by rewrite fill_app, <-Ht.
Qed.

Lemma descend_spec fuel d s t path :
  zrep h0 s t path → t ≠ E → (length (ids t) ≤ S fuel)%nat →
  ∃ c x b path', descend d fuel s (rid t) = Ok (Some x) ∧ t = fill path' (mk d c E x b) ∧
    Forall (λ f, fd f = d) path'.
Proof. intros ?? Hl. pose proof (height_ids t). eapply descend_height; [done|done|lia]. Qed.

(** A node with one side empty is replaced by its other subtree; its own record
    stays behind, unlinked. *)
Lemma bypass_spec s d c x b path :
  zrep h0 s (mk d c E x b) path →
  ∃ s', rb_change_child s (Some x) (rid b) (pid path) = Ok s' ∧
    zrep (<[x := mk_node d (pid path) None (rid b) c]> h0) s' b path ∧
    nodes s' !! x = Some (mk_node d (pid path) None (rid b) c) ∧ x ∉ ids b ++ pids path.
Proof.
  intros [Ht Hc Hn Hf]. rewrite rid_mk in Hc. pose proof (NoDup_cursor _ _ _ _ _ _ Hn) as (_&Hxb&Hxp&_&Hbp&_&Hnb&Hnp).
  apply tree_at_mk in Ht as (Hx&_&Hb).
  destruct (change_child_spec s x (rid b) path) as (s'&Es&Hc'&Hs'&Hy); [done..| |].
  { intros y Hy%rid_in. split; [by apply Hbp|]. by eapply tree_at_lookup. }
  assert (Hx' : nodes s' !! x = nodes s !! x).
  { apply Hs'; [done|]. intros Hr%rid_in. done. }
  exists s'. split; [done|]. split; [|split; [by rewrite Hx', Hx|set_solver]]. split.
  - destruct (mk_case L b) as [->|(cb&b1&y&b2&->)]; [done|]. apply tree_at_mk in Hb as (Hyn&Hb1&Hb2).
    rewrite rid_mk in *. specialize (Hy y _ eq_refl Hyn). rewrite with_parent_mkn in Hy.
    rewrite ids_mk, NoDup_cons in Hnb. setoid_rewrite elem_of_mk in Hbp.
    apply tree_at_mk. split_and!; [done| |];
      (eapply tree_at_ext; [|done]; intros i Hi; apply Hs'; set_solver).
  - done.
  - rewrite NoDup_app. done.
  - intros i Hi. apply not_elem_of_app in Hi as [Hib Hip]. destruct (decide (i = x)) as [->|].
    { by rewrite lookup_insert_eq, Hx', Hx. }
    rewrite lookup_insert_ne by done. rewrite Hs'; [|done|intros Hr%rid_in; done].
    apply Hf. rewrite ids_mk. set_solver.
Qed.
(** The successor [y], holding the right subtree, takes the place of [x]. *)
Lemma replace_spec {A} (K : rb → res A) s x y l r path c py ly cy rx :
  nodes s !! x = Some (Node (pid path) (rid l) rx c) → nodes s !! y = Some (Node py ly (rid r) cy) →
  tree_at (nodes s) (Some x) l → tree_at (nodes s) (Some y) r → ctx_at (nodes s) (root s) (Some x) path →
  NoDup (x :: y :: ids l ++ ids r ++ pids path) → l ≠ E →
  (∀ i, i ∉ x :: y :: ids l ++ ids r ++ pids path → nodes s !! i = h0 !! i) →
  ∃ s', (let! n := load s (Some x) in
         let! s := rb_change_child s (Some x) (Some y) (rb_parent n) in
         let! n := load s (Some x) in
         let! s := set_child L s (Some y) (rb_left n) in
         let! s := set_parent s (rb_left n) (Some y) in
         let! s := set_red s (Some y) (rb_red n) in K s) = K s' ∧
    zrep (<[x := Node (pid path) (rid l) rx c]> h0) s' (T c l y r) path ∧
    nodes s' !! x = Some (Node (pid path) (rid l) rx c).
Proof.
  intros Hx Hy Hl Hr Hc Hn Hne Hf.
  apply NoDup_cons in Hn as [Hxn Hn]. apply NoDup_cons in Hn as [Hyn Hn].
  rewrite !NoDup_app in Hn. destruct Hn as (Hnl&Hlr&Hnr&Hrp&Hnp).
  assert (Hxy : x ≠ y) by set_solver.
  unfold load. simpl. rewrite Hx. cbn [deref res_bind rb_parent].
  destruct (change_child_spec s x (Some y) path) as (s1&->&Hc1&Hs1&Hy1); [done|done|set_solver| |].
  { intros ? [= <-]. split; [set_solver|eauto]. }
  specialize (Hy1 y _ eq_refl Hy). cbn [res_bind].
  rewrite (Hs1 x), Hx by (set_solver || congruence). cbn [deref res_bind rb_left rb_red].
  unfold set_child. rewrite (store_Ok _ _ _ _ Hy1). cbn [res_bind with_child with_parent rb_parent rb_right rb_red].
  set (s2 := Rb _ _).
  assert (H2 : ∀ i, i ≠ y → i ∉ pids path → nodes s2 !! i = nodes s !! i).
  { intros i ??. simpl. rewrite lookup_insert_ne by done. apply Hs1; [done|congruence]. }
  destruct (adopt_spec s2 (Some x) l (Some y)) as (s3&E3&Hrt3&Hl3&Hs3); [|done|].
  { eapply tree_at_ext; [|done]. intros i Hi. apply H2; set_solver. }
  destruct (rid l) as [lx|] eqn:El; [|by destruct l]. rewrite E3. cbn [res_bind].
  assert (Hy3 : nodes s3 !! y = Some (Node (pid path) (Some lx) (rid r) cy)).
  { rewrite Hs3 by set_solver. simpl. by rewrite lookup_insert_eq. }
  unfold set_red. rewrite (store_Ok _ _ _ _ Hy3). cbn [res_bind with_red rb_parent rb_left rb_right].
  eexists. split; [done|].
  assert (Hin : ∀ i, i ≠ y → i ∉ pids path → i ∉ ids l → <[y:=Node (pid path) (Some lx) (rid r) c]> (nodes s3) !! i = nodes s !! i).
  { intros i ???. rewrite lookup_insert_ne by done. rewrite Hs3 by done. by apply H2. }
  assert (Hxs : <[y:=Node (pid path) (Some lx) (rid r) c]> (nodes s3) !! x = Some (Node (pid path) (Some lx) rx c)).
  { rewrite Hin by set_solver. done. }
  split; [|done]. split; simpl nodes; simpl root; cbn [rid tree_at].
  - rewrite lookup_insert_eq, El. split_and!; [done| |].
    + eapply tree_at_ext; [|exact Hl3]. intros i Hi. apply lookup_insert_ne. set_solver.
    + eapply tree_at_ext; [|exact Hr]. intros i Hi. apply Hin; set_solver.
  - rewrite Hrt3. eapply ctx_at_ext; [|exact Hc1]. intros i Hi. rewrite lookup_insert_ne by set_solver.
    rewrite Hs3 by set_solver. simpl. apply lookup_insert_ne. set_solver.
  - simpl. rewrite <-app_assoc. simpl. rewrite NoDup_app, NoDup_cons, NoDup_app. set_solver.
  - simpl. intros i Hi. destruct (decide (i = x)) as [->|]; [by rewrite lookup_insert_eq|].
    rewrite Hin by set_solver. rewrite lookup_insert_ne by done. apply Hf. set_solver.
Qed.
(** *** The invariant along a path *)

Lemma unfill_rbt t path :
  rbtree_ok (fill path t) →
  ∃ n, rbt n t ∧ rbp n path ∧ isred t && pred_path path = false ∧ (isred t = true → path ≠ []).
Proof.
  revert t. induction path as [|[d c x sb] path IH]; intros t; simpl.
  { intros [Hr [n Hn]]. exists n. rewrite Hr. naive_solver. }
  intros Hok. destruct (IH _ Hok) as (n&Hn&Hp&Hc&Hne). unfold fill1 in Hn, Hc, Hne. simpl in Hn, Hc, Hne.
  rewrite isred_mk in Hc, Hne. apply rbt_mk in Hn. destruct c.
  - destruct Hn as (Ht&Hsb&?&?). exists n. rewrite Ht. naive_solver.
  - destruct n as [|n]; [done|]. destruct Hn. exists n. rewrite andb_false_r. naive_solver.
Qed.

Lemma pred_path_rename p1 d c x y sb p2 :
  pred_path (p1 ++ F d c x sb :: p2) = pred_path (p1 ++ F d c y sb :: p2).
Proof. by destruct p1. Qed.

Lemma rbp_rename n p1 d c x y sb p2 : rbp n (p1 ++ F d c x sb :: p2) → rbp n (p1 ++ F d c y sb :: p2).
Proof.
  revert n. induction p1 as [|[d1 c1 x1 sb1] p1 IH]; intros n; [by destruct c|]. simpl.
  destruct c1; [|naive_solver]. rewrite (pred_path_rename p1 d c x y). intros (?&?&?&_&?). split_and!; auto.
  by destruct p1.
Qed.

(** What is left to repair after taking out a node with an empty side. *)
Definition to_fix (red : bool) (b : tree) (path : list frame) : Prop :=
  if red then rbtree_ok (fill path b) else ∃ k, rbw k b ∧ rbp (S k) path.

Lemma bypass_rb d c x b path : rbtree_ok (fill path (mk d c E x b)) → to_fix c b path.
Proof.
  intros (n&Hn&Hp&Hc&Hne)%unfill_rbt. rewrite isred_mk in *. apply rbt_mk in Hn. destruct c; simpl.
  - destruct Hn as (_&Hb&_&Hrb). destruct (fill_rbt n b path) as (m&Hm&Hr); [done|done|by rewrite Hb|].
    split; [|by exists m]. destruct (isred (fill path b)) eqn:Er; [|done]. exfalso. by apply Hne, Hr.
  - destruct n as [|n]; [done|]. destruct Hn as [_ Hb]. exists n. split; [by apply rbt_rbw|done].
Qed.

Lemma to_fix_rename red b p1 d c x y sb p2 :
  to_fix red b (p1 ++ F d c x sb :: p2) → to_fix red b (p1 ++ F d c y sb :: p2).
Proof.
  unfold to_fix. destruct red; [|intros (k&?&?); exists k; split; [done|by eapply rbp_rename]].
  intros (n&Hn&Hp&Hc&Hne)%unfill_rbt. rewrite (pred_path_rename _ _ _ _ y) in Hc.
  destruct (fill_rbt n b (p1 ++ F d c y sb :: p2)) as (m&Hm&Hr); [done|by eapply rbp_rename|done|].
  split; [|by exists m]. destruct (isred (fill (p1 ++ F d c y sb :: p2) b)) eqn:Er; [|done].
  specialize (Hr eq_refl). by destruct p1.
Qed.
End erase.

(** How the cursor stands after [rb_unlink] took [x] out. *)
Definition unlinked (h0 : gmap positive rb_node) (t0 : tree) (x : positive)
    (s' : rb) (red : bool) (ch parent : ptr) : Prop :=
  ∃ b path nx l1 l2, ch = rid b ∧ parent = pid path ∧
    zrep (<[x := nx]> h0) s' b path ∧ nodes s' !! x = Some nx ∧ (x ∉ ids b ++ pids path) ∧
    inorder t0 = l1 ++ x :: l2 ∧ inorder (fill path b) = l1 ++ l2 ∧
    (rbtree_ok t0 → to_fix red b path).

Lemma inorder_fill_split path : ∃ p q, ∀ t, inorder (fill path t) = p ++ inorder t ++ q.
Proof.
  induction path as [|[d c x sb] path (p&q&IH)]; [exists [], []; intros; by rewrite app_nil_r|].
  destruct d.
  - exists p, (x :: inorder sb ++ q). intros t. simpl. rewrite IH. unfold fill1. simpl. rewrite ?inorder_mk. simpl.
    by rewrite <-app_assoc.
  - exists (p ++ inorder sb ++ [x]), q. intros t. simpl. rewrite IH. unfold fill1. simpl. rewrite ?inorder_mk. simpl.
    by rewrite <-!app_assoc.
Qed.

(** The leftmost node comes first. *)
Lemma inorder_leftmost path c x b :
  Forall (λ f, fd f = L) path → inorder (fill path (mk L c E x b)) = x :: inorder (fill path b).
Proof.
  intros Hd. revert Hd. generalize (mk L c E x b) as t, (eq_refl : inorder (mk L c E x b) = x :: inorder b).
  revert b. induction path as [|[d c1 x1 sb] path IH]; intros b t Ht Hd; [done|].
  apply Forall_cons in Hd as [Hd1 Hd]. simpl in Hd1. subst d. simpl. apply IH; [|done].
  unfold fill1. simpl. rewrite ?inorder_mk. simpl. by rewrite Ht.
Qed.

Lemma unlink_one h0 s d c x b path :
  zrep h0 s (mk d c E x b) path →
  ∃ s', rb_change_child s (Some x) (rid b) (pid path) = Ok s' ∧
    unlinked h0 (fill path (mk d c E x b)) x s' c (rid b) (pid path).
Proof.
  intros Hz. destruct (bypass_spec _ _ _ _ _ _ _ Hz) as (s'&Es&Hz'&Hx&Hni). exists s'. split; [done|].
  destruct (inorder_fill_split path) as (p&q&Hpq).
  exists b, path, (mk_node d (pid path) None (rid b) c).
  destruct d; [exists p, (inorder b ++ q)|exists (p ++ inorder b), q]; split_and!; try done.
  all: rewrite ?Hpq, ?inorder_mk; simpl; rewrite <-?app_assoc; try done.
  all: intros Hok; by eapply bypass_rb.
Qed.

(** The successor of [x] with everything between detached from it: ready to
    take the place of [x]. *)
Lemma detach_successor {A} (K : rb → ptr → res A) h0 s c l x path path' cy y b :
  zrep h0 s (mk L cy E y b) (path' ++ F R c x l :: path) →
  let r := fill path' b in let ppar := pid (path' ++ F R c x l :: path) in
  ∃ s1 rx ly,
    (let! (s, parent) :=
       if decide (ppar = Some x) then
         let! s := match rid b with None => Ok s | Some _ => set_parent s (rid b) (Some y) end in
         Ok (s, Some y)
       else
         let! s := rb_change_child s (Some y) (rid b) ppar in
         let! n := load s (Some x) in
         let! s := set_child R s (Some y) (rb_right n) in
         let! s := set_parent s (rb_right n) (Some y) in
         Ok (s, ppar) in K s parent) = K s1 (pid (path' ++ F R c y l :: path)) ∧
    nodes s1 !! x = Some (Node (pid path) (rid l) rx c) ∧ nodes s1 !! y = Some (Node ppar ly (rid r) cy) ∧
    tree_at (nodes s1) (Some x) l ∧ tree_at (nodes s1) (Some y) r ∧ ctx_at (nodes s1) (root s1) (Some x) path ∧
    NoDup (x :: y :: ids l ++ ids r ++ pids path) ∧
    (∀ i, i ∉ x :: y :: ids l ++ ids r ++ pids path → nodes s1 !! i = h0 !! i).
Proof.
  intros Hz r ppar.
  assert (Hperm : ids (mk L cy E y b) ++ pids (path' ++ F R c x l :: path) ≡ₚ x :: y :: ids l ++ ids r ++ pids path).
  { rewrite <-fill_ids, fill_app. simpl. rewrite fill_ids. unfold fill1. rewrite ids_mk. simpl.
    subst r. rewrite !fill_ids, ids_mk. simpl. f_equal. f_equal.
    rewrite (Permutation_app_comm (ids b ++ pids path')). by rewrite <-!app_assoc. }
  pose proof (z_nodup _ _ _ _ Hz) as Hn. rewrite Hperm in Hn.
  assert (Hf0 : ∀ i, i ∉ x :: y :: ids l ++ ids r ++ pids path → nodes s !! i = h0 !! i).
  { intros i Hi. apply Hz. by rewrite Hperm. }
  pose proof Hn as Hd. apply NoDup_cons in Hd as [Hxn Hd]. apply NoDup_cons in Hd as [Hyn Hd].
  rewrite !NoDup_app in Hd. destruct Hd as (Hnl&Hlr&Hnr&Hrp&Hnp). assert (Hxy : x ≠ y) by set_solver.
  destruct path' as [|f path'].
  - subst ppar r. simpl in *. rewrite decide_True by done. destruct Hz as [Ht Hc _ _].
    apply tree_at_mk in Ht as (Hy&_&Hb). rewrite rid_mk in Hc. destruct Hc as (Hx&Hl&Hc). simpl in *.
    destruct (adopt_spec s (Some y) b (Some y)) as (s1&->&Hrt&Hb1&Hs1); [done|done|]. cbn [res_bind].
    exists s1, (Some y), None. split; [done|].
    rewrite (Hs1 x), (Hs1 y) by set_solver. split_and!; try done.
    + eapply tree_at_ext; [|done]. intros i Hi. apply Hs1. set_solver.
    + rewrite Hrt. eapply ctx_at_ext; [|done]. intros i Hi. apply Hs1. set_solver.
    + intros i Hi. rewrite Hs1 by set_solver. auto.
  - destruct (bypass_spec _ _ _ _ _ _ _ Hz) as (s1&Es1&Hz1&Hy1&Hyn1).
    rewrite zrep_fill_app in Hz1. fold r in Hz1. rewrite decide_False.
    2: { subst ppar. simpl. intros [= Hfx]. apply Hxn. rewrite <-Hfx. right. apply elem_of_app. right.
         apply elem_of_app. left. subst r. rewrite fill_ids. simpl. set_solver. }
    fold ppar in Es1. rewrite Es1. cbn [res_bind]. rewrite (load_frame _ _ _ _ _ _ _ _ Hz1). cbn [res_bind mk_node rb_right].
    destruct Hz1 as [Hr1 (Hx1&Hl1&Hc1) _ Hf1]. cbn [fx fd fc fs pid] in *.
    unfold set_child. rewrite (store_Ok _ _ _ _ Hy1). cbn [res_bind]. set (s2 := Rb _ _).
    assert (H2 : ∀ i, i ≠ y → nodes s2 !! i = nodes s1 !! i) by (intros i Hi; by apply lookup_insert_ne).
    destruct (adopt_spec s2 (Some x) r (Some y)) as (s3&E3&Hrt3&Hr3&Hs3); [|done|].
    { eapply tree_at_ext; [|done]. intros i Hi. apply H2. set_solver. }
    assert (Hrne : ∃ q, rid r = Some q).
    { destruct r as [|? ? q ?] eqn:Er; [|by exists q]. subst r. apply (f_equal (length ∘ ids)) in Er. simpl in Er.
      rewrite fill_ids, length_app in Er. unfold fill1 in Er. rewrite ids_mk in Er. simpl in Er. lia. }
    destruct Hrne as [q Hq]. rewrite Hq in E3 |- *. rewrite E3. cbn [res_bind].
    exists s3, (rid r), None. split; [done|].
    rewrite (Hs3 x), (Hs3 y) by set_solver. rewrite (H2 x) by done. simpl nodes at 2. rewrite lookup_insert_eq.
    split_and!; try done.
    + by rewrite Hq.
    + eapply tree_at_ext; [|done]. intros i Hi. rewrite Hs3 by set_solver. apply H2. set_solver.
    + rewrite Hrt3. eapply ctx_at_ext; [|done]. intros i Hi. rewrite Hs3 by set_solver. apply H2. set_solver.
    + intros i Hi. rewrite Hs3, H2 by set_solver.
      rewrite Hf1 by (simpl; set_solver). apply lookup_insert_ne. set_solver.
Qed.

Lemma unlink_spec h0 s c l x r path :
  zrep h0 s (T c l x r) path →
  ∃ s' red ch parent, rb_unlink s (Some x) = Ok (s', red, ch, parent) ∧
    unlinked h0 (fill path (T c l x r)) x s' red ch parent.
Proof.
  intros Hz. unfold rb_unlink. rewrite (load_cursor _ _ L _ _ _ _ _ Hz). cbn [res_bind mk_node rb_left rb_right rb_parent rb_red].
  destruct (decide (l = E)) as [->|Hl].
  { destruct (unlink_one _ _ L _ _ _ _ Hz) as (s'&Es&Hu). simpl rid at 1. rewrite Es. eauto 10. }
  destruct (rid l) as [lx|] eqn:El; [|by destruct l].
  destruct (decide (r = E)) as [->|Hr].
  { destruct (unlink_one _ _ R _ _ _ _ Hz) as (s'&Es&Hu). simpl rid at 1. rewrite El in *. rewrite Es. eauto 10. }
  destruct (rid r) as [rx|] eqn:Erx; [|by destruct r].
  change (T c l x r) with (mk R c r x l) in Hz. rewrite <-zrep_up in Hz.
  destruct (descend_spec h0 (size (nodes s)) L s r _ Hz) as (cy&y&b&path'&Ed&Hrt&Hd); [done| |].
  { pose proof (zrep_size _ _ _ _ Hz) as Hsz. rewrite length_app in Hsz. lia. }
  rewrite Erx in Ed. rewrite Ed. cbn [res_bind]. rewrite Hrt, <-zrep_fill_app in Hz.
  rewrite (load_cursor _ _ _ _ _ _ _ _ Hz). cbn [res_bind mk_node rb_parent rb_right rb_red].
  edestruct (detach_successor (λ s parent,
      let! n := load s (Some x) in
      let! s := rb_change_child s (Some x) (Some y) (rb_parent n) in
      let! n := load s (Some x) in
      let! s := set_child L s (Some y) (rb_left n) in
      let! s := set_parent s (rb_left n) (Some y) in
      let! s := set_red s (Some y) (rb_red n) in
      Ok (s, cy, rid b, parent)) _ _ _ _ _ _ _ _ _ _ Hz) as (s1&rx'&ly&->&Hx1&Hy1&Hl1&Hr1&Hc1&Hn1&Hf1).
  edestruct (replace_spec h0 (λ s, Ok (s, cy, rid b, pid (path' ++ F R c y l :: path))) s1 x y l)
    as (s2&->&Hz2&Hx2); [done..|].
  do 4 eexists. split; [done|]. change (T c l y (fill path' b)) with (mk R c (fill path' b) y l) in Hz2.
  rewrite <-zrep_up, <-zrep_fill_app in Hz2.
  destruct (inorder_fill_split path) as (p&q&Hpq).
  eexists b, (path' ++ F R c y l :: path), _, (p ++ inorder l), (y :: inorder (fill path' b) ++ q).
  split; [done|]. split; [done|]. split; [done|]. split; [done|]. split_and!.
  - rewrite <-fill_ids, fill_app. simpl. rewrite fill_ids. unfold fill1. rewrite ids_mk. simpl.
    apply NoDup_cons in Hn1 as [Hn1 _]. set_solver.
  - rewrite Hpq. simpl. rewrite Hrt, inorder_leftmost by done. by rewrite <-!app_assoc.
  - rewrite fill_app. simpl. rewrite Hpq. unfold fill1. simpl. rewrite ?inorder_mk. simpl. by rewrite <-!app_assoc.
  - intros Hok. eapply (to_fix_rename _ _ _ _ _ x), (bypass_rb L _ y). rewrite fill_app, <-Hrt. done.
Qed.

(** A tree in the heap, agreeing with [h0] elsewhere. *)
Definition rep (h0 : gmap positive rb_node) (s : rb) (t : tree) : Prop := zrep h0 s t [] ∧ rbtree_ok t.

Lemma find_node x t : x ∈ ids t → ∃ path c l r, t = fill path (T c l x r).
Proof.
  induction t as [|c l IHl y r IHr]; simpl; [set_solver|].
  rewrite elem_of_app, elem_of_cons. intros [Hx|[->|Hx]].
  - destruct (IHl Hx) as (path&c'&l'&r'&->). exists (path ++ [F L c y r]), c', l', r'. by rewrite fill_app.
  - by exists [], c, l, r.
  - destruct (IHr Hx) as (path&c'&l'&r'&->). exists (path ++ [F R c y l]), c', l', r'. by rewrite fill_app.
Qed.

Lemma erase_spec h0 s t x :
  rep h0 s t → x ∈ ids t →
  ∃ s' t' l1 l2, rb_erase s (Some x) = Ok s' ∧
    rep (<[x := Node (Some x) None None false]> h0) s' t' ∧
    inorder t = l1 ++ x :: l2 ∧ inorder t' = l1 ++ l2.
Proof.
  intros [Hz Hok] Hx. destruct (find_node x t Hx) as (path&c&l&r&->). rewrite <-zrep_fill in Hz.
  destruct (unlink_spec _ _ _ _ _ _ _ Hz) as (s1&red&ch&parent&Eu&b&pathb&nx&l1&l2&->&->&Hz1&Hnx&Hni&Hin&Hin'&Hfix).
  unfold rb_erase. rewrite Eu. cbn [res_bind]. specialize (Hfix Hok).
  assert (∃ s2 t2, (if red then Ok s1 else rb_erase_fixup s1 (rid b) (pid pathb)) = Ok s2 ∧
    zrep (<[x := nx]> h0) s2 t2 [] ∧ rbtree_ok t2 ∧ inorder t2 = inorder (fill pathb b)) as (s2&t2&->&Hz2&Hok2&Hin2).
  { destruct red; simpl in Hfix.
    - exists s1, (fill pathb b). rewrite zrep_fill in Hz1. done.
    - destruct Hfix as (k&Hw&Hp). by apply (erase_fixup_spec _ _ _ _ k). }
  cbn [res_bind].
  assert (Hx2 : x ∉ ids t2).
  { rewrite Hin2, Hin'. pose proof (z_nodup _ _ _ _ Hz) as Hn. rewrite <-fill_ids, Hin in Hn.
    rewrite NoDup_app, NoDup_cons in Hn. set_solver. }
  assert (Hnx2 : nodes s2 !! x = Some nx).
  { rewrite (z_frame _ _ _ _ Hz2); [apply lookup_insert_eq|]. simpl. by rewrite app_nil_r. }
  unfold set_child, set_red, RB_CLEAR_NODE, set_parent. rewrite (store_Ok _ _ _ _ Hnx2). cbn [res_bind].
  do 3 (erewrite store_Ok by apply lookup_insert_eq; cbn [res_bind]). simpl nodes. simpl root. rewrite !insert_insert_eq.
  eexists _, t2, l1, l2. split; [done|]. split; [|by rewrite Hin2]. split; [|done].
  destruct Hz2 as [Ht2 Hc2 Hn2 Hf2]. split; simpl.
  - eapply tree_at_ext; [|done]. intros i Hi. apply lookup_insert_ne. set_solver.
  - done.
  - done.
  - intros i Hi. destruct (decide (i = x)) as [->|]; [by rewrite !lookup_insert_eq|].
    rewrite !lookup_insert_ne by done. rewrite Hf2 by done. by apply lookup_insert_ne.
Qed.

Lemma insert_spec h0 s path x d p q :
  rep h0 s (fill path E) → x ∉ ids (fill path E) → is_Some (nodes s !! x) →
  (∀ f rest, path = f :: rest → fd f = d) →
  (∀ t, inorder (fill path t) = p ++ inorder t ++ q) →
  ∃ s' t', (let! s := rb_link_node s (Some x) (pid path) d in rb_insert_color s (Some x)) = Ok s' ∧
    rep h0 s' t' ∧ inorder (fill path E) = p ++ q ∧ inorder t' = p ++ x :: q.
Proof.
  intros [Hz Hok] Hx Hlive Hd Hpq. rewrite <-zrep_fill in Hz. rewrite fill_ids in Hx.
  destruct (link_spec _ _ x _ d Hz) as (s1&->&Hz1); [done..|]. cbn [res_bind].
  apply unfill_rbt in Hok as (n&->&Hp&_).
  destruct (insert_color_spec _ _ _ _ Hz1 Hp) as (s2&t2&->&Hz2&Hok2&Hin).
  exists s2, t2. split; [done|]. split; [done|]. rewrite Hin, !Hpq. done.
Qed.

(** The tree after a change of nodes outside it. *)
Lemma rep_ext h h' s t rt :
  rep h s t → root s = rt → (∀ i, i ∈ ids t → h' !! i = nodes s !! i) → rep h' (Rb h' rt) t.
Proof.
  intros [[Ht Hc Hn Hf] Hok] <- He. split; [|done]. split; simpl; [|done|done|done].
  eapply tree_at_ext; done.
Qed.

(** ** Traversal *)

(** The order in which steps towards side [d] visit the tree. *)
Definition ord (d : dir) (t : tree) : list positive :=
  match d with R => inorder t | L => reverse (inorder t) end.

Lemma ord_mk d c a x b : ord d (mk (opp d) c a x b) = ord d a ++ x :: ord d b.
Proof. destruct d; [|done]. unfold ord. simpl. rewrite reverse_app, reverse_cons, <-app_assoc. done. Qed.
Lemma ord_mk' d c a x b : ord d (mk d c a x b) = ord d b ++ x :: ord d a.
Proof. rewrite <-mk_opp. apply ord_mk. Qed.
Lemma ord_E d : ord d E = []. Proof. by destruct d. Qed.

(** The node a climb out of the [d] side ends at. *)
Fixpoint next_up (d : dir) (path : list frame) : ptr :=
  match path with
  | [] => None
  | f :: path => if decide (fd f = d) then next_up d path else Some (fx f)
  end.

Lemma ord_fill d path : ∃ p q, (∀ t, ord d (fill path t) = p ++ ord d t ++ q) ∧ head q = next_up d path.
Proof.
  induction path as [|[d' c x sb] path (p&q&Hpq&Hq)].
  { exists [], []. split; [|done]. intros t. by rewrite app_nil_r. }
  simpl. case_decide as Hd; [subst d'|assert (d' = opp d) as -> by (by destruct d, d')].
  - exists (p ++ ord d sb ++ [x]), q. split; [|done]. intros t. rewrite Hpq. unfold fill1. simpl.
    rewrite ord_mk'. by rewrite <-!app_assoc.
  - exists p, (x :: ord d sb ++ q). split; [|done]. intros t. rewrite Hpq. unfold fill1. simpl.
    rewrite ord_mk. by rewrite <-!app_assoc.
Qed.

Lemma ord_end d path c x b :
  Forall (λ f, fd f = opp d) path → head (ord d (fill path (mk (opp d) c E x b))) = Some x.
Proof.
  intros Hd. assert (∃ q, ord d (mk (opp d) c E x b) = x :: q) as [q Hq]
    by (rewrite ord_mk, ord_E; eauto).
  revert Hq. generalize (mk (opp d) c E x b) as t. revert q.
  induction path as [|[d' c1 x1 sb] path IH]; intros q t Hq; [simpl; by rewrite Hq|].
  apply Forall_cons in Hd as [Hd1 Hd]. simpl in Hd1. subst d'. simpl. eapply IH; [done|].
  unfold fill1. simpl. rewrite ord_mk, Hq. done.
Qed.

Section traverse.
Context (h0 : gmap positive rb_node) (d : dir) (s : rb).

Lemma climb_spec fuel t path :
  zrep h0 s t path → t ≠ E → (length path ≤ fuel)%nat → climb d fuel s (rid t) = Ok (next_up d path).
Proof.
  revert t path. induction fuel as [|fuel IH]; intros t path Hz Hne Hf;
    (destruct (mk_case L t) as [->|(c&a&x&b&->)]; [done|]);
    cbn [climb]; rewrite rid_mk, (load_cursor _ _ _ _ _ _ _ _ Hz); cbn [res_bind]; rewrite mkn_parent;
    (destruct path as [|[d' c' y sb] path]; [done|]); simpl in Hf; [lia|].
  simpl pid. cbv iota beta. rewrite (load_frame _ _ _ _ _ _ _ _ Hz). cbn [res_bind]. rewrite rid_mk. simpl next_up.
  pose proof (rid_sibling _ _ _ _ _ _ _ _ Hz (or_introl Hne)) as Hs. rewrite rid_mk in Hs.
  destruct (decide (d' = d)) as [->|Hd].
  - rewrite mkn_near, decide_True by done. rewrite zrep_up in Hz.
    rewrite <-(rid_mk d c' (mk L c a x b) y sb). apply IH; [done|apply (fill_not_E [])|lia].
  - assert (d = opp d') as -> by (by destruct d, d'). by rewrite mkn_far, decide_False.
Qed.

(** The first node in the order of [d] is the end of the other side. *)
Lemma end_spec t : zrep h0 s t [] → rb_end (opp d) s = Ok (head (ord d t)).
Proof.
  intros Hz. unfold rb_end. rewrite (z_ctx _ _ _ _ Hz). destruct (decide (t = E)) as [->|Hne].
  { simpl. by rewrite ord_E. }
  destruct (descend_spec h0 (size (nodes s)) (opp d) s t [] Hz Hne) as (c&x&b&path&Ed&->&Hd).
  { pose proof (zrep_size _ _ _ _ Hz) as Hsz. rewrite length_app in Hsz. lia. }
  rewrite ord_end by done. destruct (rid _) eqn:Er; [done|]. by destruct (fill path _).
Qed.

(** The loop ends within the height of the tree. *)
Lemma end_height fuel t r :
  zrep h0 s t [] → (height t ≤ S fuel)%nat → root s = Some r → descend (opp d) fuel s (Some r) = Ok (head (ord d t)).
Proof.
  intros Hz Hh Hr. rewrite (z_ctx _ _ _ _ Hz) in Hr. simpl in Hr. assert (Hne : t ≠ E) by by intros ->. rewrite <-Hr.
  destruct (descend_height h0 fuel (opp d) s t [] Hz Hne Hh) as (c&x&b&path&Ed&Ht&Hd). rewrite Ed, Ht, ord_end by done. done.
Qed.

Lemma step_cursor c a x b path :
  zrep h0 s (mk d c a x b) path →
  rb_step d s (Some x) = Ok (match head (ord d a) with Some y => Some y | None => next_up d path end).
Proof.
  intros Hz. unfold rb_step, RB_EMPTY_NODE. rewrite (load_cursor _ _ _ _ _ _ _ _ Hz). cbn [res_bind].
  rewrite mkn_parent, bool_decide_eq_false_2.
  2: { pose proof (NoDup_cursor _ _ _ _ _ _ (z_nodup _ _ _ _ Hz)) as (_&_&Hx&_).
       destruct path as [|f path]; [done|]. simpl in *. intros [= Hfx]. rewrite Hfx in Hx. set_solver. }
  rewrite mkn_near. destruct (decide (a = E)) as [->|Hne].
  - rewrite ord_E. simpl. pose proof (zrep_path_size _ _ _ _ Hz).
    rewrite <-(rid_mk d c E x b). apply climb_spec; [done|apply (fill_not_E [])|done].
  - rewrite <-zrep_up in Hz. destruct (rid a) as [ax|] eqn:Ea; [|by destruct a].
    destruct (descend_spec h0 (size (nodes s)) (opp d) s a _ Hz Hne) as (c'&y&b'&path'&Ed&Ha&Hd).
    { pose proof (zrep_size _ _ _ _ Hz) as Hsz. rewrite length_app in Hsz. lia. }
    rewrite Ea in Ed. rewrite Ed. rewrite Ha, ord_end by done. done.
Qed.
End traverse.

(** ** The interface of the tree *)

Lemma NoDup_split_unique {A} (l1 l2 p q : list A) x :
  NoDup (l1 ++ x :: l2) → l1 ++ x :: l2 = p ++ x :: q → l1 = p ∧ l2 = q.
Proof.
  revert p. induction l1 as [|a l1 IH]; intros [|b p] Hn Heq; simplify_eq/=; [done| | |].
  - apply NoDup_cons in Hn as [Hn _]. set_solver.
  - apply NoDup_cons in Hn as [Hn _]. set_solver.
  - apply NoDup_cons in Hn as [_ Hn]. destruct (IH p Hn) as [-> ->]; done.
Qed.

Lemma step_spec h0 d s t x p q :
  zrep h0 s t [] → ord d t = p ++ x :: q → rb_step d s (Some x) = Ok (head q).
Proof.
  intros Hz Ho.
  assert (Hx : x ∈ ids t).
  { assert (x ∈ ord d t) by (rewrite Ho; set_solver). destruct d; [|done]. unfold ord in *. by apply elem_of_reverse. }
  assert (Hn : NoDup (ord d t)).
  { pose proof (z_nodup _ _ _ _ Hz) as Hn. rewrite app_nil_r in Hn. destruct d; [|done]. unfold ord. by rewrite reverse_Permutation. }
  destruct (find_node x t Hx) as (path&c&l&r&->). rewrite <-zrep_fill in Hz.
  destruct (mk_case d (T c l x r)) as [?|(c'&a&x'&b&Heq)]; [done|]. rewrite Heq in *.
  assert (x' = x) as -> by (apply (f_equal rid) in Heq; rewrite rid_mk in Heq; by injection Heq).
  rewrite (step_cursor _ _ _ _ _ _ _ _ Hz). destruct (ord_fill d path) as (p'&q'&Hpq&Hq').
  rewrite Hpq, ord_mk', <-app_assoc in *. simpl in *. rewrite app_assoc in *.
  apply NoDup_split_unique in Ho as [_ <-]; [|done]. rewrite <-Hq'. by destruct (ord d a).
Qed.

(** *** Height *)

Lemma rbt_height n t : rbt n t → (height t ≤ 2 * n + if isred t then 1 else 0)%nat.
Proof.
  revert n. induction t as [|[] l IHl x r IHr]; intros n Hn; simpl in *; [lia| |].
  - destruct Hn as (El&Er&Hl&Hr). apply IHl in Hl. apply IHr in Hr. rewrite El in Hl. rewrite Er in Hr. lia.
  - destruct n as [|n]; [done|]. destruct Hn as [Hl Hr]. apply IHl in Hl. apply IHr in Hr.
    destruct (isred l), (isred r); lia.
Qed.

Lemma rbt_size n t : rbt n t → (2 ^ n ≤ S (length (inorder t)))%nat.
Proof.
  revert n. induction t as [|[] l IHl x r IHr]; intros n Hn; simpl in *; [subst; simpl; lia| |];
    rewrite length_app; simpl.
  - destruct Hn as (_&_&Hl&Hr). apply IHl in Hl. lia.
  - destruct n as [|n]; [done|]. destruct Hn as [Hl Hr]. apply IHl in Hl. apply IHr in Hr. simpl. lia.
Qed.

Lemma rb_height_bound t :
  rbtree_ok t → (height t ≤ 2 * Nat.log2 (S (length (inorder t))))%nat.
Proof.
  intros [Hr [n Hn]]. pose proof (rbt_height n t Hn) as Hh. rewrite Hr in Hh.
  pose proof (Nat.log2_le_mono _ _ (rbt_size n t Hn)) as Hl. rewrite Nat.log2_pow2 in Hl by lia. lia.
Qed.

(** ** Properties *)

(** C16: insertion refines insertion into a list.  Linking a node at a leaf
    position of a red-black tree and calling [rb_insert_color] never faults or
    loops; the nodes are then, in order, those of before with the new one at
    exactly that position, every parent and child pointer is consistent, the
    colours and black heights are again valid, and no other node of the heap
    has been touched. *)
Theorem rb_insert_refines h0 s path x d p q :
  rep h0 s (fill path E) → x ∉ ids (fill path E) → is_Some (nodes s !! x) →
  (∀ f rest, path = f :: rest → fd f = d) →
  (∀ t, inorder (fill path t) = p ++ inorder t ++ q) →
  ∃ s' t', (let! s := rb_link_node s (Some x) (pid path) d in rb_insert_color s (Some x)) = Ok s' ∧
    rep h0 s' t' ∧ inorder (fill path E) = p ++ q ∧ inorder t' = p ++ x :: q.
Proof. apply insert_spec. Qed.

(** C5: removal refines removal from a list.  [rb_erase] of any node of a
    red-black tree never faults or loops; the others stay in their order, the
    pointers and the red-black invariant are again consistent, the removed node
    is left cleared, and no other node of the heap has been touched. *)
Theorem rb_erase_refines h0 s t x :
  rep h0 s t → x ∈ inorder t →
  ∃ s' t' l1 l2, rb_erase s (Some x) = Ok s' ∧
    rep (<[x := Node (Some x) None None false]> h0) s' t' ∧
    inorder t = l1 ++ x :: l2 ∧ inorder t' = l1 ++ l2.
Proof. apply erase_spec. Qed.

(** C36: traversal follows the order.  [rb_first] and [rb_last] find exactly the
    first and the last node, NULL in an empty tree, and their loops take at most
    [2 * log2 (n + 1)] steps in a tree of [n] nodes.  From the node at position
    [i], [rb_next] and [rb_prev] find exactly the nodes at [i + 1] and [i - 1],
    or NULL past the ends. *)
Theorem rb_traversal h0 s t :
  rep h0 s t →
  let steps := (2 * Nat.log2 (S (length (inorder t))))%nat in
  rb_first s = Ok (head (inorder t)) ∧ rb_last s = Ok (last (inorder t)) ∧
  (∀ r, root s = Some r →
     descend L steps s (Some r) = Ok (head (inorder t)) ∧ descend R steps s (Some r) = Ok (last (inorder t))) ∧
  ∀ i x, inorder t !! i = Some x →
    rb_next s (Some x) = Ok (inorder t !! S i) ∧
    rb_prev s (Some x) = Ok (match i with O => None | S j => inorder t !! j end).
Proof.
  intros [Hz Hok]. cbv zeta. split; [exact (end_spec h0 R s t Hz)|]. split.
  { rewrite <-head_reverse. exact (end_spec h0 L s t Hz). }
  split.
  { intros r Hr. pose proof (Nat.le_le_succ_r _ _ (rb_height_bound t Hok)) as Hh. rewrite <-head_reverse. split.
    - exact (end_height h0 R s _ t r Hz Hh Hr).
    - exact (end_height h0 L s _ t r Hz Hh Hr). }
  intros i x Hi. pose proof (take_drop_middle _ _ _ Hi) as Hs. split.
  - unfold rb_next. rewrite (step_spec h0 R s t x (take i (inorder t)) (drop (S i) (inorder t)) Hz) by done.
    rewrite head_lookup, lookup_drop. by rewrite Nat.add_0_r.
  - unfold rb_prev. rewrite (step_spec h0 L s t x (reverse (drop (S i) (inorder t))) (reverse (take i (inorder t))) Hz).
    + rewrite head_reverse. destruct i as [|i]; [done|]. f_equal. rewrite last_lookup, length_take.
      apply lookup_lt_Some in Hi. rewrite Nat.min_l by lia. simpl. apply lookup_take_lt. lia.
    + unfold ord. rewrite <-Hs at 1. by rewrite reverse_app, reverse_cons, <-app_assoc.
Qed.

(** *** Witnesses *)

Definition example_tree : tree := T false (T true E 1 E) 2 (T true E 3 E).
Definition example_heap : gmap positive rb_node :=
  <[1%positive := Node (Some 2%positive) None None true]>
  (<[2%positive := Node None (Some 1%positive) (Some 3%positive) false]>
  (<[3%positive := Node (Some 2%positive) None None true]>
  (<[4%positive := Node (Some 4%positive) None None false]> ∅))).
Definition example_rb : rb := Rb example_heap (Some 2%positive).

Lemma example_rep : rep example_heap example_rb example_tree.
Proof.
  split; [|split; [reflexivity|exists 1%nat; simpl; tauto]].
  split; [simpl; split_and!; reflexivity|reflexivity| |done].
  refine (bool_decide_eq_true_1 _ _). vm_compute. reflexivity.
Qed.

(** Node 4 becomes the right child of node 3: a red parent and a red uncle. *)
Lemma rb_insert_refines_witness :
  ∃ s' t', (let! s := rb_link_node example_rb (Some 4%positive) (Some 3%positive) R in
            rb_insert_color s (Some 4%positive)) = Ok s' ∧
    rep example_heap s' t' ∧ inorder t' = [1; 2; 3; 4]%positive.
Proof.
  destruct (rb_insert_refines example_heap example_rb
    [F R true 3 E; F R false 2 (T true E 1 E)] 4 R [1; 2; 3]%positive []) as (s'&t'&Es&Hr&_&Hin).
  - exact example_rep.
  - refine (bool_decide_eq_false_1 _ _). vm_compute. reflexivity.
  - eexists. reflexivity.
  - intros f rest [= <- _]. reflexivity.
  - intros t. simpl. rewrite ?app_nil_r. reflexivity.
  - exists s', t'. split; [exact Es|]. split; [exact Hr|exact Hin].
Defined.

(** Removing the root, which has two children. *)
Lemma rb_erase_refines_witness :
  ∃ s' t', rb_erase example_rb (Some 2%positive) = Ok s' ∧
    rep (<[2%positive := Node (Some 2%positive) None None false]> example_heap) s' t' ∧ inorder t' = [1; 3]%positive.
Proof.
  destruct (rb_erase_refines example_heap example_rb example_tree 2) as (s'&t'&l1&l2&Es&Hr&Hin&Hin').
  - exact example_rep.
  - refine (bool_decide_eq_true_1 _ _). vm_compute. reflexivity.
  - exists s', t'. split; [exact Es|]. split; [exact Hr|]. rewrite Hin'.
    change (inorder example_tree) with ([1%positive] ++ 2%positive :: [3%positive]) in Hin.
    destruct (NoDup_split_unique [1%positive] [3%positive] l1 l2 2%positive) as [<- <-]; [|exact Hin|reflexivity].
    refine (bool_decide_eq_true_1 _ _). vm_compute. reflexivity.
Defined.

Lemma rb_traversal_witness :
  rb_first example_rb = Ok (Some 1%positive) ∧ descend R 4 example_rb (Some 2%positive) = Ok (Some 3%positive) ∧
  rb_next example_rb (Some 1%positive) = Ok (Some 2%positive).
Proof.
  destruct (rb_traversal example_heap example_rb example_tree example_rep) as (H1&_&H2&H3).
  split; [exact H1|]. split; [exact (proj2 (H2 2%positive eq_refl))|exact (proj1 (H3 0%nat 1%positive eq_refl))].
Defined.
