(* ===== verification/Vma.v ===== *)
(** * Address-space layout: [mm/vma.c]

    The areas of one address space: a store of [vm_struct]s, the red-black tree
    of [Rbtree] over their embedded nodes, the file store of [Fdtable] for the
    references areas hold, and a page table behind an interface.  [log] records
    the effects outside this state in program order: page-table removals, TLB
    and instruction-cache flushes, and page frees. *)
From stdpp Require Import base tactics numbers list gmap sorting.
From S2P Require Import Prelude Bitmap Refcount Fdtable Rbtree Kiov.

Definition VM_READ : Z := BIT 0.
Definition VM_WRITE : Z := BIT 1.
Definition VM_EXEC : Z := BIT 2.
Definition VM_ALL : Z := Z.lor (Z.lor VM_READ VM_WRITE) VM_EXEC.
Definition UNMAP_BATCH_PAGES : Z := 32.

(** ** The page table, as the layout code uses it *)

Definition user_page (a : Z) : Prop := UVADDR_START ≤ a < UVADDR_END ∧ a mod PAGE_SIZE = 0.

(** What an entry may grant for the permissions of an area: write implies read,
    and a page that others share is never writable. *)
Definition grant (flags : Z) (shared : bool) : Z :=
  let f := if Z.testbit flags 1 then Z.lor flags VM_READ else flags in
  if shared then Z.land f (not64 VM_WRITE) else f.

(** [pt_leaf t a] is the page mapped at the page-aligned user address [a],
    [pt_perm t a] what its entry grants, [pt_shared t p] that the page [p] has
    other users. *)
Class PageTable (PT : Type) := {
  pt_unmap : PT → Z → res (option Z * PT);          (* pgtable_unmap_page *)
  pt_protect : PT → Z → Z → res (bool * PT);        (* pgtable_protect_page *)
  pt_leaf : PT → Z → option Z;
  pt_perm : PT → Z → option Z;
  pt_shared : PT → Z → bool;
  pt_wf : PT → Prop;
  pt_unmap_law t a : pt_wf t → user_page a →
    ∃ t', pt_unmap t a = Ok (pt_leaf t a, t') ∧ pt_wf t' ∧
      (∀ b, user_page b → pt_leaf t' b = if decide (b = a) then None else pt_leaf t b) ∧
      (∀ b, user_page b → pt_perm t' b = if decide (b = a) then None else pt_perm t b) ∧
      pt_shared t' = pt_shared t;
  pt_protect_law t a flags : pt_wf t → user_page a → 0 ≤ flags < 8 →
    ∃ t', pt_protect t a flags = Ok (bool_decide (is_Some (pt_leaf t a)), t') ∧ pt_wf t' ∧
      (∀ b, user_page b → pt_leaf t' b = pt_leaf t b) ∧
      (∀ b, user_page b → pt_perm t' b =
         if decide (b = a) then (λ p, grant flags (pt_shared t p)) <$> pt_leaf t a else pt_perm t b) ∧
      pt_shared t' = pt_shared t;
}.

Record vm_struct := Vm {
  vm_mm : bool;                 (* vm_mm is not NULL *)
  vm_start : Z;
  vm_end : Z;
  vm_flags : Z;
  vm_file : fptr;
  vm_offset : Z;
  vm_fstart : Z;
  vm_fend : Z;
}.

Abbreviation area := (positive * vm_struct)%type.

Inductive event :=
  | Unmapped (addr page : Z)
  | TlbFlush
  | IcacheFlush
  | FreePage (page : Z).

Section vma.
Context (CONFIG_DEBUG_REFCOUNT : bool) (release : positive → option Z).
Context {PT : Type} `{!PageTable PT}.

Record mm := Mm {
  tree : rb;
  vmas : gmap positive vm_struct;
  fst_ : fstore;
  pt : PT;
  log : list event;
}.

Definition with_tree (m : mm) (t : rb) : mm := Mm t (vmas m) (fst_ m) (pt m) (log m).
Definition with_vmas (m : mm) (v : gmap positive vm_struct) : mm := Mm (tree m) v (fst_ m) (pt m) (log m).
Definition with_files (m : mm) (f : fstore) : mm := Mm (tree m) (vmas m) f (pt m) (log m).
Definition with_pt (m : mm) (p : PT) : mm := Mm (tree m) (vmas m) (fst_ m) p (log m).
Definition emit (m : mm) (e : list event) : mm := Mm (tree m) (vmas m) (fst_ m) (pt m) (log m ++ e).

Definition load_vma (m : mm) (v : positive) : res vm_struct := deref (vmas m !! v).

(** [RB_EMPTY_NODE(&vma->vm_node)] *)
Definition detached (m : mm) (v : positive) : res bool :=
  let! vm := load_vma m v in
  let! e := RB_EMPTY_NODE (tree m) (Some v) in
  Ok (negb (vm_mm vm) && e).

(** ** Allocation; [a] is what the allocator returns *)

Definition vma_alloc (m : mm) (a : option positive) : option positive * mm :=
  match a with
  | None => (None, m)
  | Some v =>
      (Some v, with_vmas (with_tree m (Rb (<[v := Node (Some v) None None false]> (nodes (tree m))) (root (tree m))))
                         (<[v := Vm false 0 0 0 None 0 0 0]> (vmas m)))
  end.

Definition vma_free (m : mm) (v : positive) : res mm :=
  let! d := detached m v in
  let! _ := Assert d in
  let! vm := load_vma m v in
  let! (_, f) := fput CONFIG_DEBUG_REFCOUNT release (fst_ m) (vm_file vm) in
  Ok (with_vmas (with_tree (with_files m f) (Rb (delete v (nodes (tree m))) (root (tree m))))
                (delete v (vmas m))).

(** [struct vm_struct *vma __free(vma)] at the end of its scope. *)
Definition cleanup_vma (m : mm) (v : option positive) : res mm :=
  match v with None => Ok m | Some v => vma_free m v end.

(** ** Search *)

Fixpoint find_loop (fuel : nat) (m : mm) (addr : Z) (node : ptr) : res ptr :=
  match node with
  | None => Ok None
  | Some v =>
      let! vm := load_vma m v in
      let! n := load (tree m) node in
      match fuel with
      | O => Loop
      | S fuel' =>
          if addr <? vm_start vm then find_loop fuel' m addr (rb_left n)
          else if addr >=? vm_end vm then find_loop fuel' m addr (rb_right n)
          else Ok (Some v)
      end
  end.
Definition vma_find (m : mm) (addr : Z) : res ptr :=
  find_loop (size (nodes (tree m))) m addr (root (tree m)).

Fixpoint intersection_loop (fuel : nat) (m : mm) (start end_ : Z) (node found : ptr) : res ptr :=
  match node with
  | None => Ok found
  | Some v =>
      let! vm := load_vma m v in
      let! n := load (tree m) node in
      match fuel with
      | O => Loop
      | S fuel' =>
          if start >=? vm_end vm then intersection_loop fuel' m start end_ (rb_right n) found
          else intersection_loop fuel' m start end_ (rb_left n)
                 (if vm_start vm <? end_ then Some v else found)
      end
  end.
Definition vma_find_intersection (m : mm) (start end_ : Z) : res ptr :=
  intersection_loop (size (nodes (tree m))) m start end_ (root (tree m)) None.

(** ** Insertion and removal *)

(** The walk to the link: its parent and side, or an overlap. *)
Fixpoint insert_walk (fuel : nat) (m : mm) (vm : vm_struct) (link parent : ptr) (d : dir)
    : res (option (ptr * dir)) :=
  match link with
  | None => Ok (Some (parent, d))
  | Some q =>
      let! queued := load_vma m q in
      let! n := load (tree m) link in
      match fuel with
      | O => Loop
      | S fuel' =>
          if vm_end vm <=? vm_start queued then insert_walk fuel' m vm (rb_left n) link L
          else if vm_start vm >=? vm_end queued then insert_walk fuel' m vm (rb_right n) link R
          else Ok None
      end
  end.

Definition set_mm (b : bool) (vm : vm_struct) : vm_struct :=
  Vm b (vm_start vm) (vm_end vm) (vm_flags vm) (vm_file vm) (vm_offset vm) (vm_fstart vm) (vm_fend vm).

Definition vma_insert (m : mm) (v : positive) : res (Z * mm) :=
  let! d := detached m v in
  let! _ := Assert d in
  let! vm := load_vma m v in
  if (vm_start vm <? UVADDR_START) || (vm_end vm >? UVADDR_END) || (vm_start vm >=? vm_end vm) ||
     truth (Z.land (Z.lor (vm_start vm) (vm_end vm)) (PAGE_SIZE - 1)) ||
     truth (Z.land (vm_flags vm) (not64 VM_ALL))
  then Ok (- EINVAL, m) else
  let! link := insert_walk (size (nodes (tree m))) m vm (root (tree m)) None L in
  match link with
  | None => Ok (- EEXIST, m)
  | Some (parent, d) =>
      let m := with_vmas m (<[v := set_mm true vm]> (vmas m)) in
      let! t := rb_link_node (tree m) (Some v) parent d in
      let! t := rb_insert_color t (Some v) in
      Ok (0, with_tree m t)
  end.

Definition vma_remove (m : mm) (v : positive) : res mm :=
  let! vm := load_vma m v in
  let! e := RB_EMPTY_NODE (tree m) (Some v) in
  let! _ := Assert (vm_mm vm && negb e) in
  let! t := rb_erase (tree m) (Some v) in
  let! t := RB_CLEAR_NODE t (Some v) in
  Ok (with_vmas (with_tree m t) (<[v := set_mm false vm]> (vmas m))).

(** The area, or an error as [ERR_PTR]. *)
Definition map_range (m : mm) (a : option positive) (start end_ flags : Z) : res ((Z + positive) * mm) :=
  match vma_alloc m a with
  | (None, m) => Ok (inl (- ENOMEM), m)
  | (Some v, m) =>
      let! vm := load_vma m v in
      let m := with_vmas m (<[v := Vm (vm_mm vm) start end_ flags (vm_file vm) (vm_offset vm)
                                     (vm_fstart vm) (vm_fend vm)]> (vmas m)) in
      let! (ret, m) := vma_insert m v in
      if truth ret then let! m := vma_free m v in Ok (inl ret, m) else Ok (inr v, m)
  end.

(** ** Splitting *)

Definition vma_split (m : mm) (v : positive) (addr : Z) (right : positive) : res mm :=
  let! vm := load_vma m v in
  (* *right = *vma, without the link *)
  let r := set_mm false vm in
  let! t := RB_CLEAR_NODE (tree m) (Some right) in
  let r := Vm (vm_mm r) addr (vm_end r) (vm_flags r) (vm_file r) (vm_offset r) (vm_fstart r) (vm_fend r) in
  let! (r, f) :=
    match vm_file r with
    | None => Ok (r, fst_ m)
    | Some _ =>
        let! f := fget CONFIG_DEBUG_REFCOUNT (fst_ m) (vm_file r) in
        Ok (Vm (vm_mm r) (vm_start r) (vm_end r) (vm_flags r) (vm_file r)
               (u64 (vm_offset r + (addr - vm_start vm)))
               (MAX addr (vm_fstart r)) (MAX addr (vm_fend r)), f)
    end in
  let m := with_vmas (with_files (with_tree m t) f) (<[right := r]> (vmas m)) in
  let! m := vma_remove m v in
  let! vm := load_vma m v in
  let vm := Vm (vm_mm vm) (vm_start vm) addr (vm_flags vm) (vm_file vm) (vm_offset vm)
              (vm_fstart vm) (vm_fend vm) in
  let vm := match vm_file vm with
    | None => vm
    | Some _ => Vm (vm_mm vm) (vm_start vm) (vm_end vm) (vm_flags vm) (vm_file vm) (vm_offset vm)
                   (MIN addr (vm_fstart vm)) (MIN addr (vm_fend vm))
    end in
  let m := with_vmas m (<[v := vm]> (vmas m)) in
  let! (ret, m) := vma_insert m v in
  let! _ := Assert (negb (truth ret)) in
  let! (ret, m) := vma_insert m right in
  let! _ := Assert (negb (truth ret)) in
  Ok m.

(** [a1] and [a2] are what the two [vma_alloc]s return.  The mmap lock is held. *)
Definition split_range (m : mm) (a1 a2 : option positive) (start end_ : Z) : res (Z * mm) :=
  let! first := vma_find m start in
  let! last := vma_find m (u64 (end_ - 1)) in
  let! _ := Assert ((start <? end_) && negb (truth (Z.land (Z.lor start end_) (PAGE_SIZE - 1)))) in
  let! need1 := match first with
    | None => Ok false
    | Some v => let! vm := load_vma m v in Ok (vm_start vm <? start)
    end in
  let (left, m) := if need1 then vma_alloc m a1 else (None, m) in
  if need1 && bool_decide (left = None) then Ok (- ENOMEM, m) else
  let! need2 := match last with
    | None => Ok false
    | Some v => let! vm := load_vma m v in Ok (end_ <? vm_end vm)
    end in
  let (right, m) := if need2 then vma_alloc m a2 else (None, m) in
  if need2 && bool_decide (right = None) then let! m := cleanup_vma m left in Ok (- ENOMEM, m) else
  let! m := match left with
    | None => Ok m
    | Some l => let! v := deref first in vma_split m v start l
    end in
  let! m := match right with
    | None => Ok m
    | Some r =>
        let! found := vma_find m (u64 (end_ - 1)) in
        let! v := deref found in
        vma_split m v end_ r
    end in
  Ok (0, m).

(** ** Unmapping *)

(** [struct unmaps]: the pages of the batch. *)
Definition unmaps_flush (m : mm) (batch : list Z) : mm * list Z :=
  match batch with
  | [] => (m, [])
  | _ => (emit m (TlbFlush :: (FreePage <$> batch)), [])
  end.

(** [batch.pages[batch.nr_pages++] = page] *)
Definition batch_add (batch : list Z) (pg : Z) : res (list Z) :=
  if Z.of_nat (length batch) <? UNMAP_BATCH_PAGES then Ok (batch ++ [pg]) else Fault.

Fixpoint unmap_pages (fuel : nat) (m : mm) (addr vend : Z) (batch : list Z) : res (mm * list Z) :=
  if addr <? vend then
    match fuel with
    | O => Loop
    | S fuel' =>
        let! (page, t) := pt_unmap (pt m) addr in
        let m := with_pt m t in
        let! (m, batch) :=
          match page with
          | None => Ok (m, batch)
          | Some pg =>
              let m := emit m [Unmapped addr pg] in
              let! batch := batch_add batch pg in
              Ok (if Z.of_nat (length batch) =? UNMAP_BATCH_PAGES then unmaps_flush m batch else (m, batch))
          end in
        unmap_pages fuel' m (u64 (addr + PAGE_SIZE)) vend batch
    end
  else Ok (m, batch).

Fixpoint unmap_loop (fuel : nat) (m : mm) (start end_ : Z) (batch : list Z) : res (mm * list Z) :=
  let! found := vma_find_intersection m start end_ in
  match found with
  | None => Ok (m, batch)
  | Some v =>
      match fuel with
      | O => Loop
      | S fuel' =>
          let! m := vma_remove m v in
          let! vm := load_vma m v in
          let! (m, batch) := unmap_pages (Z.to_nat ((vm_end vm - vm_start vm) / PAGE_SIZE)) m
                               (vm_start vm) (vm_end vm) batch in
          let! m := vma_free m v in
          unmap_loop fuel' m start end_ batch
      end
  end.

Definition unmap_range (m : mm) (a1 a2 : option positive) (start end_ : Z) : res (Z * mm) :=
  let! (ret, m) := split_range m a1 a2 start end_ in
  if truth ret then Ok (ret, m) else
  let! (m, batch) := unmap_loop (size (nodes (tree m))) m start end_ [] in
  let (m, _) := unmaps_flush m batch in
  Ok (0, m).

(** ** Protection *)

Fixpoint protect_pages (fuel : nat) (m : mm) (start vend flags : Z) (changed : bool) : res (mm * Z * bool) :=
  if start <? vend then
    match fuel with
    | O => Loop
    | S fuel' =>
        let! (c, t) := pt_protect (pt m) start flags in
        protect_pages fuel' (with_pt m t) (u64 (start + PAGE_SIZE)) vend flags (changed || c)
    end
  else Ok (m, start, changed).

Fixpoint protect_loop (fuel : nat) (m : mm) (start end_ flags : Z) (changed : bool) : res (Z * mm * bool) :=
  if start <? end_ then
    match fuel with
    | O => Loop
    | S fuel' =>
        let! found := vma_find m start in
        match found with
        | None => Ok (- ENOMEM, m, changed)
        | Some v =>
            let! vm := load_vma m v in
            let m := with_vmas m (<[v := Vm (vm_mm vm) (vm_start vm) (vm_end vm) flags (vm_file vm)
                                           (vm_offset vm) (vm_fstart vm) (vm_fend vm)]> (vmas m)) in
            let! (m, start, changed) :=
              protect_pages (Z.to_nat ((vm_end vm - start) / PAGE_SIZE)) m start (vm_end vm) flags changed in
            protect_loop fuel' m start end_ flags changed
        end
    end
  else Ok (0, m, changed).

Definition protect_range (m : mm) (a1 a2 : option positive) (start end_ flags : Z) : res (Z * mm) :=
  let! (ret, m) := split_range m a1 a2 start end_ in
  if truth ret then Ok (ret, m) else
  let m := if truth (Z.land flags VM_EXEC) then emit m [IcacheFlush] else m in
  let! (ret, m, changed) := protect_loop (S (size (nodes (tree m)))) m start end_ flags false in
  Ok (ret, if changed then emit m [TlbFlush] else m).

End vma.

Section layout.
Context {PT : Type} `{!PageTable PT}.
Abbreviation mm := (mm (PT := PT)).

(** ** The abstract layout

    The areas in address order, with what backs each address. *)

Definition vma_wf (vm : vm_struct) : Prop :=
  UVADDR_START ≤ vm_start vm ∧ vm_start vm < vm_end vm ∧ vm_end vm ≤ UVADDR_END ∧
  vm_start vm mod PAGE_SIZE = 0 ∧ vm_end vm mod PAGE_SIZE = 0 ∧ 0 ≤ vm_flags vm < 8.

Definition covers (a : Z) (x : area) : Prop := vm_start x.2 ≤ a < vm_end x.2.
#[global] Instance covers_dec a x : Decision (covers a x).
Proof. unfold covers. apply _. Defined.

Definition meets (s e : Z) (x : area) : Prop := s < vm_end x.2 ∧ vm_start x.2 < e.
#[global] Instance meets_dec s e x : Decision (meets s e x).
Proof. unfold meets. apply _. Defined.

Definition area_at (a : Z) (l : list area) : option area := head (filter (covers a) l).

Definition before (x y : area) : Prop := vm_end x.2 ≤ vm_start y.2.
Definition nonempty (x : area) : Prop := vm_start x.2 < vm_end x.2.

(** What backs address [a] of an area: permissions, and the file with the
    position and whether [a] lies in the file-backed part. *)
Definition vm_view (vm : vm_struct) (a : Z) : Z * option (positive * Z * bool) :=
  (vm_flags vm,
   (λ f, (f, u64 (vm_offset vm + (a - vm_start vm)), bool_decide (vm_fstart vm ≤ a < vm_fend vm))) <$> vm_file vm).
Definition view (l : list area) (a : Z) : option (Z * option (positive * Z * bool)) :=
  (λ x, vm_view x.2 a) <$> area_at a l.

(** *** Sorted areas *)

Lemma area_at_app a l1 l2 :
  area_at a (l1 ++ l2) = match area_at a l1 with Some x => Some x | None => area_at a l2 end.
Proof. unfold area_at. rewrite filter_app. by destruct (filter (covers a) l1). Qed.

Lemma area_at_cons a x l : area_at a (x :: l) = if decide (covers a x) then Some x else area_at a l.
Proof. unfold area_at. rewrite filter_cons. by case_decide. Qed.

Lemma area_at_None a l : area_at a l = None ↔ Forall (λ x, ¬ covers a x) l.
Proof.
  unfold area_at. induction l as [|x l IH]; [done|]. rewrite filter_cons, Forall_cons. case_decide; simpl; naive_solver.
Qed.

Lemma area_at_Some a l x : area_at a l = Some x → x ∈ l ∧ covers a x.
Proof.
  unfold area_at. intros H. destruct (filter (covers a) l) as [|y k] eqn:E; [done|]. injection H as ->.
  assert (Hx : x ∈ filter (covers a) l) by (rewrite E; by left). by apply list_elem_of_filter in Hx as [? ?].
Qed.

Definition in_order (l : list area) : Prop := StronglySorted before l ∧ Forall nonempty l.

Lemma in_order_app l1 l2 :
  in_order (l1 ++ l2) ↔ in_order l1 ∧ in_order l2 ∧ (∀ x y, x ∈ l1 → y ∈ l2 → before x y).
Proof. unfold in_order. rewrite StronglySorted_app_iff, Forall_app. naive_solver. Qed.

Lemma in_order_cons x l :
  in_order (x :: l) ↔ nonempty x ∧ in_order l ∧ (∀ y, y ∈ l → before x y).
Proof.
  unfold in_order. rewrite Forall_cons. split.
  - intros [Hs [Hn Hl]]. apply StronglySorted_inv in Hs as [Hs Hf]. rewrite Forall_forall in Hf. naive_solver.
  - intros (Hn&[Hs Hl]&Hf). split; [|done]. constructor; [done|]. by apply Forall_forall.
Qed.

(** In a sorted list the area covering an address is unique. *)
Lemma area_at_unique a l1 x l2 :
  in_order (l1 ++ x :: l2) → covers a x → area_at a (l1 ++ x :: l2) = Some x.
Proof.
  intros (_&Ho&Hb)%in_order_app Hc. rewrite area_at_app, area_at_cons, decide_True by done.
  replace (area_at a l1) with (@None area); [done|]. symmetry. apply area_at_None, Forall_forall.
  intros y Hy Hcy. specialize (Hb y x Hy ltac:(by left)). unfold covers, before in *. lia.
Qed.

(** ** Search *)

(** The areas of a subtree are in the store. *)
Definition stored (m : mm) (l : list area) : Prop := Forall (λ x, vmas m !! x.1 = Some x.2) l.

(** A node of the tree and the areas on both sides of it. *)
Lemma node_areas m p c l x r sg :
  tree_at (nodes (tree m)) p (T c l x r) → inorder (T c l x r) = sg.*1 → stored m sg → in_order sg →
  ∃ s1 vm s2, sg = s1 ++ (x, vm) :: s2 ∧ inorder l = s1.*1 ∧ inorder r = s2.*1 ∧
    load_vma m x = Ok vm ∧ load (tree m) (Some x) = Ok (Node p (rid l) (rid r) c) ∧
    stored m s1 ∧ stored m s2 ∧ in_order s1 ∧ in_order s2 ∧ vm_start vm < vm_end vm ∧
    (∀ y, y ∈ s1 → vm_end y.2 ≤ vm_start vm ∧ vm_start y.2 < vm_end y.2) ∧
    (∀ y, y ∈ s2 → vm_end vm ≤ vm_start y.2 ∧ vm_start y.2 < vm_end y.2).
Proof.
  intros (Hx&_&_) Hin Hst Ho. simpl in Hin. symmetry in Hin. apply fst_app_inv in Hin as (s1&vm&s2&->&E1&E2).
  unfold stored in *. rewrite Forall_app, Forall_cons in Hst. destruct Hst as (?&Hvm&?). simpl in Hvm.
  apply in_order_app in Ho as (Ho1&Ho2&Hb). apply in_order_cons in Ho2 as (Hne&Ho2&Hb2).
  exists s1, vm, s2. unfold load_vma, load. simpl. rewrite Hvm, Hx. split_and!; try done.
  - intros y Hy. split; [exact (Hb y (x, vm) Hy ltac:(by left))|].
    destruct Ho1 as [_ Hne1]. rewrite Forall_forall in Hne1. exact (Hne1 y Hy).
  - intros y Hy. split; [exact (Hb2 y Hy)|].
    destruct Ho2 as [_ Hne2]. rewrite Forall_forall in Hne2. exact (Hne2 y Hy).
Qed.

Lemma find_loop_spec fuel m addr p t sg :
  tree_at (nodes (tree m)) p t → inorder t = sg.*1 → stored m sg → in_order sg → (length sg ≤ fuel)%nat →
  find_loop fuel m addr (rid t) = Ok (fst <$> area_at addr sg).
Proof.
  revert p t sg. induction fuel as [|fuel IH]; intros p t sg Ht Hin Hst Ho Hf;
    destruct t as [|c l x r]; try (by destruct sg).
  { pose proof (f_equal length Hin) as Hl. simpl in Hl. rewrite length_app, length_fmap in Hl. simpl in Hl. lia. }
  destruct (node_areas _ _ _ _ _ _ _ Ht Hin Hst Ho) as (s1&vm&s2&->&E1&E2&Hv&Hn&Hs1&Hs2&Ho1&Ho2&Hne&Hb1&Hb2).
  destruct Ht as (_&Hl&Hr). cbn [find_loop rid]. rewrite Hv. cbn [res_bind]. rewrite Hn. cbn [res_bind rb_left rb_right].
  rewrite length_app in Hf. simpl in Hf. rewrite area_at_app, area_at_cons. rewrite Z.geb_leb.
  assert (Hnone1 : vm_start vm ≤ addr → area_at addr s1 = None).
  { intros ?. apply area_at_None, Forall_forall. intros y Hy Hc. specialize (Hb1 y Hy). unfold covers in Hc. lia. }
  assert (Hnone2 : addr < vm_end vm → area_at addr s2 = None).
  { intros ?. apply area_at_None, Forall_forall. intros y Hy Hc. specialize (Hb2 y Hy). unfold covers in Hc. lia. }
  destruct (Z.ltb_spec addr (vm_start vm)).
  - rewrite (IH _ _ s1 Hl) by (done || lia). rewrite decide_False by (unfold covers; simpl; lia).
    rewrite Hnone2 by lia. by destruct (area_at addr s1).
  - rewrite Hnone1 by done. destruct (Z.leb_spec (vm_end vm) addr).
    + rewrite (IH _ _ s2 Hr) by (done || lia). by rewrite decide_False by (unfold covers; simpl; lia).
    + by rewrite decide_True by (unfold covers; simpl; lia).
Qed.

Definition first_meeting (s e : Z) (l : list area) : option area := head (filter (meets s e) l).

Lemma first_meeting_app s e l1 l2 :
  first_meeting s e (l1 ++ l2) = match first_meeting s e l1 with Some x => Some x | None => first_meeting s e l2 end.
Proof. unfold first_meeting. rewrite filter_app. by destruct (filter (meets s e) l1). Qed.
Lemma first_meeting_cons s e x l :
  first_meeting s e (x :: l) = if decide (meets s e x) then Some x else first_meeting s e l.
Proof. unfold first_meeting. rewrite filter_cons. by case_decide. Qed.
Lemma first_meeting_None s e l : first_meeting s e l = None ↔ Forall (λ x, ¬ meets s e x) l.
Proof.
  unfold first_meeting. induction l as [|x l IH]; [done|]. rewrite filter_cons, Forall_cons. case_decide; simpl; naive_solver.
Qed.
Lemma first_meeting_Some s e l x :
  first_meeting s e l = Some x → ∃ l1 l2, l = l1 ++ x :: l2 ∧ Forall (λ y, ¬ meets s e y) l1 ∧ meets s e x.
Proof.
  induction l as [|y l IH]; [done|]. rewrite first_meeting_cons. case_decide.
  - intros [= ->]. by exists [], l.
  - intros H1. destruct (IH H1) as (l1&l2&->&?&?). exists (y :: l1), l2. by rewrite Forall_cons.
Qed.

Lemma intersection_loop_spec fuel m s e found p t sg :
  tree_at (nodes (tree m)) p t → inorder t = sg.*1 → stored m sg → in_order sg → (length sg ≤ fuel)%nat →
  intersection_loop fuel m s e (rid t) found =
    Ok (match first_meeting s e sg with Some x => Some x.1 | None => found end).
Proof.
  revert found p t sg. induction fuel as [|fuel IH]; intros found p t sg Ht Hin Hst Ho Hf;
    destruct t as [|c l x r]; try (by destruct sg).
  { pose proof (f_equal length Hin) as Hl. simpl in Hl. rewrite length_app, length_fmap in Hl. simpl in Hl. lia. }
  destruct (node_areas _ _ _ _ _ _ _ Ht Hin Hst Ho) as (s1&vm&s2&->&E1&E2&Hv&Hn&Hs1&Hs2&Ho1&Ho2&Hne&Hb1&Hb2).
  destruct Ht as (_&Hl&Hr). cbn [intersection_loop rid]. rewrite Hv. cbn [res_bind]. rewrite Hn. cbn [res_bind rb_left rb_right].
  rewrite length_app in Hf. simpl in Hf. rewrite first_meeting_app, first_meeting_cons, Z.geb_leb.
  destruct (Z.leb_spec (vm_end vm) s).
  - rewrite (IH _ _ _ s2 Hr) by (done || lia). rewrite decide_False by (unfold meets; simpl; lia).
    replace (first_meeting s e s1) with (@None area); [done|]. symmetry. apply first_meeting_None, Forall_forall.
    intros y Hy Hc. specialize (Hb1 y Hy). unfold meets in Hc. lia.
  - rewrite (IH _ _ _ s1 Hl) by (done || lia). destruct (first_meeting s e s1); [done|].
    destruct (Z.ltb_spec (vm_start vm) e).
    + by rewrite decide_True by (unfold meets; simpl; lia).
    + rewrite decide_False by (unfold meets; simpl; lia).
      replace (first_meeting s e s2) with (@None area); [done|]. symmetry. apply first_meeting_None, Forall_forall.
      intros y Hy Hc. specialize (Hb2 y Hy). unfold meets in Hc. lia.
Qed.

(** *** The position of a new area *)

Lemma insert_walk_spec fuel m vm h0 t path d sg p q :
  zrep h0 (tree m) t path → inorder t = sg.*1 → stored m sg → in_order sg → (length sg ≤ fuel)%nat →
  vm_start vm < vm_end vm → (∀ f rest, path = f :: rest → fd f = d) →
  (∀ u, inorder (fill path u) = p ++ inorder u ++ q) →
  (∃ path' d' s1 s2, insert_walk fuel m vm (rid t) (pid path) d = Ok (Some (pid path', d')) ∧
     fill path' E = fill path t ∧ (∀ f rest, path' = f :: rest → fd f = d') ∧ sg = s1 ++ s2 ∧
     (∀ y, y ∈ s1 → vm_end y.2 ≤ vm_start vm) ∧ (∀ y, y ∈ s2 → vm_end vm ≤ vm_start y.2) ∧
     (∀ u, inorder (fill path' u) = (p ++ s1.*1) ++ inorder u ++ (s2.*1 ++ q))) ∨
  (insert_walk fuel m vm (rid t) (pid path) d = Ok None ∧ ∃ y, y ∈ sg ∧ meets (vm_start vm) (vm_end vm) y).
Proof.
  revert t path d sg p q. induction fuel as [|fuel IH]; intros t path d sg p q Hz Hin Hst Ho Hf Hne Hd Hpq.
  all: destruct t as [|c l x r]; try (destruct sg; [|done]; left; exists path, d, [], [];
    split_and!; [done..|set_solver|set_solver|intros u; simpl; by rewrite Hpq, app_nil_r]).
  { pose proof (f_equal length Hin) as Hl. simpl in Hl. rewrite length_app, length_fmap in Hl. simpl in Hl. lia. }
  destruct (node_areas _ _ _ _ _ _ _ (z_tree _ _ _ _ Hz) Hin Hst Ho)
    as (s1&vq&s2&->&E1&E2&Hv&Hn&Hs1&Hs2&Ho1&Ho2&Hneq&Hb1&Hb2).
  cbn [insert_walk rid]. rewrite Hv. cbn [res_bind]. rewrite Hn. cbn [res_bind rb_left rb_right].
  rewrite length_app in Hf. simpl in Hf. rewrite Z.geb_leb.
  destruct (Z.leb_spec (vm_end vm) (vm_start vq)) as [Hle|Hgt].
  - change (T c l x r) with (mk L c l x r) in Hz. rewrite <-zrep_up in Hz.
    destruct (IH l (F L c x r :: path) L s1 p (x :: s2.*1 ++ q) Hz) as [(path'&d'&k1&k2&Ew&Hfl&Hd'&->&Hk1&Hk2&Hpq')|(Ew&y&Hy&Hm)];
      [done..|lia|done|by intros f rest [= <- <-]| | |].
    { intros u. simpl. rewrite Hpq. unfold fill1. simpl. rewrite ?inorder_mk. simpl. rewrite E2. by rewrite <-app_assoc. }
    + left. exists path', d', k1, (k2 ++ (x, vq) :: s2). split; [done|]. split; [by rewrite Hfl|]. split; [done|].
      split; [by rewrite <-app_assoc|]. split; [done|]. split.
      * intros y [Hy|[->|Hy]%elem_of_cons]%elem_of_app; [by apply Hk2|done|]. specialize (Hb2 y Hy). lia.
      * intros u. rewrite Hpq', fmap_app. simpl. by rewrite <-!app_assoc.
    + right. split; [done|]. exists y. split; [set_solver|done].
  - destruct (Z.leb_spec (vm_end vq) (vm_start vm)) as [Hle'|Hgt'].
    + change (T c l x r) with (mk R c r x l) in Hz. rewrite <-zrep_up in Hz.
      destruct (IH r (F R c x l :: path) R s2 (p ++ s1.*1 ++ [x]) q Hz) as [(path'&d'&k1&k2&Ew&Hfl&Hd'&->&Hk1&Hk2&Hpq')|(Ew&y&Hy&Hm)];
        [done..|lia|done|by intros f rest [= <- <-]| | |].
      { intros u. simpl. rewrite Hpq. unfold fill1. simpl. rewrite ?inorder_mk. simpl. rewrite E1. by rewrite <-!app_assoc. }
      * left. exists path', d', (s1 ++ (x, vq) :: k1), k2. split; [done|]. split; [by rewrite Hfl|]. split; [done|].
        split; [by rewrite <-app_assoc|]. split; [|split; [done|]].
        -- intros y [Hy|[->|Hy]%elem_of_cons]%elem_of_app; [|done|by apply Hk1]. specialize (Hb1 y Hy). lia.
        -- intros u. rewrite Hpq', fmap_app. simpl. by rewrite <-!app_assoc.
      * right. split; [done|]. exists y. split; [set_solver|done].
    + right. split; [done|]. exists (x, vq). split; [set_solver|]. unfold meets. simpl. lia.
Qed.

(** ** The invariant *)

(** [l]: the linked areas in order; [dt]: the detached ones; [ext]: file
    references held elsewhere. *)
Record inv (m : mm) (l dt : list area) (ext : positive → Z) : Prop := {
  i_rep : ∃ t, rep (nodes (tree m)) (tree m) t ∧ inorder t = l.*1;
  i_vmas : ∀ v vm, vmas m !! v = Some vm ↔ (v, vm) ∈ l ++ dt;
  i_nodup : NoDup (l ++ dt).*1;
  i_linked : ∀ v vm, (v, vm) ∈ l → vm_mm vm = true ∧ vma_wf vm;
  i_det : ∀ v vm, (v, vm) ∈ dt → vm_mm vm = false ∧ ∃ n, nodes (tree m) !! v = Some n ∧ rb_parent n = Some v;
  i_order : in_order l;
  i_files : acct (vm_file ∘ snd <$> l ++ dt) (fst_ m) ext;
  i_pt : pt_wf (pt m);
}.

Section ops.
Context (ext : positive → Z).

Lemma inv_stored m l dt : inv m l dt ext → stored m l.
Proof. intros H. apply Forall_forall. intros [v vm] Hx. apply (i_vmas _ _ _ _ H). set_solver. Qed.

Lemma inv_perm m l dt dt' : dt ≡ₚ dt' → inv m l dt ext → inv m l dt' ext.
Proof.
  intros Hp [H1 H2 H3 H4 H5 H6 H7 H8]. split; try done.
  - intros v vm. by rewrite H2, Hp.
  - by rewrite <-Hp.
  - intros v vm Hx. apply H5. by rewrite Hp.
  - eapply acct_perm; [|done]. by rewrite Hp.
Qed.

Lemma inv_size m l dt : inv m l dt ext → (length l ≤ size (nodes (tree m)))%nat.
Proof.
  intros [(t&[Hz _]&Hin) _ _ _ _ _ _ _]. apply zrep_size in Hz. rewrite length_app, Hin, length_fmap in Hz. lia.
Qed.

Lemma vma_find_spec m l dt addr : inv m l dt ext → vma_find m addr = Ok (fst <$> area_at addr l).
Proof.
  intros Hi. pose proof (inv_size _ _ _ Hi). pose proof (inv_stored _ _ _ Hi).
  destruct Hi as [(t&[Hz _]&Hin) _ _ _ _ Ho _ _]. unfold vma_find. rewrite (z_ctx _ _ _ _ Hz).
  eapply find_loop_spec; [apply Hz|done..].
Qed.

Lemma vma_find_intersection_spec m l dt s e :
  inv m l dt ext → vma_find_intersection m s e = Ok (fst <$> first_meeting s e l).
Proof.
  intros Hi. pose proof (inv_size _ _ _ Hi). pose proof (inv_stored _ _ _ Hi).
  destruct Hi as [(t&[Hz _]&Hin) _ _ _ _ Ho _ _]. unfold vma_find_intersection. rewrite (z_ctx _ _ _ _ Hz).
  erewrite intersection_loop_spec; [|apply Hz|done..]. by destruct (first_meeting s e l).
Qed.

Lemma inv_load m l dt v vm : inv m l dt ext → (v, vm) ∈ l ++ dt → load_vma m v = Ok vm.
Proof. intros Hi Hx. unfold load_vma. apply (i_vmas _ _ _ _ Hi) in Hx. by rewrite Hx. Qed.

Lemma detached_spec m l dt v vm : inv m l ((v, vm) :: dt) ext → detached m v = Ok true.
Proof.
  intros Hi. unfold detached. rewrite (inv_load _ _ _ _ vm Hi) by set_solver. cbn [res_bind].
  destruct (i_det _ _ _ _ Hi v vm) as (Hmm&n&Hn&Hp); [by left|].
  unfold RB_EMPTY_NODE, load. simpl. rewrite Hn. cbn [deref res_bind]. rewrite Hp, Hmm. by rewrite bool_decide_eq_true_2.
Qed.

(** Operations leave the page table and the log alone. *)
Definition quiet (m m' : mm) : Prop := pt m' = pt m ∧ log m' = log m.

Lemma not_in_fst (l : list area) v : (∀ vm, (v, vm) ∉ l) → v ∉ l.*1.
Proof. intros Hn ([w vm]&->&Hx)%list_elem_of_fmap. by apply (Hn vm). Qed.

Lemma vma_alloc_ok m l dt v :
  inv m l dt ext → vmas m !! v = None →
  let m' := (vma_alloc m (Some v)).2 in
  inv m' l ((v, Vm false 0 0 0 None 0 0 0) :: dt) ext ∧ quiet m m'.
Proof.
  intros [(t&Hr&Hin) Hv Hn Hl Hd Ho Hf Hp] Hfresh. split; [|done].
  assert (Hvn : ∀ vm, (v, vm) ∉ l ++ dt) by (intros vm Hx%Hv; congruence).
  split; simpl; try done.
  - exists t. split; [|done]. eapply rep_ext; [done|done|]. intros i Hi. apply lookup_insert_ne.
    intros <-. apply (not_in_fst (l ++ dt) v); [done|]. rewrite fmap_app, <-Hin. set_solver.
  - intros w wm. rewrite elem_of_app, elem_of_cons. destruct (decide (w = v)) as [->|].
    + rewrite lookup_insert_eq. split; [intros [= <-]; auto|].
      intros [Hx|[[= ->]|Hx]]; [|done|]; destruct (Hvn wm); set_solver.
    + rewrite lookup_insert_ne by done. rewrite Hv, elem_of_app. naive_solver.
  - rewrite fmap_app. simpl. rewrite <-Permutation_middle. apply NoDup_cons. rewrite <-fmap_app. split; [by apply not_in_fst|done].
  - intros w wm [[= -> ->]|Hx]%elem_of_cons; [split; [done|]; eexists; by rewrite lookup_insert_eq|].
    rewrite lookup_insert_ne; [by apply Hd|]. intros ->. apply (Hvn wm). set_solver.
  - eapply acct_perm; [|apply acct_None; exact Hf]. rewrite !fmap_app. simpl. by rewrite Permutation_middle.
Qed.

Lemma vma_free_ok CONFIG_DEBUG_REFCOUNT release m l dt v vm :
  inv m l ((v, vm) :: dt) ext →
  ∃ m', vma_free CONFIG_DEBUG_REFCOUNT release m v = Ok m' ∧ inv m' l dt ext ∧ quiet m m' ∧
    (∀ w, vmas m' !! w = if decide (w = v) then None else vmas m !! w) ∧
    (∀ w, nodes (tree m') !! w = if decide (w = v) then None else nodes (tree m) !! w) ∧
    root (tree m') = root (tree m).
Proof.
  intros Hi. unfold vma_free. rewrite (detached_spec _ _ _ _ _ Hi). cbn [res_bind Assert].
  rewrite (inv_load _ _ _ _ vm Hi) by set_solver. cbn [res_bind].
  destruct Hi as [(t&Hr&Hin) Hv Hn Hl Hd Ho Hf Hp]. pose proof (acct_ext _ _ _ Hf) as He.
  assert (∃ ret f, fput CONFIG_DEBUG_REFCOUNT release (fst_ m) (vm_file vm) = Ok (ret, f) ∧
    acct (vm_file ∘ snd <$> l ++ dt) f ext) as (ret&f&->&Hf').
  { eapply (acct_perm _ (vm_file vm :: (vm_file ∘ snd <$> l ++ dt))) in Hf;
      [|rewrite !fmap_app; simpl; by rewrite <-Permutation_middle].
    destruct (vm_file vm) as [p|].
    - apply acct_Some in Hf; [|done]. by apply fput_spec.
    - rewrite acct_None in Hf. exists 0, (fst_ m). split; [reflexivity|exact Hf]. }
  cbn [res_bind]. rewrite fmap_app in Hn. simpl in Hn. rewrite <-Permutation_middle in Hn.
  apply NoDup_cons in Hn as [Hvn Hn]. rewrite <-fmap_app in *.
  assert (Hne : ∀ w wm, (w, wm) ∈ l ++ dt → w ≠ v).
  { intros w wm Hx ->. apply Hvn. apply list_elem_of_fmap. by exists (v, wm). }
  eexists. split; [done|]. split; [|split; [done|]].
  2: { simpl. split_and!; [| |done]; intros w; case_decide; subst; by rewrite ?lookup_delete_eq, ?lookup_delete_ne. }
  split; simpl; try done.
  - exists t. split; [|done]. eapply rep_ext; [done|done|]. intros i Hi. apply lookup_delete_ne.
    intros <-. apply Hvn. rewrite fmap_app, <-Hin. set_solver.
  - intros w wm. destruct (decide (w = v)) as [->|].
    + rewrite lookup_delete_eq. split; [done|]. intros Hx. by apply Hne in Hx.
    + rewrite lookup_delete_ne by done. rewrite Hv, !elem_of_app, elem_of_cons. naive_solver.
  - intros w wm Hx. rewrite lookup_delete_ne; [by apply Hd; right|]. intros ->. by eapply Hne; [apply elem_of_app; right|].
Qed.

Lemma perm_move {A} (l1 l2 l3 : list A) x : (l1 ++ x :: l2) ++ l3 ≡ₚ (l1 ++ l2) ++ x :: l3.
Proof. rewrite <-app_assoc. simpl. by rewrite <-!Permutation_middle, app_assoc. Qed.

(** Removing a linked area detaches it. *)
Lemma vma_remove_ok m l1 l2 dt v vm :
  inv m (l1 ++ (v, vm) :: l2) dt ext →
  ∃ m', vma_remove m v = Ok m' ∧ inv m' (l1 ++ l2) ((v, set_mm false vm) :: dt) ext ∧ quiet m m'.
Proof.
  intros Hi. unfold vma_remove. rewrite (inv_load _ _ _ _ vm Hi) by set_solver. cbn [res_bind].
  destruct Hi as [(t&Hr&Hin) Hv Hn Hl Hd Ho Hf Hp]. destruct (Hl v vm) as [Hmm Hwf]; [set_solver|].
  assert (Hx : v ∈ inorder t) by (rewrite Hin, fmap_app; set_solver).
  assert (He : RB_EMPTY_NODE (tree m) (Some v) = Ok false).
  { destruct (find_node v t Hx) as (path&c&a&b&->). destruct Hr as [Hz _]. rewrite <-zrep_fill in Hz.
    unfold RB_EMPTY_NODE. rewrite (load_cursor _ _ L _ _ _ _ _ Hz). cbn [res_bind]. rewrite mkn_parent.
    rewrite bool_decide_eq_false_2; [done|].
    pose proof (NoDup_cursor L c a v b path (z_nodup _ _ _ _ Hz)) as (_&_&Hvp&_).
    destruct path as [|f path]; [done|]. simpl in *. intros [= Hfx]. rewrite Hfx in Hvp. set_solver. }
  rewrite He. cbn [res_bind]. rewrite Hmm. cbn [negb andb Assert res_bind].
  destruct (erase_spec _ _ _ _ Hr Hx) as (s'&t'&p&q&->&Hr'&Ein&Ein'). cbn [res_bind].
  rewrite Hin, fmap_app in Ein. simpl in Ein.
  assert (Hnd : NoDup (l1.*1 ++ v :: l2.*1)).
  { rewrite fmap_app, fmap_app in Hn. simpl in Hn. by apply NoDup_app in Hn as [Hn _]. }
  apply NoDup_split_unique in Ein as [<- <-]; [|done].
  assert (Hvt : v ∉ ids t') by (rewrite Ein'; rewrite NoDup_app, NoDup_cons in Hnd; set_solver).
  assert (Hframe : ∀ i, i ∉ ids t' → nodes s' !! i = <[v := Node (Some v) None None false]> (nodes (tree m)) !! i).
  { intros i Hni. destruct Hr' as [Hz' _]. apply Hz'. simpl. by rewrite app_nil_r. }
  assert (Hvs : nodes s' !! v = Some (Node (Some v) None None false)) by (rewrite Hframe by done; apply lookup_insert_eq).
  unfold RB_CLEAR_NODE, set_parent. rewrite (store_Ok _ _ _ _ Hvs). cbn [res_bind with_parent rb_left rb_right rb_red].
  assert (Hne : ∀ w wm, (w, wm) ∈ l1 ++ l2 ++ dt → w ≠ v).
  { intros w wm Hw ->. rewrite !fmap_app in Hn. simpl in Hn. rewrite <-app_assoc in Hn. simpl in Hn.
    rewrite <-Permutation_middle in Hn. apply NoDup_cons in Hn as [Hn _]. apply Hn. rewrite <-!fmap_app.
    apply list_elem_of_fmap. by exists (v, wm). }
  eexists. split; [done|]. split; [|done]. split; simpl; try done.
  - exists t'. split; [|by rewrite fmap_app]. eapply rep_ext; [done|done|]. intros i Hi'. apply lookup_insert_ne. set_solver.
  - intros w wm. destruct (decide (w = v)) as [->|].
    + rewrite lookup_insert_eq. rewrite elem_of_app, elem_of_cons. split; [intros [= <-]; auto|].
      intros [Hw|[[= ->]|Hw]]; [|done|]; exfalso; eapply (Hne v wm); set_solver.
    + rewrite lookup_insert_ne by done. rewrite Hv. repeat setoid_rewrite elem_of_app. rewrite !elem_of_cons. naive_solver.
  - rewrite !fmap_app in *. simpl in *. rewrite <-app_assoc in *. simpl in *. by rewrite <-!Permutation_middle in *.
  - intros w wm Hw. apply (Hl w wm). set_solver.
  - intros w wm [[= -> ->]|Hw]%elem_of_cons; [split; [done|]; eexists; by rewrite lookup_insert_eq|].
    destruct (Hd w wm Hw) as (?&n&Hwn&?). split; [done|]. exists n. split; [|done].
    assert (w ≠ v) by (apply (Hne w wm); set_solver). rewrite lookup_insert_ne by done.
    rewrite Hframe; [by rewrite lookup_insert_ne|]. rewrite Ein', <-fmap_app. intros ([w' wm']&Ew&Hw')%list_elem_of_fmap.
    simpl in Ew. subst w'. rewrite !fmap_app in Hn. apply NoDup_app in Hn as (_&Hn&_).
    apply (Hn w); [rewrite <-fmap_app; apply list_elem_of_fmap; exists (w, wm'); set_solver|].
    apply list_elem_of_fmap. by exists (w, wm).
  - apply in_order_app in Ho as (?&Ho2&Hb). apply in_order_cons in Ho2 as (_&?&_). apply in_order_app. set_solver.
  - eapply acct_perm; [|exact Hf]. rewrite !fmap_app. apply perm_move.
Qed.
(** *** Insertion *)

Lemma truth_false x : truth x = false ↔ x = 0.
Proof. unfold truth. rewrite negb_false_iff. apply Z.eqb_eq. Qed.

(** The alignment test on two addresses at once. *)
Lemma aligned_or s e :
  truth (Z.land (Z.lor s e) (PAGE_SIZE - 1)) = false ↔ s mod PAGE_SIZE = 0 ∧ e mod PAGE_SIZE = 0.
Proof.
  rewrite truth_false. change (PAGE_SIZE - 1) with (Z.ones 12).
  rewrite Z.land_lor_distr_l, !Z.land_ones by lia. apply Z.lor_eq_0_iff.
Qed.

Lemma vm_flags_ok f : 0 ≤ f < 2 ^ 64 → truth (Z.land f (not64 VM_ALL)) = false ↔ f < 8.
Proof.
  intros Hf. rewrite truth_false. change VM_ALL with (2 ^ 3 - 1). rewrite land_not64_mask by (unfold in_u64; lia).
  pose proof (Z.mod_pos_bound f (2 ^ 3) ltac:(lia)). split; intros; [lia|]. rewrite Z.mod_small by lia. lia.
Qed.

Definition insertable (vm : vm_struct) : bool :=
  negb ((vm_start vm <? UVADDR_START) || (vm_end vm >? UVADDR_END) || (vm_start vm >=? vm_end vm) ||
     truth (Z.land (Z.lor (vm_start vm) (vm_end vm)) (PAGE_SIZE - 1)) ||
     truth (Z.land (vm_flags vm) (not64 VM_ALL))).

Lemma insertable_spec vm : 0 ≤ vm_flags vm < 2 ^ 64 → insertable vm = true ↔ vma_wf vm.
Proof.
  intros Hf. unfold insertable, vma_wf. rewrite negb_true_iff, !orb_false_iff, aligned_or, vm_flags_ok by done.
  rewrite Z.ltb_ge, Z.gtb_ltb, Z.ltb_ge, Z.geb_leb, Z.leb_gt. lia.
Qed.

Lemma vma_insert_ok m l dt v vm :
  inv m l ((v, vm) :: dt) ext → 0 ≤ vm_flags vm < 2 ^ 64 →
  (¬ vma_wf vm ∧ vma_insert m v = Ok (- EINVAL, m)) ∨
  (vma_wf vm ∧ (∃ y, y ∈ l ∧ meets (vm_start vm) (vm_end vm) y) ∧ vma_insert m v = Ok (- EEXIST, m)) ∨
  (vma_wf vm ∧ ∃ m' l1 l2, l = l1 ++ l2 ∧ vma_insert m v = Ok (0, m') ∧
     inv m' (l1 ++ (v, set_mm true vm) :: l2) dt ext ∧ quiet m m').
Proof.
  intros Hi Hfl. unfold vma_insert. rewrite (detached_spec _ _ _ _ _ Hi). cbn [res_bind Assert].
  rewrite (inv_load _ _ _ _ vm Hi) by set_solver. cbn [res_bind].
  pose proof (insertable_spec vm Hfl) as Hwf. unfold insertable in Hwf.
  destruct (_ || truth _) eqn:E; cbn [negb] in Hwf.
  { left. split; [|done]. by rewrite <-Hwf. }
  right. assert (Hw : vma_wf vm) by by apply Hwf. clear Hwf E.
  pose proof (inv_size _ _ _ Hi) as Hsz. pose proof (inv_stored _ _ _ Hi) as Hst.
  destruct Hi as [(t&Hr&Hin) Hv Hn Hl Hd Ho Hf Hp].
  assert (Hvn : (v ∉ (l ++ dt).*1) ∧ NoDup (l ++ dt).*1).
  { rewrite fmap_app in Hn. simpl in Hn. rewrite <-Permutation_middle, <-fmap_app in Hn. by apply NoDup_cons in Hn. }
  destruct Hvn as [Hvn Hnd].
  destruct (Hd v vm) as (_&n&Hnv&_); [by left|].
  destruct (insert_walk_spec (size (nodes (tree m))) m vm _ t [] L l [] [] (proj1 Hr) Hin Hst Ho Hsz)
    as [(path&d&l1&l2&Ew&Hfill&Hd'&->&Hl1&Hl2&Hpq)|(Ew&Hm)].
  { apply Hw. } { done. } { intros u. simpl. by rewrite app_nil_r. }
  2: { left. rewrite (z_ctx _ _ _ _ (proj1 Hr)). simpl in Ew |- *. rewrite Ew. done. }
  right. split; [done|]. rewrite (z_ctx _ _ _ _ (proj1 Hr)). simpl in Ew |- *. rewrite Ew. cbn [res_bind].
  simpl in Hfill. rewrite <-Hfill in Hr, Hin.
  destruct (insert_spec _ _ path v d (l1.*1) (l2.*1) Hr) as (s'&t'&Eq&Hr'&_&Hin').
  { rewrite Hin. rewrite fmap_app in Hvn. set_solver. } { by eexists. } { done. }
  { intros u. rewrite Hpq. by rewrite app_nil_r. }
  cbn [tree with_vmas]. eexists _, l1, l2. split; [done|].
  destruct (rb_link_node (tree m) (Some v) (pid path) d) as [s1| | |] eqn:E1; [|done..]. cbn [res_bind] in Eq |- *.
  rewrite Eq. cbn [res_bind]. split; [done|]. split; [|done].
  assert (Hids : ∀ i, i ∈ ids t' ↔ i = v ∨ i ∈ (l1 ++ l2).*1).
  { intros i. rewrite Hin', fmap_app. set_solver. }
  assert (Hne : ∀ w wm, (w, wm) ∈ (l1 ++ l2) ++ dt → w ≠ v).
  { intros w wm Hx ->. apply Hvn. apply list_elem_of_fmap. by exists (v, wm). }
  split; simpl; try done.
  - exists t'. split; [|by rewrite Hin', fmap_app]. destruct s' as [h' rt']. by eapply rep_ext.
  - intros w wm. destruct (decide (w = v)) as [->|].
    + rewrite lookup_insert_eq. split; [intros [= <-]; set_solver|]. rewrite (perm_move l1 l2 dt), elem_of_app, elem_of_cons.
      intros [Hx|[[= ->]|Hx]]; [|done|]; exfalso; apply (Hne v wm); set_solver.
    + rewrite lookup_insert_ne, Hv, (perm_move l1 l2 dt), !elem_of_app, !elem_of_cons by done. naive_solver.
  - rewrite (perm_move l1 l2 dt), fmap_app. simpl. by rewrite fmap_app in Hn.
  - intros w wm. rewrite elem_of_app, elem_of_cons. intros [Hx|[[= -> ->]|Hx]]; [|done|]; apply (Hl w wm); set_solver.
  - intros w wm Hx. destruct (Hd w wm) as (?&nd&Hwn&?); [by right|]. split; [done|]. exists nd. split; [|done].
    destruct Hr' as [Hz' _]. rewrite (z_frame _ _ _ _ Hz'); [done|]. simpl. rewrite app_nil_r, Hids. intros [->|Hx'].
    + apply (Hne v wm); set_solver.
    + rewrite fmap_app in Hnd. apply NoDup_app in Hnd as (_&Hnd&_). apply (Hnd w Hx'). apply list_elem_of_fmap. by exists (w, wm).
  - apply in_order_app in Ho as (Ho1&Ho2&Hb). apply in_order_app. rewrite in_order_cons. split_and!; [done|apply Hw|done|exact Hl2|].
    intros x y Hx [->|Hy]%elem_of_cons; [by apply Hl1|by apply Hb].
  - eapply acct_perm; [|exact Hf]. rewrite !fmap_app. symmetry. apply perm_move.
Qed.
End ops.
End layout.
