(* ===== verification/VmaRange.v ===== *)
(** * Ranges of an address space

    The specifications of the operations of [mm/vma.c] that work on a range:
    splitting areas at its ends, unmapping it with the batched release of its
    pages, changing its protection, and mapping it.  Each states the new layout
    of the address space, address by address, and the effects on the page table
    and the TLB. *)
From stdpp Require Import base tactics numbers list gmap sorting.
From S2P Require Import Prelude Bitmap Refcount Fdtable Rbtree Kiov Vma.

Section ranges.
Context {PT : Type} `{!PageTable PT}.
Context (ext : positive → Z).

Abbreviation mm := (mm (PT := PT)).

Implicit Types (m : mm) (l dt : list area) (vm : vm_struct).

Abbreviation inv m l dt := (inv m l dt ext).

(** ** Positions in the order *)

Lemma insert_position (k1 k2 l1 l2 : list area) x :
  in_order (k1 ++ x :: k2) → (∀ y, y ∈ l1 → before y x) → (∀ y, y ∈ l2 → before x y) →
  k1 ++ k2 = l1 ++ l2 → k1 = l1 ∧ k2 = l2.
Proof.
  revert l1. induction k1 as [|z k1 IH]; intros l1 Ho H1 H2 E; simpl in *.
  - destruct l1 as [|y l1]; [done|]. exfalso. apply in_order_cons in Ho as (Hx&Hk&Hb). subst k2.
    specialize (H1 y ltac:(left)). specialize (Hb y ltac:(left)). apply in_order_cons in Hk as [Hy _].
    unfold before, nonempty in *. lia.
  - apply in_order_cons in Ho as (Hz&Hk&Hb). destruct l1 as [|y l1]; simplify_eq/=.
    + exfalso. specialize (H2 z ltac:(left)). specialize (Hb x ltac:(set_solver)).
      apply in_order_app in Hk as (_&[Hx _]%in_order_cons&_). unfold before, nonempty in *. lia.
    + destruct (IH l1) as [-> ->]; set_solver.
Qed.

Lemma before_no_meet (x y : area) : before x y ∨ before y x → nonempty x → nonempty y → ¬ meets (vm_start x.2) (vm_end x.2) y.
Proof. unfold before, nonempty, meets. lia. Qed.

Lemma in_order_nonempty l x : in_order l → x ∈ l → nonempty x.
Proof. intros [_ H] Hx. rewrite Forall_forall in H. by apply H. Qed.

(** An area that fits between its neighbours is linked there. *)
Lemma vma_insert_fits m l1 l2 dt v vm :
  inv m (l1 ++ l2) ((v, vm) :: dt) → vma_wf vm →
  (∀ y, y ∈ l1 → before y (v, vm)) → (∀ y, y ∈ l2 → before (v, vm) y) →
  ∃ m', vma_insert m v = Ok (0, m') ∧ inv m' (l1 ++ (v, set_mm true vm) :: l2) dt ∧ quiet m m'.
Proof.
  intros Hi Hw H1 H2. pose proof (i_order _ _ _ _ Hi) as Ho.
  assert (0 ≤ vm_flags vm < 2 ^ 64) as Hfl by (destruct Hw; lia).
  destruct (vma_insert_ok ext m _ dt v vm Hi Hfl) as [[? _]|[(_&(y&Hy&Hm)&_)|(_&m'&k1&k2&Hk&E&Hi'&Hq)]]; [done| |].
  - exfalso. revert Hm. apply (before_no_meet (v, vm)); [|apply Hw|by eapply in_order_nonempty].
    apply elem_of_app in Hy as [?|?]; auto.
  - exists m'. destruct (insert_position k1 k2 l1 l2 (v, set_mm true vm)) as [-> ->]; try done. apply Hi'.
Qed.

Lemma vma_insert_overlap m l dt v vm :
  inv m l ((v, vm) :: dt) → vma_wf vm → (∃ y, y ∈ l ∧ meets (vm_start vm) (vm_end vm) y) →
  vma_insert m v = Ok (- EEXIST, m).
Proof.
  intros Hi Hw (y&Hy&Hm). assert (0 ≤ vm_flags vm < 2 ^ 64) as Hfl by (destruct Hw; lia).
  destruct (vma_insert_ok ext m _ dt v vm Hi Hfl) as [[? _]|[(_&_&?)|(_&m'&k1&k2&->&E&Hi'&Hq)]]; [done..|]. exfalso.
  pose proof (i_order _ _ _ _ Hi') as Ho. apply in_order_app in Ho as (Ho1&Ho2&Hb). apply in_order_cons in Ho2 as (Hn&Ho2&Hb2).
  revert Hm. apply (before_no_meet (v, set_mm true vm)); [|done|].
  - apply elem_of_app in Hy as [?|?]; [right; apply Hb; set_solver|left; auto].
  - apply elem_of_app in Hy as [?|?]; [by apply (in_order_nonempty k1)|by apply (in_order_nonempty k2)].
Qed.

(** ** A detached area is its owner's *)

Lemma inv_update_det m l dt r rm rm' f :
  inv m l ((r, rm) :: dt) → vm_mm rm' = false → acct (vm_file ∘ snd <$> l ++ (r, rm') :: dt) f ext →
  inv (with_vmas (with_files m f) (<[r := rm']> (vmas m))) l ((r, rm') :: dt).
Proof.
  intros [(t&Hr&Hin) Hv Hn Hl Hd Ho Hf Hp] Hmm Ha.
  rewrite fmap_app in Hn. simpl in Hn.
  assert (Hrn : ∀ wm, (r, wm) ∉ l ++ dt).
  { intros wm Hx. rewrite <-Permutation_middle, <-fmap_app in Hn. apply NoDup_cons in Hn as [Hn _].
    apply Hn, list_elem_of_fmap. by exists (r, wm). }
  split; simpl; try done.
  - by exists t.
  - intros w wm. destruct (decide (w = r)) as [->|].
    + rewrite lookup_insert_eq, elem_of_app, elem_of_cons. split; [intros [= <-]; auto|].
      intros [Hx|[[= ->]|Hx]]; [|done|]; destruct (Hrn wm); set_solver.
    + rewrite lookup_insert_ne, Hv, !elem_of_app, !elem_of_cons by done. naive_solver.
  - by rewrite fmap_app.
  - intros w wm [[= -> ->]|Hx]%elem_of_cons; [|by apply Hd; right].
    split; [done|]. destruct (Hd r rm) as (_&n&?); [by left|]. by exists n.
Qed.

Lemma inv_write_det m l dt r rm rm' :
  inv m l ((r, rm) :: dt) → vm_mm rm' = false → vm_file rm' = vm_file rm →
  inv (with_vmas m (<[r := rm']> (vmas m))) l ((r, rm') :: dt).
Proof.
  intros Hi Hmm Hf. replace (with_vmas m _) with (with_vmas (with_files m (fst_ m)) (<[r := rm']> (vmas m))) by by destruct m.
  eapply inv_update_det; [done..|]. pose proof (i_files _ _ _ _ Hi) as Ha. rewrite fmap_app in *. simpl in *. by rewrite Hf.
Qed.

Lemma clear_detached m l dt v vm : inv m l ((v, vm) :: dt) → RB_CLEAR_NODE (tree m) (Some v) = Ok (tree m).
Proof.
  intros Hi. destruct (i_det _ _ _ _ Hi v vm) as (_&n&Hn&Hp); [by left|].
  unfold RB_CLEAR_NODE, set_parent. rewrite (store_Ok _ _ _ _ Hn). f_equal. destruct (tree m) as [h rt]. simpl in *.
  f_equal. apply insert_id. rewrite Hn. f_equal. destruct n. simpl in *. by subst.
Qed.

(** ** Splitting *)

Definition split_right (vm : vm_struct) (addr : Z) : vm_struct :=
  Vm true addr (vm_end vm) (vm_flags vm) (vm_file vm)
     (if vm_file vm is Some _ then u64 (vm_offset vm + (addr - vm_start vm)) else vm_offset vm)
     (if vm_file vm is Some _ then Z.max addr (vm_fstart vm) else vm_fstart vm)
     (if vm_file vm is Some _ then Z.max addr (vm_fend vm) else vm_fend vm).
Definition split_left (vm : vm_struct) (addr : Z) : vm_struct :=
  Vm true (vm_start vm) addr (vm_flags vm) (vm_file vm) (vm_offset vm)
     (if vm_file vm is Some _ then Z.min addr (vm_fstart vm) else vm_fstart vm)
     (if vm_file vm is Some _ then Z.min addr (vm_fend vm) else vm_fend vm).

(** The addresses of an area keep what backs them. *)
Lemma split_right_view vm addr a : addr ≤ a → vm_view (split_right vm addr) a = vm_view vm a.
Proof.
  intros Ha. unfold vm_view, split_right. destruct vm as [mm s e fl [f|] off fs fe]; simpl; [|done].
  do 3 f_equal; [f_equal|apply bool_decide_ext; lia]. unfold u64, wrap. rewrite Z.add_mod_idemp_l by done. f_equal. lia.
Qed.
Lemma split_left_view vm addr a : a < addr → vm_view (split_left vm addr) a = vm_view vm a.
Proof.
  intros Ha. unfold vm_view, split_left. destruct vm as [mm s e fl [f|] off fs fe]; simpl; [|done].
  do 3 f_equal. apply bool_decide_ext. lia.
Qed.

Abbreviation empty_vm := (Vm false 0 0 0 None 0 0 0).

(** Room to take one more reference to each file. *)
Definition room (l dt : list area) : Prop :=
  ∀ p, ext p + Z.of_nat (length (l ++ dt)) < REFCOUNT_MAX.

Section split.
Context (CONFIG_DEBUG_REFCOUNT : bool).
Abbreviation vma_split := (vma_split CONFIG_DEBUG_REFCOUNT).

(** The reference of the right half. *)
Lemma split_fget m l dt p :
  inv m l dt → room l dt → Some p ∈ (vm_file ∘ snd <$> l ++ dt) →
  ∃ f, fget CONFIG_DEBUG_REFCOUNT (fst_ m) (Some p) = Ok f ∧
    acct (Some p :: (vm_file ∘ snd <$> l ++ dt)) f ext.
Proof.
  intros Hi Hr Hp. pose proof (i_files _ _ _ _ Hi) as Ha. pose proof (acct_ext _ _ _ Ha) as He.
  destruct (fget_room CONFIG_DEBUG_REFCOUNT _ _ _ p Ha) as (f&E&Hf&_).
  - rewrite length_fmap. apply Hr.
  - destruct (acct_live _ _ _ p Ha) as (f&Hf&_); [|by eexists]. apply list_elem_of_lookup in Hp as [i Hp]. apply occ_pos in Hp. specialize (He p). lia.
  - exists f. split; [done|]. by apply acct_Some.
Qed.

Lemma with_tree_id m : with_tree m (tree m) = m.
Proof. by destruct m. Qed.

Lemma before_l x y y' : before x y → vm_start y.2 = vm_start y'.2 → before x y'.
Proof. unfold before. by intros ? <-. Qed.

(** The right half as the code builds it before linking it. *)
Lemma split_copy m l dt v vm r addr :
  inv m l ((r, empty_vm) :: dt) → (v, vm) ∈ l → room l ((r, empty_vm) :: dt) →
  ∃ f, (match vm_file vm with
        | None => Ok (Vm false addr (vm_end vm) (vm_flags vm) None (vm_offset vm) (vm_fstart vm) (vm_fend vm), fst_ m)
        | Some p => let! f := fget CONFIG_DEBUG_REFCOUNT (fst_ m) (Some p) in
            Ok (Vm false addr (vm_end vm) (vm_flags vm) (Some p) (u64 (vm_offset vm + (addr - vm_start vm)))
                   (MAX addr (vm_fstart vm)) (MAX addr (vm_fend vm)), f)
        end) = Ok (set_mm false (split_right vm addr), f) ∧
    acct (vm_file ∘ snd <$> l ++ (r, set_mm false (split_right vm addr)) :: dt) f ext.
Proof.
  intros Hi Hv Hr. unfold split_right, set_mm. cbn [vm_mm vm_start vm_end vm_flags vm_file vm_offset vm_fstart vm_fend]. rewrite !MAX_spec. destruct (vm_file vm) as [p|] eqn:Ef.
  - destruct (split_fget m l _ p Hi Hr) as (f&Eg&Ha).
    { rewrite fmap_app. apply elem_of_app. left. apply list_elem_of_fmap. by exists (v, vm); simpl. }
    exists f. rewrite Eg. cbn [res_bind]. split; [done|]. rewrite fmap_app in Ha. simpl in Ha.
    eapply (acct_perm _ (None :: Some p :: _)) in Ha; [|rewrite <-Permutation_middle; apply perm_swap].
    rewrite acct_None in Ha. eapply acct_perm; [|exact Ha]. rewrite fmap_app. simpl. by rewrite Permutation_middle.
  - exists (fst_ m). split; [done|].
    pose proof (i_files _ _ _ _ Hi) as Ha. rewrite fmap_app in *. exact Ha.
Qed.

Lemma vma_split_ok m l1 l2 dt v vm r addr :
  inv m (l1 ++ (v, vm) :: l2) ((r, empty_vm) :: dt) → room (l1 ++ (v, vm) :: l2) ((r, empty_vm) :: dt) →
  vm_start vm < addr < vm_end vm → addr mod PAGE_SIZE = 0 →
  ∃ m', vma_split m v addr r = Ok m' ∧ quiet m m' ∧
    inv m' (l1 ++ (v, split_left vm addr) :: (r, split_right vm addr) :: l2) dt.
Proof.
  intros Hi Hr Ha Hal. unfold Vma.vma_split. rewrite (inv_load _ _ _ _ v vm Hi) by set_solver.
  cbn [res_bind]. rewrite (clear_detached _ _ _ _ _ Hi). cbn [res_bind set_mm vm_mm vm_start vm_end vm_flags vm_file vm_offset vm_fstart vm_fend].
  destruct (split_copy _ _ _ v vm r addr Hi ltac:(set_solver) Hr) as (f&Ec&Hacc).
  replace (match vm_file vm with Some _ => _ | None => _ end) with
    (Ok (set_mm false (split_right vm addr), f)) by (rewrite <-Ec; by destruct (vm_file vm)).
  cbn [res_bind]. rewrite with_tree_id.
  pose proof (inv_update_det _ _ _ _ _ (set_mm false (split_right vm addr)) _ Hi eq_refl Hacc) as Hi1.
  match type of Hi1 with Vma.inv ?x _ _ _ => set (m1 := x) in * end.
  destruct (vma_remove_ok ext _ _ _ _ _ _ Hi1) as (m2&E2&Hi2&Hq2).
  change (with_vmas (with_files m f) (<[r:=set_mm false (split_right vm addr)]> (vmas m))) with m1.
  rewrite E2. cbn [res_bind]. rewrite (inv_load _ _ _ _ v (set_mm false vm) Hi2) by set_solver.
  cbn [res_bind set_mm vm_mm vm_start vm_end vm_flags vm_file vm_offset vm_fstart vm_fend].
  replace (match vm_file vm with Some _ => _ | None => _ end) with (set_mm false (split_left vm addr))
    by (unfold split_left, set_mm; simpl; rewrite !MIN_spec; by destruct (vm_file vm)).
  pose proof (i_linked _ _ _ _ Hi v vm ltac:(set_solver)) as [Hmm Hw]. unfold vma_wf in Hw.
  assert (Hi3 : inv (with_vmas m2 (<[v:=set_mm false (split_left vm addr)]> (vmas m2))) (l1 ++ l2)
    ((v, set_mm false (split_left vm addr)) :: (r, set_mm false (split_right vm addr)) :: dt)).
  { by eapply inv_write_det. }
  match type of Hi3 with Vma.inv ?x _ _ _ => set (m3 := x) in * end.
  pose proof (i_order _ _ _ _ Hi) as Ho. apply in_order_app in Ho as (Ho1&Ho2&Hb). apply in_order_cons in Ho2 as (Hn&Ho2&Hb2).
  destruct (vma_insert_fits _ _ _ _ _ _ Hi3) as (m4&E4&Hi4&Hq4).
  { unfold vma_wf. simpl. lia. }
  { intros y Hy. specialize (Hb y (v, vm) Hy ltac:(left)). exact Hb. }
  { intros y Hy. specialize (Hb2 y Hy). unfold before in *. simpl in *. lia. }
  rewrite E4. cbn [res_bind truth negb Z.eqb Assert].
  replace (l1 ++ (v, set_mm true (set_mm false (split_left vm addr))) :: l2)
    with ((l1 ++ [(v, split_left vm addr)]) ++ l2) in Hi4 by by rewrite <-app_assoc.
  destruct (vma_insert_fits _ _ _ _ _ _ Hi4) as (m5&E5&Hi5&Hq5).
  { unfold vma_wf. simpl. lia. }
  { intros y [Hy|Hy]%elem_of_app; [|rewrite list_elem_of_singleton in Hy; subst y; unfold before; simpl; lia].
    specialize (Hb y (v, vm) Hy ltac:(left)). unfold before in *. simpl in *. lia. }
  { intros y Hy. specialize (Hb2 y Hy). exact Hb2. }
  rewrite E5. cbn [res_bind truth negb Z.eqb Assert]. exists m5. split; [done|]. split.
  - destruct Hq2, Hq4, Hq5. subst m1 m3. unfold quiet in *. simpl in *. split; congruence.
  - by rewrite <-app_assoc in Hi5.
Qed.

(** No area straddles [x]. *)
Definition cut (x : Z) (l : list area) : Prop := ∀ y, y ∈ l → ¬ vm_start y.2 < x < vm_end y.2.

Lemma area_at_elem a l x : in_order l → x ∈ l → covers a x → area_at a l = Some x.
Proof. intros Ho (l1&l2&->)%list_elem_of_split Hc. by apply area_at_unique. Qed.

Lemma split_view l1 l2 v r vm addr a :
  vm_start vm < addr < vm_end vm →
  view (l1 ++ (v, split_left vm addr) :: (r, split_right vm addr) :: l2) a = view (l1 ++ (v, vm) :: l2) a.
Proof.
  intros Ha. unfold view. rewrite !area_at_app. destruct (area_at a l1); [done|]. rewrite !area_at_cons.
  unfold covers; cbn [snd split_left split_right vm_start vm_end].
  destruct (decide (vm_start vm ≤ a < addr)).
  - rewrite (decide_True (P := vm_start vm ≤ a < vm_end vm)) by lia. simpl. by rewrite split_left_view by lia.
  - destruct (decide (addr ≤ a < vm_end vm)).
    + rewrite (decide_True (P := vm_start vm ≤ a < vm_end vm)) by lia. simpl. by rewrite split_right_view by lia.
    + by rewrite (decide_False (P := vm_start vm ≤ a < vm_end vm)) by lia.
Qed.

Lemma split_at_ok m l dt a v vm r addr :
  inv m l ((r, empty_vm) :: dt) → room l ((r, empty_vm) :: dt) → area_at a l = Some (v, vm) →
  vm_start vm < addr < vm_end vm → addr mod PAGE_SIZE = 0 →
  ∃ m' l', vma_split m v addr r = Ok m' ∧ quiet m m' ∧ inv m' l' dt ∧ length l' = S (length l) ∧
    (∀ b, view l' b = view l b) ∧ cut addr l' ∧ (∀ y, cut y l → cut y l') ∧
    (∀ b w wm, area_at b l = Some (w, wm) → addr ≤ b →
       ∃ w' wm', area_at b l' = Some (w', wm') ∧ vm_end wm' = vm_end wm ∧ vm_start wm' ≤ b).
Proof.
  intros Hi Hr [Hv _]%area_at_Some Ha Hal. pose proof (i_order _ _ _ _ Hi) as Ho.
  apply list_elem_of_split in Hv as (l1&l2&->).
  destruct (vma_split_ok _ _ _ _ _ _ _ _ Hi Hr Ha Hal) as (m'&E&Hq&Hi').
  exists m', (l1 ++ (v, split_left vm addr) :: (r, split_right vm addr) :: l2). split; [done|]. split; [done|]. split; [done|].
  split; [rewrite !length_app; simpl; lia|]. split; [intros b; by apply split_view|].
  apply in_order_app in Ho as (Ho1&Ho2&Hb). apply in_order_cons in Ho2 as (Hn&Ho2&Hb2).
  split; [|split].
  - intros y. rewrite elem_of_app, !elem_of_cons. intros [Hy|[->|[->|Hy]]]; simpl; try lia.
    + specialize (Hb y (v, vm) Hy ltac:(left)). unfold before in Hb. simpl in *. lia.
    + specialize (Hb2 y Hy). unfold before in Hb2. simpl in *. lia.
  - intros x Hx y. rewrite elem_of_app, !elem_of_cons. specialize (Hx (v, vm) ltac:(set_solver)) as Hxv.
    intros [Hy|[->|[->|Hy]]]; simpl in *; [apply Hx; set_solver|lia..|apply Hx; set_solver].
  - intros b w wm Hw Hle. apply area_at_Some in Hw as [Hw Hc]. unfold covers in Hc. simpl in Hc.
    pose proof (i_order _ _ _ _ Hi') as Ho'.
    apply elem_of_app in Hw as [Hw|[[= -> ->]|Hw]%elem_of_cons].
    + exists w, wm. split; [|split; [done|lia]]. apply area_at_elem; [done|set_solver|done].
    + exists r, (split_right vm addr). split; [|done]. apply area_at_elem; [done|set_solver|]. unfold covers. simpl. lia.
    + exists w, wm. split; [|split; [done|lia]]. apply area_at_elem; [done|set_solver|done].
Qed.

(** [split_range] allocates a piece where an area straddles an end. *)
Definition need_left (start : Z) (l : list area) : bool :=
  match area_at start l with None => false | Some x => vm_start x.2 <? start end.
Definition need_right (end_ : Z) (l : list area) : bool :=
  match area_at (end_ - 1) l with None => false | Some x => end_ <? vm_end x.2 end.

Lemma need_left_false x l : in_order l → need_left x l = false → cut x l.
Proof.
  intros Ho Hx y Hy Hc. unfold need_left in Hx. rewrite (area_at_elem x l y) in Hx; [|done..|unfold covers; lia].
  apply Z.ltb_ge in Hx. lia.
Qed.
Lemma need_right_false x l : in_order l → need_right x l = false → cut x l.
Proof.
  intros Ho Hx y Hy Hc. unfold need_right in Hx. rewrite (area_at_elem (x - 1) l y) in Hx; [|done..|unfold covers; lia].
  apply Z.ltb_ge in Hx. lia.
Qed.

Lemma load_found {A} m l dt a (d : A) (f : vm_struct → A) :
  inv m l dt →
  match fst <$> area_at a l with None => Ok d | Some v => let! vm := load_vma m v in Ok (f vm) end =
  Ok (match area_at a l with None => d | Some x => f x.2 end).
Proof.
  intros Hi. destruct (area_at a l) as [[v vm]|] eqn:E; [|done]. apply area_at_Some in E as [Hv _]. simpl.
  by rewrite (inv_load _ _ _ _ v vm Hi) by set_solver.
Qed.

(** What the allocator returns: nothing, or an object not in use. *)
Definition fresh m (a : option positive) : Prop := ∀ v, a = Some v → vmas m !! v = None.

Definition spare (l dt : list area) : Prop := ∀ p, ext p + Z.of_nat (length (l ++ dt)) + 2 < REFCOUNT_MAX.

Record range_ok (start end_ : Z) : Prop := {
  ro_order : 0 ≤ start < end_;
  ro_end : end_ < 2 ^ 64;
  ro_start_al : start mod PAGE_SIZE = 0;
  ro_end_al : end_ mod PAGE_SIZE = 0;
}.

(** The layout after splitting at both ends: every address keeps what backs it
    and no area straddles an end. *)
Definition split_at (start end_ : Z) (l l' : list area) : Prop :=
  (∀ a, view l' a = view l a) ∧ cut start l' ∧ cut end_ l' ∧ (length l' ≤ length l + 2)%nat.

Context (release : positive → option Z).

(** The second split. *)
Lemma split_end m l l0 dt start end_ r w wm :
  range_ok start end_ → inv m l ((r, empty_vm) :: dt) → (length l ≤ length l0 + 1)%nat → spare l0 dt →
  (∀ a, view l a = view l0 a) → cut start l → area_at (end_ - 1) l = Some (w, wm) → end_ < vm_end wm →
  ∃ m' l', (let! found := vma_find m (end_ - 1) in let! v := deref found in vma_split m v end_ r) = Ok m' ∧
    quiet m m' ∧ inv m' l' dt ∧ split_at start end_ l0 l'.
Proof.
  intros [Hlt He2 Hs He] Hi Hl Hr Hv Hc Ea Hend.
  rewrite (vma_find_spec ext _ _ _ _ Hi), Ea. cbn [fmap option_fmap option_map fst res_bind deref].
  destruct (split_at_ok m l dt (end_ - 1) w wm r end_ Hi) as (m'&l'&E&Hq&Hi'&Hl'&Hv'&Hcut&Hkeep&_); try done.
  - intros p. specialize (Hr p). rewrite length_app in Hr |- *. simpl. lia.
  - apply area_at_Some in Ea as [_ Ec]. unfold covers in Ec. simpl in *. lia.
  - exists m', l'. split; [done|]. split; [done|]. split; [done|]. split; [intros a; by rewrite Hv'|].
    split; [by apply Hkeep|]. split; [done|]. lia.
Qed.

Lemma split_range_ok m l dt a1 a2 start end_ :
  inv m l dt → spare l dt → range_ok start end_ → fresh m a1 → fresh m a2 → (is_Some a1 → a1 ≠ a2) →
  ∃ ret m', split_range CONFIG_DEBUG_REFCOUNT release m a1 a2 start end_ = Ok (ret, m') ∧ quiet m m' ∧
    if bool_decide ((need_left start l → is_Some a1) ∧ (need_right end_ l → is_Some a2))
    then ret = 0 ∧ ∃ l', inv m' l' dt ∧ split_at start end_ l l'
    else ret = - ENOMEM ∧ inv m' l dt.
Proof.
  intros Hi Hr Hro Hf1 Hf2 Hne. pose proof (i_order _ _ _ _ Hi) as Ho. pose proof Hro as [Hlt He2 Hs He].
  unfold split_range. rewrite u64_small by (unfold in_u64; lia). rewrite !(vma_find_spec ext _ _ _ _ Hi). cbn [res_bind].
  replace (truth _) with false by (symmetry; by apply aligned_or).
  replace (start <? end_) with true by lia. cbn [negb andb Assert res_bind].
  rewrite (load_found _ _ _ start false (λ vm, vm_start vm <? start) Hi). cbn [res_bind]. fold (need_left start l).
  destruct (need_left start l) eqn:N1; cbn [andb].
  - (* an area straddles the start *)
    destruct a1 as [r1|]; cbn [vma_alloc].
    2: { rewrite bool_decide_eq_true_2 by done. exists (- ENOMEM), m. split; [done|]. split; [done|].
         rewrite bool_decide_eq_false_2; [done|]. intros [H _]. by destruct H. }
    rewrite bool_decide_eq_false_2 by done.
    destruct (vma_alloc_ok ext _ _ _ r1 Hi (Hf1 r1 eq_refl)) as [Hi1 Hq1]. cbn [vma_alloc snd] in Hi1, Hq1.
    match type of Hi1 with Vma.inv ?x _ _ _ => set (m1 := x) in * end.
    rewrite (load_found _ _ _ (end_ - 1) false (λ vm, end_ <? vm_end vm) Hi1). cbn [res_bind]. fold (need_right end_ l).
    unfold need_left in N1. destruct (area_at start l) as [[v vm]|] eqn:Ea; [|done]. apply Z.ltb_lt in N1. simpl in N1.
    assert (Hin : vm_start vm < start < vm_end vm) by (apply area_at_Some in Ea as [_ Ec]; unfold covers in Ec; simpl in *;
      destruct (decide (start = vm_end vm)); lia).
    destruct (need_right end_ l) eqn:N2; cbn [andb].
    + destruct a2 as [r2|]; cbn [vma_alloc].
      2: { rewrite bool_decide_eq_true_2 by done. cbn [cleanup_vma].
           destruct (vma_free_ok ext CONFIG_DEBUG_REFCOUNT release _ _ _ _ _ Hi1) as (m2&->&Hi2&Hq2&_). cbn [res_bind].
           exists (- ENOMEM), m2. split; [done|]. split; [destruct Hq1, Hq2; split; congruence|].
           rewrite bool_decide_eq_false_2; [done|]. intros [_ H]. by destruct H. }
      rewrite bool_decide_eq_false_2 by done.
      assert (r1 ≠ r2) by (intros ->; by apply Hne).
      destruct (vma_alloc_ok ext _ _ _ r2 Hi1) as [Hi2 Hq2].
      { subst m1. simpl. rewrite lookup_insert_ne by done. by apply Hf2. }
      cbn [vma_alloc snd] in Hi2, Hq2. match type of Hi2 with Vma.inv ?x _ _ _ => set (m2 := x) in * end.
      apply (inv_perm ext _ _ _ ((r1, empty_vm) :: (r2, empty_vm) :: dt)) in Hi2; [|apply perm_swap].
      cbn [fmap option_fmap option_map fst deref res_bind].
      destruct (split_at_ok m2 l _ start v vm r1 start Hi2) as (m3&l3&->&Hq3&Hi3&Hl3&Hv3&Hc3&_&Hk3); try done.
      { intros p. specialize (Hr p). rewrite length_app in Hr |- *. simpl. lia. }
      cbn [res_bind]. unfold need_right in N2. destruct (area_at (end_ - 1) l) as [[w wm]|] eqn:Eb; [|done]. apply Z.ltb_lt in N2.
      destruct (Hk3 _ _ _ Eb ltac:(lia)) as (w'&wm'&Eb'&Hend&_).
      destruct (split_end m3 l3 l dt start end_ r2 w' wm') as (m4&l4&->&Hq4&Hi4&Hsp); try done; [lia|simpl in *; lia|].
      cbn [res_bind]. exists 0, m4. split; [done|]. split; [destruct Hq1, Hq2, Hq3, Hq4; split; congruence|].
      rewrite bool_decide_eq_true_2 by done. split; [done|]. by exists l4.
    + cbn [fmap option_fmap option_map fst deref res_bind].
      destruct (split_at_ok m1 l _ start v vm r1 start Hi1) as (m3&l3&->&Hq3&Hi3&Hl3&Hv3&Hc3&Hcut&_); try done.
      { intros p. specialize (Hr p). rewrite length_app in Hr |- *. simpl. lia. }
      cbn [res_bind]. exists 0, m3. split; [done|]. split; [destruct Hq1, Hq3; split; congruence|].
      rewrite bool_decide_eq_true_2 by done. split; [done|]. exists l3. split; [done|]. split; [done|]. split; [done|].
      split; [|lia]. by apply Hcut, need_right_false.
  - (* no area straddles the start *)
    assert (Hcs : cut start l) by by apply need_left_false.
    rewrite (load_found _ _ _ (end_ - 1) false (λ vm, end_ <? vm_end vm) Hi). cbn [res_bind]. fold (need_right end_ l).
    destruct (need_right end_ l) eqn:N2; cbn [andb].
    + destruct a2 as [r2|]; cbn [vma_alloc].
      2: { rewrite bool_decide_eq_true_2 by done. cbn [cleanup_vma res_bind]. exists (- ENOMEM), m. split; [done|]. split; [done|].
           rewrite bool_decide_eq_false_2; [done|]. intros [_ H]. by destruct H. }
      rewrite bool_decide_eq_false_2 by done.
      destruct (vma_alloc_ok ext _ _ _ r2 Hi (Hf2 r2 eq_refl)) as [Hi1 Hq1]. cbn [vma_alloc snd] in Hi1, Hq1.
      match type of Hi1 with Vma.inv ?x _ _ _ => set (m1 := x) in * end. cbn [res_bind].
      unfold need_right in N2. destruct (area_at (end_ - 1) l) as [[w wm]|] eqn:Eb; [|done]. apply Z.ltb_lt in N2.
      destruct (split_end m1 l l dt start end_ r2 w wm) as (m4&l4&->&Hq4&Hi4&Hsp); try done; [lia|].
      cbn [res_bind]. exists 0, m4. split; [done|]. split; [destruct Hq1, Hq4; split; congruence|].
      rewrite bool_decide_eq_true_2 by done. split; [done|]. by exists l4.
    + exists 0, m. split; [done|]. split; [done|]. rewrite bool_decide_eq_true_2 by done. split; [done|]. exists l.
      split; [done|]. split; [done|]. split; [done|]. split; [|lia]. by apply need_right_false.
Qed.
End split.

(** ** Page releases and the TLB *)

(** [stale]: pages removed from the page table that a TLB may still translate
    to; [ready]: removed pages that a flush has covered.  A page is freed only
    when it is the next ready one. *)
Fixpoint tlb_run (stale ready : list Z) (es : list event) : option (list Z * list Z) :=
  match es with
  | [] => Some (stale, ready)
  | Unmapped _ p :: es => tlb_run (stale ++ [p]) ready es
  | TlbFlush :: es => tlb_run [] (ready ++ stale) es
  | IcacheFlush :: es => tlb_run stale ready es
  | FreePage p :: es =>
      match ready with
      | q :: ready => if decide (p = q) then tlb_run stale ready es else None
      | [] => None
      end
  end.

(** The entries removed, in order. *)
Definition removed (es : list event) : list (Z * Z) :=
  omap (λ e, if e is Unmapped a p then Some (a, p) else None) es.

Lemma removed_app es1 es2 : removed (es1 ++ es2) = removed es1 ++ removed es2.
Proof. apply omap_app. Qed.

Lemma tlb_run_app st rd es1 es2 :
  tlb_run st rd (es1 ++ es2) = match tlb_run st rd es1 with Some (st', rd') => tlb_run st' rd' es2 | None => None end.
Proof.
  revert st rd. induction es1 as [|[a p| | |p] es1 IH]; intros st rd; simpl; try done.
  destruct rd; [done|]. by case_decide.
Qed.

Lemma tlb_run_free st fr : tlb_run st fr (FreePage <$> fr) = Some (st, []).
Proof. induction fr as [|p fr IH]; simpl; [done|]. by rewrite decide_True. Qed.

(** A batch is released after one flush. *)
Lemma unmaps_flush_ok m batch :
  ∃ es, unmaps_flush m batch = (emit m es, []) ∧ tlb_run batch [] es = Some ([], []) ∧ removed es = [].
Proof.
  unfold unmaps_flush. destruct batch as [|p batch].
  - exists []. split; [|done]. unfold emit. rewrite app_nil_r. by destruct m.
  - eexists. split; [done|]. split; [apply (tlb_run_free [])|]. simpl. by induction batch.
Qed.

Lemma emit_emit m es1 es2 : emit (emit m es1) es2 = emit m (es1 ++ es2).
Proof. unfold emit. simpl. by rewrite <-app_assoc. Qed.

Definition removes (P : Z → Prop) (t : PT) (es : list event) : Prop :=
  (∀ a p, (a, p) ∈ removed es ↔ user_page a ∧ P a ∧ pt_leaf t a = Some p) ∧ StronglySorted Z.lt (removed es).*1.

Definition leaves_cleared (P : Z → Prop) `{!∀ a, Decision (P a)} (t t' : PT) : Prop :=
  ∀ b, user_page b → pt_leaf t' b = if decide (P b) then None else pt_leaf t b.

Lemma removes_app (P Q R : Z → Prop) `{!∀ a, Decision (P a)} t t' es1 es2 :
  removes P t es1 → leaves_cleared P t t' → removes Q t' es2 → (∀ a b, P a → Q b → a < b) →
  (∀ a, user_page a → R a ↔ P a ∨ Q a) → removes R t (es1 ++ es2).
Proof.
  intros [H1 S1] Hc [H2 S2] Hlt HR. split.
  - intros a p. rewrite removed_app, elem_of_app, H1, H2. split.
    + intros [(Hu&HP&E)|(Hu&HQ&E)]; (split; [done|]; split; [apply HR; auto|]); [done|].
      rewrite Hc in E by done. rewrite decide_False in E; [done|]. intros HP. specialize (Hlt a a HP HQ). lia.
    + intros (Hu&HR'&E). apply HR in HR' as [?|HQ]; [by left| |done]. right. split; [done|]. split; [done|].
      rewrite Hc by done. rewrite decide_False; [done|]. intros HP. specialize (Hlt a a HP HQ). lia.
  - rewrite removed_app, fmap_app. apply StronglySorted_app_iff. split; [done|]. split; [done|].
    intros a b ([a' p]&->&(_&?&_)%H1)%list_elem_of_fmap ([b' q]&->&(_&?&_)%H2)%list_elem_of_fmap. simpl. auto.
Qed.

Lemma user_page_step a b : user_page b → a mod PAGE_SIZE = 0 → a ≤ b < a + PAGE_SIZE → b = a.
Proof. unfold user_page, PAGE_SIZE. intros [_ Hb] Ha. Z.to_euclidean_division_equations; lia. Qed.

Abbreviation fits batch := (Z.of_nat (length batch) < UNMAP_BATCH_PAGES).

(** One removed entry: the page joins the batch, which is released when full. *)
Lemma batch_step m addr page batch :
  fits batch →
  ∃ es b, (match page with
     | None => Ok (m, batch)
     | Some pg =>
         let! batch := batch_add batch pg in
         Ok (if Z.of_nat (length batch) =? UNMAP_BATCH_PAGES then unmaps_flush (emit m [Unmapped addr pg]) batch
             else (emit m [Unmapped addr pg], batch))
     end) = Ok (emit m es, b) ∧ fits b ∧ tlb_run batch [] es = Some (b, []) ∧
    removed es = match page with None => [] | Some pg => [(addr, pg)] end.
Proof.
  intros Hb. destruct page as [pg|]; cbn zeta.
  2: { exists [], batch. split; [|done]. unfold emit. rewrite app_nil_r. by destruct m. }
  unfold batch_add. replace (_ <? _) with true by lia. cbn [res_bind]. rewrite length_app. cbn [length].
  destruct (Z.eqb_spec (Z.of_nat (length batch + 1)) UNMAP_BATCH_PAGES).
  - destruct (unmaps_flush_ok (emit m [Unmapped addr pg]) (batch ++ [pg])) as (es&->&Ht&Hr).
    rewrite emit_emit. eexists _, _. split; [done|]. simpl. split; [done|]. split; [done|]. by rewrite Hr.
  - exists [Unmapped addr pg], (batch ++ [pg]). split; [done|]. split; [rewrite length_app; simpl; lia|done].
Qed.

Lemma page_next addr : addr mod PAGE_SIZE = 0 → (addr + PAGE_SIZE) mod PAGE_SIZE = 0.
Proof. unfold PAGE_SIZE. intros. Z.to_euclidean_division_equations; lia. Qed.

Lemma unmap_pages_ok n m addr vend batch :
  pt_wf (pt m) → UVADDR_START ≤ addr → addr mod PAGE_SIZE = 0 → vend = addr + PAGE_SIZE * Z.of_nat n → vend ≤ UVADDR_END →
  fits batch →
  ∃ t' es batch', unmap_pages n m addr vend batch = Ok (with_pt (emit m es) t', batch') ∧ pt_wf t' ∧
    fits batch' ∧ leaves_cleared (λ b, addr ≤ b < vend) (pt m) t' ∧ tlb_run batch [] es = Some (batch', []) ∧
    removes (λ b, addr ≤ b < vend) (pt m) es.
Proof.
  revert m addr batch. induction n as [|n IH]; intros m addr batch Hp Hs Hal He Hend Hb; cbn [unmap_pages].
  - replace (addr <? vend) with false by lia. exists (pt m), [], batch.
    split; [|split; [done|split; [done|split; [|split; [done|]]]]].
    + unfold with_pt, emit. simpl. rewrite app_nil_r. by destruct m.
    + intros b Hu. by rewrite decide_False by lia.
    + split; [|constructor]. intros a p. split; [by intros ?%elem_of_nil|intros (_&?&_); lia].
  - assert (Hpg : PAGE_SIZE = 4096) by done. replace (addr <? vend) with true by lia.
    assert (Hu : user_page addr) by (split; [lia|done]).
    destruct (pt_unmap_law (pt m) addr Hp Hu) as (t1&Eu&Hp1&Hl1&_). rewrite Eu. cbn [res_bind].
    rewrite u64_small by (unfold in_u64, UVADDR_START, UVADDR_END in *; lia).
    destruct (batch_step (with_pt m t1) addr (pt_leaf (pt m) addr) batch Hb) as (es1&b1&->&Hb1&Ht1&Hr1). cbn [res_bind].
    destruct (IH (emit (with_pt m t1) es1) (addr + PAGE_SIZE) b1) as (t'&es&b'&->&Hp'&Hb'&Hl'&Ht'&Hr');
      [done|lia|by apply page_next|lia|done|done|].
    exists t', (es1 ++ es), b'. split; [by rewrite emit_emit|]. split; [done|]. split; [done|]. split; [|split].
    + intros b Hub. rewrite Hl' by done. cbn [pt emit with_pt]. rewrite Hl1 by done.
      destruct (decide (b = addr)) as [->|]; [rewrite (decide_True (P := addr ≤ addr < vend)) by lia; by case_decide|].
      repeat case_decide; try done; try lia. pose proof (user_page_step addr b Hub Hal). lia.
    + by rewrite tlb_run_app, Ht1.
    + apply (removes_app (λ b, b = addr) (λ b, addr + PAGE_SIZE ≤ b < vend) _ (pt m) t1); [|done|done|lia|].
      * split; [|rewrite Hr1; destruct (pt_leaf (pt m) addr); repeat constructor].
        intros a p. rewrite Hr1. destruct (pt_leaf (pt m) addr) as [pg|] eqn:Ep.
        -- rewrite list_elem_of_singleton. split; [by intros [= -> ->]|intros (_&->&E); congruence].
        -- split; [by intros ?%elem_of_nil|intros (_&->&E); congruence].
      * intros a Ha. split; [|lia]. intros ?. destruct (decide (addr + PAGE_SIZE ≤ a)); [lia|].
        left. apply user_page_step; [done..|lia].
Qed.

Lemma inv_pt m l dt es t : inv m l dt → pt_wf t → inv (with_pt (emit m es) t) l dt.
Proof. intros [H1 H2 H3 H4 H5 H6 H7 H8] Hp. by split. Qed.

(** ** Unmapping *)

Section unmap.
Context (CONFIG_DEBUG_REFCOUNT : bool) (release : positive → option Z).
Abbreviation unmap_loop := (unmap_loop CONFIG_DEBUG_REFCOUNT release).
Abbreviation unmap_range := (unmap_range CONFIG_DEBUG_REFCOUNT release).

(** The addresses of the areas that meet the range. *)
Definition touched (s e : Z) (l : list area) (a : Z) : Prop := is_Some (area_at a (filter (meets s e) l)).
#[local] Instance touched_dec s e l a : Decision (touched s e l a).
Proof. unfold touched. apply _. Defined.

(** One area of the loop: its pages, then the rest. *)
Lemma touched_step s e l1 l2 v vm :
  in_order (l1 ++ (v, vm) :: l2) → Forall (λ y, ¬ meets s e y) l1 → meets s e (v, vm) →
  (∀ a, touched s e (l1 ++ (v, vm) :: l2) a ↔ vm_start vm ≤ a < vm_end vm ∨ touched s e (l1 ++ l2) a) ∧
  (∀ a b, vm_start vm ≤ a < vm_end vm → touched s e (l1 ++ l2) b → a < b) ∧
  length (filter (meets s e) (l1 ++ (v, vm) :: l2)) = S (length (filter (meets s e) (l1 ++ l2))) ∧
  filter (λ x, ¬ meets s e x) (l1 ++ (v, vm) :: l2) = filter (λ x, ¬ meets s e x) (l1 ++ l2).
Proof.
  intros Ho Hl1 Hm. unfold touched. rewrite !filter_app, !filter_cons, (filter_none (meets s e) l1) by done.
  rewrite (decide_True (P := meets s e (v, vm))) by done. rewrite (decide_False (P := ¬ meets s e (v, vm))) by tauto. simpl.
  split; [|split; [|done]].
  - intros a. rewrite area_at_cons. unfold covers at 1. simpl. case_decide; [by split; eauto|]. naive_solver.
  - intros a b Ha [[w wm] Hb]. apply area_at_Some in Hb as [[_ Hw]%list_elem_of_filter Hc].
    apply in_order_app in Ho as (_&(_&_&Hb)%in_order_cons&_). specialize (Hb _ Hw). unfold before, covers in *. simpl in *. lia.
Qed.

Lemma leaves_cleared_trans (P Q R : Z → Prop) `{!∀ a, Decision (P a), !∀ a, Decision (Q a), !∀ a, Decision (R a)} t t' t'' :
  leaves_cleared P t t' → leaves_cleared Q t' t'' → (∀ a, R a ↔ P a ∨ Q a) → leaves_cleared R t t''.
Proof.
  intros Hx Hy HR b Hb. rewrite Hy, Hx by done. specialize (HR b). repeat case_decide; tauto.
Qed.

Lemma unmap_loop_ok fuel m l dt s e batch :
  inv m l dt → (length (filter (meets s e) l) ≤ fuel)%nat → fits batch →
  ∃ m' es batch', unmap_loop fuel m s e batch = Ok (m', batch') ∧ inv m' (filter (λ x, ¬ meets s e x) l) dt ∧
    log m' = log m ++ es ∧ tlb_run batch [] es = Some (batch', []) ∧
    leaves_cleared (touched s e l) (pt m) (pt m') ∧ removes (touched s e l) (pt m) es.
Proof.
  revert m l batch. induction fuel as [|fuel IH]; intros m l batch Hi Hf Hb; cbn [Vma.unmap_loop];
    rewrite (vma_find_intersection_spec ext _ _ _ _ _ Hi); cbn [res_bind].
  all: destruct (first_meeting s e l) as [[v vm]|] eqn:E; cbn [fmap option_fmap option_map fst].
  2, 4: (apply first_meeting_None in E; exists m, [], batch; split; [done|];
    split; [rewrite filter_id by done; exact Hi|]; split; [by rewrite app_nil_r|]; split; [done|];
    assert (Hnt : ∀ a, ¬ touched s e l a) by (intros a; unfold touched; rewrite filter_none by done; by intros [? ?]);
    split; [intros b Hub; by rewrite decide_False|split; [|constructor]];
    intros a p; split; [by intros ?%elem_of_nil|intros (_&Ht&_); by destruct (Hnt a)]).
  all: apply first_meeting_Some in E as (l1&l2&->&Hl1&Hm).
  { exfalso. rewrite filter_app, filter_cons, decide_True, length_app in Hf by done. simpl in Hf. lia. }
  destruct (touched_step s e l1 l2 v vm (i_order _ _ _ _ Hi) Hl1 Hm) as (HR&Hlt&Hlen&->).
  destruct (i_linked _ _ _ _ Hi v vm) as [_ (Hs&Hse&He&Has&Hae&_)]; [set_solver|].
  destruct (vma_remove_ok ext _ _ _ _ _ _ Hi) as (m1&->&Hi1&Hq1). cbn [res_bind].
  rewrite (inv_load _ _ _ _ v (set_mm false vm) Hi1) by set_solver. cbn [res_bind set_mm vm_start vm_end].
  destruct (unmap_pages_ok (Z.to_nat ((vm_end vm - vm_start vm) / PAGE_SIZE)) m1 (vm_start vm) (vm_end vm) batch)
    as (t2&es2&b2&->&Hp2&Hb2&Hl2&Ht2&Hr2); [apply Hi1|done|done| |done|done|].
  { unfold PAGE_SIZE in *. Z.to_euclidean_division_equations; lia. }
  cbn [res_bind]. pose proof (inv_pt _ _ _ es2 _ Hi1 Hp2) as Hi2.
  destruct (vma_free_ok ext CONFIG_DEBUG_REFCOUNT release _ _ _ _ _ Hi2) as (m3&->&Hi3&Hq3&_). cbn [res_bind].
  destruct (IH m3 (l1 ++ l2) b2 Hi3) as (m'&es&b'&->&Hi'&Hlog&Ht'&Hl'&Hr'); [lia|done|].
  destruct Hq1 as [Hpt1 Hlog1], Hq3 as [Hpt3 Hlog3]. cbn [pt log with_pt emit] in Hpt3, Hlog3.
  rewrite Hpt3 in Hl', Hr'. rewrite Hpt1 in Hl2, Hr2.
  exists m', (es2 ++ es), b'. split; [done|]. split; [done|]. split; [by rewrite Hlog, Hlog3, Hlog1, app_assoc|].
  split; [by rewrite tlb_run_app, Ht2|]. split.
  - by eapply leaves_cleared_trans.
  - eapply removes_app; [done..|]. auto.
Qed.

(** Between cuts, the areas that meet the range are those inside it. *)
Lemma cut_meets s e l x : s < e → cut s l → cut e l → x ∈ l → meets s e x → s ≤ vm_start x.2 ∧ vm_end x.2 ≤ e.
Proof. intros Hse Hs He Hx [Hm1 Hm2]. specialize (Hs x Hx). specialize (He x Hx). lia. Qed.

Lemma area_at_removed s e l a :
  s < e → cut s l → cut e l →
  area_at a (filter (λ x, ¬ meets s e x) l) = if decide (s ≤ a < e) then None else area_at a l.
Proof.
  intros Hse Hs He. unfold area_at. rewrite list_filter_filter. case_decide.
  - rewrite filter_none; [done|]. apply Forall_forall. unfold covers, meets. intros x _. lia.
  - f_equal. apply filter_ext_in. intros x Hx. pose proof (cut_meets s e l x Hse Hs He Hx) as Hm. unfold covers in *.
    split; [by intros []|]. intros Hc. split; [done|]. intros []%Hm. lia.
Qed.

Lemma touched_cut s e l a : s < e → cut s l → cut e l → touched s e l a ↔ s ≤ a < e ∧ is_Some (view l a).
Proof.
  intros Hse Hs He. unfold touched, view. rewrite fmap_is_Some. unfold area_at. rewrite list_filter_filter.
  destruct (decide (s ≤ a < e)).
  - rewrite (filter_ext_in _ (covers a)); [tauto|]. intros x Hx. unfold covers, meets. lia.
  - rewrite filter_none; [split; [by intros []|tauto]|]. apply Forall_forall. intros x Hx [Hc Hm].
    pose proof (cut_meets s e l x Hse Hs He Hx Hm). unfold covers in *. lia.
Qed.

Definition split_mem (a1 a2 : option positive) (start end_ : Z) (l : list area) : Prop :=
  (need_left start l → is_Some a1) ∧ (need_right end_ l → is_Some a2).
#[global] Instance split_mem_dec a1 a2 start end_ l : Decision (split_mem a1 a2 start end_ l).
Proof. unfold split_mem. apply _. Defined.

(** The range of an operation that succeeded: nothing mapped in it, the rest
    unchanged; the removed pages freed, each after a flush that follows its
    removal. *)
Record unmapped m m' (l l' dt : list area) (start end_ : Z) (es : list event) : Prop := {
  u_inv : inv m' l' dt;
  u_view a : view l' a = if decide (start ≤ a < end_) then None else view l a;
  u_leaf : leaves_cleared (λ a, start ≤ a < end_ ∧ is_Some (view l a)) (pt m) (pt m');
  u_log : log m' = log m ++ es;
  u_tlb : tlb_run [] [] es = Some ([], []);
  u_removes : removes (λ a, start ≤ a < end_ ∧ is_Some (view l a)) (pt m) es;
  u_length : (length l' ≤ length l + 2)%nat;
}.

Lemma removes_ext (P Q : Z → Prop) t es : (∀ a, P a ↔ Q a) → removes P t es → removes Q t es.
Proof. intros He [H1 H2]. split; [|done]. intros a p. by rewrite H1, He. Qed.
Lemma leaves_cleared_ext (P Q : Z → Prop) `{!∀ a, Decision (P a), !∀ a, Decision (Q a)} t t' :
  (∀ a, P a ↔ Q a) → leaves_cleared P t t' → leaves_cleared Q t t'.
Proof. intros He Hc b Hb. rewrite Hc by done. apply decide_ext. apply He. Qed.

Lemma unmap_range_ok m l dt a1 a2 start end_ :
  inv m l dt → spare l dt → range_ok start end_ → fresh m a1 → fresh m a2 → (is_Some a1 → a1 ≠ a2) →
  ∃ ret m', unmap_range m a1 a2 start end_ = Ok (ret, m') ∧
    if decide (split_mem a1 a2 start end_ l)
    then ret = 0 ∧ ∃ l' es, unmapped m m' l l' dt start end_ es
    else ret = - ENOMEM ∧ inv m' l dt ∧ quiet m m'.
Proof.
  intros Hi Hsp Hro Hf1 Hf2 Hne. unfold Vma.unmap_range.
  destruct (split_range_ok CONFIG_DEBUG_REFCOUNT release m l dt a1 a2 start end_ Hi Hsp Hro Hf1 Hf2 Hne)
    as (ret&m1&->&Hq&Hres). cbn [res_bind]. fold (split_mem a1 a2 start end_ l) in Hres.
  rewrite <-decide_bool_decide in Hres. destruct (decide (split_mem a1 a2 start end_ l)).
  2: { destruct Hres as [-> Hi1]. exists (- ENOMEM), m1. done. }
  destruct Hres as (->&l1&Hi1&Hv&Hcs&Hce&Hlen). cbn [truth negb Z.eqb].
  destruct (unmap_loop_ok (size (nodes (tree m1))) m1 l1 dt start end_ [] Hi1) as (m2&es&b&->&Hi2&Hlog&Ht&Hl&Hr).
  { pose proof (inv_size _ _ _ _ Hi1). pose proof (length_filter (meets start end_) l1). lia. }
  { done. }
  cbn [res_bind]. destruct (unmaps_flush_ok m2 b) as (es'&->&Ht'&Hr'). destruct Hq as [Hpt Hl1].
  rewrite Hpt in Hl, Hr. assert (Hse : start < end_) by apply Hro.
  assert (Hto : ∀ a, touched start end_ l1 a ↔ start ≤ a < end_ ∧ is_Some (view l a)).
  { intros a. rewrite touched_cut by done. by rewrite Hv. }
  exists 0, (emit m2 es'). split; [done|]. split; [done|]. exists (filter (λ x, ¬ meets start end_ x) l1), (es ++ es').
  split.
  - replace (emit m2 es') with (with_pt (emit m2 es') (pt m2)) by by destruct m2. apply inv_pt; [done|apply Hi2].
  - intros a. unfold view. rewrite area_at_removed by done. case_decide; [done|]. apply Hv.
  - by eapply leaves_cleared_ext.
  - simpl. by rewrite Hlog, Hl1, app_assoc.
  - by rewrite tlb_run_app, Ht.
  - destruct Hr as [Hr1 Hr2]. split; rewrite removed_app, Hr', app_nil_r; [|done]. intros a p. by rewrite Hr1, Hto.
  - pose proof (length_filter (λ x, ¬ meets start end_ x) l1). lia.
Qed.
End unmap.

(** ** Protection *)

(** Entries of [P] grant what [flags] allow; pages and sharing do not change. *)
Definition protected (P : Z → Prop) `{!∀ a, Decision (P a)} (flags : Z) (t t' : PT) : Prop :=
  (∀ b, user_page b → pt_leaf t' b = pt_leaf t b) ∧
  (∀ b, user_page b → pt_perm t' b =
     if decide (P b) then (λ p, grant flags (pt_shared t p)) <$> pt_leaf t b else pt_perm t b) ∧
  pt_shared t' = pt_shared t.

Lemma protected_trans (P Q R : Z → Prop) `{!∀ a, Decision (P a), !∀ a, Decision (Q a), !∀ a, Decision (R a)} flags t t' t'' :
  protected P flags t t' → protected Q flags t' t'' → (∀ a, user_page a → R a ↔ P a ∨ Q a) → protected R flags t t''.
Proof.
  intros (Hl&Hp&Hs) (Hl'&Hp'&Hs') HR. split; [|split].
  - intros b Hb. by rewrite Hl', Hl.
  - intros b Hb. rewrite Hp', Hs, Hl, Hp by done. specialize (HR b Hb). repeat case_decide; tauto.
  - congruence.
Qed.

(** [changed]: some page of [P] is mapped. *)
Definition touches (P : Z → Prop) (t : PT) : Prop := ∃ b, user_page b ∧ P b ∧ is_Some (pt_leaf t b).

Lemma protect_pages_ok n m addr vend flags ch :
  pt_wf (pt m) → UVADDR_START ≤ addr → addr mod PAGE_SIZE = 0 → vend = addr + PAGE_SIZE * Z.of_nat n → vend ≤ UVADDR_END →
  0 ≤ flags < 8 →
  ∃ t' ch', protect_pages n m addr vend flags ch = Ok (with_pt m t', vend, ch') ∧ pt_wf t' ∧
    protected (λ b, addr ≤ b < vend) flags (pt m) t' ∧ (ch' = true ↔ ch = true ∨ touches (λ b, addr ≤ b < vend) (pt m)).
Proof.
  revert m addr ch. induction n as [|n IH]; intros m addr ch Hp Hs Hal He Hend Hfl; cbn [protect_pages].
  - replace (addr <? vend) with false by lia. exists (pt m), ch. split; [|split; [done|split]].
    + replace addr with vend by lia. by destruct m.
    + split; [done|]. split; [|done]. intros b Hb. by rewrite decide_False by lia.
    + split; [auto|]. intros [?|(b&_&?&_)]; [done|lia].
  - assert (Hpg : PAGE_SIZE = 4096) by done. replace (addr <? vend) with true by lia.
    assert (Hu : user_page addr) by (split; [lia|done]).
    destruct (pt_protect_law (pt m) addr flags Hp Hu Hfl) as (t1&Eu&Hp1&Hl1&Hperm1&Hs1). rewrite Eu. cbn [res_bind].
    rewrite u64_small by (unfold in_u64, UVADDR_START, UVADDR_END in *; lia).
    destruct (IH (with_pt m t1) (addr + PAGE_SIZE) (ch || bool_decide (is_Some (pt_leaf (pt m) addr))))
      as (t'&ch'&->&Hp'&Hpr&Hch); [done|lia|by apply page_next|lia|done|done|].
    assert (HR : ∀ a, user_page a → addr ≤ a < vend ↔ a = addr ∨ addr + PAGE_SIZE ≤ a < vend).
    { intros a Ha. split; [|lia]. intros ?. destruct (decide (addr + PAGE_SIZE ≤ a)); [lia|].
      left. apply user_page_step; [done..|lia]. }
    exists t', ch'. split; [done|]. split; [done|]. split.
    + eapply (protected_trans (λ b, b = addr)); [|exact Hpr|done]. split; [done|]. split; [|done].
      intros b Hb. rewrite Hperm1 by done. case_decide; subst; done.
    + rewrite Hch, orb_true_iff, bool_decide_eq_true. unfold touches. cbn [pt with_pt]. split.
      * intros [[?|?]|(b&Hb&?&Hx)]; [by left|right; exists addr; split; [done|]; split; [lia|done]|].
        right. exists b. rewrite Hl1 in Hx by done. split; [done|]. split; [lia|done].
      * intros [?|(b&Hb&[->|?]%HR&Hx)]; [auto|auto| |done]. right. exists b. by rewrite Hl1.
Qed.

Definition set_flags (flags : Z) (vm : vm_struct) : vm_struct :=
  Vm (vm_mm vm) (vm_start vm) (vm_end vm) flags (vm_file vm) (vm_offset vm) (vm_fstart vm) (vm_fend vm).

Lemma fmap_replace (l1 l2 : list area) (x y : area) {B} (f : area → B) :
  f x = f y → f <$> (l1 ++ x :: l2) = f <$> (l1 ++ y :: l2).
Proof. intros E. rewrite !fmap_app. simpl. by rewrite E. Qed.

Lemma inv_set_flags m l1 l2 dt v vm flags :
  inv m (l1 ++ (v, vm) :: l2) dt → 0 ≤ flags < 8 →
  inv (with_vmas m (<[v := set_flags flags vm]> (vmas m))) (l1 ++ (v, set_flags flags vm) :: l2) dt.
Proof.
  intros [(t&Hr&Hin) Hv Hn Hl Hd Ho Hf Hp] Hfl.
  assert (Hvn : ∀ wm, (v, wm) ∉ l1 ++ l2 ++ dt).
  { intros wm Hx. rewrite <-app_assoc, fmap_app in Hn. simpl in Hn. rewrite <-Permutation_middle, <-fmap_app in Hn.
    apply NoDup_cons in Hn as [Hn _]. apply Hn, list_elem_of_fmap. by exists (v, wm). }
  split; simpl; try done.
  - exists t. split; [done|]. rewrite Hin. by apply fmap_replace.
  - intros w wm. rewrite <-app_assoc. simpl. rewrite elem_of_app, elem_of_cons. destruct (decide (w = v)) as [->|].
    + rewrite lookup_insert_eq. split; [intros [= <-]; auto|].
      intros [Hx|[[= ->]|Hx]]; [|done|]; destruct (Hvn wm); set_solver.
    + rewrite lookup_insert_ne, Hv, <-app_assoc by done. simpl. rewrite elem_of_app, elem_of_cons. naive_solver.
  - rewrite <-app_assoc in *. simpl in *. erewrite fmap_replace; [exact Hn|done].
  - intros w wm. rewrite elem_of_app, elem_of_cons. intros [Hx|[[= -> ->]|Hx]]; [apply (Hl w wm); set_solver| |apply (Hl w wm); set_solver].
    destruct (Hl v vm) as [Hmm Hw]; [set_solver|]. split; [done|]. unfold vma_wf in *. simpl. lia.
  - apply in_order_app in Ho as (Ho1&Ho2&Hb). apply in_order_cons in Ho2 as (Hx&Ho2&Hb2).
    apply in_order_app. rewrite in_order_cons. split_and!; [done..| |].
    + exact Hb2.
    + intros x y Hx1 [->|Hy]%elem_of_cons; [exact (Hb x (v, vm) Hx1 ltac:(left))|apply Hb; set_solver].
  - rewrite <-app_assoc in *. simpl in *. erewrite fmap_replace; [exact Hf|done].
Qed.

(** What backs an address, with new permissions. *)
Definition reflag {A} (flags : Z) (p : Z * A) : Z * A := (flags, p.2).

Lemma view_set_flags l1 l2 v vm flags a :
  in_order (l1 ++ (v, vm) :: l2) →
  view (l1 ++ (v, set_flags flags vm) :: l2) a =
    if decide (vm_start vm ≤ a < vm_end vm) then reflag flags <$> view (l1 ++ (v, vm) :: l2) a
    else view (l1 ++ (v, vm) :: l2) a.
Proof.
  intros Ho. unfold view. rewrite !area_at_app, !area_at_cons. unfold covers. cbn [snd set_flags vm_start vm_end].
  destruct (area_at a l1) as [y|] eqn:E; [|by repeat case_decide]. case_decide as Hc; [|done]. exfalso.
  apply area_at_Some in E as [Hy Hcy]. apply in_order_app in Ho as (_&_&Hb). specialize (Hb y (v, vm) Hy ltac:(left)).
  unfold before, covers in *. simpl in *. lia.
Qed.

Lemma cut_end l1 x l2 : in_order (l1 ++ x :: l2) → cut (vm_end x.2) (l1 ++ x :: l2).
Proof.
  intros (_&(Hn&_&Hb2)%in_order_cons&Hb)%in_order_app y. unfold nonempty in Hn. rewrite elem_of_app, elem_of_cons. intros [Hy|[->|Hy]]; [|lia|].
  - specialize (Hb y x Hy ltac:(left)). unfold before in Hb. lia.
  - specialize (Hb2 y Hy). unfold before in Hb2. lia.
Qed.

Lemma cut_same l l' x : (λ y, (vm_start y.2, vm_end y.2)) <$> l = (λ y, (vm_start y.2, vm_end y.2)) <$> l' → cut x l → cut x l'.
Proof.
  intros E Hc y Hy. assert (Hy' : (vm_start y.2, vm_end y.2) ∈ (λ y : area, (vm_start y.2, vm_end y.2)) <$> l).
  { rewrite E. apply list_elem_of_fmap. by exists y. }
  apply list_elem_of_fmap in Hy' as (z&[= Hs He]&Hz). specialize (Hc z Hz). congruence.
Qed.

(** The areas the loop still has to see. *)
Definition ahead (s : Z) (l : list area) : nat := length (filter (λ x, s < vm_end x.2) l).

Lemma ahead_step s l1 l2 v vm flags :
  in_order (l1 ++ (v, vm) :: l2) → s < vm_end vm → vm_start vm = s →
  (ahead (vm_end vm) (l1 ++ (v, set_flags flags vm) :: l2) < ahead s (l1 ++ (v, vm) :: l2))%nat.
Proof.
  intros (Ho1&(Hn&Ho2&Hb2)%in_order_cons&Hb)%in_order_app Hs Hst. unfold ahead. rewrite !filter_app, !filter_cons.
  rewrite (filter_none (λ x, s < vm_end x.2) l1), (filter_none (λ x, vm_end vm < vm_end x.2) l1).
  2, 3: (apply Forall_forall; intros y Hy; specialize (Hb y (v, vm) Hy ltac:(left)); unfold before in Hb; simpl in *; lia).
  simpl. rewrite decide_False by lia. rewrite decide_True by done. simpl.
  rewrite (filter_id (λ x, s < vm_end x.2) l2); [pose proof (length_filter (λ x, vm_end vm < vm_end x.2) l2); lia|].
  apply Forall_forall. intros y Hy. specialize (Hb2 y Hy). pose proof (in_order_nonempty _ _ Ho2 Hy).
  unfold before, nonempty in *. simpl in *. lia.
Qed.

(** [stop] is where the walk ended: the end, or the first hole. *)
Record reprotected m m' (l l' dt : list area) (start stop : Z) (flags : Z) : Prop := {
  p_inv : inv m' l' dt;
  p_covered a : start ≤ a < stop → is_Some (view l a);
  p_view a : view l' a = if decide (start ≤ a < stop) then reflag flags <$> view l a else view l a;
  p_table : protected (λ b, start ≤ b < stop) flags (pt m) (pt m');
  p_length : (length l' ≤ length l + 2)%nat;
}.

Lemma protect_loop_ok fuel m l dt start end_ flags ch :
  inv m l dt → 0 ≤ start → start ≤ end_ → start mod PAGE_SIZE = 0 → cut start l → cut end_ l → 0 ≤ flags < 8 →
  (ahead start l < fuel)%nat →
  ∃ ret m' l' ch' stop, protect_loop fuel m start end_ flags ch = Ok (ret, m', ch') ∧ log m' = log m ∧
    start ≤ stop ≤ end_ ∧ (if decide (stop = end_) then ret = 0 else ret = - ENOMEM ∧ view l stop = None) ∧
    reprotected m m' l l' dt start stop flags ∧ length l' = length l ∧
    (ch' = true ↔ ch = true ∨ touches (λ b, start ≤ b < stop) (pt m)).
Proof.
  revert m l start ch. induction fuel as [|fuel IH]; intros m l start ch Hi H0 Hse Hal Hcs Hce Hfl Hah; [lia|].
  assert (Hdone : reprotected m m l l dt start start flags ∧ length l = length l ∧
    (ch = true ↔ ch = true ∨ touches (λ b, start ≤ b < start) (pt m))).
  { split; [|split; [done|split; [auto|intros [?|(b&_&?&_)]; [done|lia]]]]. split; [done|lia| | |lia].
    - intros a. by rewrite decide_False by lia.
    - split; [done|]. split; [|done]. intros b Hb. by rewrite decide_False by lia. }
  cbn [protect_loop]. destruct (Z.ltb_spec start end_) as [Hlt|Hge].
  2: { assert (start = end_) as <- by lia. exists 0, m, l, ch, start. rewrite decide_True by done.
       split; [done|]. split; [done|]. split; [lia|]. split; [done|]. exact Hdone. }
  rewrite (vma_find_spec ext _ _ _ _ Hi). cbn [res_bind].
  destruct (area_at start l) as [[v vm]|] eqn:Ea; cbn [fmap option_fmap option_map fst].
  2: { exists (- ENOMEM), m, l, ch, start. rewrite decide_False by lia. split; [done|]. split; [done|]. split; [lia|].
       split; [split; [done|]; unfold view; by rewrite Ea|]. exact Hdone. }
  pose proof (area_at_Some _ _ _ Ea) as [Hv Hcv]. unfold covers in Hcv. simpl in Hcv.
  destruct (i_linked _ _ _ _ Hi v vm Hv) as [_ (Hs&Hne&He&Has&Hae&_)].
  assert (Hst : vm_start vm = start) by (specialize (Hcs _ Hv); simpl in Hcs; lia).
  assert (Hend : vm_end vm ≤ end_) by (specialize (Hce _ Hv); simpl in Hce; lia).
  rewrite (inv_load _ _ _ _ v vm Hi) by set_solver. cbn [res_bind]. fold (set_flags flags vm).
  apply list_elem_of_split in Hv as (l1&l2&->). pose proof (i_order _ _ _ _ Hi) as Ho.
  pose proof (inv_set_flags _ _ _ _ _ _ _ Hi Hfl) as Hi1.
  match type of Hi1 with Vma.inv ?x _ _ _ => set (m1 := x) in * end.
  destruct (protect_pages_ok (Z.to_nat ((vm_end vm - start) / PAGE_SIZE)) m1 start (vm_end vm) flags ch)
    as (t2&ch2&->&Hp2&Hpr2&Hch2); [apply Hi1|lia|done| |done|done|].
  { unfold PAGE_SIZE in *. Z.to_euclidean_division_equations; lia. }
  cbn [res_bind]. assert (Hi2 : inv (with_pt m1 t2) (l1 ++ (v, set_flags flags vm) :: l2) dt).
  { destruct Hi1 as [? ? ? ? ? ? ? ?]. by split. }
  assert (Hcut : ∀ x, cut x (l1 ++ (v, vm) :: l2) → cut x (l1 ++ (v, set_flags flags vm) :: l2)).
  { intros x. apply cut_same. by apply fmap_replace. }
  destruct (IH (with_pt m1 t2) (l1 ++ (v, set_flags flags vm) :: l2) (vm_end vm) ch2 Hi2)
    as (ret&m'&l'&ch'&stop&->&Hlog&Hstop&Hret&[Hpi Hpc Hpv Hpt _]&Hpl&Hch'); [lia|lia|done| |by apply Hcut|done| |].
  { apply Hcut. exact (cut_end l1 (v, vm) l2 Ho). }
  { pose proof (ahead_step start l1 l2 v vm flags Ho). lia. }
  assert (Hview : ∀ a, view (l1 ++ (v, set_flags flags vm) :: l2) a =
    if decide (start ≤ a < vm_end vm) then reflag flags <$> view (l1 ++ (v, vm) :: l2) a else view (l1 ++ (v, vm) :: l2) a).
  { intros a. rewrite view_set_flags by done. by rewrite Hst. }
  exists ret, m', l', ch', stop. split; [done|]. split; [done|]. split; [lia|].
  assert (Hin : ∀ a, start ≤ a < vm_end vm → is_Some (view (l1 ++ (v, vm) :: l2) a)).
  { intros a Ha. unfold view. rewrite area_at_unique; [by eexists|done|unfold covers; simpl; lia]. }
  split.
  { case_decide; [done|]. destruct Hret as [-> Hno]. split; [done|]. rewrite Hview, decide_False in Hno by lia. done. }
  split.
  - split; [done| | | |].
    + intros a Ha. destruct (decide (a < vm_end vm)); [apply Hin; lia|].
      specialize (Hpc a ltac:(lia)). by rewrite Hview, decide_False in Hpc by lia.
    + intros a. rewrite Hpv, Hview. repeat case_decide; try lia; done.
    + eapply protected_trans; [exact Hpr2|exact Hpt|]. intros a Ha. simpl. lia.
    + rewrite Hpl, !length_app. simpl. lia.
  - split; [by rewrite Hpl, !length_app|]. rewrite Hch', Hch2. unfold touches. cbn [pt with_pt] in *. destruct Hpr2 as [Hlf _]. subst m1. cbn [pt with_vmas] in *. split.
    + intros [[?|(b&Hb&?&?)]|(b&Hb&?&Hx)]; [by left|right; exists b; split; [done|]; split; [lia|done]|].
      right. exists b. rewrite Hlf in Hx by done. split; [done|]. split; [lia|done].
    + intros [?|(b&Hb&?&Hx)]; [auto|]. destruct (decide (b < vm_end vm)); [left; right; exists b; split; [done|]; split; [lia|done]|].
      right. exists b. rewrite Hlf by done. split; [done|]. split; [lia|done].
Qed.

Section ops.
Context (CONFIG_DEBUG_REFCOUNT : bool) (release : positive → option Z).

Lemma protect_range_ok m l dt a1 a2 start end_ flags :
  inv m l dt → spare l dt → range_ok start end_ → fresh m a1 → fresh m a2 → (is_Some a1 → a1 ≠ a2) → 0 ≤ flags < 8 →
  ∃ ret m', protect_range CONFIG_DEBUG_REFCOUNT release m a1 a2 start end_ flags = Ok (ret, m') ∧
    if decide (split_mem a1 a2 start end_ l)
    then ∃ l' stop ch, start ≤ stop ≤ end_ ∧ (if decide (stop = end_) then ret = 0 else ret = - ENOMEM ∧ view l stop = None) ∧
      reprotected m m' l l' dt start stop flags ∧ (ch = true ↔ touches (λ b, start ≤ b < stop) (pt m)) ∧
      log m' = log m ++ (if Z.testbit flags 2 then [IcacheFlush] else []) ++ (if ch then [TlbFlush] else [])
    else ret = - ENOMEM ∧ inv m' l dt ∧ quiet m m'.
Proof.
  intros Hi Hsp Hro Hf1 Hf2 Hne Hfl. unfold protect_range.
  destruct (split_range_ok CONFIG_DEBUG_REFCOUNT release m l dt a1 a2 start end_ Hi Hsp Hro Hf1 Hf2 Hne)
    as (ret&m1&->&[Hq1 Hq2]&Hres). cbn [res_bind]. fold (split_mem a1 a2 start end_ l) in Hres.
  rewrite <-decide_bool_decide in Hres. destruct (decide (split_mem a1 a2 start end_ l)).
  2: { destruct Hres as [-> Hi1]. by exists (- ENOMEM), m1. }
  destruct Hres as (->&l1&Hi1&Hv&Hcs&Hce&Hlen). cbn [truth negb Z.eqb].
  destruct Hro as [Hlt He2 Has Hae]. unfold VM_EXEC. rewrite truth_land_BIT by lia.
  set (m2 := if Z.testbit flags 2 then _ else _).
  assert (Hm2 : inv m2 l1 dt ∧ pt m2 = pt m ∧ log m2 = log m ++ (if Z.testbit flags 2 then [IcacheFlush] else [])).
  { subst m2. rewrite <-Hq2. destruct (Z.testbit flags 2); [|by rewrite app_nil_r].
    split; [|done]. by destruct Hi1 as [? ? ? ? ? ? ? ?]. }
  destruct Hm2 as (Hi2&Hpt2&Hlog2).
  destruct (protect_loop_ok (S (size (nodes (tree m2)))) m2 l1 dt start end_ flags false Hi2)
    as (ret&m3&l3&ch&stop&->&Hlog&Hstop&Hret&[Hpi Hpc Hpv Hpt _]&Hpl&Hch); try done; try lia.
  { pose proof (inv_size _ _ _ _ Hi2). pose proof (length_filter (λ x : area, start < vm_end x.2) l1). unfold ahead. lia. }
  cbn [res_bind]. eexists ret, _. split; [done|]. exists l3, stop, ch. split; [done|]. split; [by rewrite <-Hv|].
  rewrite Hpt2 in *. split; [|split].
  - split.
    + destruct ch; [|done]. by destruct Hpi as [? ? ? ? ? ? ? ?].
    + intros a Ha. rewrite <-Hv. by apply Hpc.
    + intros a. by rewrite Hpv, Hv.
    + by destruct ch.
    + lia.
  - rewrite Hch. naive_solver.
  - destruct ch; simpl; rewrite Hlog, Hlog2, ?app_nil_r, <-?app_assoc; done.
Qed.

(** ** Mapping *)

Definition new_vm (start end_ flags : Z) : vm_struct := Vm true start end_ flags None 0 0 0.

Lemma view_insert l1 l2 v vm a :
  in_order (l1 ++ (v, vm) :: l2) →
  view (l1 ++ (v, vm) :: l2) a = if decide (vm_start vm ≤ a < vm_end vm) then Some (vm_view vm a) else view (l1 ++ l2) a.
Proof.
  intros Ho. case_decide.
  - unfold view. rewrite area_at_unique; done.
  - unfold view. rewrite !area_at_app, area_at_cons, decide_False by done. done.
Qed.

(** A new anonymous area in a free range. *)
Lemma insert_new m l dt v start end_ flags :
  inv m l ((v, Vm false start end_ flags None 0 0 0) :: dt) → vma_wf (new_vm start end_ flags) →
  (∀ x, x ∈ l → ¬ meets start end_ x) →
  ∃ m' l', vma_insert m v = Ok (0, m') ∧ inv m' l' dt ∧ quiet m m' ∧ length l' = S (length l) ∧
    (∀ a, view l' a = if decide (start ≤ a < end_) then Some (flags, None) else view l a).
Proof.
  intros Hi Hw Hno. destruct (vma_insert_ok ext m l dt v _ Hi) as [[Hn _]|[(_&(y&Hy&Hm)&_)|(_&m'&l1&l2&->&E&Hi'&Hq)]].
  - destruct Hw. simpl in *. lia.
  - by destruct Hn.
  - by destruct (Hno y Hy).
  - exists m', (l1 ++ (v, new_vm start end_ flags) :: l2). split; [done|]. split; [done|]. split; [done|].
    split; [rewrite !length_app; simpl; lia|]. intros a. rewrite view_insert; [done|apply Hi'].
Qed.

Lemma map_range_ok m l a start end_ flags :
  inv m l [] → fresh m a → 0 ≤ flags < 2 ^ 64 →
  ∃ r m', map_range CONFIG_DEBUG_REFCOUNT release m a start end_ flags = Ok (r, m') ∧ quiet m m' ∧
    match a with
    | None => r = inl (- ENOMEM) ∧ m' = m
    | Some v =>
        if decide (vma_wf (new_vm start end_ flags))
        then if decide (Exists (meets start end_) l) then r = inl (- EEXIST) ∧ inv m' l []
             else r = inr v ∧ ∃ l', inv m' l' [] ∧ length l' = S (length l) ∧
               ∀ a, view l' a = if decide (start ≤ a < end_) then Some (flags, None) else view l a
        else r = inl (- EINVAL) ∧ inv m' l []
    end.
Proof.
  intros Hi Hf Hfl. unfold map_range. destruct a as [v|]; cbn [vma_alloc]; [|by eexists _, _].
  destruct (vma_alloc_ok ext _ _ _ v Hi (Hf v eq_refl)) as [Hi1 Hq1]. cbn [vma_alloc snd] in Hi1, Hq1.
  rewrite (inv_load _ _ _ _ v empty_vm Hi1) by set_solver. cbn [res_bind vm_mm vm_file vm_offset vm_fstart vm_fend].
  pose proof (inv_write_det _ _ _ _ _ (Vm false start end_ flags None 0 0 0) Hi1 eq_refl eq_refl) as Hi2.
  match type of Hi2 with Vma.inv ?x _ _ _ => set (m2 := x) in * end.
  assert (Hq2 : quiet m m2) by done.
  destruct (vma_insert_ok ext m2 l [] v _ Hi2 Hfl) as [[Hw E]|[(Hw&(y&Hy&Hm)&E)|(Hw&m3&l1&l2&->&E&Hi3&Hq3)]];
    rewrite E; cbn [res_bind].
  - destruct (vma_free_ok ext CONFIG_DEBUG_REFCOUNT release _ _ _ _ _ Hi2) as (m4&->&Hi4&Hq4&_). cbn [truth negb Z.eqb Z.opp EINVAL res_bind].
    eexists _, m4. split; [done|]. split; [destruct Hq2, Hq4; split; congruence|]. by rewrite decide_False by exact Hw.
  - destruct (vma_free_ok ext CONFIG_DEBUG_REFCOUNT release _ _ _ _ _ Hi2) as (m4&->&Hi4&Hq4&_). cbn [truth negb Z.eqb Z.opp EEXIST res_bind].
    eexists _, m4. split; [done|]. split; [destruct Hq2, Hq4; split; congruence|].
    rewrite decide_True by exact Hw. rewrite decide_True; [done|]. apply Exists_exists. by exists y.
  - eexists _, m3. split; [done|]. split; [destruct Hq2, Hq3; split; congruence|]. rewrite decide_True by exact Hw.
    pose proof (i_order _ _ _ _ Hi3) as Ho. rewrite decide_False.
    + split; [done|]. eexists. split; [exact Hi3|]. split; [rewrite !length_app; simpl; lia|].
      intros a. by rewrite view_insert.
    + intros (y&Hy&Hm)%Exists_exists. revert Hm. apply in_order_app in Ho as (Ho1&(Hn&Ho2&Hb2)%in_order_cons&Hb).
      apply (before_no_meet (v, new_vm start end_ flags)); [|exact Hn|].
      * apply elem_of_app in Hy as [Hy|Hy]; [right; exact (Hb y _ Hy ltac:(left))|left; exact (Hb2 y Hy)].
      * apply elem_of_app in Hy as [Hy|Hy]; [by apply (in_order_nonempty l1)|by apply (in_order_nonempty l2)].
Qed.
End ops.
End ranges.
