(* ===== verification/Pgtable.v ===== *)
(** * Page tables: [arch/riscv/pgtable.c], [asm/pgtable.h]

    Three-level tables of 512 entries.  [tabs] is the memory of the table pages,
    by physical address; a pointer to an entry is the table's address and an
    index.  [pages] has the descriptors of physical pages (records of [Buddy]),
    also by physical address.  What the page allocator returns is an argument.
    The operations run under [pgtable_lock]. *)
From stdpp Require Import base tactics numbers list gmap.
From S2P Require Import Prelude Bitmap Refcount Buddy Kiov Vma.

Definition PAGE_SHIFT : Z := 12.
Definition PT_INDEX_BITS : Z := 9.
Definition PT_INDEX_MASK : Z := 2 ^ PT_INDEX_BITS - 1.
Definition PT_ENTRIES : nat := 512.
Definition KERNEL_PGD_FIRST : nat := PT_ENTRIES / 2.
Definition PMD_SHIFT : Z := PAGE_SHIFT + PT_INDEX_BITS.
Definition PGD_SHIFT : Z := PMD_SHIFT + PT_INDEX_BITS.
Definition PGD_INDEX (addr : Z) : nat := Z.to_nat (Z.land (Z.shiftr addr PGD_SHIFT) PT_INDEX_MASK).
Definition PMD_INDEX (addr : Z) : nat := Z.to_nat (Z.land (Z.shiftr addr PMD_SHIFT) PT_INDEX_MASK).
Definition PTE_INDEX (addr : Z) : nat := Z.to_nat (Z.land (Z.shiftr addr PAGE_SHIFT) PT_INDEX_MASK).

Definition PTE_PPN_SHIFT : Z := 10.
Definition PTE_PPN_BITS : Z := 44.
Definition PTE_V : Z := 2 ^ 0.
Definition PTE_R : Z := 2 ^ 1.
Definition PTE_W : Z := 2 ^ 2.
Definition PTE_X : Z := 2 ^ 3.
Definition PTE_U : Z := 2 ^ 4.
Definition PTE_A : Z := 2 ^ 6.
Definition PTE_D : Z := 2 ^ 7.
Definition PTE_NONE : Z := 2 ^ 8.
Definition PTE_TABLE : Z := PTE_V.
Definition PTE_LEAF : Z := Z.lor (Z.lor PTE_R PTE_W) PTE_X.
Definition PTE_KERNEL_RW : Z := Z.lor (Z.lor (Z.lor (Z.lor PTE_V PTE_R) PTE_A) PTE_W) PTE_D.
Definition IOREMAP_VBASE : Z := 0xffffffe000000000.

Definition vma_to_pte (vma_flags : Z) : Z :=
  let flags := Z.lor (Z.lor PTE_V PTE_U) PTE_A in
  if negb (truth (Z.land vma_flags (Z.lor (Z.lor VM_READ VM_WRITE) VM_EXEC))) then Z.lor PTE_U PTE_NONE else
  let flags := if truth (Z.land vma_flags VM_READ) then Z.lor flags PTE_R else flags in
  let flags := if truth (Z.land vma_flags VM_WRITE) then Z.lor flags (Z.lor (Z.lor PTE_R PTE_W) PTE_D) else flags in
  if truth (Z.land vma_flags VM_EXEC) then Z.lor flags PTE_X else flags.

Definition pt_entry_make (paddr flags : Z) : Z :=
  Z.lor (u64 (Z.shiftl (Z.shiftr paddr PAGE_SHIFT) PTE_PPN_SHIFT)) flags.
Definition pt_entry_paddr (e : Z) : Z :=
  u64 (Z.shiftl (Z.land (Z.shiftr e PTE_PPN_SHIFT) (2 ^ PTE_PPN_BITS - 1)) PAGE_SHIFT).
Definition pt_entry_none (e : Z) : bool := e =? 0.
Definition pt_entry_valid (e : Z) : bool := truth (Z.land e PTE_V).
Definition pt_entry_present (e : Z) : bool := truth (Z.land e (Z.lor PTE_V PTE_NONE)).

Record pgt := Pgt { tabs : gmap Z (list Z); pgd : Z; pages : gmap Z page }.

(** An entry's address: table and index. *)
Abbreviation slot := (Z * nat)%type.

Definition pt_entry_read (t : pgt) (p : slot) : res Z := let! l := deref (tabs t !! p.1) in arr_get l p.2.
Definition pt_entry_write (t : pgt) (p : slot) (v : Z) : res pgt :=
  let! l := deref (tabs t !! p.1) in
  let! l := arr_set l p.2 v in
  Ok (Pgt (<[p.1 := l]> (tabs t)) (pgd t) (pages t)).

(** [a]: the allocator's error, or a page and its descriptor. *)
Abbreviation got := (Z + Z * page)%type.

Definition alloc_pgtable (t : pgt) (a : got) : (Z + Z) * pgt :=
  match a with
  | inl ret => (inl ret, t)
  | inr (p, d) =>
      (inr p, Pgt (<[p := replicate PT_ENTRIES 0]> (tabs t)) (pgd t)
                  (<[p := Page (Z.lor (flags d) PG_PGTABLE) (refcount d) (order d)]> (pages t)))
  end.

Definition walk_pte (t : pgt) (addr : Z) : res (option slot) :=
  let! e := pt_entry_read t (pgd t, PGD_INDEX addr) in
  if negb (pt_entry_valid e) then Ok None else
  let! e := pt_entry_read t (pt_entry_paddr e, PMD_INDEX addr) in
  if negb (pt_entry_valid e) then Ok None else
  Ok (Some (pt_entry_paddr e, PTE_INDEX addr)).

(** The entry, or an error. *)
Definition walk_pte_create (t : pgt) (addr : Z) (a1 a2 : got) : res ((Z + slot) * pgt) :=
  let top := (pgd t, PGD_INDEX addr) in
  let! e := pt_entry_read t top in
  let! (e, t) :=
    if negb (pt_entry_valid e) then
      match alloc_pgtable t a1 with
      | (inl ret, t) => Ok (inl ret, t)
      | (inr p, t) =>
          let e := pt_entry_make p PTE_TABLE in
          let! t := pt_entry_write t top e in Ok (inr e, t)
      end
    else Ok (inr e, t) in
  match e with
  | inl ret => Ok (inl ret, t)
  | inr e =>
      let pmd := (pt_entry_paddr e, PMD_INDEX addr) in
      let! e := pt_entry_read t pmd in
      let! (e, t) :=
        if negb (pt_entry_valid e) then
          match alloc_pgtable t a2 with
          | (inl ret, t) => Ok (inl ret, t)
          | (inr p, t) =>
              let e := pt_entry_make p PTE_TABLE in
              let! t := pt_entry_write t pmd e in Ok (inr e, t)
          end
        else Ok (inr e, t) in
      Ok (match e with inl ret => inl ret | inr e => inr (pt_entry_paddr e, PTE_INDEX addr) end, t)
  end.

Definition map_page (t : pgt) (addr paddr prot : Z) (a1 a2 : got) : res (Z * pgt) :=
  let! (r, t) := walk_pte_create t addr a1 a2 in
  match r with
  | inl ret => Ok (ret, t)
  | inr pte =>
      let! e := pt_entry_read t pte in
      if negb (pt_entry_none e) then Ok (- EEXIST, t) else
      let! t := pt_entry_write t pte (pt_entry_make paddr prot) in
      Ok (0, t)
  end.

(** The events are the flushes, in order. *)
Definition pgtable_map_page (t : pgt) (addr page vm_flags : Z) (a1 a2 : got) : res (Z * pgt * list event) :=
  if (addr <? UVADDR_START) || (addr >=? UVADDR_END) || truth (Z.land addr (PAGE_SIZE - 1)) ||
     truth (Z.land vm_flags (not64 (Z.lor (Z.lor VM_READ VM_WRITE) VM_EXEC)))
  then Ok (- EINVAL, t, []) else
  let prot := vma_to_pte vm_flags in
  let es := if truth (Z.land prot PTE_X) then [IcacheFlush] else [] in
  let! (ret, t) := map_page t addr page prot a1 a2 in
  Ok (ret, t, es ++ (if truth ret then [] else [TlbFlush])).

Definition pgtable_unmap_page (t : pgt) (addr : Z) : res (option Z * pgt) :=
  let! _ := Assert ((addr >=? UVADDR_START) && (addr <? UVADDR_END) && negb (truth (Z.land addr (PAGE_SIZE - 1)))) in
  let! w := walk_pte t addr in
  let! (e, t) :=
    match w with
    | None => Ok (0, t)
    | Some pte => let! e := pt_entry_read t pte in let! t := pt_entry_write t pte 0 in Ok (e, t)
    end in
  if e =? 0 then Ok (None, t) else
  let! _ := Assert (pt_entry_present e && truth (Z.land e PTE_U)) in
  Ok (Some (pt_entry_paddr e), t).

Definition pgtable_protect_page (t : pgt) (addr vm_flags : Z) : res (bool * pgt) :=
  let prot := vma_to_pte vm_flags in
  let! w := walk_pte t addr in
  match w with
  | None => Ok (false, t)
  | Some pte =>
      let! e := pt_entry_read t pte in
      if negb (pt_entry_present e) then Ok (false, t) else
      let! page := deref (pages t !! pt_entry_paddr e) in
      let prot := if negb (refcount_read (refcount page) =? 1) then Z.land prot (not64 PTE_W) else prot in
      let value := Z.lor (Z.land e (not64 (Z.lor (Z.lor PTE_V PTE_LEAF) PTE_NONE))) prot in
      let! t := pt_entry_write t pte value in
      Ok (true, t)
  end.

(** The physical address, or an error. *)
Definition pgtable_lookup (t : pgt) (addr : Z) : res (Z + Z) :=
  if (addr <? UVADDR_START) || (addr >=? UVADDR_END) then Ok (inl (- EINVAL)) else
  let! w := walk_pte t addr in
  match w with
  | None => Ok (inl (- ENOENT))
  | Some pte =>
      let! e := pt_entry_read t pte in
      Ok (if negb (pt_entry_valid e) then inl (- ENOENT)
          else inr (u64 (pt_entry_paddr e + Z.land addr (PAGE_SIZE - 1))))
  end.

(** ** Indices *)

(** A user page is determined by its three indices. *)
Lemma index_spec a s : 0 ≤ a → 0 ≤ s → Z.of_nat (Z.to_nat (Z.land (Z.shiftr a s) PT_INDEX_MASK)) = (a / 2 ^ s) mod 512.
Proof.
  intros Ha Hs. change PT_INDEX_MASK with (Z.ones 9). rewrite Z.land_ones, Z.shiftr_div_pow2 by lia.
  rewrite Z2Nat.id; [done|]. apply Z.mod_pos_bound. lia.
Qed.

Lemma user_page_indices a b :
  user_page a → user_page b → PGD_INDEX a = PGD_INDEX b → PMD_INDEX a = PMD_INDEX b → PTE_INDEX a = PTE_INDEX b → a = b.
Proof.
  intros [Ha Hma] [Hb Hmb] H1 H2 H3. apply (f_equal Z.of_nat) in H1, H2, H3. unfold UVADDR_START, UVADDR_END in *.
  unfold PGD_INDEX, PMD_INDEX, PTE_INDEX in *. rewrite !index_spec in * by (unfold PGD_SHIFT, PMD_SHIFT, PAGE_SHIFT, PT_INDEX_BITS; lia).
  change (2 ^ PGD_SHIFT) with (2 ^ 30) in *. change (2 ^ PMD_SHIFT) with (2 ^ 21) in *. change (2 ^ PAGE_SHIFT) with (2 ^ 12) in *.
  unfold PAGE_SIZE in *. Z.to_euclidean_division_equations; lia.
Qed.

Lemma user_pgd_index a : user_page a → (PGD_INDEX a < KERNEL_PGD_FIRST)%nat.
Proof.
  intros [Ha _]. unfold UVADDR_START, UVADDR_END in Ha. apply Nat2Z.inj_lt. unfold PGD_INDEX.
  rewrite index_spec by (unfold PGD_SHIFT, PMD_SHIFT, PAGE_SHIFT, PT_INDEX_BITS; lia).
  change (Z.of_nat KERNEL_PGD_FIRST) with 256. change (2 ^ PGD_SHIFT) with (2 ^ 30).
  rewrite Z.mod_small; Z.to_euclidean_division_equations; lia.
Qed.

(** ** Entries *)

Lemma truth_land_pow2 e n : 0 ≤ n → truth (Z.land e (2 ^ n)) = Z.testbit e n.
Proof.
  intros Hn. unfold truth. destruct (Z.testbit e n) eqn:Hb.
  - apply negb_true_iff, Z.eqb_neq. intros H0. assert (Hc : Z.testbit (Z.land e (2 ^ n)) n = true).
    { by rewrite Z.land_spec, Hb, Z.pow2_bits_true. }
    by rewrite H0, Z.bits_0 in Hc.
  - apply negb_false_iff, Z.eqb_eq, Z.bits_inj'. intros i Hi. rewrite Z.land_spec, Z.pow2_bits_eqb, Z.bits_0 by done.
    destruct (Z.eqb_spec n i); [subst; by rewrite Hb|apply andb_false_r].
Qed.

Lemma valid_bit e : pt_entry_valid e = Z.testbit e 0.
Proof. apply truth_land_pow2. lia. Qed.

Lemma present_bits e : pt_entry_present e = Z.testbit e 0 || Z.testbit e 8.
Proof.
  unfold pt_entry_present. rewrite Z.land_lor_distr_r. rewrite <-(truth_land_pow2 e 0), <-(truth_land_pow2 e 8) by lia.
  unfold truth, PTE_V, PTE_NONE. set (x := Z.land e (2 ^ 0)). set (y := Z.land e (2 ^ 8)).
  destruct (Z.eqb_spec (Z.lor x y) 0) as [H%Z.lor_eq_0_iff|H].
  - destruct H as [-> ->]. done.
  - destruct (Z.eqb_spec x 0) as [->|], (Z.eqb_spec y 0) as [->|]; done.
Qed.

(** The page number is bits 10 to 53. *)
Lemma paddr_bits e i : 0 ≤ i → Z.testbit (pt_entry_paddr e) i = (12 <=? i) && (i <? 56) && Z.testbit e (i - 2).
Proof.
  intros Hi. unfold pt_entry_paddr. rewrite u64_spec by done. unfold PTE_PPN_SHIFT, PTE_PPN_BITS, PAGE_SHIFT.
  destruct (Z.leb_spec 12 i); [|rewrite Z.shiftl_spec_low by lia; by rewrite andb_false_r].
  rewrite Z.shiftl_spec, Z.land_spec, Z.shiftr_spec by lia.
  change (2 ^ 44 - 1) with (Z.ones 44). rewrite Z.testbit_ones_nonneg by lia.
  replace (i - 12 + 10) with (i - 2) by lia.
  destruct (Z.ltb_spec i 56), (Z.ltb_spec (i - 12) 44), (Z.ltb_spec i 64); try lia; simpl;
    by rewrite ?andb_true_r, ?andb_false_r.
Qed.

(** A page-aligned address within 56 bits. *)
Definition page_paddr (p : Z) : Prop := 0 ≤ p < 2 ^ 56 ∧ p mod PAGE_SIZE = 0.

Lemma bits_above x n i : 0 ≤ x < 2 ^ n → n ≤ i → Z.testbit x i = false.
Proof.
  intros Hx Hi. destruct (decide (x = 0)) as [->|]; [apply Z.bits_0|].
  destruct (Z.le_gt_cases 0 n); [|rewrite Z.pow_neg_r in Hx by lia; lia].
  apply Z.bits_above_log2; [lia|]. eapply Z.lt_le_trans; [|done]. apply Z.log2_lt_pow2; lia.
Qed.

Lemma make_bits p f i :
  page_paddr p → 0 ≤ f < 2 ^ 10 → 0 ≤ i →
  Z.testbit (pt_entry_make p f) i = if 10 <=? i then Z.testbit p (i + 2) else Z.testbit f i.
Proof.
  intros [Hp Hm] Hf Hi. unfold pt_entry_make. rewrite Z.lor_spec, u64_spec by done. unfold PAGE_SHIFT, PTE_PPN_SHIFT.
  destruct (Z.leb_spec 10 i).
  - rewrite Z.shiftl_spec, Z.shiftr_spec by lia. rewrite (bits_above f 10 i) by done. rewrite orb_false_r.
    replace (i - 10 + 12) with (i + 2) by lia. destruct (Z.ltb_spec i 64); [done|]. symmetry. apply (bits_above _ 56); [done|lia].
  - rewrite Z.shiftl_spec_low by lia. by rewrite andb_false_r.
Qed.

Lemma make_paddr p f : page_paddr p → 0 ≤ f < 2 ^ 10 → pt_entry_paddr (pt_entry_make p f) = p.
Proof.
  intros Hp Hf. apply Z.bits_inj'. intros i Hi. rewrite paddr_bits by done. pose proof Hp as [Hb Hm].
  destruct (Z.leb_spec 12 i); simpl.
  - destruct (Z.ltb_spec i 56); simpl; [|symmetry; by apply (bits_above _ 56)].
    rewrite make_bits by (done || lia). replace (10 <=? i - 2) with true by lia. f_equal. lia.
  - symmetry. rewrite <-(Z.mod_pow2_bits_low p 12) by lia. change (2 ^ 12) with PAGE_SIZE. by rewrite Hm, Z.bits_0.
Qed.

(** ** Shape *)

Definition entry (t : pgt) (q : Z) (k : nat) : option Z := l ← tabs t !! q; l !! k.
Definition next_table (e : Z) : option Z := if pt_entry_valid e then Some (pt_entry_paddr e) else None.
Definition pmd_at (t : pgt) (i : nat) : option Z := entry t (pgd t) i ≫= next_table.
Definition pte_at (t : pgt) (i j : nat) : option Z := q ← pmd_at t i; entry t q j ≫= next_table.
Definition leaf_at (t : pgt) (i j k : nat) : option Z := q ← pte_at t i j; entry t q k.

(** The entry that maps something at the indices. *)
Definition nonzero (e : Z) : option Z := if e =? 0 then None else Some e.
Definition mapped (t : pgt) (i j k : nat) : option Z := leaf_at t i j k ≫= nonzero.

(** An entry of a user page. *)
Record user_leaf (t : pgt) (e : Z) : Prop := {
  ul_u64 : in_u64 e;
  ul_present : pt_entry_present e = true;
  ul_user : Z.testbit e 4 = true;
  ul_page : is_Some (pages t !! pt_entry_paddr e);
}.

Record wf (t : pgt) : Prop := {
  w_len q l : tabs t !! q = Some l → length l = PT_ENTRIES;
  w_root : is_Some (tabs t !! pgd t);
  w_pmd i q : pmd_at t i = Some q → is_Some (tabs t !! q) ∧ q ≠ pgd t;
  w_pte i j q : pte_at t i j = Some q → is_Some (tabs t !! q) ∧ q ≠ pgd t ∧ (∀ i', pmd_at t i' ≠ Some q);
  w_pmd_inj i i' q : pmd_at t i = Some q → pmd_at t i' = Some q → i = i';
  w_pte_inj i j i' j' q : pte_at t i j = Some q → pte_at t i' j' = Some q → i = i' ∧ j = j';
  w_leaf i j k e : (i < KERNEL_PGD_FIRST)%nat → mapped t i j k = Some e → user_leaf t e;
}.

Lemma index_lt a s : (Z.to_nat (Z.land (Z.shiftr a s) PT_INDEX_MASK) < PT_ENTRIES)%nat.
Proof.
  change PT_INDEX_MASK with (Z.ones 9). rewrite Z.land_ones by lia. pose proof (Z.mod_pos_bound (Z.shiftr a s) (2 ^ 9) ltac:(lia)).
  unfold PT_ENTRIES. lia.
Qed.

Lemma read_entry t q k e : entry t q k = Some e → pt_entry_read t (q, k) = Ok e.
Proof.
  unfold entry, pt_entry_read, arr_get. simpl. destruct (tabs t !! q) as [l|]; [|done]. simpl. by intros ->.
Qed.

Lemma entry_live t q k : wf t → is_Some (tabs t !! q) → (k < PT_ENTRIES)%nat → ∃ e, entry t q k = Some e.
Proof.
  intros Hw [l Hl] Hk. unfold entry. rewrite Hl. simpl. apply lookup_lt_is_Some. by rewrite (w_len _ Hw _ _ Hl).
Qed.

Definition put (t : pgt) (q : Z) (k : nat) (v : Z) : pgt :=
  Pgt (alter (λ l, <[k := v]> l) q (tabs t)) (pgd t) (pages t).

Lemma write_put t q k v :
  wf t → is_Some (tabs t !! q) → (k < PT_ENTRIES)%nat → pt_entry_write t (q, k) v = Ok (put t q k v).
Proof.
  intros Hw [l Hl] Hk. unfold pt_entry_write. simpl. rewrite Hl. cbn [deref res_bind].
  rewrite arr_set_Ok by by rewrite (w_len _ Hw _ _ Hl). cbn [res_bind]. unfold put. do 2 f_equal.
  apply map_eq. intros p. destruct (decide (p = q)) as [->|].
  - by rewrite lookup_insert_eq, lookup_alter_eq, Hl.
  - by rewrite lookup_insert_ne, lookup_alter_ne.
Qed.

Lemma entry_put t q k v p i :
  entry (put t q k v) p i = if decide (p = q ∧ i = k) then const v <$> entry t q k else entry t p i.
Proof.
  unfold entry, put. simpl. destruct (decide (p = q)) as [->|].
  - rewrite lookup_alter_eq. destruct (tabs t !! q) as [l|]; simpl; [|by case_decide].
    destruct (decide (i = k)) as [->|].
    + rewrite decide_True by done. destruct (decide (k < length l)%nat).
      * rewrite list_lookup_insert_eq by done. destruct (lookup_lt_is_Some_2 l k) as [x ->]; done.
      * rewrite list_insert_ge by lia. by rewrite lookup_ge_None_2 by lia.
    + rewrite decide_False by naive_solver. by rewrite list_lookup_insert_ne.
  - rewrite lookup_alter_ne, decide_False by naive_solver. done.
Qed.

(** *** The walk *)

Lemma walk_pte_ok t addr :
  wf t → walk_pte t addr = Ok ((λ q, (q, PTE_INDEX addr)) <$> pte_at t (PGD_INDEX addr) (PMD_INDEX addr)).
Proof.
  intros Hw. unfold walk_pte.
  destruct (entry_live t (pgd t) (PGD_INDEX addr) Hw (w_root _ Hw) (index_lt _ _)) as [e He].
  rewrite (read_entry _ _ _ _ He). cbn [res_bind].
  assert (Hp : pmd_at t (PGD_INDEX addr) = next_table e) by (unfold pmd_at; by rewrite He). unfold pte_at. rewrite Hp.
  unfold next_table in *. destruct (pt_entry_valid e); cbn [negb mbind option_bind]; [|done].
  destruct (w_pmd _ Hw _ _ Hp) as [Hl _].
  destruct (entry_live t _ (PMD_INDEX addr) Hw Hl (index_lt _ _)) as [e2 He2].
  rewrite (read_entry _ _ _ _ He2), He2. cbn [res_bind mbind option_bind]. by destruct (pt_entry_valid e2).
Qed.

(** *** Writing a leaf entry *)

Section leaf.
Context (t : pgt) (i0 j0 k0 : nat) (q0 v : Z).
Context (Hw : wf t) (Hq : pte_at t i0 j0 = Some q0) (Hk : (k0 < PT_ENTRIES)%nat).

Let t' := put t q0 k0 v.

Lemma leaf_pmd i : pmd_at t' i = pmd_at t i.
Proof.
  unfold pmd_at, t'. rewrite entry_put. simpl. destruct (w_pte _ Hw _ _ _ Hq) as (_&Hne&_). rewrite decide_False; [done|]. by intros [<- _].
Qed.

Lemma leaf_pte i j : pte_at t' i j = pte_at t i j.
Proof.
  unfold pte_at. rewrite leaf_pmd. destruct (pmd_at t i) as [q|] eqn:E; [|done]. simpl. unfold t'. rewrite entry_put.
  destruct (w_pte _ Hw _ _ _ Hq) as (_&_&Hne). rewrite decide_False; [done|]. intros [-> _]. by apply (Hne i).
Qed.

Lemma leaf_leaf i j k : leaf_at t' i j k = if decide (i = i0 ∧ j = j0 ∧ k = k0) then Some v else leaf_at t i j k.
Proof.
  unfold leaf_at. rewrite leaf_pte. destruct (decide (i = i0 ∧ j = j0 ∧ k = k0)) as [(->&->&->)|Hn].
  - rewrite Hq. simpl. unfold t'. rewrite entry_put, decide_True by done.
    destruct (entry_live t q0 k0 Hw) as [e He]; [by apply (w_pte _ Hw _ _ _ Hq)|done|]. by rewrite He.
  - destruct (pte_at t i j) as [q|] eqn:E; [|done]. simpl. unfold t'. rewrite entry_put, decide_False; [done|].
    intros [-> ->]. destruct (w_pte_inj _ Hw _ _ _ _ _ E Hq). naive_solver.
Qed.

Lemma leaf_mapped i j k :
  mapped t' i j k = if decide (i = i0 ∧ j = j0 ∧ k = k0) then nonzero v else mapped t i j k.
Proof. unfold mapped. rewrite leaf_leaf. by case_decide. Qed.

Lemma leaf_wf : (v = 0 ∨ user_leaf t v ∨ (KERNEL_PGD_FIRST ≤ i0)%nat) → wf t'.
Proof.
  intros Hv. split.
  - intros q l. unfold t', put. simpl. destruct (decide (q = q0)) as [->|].
    + rewrite lookup_alter_eq. intros (l'&Hl&->)%fmap_Some. rewrite length_insert. by apply (w_len _ Hw q0).
    + rewrite lookup_alter_ne by done. apply (w_len _ Hw).
  - unfold t', put. simpl. rewrite lookup_alter_is_Some. apply (w_root _ Hw).
  - intros i q. rewrite leaf_pmd. intros H%(w_pmd _ Hw). unfold t', put. simpl. by rewrite lookup_alter_is_Some.
  - intros i j q. rewrite leaf_pte. intros (H1&H2&H3)%(w_pte _ Hw). split; [|split; [done|]].
    + unfold t', put. simpl. by rewrite lookup_alter_is_Some.
    + intros i'. by rewrite leaf_pmd.
  - intros i i' q. rewrite !leaf_pmd. apply (w_pmd_inj _ Hw).
  - intros i j i' j' q. rewrite !leaf_pte. apply (w_pte_inj _ Hw).
  - intros i j k e Hi. rewrite leaf_mapped. case_decide as Hd.
    + destruct Hd as (->&_&_). unfold nonzero. destruct (Z.eqb_spec v 0); [done|]. intros [= <-].
      destruct Hv as [?|[[H1 H2 H3 H4]|?]]; [done| |lia]. by split.
    + intros [H1 H2 H3 H4]%(w_leaf _ Hw); [|done]. by split.
Qed.
End leaf.

(** ** What entries grant *)

Definition perm (e : Z) : Z := Z.land (Z.shiftr e 1) 7.

Lemma perm_bits e i : 0 ≤ i → Z.testbit (perm e) i = (i <? 3) && Z.testbit e (i + 1).
Proof.
  intros Hi. unfold perm. change 7 with (Z.ones 3). rewrite Z.land_spec, Z.shiftr_spec, Z.testbit_ones_nonneg by lia.
  apply andb_comm.
Qed.

(** The flags [pgtable_protect_page] writes. *)
Definition prot_bits (flags : Z) (shared : bool) : Z :=
  if shared then Z.land (vma_to_pte flags) (not64 PTE_W) else vma_to_pte flags.

Lemma prot_bits_ok flags shared :
  0 ≤ flags < 8 →
  let p := prot_bits flags shared in
  0 ≤ p < 2 ^ 10 ∧ (Z.testbit p 0 || Z.testbit p 8) = true ∧ Z.testbit p 4 = true ∧ perm p = grant flags shared.
Proof.
  intros Hf. assert (Hall : ∀ b, Forall (λ f, 0 ≤ prot_bits f b < 2 ^ 10 ∧ (Z.testbit (prot_bits f b) 0 || Z.testbit (prot_bits f b) 8) = true ∧
    Z.testbit (prot_bits f b) 4 = true ∧ perm (prot_bits f b) = grant f b) (seqZ 0 8)).
  { intros []; apply (bool_decide_unpack _); vm_compute; exact I. }
  specialize (Hall shared). rewrite Forall_forall in Hall. apply Hall, elem_of_seqZ. lia.
Qed.

Definition KEPT : Z := not64 (Z.lor (Z.lor PTE_V PTE_LEAF) PTE_NONE).

Lemma kept_bits i : 0 ≤ i → Z.testbit KEPT i = (i <? 64) && negb (Z.testbit 271 i).
Proof. intros. unfold KEPT. by rewrite not64_spec. Qed.

Lemma value_low e p i : 0 ≤ i → Z.testbit 271 i = true → Z.testbit (Z.lor (Z.land e KEPT) p) i = Z.testbit p i.
Proof.
  intros Hi Hm. rewrite Z.lor_spec, Z.land_spec, kept_bits by done. rewrite Hm. by rewrite !andb_false_r.
Qed.

Lemma value_paddr e p : in_u64 e → 0 ≤ p < 2 ^ 10 → pt_entry_paddr (Z.lor (Z.land e KEPT) p) = pt_entry_paddr e.
Proof.
  intros He Hp. apply Z.bits_inj'. intros i Hi. rewrite !paddr_bits by done.
  destruct (Z.leb_spec 12 i); simpl; [|done]. destruct (Z.ltb_spec i 56); simpl; [|done].
  rewrite Z.lor_spec, Z.land_spec, kept_bits, (bits_above p 10), (bits_above 271 10) by lia.
  replace (i - 2 <? 64) with true by lia. simpl. by rewrite andb_true_r, orb_false_r.
Qed.

Lemma value_perm e p : perm (Z.lor (Z.land e KEPT) p) = perm p.
Proof.
  apply Z.bits_inj'. intros i Hi. rewrite !perm_bits by done. destruct (Z.ltb_spec i 3); simpl; [|done].
  apply value_low; [lia|]. assert (i = 0 ∨ i = 1 ∨ i = 2) as [->|[->| ->]] by lia; done.
Qed.

Lemma value_leaf t e flags shared :
  user_leaf t e → 0 ≤ flags < 8 → user_leaf t (Z.lor (Z.land e KEPT) (prot_bits flags shared)).
Proof.
  intros [H1 H2 H3 H4] Hf. destruct (prot_bits_ok flags shared Hf) as (Hp&Hpres&Hu&_). split.
  - apply lor_u64; [by apply land_u64_l|unfold in_u64; lia].
  - rewrite present_bits, !value_low by (done || lia). done.
  - rewrite Z.lor_spec, Hu. apply orb_true_r.
  - by rewrite value_paddr.
Qed.

Lemma leaf_nonzero t e : user_leaf t e → e ≠ 0.
Proof. intros [_ H _ _] ->. done. Qed.

(** ** The interface of the layout code *)

Abbreviation at_page f t a := (f t (PGD_INDEX a) (PMD_INDEX a) (PTE_INDEX a)).

Definition pgt_leaf (t : pgt) (a : Z) : option Z := pt_entry_paddr <$> at_page mapped t a.
Definition pgt_perm (t : pgt) (a : Z) : option Z := perm <$> at_page mapped t a.
Definition pgt_shared (t : pgt) (p : Z) : bool :=
  match pages t !! p with Some d => negb (refcount_read (refcount d) =? 1) | None => false end.

(** Writing the entry of a user page changes that page only. *)
Lemma mapped_at t q v a b :
  wf t → user_page a → user_page b → pte_at t (PGD_INDEX a) (PMD_INDEX a) = Some q →
  at_page mapped (put t q (PTE_INDEX a) v) b = if decide (b = a) then nonzero v else at_page mapped t b.
Proof.
  intros Hw Ha Hb Hq. rewrite (leaf_mapped t _ _ (PTE_INDEX a) _ v Hw Hq (index_lt _ _)). apply decide_ext.
  split; [intros (?&?&?); by apply user_page_indices|by intros ->].
Qed.

Lemma leaf_entry t a q :
  wf t → pte_at t (PGD_INDEX a) (PMD_INDEX a) = Some q →
  ∃ e, pt_entry_read t (q, PTE_INDEX a) = Ok e ∧ at_page mapped t a = nonzero e ∧
    (∀ v, pt_entry_write t (q, PTE_INDEX a) v = Ok (put t q (PTE_INDEX a) v)).
Proof.
  intros Hw Hq. destruct (w_pte _ Hw _ _ _ Hq) as (Hl&_).
  destruct (entry_live t q (PTE_INDEX a) Hw Hl (index_lt _ _)) as [e He]. exists e. split; [by apply read_entry|]. split.
  - unfold mapped, leaf_at. rewrite Hq. simpl. by rewrite He.
  - intros v. apply write_put; [done..|apply index_lt].
Qed.

Lemma unmapped_at t a : pte_at t (PGD_INDEX a) (PMD_INDEX a) = None → at_page mapped t a = None.
Proof. unfold mapped, leaf_at. by intros ->. Qed.

Lemma pgtable_unmap_ok t a :
  wf t → user_page a →
  ∃ t', pgtable_unmap_page t a = Ok (pgt_leaf t a, t') ∧ wf t' ∧ pages t' = pages t ∧ pgd t' = pgd t ∧
    (∀ b, user_page b → at_page mapped t' b = if decide (b = a) then None else at_page mapped t b).
Proof.
  intros Hw Ha. unfold pgtable_unmap_page.
  replace (_ && _ && _) with true.
  2: { symmetry. destruct Ha as [Ha1 Ha2]. rewrite !andb_true_iff, Z.geb_leb, Z.leb_le, Z.ltb_lt. split; [lia|].
       apply negb_true_iff, truth_false. change (PAGE_SIZE - 1) with (Z.ones 12). by rewrite Z.land_ones by lia. }
  cbn [Assert res_bind]. rewrite (walk_pte_ok _ _ Hw). cbn [res_bind]. unfold pgt_leaf.
  destruct (pte_at t (PGD_INDEX a) (PMD_INDEX a)) as [q|] eqn:Hq; cbn [fmap option_fmap option_map].
  2: { rewrite (unmapped_at _ _ Hq). exists t. split; [done|]. split; [done|]. split; [done|]. split; [done|].
       intros b Hb. case_decide; [subst; by apply unmapped_at|done]. }
  destruct (leaf_entry t a q Hw Hq) as (e&->&He&->). cbn [res_bind].
  assert (Hres : wf (put t q (PTE_INDEX a) 0)) by (eapply leaf_wf; eauto; apply index_lt).
  exists (put t q (PTE_INDEX a) 0). rewrite He. unfold nonzero. destruct (Z.eqb_spec e 0) as [->|Hne].
  - split; [done|]. split; [done|]. split; [done|]. split; [done|]. intros b Hb. by rewrite (mapped_at t q 0 a b).
  - assert (Hu : user_leaf t e).
    { eapply (w_leaf _ Hw _ (PMD_INDEX a) (PTE_INDEX a)); [by apply user_pgd_index|]. rewrite He. unfold nonzero. by destruct (Z.eqb_spec e 0). }
    destruct Hu as [H1 H2 H3 H4]. rewrite H2. unfold PTE_U. rewrite truth_land_pow2, H3 by lia. cbn [andb Assert res_bind].
    split; [done|]. split; [done|]. split; [done|]. split; [done|]. intros b Hb. by rewrite (mapped_at t q 0 a b).
Qed.

Lemma page_leaf t a e : wf t → user_page a → at_page mapped t a = Some e → user_leaf t e.
Proof. intros Hw Ha. apply (w_leaf _ Hw). by apply user_pgd_index. Qed.

(** The entry protection leaves. *)
Definition protected (t : pgt) (vm_flags e : Z) : Z :=
  Z.lor (Z.land e KEPT) (prot_bits vm_flags (pgt_shared t (pt_entry_paddr e))).

Lemma protect_entry t a vm_flags :
  wf t → user_page a → 0 ≤ vm_flags < 8 →
  ∃ t', pgtable_protect_page t a vm_flags = Ok (bool_decide (is_Some (at_page mapped t a)), t') ∧ wf t' ∧
    pages t' = pages t ∧ pgd t' = pgd t ∧
    (∀ b, user_page b → at_page mapped t' b = if decide (b = a) then protected t vm_flags <$> at_page mapped t a else at_page mapped t b).
Proof.
  intros Hw Ha Hf. unfold pgtable_protect_page. rewrite (walk_pte_ok _ _ Hw). cbn [res_bind].
  destruct (pte_at t (PGD_INDEX a) (PMD_INDEX a)) as [q|] eqn:Hq; cbn [fmap option_fmap option_map].
  2: { exists t. rewrite (unmapped_at _ _ Hq). do 4 (split; [done|]).
       intros b Hb. case_decide; [subst; by rewrite (unmapped_at _ _ Hq)|done]. }
  destruct (leaf_entry t a q Hw Hq) as (e&->&He&Hwr). cbn [res_bind]. rewrite He. unfold nonzero.
  destruct (Z.eqb_spec e 0) as [->|Hne].
  { exists t. do 4 (split; [done|]). intros b Hb. case_decide; [subst; by rewrite He|done]. }
  assert (Hu : user_leaf t e).
  { eapply (page_leaf t a); [done..|]. rewrite He. unfold nonzero. by destruct (Z.eqb_spec e 0). }
  pose proof Hu as [H1 H2 _ [d Hd]]. rewrite H2. cbn [negb]. rewrite Hd. cbn [deref res_bind].
  assert (Hsh : negb (refcount_read (refcount d) =? 1) = pgt_shared t (pt_entry_paddr e)) by (unfold pgt_shared; by rewrite Hd).
  rewrite Hsh. fold (prot_bits vm_flags (pgt_shared t (pt_entry_paddr e))). fold KEPT. fold (protected t vm_flags e). rewrite Hwr. cbn [res_bind].
  assert (Hv : user_leaf t (protected t vm_flags e)) by by apply value_leaf.
  exists (put t q (PTE_INDEX a) (protected t vm_flags e)). split; [done|]. split; [eapply leaf_wf; eauto; apply index_lt|].
  do 2 (split; [done|]). intros b Hb. rewrite (mapped_at t q _ a b) by done. unfold nonzero. pose proof (leaf_nonzero _ _ Hv).
  by replace (protected t vm_flags e =? 0) with false by lia.
Qed.

Lemma pgtable_protect_ok t a vm_flags :
  wf t → user_page a → 0 ≤ vm_flags < 8 →
  ∃ t', pgtable_protect_page t a vm_flags = Ok (bool_decide (is_Some (pgt_leaf t a)), t') ∧ wf t' ∧ pages t' = pages t ∧
    (∀ b, user_page b → pgt_leaf t' b = pgt_leaf t b) ∧
    (∀ b, user_page b → pgt_perm t' b =
       if decide (b = a) then (λ p, grant vm_flags (pgt_shared t p)) <$> pgt_leaf t a else pgt_perm t b).
Proof.
  intros Hw Ha Hf. destruct (protect_entry t a vm_flags Hw Ha Hf) as (t'&E&Hw'&Hp&_&Hm). exists t'. unfold pgt_leaf, pgt_perm in *.
  split; [rewrite E; do 2 f_equal; apply bool_decide_ext; by rewrite fmap_is_Some|]. do 2 (split; [done|]).
  split; intros b Hb; rewrite Hm by done; case_decide; try done; subst; destruct (at_page mapped t a) as [e|] eqn:He; try done; simpl; f_equal.
  - apply value_paddr; [by apply (ul_u64 t), (page_leaf t a)|apply prot_bits_ok; lia].
  - unfold protected. rewrite value_perm. by apply prot_bits_ok.
Qed.

#[export, refine] Instance pgt_table : PageTable pgt := {
  pt_unmap := pgtable_unmap_page;
  pt_protect := pgtable_protect_page;
  pt_leaf := pgt_leaf;
  pt_perm := pgt_perm;
  pt_shared := pgt_shared;
  pt_wf := wf;
}.
Proof.
  - intros t a Hw Ha. destruct (pgtable_unmap_ok t a Hw Ha) as (t'&E&Hw'&Hp&_&Hm). exists t'. split; [done|]. split; [done|].
    split; [|split]; [| |unfold pgt_shared; by rewrite Hp]; intros b Hb; unfold pgt_leaf, pgt_perm; rewrite Hm by done; by case_decide.
  - intros t a fl Hw Ha Hf. destruct (pgtable_protect_ok t a fl Hw Ha Hf) as (t'&E&Hw'&Hp&Hl&Hpm). exists t'.
    split; [done|]. split; [done|]. split; [done|]. split; [done|]. unfold pgt_shared. by rewrite Hp.
Defined.

(** ** New tables *)

Lemma make_table q : page_paddr q → next_table (pt_entry_make q PTE_TABLE) = Some q.
Proof.
  intros Hq. unfold next_table. rewrite valid_bit, make_bits by (done || lia). simpl. by rewrite make_paddr by done.
Qed.

Section grow.
Context (t : pgt) (q : Z) (d : page).
Context (Hw : wf t) (Hfresh : tabs t !! q = None) (Hq : page_paddr q).

Let t1 := (alloc_pgtable t (inr (q, d))).2.

Lemma new_entry p k : entry t1 p k = if decide (p = q) then replicate PT_ENTRIES 0 !! k else entry t p k.
Proof.
  unfold entry, t1. cbn [alloc_pgtable snd tabs]. case_decide; [subst; by rewrite lookup_insert_eq|by rewrite lookup_insert_ne].
Qed.

Lemma new_zero k : replicate PT_ENTRIES 0 !! k ≫= next_table = None.
Proof.
  destruct (replicate PT_ENTRIES 0 !! k) as [e|] eqn:E; [|done]. apply lookup_replicate in E as [-> _]. done.
Qed.

Lemma old_table p : is_Some (tabs t !! p) → p ≠ q ∧ is_Some (tabs t1 !! p).
Proof.
  intros Hp. assert (p ≠ q) by (intros ->; rewrite Hfresh in Hp; by destruct Hp). split; [done|].
  unfold t1. cbn [alloc_pgtable snd tabs]. by rewrite lookup_insert_ne.
Qed.

Lemma new_len p l : tabs t1 !! p = Some l → length l = PT_ENTRIES.
Proof.
  unfold t1. cbn [alloc_pgtable snd tabs]. destruct (decide (p = q)) as [->|].
  - rewrite lookup_insert_eq. intros <-%(inj Some). apply length_replicate.
  - rewrite lookup_insert_ne by done. apply (w_len _ Hw).
Qed.

Lemma new_leaf e : user_leaf t e → user_leaf t1 e.
Proof.
  intros [H1 H2 H3 H4]. split; [done..|]. unfold t1. cbn [alloc_pgtable snd pages].
  destruct (decide (pt_entry_paddr e = q)) as [->|]; [by rewrite lookup_insert_eq|by rewrite lookup_insert_ne].
Qed.

Let v := pt_entry_make q PTE_TABLE.

Lemma put_live p p' i x : is_Some (tabs (put t1 p' i x) !! p) ↔ is_Some (tabs t1 !! p).
Proof. unfold put. simpl. apply lookup_alter_is_Some. Qed.

Lemma put_len p p' i x l : tabs (put t1 p' i x) !! p = Some l → length l = PT_ENTRIES.
Proof.
  unfold put. simpl. destruct (decide (p = p')) as [->|].
  - rewrite lookup_alter_eq. intros (l'&Hl&->)%fmap_Some. rewrite length_insert. by eapply new_len.
  - rewrite lookup_alter_ne by done. apply new_len.
Qed.

Lemma q_live : is_Some (tabs t1 !! q).
Proof. unfold t1. cbn [alloc_pgtable snd tabs]. by rewrite lookup_insert_eq. Qed.

(** *** Under the root *)

Section pmd.
Context (i0 : nat) (Hi0 : (i0 < PT_ENTRIES)%nat) (Hnone : pmd_at t i0 = None).

Let t2 := put t1 (pgd t) i0 v.

Lemma top_pmd i : pmd_at t2 i = if decide (i = i0) then Some q else pmd_at t i.
Proof.
  destruct (old_table (pgd t)) as [Hne _]; [apply (w_root _ Hw)|].
  unfold pmd_at, t2. change (pgd (put t1 (pgd t) i0 v)) with (pgd t). rewrite entry_put, !new_entry, !(decide_False (P := pgd t = q)) by done.
  destruct (decide (i = i0)) as [->|]; [|by rewrite decide_False by naive_solver].
  rewrite decide_True by done. destruct (entry_live t (pgd t) i0 Hw (w_root _ Hw) Hi0) as [e ->]. simpl. by apply make_table.
Qed.

Lemma top_pte i j : pte_at t2 i j = pte_at t i j.
Proof.
  unfold pte_at. rewrite top_pmd. destruct (decide (i = i0)) as [->|].
  - rewrite Hnone. cbn [mbind option_bind]. unfold t2.
    destruct (old_table (pgd t)) as [Hne _]; [apply (w_root _ Hw)|]. rewrite entry_put, decide_False by naive_solver.
    rewrite new_entry, decide_True by done. apply new_zero.
  - destruct (pmd_at t i) as [p|] eqn:E; [|done]. simpl. destruct (w_pmd _ Hw _ _ E) as [Hl Hne]. destruct (old_table p Hl) as [Hpq _].
    unfold t2. rewrite entry_put, decide_False, new_entry, decide_False by naive_solver. done.
Qed.

Lemma top_leaf i j k : leaf_at t2 i j k = leaf_at t i j k.
Proof.
  unfold leaf_at. rewrite top_pte. destruct (pte_at t i j) as [p|] eqn:E; [|done]. simpl.
  destruct (w_pte _ Hw _ _ _ E) as (Hl&Hne&_). destruct (old_table p Hl) as [Hpq _].
  unfold t2. rewrite entry_put, decide_False, new_entry, decide_False by naive_solver. done.
Qed.

Lemma top_wf : wf t2.
Proof.
  split.
  - intros p l. apply put_len.
  - apply put_live, old_table, (w_root _ Hw).
  - intros i p. rewrite top_pmd. case_decide.
    + intros [= <-]. split; [apply put_live, q_live|]. destruct (old_table (pgd t)) as [Hne _]; [apply (w_root _ Hw)|]. by apply not_eq_sym.
    + intros [Hl Hne]%(w_pmd _ Hw). split; [by apply put_live, old_table|done].
  - intros i j p. rewrite top_pte. intros (Hl&Hne&Hp)%(w_pte _ Hw). destruct (old_table p Hl) as [Hpq ?].
    split; [by apply put_live|]. split; [done|]. intros i'. rewrite top_pmd. case_decide; [congruence|apply Hp].
  - intros i i' p. rewrite !top_pmd. repeat case_decide; subst; try done.
    + intros [= <-] [Hl _]%(w_pmd _ Hw). by destruct (old_table q Hl).
    + intros [Hl _]%(w_pmd _ Hw) [= <-]. by destruct (old_table q Hl).
    + apply (w_pmd_inj _ Hw).
  - intros i j i' j' p. rewrite !top_pte. apply (w_pte_inj _ Hw).
  - intros i j k e Hi. unfold mapped. rewrite top_leaf. intros H%(w_leaf _ Hw); [|done]. destruct (new_leaf _ H) as [? ? ? ?]. by split.
Qed.
End pmd.

(** *** Under a middle table *)

Section pte.
Context (i0 j0 : nat) (p0 : Z) (Hj0 : (j0 < PT_ENTRIES)%nat) (Hp0 : pmd_at t i0 = Some p0) (Hnone : pte_at t i0 j0 = None).

Let t2 := put t1 p0 j0 v.

Lemma mid_pmd i : pmd_at t2 i = pmd_at t i.
Proof.
  destruct (old_table (pgd t)) as [Hne _]; [apply (w_root _ Hw)|]. destruct (w_pmd _ Hw _ _ Hp0) as [_ Hp].
  unfold pmd_at, t2. change (pgd (put t1 p0 j0 v)) with (pgd t). rewrite entry_put, decide_False, new_entry, decide_False by naive_solver. done.
Qed.

Lemma mid_pte i j : pte_at t2 i j = if decide (i = i0 ∧ j = j0) then Some q else pte_at t i j.
Proof.
  unfold pte_at. rewrite mid_pmd. destruct (w_pmd _ Hw _ _ Hp0) as [Hlp Hpp]. destruct (old_table p0 Hlp) as [Hpq _].
  destruct (decide (i = i0)) as [->|].
  - rewrite Hp0. cbn [mbind option_bind]. unfold t2. rewrite entry_put, !new_entry, !(decide_False (P := p0 = q)) by done.
    destruct (decide (j = j0)) as [->|]; [|by rewrite !decide_False by naive_solver].
    rewrite !decide_True by done. destruct (entry_live t p0 j0 Hw Hlp Hj0) as [e ->]. simpl. by apply make_table.
  - rewrite (decide_False (P := i = i0 ∧ j = j0)) by naive_solver. destruct (pmd_at t i) as [p|] eqn:E; [|done]. simpl.
    destruct (w_pmd _ Hw _ _ E) as [Hl _]. destruct (old_table p Hl) as [Hp _].
    unfold t2. rewrite entry_put, decide_False, new_entry, decide_False; [done|done|]. intros [-> _]. by pose proof (w_pmd_inj _ Hw _ _ _ E Hp0).
Qed.

Lemma mid_mapped i j k : mapped t2 i j k = mapped t i j k.
Proof.
  destruct (w_pmd _ Hw _ _ Hp0) as [Hlp Hpp]. destruct (old_table p0 Hlp) as [Hpq _].
  unfold mapped, leaf_at. rewrite mid_pte. destruct (decide (i = i0 ∧ j = j0)) as [[-> ->]|].
  - rewrite Hnone. simpl. unfold t2. rewrite entry_put, decide_False by naive_solver. rewrite new_entry, decide_True by done.
    destruct (replicate PT_ENTRIES 0 !! k) as [e|] eqn:E; [|done]. by apply lookup_replicate in E as [-> _].
  - destruct (pte_at t i j) as [r|] eqn:E; [|done]. simpl. destruct (w_pte _ Hw _ _ _ E) as (Hl&_&Hr). destruct (old_table r Hl) as [Hrq _].
    unfold t2. rewrite entry_put, decide_False, new_entry, decide_False; [done|done|]. intros [-> _]. by apply (Hr i0).
Qed.

Lemma mid_wf : wf t2.
Proof.
  destruct (w_pmd _ Hw _ _ Hp0) as [Hlp Hpp].
  split.
  - intros p l. apply put_len.
  - apply put_live, old_table, (w_root _ Hw).
  - intros i p. rewrite mid_pmd. intros [Hl Hne]%(w_pmd _ Hw). split; [by apply put_live, old_table|done].
  - intros i j p. rewrite mid_pte. case_decide.
    + intros [= <-]. split; [apply put_live, q_live|]. split.
      * destruct (old_table (pgd t)) as [Hne _]; [apply (w_root _ Hw)|]. by apply not_eq_sym.
      * intros i'. rewrite mid_pmd. intros [Hl _]%(w_pmd _ Hw). by destruct (old_table q Hl).
    + intros (Hl&Hne&Hp)%(w_pte _ Hw). split; [by apply put_live, old_table|]. split; [done|]. intros i'. by rewrite mid_pmd.
  - intros i i' p. rewrite !mid_pmd. apply (w_pmd_inj _ Hw).
  - intros i j i' j' p. rewrite !mid_pte. repeat case_decide; try (destruct_and?; subst; done).
    + intros [= <-] (Hl&_)%(w_pte _ Hw). by destruct (old_table q Hl).
    + intros (Hl&_)%(w_pte _ Hw) [= <-]. by destruct (old_table q Hl).
    + apply (w_pte_inj _ Hw).
  - intros i j k e Hi. rewrite mid_mapped. intros H%(w_leaf _ Hw); [|done]. destruct (new_leaf _ H) as [? ? ? ?]. by split.
Qed.
End pte.
End grow.

(** ** Creating the path to an entry *)

(** What the allocator may return. *)
Definition got_ok (t : pgt) (a : got) : Prop :=
  match a with inl ret => ret ≠ 0 | inr (q, _) => tabs t !! q = None ∧ page_paddr q end.
Definition got_diff (a1 a2 : got) : Prop :=
  match a1, a2 with inr (q1, _), inr (q2, _) => q1 ≠ q2 | _, _ => True end.

(** The new tables change no mapping. *)
Record same_maps (t t' : pgt) : Prop := {
  sm_wf : wf t';
  sm_pgd : pgd t' = pgd t;
  sm_mapped i j k : mapped t' i j k = mapped t i j k;
  sm_pages p : is_Some (pages t !! p) → is_Some (pages t' !! p);
}.

Lemma same_maps_refl t : wf t → same_maps t t.
Proof. by split. Qed.
Lemma same_maps_trans t t' t'' : same_maps t t' → same_maps t' t'' → same_maps t t''.
Proof. intros [H1 H2 H3 H4] [H5 H6 H7 H8]. split; [done|congruence|intros; by rewrite H7|auto]. Qed.

Lemma alloc_pages t q d p : is_Some (pages t !! p) → is_Some (pages (alloc_pgtable t (inr (q, d))).2 !! p).
Proof.
  intros Hp. cbn [alloc_pgtable snd pages]. destruct (decide (p = q)) as [->|]; [by rewrite lookup_insert_eq|by rewrite lookup_insert_ne].
Qed.

Lemma write_new t q d p i v :
  wf t → tabs t !! q = None → is_Some (tabs t !! p) → (i < PT_ENTRIES)%nat →
  pt_entry_write (alloc_pgtable t (inr (q, d))).2 (p, i) v = Ok (put (alloc_pgtable t (inr (q, d))).2 p i v).
Proof.
  intros Hw Hq [l Hl] Hi. unfold pt_entry_write. cbn [alloc_pgtable snd tabs fst].
  assert (p ≠ q) by congruence. rewrite lookup_insert_ne, Hl by done. cbn [deref res_bind].
  rewrite arr_set_Ok by by rewrite (w_len _ Hw _ _ Hl). cbn [res_bind]. unfold put. cbn [tabs pgd pages]. do 2 f_equal.
  apply map_eq. intros r. destruct (decide (r = p)) as [->|].
  - by rewrite lookup_insert_eq, lookup_alter_eq, lookup_insert_ne, Hl.
  - by rewrite lookup_insert_ne, lookup_alter_ne.
Qed.

Lemma create_top t addr a1 :
  wf t → got_ok t a1 →
  ∃ r t', (let! e := pt_entry_read t (pgd t, PGD_INDEX addr) in
    if negb (pt_entry_valid e) then
      match alloc_pgtable t a1 with
      | (inl ret, t) => Ok (inl ret, t)
      | (inr p, t) => let! t := pt_entry_write t (pgd t, PGD_INDEX addr) (pt_entry_make p PTE_TABLE) in
          Ok (inr (pt_entry_make p PTE_TABLE), t)
      end
    else Ok (inr e, t)) = Ok (r, t') ∧ same_maps t t' ∧
    (∀ q d, a1 = inr (q, d) → tabs t !! q = None) ∧
    (∀ p, tabs t !! p = None → (∀ q d, a1 = inr (q, d) → p ≠ q) → tabs t' !! p = None) ∧
    match r with
    | inl ret => a1 = inl ret
    | inr e => pmd_at t' (PGD_INDEX addr) = Some (pt_entry_paddr e)
    end.
Proof.
  intros Hw Ha. destruct (entry_live t (pgd t) (PGD_INDEX addr) Hw (w_root _ Hw) (index_lt _ _)) as [e He].
  rewrite (read_entry _ _ _ _ He). cbn [res_bind].
  assert (Hp : pmd_at t (PGD_INDEX addr) = next_table e) by (unfold pmd_at; by rewrite He).
  assert (Hfr : ∀ q d, a1 = inr (q, d) → tabs t !! q = None) by (by intros q d ->; apply Ha).
  unfold next_table in Hp. destruct (pt_entry_valid e); cbn [negb].
  { exists (inr e), t. split; [done|]. split; [by apply same_maps_refl|]. done. }
  destruct a1 as [ret|[q d]].
  { exists (inl ret), t. split; [done|]. split; [by apply same_maps_refl|]. done. }
  destruct Ha as [Hfresh Hq]. pose proof (write_new t q d (pgd t) (PGD_INDEX addr) (pt_entry_make q PTE_TABLE) Hw Hfresh (w_root _ Hw) (index_lt _ _)) as Hwr.
  cbn [alloc_pgtable snd] in Hwr |- *. cbn [pgd]. rewrite Hwr. cbn [res_bind].
  change (Pgt _ _ _) with (alloc_pgtable t (inr (q, d))).2 in Hwr |- *.
  eexists _, _. split; [done|]. split; [|split; [done|split]].
  - split.
    + apply (top_wf t q d Hw Hfresh Hq (PGD_INDEX addr)); [apply index_lt|done].
    + done.
    + intros i j k. unfold mapped. rewrite (top_leaf t q d Hw Hfresh Hq (PGD_INDEX addr)); [done|apply index_lt|done].
    + intros p Hpp. by apply alloc_pages.
  - intros p Hpn Hpq. unfold put. cbn [tabs alloc_pgtable snd]. apply lookup_alter_None. rewrite lookup_insert_ne; [done|].
    intros <-. by eapply Hpq.
  - rewrite (top_pmd t q d Hw Hfresh Hq (PGD_INDEX addr) (index_lt _ _)). by rewrite decide_True, make_paddr by done.
Qed.

Lemma create_mid t addr a2 p :
  wf t → got_ok t a2 → pmd_at t (PGD_INDEX addr) = Some p →
  ∃ r t', (let! e := pt_entry_read t (p, PMD_INDEX addr) in
    if negb (pt_entry_valid e) then
      match alloc_pgtable t a2 with
      | (inl ret, t) => Ok (inl ret, t)
      | (inr q, t) => let! t := pt_entry_write t (p, PMD_INDEX addr) (pt_entry_make q PTE_TABLE) in
          Ok (inr (pt_entry_make q PTE_TABLE), t)
      end
    else Ok (inr e, t)) = Ok (r, t') ∧ same_maps t t' ∧
    match r with
    | inl ret => a2 = inl ret
    | inr e => pte_at t' (PGD_INDEX addr) (PMD_INDEX addr) = Some (pt_entry_paddr e)
    end.
Proof.
  intros Hw Ha Hp. destruct (w_pmd _ Hw _ _ Hp) as [Hlp _].
  destruct (entry_live t p (PMD_INDEX addr) Hw Hlp (index_lt _ _)) as [e He].
  rewrite (read_entry _ _ _ _ He). cbn [res_bind].
  assert (Hpt : pte_at t (PGD_INDEX addr) (PMD_INDEX addr) = next_table e) by (unfold pte_at; rewrite Hp; simpl; by rewrite He).
  unfold next_table in Hpt. destruct (pt_entry_valid e); cbn [negb].
  { exists (inr e), t. split; [done|]. split; [by apply same_maps_refl|done]. }
  destruct a2 as [ret|[q d]].
  { exists (inl ret), t. split; [done|]. split; [by apply same_maps_refl|done]. }
  destruct Ha as [Hfresh Hq]. pose proof (write_new t q d p (PMD_INDEX addr) (pt_entry_make q PTE_TABLE) Hw Hfresh Hlp (index_lt _ _)) as Hwr.
  cbn [alloc_pgtable snd] in Hwr |- *. rewrite Hwr. cbn [res_bind].
  change (Pgt _ _ _) with (alloc_pgtable t (inr (q, d))).2 in Hwr |- *.
  eexists _, _. split; [done|]. split.
  - split.
    + by apply (mid_wf t q d Hw Hfresh Hq (PGD_INDEX addr) (PMD_INDEX addr) p (index_lt _ _) Hp).
    + done.
    + intros i j k. by apply (mid_mapped t q d Hw Hfresh Hq (PGD_INDEX addr) (PMD_INDEX addr) p (index_lt _ _) Hp).
    + intros x Hx. by apply alloc_pages.
  - rewrite (mid_pte t q d Hw Hfresh Hq (PGD_INDEX addr) (PMD_INDEX addr) p (index_lt _ _) Hp).
    by rewrite decide_True, make_paddr by done.
Qed.

Lemma walk_pte_create_ok t addr a1 a2 :
  wf t → got_ok t a1 → got_ok t a2 → got_diff a1 a2 →
  ∃ r t', walk_pte_create t addr a1 a2 = Ok (r, t') ∧ same_maps t t' ∧
    match r with
    | inl ret => a1 = inl ret ∨ a2 = inl ret
    | inr s => ∃ q, pte_at t' (PGD_INDEX addr) (PMD_INDEX addr) = Some q ∧ s = (q, PTE_INDEX addr)
    end.
Proof.
  intros Hw Ha1 Ha2 Hd. destruct (create_top t addr a1 Hw Ha1) as (r1&t1&E1&Hs1&Hf1&Hkeep&Hr1).
  unfold walk_pte_create. destruct (pt_entry_read t (pgd t, PGD_INDEX addr)) as [e0| | |]; [|done..]. cbn [res_bind] in E1 |- *.
  replace (if negb (pt_entry_valid e0) then _ else _) with (Ok (r1, t1)) by (rewrite <-E1; by destruct a1 as [|[]]).
  cbn [res_bind]. destruct r1 as [ret|e]; [by exists (inl ret), t1; auto|].
  assert (Ha2' : got_ok t1 a2).
  { destruct a2 as [|[q2 d2]]; [done|]. destruct Ha2 as [Hf2 Hq2]. split; [|done]. apply Hkeep; [done|].
    intros q d ->. by apply not_eq_sym. }
  destruct (create_mid t1 addr a2 (pt_entry_paddr e) (sm_wf _ _ Hs1) Ha2' Hr1) as (r2&t2&E2&Hs2&Hr2).
  destruct (pt_entry_read t1 (pt_entry_paddr e, PMD_INDEX addr)) as [e1| | |]; [|done..]. cbn [res_bind] in E2 |- *.
  replace (if negb (pt_entry_valid e1) then _ else _) with (Ok (r2, t2)) by (rewrite <-E2; by destruct a2 as [|[]]).
  cbn [res_bind]. eexists _, t2. split; [done|]. split; [by eapply same_maps_trans|].
  destruct r2 as [ret|e2]; [by right|]. by eexists.
Qed.

(** ** Mapping a page *)

Lemma made_leaf t page flags :
  page_paddr page → is_Some (pages t !! page) → 0 ≤ flags < 8 → user_leaf t (pt_entry_make page (vma_to_pte flags)).
Proof.
  intros Hp Hpg Hf. destruct (prot_bits_ok flags false Hf) as (Hb&Hpres&Hu&_). unfold prot_bits in *. split.
  - unfold pt_entry_make. apply lor_u64; [apply u64_range|unfold in_u64; lia].
  - rewrite present_bits, !make_bits by (done || lia). done.
  - rewrite make_bits by (done || lia). done.
  - by rewrite make_paddr.
Qed.

Lemma map_page_ok t addr page flags a1 a2 :
  wf t → user_page addr → page_paddr page → is_Some (pages t !! page) → 0 ≤ flags < 8 →
  got_ok t a1 → got_ok t a2 → got_diff a1 a2 →
  ∃ ret t', map_page t addr page (vma_to_pte flags) a1 a2 = Ok (ret, t') ∧ wf t' ∧
    ((ret = 0 ∧ at_page mapped t addr = None ∧
      ∀ b, user_page b → at_page mapped t' b =
        if decide (b = addr) then Some (pt_entry_make page (vma_to_pte flags)) else at_page mapped t b) ∨
     ((ret = - EEXIST ∧ is_Some (at_page mapped t addr) ∨ a1 = inl ret ∨ a2 = inl ret) ∧
      ∀ i j k, mapped t' i j k = mapped t i j k)).
Proof.
  intros Hw Ha Hp Hpg Hf H1 H2 H3. unfold map_page.
  destruct (walk_pte_create_ok t addr a1 a2 Hw H1 H2 H3) as (r&t1&->&Hs&Hr). cbn [res_bind].
  destruct r as [ret|s].
  { exists ret, t1. split; [done|]. split; [apply Hs|]. right. split; [tauto|apply Hs]. }
  destruct Hr as (q&Hq&->). destruct (leaf_entry t1 addr q (sm_wf _ _ Hs) Hq) as (e&->&He&Hwr). cbn [res_bind].
  rewrite (sm_mapped _ _ Hs) in He. unfold nonzero, pt_entry_none in *. destruct (e =? 0); cbn [negb].
  - rewrite Hwr. cbn [res_bind]. set (v := pt_entry_make page (vma_to_pte flags)).
    assert (Hv : user_leaf t1 v) by (apply made_leaf; [done|by apply (sm_pages _ _ Hs)|done]).
    exists 0, (put t1 q (PTE_INDEX addr) v). split; [done|]. split; [|left].
    + apply (leaf_wf t1 _ _ _ _ v (sm_wf _ _ Hs) Hq (index_lt _ _)). auto.
    + split; [done|]. split; [done|]. intros b Hb. rewrite (mapped_at t1 q v addr b) by (done || apply Hs).
      rewrite (sm_mapped _ _ Hs). unfold nonzero. pose proof (leaf_nonzero _ _ Hv). by replace (v =? 0) with false by lia.
  - exists (- EEXIST), t1. split; [done|]. split; [apply Hs|]. right. split; [|apply Hs]. left. split; [done|]. rewrite He. by eexists.
Qed.

(** ** What mapping touches *)

Definition given (a : got) (p : Z) : Prop := match a with inl _ => False | inr (q, _) => p = q end.

(** The tables on the way to a page. *)
Definition on_path (t : pgt) (addr p : Z) : Prop :=
  p = pgd t ∨ pmd_at t (PGD_INDEX addr) = Some p ∨ pte_at t (PGD_INDEX addr) (PMD_INDEX addr) = Some p.

Lemma write_frame t s v t' :
  pt_entry_write t s v = Ok t' → pgd t' = pgd t ∧ pages t' = pages t ∧ ∀ p, p ≠ s.1 → tabs t' !! p = tabs t !! p.
Proof.
  unfold pt_entry_write. intros H. res_inv. split; [done|]. split; [done|]. intros p Hp. simpl. by rewrite lookup_insert_ne.
Qed.

Lemma create_frame t s e a r t' :
  (if negb (pt_entry_valid e) then
     match alloc_pgtable t a with
     | (inl ret, t) => Ok (inl ret, t)
     | (inr p, t) => let e := pt_entry_make p PTE_TABLE in let! t := pt_entry_write t s e in Ok (inr e, t)
     end
   else Ok (inr e, t)) = Ok (r, t') →
  pgd t' = pgd t ∧
  (∀ p, ¬ given a p → pages t' !! p = pages t !! p ∧ (p ≠ s.1 → tabs t' !! p = tabs t !! p)) ∧
  (∀ e', r = inr e' → (pt_entry_valid e = true ∧ e' = e ∧ t' = t) ∨
     ∃ p d, a = inr (p, d) ∧ e' = pt_entry_make p PTE_TABLE ∧
       (p ≠ s.1 → ∀ k, entry t' p k ≫= next_table = None)).
Proof.
  destruct (pt_entry_valid e); cbn [negb].
  { intros [= <- <-]. split; [done|]. split; [done|]. intros e' [= <-]. by left. }
  destruct a as [ret|[p d]]; cbn [alloc_pgtable].
  { intros [= <- <-]. split; [done|]. split; [done|]. by intros e' [=]. }
  intros H. res_inv. simplify_eq. apply write_frame in E as (->&Hp&Ht). cbn [pages tabs pgd] in *. split; [done|]. split.
  - intros q Hq. cbn [given] in Hq. split; [by rewrite Hp, lookup_insert_ne|]. intros Hs. by rewrite Ht, lookup_insert_ne.
  - intros e' [= <-]. right. exists p, d. split; [done|]. split; [done|]. intros Hs k. unfold entry. rewrite Ht, lookup_insert_eq by done. apply new_zero.
Qed.

Lemma entry_read t q k e : pt_entry_read t (q, k) = Ok e → entry t q k = Some e.
Proof.
  unfold pt_entry_read, entry, arr_get. intros H. res_inv. simpl in *. rewrite E. simpl. by destruct (a !! k); simplify_eq/=.
Qed.

Lemma walk_create_frame t addr a1 a2 r t' :
  wf t → got_ok t a1 → got_ok t a2 → walk_pte_create t addr a1 a2 = Ok (r, t') →
  pgd t' = pgd t ∧
  (∀ p, ¬ given a1 p → ¬ given a2 p → pages t' !! p = pages t !! p ∧ (¬ on_path t addr p → tabs t' !! p = tabs t !! p)) ∧
  (∀ s, r = inr s → given a2 s.1 ∨ pte_at t (PGD_INDEX addr) (PMD_INDEX addr) = Some s.1).
Proof.
  intros Hw Ha1 Ha2. unfold walk_pte_create. intros H. res_inv. apply entry_read in E.
  apply create_frame in E0 as (Hg1&Hf1&Hr1). cbn [fst] in *. destruct s as [ret|e].
  { simplify_eq. split; [done|]. split; [|done]. intros p Hp1 Hp2. destruct (Hf1 p Hp1) as [H1 H2]. split; [done|].
    intros Hn. apply H2. intros ->. apply Hn. by left. }
  res_inv. apply entry_read in E0. apply create_frame in E1 as (Hg2&Hf2&Hr2). cbn [fst] in *.
  assert (Hpmd : pmd_at t (PGD_INDEX addr) = Some (pt_entry_paddr e) ∨ given a1 (pt_entry_paddr e)).
  { destruct (Hr1 e eq_refl) as [(Hv&->&->)|(p1&d&->&->&_)].
    - left. unfold pmd_at. rewrite E. simpl. unfold next_table. by rewrite Hv.
    - right. destruct Ha1 as [_ Hq]. cbn [given]. by rewrite make_paddr. }
  split; [congruence|]. split.
  - intros q Hq1 Hq2. destruct (Hf1 q Hq1) as [H1 H2], (Hf2 q Hq2) as [H3 H4]. split; [congruence|]. intros Hn. rewrite H4, H2; [done| |].
    + intros ->. apply Hn. by left.
    + intros ->. destruct Hpmd as [Hp|?]; [|done]. apply Hn. right. by left.
  - intros s' Hs. simplify_eq. destruct s as [ret|e2]; [done|]. injection Hs as <-. cbn [fst].
    destruct (Hr2 e2 eq_refl) as [(Hv&->&->)|(p2&d&->&->&_)].
    2: { left. destruct Ha2 as [_ Hq]. cbn [given]. by rewrite make_paddr. }
    destruct (Hr1 e eq_refl) as [(Hv1&->&->)|(p1&d&->&->&Ht1)].
    + right. assert (Hp : pmd_at t (PGD_INDEX addr) = Some (pt_entry_paddr a)) by (unfold pmd_at, next_table; rewrite E; simpl; by rewrite Hv1).
      unfold pte_at. rewrite Hp. simpl. rewrite E0. simpl. unfold next_table. by rewrite Hv.
    + exfalso. destruct Ha1 as [Hn Hq]. rewrite make_paddr in E0 by done.
      assert (Hne : p1 ≠ pgd t) by (intros ->; destruct (w_root _ Hw) as [l Hl]; by rewrite Hn in Hl).
      specialize (Ht1 Hne (PMD_INDEX addr)). rewrite E0 in Ht1. cbn [mbind option_bind] in Ht1. unfold next_table in Ht1. by rewrite Hv in Ht1.
Qed.

Lemma map_page_frame t addr pa prot a1 a2 ret t' :
  wf t → got_ok t a1 → got_ok t a2 → map_page t addr pa prot a1 a2 = Ok (ret, t') →
  pgd t' = pgd t ∧
  ∀ p, ¬ given a1 p → ¬ given a2 p → pages t' !! p = pages t !! p ∧ (¬ on_path t addr p → tabs t' !! p = tabs t !! p).
Proof.
  intros Hw Ha1 Ha2. unfold map_page. intros H. res_inv.
  destruct (walk_create_frame _ _ _ _ _ _ Hw Ha1 Ha2 E) as (Hg&Hf&Hs). destruct s as [ret'|s]; [by simplify_eq|].
  res_inv. destruct (negb (pt_entry_none a)); [by simplify_eq|]. res_inv. simplify_eq. apply write_frame in E1 as (Hg2&Hp2&Ht2).
  split; [congruence|]. intros q Hp1 Hp3. destruct (Hf q Hp1 Hp3) as [H1 H2]. split; [by rewrite Hp2|]. intros Hn. rewrite Ht2; [by apply H2|].
  intros ->. destruct (Hs _ eq_refl) as [?|?]; [done|]. apply Hn. by right; right.
Qed.

(** The flushes of a mapping: the instruction cache before an executable
    mapping appears, the TLB after it has. *)
Definition map_flushes (flags ret : Z) : list event :=
  (if Z.testbit flags 2 then [IcacheFlush] else []) ++ (if ret =? 0 then [TlbFlush] else []).

Lemma prot_exec flags : 0 ≤ flags < 8 → truth (Z.land (vma_to_pte flags) PTE_X) = Z.testbit flags 2.
Proof.
  intros Hf. assert (Hall : Forall (λ f, truth (Z.land (vma_to_pte f) PTE_X) = Z.testbit f 2) (seqZ 0 8)).
  { apply (bool_decide_unpack _); vm_compute; exact I. }
  rewrite Forall_forall in Hall. apply Hall, elem_of_seqZ. lia.
Qed.

Lemma pgtable_map_page_eq t addr page flags a1 a2 :
  user_page addr → 0 ≤ flags < 8 →
  pgtable_map_page t addr page flags a1 a2 =
    (let! (ret, t') := map_page t addr page (vma_to_pte flags) a1 a2 in Ok (ret, t', map_flushes flags ret)).
Proof.
  intros [Ha1 Ha2] Hf. unfold pgtable_map_page.
  replace (_ || _ || _ || _) with false.
  2: { symmetry. rewrite !orb_false_iff, Z.ltb_ge, Z.geb_leb, Z.leb_gt. split; [split; [lia|]|].
       - apply truth_false. change (PAGE_SIZE - 1) with (Z.ones 12). by rewrite Z.land_ones by lia.
       - apply (vm_flags_ok flags); lia. }
  rewrite prot_exec by done. destruct (map_page t addr page (vma_to_pte flags) a1 a2) as [[ret t']| | |]; [|done..].
  cbn [res_bind]. unfold map_flushes, truth. by destruct (ret =? 0).
Qed.

(** ** Replacing a page *)

Lemma walk_create_existing t addr a1 a2 q :
  wf t → pte_at t (PGD_INDEX addr) (PMD_INDEX addr) = Some q → walk_pte_create t addr a1 a2 = Ok (inr (q, PTE_INDEX addr), t).
Proof.
  intros Hw Hq. unfold walk_pte_create.
  destruct (entry_live t (pgd t) (PGD_INDEX addr) Hw (w_root _ Hw) (index_lt _ _)) as [e He].
  rewrite (read_entry _ _ _ _ He). cbn [res_bind]. unfold pte_at, pmd_at in Hq. rewrite He in Hq. cbn [mbind option_bind] in Hq.
  unfold next_table in Hq at 2. destruct (pt_entry_valid e) eqn:Hv; [|done]. cbn [negb mbind option_bind] in Hq |- *.
  assert (Hp : pmd_at t (PGD_INDEX addr) = Some (pt_entry_paddr e)) by (unfold pmd_at, next_table; rewrite He; simpl; by rewrite Hv).
  cbn [res_bind]. destruct (w_pmd _ Hw _ _ Hp) as [Hl _].
  destruct (entry_live t _ (PMD_INDEX addr) Hw Hl (index_lt _ _)) as [e2 He2].
  rewrite (read_entry _ _ _ _ He2). rewrite He2 in Hq. cbn [res_bind mbind option_bind] in Hq |- *. unfold next_table in Hq.
  destruct (pt_entry_valid e2); [|done]. cbn [negb res_bind]. by injection Hq as ->.
Qed.

Lemma remap_ok t a e page flags a1 a2 :
  wf t → user_page a → at_page mapped t a = Some e → page_paddr page → is_Some (pages t !! page) → 0 ≤ flags < 8 →
  ∃ t1 t2, pgtable_unmap_page t a = Ok (Some (pt_entry_paddr e), t1) ∧
    pgtable_map_page t1 a page flags a1 a2 = Ok (0, t2, map_flushes flags 0) ∧ wf t2 ∧ pages t2 = pages t ∧
    (∀ b, user_page b → at_page mapped t2 b =
       if decide (b = a) then Some (pt_entry_make page (vma_to_pte flags)) else at_page mapped t b).
Proof.
  intros Hw Ha He Hp Hpg Hf. destruct (pgtable_unmap_ok t a Hw Ha) as (t1&E1&Hw1&Hp1&_&Hm1).
  assert (Hq : ∃ q, pte_at t1 (PGD_INDEX a) (PMD_INDEX a) = Some q).
  { destruct (pte_at t (PGD_INDEX a) (PMD_INDEX a)) as [q|] eqn:Hq; [|by rewrite (unmapped_at _ _ Hq) in He].
    exists q. unfold pgtable_unmap_page in E1. rewrite (walk_pte_ok _ _ Hw), Hq in E1. cbn [res_bind fmap option_fmap option_map] in E1.
    res_inv. destruct (leaf_entry t a q Hw Hq) as (e'&_&_&Hwr). rewrite Hwr in E3. injection E3 as <-.
    assert (t1 = put t q (PTE_INDEX a) 0) as -> by (destruct (z =? 0); res_inv; congruence).
    by rewrite (leaf_pte t _ _ (PTE_INDEX a) _ 0 Hw Hq). }
  destruct Hq as [q Hq]. exists t1. rewrite E1, pgtable_map_page_eq by done. unfold pgt_leaf. rewrite He.
  unfold map_page. rewrite (walk_create_existing _ _ _ _ _ Hw1 Hq). cbn [res_bind].
  destruct (leaf_entry t1 a q Hw1 Hq) as (e0&->&He0&Hwr). cbn [res_bind]. rewrite Hm1, decide_True in He0 by done.
  unfold nonzero, pt_entry_none in *. destruct (e0 =? 0); [|done]. cbn [negb]. rewrite Hwr. cbn [res_bind].
  assert (Hv : user_leaf t1 (pt_entry_make page (vma_to_pte flags))) by (apply made_leaf; [done|by rewrite Hp1|done]).
  eexists. split; [done|]. split; [done|]. split; [eapply leaf_wf; eauto; apply index_lt|]. split; [done|].
  intros b Hb. rewrite (mapped_at t1 q _ a b) by done. rewrite Hm1 by done. case_decide; [|done].
  unfold nonzero. pose proof (leaf_nonzero _ _ Hv). by replace (_ =? 0) with false by lia.
Qed.

(** ** Lookup *)

(** Indices ignore the offset in the page. *)
Lemma index_page_base x :
  0 ≤ x → PGD_INDEX (x - x mod PAGE_SIZE) = PGD_INDEX x ∧ PMD_INDEX (x - x mod PAGE_SIZE) = PMD_INDEX x ∧
    PTE_INDEX (x - x mod PAGE_SIZE) = PTE_INDEX x.
Proof.
  intros Hx. pose proof (Z.mod_pos_bound x PAGE_SIZE ltac:(done)). pose proof (Z.mod_le x PAGE_SIZE Hx ltac:(done)).
  unfold PGD_INDEX, PMD_INDEX, PTE_INDEX. split_and!; apply Nat2Z.inj; rewrite !index_spec by (unfold PGD_SHIFT, PMD_SHIFT, PAGE_SHIFT, PT_INDEX_BITS; lia);
  change (2 ^ PGD_SHIFT) with (2 ^ 30); change (2 ^ PMD_SHIFT) with (2 ^ 21); change (2 ^ PAGE_SHIFT) with (2 ^ 12);
  f_equal; unfold PAGE_SIZE in *; Z.to_euclidean_division_equations; lia.
Qed.

Lemma pgtable_lookup_ok t x :
  wf t → UVADDR_START ≤ x < UVADDR_END →
  pgtable_lookup t x = Ok (match at_page mapped t (x - x mod PAGE_SIZE) with
    | Some e => if Z.testbit e 0 then inr (u64 (pt_entry_paddr e + x mod PAGE_SIZE)) else inl (- ENOENT)
    | None => inl (- ENOENT)
    end).
Proof.
  intros Hw Hx. assert (0 ≤ x) by (unfold UVADDR_START in Hx; lia). destruct (index_page_base x) as (->&->&->); [done|].
  unfold pgtable_lookup. replace (_ || _) with false by lia. rewrite (walk_pte_ok _ _ Hw). cbn [res_bind].
  destruct (pte_at t (PGD_INDEX x) (PMD_INDEX x)) as [q|] eqn:Hq; cbn [fmap option_fmap option_map].
  2: { by rewrite (unmapped_at _ _ Hq). }
  destruct (leaf_entry t x q Hw Hq) as (e&->&->&_). cbn [res_bind]. rewrite valid_bit. unfold nonzero.
  change (PAGE_SIZE - 1) with (Z.ones 12). rewrite Z.land_ones by lia. change (2 ^ 12) with PAGE_SIZE.
  destruct (Z.eqb_spec e 0) as [->|]; [done|]. by destruct (Z.testbit e 0).
Qed.

Lemma make_perm page f : page_paddr page → 0 ≤ f < 2 ^ 10 → perm (pt_entry_make page f) = perm f.
Proof.
  intros Hp Hf. apply Z.bits_inj'. intros i Hi. rewrite !perm_bits by done. destruct (Z.ltb_spec i 3); simpl; [|done].
  rewrite make_bits by (done || lia). by replace (10 <=? i + 1) with false by lia.
Qed.

Lemma prot_valid flags : 0 ≤ flags < 8 → Z.testbit (vma_to_pte flags) 0 = negb (flags =? 0).
Proof.
  intros Hf. assert (Hall : Forall (λ f, Z.testbit (vma_to_pte f) 0 = negb (f =? 0)) (seqZ 0 8)).
  { apply (bool_decide_unpack _); vm_compute; exact I. }
  rewrite Forall_forall in Hall. apply Hall, elem_of_seqZ. lia.
Qed.

Lemma user_page_base x : UVADDR_START ≤ x < UVADDR_END → user_page (x - x mod PAGE_SIZE).
Proof.
  unfold user_page, UVADDR_START, UVADDR_END, PAGE_SIZE. intros. Z.to_euclidean_division_equations; lia.
Qed.

(** C30: mapping a page and looking it up.  [pgtable_map_page] on a user page
    returns, with the tables well-formed and the flushes it owes: the instruction
    cache before an executable mapping, the TLB after a successful one.  On
    success the page was unmapped, the new entry grants what the area's flags
    allow, every address of the page translates to the frame at its offset
    (nothing, for a mapping without access), and every other user address
    translates as before.  Otherwise the page was already mapped or a table
    could not be allocated, and no translation changes. *)
Theorem pgtable_map_lookup t addr page flags a1 a2 :
  wf t → user_page addr → page_paddr page → is_Some (pages t !! page) → 0 ≤ flags < 8 →
  got_ok t a1 → got_ok t a2 → got_diff a1 a2 →
  ∃ ret t', pgtable_map_page t addr page flags a1 a2 = Ok (ret, t', map_flushes flags ret) ∧ wf t' ∧
    if decide (ret = 0)
    then pgt_leaf t addr = None ∧ pgt_perm t' addr = Some (grant flags false) ∧
      ∀ x, UVADDR_START ≤ x < UVADDR_END → pgtable_lookup t' x =
        if decide (x - x mod PAGE_SIZE = addr)
        then Ok (if flags =? 0 then inl (- ENOENT) else inr (page + x mod PAGE_SIZE)) else pgtable_lookup t x
    else (ret = - EEXIST ∧ is_Some (pgt_leaf t addr) ∨ a1 = inl ret ∨ a2 = inl ret) ∧
      ∀ x, UVADDR_START ≤ x < UVADDR_END → pgtable_lookup t' x = pgtable_lookup t x.
Proof.
  intros Hw Ha Hp Hpg Hf H1 H2 H3. rewrite pgtable_map_page_eq by done.
  destruct (map_page_ok t addr page flags a1 a2 Hw Ha Hp Hpg Hf H1 H2 H3) as (ret&t'&->&Hw'&Hr). cbn [res_bind].
  exists ret, t'. split; [done|]. split; [done|]. destruct (prot_bits_ok flags false Hf) as (Hb&_&_&Hg). unfold prot_bits in *.
  destruct Hr as [(->&Hn&Hm)|(Hr&Hm)].
  - rewrite decide_True by done. split; [unfold pgt_leaf; by rewrite Hn|]. split.
    { unfold pgt_perm. rewrite Hm, decide_True by done. simpl. by rewrite make_perm, Hg. }
    intros x Hx. rewrite !pgtable_lookup_ok by done. rewrite Hm by by apply user_page_base. case_decide; [|done].
    rewrite make_bits by (done || lia). change (10 <=? 0) with false. cbn [andb]. rewrite prot_valid by done.
    destruct (flags =? 0); [done|]. cbn [negb].
    rewrite make_paddr by done. pose proof (Z.mod_pos_bound x PAGE_SIZE ltac:(done)). unfold page_paddr, PAGE_SIZE in *.
    rewrite u64_small by (unfold in_u64; lia). done.
  - rewrite decide_False.
    2: { intros ->. destruct Hr as [[? _]|[->| ->]]; done. }
    split; [|intros x Hx; rewrite !pgtable_lookup_ok by done; by rewrite Hm].
    destruct Hr as [[-> Hs]|Hr]; [left|by right]. split; [done|]. unfold pgt_leaf. by apply fmap_is_Some.
Qed.

(** C4: protection keeps copy-on-write pages read-only.
    [pgtable_protect_page] on a user page reports whether the page is mapped,
    keeps every translation, and makes the entry grant what the flags allow
    without write access when the frame has other users; no other entry's
    permissions change.  So an entry for a shared frame is never writable
    afterwards if it was not before. *)
Theorem pgtable_protect_cow t a vm_flags :
  wf t → user_page a → 0 ≤ vm_flags < 8 →
  ∃ t', pgtable_protect_page t a vm_flags = Ok (bool_decide (is_Some (pgt_leaf t a)), t') ∧ wf t' ∧
    (∀ b, user_page b → pgt_leaf t' b = pgt_leaf t b) ∧
    (∀ b, user_page b → b ≠ a → pgt_perm t' b = pgt_perm t b) ∧
    (∀ p, pgt_leaf t a = Some p → pgt_perm t' a = Some (grant vm_flags (pgt_shared t p))) ∧
    ((∀ b p, user_page b → pgt_leaf t b = Some p → pgt_shared t p → ∀ e, pgt_perm t b = Some e → Z.testbit e 1 = false) →
     (∀ b p, user_page b → pgt_leaf t' b = Some p → pgt_shared t' p → ∀ e, pgt_perm t' b = Some e → Z.testbit e 1 = false)).
Proof.
  intros Hw Ha Hf. destruct (pgtable_protect_ok t a vm_flags Hw Ha Hf) as (t'&E&Hw'&Hp&Hl&Hpm).
  exists t'. split; [done|]. split; [done|]. split; [done|]. split; [|split].
  - intros b Hb Hne. by rewrite Hpm, decide_False by done.
  - intros p Hlp. by rewrite Hpm, decide_True, Hlp by done.
  - intros Hcow b p Hb Hlp Hs e He. rewrite Hl in Hlp by done.
    assert (Hs' : pgt_shared t p) by (unfold pgt_shared in *; by rewrite Hp in Hs).
    rewrite Hpm in He by done. case_decide; [|by eapply Hcow]. subst b. rewrite Hlp in He. simpl in He. injection He as <-.
    apply Is_true_true in Hs'. rewrite Hs'. unfold grant. rewrite Z.land_spec. change (Z.testbit (not64 VM_WRITE) 1) with false. apply andb_false_r.
Qed.

(** ** An empty table *)

Definition empty_pgt (root : Z) (ps : gmap Z page) : pgt := Pgt {[root := replicate PT_ENTRIES 0]} root ps.

Lemma empty_pmd root ps i : pmd_at (empty_pgt root ps) i = None.
Proof.
  unfold pmd_at, entry, empty_pgt. cbn [tabs pgd]. rewrite lookup_singleton_eq. cbn [mbind option_bind]. apply new_zero.
Qed.

Lemma empty_wf root ps : wf (empty_pgt root ps).
Proof.
  assert (Hpte : ∀ i j, pte_at (empty_pgt root ps) i j = None) by (intros i j; unfold pte_at; by rewrite empty_pmd).
  split.
  - intros q l. unfold empty_pgt. cbn [tabs]. intros [_ <-]%lookup_singleton_Some. apply length_replicate.
  - unfold empty_pgt. cbn [tabs pgd]. by rewrite lookup_singleton_eq.
  - intros i q. by rewrite empty_pmd.
  - intros i j q. by rewrite Hpte.
  - intros i i' q. by rewrite empty_pmd.
  - intros i j i' j' q. by rewrite Hpte.
  - intros i j k e _. unfold mapped, leaf_at. by rewrite Hpte.
Qed.

Definition frame : page := Page PG_ALLOCATED 1 0.
Definition demo_pgt : pgt := empty_pgt 0x1000 {[0x5000 := frame; 0x6000 := Page PG_ALLOCATED 2 0]}.

Lemma pgtable_map_lookup_witness :
  ∃ t', pgtable_map_page demo_pgt 0x20000 0x5000 5 (inr (0x2000, frame)) (inr (0x3000, frame)) =
      Ok (0, t', [IcacheFlush; TlbFlush]) ∧
    pgtable_lookup t' 0x20123 = Ok (inr 0x5123) ∧ pgtable_lookup t' 0x21000 = Ok (inl (- ENOENT)).
Proof.
  destruct (pgtable_map_lookup demo_pgt 0x20000 0x5000 5 (inr (0x2000, frame)) (inr (0x3000, frame)))
    as (ret&t'&E&_&Hr);
    [apply empty_wf|split; [unfold UVADDR_START, UVADDR_END; lia|reflexivity]|split; [lia|reflexivity]|
     by eexists; reflexivity|lia|split; [reflexivity|split; [lia|reflexivity]]|split; [reflexivity|split; [lia|reflexivity]]|done|].
  assert (ret = 0) as -> by (apply (f_equal (λ r, match r with Ok (x, _, _) => x | _ => 1 end)) in E; vm_compute in E; congruence).
  rewrite decide_True in Hr by done. destruct Hr as (_&_&Hl). exists t'. split; [exact E|]. split.
  - rewrite Hl by (unfold UVADDR_START, UVADDR_END; lia). reflexivity.
  - rewrite Hl by (unfold UVADDR_START, UVADDR_END; lia). vm_compute. reflexivity.
Defined.

(** A frame with two users, mapped for reading. *)
Definition demo_shared : pgt :=
  match map_page demo_pgt 0x20000 0x6000 (vma_to_pte 1) (inr (0x2000, frame)) (inr (0x3000, frame)) with
  | Ok (_, t) => t | _ => demo_pgt
  end.
Lemma demo_shared_wf : wf demo_shared.
Proof.
  unfold demo_shared. destruct (map_page_ok demo_pgt 0x20000 0x6000 1 (inr (0x2000, frame)) (inr (0x3000, frame)))
    as (ret&t'&->&Hw&_); [apply empty_wf|split; [unfold UVADDR_START, UVADDR_END; lia|reflexivity]|split; [lia|reflexivity]|
     by eexists; reflexivity|lia|split; [reflexivity|split; [lia|reflexivity]]|split; [reflexivity|split; [lia|reflexivity]]|done|done].
Qed.

Lemma pgtable_protect_cow_witness :
  ∃ t', pgtable_protect_page demo_shared 0x20000 3 = Ok (true, t') ∧ pgt_perm t' 0x20000 = Some 1.
Proof.
  destruct (pgtable_protect_cow demo_shared 0x20000 3) as (t'&E&_&_&_&Hp&_);
    [apply demo_shared_wf|split; [unfold UVADDR_START, UVADDR_END; lia|reflexivity]|lia|].
  exists t'. split.
  - rewrite E. vm_compute. reflexivity.
  - rewrite (Hp 0x6000); vm_compute; reflexivity.
Defined.
