(* ===== verification/Mmap.v ===== *)
(** * Memory-mapping calls: [mm/mmap.c]

    [mmap], [munmap], [mprotect] and [brk] on the address space of [Vma].  The
    calls hold [mmap_lock] while they look at the layout and change it, so each
    is one transition of the layout; what the allocator returns to each
    [vma_alloc] is an argument. *)
From stdpp Require Import base tactics numbers list gmap sorting.
From S2P Require Import Prelude Bitmap Refcount Fdtable Buddy Rbtree Kiov Vma VmaRange Pgtable.

Definition PROT_READ : Z := 0x1.
Definition PROT_WRITE : Z := 0x2.
Definition PROT_EXEC : Z := 0x4.
Definition MAP_PRIVATE : Z := 0x02.
Definition MAP_FIXED : Z := 0x10.
Definition MAP_ANONYMOUS : Z := 0x20.
Definition UVADDR_SIZE : Z := UVADDR_END - UVADDR_START.
Definition USER_TRAMPOLINE : Z := UVADDR_END - PAGE_SIZE.
Definition USTACK_TOP : Z := USER_TRAMPOLINE - PAGE_SIZE.
(** [CONFIG_USTACK_PAGES] has the default of the configuration. *)
Definition CONFIG_USTACK_PAGES : Z := 16.
Definition USTACK_SIZE : Z := CONFIG_USTACK_PAGES * PAGE_SIZE.
Definition USTACK_BOTTOM : Z := USTACK_TOP - USTACK_SIZE.

Definition vm_prot (prot : Z) : Z :=
  let flags := 0 in
  let flags := if truth (Z.land prot PROT_READ) then Z.lor flags VM_READ else flags in
  let flags := if truth (Z.land prot PROT_WRITE) then Z.lor flags (Z.lor VM_READ VM_WRITE) else flags in
  if truth (Z.land prot PROT_EXEC) then Z.lor flags VM_EXEC else flags.

Definition range_allowed (start end_ : Z) : bool :=
  if (start <? UVADDR_START) || (end_ >? USTACK_TOP) then false
  else (end_ <=? USTACK_BOTTOM - PAGE_SIZE) || (start >=? USTACK_BOTTOM).

(** The end of the range, or an error. *)
Definition range_end (start len : Z) : Z + Z :=
  if truth (Z.land start (PAGE_SIZE - 1)) then inl (- EINVAL) else
  if len =? 0 then inl (- EINVAL) else
  if len >? SIZE_MAX - (PAGE_SIZE - 1) then inl (- ENOMEM) else
  let len := ALIGN_UP len PAGE_SIZE in
  if (start >=? UVADDR_END) || (len >? u64 (UVADDR_END - start)) then inl (- ENOMEM) else
  let end_ := u64 (start + len) in
  if negb (range_allowed start end_) then inl (- EINVAL) else inr end_.

Section calls.
Context (CONFIG_DEBUG_REFCOUNT : bool) (release : positive → option Z).
Context {PT : Type} `{!PageTable PT}.

(** [struct mm_struct], as the calls use it. *)
Record mm_struct := MmStruct { layout : mm (PT := PT); start_brk : Z; brk : Z }.
Definition with_layout (s : mm_struct) (m : mm (PT := PT)) : mm_struct := MmStruct m (start_brk s) (brk s).

(** The areas from the last one down. *)
Fixpoint gap_loop (fuel : nat) (m : mm (PT := PT)) (node : ptr) (top len : Z) : res Z :=
  match node with
  | None => Ok (if len <=? u64 (top - UVADDR_START) then u64 (top - len) else 0)
  | Some v =>
      let! vm := load_vma m v in
      match fuel with
      | O => Loop
      | S fuel' =>
          let next :=
            if vm_start vm >=? top then inr top else
            if (vm_end vm <=? top) && (len <=? top - vm_end vm) then inl (u64 (top - len)) else inr (vm_start vm) in
          match next with
          | inl addr => Ok addr
          | inr top => let! prev := rb_prev (tree m) node in gap_loop fuel' m prev top len
          end
      end
  end.

Definition find_unmapped (m : mm (PT := PT)) (hint len : Z) : res Z :=
  let top := USTACK_BOTTOM - PAGE_SIZE in
  let hint := ALIGN_DOWN hint PAGE_SIZE in
  let! hit :=
    if (hint <? UVADDR_END) && (len <=? u64 (UVADDR_END - hint)) && range_allowed hint (u64 (hint + len))
    then let! found := vma_find_intersection m hint (u64 (hint + len)) in Ok (bool_decide (found = None))
    else Ok false in
  if hit then Ok hint else
  let! node := rb_last (tree m) in
  gap_loop (size (nodes (tree m))) m node top len.

(** [a]: the new area; [a1], [a2]: the pieces of [unmap_range]. *)
Definition sys_mmap (s : mm_struct) (a a1 a2 : option positive) (addr len prot flags offset : Z)
    : res (Z * mm_struct) :=
  if truth (Z.land flags (not64 (Z.lor (Z.lor MAP_PRIVATE MAP_ANONYMOUS) MAP_FIXED))) ||
     negb (Z.land flags (Z.lor MAP_PRIVATE MAP_ANONYMOUS) =? Z.lor MAP_PRIVATE MAP_ANONYMOUS) ||
     truth (Z.land prot (not64 (Z.lor (Z.lor PROT_READ PROT_WRITE) PROT_EXEC))) ||
     truth (Z.land offset (PAGE_SIZE - 1)) || (len =? 0)
  then Ok (- EINVAL, s) else
  if len >? UVADDR_SIZE then Ok (- ENOMEM, s) else
  let len := ALIGN_UP len PAGE_SIZE in
  match vma_alloc (layout s) a with
  | (None, m) => Ok (- ENOMEM, with_layout s m)
  | (Some vma, m) =>
      (* where the new area goes, or the error *)
      let! (place, m) :=
        if truth (Z.land flags MAP_FIXED) then
          match range_end addr len with
          | inl ret => Ok (inl ret, m)
          | inr end_ =>
              let! (ret, m) := unmap_range CONFIG_DEBUG_REFCOUNT release m a1 a2 addr end_ in
              Ok (if truth ret then inl ret else inr (addr, end_), m)
          end
        else
          let! addr := find_unmapped m addr len in
          Ok (if addr =? 0 then inl (- ENOMEM) else inr (addr, u64 (addr + len)), m) in
      match place with
      | inl ret => let! m := vma_free CONFIG_DEBUG_REFCOUNT release m vma in Ok (ret, with_layout s m)
      | inr (addr, end_) =>
          let! vm := load_vma m vma in
          let m := with_vmas m (<[vma := Vm (vm_mm vm) addr end_ (vm_prot prot) (vm_file vm) (vm_offset vm)
                                           (vm_fstart vm) (vm_fend vm)]> (vmas m)) in
          let! (ret, m) := vma_insert m vma in
          let! _ := Assert (negb (truth ret)) in
          Ok (addr, with_layout s m)
      end
  end.

Definition sys_mremap (s : mm_struct) : Z * mm_struct := (- ENOTSUPP, s).

Definition sys_munmap (s : mm_struct) (a1 a2 : option positive) (start len : Z) : res (Z * mm_struct) :=
  match range_end start len with
  | inl ret => Ok (ret, s)
  | inr end_ =>
      let! (ret, m) := unmap_range CONFIG_DEBUG_REFCOUNT release (layout s) a1 a2 start end_ in
      Ok (ret, with_layout s m)
  end.

Definition sys_mprotect (s : mm_struct) (a1 a2 : option positive) (start len prot : Z) : res (Z * mm_struct) :=
  if truth (Z.land start (PAGE_SIZE - 1)) then Ok (- EINVAL, s) else
  if len =? 0 then Ok (0, s) else
  if truth (Z.land prot (not64 (Z.lor (Z.lor PROT_READ PROT_WRITE) PROT_EXEC))) then Ok (- EINVAL, s) else
  match range_end start len with
  | inl ret => Ok (ret, s)
  | inr end_ =>
      let! (ret, m) := protect_range CONFIG_DEBUG_REFCOUNT release (layout s) a1 a2 start end_ (vm_prot prot) in
      Ok (ret, with_layout s m)
  end.

(** [a]: the area of [map_range]; [a1], [a2]: the pieces of [unmap_range]. *)
Definition sys_brk (s : mm_struct) (a a1 a2 : option positive) (addr : Z) : res (Z * mm_struct) :=
  let! s :=
    let old := brk s in
    if (addr <? start_brk s) || (addr >? USTACK_BOTTOM - PAGE_SIZE) then Ok s else
    let start := ALIGN_UP old PAGE_SIZE in
    let end_ := ALIGN_UP addr PAGE_SIZE in
    if end_ >? start then
      let! found := vma_find_intersection (layout s) start end_ in
      match found with
      | Some _ => Ok s
      | None =>
          let! (vma, m) := map_range CONFIG_DEBUG_REFCOUNT release (layout s) a start end_ (Z.lor VM_READ VM_WRITE) in
          match vma with
          | inl _ => Ok (with_layout s m)
          | inr _ => Ok (MmStruct m (start_brk s) addr)
          end
      end
    else if end_ <? start then
      let! (ret, m) := unmap_range CONFIG_DEBUG_REFCOUNT release (layout s) a1 a2 end_ start in
      if truth ret then Ok (with_layout s m) else Ok (MmStruct m (start_brk s) addr)
    else Ok (MmStruct (layout s) (start_brk s) addr) in
  Ok (brk s, s).
End calls.

(** ** Ranges *)

Lemma vm_prot_flags prot : 0 ≤ vm_prot prot < 8.
Proof. unfold vm_prot. destruct (truth _), (truth _), (truth _); vm_compute; split; (discriminate || reflexivity). Qed.

(** A range the calls accept: inside user space and clear of the stack guard. *)
Record allowed (start end_ : Z) : Prop := {
  al_low : UVADDR_START ≤ start;
  al_top : end_ ≤ USTACK_TOP;
  al_guard : end_ ≤ USTACK_BOTTOM - PAGE_SIZE ∨ USTACK_BOTTOM ≤ start;
}.

Lemma range_allowed_spec start end_ : range_allowed start end_ = true ↔ allowed start end_.
Proof.
  unfold range_allowed. rewrite Z.gtb_ltb, Z.geb_leb. split.
  - destruct (_ || _) eqn:E; [done|]. apply orb_false_iff in E as [?%Z.ltb_ge ?%Z.ltb_ge].
    rewrite orb_true_iff, !Z.leb_le. by split.
  - intros [H1 H2 H3]. replace (_ || _) with false by (symmetry; apply orb_false_iff; lia).
    rewrite orb_true_iff, !Z.leb_le. lia.
Qed.

Lemma align_up_page len : 0 ≤ len → len ≤ SIZE_MAX - (PAGE_SIZE - 1) →
  ALIGN_UP len PAGE_SIZE mod PAGE_SIZE = 0 ∧ len ≤ ALIGN_UP len PAGE_SIZE < len + PAGE_SIZE.
Proof. intros H0 H1. apply (ALIGN_UP_spec len 12); [done|lia|]. unfold SIZE_MAX, UINT64_MAX, PAGE_SIZE in *. lia. Qed.

Lemma page_mask x : truth (Z.land x (PAGE_SIZE - 1)) = false ↔ x mod PAGE_SIZE = 0.
Proof. rewrite truth_false. change (PAGE_SIZE - 1) with (Z.ones 12). by rewrite Z.land_ones by lia. Qed.

Lemma range_end_spec start len :
  in_u64 start → in_u64 len →
  match range_end start len with
  | inr end_ => range_ok start end_ ∧ allowed start end_ ∧ len ≤ end_ - start < len + PAGE_SIZE
  | inl ret => (ret = - EINVAL ∧ (start mod PAGE_SIZE ≠ 0 ∨ len = 0 ∨ ∃ e, len ≤ e - start < len + PAGE_SIZE ∧ ¬ allowed start e)) ∨
      (ret = - ENOMEM ∧ UVADDR_END < start + len + PAGE_SIZE)
  end.
Proof.
  unfold in_u64. intros Hs Hl. unfold range_end. assert (Hpg : PAGE_SIZE = 4096) by done.
  assert (HE : UVADDR_END = 2 ^ 38) by done.
  destruct (truth _) eqn:Em. { left. split; [done|]. left. intros H%page_mask. congruence. }
  apply page_mask in Em. destruct (Z.eqb_spec len 0); [by auto|]. rewrite Z.gtb_ltb.
  destruct (Z.ltb_spec (SIZE_MAX - (PAGE_SIZE - 1)) len).
  { right. split; [done|]. unfold SIZE_MAX, UINT64_MAX in *. lia. }
  destruct (align_up_page len) as [Hm Hb]; [lia|lia|]. set (k := ALIGN_UP len PAGE_SIZE) in *. cbn zeta.
  rewrite Z.geb_leb, Z.gtb_ltb. destruct (Z.leb_spec UVADDR_END start); cbn [orb]; [right; split; [done|lia]|].
  rewrite u64_small by (unfold in_u64; lia).
  destruct (Z.ltb_spec (UVADDR_END - start) k); [right; split; [done|lia]|].
  rewrite u64_small by (unfold in_u64; lia). destruct (range_allowed start (start + k)) eqn:Ea; cbn [negb].
  - apply range_allowed_spec in Ea. split; [|split; [done|lia]]. split; [lia|lia|done|].
    by rewrite Z.add_mod, Em, Hm by done.
  - left. split; [done|]. right. right. exists (start + k). split; [lia|]. by rewrite <-range_allowed_spec, Ea.
Qed.

(** ** Free ranges *)

Section gaps.
Context {PT : Type} `{!PageTable PT} (ext : positive → Z).
Implicit Types (m : mm (PT := PT)) (l dt : list area).

Lemma inv_last m l dt : inv m l dt ext → rb_last (tree m) = Ok (fst <$> last l).
Proof.
  intros [(t&[Hz _]&Hin) _ _ _ _ _ _ _]. unfold rb_last. change R with (opp L). rewrite (end_spec _ L _ _ Hz).
  unfold ord. by rewrite head_reverse, Hin, fmap_last.
Qed.

Lemma inv_prev m l1 l2 dt v vm :
  inv m (l1 ++ (v, vm) :: l2) dt ext → rb_prev (tree m) (Some v) = Ok (fst <$> last l1).
Proof.
  intros [(t&[Hz _]&Hin) _ _ _ _ _ _ _]. unfold rb_prev.
  rewrite (step_spec _ L _ t v (reverse l2.*1) (reverse l1.*1) Hz).
  - by rewrite head_reverse, fmap_last.
  - unfold ord. rewrite Hin, fmap_app, reverse_app. simpl. rewrite reverse_cons. by rewrite <-app_assoc.
Qed.

Abbreviation free start end_ l := (∀ x, x ∈ l → ¬ meets start end_ x).

(** [top]: the areas seen start at or above it, and every place above it meets one. *)
Lemma gap_loop_ok fuel m l1 l2 dt top len :
  inv m (l1 ++ l2) dt ext → (length l1 ≤ fuel)%nat → 0 < len ≤ UVADDR_END → len mod PAGE_SIZE = 0 →
  UVADDR_START ≤ top ≤ USTACK_BOTTOM - PAGE_SIZE → top mod PAGE_SIZE = 0 →
  (∀ x, x ∈ l2 → top ≤ vm_start x.2) →
  (∀ c, top < c + len ≤ USTACK_BOTTOM - PAGE_SIZE → ∃ x, x ∈ l2 ∧ meets c (c + len) x) →
  ∃ addr, gap_loop fuel m (fst <$> last l1) top len = Ok addr ∧
    ((UVADDR_START ≤ addr ∧ addr + len ≤ USTACK_BOTTOM - PAGE_SIZE ∧ addr mod PAGE_SIZE = 0 ∧
      free addr (addr + len) (l1 ++ l2)) ∨
     (addr = 0 ∧ ∀ c, UVADDR_START ≤ c → c + len ≤ USTACK_BOTTOM - PAGE_SIZE → ∃ x, x ∈ l1 ++ l2 ∧ meets c (c + len) x)).
Proof.
  revert fuel l2 top. induction l1 as [|[v vm] k IH] using rev_ind; intros fuel l2 top Hi Hf Hlen Hlm Htop Htm Hl2 Hno;
    assert (Hc : UVADDR_START = 2 ^ 16 ∧ USTACK_BOTTOM - PAGE_SIZE = 2 ^ 38 - 19 * 4096 ∧ UVADDR_END = 2 ^ 38) by done;
    assert (Hsub : (top - len) mod PAGE_SIZE = 0) by (rewrite Zminus_mod, Htm, Hlm; done).
  - replace (gap_loop fuel m _ top len) with
      (Ok (if len <=? u64 (top - UVADDR_START) then u64 (top - len) else 0)) by by destruct fuel.
    rewrite u64_small by (unfold in_u64; lia).
    destruct (Z.leb_spec len (top - UVADDR_START)); (eexists; split; [done|]).
    + left. rewrite u64_small by (unfold in_u64; lia). split; [lia|]. split; [lia|]. split; [done|].
      intros x Hx [_ Hm]. specialize (Hl2 x Hx). lia.
    + right. split; [done|]. intros c Hc1 Hc2. apply Hno. lia.
  - rewrite last_snoc. cbn [fmap option_fmap option_map fst]. rewrite length_app in Hf. simpl in Hf.
    destruct fuel as [|fuel]; [lia|]. cbn [gap_loop]. rewrite (inv_load _ _ _ _ v vm Hi) by set_solver. cbn [res_bind].
    destruct (i_linked _ _ _ _ Hi v vm) as [_ (Hs&Hne&He&Has&Hae&_)]; [set_solver|].
    rewrite <-app_assoc in Hi |- *. cbn [app] in Hi |- *. rewrite (inv_prev _ _ _ _ _ _ Hi). rewrite Z.geb_leb.
    assert (Hin : ∀ c, (∃ x, x ∈ l2 ∧ meets c (c + len) x) → ∃ x, x ∈ (v, vm) :: l2 ∧ meets c (c + len) x).
    { intros c (x&Hx&Hm). exists x. split; [by right|done]. }
    destruct (Z.leb_spec top (vm_start vm)).
    { cbn [res_bind]. apply IH; try done; [lia| |].
      - intros x [->|Hx]%elem_of_cons; [done|by apply Hl2].
      - intros c Hcc. by apply Hin, Hno. }
    destruct (_ && _) eqn:Eg.
    + apply andb_true_iff in Eg as [?%Z.leb_le ?%Z.leb_le]. rewrite u64_small by (unfold in_u64; lia).
      eexists. split; [done|]. left. split; [lia|]. split; [lia|]. split; [done|].
      pose proof (i_order _ _ _ _ Hi) as (_&_&Hb)%in_order_app.
      intros x [Hx|[->|Hx]%elem_of_cons]%elem_of_app; unfold meets; simpl.
      * specialize (Hb x (v, vm) Hx ltac:(left)). unfold before in Hb. simpl in Hb. lia.
      * lia.
      * specialize (Hl2 x Hx). lia.
    + cbn [res_bind]. apply IH; try done; [lia|lia| |].
      * intros x [->|Hx]%elem_of_cons; [done|]. specialize (Hl2 x Hx). lia.
      * intros c Hcc. destruct (decide (top < c + len)); [apply Hin, Hno; lia|].
        exists (v, vm). split; [by left|]. unfold meets. simpl. apply andb_false_iff in Eg as [?%Z.leb_gt|?%Z.leb_gt]; lia.
Qed.

(** [find_unmapped] returns a free place, the hint when it is one, or 0 when
    there is none below the stack. *)
Lemma find_unmapped_ok m l dt hint len :
  inv m l dt ext → in_u64 hint → 0 < len ≤ UVADDR_SIZE + PAGE_SIZE → len mod PAGE_SIZE = 0 →
  ∃ addr, find_unmapped m hint len = Ok addr ∧
    ((allowed addr (addr + len) ∧ addr mod PAGE_SIZE = 0 ∧ free addr (addr + len) l ∧
      (allowed (ALIGN_DOWN hint PAGE_SIZE) (ALIGN_DOWN hint PAGE_SIZE + len) →
       free (ALIGN_DOWN hint PAGE_SIZE) (ALIGN_DOWN hint PAGE_SIZE + len) l → addr = ALIGN_DOWN hint PAGE_SIZE)) ∨
     (addr = 0 ∧ ∀ c, UVADDR_START ≤ c → c + len ≤ USTACK_BOTTOM - PAGE_SIZE → ∃ x, x ∈ l ∧ meets c (c + len) x)).
Proof.
  intros Hi Hh Hlen Hlm. unfold find_unmapped. pose proof (ALIGN_DOWN_spec hint 12 Hh ltac:(lia)) as Hd.
  change (2 ^ 12) with PAGE_SIZE in Hd. pose proof (Z.mod_pos_bound hint PAGE_SIZE ltac:(done)). unfold in_u64 in Hh.
  assert (Hdm : ALIGN_DOWN hint PAGE_SIZE mod PAGE_SIZE = 0).
  { rewrite Hd, Zminus_mod, Z.mod_mod, Z.sub_diag by done. done. }
  set (h := ALIGN_DOWN hint PAGE_SIZE) in *.
  assert (Hc : UVADDR_START = 2 ^ 16 ∧ USTACK_BOTTOM - PAGE_SIZE = 2 ^ 38 - 19 * 4096 ∧ UVADDR_END = 2 ^ 38 ∧
    UVADDR_SIZE = 2 ^ 38 - 2 ^ 16 ∧ PAGE_SIZE = 4096 ∧ USTACK_TOP = 2 ^ 38 - 2 * 4096 ∧ USTACK_BOTTOM = 2 ^ 38 - 18 * 4096) by done.
  assert (0 ≤ h < 2 ^ 64).
  { assert (hint mod PAGE_SIZE ≤ hint) by (apply Z.mod_le; lia). lia. }
  assert (Hgap : ∃ addr, (let! node := rb_last (tree m) in
      gap_loop (size (nodes (tree m))) m node (USTACK_BOTTOM - PAGE_SIZE) len) = Ok addr ∧
    ((UVADDR_START ≤ addr ∧ addr + len ≤ USTACK_BOTTOM - PAGE_SIZE ∧ addr mod PAGE_SIZE = 0 ∧ free addr (addr + len) l) ∨
     (addr = 0 ∧ ∀ c, UVADDR_START ≤ c → c + len ≤ USTACK_BOTTOM - PAGE_SIZE → ∃ x, x ∈ l ∧ meets c (c + len) x))).
  { rewrite (inv_last _ _ _ Hi). cbn [res_bind]. pose proof (inv_size _ _ _ _ Hi).
    rewrite <-(app_nil_r l) in Hi.
    destruct (gap_loop_ok (size (nodes (tree m))) m l [] dt (USTACK_BOTTOM - PAGE_SIZE) len Hi) as (addr&E&Hr);
      [done|lia|done|lia|done|set_solver|lia|].
    exists addr. by rewrite app_nil_r in Hr. }
  set (test := if (h <? UVADDR_END) && _ && _ then _ else _).
  assert (∃ b, test = Ok b ∧ (b = true → allowed h (h + len) ∧ free h (h + len) l) ∧
    (allowed h (h + len) → free h (h + len) l → b = true)) as (b&->&Hb1&Hb2).
  { subst test. destruct (_ && _ && _) eqn:E.
    - apply andb_true_iff in E as [[?%Z.ltb_lt Hle%Z.leb_le]%andb_true_iff Ha].
      rewrite u64_small in Hle by (unfold in_u64; lia). rewrite u64_small in Ha by (unfold in_u64; lia).
      rewrite u64_small by (unfold in_u64; lia). apply range_allowed_spec in Ha. rewrite (vma_find_intersection_spec ext _ _ _ _ _ Hi). cbn [res_bind].
      eexists. split; [done|]. rewrite bool_decide_eq_true, fmap_None, first_meeting_None, Forall_forall. done.
    - exists false. split; [done|]. split; [done|]. intros [Ha1 Ha2 Ha3] _. exfalso. revert E.
      rewrite !u64_small by (unfold in_u64; lia). apply eq_true_false_abs. rewrite !andb_true_iff, Z.ltb_lt, Z.leb_le.
      split; [lia|]. by apply range_allowed_spec. }
  cbn [res_bind]. destruct b.
  - exists h. split; [done|]. left. destruct Hb1 as [Ha Hf]; done.
  - destruct Hgap as (addr&E&[(H1&H2&H3&H4)|Hno]).
    + exists addr. split; [done|]. left. split; [split; lia|]. split; [done|]. split; [done|].
      intros Ha Hf. by specialize (Hb2 Ha Hf).
    + exists addr. split; [done|]. by right.
Qed.
End gaps.

(** ** [mmap] *)

(** Bits outside the mask are clear: the value is below the next power of two. *)
Lemma masked_below f mask k :
  in_u64 f → 0 ≤ k ≤ 64 → 0 ≤ mask < 2 ^ k → truth (Z.land f (not64 mask)) = false → 0 ≤ f < 2 ^ k.
Proof.
  intros Hf Hk Hm H0%truth_false. split; [apply Hf|]. destruct (Z.le_gt_cases (2 ^ k) f) as [Hge|]; [|done]. exfalso.
  assert (0 < f) by (pose proof (Z.pow_pos_nonneg 2 k); lia).
  assert (Hl : k ≤ Z.log2 f) by (apply Z.log2_le_pow2; lia).
  assert (Hl' : Z.log2 f < 64) by (apply Z.log2_lt_pow2; [lia|apply Hf]).
  assert (Hb : Z.testbit (Z.land f (not64 mask)) (Z.log2 f) = true).
  { rewrite Z.land_spec, Z.bit_log2 by lia. rewrite not64_spec by lia. simpl.
    destruct (decide (mask = 0)) as [->|]; [rewrite Z.bits_0; lia|].
    rewrite Z.bits_above_log2; [lia|lia|]. eapply Z.lt_le_trans; [|exact Hl]. apply Z.log2_lt_pow2; lia. }
  by rewrite H0, Z.bits_0 in Hb.
Qed.

(** The arguments [mmap] accepts: a private anonymous mapping, fixed or not. *)
Definition MAP_ANON_PRIVATE : Z := Z.lor MAP_PRIVATE MAP_ANONYMOUS.
Record mmap_valid (len prot flags offset : Z) : Prop := {
  mv_flags : flags = MAP_ANON_PRIVATE ∨ flags = Z.lor MAP_ANON_PRIVATE MAP_FIXED;
  mv_prot : prot < 8;
  mv_offset : offset mod PAGE_SIZE = 0;
  mv_len : len ≠ 0;
}.

Lemma mmap_flags_spec flags :
  in_u64 flags →
  truth (Z.land flags (not64 (Z.lor (Z.lor MAP_PRIVATE MAP_ANONYMOUS) MAP_FIXED))) ||
  negb (Z.land flags (Z.lor MAP_PRIVATE MAP_ANONYMOUS) =? Z.lor MAP_PRIVATE MAP_ANONYMOUS) = false ↔
  flags = MAP_ANON_PRIVATE ∨ flags = Z.lor MAP_ANON_PRIVATE MAP_FIXED.
Proof.
  intros Hf. split; [|intros [-> | ->]; reflexivity]. intros [H1 H2]%orb_false_iff.
  pose proof (masked_below flags 50 6 Hf ltac:(lia) ltac:(done) H1) as Hb.
  assert (Hall : Forall (λ f, truth (Z.land f (not64 50)) = false → negb (Z.land f 34 =? 34) = false → f = 34 ∨ f = 50) (seqZ 0 64)).
  { apply (bool_decide_unpack _). vm_compute. exact I. }
  rewrite Forall_forall in Hall. apply Hall; [|done..]. apply elem_of_seqZ. lia.
Qed.

Lemma prot_spec prot :
  in_u64 prot → truth (Z.land prot (not64 (Z.lor (Z.lor PROT_READ PROT_WRITE) PROT_EXEC))) = false ↔ prot < 8.
Proof. intros Hp. by apply (vm_flags_ok prot). Qed.

Section mappings.
Context (CONFIG_DEBUG_REFCOUNT : bool) (release : positive → option Z).
Context {PT : Type} `{!PageTable PT} (ext : positive → Z).
Implicit Types (m : mm (PT := PT)) (l : list area).

Abbreviation free start end_ l := (∀ x, x ∈ l → ¬ meets start end_ x).

(** Pages are mapped only where an area is. *)
Definition backed m l : Prop := ∀ a, user_page a → is_Some (pt_leaf (pt m) a) → is_Some (view l a).

(** What the allocator may return to the calls of one operation. *)
Record supply m (a a1 a2 : option positive) : Prop := {
  s_fresh : fresh m a;
  s_fresh1 : fresh m a1;
  s_fresh2 : fresh m a2;
  s_diff1 : is_Some a → a ≠ a1;
  s_diff2 : is_Some a → a ≠ a2;
  s_diff : is_Some a1 → a1 ≠ a2;
}.

(** Room for one more reference per area an operation may add. *)
Definition roomy l : Prop := ∀ p, ext p + Z.of_nat (length l) + 3 < REFCOUNT_MAX.

(** Why [mmap] fails. *)
Inductive mmap_fails l (a a1 a2 : option positive) (addr len prot flags offset : Z) : Z → Prop :=
  | fail_args : ¬ mmap_valid len prot flags offset → mmap_fails l a a1 a2 addr len prot flags offset (- EINVAL)
  | fail_size : UVADDR_SIZE < len → mmap_fails l a a1 a2 addr len prot flags offset (- ENOMEM)
  | fail_alloc : a = None → mmap_fails l a a1 a2 addr len prot flags offset (- ENOMEM)
  | fail_range ret : Z.testbit flags 4 = true → range_end addr (ALIGN_UP len PAGE_SIZE) = inl ret →
      mmap_fails l a a1 a2 addr len prot flags offset ret
  | fail_split : Z.testbit flags 4 = true → ¬ split_mem a1 a2 addr (addr + ALIGN_UP len PAGE_SIZE) l →
      mmap_fails l a a1 a2 addr len prot flags offset (- ENOMEM)
  | fail_space : Z.testbit flags 4 = false →
      (∀ c, UVADDR_START ≤ c → c + ALIGN_UP len PAGE_SIZE ≤ USTACK_BOTTOM - PAGE_SIZE →
         ∃ x, x ∈ l ∧ meets c (c + ALIGN_UP len PAGE_SIZE) x) →
      mmap_fails l a a1 a2 addr len prot flags offset (- ENOMEM).

(** The new mapping: [n] bytes at [ret], with no page yet. *)
Record mmapped m m' l l' (ret n prot : Z) (es : list event) : Prop := {
  mp_inv : inv m' l' [] ext;
  mp_backed : backed m' l';
  mp_allowed : allowed ret (ret + n);
  mp_aligned : ret mod PAGE_SIZE = 0;
  mp_view a : view l' a = if decide (ret ≤ a < ret + n) then Some (vm_prot prot, None) else view l a;
  mp_leaf a : user_page a → pt_leaf (pt m') a = if decide (ret ≤ a < ret + n) then None else pt_leaf (pt m) a;
  mp_log : log m' = log m ++ es;
  mp_tlb : tlb_run [] [] es = Some ([], []);
  mp_length : (length l' ≤ length l + 3)%nat;
}.

Lemma mmap_guard_spec len prot flags offset :
  in_u64 flags → in_u64 prot →
  truth (Z.land flags (not64 (Z.lor (Z.lor MAP_PRIVATE MAP_ANONYMOUS) MAP_FIXED))) ||
  negb (Z.land flags (Z.lor MAP_PRIVATE MAP_ANONYMOUS) =? Z.lor MAP_PRIVATE MAP_ANONYMOUS) ||
  truth (Z.land prot (not64 (Z.lor (Z.lor PROT_READ PROT_WRITE) PROT_EXEC))) ||
  truth (Z.land offset (PAGE_SIZE - 1)) || (len =? 0) = false ↔ mmap_valid len prot flags offset.
Proof.
  intros Hf Hp. do 3 rewrite (orb_false_iff _ (_ || _)) || rewrite orb_false_iff.
  rewrite mmap_flags_spec, prot_spec, page_mask, Z.eqb_neq by done.
  split; [intros [[[? ?] ?] ?]; by split|by intros [? ? ? ?]].
Qed.

(** The area the call allocated, once its place is known to be free. *)
Lemma mmap_insert m l v start n prot :
  inv m l [(v, Vm false 0 0 0 None 0 0 0)] ext → backed m l → allowed start (start + n) → 0 < n →
  start mod PAGE_SIZE = 0 → n mod PAGE_SIZE = 0 → free start (start + n) l →
  ∃ m' l', vma_insert (with_vmas m (<[v := Vm false start (start + n) (vm_prot prot) None 0 0 0]> (vmas m))) v = Ok (0, m') ∧
    inv m' l' [] ext ∧ quiet m m' ∧ backed m' l' ∧ length l' = S (length l) ∧
    (∀ a, view l' a = if decide (start ≤ a < start + n) then Some (vm_prot prot, None) else view l a).
Proof.
  intros Hi Hbk [Hl Ht Hg] Hn Has Han Hfree.
  pose proof (inv_write_det ext _ _ _ _ _ (Vm false start (start + n) (vm_prot prot) None 0 0 0) Hi eq_refl eq_refl) as Hi1.
  destruct (insert_new ext _ _ _ _ _ _ _ Hi1) as (m'&l'&E&Hi'&[Hq1 Hq2]&Hlen&Hv).
  - pose proof (vm_prot_flags prot). unfold vma_wf. simpl. unfold USTACK_TOP, USER_TRAMPOLINE in Ht.
    rewrite Z.add_mod, Has, Han by done. unfold PAGE_SIZE in *. repeat split; (lia || done).
  - done.
  - exists m', l'. split; [done|]. split; [done|]. split; [done|]. split; [|by split].
    intros a Ha Hx. rewrite Hv. case_decide; [by eexists|]. apply Hbk; [done|]. by rewrite Hq1 in Hx.
Qed.

Lemma free_view l s e a : free s e l → s ≤ a < e → view l a = None.
Proof.
  intros Hf Ha. unfold view. destruct (area_at a l) as [x|] eqn:E; [|done]. apply area_at_Some in E as [Hx Hc].
  destruct (Hf x Hx). unfold covers, meets in *. lia.
Qed.

Lemma view_free l s e : in_order l → s < e → (∀ a, s ≤ a < e → view l a = None) → free s e l.
Proof.
  intros Ho Hse Hv x Hx [Hm1 Hm2]. pose proof (in_order_nonempty _ _ Ho Hx) as Hn. unfold nonempty in Hn.
  specialize (Hv (Z.max s (vm_start x.2)) ltac:(lia)). unfold view in Hv.
  rewrite (area_at_elem _ l x) in Hv; [done..|unfold covers; lia].
Qed.

Lemma backed_unmapped m m' l l' dt s e es :
  unmapped ext m m' l l' dt s e es → backed m l → backed m' l'.
Proof.
  intros Hu Hb a Ha Hx. rewrite (u_leaf _ _ _ _ _ _ _ _ _ Hu) in Hx by done. rewrite (u_view _ _ _ _ _ _ _ _ _ Hu).
  case_decide as Hd; [by destruct Hx|]. pose proof (Hb a Ha Hx). case_decide; [by destruct Hd|done].
Qed.

Lemma range_end_exact start n e :
  in_u64 start → in_u64 n → n mod PAGE_SIZE = 0 → range_end start n = inr e → range_ok start e ∧ allowed start e ∧ e = start + n.
Proof.
  intros Hs Hn Hm He. pose proof (range_end_spec start n Hs Hn) as Hr. rewrite He in Hr. destruct Hr as (Hro&Ha&Hl).
  split; [done|]. split; [done|]. destruct Hro as [_ _ H1 H2]. unfold PAGE_SIZE in *. Z.to_euclidean_division_equations; lia.
Qed.

(** The place of the new area: free, with no page left in it. *)
Record placed m m' l l' dt (start n : Z) (es : list event) : Prop := {
  pl_inv : inv m' l' dt ext;
  pl_backed : backed m' l';
  pl_allowed : allowed start (start + n);
  pl_aligned : start mod PAGE_SIZE = 0;
  pl_view a : view l' a = if decide (start ≤ a < start + n) then None else view l a;
  pl_leaf a : user_page a → pt_leaf (pt m') a = if decide (start ≤ a < start + n) then None else pt_leaf (pt m) a;
  pl_log : log m' = log m ++ es;
  pl_tlb : tlb_run [] [] es = Some ([], []);
  pl_length : (length l' ≤ length l + 2)%nat;
}.

Lemma mmap_place m l dt v a1 a2 addr len prot flags offset :
  let n := ALIGN_UP len PAGE_SIZE in
  inv m l dt ext → backed m l → spare ext l dt → fresh m a1 → fresh m a2 → (is_Some a1 → a1 ≠ a2) →
  in_u64 addr → 0 < n ≤ UVADDR_SIZE + PAGE_SIZE → n mod PAGE_SIZE = 0 →
  ∃ place m', (if Z.testbit flags 4 then
      match range_end addr n with
      | inl ret => Ok (inl ret, m)
      | inr end_ =>
          let! (ret, m) := unmap_range CONFIG_DEBUG_REFCOUNT release m a1 a2 addr end_ in
          Ok (if truth ret then inl ret else inr (addr, end_), m)
      end
    else
      let! addr := find_unmapped m addr n in
      Ok (if addr =? 0 then inl (- ENOMEM) else inr (addr, u64 (addr + n)), m)) = Ok (place, m') ∧
    match place with
    | inl ret => mmap_fails l (Some v) a1 a2 addr len prot flags offset ret ∧ inv m' l dt ext ∧ quiet m m'
    | inr (start, end_) => end_ = start + n ∧ ∃ l' es, placed m m' l l' dt start n es ∧
        if Z.testbit flags 4 then start = addr else es = [] ∧ free start (start + n) l
    end.
Proof.
  intros n Hi Hbk Hsp Hf1 Hf2 Hd Haddr Hn Hnm.
  assert (Hc : UVADDR_START = 2 ^ 16 ∧ UVADDR_SIZE = 2 ^ 38 - 2 ^ 16 ∧ PAGE_SIZE = 4096 ∧ USTACK_TOP = 2 ^ 38 - 2 * 4096) by done.
  destruct (Z.testbit flags 4) eqn:Efix.
  - destruct (range_end addr n) as [ret|e] eqn:Er.
    { exists (inl ret), m. split; [done|]. split; [by apply fail_range|done]. }
    destruct (range_end_exact addr n e) as (Hrok&Hal&->); [done|unfold in_u64; lia|done|done|].
    destruct (unmap_range_ok ext CONFIG_DEBUG_REFCOUNT release m l dt a1 a2 addr (addr + n) Hi Hsp Hrok Hf1 Hf2 Hd)
      as (ret&m'&->&Hres). cbn [res_bind]. destruct (decide (split_mem a1 a2 addr (addr + n) l)).
    2: { destruct Hres as (->&Hi'&Hq). eexists _, m'. split; [done|]. cbn [truth negb Z.eqb Z.opp ENOMEM].
         split; [by apply fail_split|done]. }
    destruct Hres as (->&l'&es&Hu). eexists _, m'. split; [done|]. cbn [truth negb Z.eqb]. split; [done|]. exists l', es.
    split; [|done]. pose proof (u_view _ _ _ _ _ _ _ _ _ Hu) as Huv. split; try (by destruct Hu).
    + by eapply backed_unmapped.
    + by destruct Hrok.
    + intros a Ha. rewrite (u_leaf _ _ _ _ _ _ _ _ _ Hu) by done. case_decide as H1; [by rewrite decide_True by tauto|].
      case_decide as H2; [|done]. destruct (pt_leaf (pt m) a) eqn:El; [|done]. destruct H1. split; [done|]. apply Hbk; [done|]. by eexists.
  - destruct (find_unmapped_ok ext m l dt addr n Hi Haddr Hn Hnm) as (st&->&[(Hal&Hsm&Hfree&_)|(->&Hno)]); cbn [res_bind].
    2: { eexists _, m. split; [done|]. simpl. split; [by apply fail_space|done]. }
    destruct Hal as [Hal1 Hal2 Hal3]. replace (st =? 0) with false by lia. rewrite u64_small by (unfold in_u64; lia).
    eexists _, m. split; [done|]. split; [done|]. exists l, []. split; [|done]. split; try done; try lia.
    + intros a. case_decide; [|done]. by eapply free_view.
    + intros a Ha. case_decide as H1; [|done]. destruct (pt_leaf (pt m) a) eqn:El; [|done]. exfalso.
      destruct (Hbk a Ha ltac:(by eexists)) as [y Hy]. by rewrite (free_view l _ _ a Hfree) in Hy.
    + by rewrite app_nil_r.
Qed.

(** C12: [mmap] maps a free range or changes nothing.  The call returns.  Either
    it fails, for one of the listed reasons (bad arguments, a size beyond user
    space, no memory, a range it may not map, no free place below the stack) and
    the layout, the page table and the TLB are as before; or it returns a
    page-aligned address of a range inside user space and clear of the stack
    guard, which is exactly where the new private area with the requested
    permissions lies, with no page mapped in it.  The rest of the layout and its
    pages do not change.  Without [MAP_FIXED] the range was free; with it the
    range is the requested one, and each page it held is freed after a TLB flush
    that follows its removal. *)
Theorem sys_mmap_spec s l a a1 a2 addr len prot flags offset :
  inv (layout s) l [] ext → backed (layout s) l → roomy l → supply (layout s) a a1 a2 →
  in_u64 addr → in_u64 len → in_u64 prot → in_u64 flags →
  ∃ ret s', sys_mmap CONFIG_DEBUG_REFCOUNT release s a a1 a2 addr len prot flags offset = Ok (ret, s') ∧
    start_brk s' = start_brk s ∧ brk s' = brk s ∧
    ((mmap_fails l a a1 a2 addr len prot flags offset ret ∧ inv (layout s') l [] ext ∧ quiet (layout s) (layout s')) ∨
     (mmap_valid len prot flags offset ∧ ∃ l' es,
        mmapped (layout s) (layout s') l l' ret (ALIGN_UP len PAGE_SIZE) prot es ∧
        if Z.testbit flags 4 then ret = addr else es = [] ∧ free ret (ret + ALIGN_UP len PAGE_SIZE) l)).
Proof.
  intros Hi Hbk Hro [Hfa Hf1 Hf2 Hd1 Hd2 Hd] Haddr Hlen Hprot Hflags. unfold sys_mmap.
  pose proof (mmap_guard_spec len prot flags offset Hflags Hprot) as Hg.
  destruct (_ || (len =? 0)).
  { eexists _, s. split; [done|]. split; [done|]. split; [done|]. left. split; [|done].
    constructor. intros H%Hg. done. }
  assert (Hv : mmap_valid len prot flags offset) by by apply Hg. clear Hg.
  rewrite Z.gtb_ltb. destruct (Z.ltb_spec UVADDR_SIZE len).
  { eexists _, s. split; [done|]. split; [done|]. split; [done|]. left. split; [|done]. by apply fail_size. }
  destruct a as [v|]; cbn [vma_alloc].
  2: { eexists _, _. split; [done|]. split; [done|]. split; [done|]. left. split; [|done]. by apply fail_alloc. }
  destruct (vma_alloc_ok ext _ _ _ v Hi (Hfa v eq_refl)) as [Hi1 [Hq1 Hq2]]. cbn [vma_alloc snd] in Hi1, Hq1, Hq2.
  match type of Hi1 with Vma.inv ?x _ _ _ => set (m1 := x) in * end.
  destruct (align_up_page len) as [Hnm Hnb]; [apply Hlen|unfold SIZE_MAX, UINT64_MAX, UVADDR_SIZE, UVADDR_END, UVADDR_START, PAGE_SIZE in *; lia|].
  set (n := ALIGN_UP len PAGE_SIZE) in *.
  assert (Hn : 0 < n ≤ UVADDR_SIZE + PAGE_SIZE) by (destruct Hv; unfold in_u64 in Hlen; lia).
  destruct (mmap_place m1 l [(v, Vm false 0 0 0 None 0 0 0)] v a1 a2 addr len prot flags offset) as (place&m2&Ep&Hp); try done.
  { intros p. specialize (Hro p). rewrite length_app. simpl. lia. }
  { intros x ->. subst m1. simpl. rewrite lookup_insert_ne; [by apply Hf1|]. intros ->. by apply Hd1. }
  { intros x ->. subst m1. simpl. rewrite lookup_insert_ne; [by apply Hf2|]. intros ->. by apply Hd2. }
  unfold MAP_FIXED. change 0x10 with (BIT 4). rewrite truth_land_BIT by lia. fold n in Ep. rewrite Ep. cbn [res_bind]. clear Ep. fold n in Hp.
  destruct place as [ret|[st e]].
  - destruct Hp as (Hfail&Hi2&[Hq3 Hq4]).
    destruct (vma_free_ok ext CONFIG_DEBUG_REFCOUNT release _ _ _ _ _ Hi2) as (m3&->&Hi3&[Hq5 Hq6]&_). cbn [res_bind].
    eexists _, _. split; [done|]. split; [done|]. split; [done|]. left. split; [done|]. split; [done|]. split; simpl; congruence.
  - destruct Hp as (->&l2&es&[Hi2 Hb2 Hal Has Hvw Hlf Hlog Htlb Hlen2]&Hfx).
    rewrite (inv_load _ _ _ _ v (Vm false 0 0 0 None 0 0 0) Hi2) by (apply elem_of_app; right; by left).
    cbn [res_bind vm_mm vm_file vm_offset vm_fstart vm_fend].
    destruct (mmap_insert m2 l2 v st n prot Hi2) as (m3&l3&->&Hi3&[Hq5 Hq6]&Hb3&Hlen3&Hv3); try done; [lia| |].
    { apply view_free; [apply Hi2|lia|]. intros x Hx. by rewrite Hvw, decide_True. }
    cbn [res_bind truth negb Z.eqb Assert]. eexists _, _. split; [done|]. split; [done|]. split; [done|]. right. split; [done|].
    exists l3, es. split; [|done]. split; try done; try lia; simpl.
    + intros x. rewrite Hv3, Hvw. by case_decide.
    + intros x Hx. rewrite Hq5, Hlf by done. by rewrite Hq1.
    + congruence.
Qed.

(** ** [munmap] and [mprotect] *)

(** C3: [munmap] removes exactly the range.  The call returns; a bad range
    changes nothing, and when no memory is left to split an area at an end the
    call fails with [-ENOMEM] and the layout, the page table and the TLB stay as
    they were.  On success no address of the range is mapped, every other address
    keeps its permissions, file and position, the entries of the range are
    removed from the page table, in order and each once, and each removed page is
    freed after a TLB flush that follows its removal. *)
Theorem sys_munmap_spec s l a1 a2 start len :
  inv (layout s) l [] ext → backed (layout s) l → roomy l → supply (layout s) None a1 a2 → in_u64 start → in_u64 len →
  ∃ ret s', sys_munmap CONFIG_DEBUG_REFCOUNT release s a1 a2 start len = Ok (ret, s') ∧
    match range_end start len with
    | inl err => ret = err ∧ s' = s
    | inr end_ =>
        if decide (split_mem a1 a2 start end_ l)
        then ret = 0 ∧ ∃ l' es, unmapped ext (layout s) (layout s') l l' [] start end_ es ∧ backed (layout s') l'
        else ret = - ENOMEM ∧ inv (layout s') l [] ext ∧ quiet (layout s) (layout s')
    end.
Proof.
  intros Hi Hb Hro [_ Hf1 Hf2 _ _ Hd] Hs Hl. unfold sys_munmap.
  pose proof (range_end_spec start len Hs Hl) as Hr. destruct (range_end start len) as [err|e]; [by exists err, s|].
  destruct Hr as (Hrok&_&_).
  destruct (unmap_range_ok ext CONFIG_DEBUG_REFCOUNT release (layout s) l [] a1 a2 start e Hi) as (ret&m'&->&Hres); try done.
  { intros p. specialize (Hro p). rewrite app_nil_r. lia. }
  cbn [res_bind]. eexists _, _. split; [done|]. destruct (decide _); [|done].
  destruct Hres as (->&l'&es&Hu). split; [done|]. exists l', es. split; [exact Hu|]. by eapply backed_unmapped.
Qed.

Lemma backed_reprotected m m' l l' dt s e flags :
  reprotected ext m m' l l' dt s e flags → backed m l → backed m' l'.
Proof.
  intros Hp Hb a Ha Hx. destruct (p_table _ _ _ _ _ _ _ _ _ Hp) as [Hl _]. rewrite Hl in Hx by done.
  rewrite (p_view _ _ _ _ _ _ _ _ _ Hp). pose proof (Hb a Ha Hx). case_decide; [by apply fmap_is_Some|done].
Qed.

(** [mprotect] changes the permissions up to the first hole.  The call
    returns; bad arguments change nothing.  Otherwise the areas from [start] up
    to [stop] get the new permissions, their page-table entries grant what these
    allow (never write access to a shared page), and nothing else changes;
    [stop] is the end of the range, with result 0, or the first unmapped address,
    with [-ENOMEM].  The TLB is flushed when some page was mapped in that part,
    and the instruction cache before execution is allowed. *)
Theorem sys_mprotect_spec s l a1 a2 start len prot :
  inv (layout s) l [] ext → backed (layout s) l → roomy l → supply (layout s) None a1 a2 →
  in_u64 start → in_u64 len → in_u64 prot →
  ∃ ret s', sys_mprotect CONFIG_DEBUG_REFCOUNT release s a1 a2 start len prot = Ok (ret, s') ∧
    if decide (start mod PAGE_SIZE ≠ 0 ∨ (len ≠ 0 ∧ 8 ≤ prot)) then ret = - EINVAL ∧ s' = s else
    if decide (len = 0) then ret = 0 ∧ s' = s else
    match range_end start len with
    | inl err => ret = err ∧ s' = s
    | inr end_ =>
        if decide (split_mem a1 a2 start end_ l)
        then ∃ l' stop ch, start ≤ stop ≤ end_ ∧
          (if decide (stop = end_) then ret = 0 else ret = - ENOMEM ∧ view l stop = None) ∧
          reprotected ext (layout s) (layout s') l l' [] start stop (vm_prot prot) ∧ backed (layout s') l' ∧
          (ch = true ↔ touches (λ b, start ≤ b < stop) (pt (layout s))) ∧
          log (layout s') = log (layout s) ++
            (if Z.testbit (vm_prot prot) 2 then [IcacheFlush] else []) ++ (if ch then [TlbFlush] else [])
        else ret = - ENOMEM ∧ inv (layout s') l [] ext ∧ quiet (layout s) (layout s')
    end.
Proof.
  intros Hi Hb Hro [_ Hf1 Hf2 _ _ Hd] Hs Hl Hp. unfold sys_mprotect.
  pose proof (page_mask start) as Hm. pose proof (prot_spec prot Hp) as Hpr.
  destruct (truth (Z.land start _)).
  { exists (- EINVAL), s. split; [done|]. rewrite decide_True; [done|]. left. intros H%Hm. done. }
  assert (Ha : start mod PAGE_SIZE = 0) by by apply Hm. destruct (Z.eqb_spec len 0) as [->|Hl0].
  { exists 0, s. split; [done|]. rewrite decide_False by tauto. done. }
  destruct (truth (Z.land prot _)).
  { exists (- EINVAL), s. split; [done|]. rewrite decide_True; [done|]. right. split; [done|]. apply Z.nlt_ge. intros H%Hpr. done. }
  assert (prot < 8) by by apply Hpr.
  assert (Hargs : ¬ (start mod PAGE_SIZE ≠ 0 ∨ (len ≠ 0 ∧ 8 ≤ prot))) by lia.
  pose proof (range_end_spec start len Hs Hl) as Hr. destruct (range_end start len) as [err|e]; 
    [by exists err, s; rewrite (decide_False (P := _ ∨ _)), (decide_False (P := len = 0))|].
  destruct Hr as (Hrok&_&_).
  destruct (protect_range_ok ext CONFIG_DEBUG_REFCOUNT release (layout s) l [] a1 a2 start e (vm_prot prot) Hi)
    as (ret&m'&->&Hres); try done.
  { intros p. specialize (Hro p). rewrite app_nil_r. lia. }
  { apply vm_prot_flags. }
  cbn [res_bind]. eexists _, _. split; [done|].
  rewrite (decide_False (P := _ ∨ _)), (decide_False (P := len = 0)) by done. destruct (decide (split_mem _ _ _ _ _)); [|done].
  destruct Hres as (l'&stop&ch&?&?&Hrp&?&?). exists l', stop, ch. split; [done|]. split; [done|]. split; [exact Hrp|].
  split; [by eapply backed_reprotected|done].
Qed.

(** ** [brk] *)

(** When the heap's end moves. *)
Definition brk_moves (s : mm_struct (PT := PT)) l (a a1 a2 : option positive) (addr : Z) : Prop :=
  let start := ALIGN_UP (brk s) PAGE_SIZE in
  let end_ := ALIGN_UP addr PAGE_SIZE in
  start_brk s ≤ addr ≤ USTACK_BOTTOM - PAGE_SIZE ∧
  (start < end_ → Forall (λ x, ¬ meets start end_ x) l ∧ is_Some a) ∧
  (end_ < start → split_mem a1 a2 end_ start l).
#[global] Instance brk_moves_dec s l a a1 a2 addr : Decision (brk_moves s l a a1 a2 addr).
Proof. unfold brk_moves. apply _. Defined.

Definition heap_view l (old new : Z) (a : Z) : option (Z * option (positive * Z * bool)) :=
  if decide (old ≤ a < new) then Some (Z.lor VM_READ VM_WRITE, None)
  else if decide (new ≤ a < old) then None else view l a.

(** [brk] moves the end of the heap or reports where it is.  The call
    returns the break it leaves.  The break moves to [addr] exactly when [addr]
    lies between the heap's start and the stack guard, the pages a growth needs
    are free and an area can be allocated, or the areas a shrink cuts can be
    split; then the pages between the old and the new break are mapped readable
    and writable, or unmapped, and the rest of the layout is unchanged.
    Otherwise nothing changes. *)
Theorem sys_brk_spec s l a a1 a2 addr :
  inv (layout s) l [] ext → backed (layout s) l → roomy l → supply (layout s) a a1 a2 → in_u64 addr →
  UVADDR_START ≤ start_brk s ≤ brk s → brk s ≤ USTACK_BOTTOM - PAGE_SIZE →
  ∃ s', sys_brk CONFIG_DEBUG_REFCOUNT release s a a1 a2 addr = Ok (brk s', s') ∧ start_brk s' = start_brk s ∧
    if decide (brk_moves s l a a1 a2 addr)
    then brk s' = addr ∧ ∃ l' es, inv (layout s') l' [] ext ∧ backed (layout s') l' ∧
      (∀ x, view l' x = heap_view l (ALIGN_UP (brk s) PAGE_SIZE) (ALIGN_UP addr PAGE_SIZE) x) ∧
      log (layout s') = log (layout s) ++ es ∧ tlb_run [] [] es = Some ([], [])
    else brk s' = brk s ∧ inv (layout s') l [] ext ∧ quiet (layout s) (layout s').
Proof.
  intros Hi Hbk Hro [Hf Hf1 Hf2 _ _ Hd] Haddr Hsb Hbt. unfold sys_brk, brk_moves.
  assert (Hc : UVADDR_START = 2 ^ 16 ∧ USTACK_BOTTOM - PAGE_SIZE = 2 ^ 38 - 19 * 4096 ∧ PAGE_SIZE = 4096 ∧ UVADDR_END = 2 ^ 38) by done.
  rewrite !Z.gtb_ltb. destruct (_ || _) eqn:Eb.
  { exists s. split; [done|]. split; [done|]. apply orb_true_iff in Eb. rewrite !Z.ltb_lt in Eb. rewrite decide_False by lia. done. }
  apply orb_false_iff in Eb as [?%Z.ltb_ge ?%Z.ltb_ge].
  destruct (align_up_page (brk s)) as [Hm1 Hb1]; [lia|unfold SIZE_MAX, UINT64_MAX; lia|].
  destruct (align_up_page addr) as [Hm2 Hb2]; [lia|unfold SIZE_MAX, UINT64_MAX; lia|].
  set (st := ALIGN_UP (brk s) PAGE_SIZE) in *. set (en := ALIGN_UP addr PAGE_SIZE) in *.
  assert (Hlim : st ≤ USTACK_BOTTOM - PAGE_SIZE ∧ en ≤ USTACK_BOTTOM - PAGE_SIZE).
  { assert ((USTACK_BOTTOM - PAGE_SIZE) mod PAGE_SIZE = 0) by done. unfold PAGE_SIZE in *. Z.to_euclidean_division_equations; lia. }
  destruct (Z.ltb_spec st en).
  - rewrite (vma_find_intersection_spec ext _ _ _ _ _ Hi). cbn [res_bind].
    destruct (first_meeting st en l) as [x|] eqn:Ef; cbn [fmap option_fmap option_map].
    { exists s. split; [done|]. split; [done|]. rewrite decide_False; [done|]. intros (_&[Hno _]&_); [done|].
      apply first_meeting_Some in Ef as (l1&l2&->&_&Hm). rewrite Forall_app, Forall_cons in Hno. tauto. }
    apply first_meeting_None in Ef.
    destruct (map_range_ok ext CONFIG_DEBUG_REFCOUNT release (layout s) l a st en (Z.lor VM_READ VM_WRITE) Hi Hf)
      as (r&m'&->&Hq&Hres); [done|]. cbn [res_bind]. destruct a as [v|].
    2: { destruct Hres as [-> ->]. eexists. split; [done|]. split; [done|]. rewrite decide_False; [done|].
         intros (_&[_ [? ?]]&_); done. }
    rewrite decide_True in Hres; [|unfold vma_wf; simpl; split; [lia|]; split; [lia|]; split; [lia|]; done].
    rewrite decide_False in Hres; [|intros (x&Hx&Hm)%Exists_exists; rewrite Forall_forall in Ef; by apply (Ef x)].
    destruct Hres as (->&l'&Hi'&_&Hv). eexists. split; [done|]. split; [done|].
    rewrite decide_True; [|split; [lia|]; split; [done|lia]]. split; [done|]. exists l', []. split; [done|].
    destruct Hq as [Hq1 Hq2]. split; [|split; [|split; [by rewrite app_nil_r|done]]].
    + intros x Hx Hlf. rewrite Hv. case_decide; [by eexists|]. apply Hbk; [done|]. simpl in Hlf. by rewrite Hq1 in Hlf.
    + intros x. rewrite Hv. unfold heap_view. case_decide; [done|]. by rewrite decide_False by lia.
  - destruct (Z.ltb_spec en st).
    + destruct (unmap_range_ok ext CONFIG_DEBUG_REFCOUNT release (layout s) l [] a1 a2 en st Hi) as (ret&m'&->&Hres); try done.
      { intros p. specialize (Hro p). rewrite app_nil_r. lia. } { split; [lia|lia|done|done]. }
      cbn [res_bind]. destruct (decide (split_mem a1 a2 en st l)).
      * destruct Hres as (->&l'&es&Hu). eexists. split; [done|]. split; [done|].
        rewrite decide_True; [|split; [lia|]; split; [lia|done]]. split; [done|]. exists l', es.
        split; [by destruct Hu|]. split; [by eapply backed_unmapped|]. split; [|by destruct Hu].
        intros x. rewrite (u_view _ _ _ _ _ _ _ _ _ Hu). unfold heap_view. by rewrite (decide_False (P := st ≤ x < en)) by lia.
      * destruct Hres as (->&Hi'&Hq). eexists. split; [done|]. split; [done|]. rewrite decide_False; [done|]. by intros (_&_&?); auto.
    + eexists. split; [done|]. split; [done|]. rewrite decide_True; [|split; [lia|]; split; lia]. split; [done|].
      exists l, []. split; [done|]. split; [done|]. split; [|by rewrite app_nil_r].
      intros x. unfold heap_view. rewrite !decide_False by lia. done.
Qed.
End mappings.

(** ** A concrete address space *)

Abbreviation no_ext := (λ _ : positive, 0).
Abbreviation no_release := (λ _ : positive, None).

Definition empty_mm : mm (PT := pgt) := Mm (Rb ∅ None) ∅ ∅ demo_pgt [].

Lemma empty_mm_inv : inv empty_mm [] [] no_ext.
Proof.
  constructor.
  - exists E. split; [|done]. split; [split; [done|done|constructor|done]|]. split; [done|]. by exists 0%nat.
  - intros v vm. split; [done|by intros ?%elem_of_nil].
  - constructor.
  - intros v vm Hx. by apply elem_of_nil in Hx.
  - intros v vm Hx. by apply elem_of_nil in Hx.
  - split; constructor.
  - split; [|done|done]. intros p. done.
  - apply empty_wf.
Qed.

Lemma empty_backed : backed empty_mm [].
Proof.
  intros a Ha [p Hp]. exfalso. revert Hp. cbn [pt_leaf pgt_table pt empty_mm]. unfold pgt_leaf, mapped, leaf_at, pte_at, demo_pgt.
  by rewrite empty_pmd.
Qed.

(** One area of four pages, and one page of it mapped. *)
Definition demo_map : res ((Z + positive) * mm (PT := pgt)) := map_range false no_release empty_mm (Some 1%positive) 0x20000 0x24000 3.
Definition demo_mm : mm (PT := pgt) := match demo_map with Ok (_, m) => m | _ => empty_mm end.
Definition demo : mm_struct (PT := pgt) := MmStruct demo_mm 0x20000 0x24000.

Lemma demo_inv : ∃ l, inv demo_mm l [] no_ext ∧ backed demo_mm l ∧ length l = 1%nat ∧
  ∀ a, view l a = if decide (0x20000 ≤ a < 0x24000) then Some (3, None) else None.
Proof.
  unfold demo_mm, demo_map.
  destruct (map_range_ok no_ext false no_release empty_mm [] (Some 1%positive) 0x20000 0x24000 3 empty_mm_inv)
    as (r&m'&->&[Hq _]&Hr); [by intros v [= <-]|lia|].
  rewrite decide_True in Hr by (unfold vma_wf; simpl; unfold UVADDR_START, UVADDR_END; repeat split; (lia || done)).
  rewrite decide_False in Hr by by intros ?%Exists_nil. destruct Hr as (_&l&Hi&Hl&Hv).
  exists l. split; [done|]. split; [|done]. intros a Ha Hx. rewrite Hq in Hx. by destruct (empty_backed a Ha Hx).
Qed.

Lemma demo_supply a a1 a2 : a ∈ [None; Some 2%positive] → a1 ∈ [None; Some 3%positive] → a2 ∈ [None; Some 4%positive] → supply demo_mm a a1 a2.
Proof.
  intros Ha H1 H2. assert (Hd : ∀ v, v ≠ 1%positive → vmas demo_mm !! v = None).
  { intros v Hv. assert (E : vmas demo_mm = {[1%positive := Vm true 0x20000 0x24000 3 None 0 0 0]}) by (vm_compute; reflexivity).
    rewrite E. by apply lookup_singleton_ne. }
  split; unfold fresh; intros; try apply Hd; set_solver.
Qed.

Lemma demo_roomy l : length l = 1%nat → roomy no_ext l.
Proof. intros Hl p. rewrite Hl. vm_compute. reflexivity. Qed.

Lemma sys_mmap_spec_witness :
  ∃ s', sys_mmap false no_release demo (Some 2%positive) (Some 3%positive) (Some 4%positive) 0 0x1800 3 0x22 0 =
      Ok (USTACK_BOTTOM - PAGE_SIZE - 0x2000, s') ∧
    ∃ l', inv (layout s') l' [] no_ext ∧ view l' (USTACK_BOTTOM - PAGE_SIZE - 1) = Some (3, None) ∧
      view l' 0x20000 = Some (3, None) ∧ view l' 0x30000 = None.
Proof.
  destruct demo_inv as (l&Hi&Hb&Hl&Hv).
  destruct (sys_mmap_spec false no_release no_ext demo l (Some 2%positive) (Some 3%positive) (Some 4%positive) 0 0x1800 3 0x22 0
    Hi Hb (demo_roomy l Hl)) as (ret&s'&E&_&_&Hr);
    [apply demo_supply; set_solver|unfold in_u64; lia..|].
  assert (ret = USTACK_BOTTOM - PAGE_SIZE - 0x2000) as ->
    by (apply (f_equal (λ r, match r with Ok (x, _) => x | _ => 1 end)) in E; vm_compute in E; by rewrite <-E).
  exists s'. split; [exact E|].
  destruct Hr as [(Hf&_)|(_&l'&es&[Hi' _ _ _ Hv' _ _ _ _]&_)].
  - exfalso. remember (USTACK_BOTTOM - PAGE_SIZE - 0x2000) as ret eqn:Er. vm_compute in Er. destruct Hf; discriminate.
  - exists l'. split; [exact Hi'|]. rewrite !Hv', !Hv. repeat split; vm_compute; reflexivity.
Defined.

Lemma sys_munmap_spec_witness :
  ∃ s', sys_munmap false no_release demo (Some 3%positive) (Some 4%positive) 0x21000 0x1000 = Ok (0, s') ∧
    ∃ l', inv (layout s') l' [] no_ext ∧ view l' 0x20fff = Some (3, None) ∧ view l' 0x21000 = None ∧ view l' 0x22000 = Some (3, None).
Proof.
  destruct demo_inv as (l&Hi&Hb&Hl&Hv).
  destruct (sys_munmap_spec false no_release no_ext demo l (Some 3%positive) (Some 4%positive) 0x21000 0x1000
    Hi Hb (demo_roomy l Hl)) as (ret&s'&E&Hr);
    [apply demo_supply; set_solver|unfold in_u64; lia..|].
  change (range_end 0x21000 0x1000) with (@inr Z Z 0x22000) in Hr. cbn beta iota in Hr.
  rewrite decide_True in Hr by by split. destruct Hr as (->&l'&es&Hu&_). exists s'. split; [exact E|].
  exists l'. split; [apply (u_inv _ _ _ _ _ _ _ _ _ Hu)|]. rewrite !(u_view _ _ _ _ _ _ _ _ _ Hu), !Hv. repeat split; vm_compute; reflexivity.
Defined.

Lemma sys_mprotect_spec_witness :
  ∃ s', sys_mprotect false no_release demo (Some 3%positive) (Some 4%positive) 0x21000 0x1000 1 = Ok (0, s') ∧
    ∃ l', inv (layout s') l' [] no_ext ∧ view l' 0x20fff = Some (3, None) ∧ view l' 0x21000 = Some (1, None) ∧ view l' 0x22000 = Some (3, None).
Proof.
  destruct demo_inv as (l&Hi&Hb&Hl&Hv).
  destruct (sys_mprotect_spec false no_release no_ext demo l (Some 3%positive) (Some 4%positive) 0x21000 0x1000 1
    Hi Hb (demo_roomy l Hl)) as (ret&s'&E&Hr);
    [apply demo_supply; set_solver|unfold in_u64; lia..|].
  change (range_end 0x21000 0x1000) with (@inr Z Z 0x22000) in Hr.
  rewrite decide_False in Hr by (intros [H|[_ H]]; [by apply H|lia]). rewrite decide_False in Hr by done. cbn beta iota in Hr.
  rewrite decide_True in Hr by by split. destruct Hr as (l'&stop&ch&Hst&Hret&Hp&_).
  assert (stop = 0x22000) as ->.
  { destruct (decide (stop = 0x22000)); [done|]. destruct Hret as [_ Hno]. rewrite Hv, decide_True in Hno by lia. done. }
  rewrite decide_True in Hret by done. subst ret. exists s'. split; [exact E|].
  exists l'. split; [apply (p_inv _ _ _ _ _ _ _ _ _ Hp)|]. rewrite !(p_view _ _ _ _ _ _ _ _ _ Hp), !Hv. repeat split; vm_compute; reflexivity.
Defined.

Lemma sys_brk_spec_witness :
  ∃ s', sys_brk false no_release demo (Some 2%positive) (Some 3%positive) (Some 4%positive) 0x25800 = Ok (0x25800, s') ∧
    ∃ l', inv (layout s') l' [] no_ext ∧ view l' 0x23fff = Some (3, None) ∧ view l' 0x25fff = Some (3, None) ∧ view l' 0x26000 = None.
Proof.
  destruct demo_inv as (l&Hi&Hb&Hl&Hv).
  destruct (sys_brk_spec false no_release no_ext demo l (Some 2%positive) (Some 3%positive) (Some 4%positive) 0x25800
    Hi Hb (demo_roomy l Hl)) as (s'&E&_&Hr);
    [apply demo_supply; set_solver|unfold in_u64; lia|vm_compute; split; discriminate|vm_compute; discriminate|].
  assert (Hm : brk_moves demo l (Some 2%positive) (Some 3%positive) (Some 4%positive) 0x25800).
  { split; [vm_compute; split; discriminate|]. split; [|intros H; vm_compute in H; discriminate]. intros _. split; [|by eexists].
    apply Forall_forall. apply (view_free l 0x24000 0x26000); [apply Hi|lia|]. intros a Ha. rewrite Hv. by rewrite decide_False by lia. }
  rewrite decide_True in Hr by exact Hm. destruct Hr as (Hbrk&l'&es&Hi'&_&Hv'&_). exists s'. rewrite E, Hbrk. split; [done|].
  exists l'. split; [exact Hi'|]. rewrite !Hv'. unfold heap_view. rewrite !Hv. repeat split; vm_compute; reflexivity.
Defined.
