(* ===== verification/Ext2.v ===== *)
(** * ext2 blocks: [fs/ext2/balloc.c], [fs/ext2/bmap.c] (paths and lookup)

    [cache] is the metadata as the page cache of [sbi->mapping] presents it:
    the contents of each block, at the type the code casts it to.  Reading a
    block at another type faults.  [io] is what the successive [mapping_get]s
    return, 0 or an error; when it is used up they succeed.  The operations run
    under [sbi->mutex] and [inode->mutex]. *)
From stdpp Require Import base tactics numbers list gmap.
From S2P Require Import Prelude Bitmap.

Definition EXT2_NDIR_BLOCKS : Z := 12.
Definition EXT2_IND_BLOCK : Z := 12.
Definition EXT2_DIND_BLOCK : Z := 13.
Definition EXT2_TIND_BLOCK : Z := 14.
Definition EXT2_N_BLOCKS : nat := 15.

(** The fields the code uses. *)
Record ext2_super_block := Super {
  s_blocks_count : Z;
  s_free_blocks_count : Z;
  s_first_data_block : Z;
  s_blocks_per_group : Z;
}.
Record ext2_group_desc := Desc {
  bg_block_bitmap : Z;
  bg_free_blocks_count : Z;
}.

Inductive blk_data :=
  | Bits (words : list Z)
  | Descs (l : list ext2_group_desc)
  | Ptrs (l : list Z).

Record ext2_sb_info := Sbi {
  s_es : ext2_super_block;
  block_size : Z;
  cache : gmap Z blk_data;
}.

Definition with_es (s : ext2_sb_info) (es : ext2_super_block) : ext2_sb_info := Sbi es (block_size s) (cache s).
Definition with_cache (s : ext2_sb_info) (c : gmap Z blk_data) : ext2_sb_info := Sbi (s_es s) (block_size s) c.

Definition mapping_get (io : list Z) : Z * list Z := match io with [] => (0, []) | e :: io => (e, io) end.

Definition get_bits (s : ext2_sb_info) (blk : Z) : res (list Z) :=
  match cache s !! blk with Some (Bits w) => Ok w | _ => Fault end.
Definition get_descs (s : ext2_sb_info) (blk : Z) : res (list ext2_group_desc) :=
  match cache s !! blk with Some (Descs l) => Ok l | _ => Fault end.
Definition get_ptrs (s : ext2_sb_info) (blk : Z) : res (list Z) :=
  match cache s !! blk with Some (Ptrs l) => Ok l | _ => Fault end.
Definition put_data (s : ext2_sb_info) (blk : Z) (d : blk_data) : ext2_sb_info :=
  with_cache s (<[blk := d]> (cache s)).

(** ** Group descriptors; [sizeof(struct ext2_group_desc)] is 32 *)

(** The block and the index of the descriptor in it, for [off / 32]. *)
Definition ext2_get_grp_desc (s : ext2_sb_info) (io : list Z) (grp : Z) : Z * (Z * nat) * list Z :=
  let nr := block_size s / 32 in
  let blk := u32 (s_first_data_block (s_es s) + 1 + grp / nr) in
  let (ret, io) := mapping_get io in
  (ret, (blk, Z.to_nat (grp mod nr)), io).

Definition read_desc (s : ext2_sb_info) (dp : Z * nat) : res ext2_group_desc :=
  let! l := get_descs s dp.1 in arr_get l dp.2.

Definition ext2_check_params (s : ext2_sb_info) : Z :=
  let es := s_es s in
  if (s_first_data_block es >=? s_blocks_count es) || (s_blocks_per_group es >? u32 (block_size s * 8)) then - EUCLEAN else
  if s_free_blocks_count es =? 0 then - ENOSPC else 0.

Definition ext2_update_free (s : ext2_sb_info) (dp : Z * nat) (delta : Z) : res ext2_sb_info :=
  let! l := get_descs s dp.1 in
  let! d := arr_get l dp.2 in
  let! l := arr_set l dp.2 (Desc (bg_block_bitmap d) (u16 (bg_free_blocks_count d + delta))) in
  let s := put_data s dp.1 (Descs l) in
  let es := s_es s in
  Ok (with_es s (Super (s_blocks_count es) (u32 (s_free_blocks_count es + delta)) (s_first_data_block es)
                       (s_blocks_per_group es))).

(** ** Allocation: the return value and what is stored to [*blk] *)

Definition ext2_alloc_group_block (s : ext2_sb_info) (io : list Z) (dp : Z * nat) (first bblk : Z)
    : res (Z * option Z * ext2_sb_info) :=
  let nr := u32 (MIN (s_blocks_per_group (s_es s)) (u64 (s_blocks_count (s_es s) - first))) in
  let (ret, io) := mapping_get io in
  if truth ret then Ok (ret, None, s) else
  let! w := get_bits s bblk in
  let! bit := find_first_zero_bit w nr in
  if (bit =? nr) || (u64 (first + bit) =? 0) then Ok (- EUCLEAN, None, s) else
  let! w := set_bit bit w in
  let s := put_data s bblk (Bits w) in
  let! s := ext2_update_free s dp (-1) in
  Ok (0, Some (u32 (first + bit)), s).

(** [ret] is the value [ext2_check_params] left. *)
Fixpoint alloc_loop (fuel : nat) (s : ext2_sb_info) (io : list Z) (grp first ret : Z)
    : res (Z * option Z * ext2_sb_info) :=
  if first <? s_blocks_count (s_es s) then
    match fuel with
    | O => Loop
    | S fuel' =>
        let '(err, dp, io) := ext2_get_grp_desc s io grp in
        if truth err then Ok (err, None, s) else
        let! desc := read_desc s dp in
        if bg_free_blocks_count desc =? 0
        then alloc_loop fuel' s io (u32 (grp + 1)) (u64 (first + s_blocks_per_group (s_es s))) ret
        else ext2_alloc_group_block s io dp first (bg_block_bitmap desc)
    end
  else Ok (ret, None, s).

Definition ext2_alloc_block (s : ext2_sb_info) (io : list Z) : res (Z * option Z * ext2_sb_info) :=
  let ret := ext2_check_params s in
  if truth ret then Ok (ret, None, s) else
  alloc_loop (Z.to_nat (s_blocks_count (s_es s))) s io 0 (s_first_data_block (s_es s)) ret.

Definition ext2_free_block (s : ext2_sb_info) (io : list Z) (blk : Z) : res (Z * ext2_sb_info) :=
  let es := s_es s in
  let! _ := Assert (truth blk && (blk >=? s_first_data_block es) && (blk <? s_blocks_count es)) in
  let rel := u32 (blk - s_first_data_block es) in
  if s_blocks_per_group es =? 0 then Fault else
  let grp := rel / s_blocks_per_group es in
  let bit := rel mod s_blocks_per_group es in
  let '(ret, dp, io) := ext2_get_grp_desc s io grp in
  if truth ret then Ok (ret, s) else
  let! desc := read_desc s dp in
  let bblk := bg_block_bitmap desc in
  let (ret, io) := mapping_get io in
  if truth ret then Ok (ret, s) else
  (* mapping_purge: the block's page leaves the cache *)
  let s := with_cache s (delete blk (cache s)) in
  let! w := get_bits s bblk in
  let! used := test_bit bit w in
  let! _ := Assert used in
  let! w := clear_bit bit w in
  let! s := ext2_update_free (put_data s bblk (Bits w)) dp 1 in
  Ok (0, s).

(** ** Paths through the indirect blocks *)

(** The offsets ([offs[0 .. depth - 1]]), or [-EFBIG]. *)
Definition ext2_block_to_path (bsize lbn : Z) : Z + list Z :=
  let ptrs := bsize / 4 in
  let n := lbn in
  if n <? EXT2_NDIR_BLOCKS then inr [n] else
  let n := n - EXT2_NDIR_BLOCKS in
  if n <? ptrs then inr [EXT2_IND_BLOCK; n] else
  let n := n - ptrs in
  if n <? u64 (ptrs * ptrs) then inr [EXT2_DIND_BLOCK; n / ptrs; n mod ptrs] else
  let n := n - u64 (ptrs * ptrs) in
  if n >=? u64 (u64 (ptrs * ptrs) * ptrs) then inl (- EFBIG) else
  inr [EXT2_TIND_BLOCK; n / u64 (ptrs * ptrs); (n / ptrs) mod ptrs; n mod ptrs].

Definition ext2_read_ptr (s : ext2_sb_info) (io : list Z) (blk idx : Z) : res ((Z + Z) * list Z) :=
  if blk =? 0 then Ok (inr 0, io) else
  let (ret, io) := mapping_get io in
  if truth ret then Ok (inl ret, io) else
  let! l := get_ptrs s blk in
  let! val := arr_get l (Z.to_nat idx) in
  Ok (inr val, io).

Fixpoint bmap_loop (s : ext2_sb_info) (io : list Z) (phys : Z) (offs : list Z) : res (Z + Z) :=
  match offs with
  | [] => Ok (inr phys)
  | o :: offs =>
      let! (r, io) := ext2_read_ptr s io phys o in
      match r with inl ret => Ok (inl ret) | inr phys => bmap_loop s io phys offs end
  end.

(** [data]: the block array of the inode.  An error, or the block. *)
Definition ext2_bmap (s : ext2_sb_info) (io : list Z) (data : list Z) (lbn : Z) : res (Z + Z) :=
  match ext2_block_to_path (block_size s) lbn with
  | inl ret => Ok (inl ret)
  | inr [] => Fault
  | inr (o :: offs) => let! phys := arr_get data (Z.to_nat o) in bmap_loop s io phys offs
  end.

(** ** Counting *)

(** The clear bits among the first [n]. *)
Definition zeros (w : list Z) (n : Z) : Z := Z.of_nat (length (filter (λ i, bit w i = false) (seqZ 0 n))).

Lemma zeros_range w n : 0 ≤ n → 0 ≤ zeros w n ≤ n.
Proof.
  intros Hn. unfold zeros. pose proof (length_filter (λ i, bit w i = false) (seqZ 0 n)) as H. rewrite length_seqZ in H. lia.
Qed.

Lemma zeros_none w n : zeros w n = 0 → ∀ j, 0 ≤ j < n → bit w j = true.
Proof.
  unfold zeros. intros H j Hj. destruct (filter (λ i, bit w i = false) (seqZ 0 n)) as [|x l] eqn:E; [|simpl in H; lia].
  destruct (bit w j) eqn:Eb; [done|]. assert (Hin : j ∈ filter (λ i, bit w i = false) (seqZ 0 n)).
  { apply list_elem_of_filter. split; [done|]. apply elem_of_seqZ. lia. }
  rewrite E in Hin. by apply elem_of_nil in Hin.
Qed.

Lemma seqZ_split n i : 0 ≤ i < n → seqZ 0 n = seqZ 0 i ++ i :: seqZ (i + 1) (n - i - 1).
Proof.
  intros Hi. replace n with (i + (1 + (n - i - 1))) at 1 by lia. rewrite seqZ_app by lia. f_equal.
  rewrite seqZ_cons by lia. do 2 f_equal; lia.
Qed.

Lemma zeros_update w i v w' n :
  updates w i v w' → bit w i = negb v → 0 ≤ i < n → zeros w' n = zeros w n + (if v then -1 else 1).
Proof.
  intros (_&_&Hu) Hb Hi. unfold zeros. rewrite (seqZ_split n i) by done. rewrite !filter_app, !filter_cons.
  assert (Hl : filter (λ j, bit w' j = false) (seqZ 0 i) = filter (λ j, bit w j = false) (seqZ 0 i)).
  { apply filter_ext_in. intros j Hj%elem_of_seqZ. rewrite Hu by lia. by replace (j =? i) with false by lia. }
  assert (Hr : filter (λ j, bit w' j = false) (seqZ (i + 1) (n - i - 1)) = filter (λ j, bit w j = false) (seqZ (i + 1) (n - i - 1))).
  { apply filter_ext_in. intros j Hj%elem_of_seqZ. rewrite Hu by lia. by replace (j =? i) with false by lia. }
  rewrite Hl, Hr. rewrite Hu, Z.eqb_refl, Hb by lia.
  destruct v; simpl; rewrite !length_app; simpl; lia.
Qed.

(** The sum of a function over the groups. *)
Definition gsum (f : Z → Z) (n : nat) : Z := foldr (λ g acc, f (Z.of_nat g) + acc) 0 (seq 0 n).

Lemma gsum_S f n : gsum f (S n) = gsum f n + f (Z.of_nat n).
Proof.
  unfold gsum. rewrite seq_S, foldr_app. simpl. generalize (f (Z.of_nat n)). intros x.
  induction (seq 0 n) as [|k l IH]; simpl; [lia|]. rewrite IH. lia.
Qed.

Lemma gsum_update f f' n k d :
  (k < n)%nat → f' (Z.of_nat k) = f (Z.of_nat k) + d → (∀ g, (g < n)%nat → g ≠ k → f' (Z.of_nat g) = f (Z.of_nat g)) →
  gsum f' n = gsum f n + d.
Proof.
  revert k. induction n as [|n IH]; intros k Hk Hd Hs; [lia|]. rewrite !gsum_S. destruct (decide (k = n)) as [->|].
  - assert (gsum f' n = gsum f n) as ->; [|lia].
    assert (Hall : ∀ g, (g < n)%nat → f' (Z.of_nat g) = f (Z.of_nat g)) by (intros g Hg; apply Hs; lia).
    clear -Hall. induction n as [|n IH]; [done|]. rewrite !gsum_S, IH, Hall by (intros; auto with lia). done.
  - rewrite (IH k), Hs by (lia || (intros; apply Hs; lia)). lia.
Qed.

Lemma gsum_le f f' n : (∀ g, (g < n)%nat → f (Z.of_nat g) ≤ f' (Z.of_nat g)) → gsum f n ≤ gsum f' n.
Proof.
  intros Hall. induction n as [|n IH]; [done|]. rewrite !gsum_S.
  pose proof (IH ltac:(intros; apply Hall; lia)). pose proof (Hall n ltac:(lia)). lia.
Qed.

Lemma gsum_zero n : gsum (λ _, 0) n = 0.
Proof. induction n as [|n IH]; [done|]. by rewrite gsum_S, IH. Qed.

Lemma gsum_pos f n : 0 < gsum f n → (∀ g, (g < n)%nat → 0 ≤ f (Z.of_nat g)) → ∃ g, (g < n)%nat ∧ 0 < f (Z.of_nat g).
Proof.
  induction n as [|n IH]; [done|]. rewrite gsum_S. intros Hp Hall.
  destruct (decide (0 < f (Z.of_nat n))); [by exists n; split; [lia|]|].
  destruct IH as (g&Hg&Hf); [pose proof (Hall n); lia|intros; apply Hall; lia|]. exists g. split; [lia|done].
Qed.

(** ** The file system *)

Section fs.
Implicit Types s : ext2_sb_info.

Definition gfirst s (g : Z) : Z := s_first_data_block (s_es s) + g * s_blocks_per_group (s_es s).
Definition gsize s (g : Z) : Z := Z.min (s_blocks_per_group (s_es s)) (s_blocks_count (s_es s) - gfirst s g).
Definition valid s (g : Z) : Prop := 0 ≤ g ∧ gfirst s g < s_blocks_count (s_es s).

(** The descriptor of a group, its slot, and its bitmap. *)
Definition slot_of s (g : Z) : Z * nat := (s_first_data_block (s_es s) + 1 + g / 128, Z.to_nat (g mod 128)).
Definition group s (g : Z) : option ext2_group_desc :=
  match cache s !! (slot_of s g).1 with Some (Descs l) => l !! (slot_of s g).2 | _ => None end.
Definition gbits s (g : Z) : option (list Z) :=
  d ← group s g; match cache s !! bg_block_bitmap d with Some (Bits w) => Some w | _ => None end.
Definition gfree s (g : Z) : Z := default 0 (bg_free_blocks_count <$> group s g).

Definition ngroups s : nat :=
  Z.to_nat ((s_blocks_count (s_es s) - s_first_data_block (s_es s) + s_blocks_per_group (s_es s) - 1) / s_blocks_per_group (s_es s)).

Definition used s (b : Z) : bool :=
  match gbits s ((b - s_first_data_block (s_es s)) / s_blocks_per_group (s_es s)) with
  | Some w => bit w ((b - s_first_data_block (s_es s)) mod s_blocks_per_group (s_es s))
  | None => true
  end.
Definition in_fs s (b : Z) : Prop := s_first_data_block (s_es s) ≤ b < s_blocks_count (s_es s).

Record fs_ok s : Prop := {
  f_bsize : block_size s = 4096;
  f_count : 0 ≤ s_first_data_block (s_es s) < s_blocks_count (s_es s) ∧ s_blocks_count (s_es s) < 2 ^ 32;
  f_group : 0 < s_blocks_per_group (s_es s) ≤ 32768;
  f_desc g : valid s g → ∃ d w, group s g = Some d ∧ cache s !! bg_block_bitmap d = Some (Bits w) ∧ words w ∧
    gsize s g ≤ bits w ∧ bg_free_blocks_count d = zeros w (gsize s g);
  f_inj g g' d d' : valid s g → valid s g' → group s g = Some d → group s g' = Some d' →
    bg_block_bitmap d = bg_block_bitmap d' → g = g';
  f_total : s_free_blocks_count (s_es s) = gsum (gfree s) (ngroups s);
  f_boot : s_first_data_block (s_es s) = 0 → used s 0 = true;
}.

Lemma valid_lt s g : 0 < s_blocks_per_group (s_es s) → valid s g ↔ 0 ≤ g ∧ (Z.to_nat g < ngroups s)%nat.
Proof.
  intros Hp. unfold valid, gfirst, ngroups. set (bpg := s_blocks_per_group (s_es s)) in *. set (fd := s_first_data_block (s_es s)).
  set (bc := s_blocks_count (s_es s)). split; intros [H0 H1]; (split; [done|]).
  - assert (g + 1 ≤ (bc - fd + bpg - 1) / bpg) by (apply Z.div_le_lower_bound; nia). lia.
  - assert (Hlt : g < (bc - fd + bpg - 1) / bpg) by lia. pose proof (Z.mul_div_le (bc - fd + bpg - 1) bpg Hp). nia.
Qed.

(** The group and the bit of a block. *)
Lemma block_of s g j :
  0 < s_blocks_per_group (s_es s) → 0 ≤ j < s_blocks_per_group (s_es s) →
  (gfirst s g + j - s_first_data_block (s_es s)) / s_blocks_per_group (s_es s) = g ∧
  (gfirst s g + j - s_first_data_block (s_es s)) mod s_blocks_per_group (s_es s) = j.
Proof.
  intros Hp Hj. unfold gfirst. replace (_ - _) with (j + g * s_blocks_per_group (s_es s)) by lia.
  rewrite Z.div_add, Z.mod_add, Z.div_small, Z.mod_small by lia. done.
Qed.

Lemma block_split s b :
  0 < s_blocks_per_group (s_es s) → in_fs s b →
  let g := (b - s_first_data_block (s_es s)) / s_blocks_per_group (s_es s) in
  let j := (b - s_first_data_block (s_es s)) mod s_blocks_per_group (s_es s) in
  valid s g ∧ 0 ≤ j < gsize s g ∧ b = gfirst s g + j.
Proof.
  intros Hp Hb. cbn zeta. unfold in_fs, valid, gsize, gfirst in *.
  set (bpg := s_blocks_per_group (s_es s)) in *. set (fd := s_first_data_block (s_es s)) in *.
  pose proof (Z.div_mod (b - fd) bpg ltac:(lia)). pose proof (Z.mod_pos_bound (b - fd) bpg Hp). pose proof (Z.div_pos (b - fd) bpg). nia.
Qed.

Lemma gsum_gsize s k :
  0 < s_blocks_per_group (s_es s) → s_first_data_block (s_es s) ≤ s_blocks_count (s_es s) → (k ≤ ngroups s)%nat →
  gsum (gsize s) k = Z.min (Z.of_nat k * s_blocks_per_group (s_es s)) (s_blocks_count (s_es s) - s_first_data_block (s_es s)).
Proof.
  intros Hp Hc. induction k as [|k IH]; intros Hk; [simpl; unfold gsum; simpl; lia|].
  rewrite gsum_S, IH by lia. destruct (proj2 (valid_lt s (Z.of_nat k) Hp)) as [_ Hv]; [lia|].
  unfold gsize, gfirst in *. nia.
Qed.

Lemma slot_inj s g g' : 0 ≤ g → 0 ≤ g' → slot_of s g = slot_of s g' → g = g'.
Proof.
  unfold slot_of. intros Hg Hg' [= H1 H2]. pose proof (Z.div_mod g 128). pose proof (Z.div_mod g' 128).
  pose proof (Z.mod_pos_bound g 128). pose proof (Z.mod_pos_bound g' 128). lia.
Qed.

Lemma group_inv s g d :
  group s g = Some d → ∃ l, cache s !! (slot_of s g).1 = Some (Descs l) ∧ l !! (slot_of s g).2 = Some d.
Proof. unfold group. destruct (cache s !! (slot_of s g).1) as [[|l|]|]; [done| |done..]. intros Hl. by exists l. Qed.

Lemma gbits_of s g d w : group s g = Some d → cache s !! bg_block_bitmap d = Some (Bits w) → gbits s g = Some w.
Proof. intros Hd Hw. unfold gbits. rewrite Hd. simpl. by rewrite Hw. Qed.

Lemma gfree_of s g d : group s g = Some d → gfree s g = bg_free_blocks_count d.
Proof. unfold gfree. by intros ->. Qed.

(** The blocks of a file system that are not metadata of the allocator. *)
Definition data_block s (b : Z) : Prop :=
  ∀ g d, valid s g → group s g = Some d → b ≠ (slot_of s g).1 ∧ b ≠ bg_block_bitmap d.

(** A group's bitmap and count rewritten together. *)
Record rewritten s s' (g : Z) (w' : list Z) (c' delta : Z) : Prop := {
  r_bsize : block_size s' = block_size s;
  r_count : s_blocks_count (s_es s') = s_blocks_count (s_es s);
  r_first : s_first_data_block (s_es s') = s_first_data_block (s_es s);
  r_pg : s_blocks_per_group (s_es s') = s_blocks_per_group (s_es s);
  r_free : s_free_blocks_count (s_es s') = u32 (s_free_blocks_count (s_es s) + delta);
  r_group g' d : valid s g' → group s g' = Some d →
    group s' g' = Some (if decide (g' = g) then Desc (bg_block_bitmap d) c' else d);
  r_bits g' d w : valid s g' → group s g' = Some d → cache s !! bg_block_bitmap d = Some (Bits w) →
    cache s' !! bg_block_bitmap d = Some (Bits (if decide (g' = g) then w' else w));
}.

(** The common end of allocation and release, after [purge] (a block that is no
    metadata) has left the cache. *)
Lemma update_free_ok s g d w w' delta (purge : option Z) :
  fs_ok s → valid s g → group s g = Some d → cache s !! bg_block_bitmap d = Some (Bits w) →
  (∀ b, purge = Some b → data_block s b) →
  let s1 := match purge with None => s | Some b => with_cache s (delete b (cache s)) end in
  ∃ s', ext2_update_free (put_data s1 (bg_block_bitmap d) (Bits w')) (slot_of s g) delta = Ok s' ∧
    rewritten s s' g w' (u16 (bg_free_blocks_count d + delta)) delta.
Proof.
  intros Hok Hv Hd Hw Hpurge s1. destruct (group_inv _ _ _ Hd) as (l&Hl&Hld).
  assert (Hkeep : ∀ g' d', valid s g' → group s g' = Some d' →
    cache s1 !! (slot_of s g').1 = cache s !! (slot_of s g').1 ∧ cache s1 !! bg_block_bitmap d' = cache s !! bg_block_bitmap d').
  { intros g' d' Hv' Hd'. subst s1. destruct purge as [b|]; [|done]. destruct (Hpurge b eq_refl g' d' Hv' Hd') as [Hn1 Hn2].
    simpl. by rewrite !lookup_delete_ne. }
  assert (Hes : s_es s1 = s_es s ∧ block_size s1 = block_size s) by by destruct purge. destruct Hes as [Hes Hbs].
  assert (Hne : ∀ g' d', valid s g' → group s g' = Some d' → (slot_of s g').1 ≠ bg_block_bitmap d).
  { intros g' d' Hv' Hd' E. destruct (group_inv _ _ _ Hd') as (l'&Hl'&_). rewrite E, Hw in Hl'. done. }
  destruct (Hkeep g d Hv Hd) as [Hk1 Hk2]. specialize (Hne g d Hv Hd) as Hneg.
  unfold ext2_update_free, get_descs. cbn [put_data with_cache cache]. rewrite lookup_insert_ne, Hk1, Hl by done. cbn [res_bind].
  rewrite (arr_get_Ok _ _ d) by done. cbn [res_bind]. rewrite arr_set_Ok by by eapply lookup_lt_Some. cbn [res_bind].
  eexists. split; [done|]. split; simpl; rewrite ?Hes, ?Hbs; try done.
  - intros g' d' Hv' Hd'. unfold group. destruct (group_inv _ _ _ Hd') as (l'&Hl'&Hld').
    match goal with |- context [slot_of ?x g'] => replace (slot_of x g') with (slot_of s g') by (unfold slot_of; simpl; by rewrite ?Hes) end.
    cbn [cache with_es put_data with_cache].
    destruct (Hkeep g' d' Hv' Hd') as [Hk1' _]. pose proof (Hne g' d' Hv' Hd').
    destruct (decide ((slot_of s g').1 = (slot_of s g).1)) as [Es|Es].
    + rewrite Es, lookup_insert_eq. rewrite Es, Hl in Hl'. injection Hl' as <-. destruct (decide (g' = g)) as [->|].
      * rewrite list_lookup_insert_eq by by eapply lookup_lt_Some. by rewrite Hd in Hd'; injection Hd' as <-.
      * rewrite list_lookup_insert_ne; [done|]. intros E2. destruct Hv as [? _], Hv' as [? _].
        assert (g' = g); [|done]. apply (slot_inj s); [done..|]. apply injective_projections; [exact Es|by symmetry].
    + rewrite lookup_insert_ne, lookup_insert_ne, Hk1', Hl' by done. rewrite decide_False by (by intros ->). done.
  - intros g' d' w0 Hv' Hd' Hw0. destruct (Hkeep g' d' Hv' Hd') as [_ Hk2'].
    assert (bg_block_bitmap d' ≠ (slot_of s g).1) by (intros E; rewrite E, Hl in Hw0; done).
    rewrite lookup_insert_ne by done. destruct (decide (g' = g)) as [->|Hng].
    + rewrite Hd in Hd'. injection Hd' as <-. by rewrite lookup_insert_eq.
    + rewrite lookup_insert_ne, Hk2' by (intros E; apply Hng; by eapply (f_inj _ Hok)). done.
Qed.

Section rewrite.
Context (s s' : ext2_sb_info) (g i : Z) (d : ext2_group_desc) (w w' : list Z) (v : bool).
Abbreviation delta := (if v then -1 else 1).
Context (Hok : fs_ok s) (Hv : valid s g) (Hd : group s g = Some d) (Hw : cache s !! bg_block_bitmap d = Some (Bits w)).
Context (Hu : updates w i v w') (Hb : bit w i = negb v) (Hi : 0 ≤ i < gsize s g).
Context (Hr : rewritten s s' g w' (u16 (bg_free_blocks_count d + delta)) delta).

Lemma rw_valid g' : valid s' g' ↔ valid s g'.
Proof. unfold valid, gfirst. by rewrite (r_first _ _ _ _ _ _ Hr), (r_pg _ _ _ _ _ _ Hr), (r_count _ _ _ _ _ _ Hr). Qed.
Lemma rw_gsize g' : gsize s' g' = gsize s g'.
Proof. unfold gsize, gfirst. by rewrite (r_first _ _ _ _ _ _ Hr), (r_pg _ _ _ _ _ _ Hr), (r_count _ _ _ _ _ _ Hr). Qed.

Lemma gsize_pg g' : gsize s g' ≤ 32768.
Proof. destruct (f_group _ Hok). unfold gsize. lia. Qed.

Lemma rw_count : u16 (bg_free_blocks_count d + delta) = zeros w' (gsize s g) ∧ bg_free_blocks_count d + delta = zeros w' (gsize s g).
Proof.
  destruct (f_desc _ Hok g Hv) as (d0&w0&Hd0&Hw0&_&_&Hc). rewrite Hd in Hd0. injection Hd0 as <-. rewrite Hw in Hw0. injection Hw0 as <-.
  pose proof (zeros_update _ _ _ _ (gsize s g) Hu Hb Hi) as Hz. pose proof (zeros_range w' (gsize s g) ltac:(lia)). pose proof (gsize_pg g).
  split; [|lia]. unfold u16, wrap. rewrite Z.mod_small; lia.
Qed.

Lemma rw_gbits g' : valid s g' → gbits s' g' = if decide (g' = g) then Some w' else gbits s g'.
Proof.
  intros Hv'. destruct (f_desc _ Hok g' Hv') as (d'&w0&Hd'&Hw0&_). unfold gbits at 1.
  rewrite (r_group _ _ _ _ _ _ Hr _ _ Hv' Hd'). simpl.
  replace (bg_block_bitmap (if decide (g' = g) then _ else d')) with (bg_block_bitmap d') by by case_decide.
  rewrite (r_bits _ _ _ _ _ _ Hr _ _ _ Hv' Hd' Hw0). rewrite (gbits_of _ _ _ _ Hd' Hw0). by case_decide.
Qed.

Lemma rw_used b : in_fs s b → used s' b = if decide (b = gfirst s g + i) then v else used s b.
Proof.
  intros Hin. destruct (f_group _ Hok) as [Hp _]. destruct (block_split s b Hp Hin) as (Hvb&Hj&Hbj).
  unfold used. rewrite (r_first _ _ _ _ _ _ Hr), (r_pg _ _ _ _ _ _ Hr).
  set (gb := (b - s_first_data_block (s_es s)) / s_blocks_per_group (s_es s)) in *.
  set (j := (b - s_first_data_block (s_es s)) mod s_blocks_per_group (s_es s)) in *.
  rewrite rw_gbits by done. destruct (decide (gb = g)) as [Eg|Eg].
  - rewrite Eg. rewrite (gbits_of _ _ _ _ Hd Hw). destruct Hu as (_&_&Hbit). rewrite Hbit by lia.
    destruct (Z.eqb_spec j i) as [Ej|Ej].
    + rewrite decide_True; [done|]. rewrite Hbj, Eg. lia.
    + rewrite decide_False; [done|]. rewrite Hbj, Eg. lia.
  - rewrite decide_False; [done|]. intros E. apply Eg. unfold gb. rewrite E. apply block_of; [done|]. unfold gsize in Hi. lia.
Qed.

Lemma rw_ngroups : ngroups s' = ngroups s.
Proof. unfold ngroups. by rewrite (r_first _ _ _ _ _ _ Hr), (r_pg _ _ _ _ _ _ Hr), (r_count _ _ _ _ _ _ Hr). Qed.

Lemma rw_gfree g' : valid s g' → gfree s' g' = if decide (g' = g) then gfree s g + delta else gfree s g'.
Proof.
  intros Hv'. destruct (f_desc _ Hok g' Hv') as (d'&w0&Hd'&_). rewrite (gfree_of _ _ _ (r_group _ _ _ _ _ _ Hr _ _ Hv' Hd')).
  destruct (decide (g' = g)) as [->|]; [|by rewrite (gfree_of _ _ _ Hd')]. rewrite (gfree_of _ _ _ Hd). simpl.
  destruct rw_count as [-> <-]. done.
Qed.

Lemma rw_total : gsum (gfree s') (ngroups s') = gsum (gfree s) (ngroups s) + delta ∧
  0 ≤ gsum (gfree s') (ngroups s') < 2 ^ 32.
Proof.
  destruct (f_group _ Hok) as [Hp _]. destruct (f_count _ Hok) as [Hc Hc2]. rewrite rw_ngroups.
  assert (Hval : ∀ k, (k < ngroups s)%nat → valid s (Z.of_nat k)) by (intros k Hk; apply valid_lt; [done|lia]).
  destruct (proj1 (valid_lt s g Hp) Hv) as [Hg0 Hglt].
  assert (Hsum : gsum (gfree s') (ngroups s) = gsum (gfree s) (ngroups s) + delta).
  { apply (gsum_update _ _ _ (Z.to_nat g)); [done| |].
    - rewrite Z2Nat.id by done. rewrite rw_gfree by done. by rewrite decide_True.
    - intros k Hk Hne. rewrite rw_gfree by by apply Hval. by rewrite decide_False by lia. }
  split; [done|].
  assert (Hb' : ∀ k, (k < ngroups s)%nat → 0 ≤ gfree s' (Z.of_nat k) ≤ gsize s (Z.of_nat k)).
  { intros k Hk. pose proof (Hval k Hk) as Hvk. rewrite rw_gfree by done. destruct (f_desc _ Hok _ Hvk) as (d'&w0&Hd'&_&_&_&Hz).
    assert (0 ≤ gsize s (Z.of_nat k)) by (destruct Hvk; unfold gsize; lia).
    case_decide as Ek.
    - rewrite (gfree_of _ _ _ Hd). destruct rw_count as [_ ->]. rewrite Ek in *. by apply zeros_range.
    - rewrite (gfree_of _ _ _ Hd'), Hz. by apply zeros_range. }
  split.
  - rewrite <-(gsum_zero (ngroups s)). apply gsum_le. intros k Hk. by apply Hb'.
  - eapply Z.le_lt_trans; [apply (gsum_le _ (gsize s)); intros k Hk; by apply Hb'|]. rewrite gsum_gsize by (done || lia). lia.
Qed.

Lemma rw_ok : (v = true ∨ gfirst s g + i ≠ 0) → fs_ok s' ∧ s_free_blocks_count (s_es s') = s_free_blocks_count (s_es s) + delta.
Proof.
  intros Hboot. destruct rw_total as [Ht Hb']. destruct (f_group _ Hok) as [Hp Hp2]. destruct (f_count _ Hok) as [Hc Hc2].
  assert (Hfree : s_free_blocks_count (s_es s') = s_free_blocks_count (s_es s) + delta).
  { rewrite (r_free _ _ _ _ _ _ Hr), (f_total _ Hok), <-Ht. apply u32_small. unfold in_u32. done. }
  split; [|done]. split.
  - rewrite (r_bsize _ _ _ _ _ _ Hr). apply (f_bsize _ Hok).
  - by rewrite (r_first _ _ _ _ _ _ Hr), (r_count _ _ _ _ _ _ Hr).
  - by rewrite (r_pg _ _ _ _ _ _ Hr).
  - intros g' Hv'%rw_valid. destruct (f_desc _ Hok g' Hv') as (d'&w0&Hd'&Hw0&Hwd&Hsz&Hz).
    pose proof (r_group _ _ _ _ _ _ Hr _ _ Hv' Hd') as Hg'. pose proof (r_bits _ _ _ _ _ _ Hr _ _ _ Hv' Hd' Hw0) as Hb0.
    rewrite rw_gsize. destruct (decide (g' = g)) as [->|].
    + rewrite Hd in Hd'. injection Hd' as <-. rewrite Hw in Hw0. injection Hw0 as <-.
      eexists _, w'. split; [done|]. split; [done|]. destruct Hu as (Hw1&Hw2&_). split; [done|]. split; [by rewrite Hw2|]. apply rw_count.
    + eexists _, w0. done.
  - intros g1 g2 d1 d2 Hv1%rw_valid Hv2%rw_valid H1 H2 E.
    destruct (f_desc _ Hok g1 Hv1) as (e1&?&He1&_). destruct (f_desc _ Hok g2 Hv2) as (e2&?&He2&_).
    rewrite (r_group _ _ _ _ _ _ Hr _ _ Hv1 He1) in H1. rewrite (r_group _ _ _ _ _ _ Hr _ _ Hv2 He2) in H2.
    apply (f_inj _ Hok g1 g2 e1 e2); [done..|]. repeat case_decide; simplify_eq/=; done.
  - rewrite Hfree, Ht, (f_total _ Hok). done.
  - rewrite (r_first _ _ _ _ _ _ Hr). intros H0. rewrite rw_used by (unfold in_fs; lia). case_decide; [|by apply (f_boot _ Hok)].
    destruct Hboot as [->|]; [done|lia].
Qed.
End rewrite.

(** ** Allocation *)

Lemma get_grp_desc_ok s io g :
  fs_ok s → valid s g → ext2_get_grp_desc s io g = ((mapping_get io).1, slot_of s g, (mapping_get io).2).
Proof.
  intros Hok [Hg Hlt]. unfold ext2_get_grp_desc, slot_of. rewrite (f_bsize _ Hok). change (4096 / 32) with 128.
  destruct (f_count _ Hok) as [Hc Hc2]. destruct (f_group _ Hok) as [Hp _]. unfold gfirst in Hlt.
  rewrite u32_small; [by destruct (mapping_get io)|]. unfold in_u32. pose proof (Z.div_pos g 128). pose proof (Z.div_le_upper_bound g 128 g). nia.
Qed.

Lemma read_desc_ok s g d : group s g = Some d → read_desc s (slot_of s g) = Ok d.
Proof.
  intros (l&Hl&Hd)%group_inv. unfold read_desc, get_descs. rewrite Hl. cbn [res_bind]. by apply arr_get_Ok.
Qed.

(** The outcome of an allocation: an I/O error, or the lowest free block. *)
Record allocated s s' (b : Z) : Prop := {
  a_ok : fs_ok s';
  a_in : in_fs s b;
  a_nonzero : b ≠ 0;
  a_free : used s b = false;
  a_lowest x : in_fs s x → x < b → used s x = true;
  a_used x : in_fs s x → used s' x = used s x || (x =? b);
  a_count : s_free_blocks_count (s_es s') = s_free_blocks_count (s_es s) - 1;
}.

Lemma find_zero w n :
  0 ≤ n ≤ bits w → 0 < zeros w n →
  ∃ i, find_first_zero_bit w n = Ok i ∧ 0 ≤ i < n ∧ bit w i = false ∧ ∀ j, 0 ≤ j < i → bit w j = true.
Proof.
  intros Hn Hz. destruct (find_next_loop_spec false (Z.to_nat (n - 0)) w n 0) as (r&E&Hb&Hr); [lia|done|lia|].
  exists r. split; [exact E|]. destruct Hr as [[Hr Hbit]| ->].
  - split; [done|]. split; [done|]. intros j Hj. apply Hb; lia.
  - exfalso. assert (zeros w n = 0); [|lia]. unfold zeros. rewrite filter_none; [done|]. apply Forall_forall.
    intros j Hj%elem_of_seqZ. rewrite Hb by lia. done.
Qed.

Lemma alloc_group_ok s io g d :
  fs_ok s → valid s g → group s g = Some d → bg_free_blocks_count d ≠ 0 →
  (∀ x, in_fs s x → x < gfirst s g → used s x = true) →
  ∃ ret blk s', ext2_alloc_group_block s io (slot_of s g) (gfirst s g) (bg_block_bitmap d) = Ok (ret, blk, s') ∧
    ((ret ∈ io ∧ ret ≠ 0 ∧ blk = None ∧ s' = s) ∨ (ret = 0 ∧ ∃ b, blk = Some b ∧ allocated s s' b)).
Proof.
  intros Hok Hv Hd Hne Hlow. unfold ext2_alloc_group_block. destruct (f_count _ Hok) as [Hc Hc2]. destruct (f_group _ Hok) as [Hp Hp2].
  pose proof Hv as [Hg Hlt]. assert (Hgf : 0 ≤ gfirst s g) by (unfold gfirst; nia).
  rewrite u64_small, MIN_spec by (unfold in_u64; lia). fold (gsize s g).
  assert (Hsz : 0 < gsize s g ≤ 32768) by (unfold gsize; lia). rewrite u32_small by (unfold in_u32; lia).
  destruct (mapping_get io) as [ret io'] eqn:Eio. unfold truth. destruct (Z.eqb_spec ret 0) as [->|Hret]; cbn [negb].
  2: { eexists _, _, _. split; [done|]. left. split; [|done]. destruct io; simpl in Eio; injection Eio as <- <-; [done|by left]. }
  destruct (f_desc _ Hok g Hv) as (d0&w&Hd0&Hw&Hwd&Hbits&Hz). rewrite Hd in Hd0. injection Hd0 as <-.
  unfold get_bits. rewrite Hw. cbn [res_bind]. pose proof (zeros_range w (gsize s g) ltac:(lia)).
  destruct (find_zero w (gsize s g)) as (i&->&Hi&Hbit&Hbelow); [lia|lia|]. cbn [res_bind].
  rewrite u64_small by (unfold in_u64; unfold gsize in *; lia). replace (i =? gsize s g) with false by lia. cbn [orb].
  assert (Hin : in_fs s (gfirst s g + i)) by (unfold in_fs; unfold gsize, gfirst in *; nia).
  assert (Hj : i < s_blocks_per_group (s_es s)) by (unfold gsize in Hi; lia).
  assert (Hfree : used s (gfirst s g + i) = false).
  { unfold used. destruct (block_of s g i Hp ltac:(lia)) as [-> ->]. by rewrite (gbits_of _ _ _ _ Hd Hw). }
  assert (Hb0 : gfirst s g + i ≠ 0).
  { intros E. assert (s_first_data_block (s_es s) = 0) as H0 by (unfold gfirst in *; nia). pose proof (f_boot _ Hok H0). rewrite E in Hfree. congruence. }
  replace (gfirst s g + i =? 0) with false by lia.
  destruct (set_bit_spec w i) as (w'&->&Hu); [lia|done|]. cbn [res_bind].
  destruct (update_free_ok s g d w w' (-1) None Hok Hv Hd Hw ltac:(done)) as (s'&->&Hr). cbn [res_bind].
  rewrite u32_small by (unfold in_u32; unfold in_fs in Hin; lia).
  eexists _, _, s'. split; [done|]. right. split; [done|]. eexists. split; [done|].
  destruct (rw_ok s s' g i d w w' true Hok Hv Hd Hw Hu Hbit Hi Hr) as [Hok' Hcnt]; [by left|].
  split; try done.
  - intros x Hx Hlt'. destruct (decide (x < gfirst s g)); [by apply Hlow|].
    unfold used. replace x with (gfirst s g + (x - gfirst s g)) by lia.
    destruct (block_of s g (x - gfirst s g) Hp ltac:(lia)) as [-> ->]. rewrite (gbits_of _ _ _ _ Hd Hw). apply Hbelow. lia.
  - intros x Hx. rewrite (rw_used s s' g i d w w' true Hok Hd Hw Hu Hi Hr x Hx). destruct (Z.eqb_spec x (gfirst s g + i)) as [->|].
    + rewrite decide_True by done. by rewrite orb_true_r.
    + rewrite decide_False by done. by rewrite orb_false_r.
Qed.

Lemma mapping_get_elem io : (mapping_get io).1 ≠ 0 → (mapping_get io).1 ∈ io.
Proof. destruct io; simpl; [done|by left]. Qed.
Lemma mapping_get_sub io x : x ∈ (mapping_get io).2 → x ∈ io.
Proof. destruct io; simpl; [done|by right]. Qed.

(** A group without free blocks has every block in use. *)
Lemma group_full s g d x :
  fs_ok s → valid s g → group s g = Some d → bg_free_blocks_count d = 0 → in_fs s x →
  gfirst s g ≤ x < gfirst s g + s_blocks_per_group (s_es s) → used s x = true.
Proof.
  intros Hok Hv Hd H0 Hx Hr. destruct (f_group _ Hok) as [Hp _]. destruct (f_desc _ Hok g Hv) as (d0&w&Hd0&Hw&_&_&Hz).
  rewrite Hd in Hd0. injection Hd0 as <-. rewrite H0 in Hz. unfold used.
  replace x with (gfirst s g + (x - gfirst s g)) by lia. destruct (block_of s g (x - gfirst s g) Hp ltac:(lia)) as [-> ->].
  rewrite (gbits_of _ _ _ _ Hd Hw). apply (zeros_none w (gsize s g)); [done|]. unfold gsize, in_fs in *. lia.
Qed.

Lemma alloc_loop_ok fuel s io g ret :
  fs_ok s → 0 ≤ g → s_blocks_count (s_es s) - gfirst s g ≤ Z.of_nat fuel →
  (∀ x, in_fs s x → x < gfirst s g → used s x = true) →
  ∃ ret' blk s', alloc_loop fuel s io g (gfirst s g) ret = Ok (ret', blk, s') ∧
    ((ret' ∈ io ∧ ret' ≠ 0 ∧ blk = None ∧ s' = s) ∨ (ret' = 0 ∧ ∃ b, blk = Some b ∧ allocated s s' b) ∨
     (ret' = ret ∧ blk = None ∧ s' = s ∧ ∀ x, in_fs s x → used s x = true)).
Proof.
  revert io g. induction fuel as [|fuel IH]; intros io g Hok Hg Hf Hlow; cbn [alloc_loop].
  all: destruct (f_group _ Hok) as [Hp Hp2]; destruct (f_count _ Hok) as [Hc Hc2].
  all: destruct (Z.ltb_spec (gfirst s g) (s_blocks_count (s_es s))) as [Hlt|Hge].
  2, 4: (eexists _, _, _; split; [done|]; right; right; split; [done|]; split; [done|]; split; [done|];
    intros x Hx; apply Hlow; [done|]; unfold in_fs in Hx; lia).
  { lia. }
  assert (Hv : valid s g) by by split. rewrite (get_grp_desc_ok _ _ _ Hok Hv).
  unfold truth at 1. destruct (Z.eqb_spec (mapping_get io).1 0) as [_|Hne]; cbn [negb].
  2: { eexists _, _, _. split; [done|]. left. split; [by apply mapping_get_elem|done]. }
  destruct (f_desc _ Hok g Hv) as (d&w&Hd&_). rewrite (read_desc_ok _ _ _ Hd). cbn [res_bind].
  destruct (Z.eqb_spec (bg_free_blocks_count d) 0) as [H0|Hne0].
  - assert (Hnext : gfirst s g + s_blocks_per_group (s_es s) = gfirst s (g + 1)) by (unfold gfirst; lia).
    assert (0 ≤ gfirst s g) by (unfold gfirst; nia). assert (g < 2 ^ 32 - 1) by (unfold gfirst in *; nia).
    rewrite u64_small, u32_small by (unfold in_u64, in_u32; lia). rewrite Hnext.
    destruct (IH (mapping_get io).2 (g + 1) Hok) as (ret'&blk&s'&->&Hres); [lia|lia| |].
    { intros x Hx Hlt'. destruct (decide (x < gfirst s g)); [by apply Hlow|]. eapply group_full; [done..|]. lia. }
    eexists _, _, _. split; [done|]. destruct Hres as [(Hin&?)|[?|?]]; [left|by right; left|by right; right].
    split; [by apply mapping_get_sub|done].
  - destruct (alloc_group_ok s (mapping_get io).2 g d Hok Hv Hd Hne0 Hlow) as (ret'&blk&s'&->&Hres).
    eexists _, _, _. split; [done|]. destruct Hres as [(Hin&?)|?]; [left|by right; left]. split; [by apply mapping_get_sub|done].
Qed.

(** Every block is in use exactly when the free count is 0. *)
Lemma full_count s : fs_ok s → (∀ x, in_fs s x → used s x = true) → s_free_blocks_count (s_es s) = 0.
Proof.
  intros Hok Hall. rewrite (f_total _ Hok). destruct (f_group _ Hok) as [Hp _].
  assert (Hz : ∀ k, (k < ngroups s)%nat → gfree s (Z.of_nat k) = 0).
  { intros k Hk. assert (Hv : valid s (Z.of_nat k)) by (apply valid_lt; [done|lia]).
    destruct (f_desc _ Hok _ Hv) as (d&w&Hd&Hw&_&_&Hz). rewrite (gfree_of _ _ _ Hd), Hz. unfold zeros. rewrite filter_none; [done|].
    apply Forall_forall. intros j Hj%elem_of_seqZ. specialize (Hall (gfirst s (Z.of_nat k) + j)).
    unfold used in Hall. destruct (block_of s (Z.of_nat k) j Hp) as [E1 E2]; [unfold gsize in Hj; lia|].
    rewrite E1, E2, (gbits_of _ _ _ _ Hd Hw) in Hall. rewrite Hall; [done|]. destruct Hv as [Hv1 Hv2].
    destruct (f_count _ Hok). unfold in_fs, gsize, gfirst in *. nia. }
  clear -Hz. induction (ngroups s) as [|n IH]; [done|]. rewrite gsum_S, IH, Hz by (intros; auto with lia). done.
Qed.

(** C37: block allocation.  On a consistent file system [ext2_alloc_block]
    returns.  Either the device failed to deliver a metadata block and the error
    is returned; or no block is free and the result is [-ENOSPC]; in both cases
    nothing is stored to [*blk] and nothing changes.  Otherwise the result is 0
    and [*blk] is the lowest free block, which is never block 0; exactly this
    block becomes used, both free counts drop by one, and the file system is
    consistent again. *)
Theorem ext2_alloc_block_spec s io :
  fs_ok s →
  ∃ ret blk s', ext2_alloc_block s io = Ok (ret, blk, s') ∧
    ((ret ∈ io ∧ ret ≠ 0 ∧ blk = None ∧ s' = s) ∨
     (s_free_blocks_count (s_es s) = 0 ∧ ret = - ENOSPC ∧ blk = None ∧ s' = s) ∨
     (ret = 0 ∧ ∃ b, blk = Some b ∧ allocated s s' b)).
Proof.
  intros Hok. unfold ext2_alloc_block, ext2_check_params. destruct (f_count _ Hok) as [Hc Hc2]. destruct (f_group _ Hok) as [Hp Hp2].
  rewrite (f_bsize _ Hok). change (u32 (4096 * 8)) with 32768. replace (_ || _) with false by lia.
  destruct (Z.eqb_spec (s_free_blocks_count (s_es s)) 0) as [H0|H0].
  { eexists _, _, _. split; [done|]. right. left. done. }
  cbn [truth negb Z.eqb].
  assert (Hg0 : s_first_data_block (s_es s) = gfirst s 0) by (unfold gfirst; lia). rewrite Hg0.
  destruct (alloc_loop_ok (Z.to_nat (s_blocks_count (s_es s))) s io 0 0 Hok) as (ret&blk&s'&->&Hres); [lia|unfold gfirst; lia| |].
  { intros x Hx. unfold in_fs, gfirst in *. lia. }
  eexists _, _, _. split; [done|]. destruct Hres as [?|[?|(_&_&_&Hfull)]]; [by left|by right; right|].
  exfalso. by apply H0, full_count.
Qed.

(** block release.  On a consistent file system, releasing a used block that
    is no allocator metadata returns.  Either the device failed to deliver a
    metadata block, the error is returned and nothing changes; or the result is
    0, exactly this block becomes free, the free count grows by one and the file
    system is consistent again. *)
Theorem ext2_free_block_spec s io b :
  fs_ok s → in_fs s b → b ≠ 0 → used s b = true → data_block s b →
  ∃ ret s', ext2_free_block s io b = Ok (ret, s') ∧
    ((ret ∈ io ∧ ret ≠ 0 ∧ s' = s) ∨
     (ret = 0 ∧ fs_ok s' ∧ s_free_blocks_count (s_es s') = s_free_blocks_count (s_es s) + 1 ∧
      ∀ x, in_fs s x → used s' x = used s x && negb (x =? b))).
Proof.
  intros Hok Hin Hb0 Hused Hdata. unfold ext2_free_block. destruct (f_count _ Hok) as [Hc Hc2]. destruct (f_group _ Hok) as [Hp Hp2].
  pose proof Hin as [Hin1 Hin2]. unfold truth at 1. replace (_ && _ && _) with true by lia. cbn [Assert res_bind].
  rewrite u32_small by (unfold in_u32; lia). replace (s_blocks_per_group (s_es s) =? 0) with false by lia.
  destruct (block_split s b Hp Hin) as (Hv&Hj&Hbj).
  set (g := (b - s_first_data_block (s_es s)) / s_blocks_per_group (s_es s)) in *.
  set (j := (b - s_first_data_block (s_es s)) mod s_blocks_per_group (s_es s)) in *.
  rewrite (get_grp_desc_ok _ _ _ Hok Hv). unfold truth at 1.
  destruct (Z.eqb_spec (mapping_get io).1 0) as [_|Hne]; cbn [negb].
  2: { eexists _, _. split; [done|]. left. split; [by apply mapping_get_elem|done]. }
  destruct (f_desc _ Hok g Hv) as (d&w&Hd&Hw&Hwd&Hbits&_). rewrite (read_desc_ok _ _ _ Hd). cbn [res_bind].
  destruct (mapping_get (mapping_get io).2) as [ret io2] eqn:E2. unfold truth at 1.
  destruct (Z.eqb_spec ret 0) as [->|Hne2]; cbn [negb].
  2: { eexists _, _. split; [done|]. left. split; [|done]. apply mapping_get_sub. replace ret with (mapping_get (mapping_get io).2).1 in * by by rewrite E2.
       by apply mapping_get_elem. }
  destruct (Hdata g d Hv Hd) as [_ Hn2]. unfold get_bits. cbn [cache with_cache]. rewrite lookup_delete_ne, Hw by done. cbn [res_bind].
  assert (Hbit : bit w j = true) by (unfold used in Hused; fold g j in Hused; by rewrite (gbits_of _ _ _ _ Hd Hw) in Hused).
  rewrite test_bit_spec, Hbit by lia. cbn [res_bind Assert]. destruct (clear_bit_spec w j) as (w'&->&Hu); [lia|done|]. cbn [res_bind].
  destruct (update_free_ok s g d w w' 1 (Some b) Hok Hv Hd Hw) as (s'&->&Hr); [by intros x [= <-]|]. cbn [res_bind].
  destruct (rw_ok s s' g j d w w' false Hok Hv Hd Hw Hu Hbit Hj Hr) as [Hok' Hcnt]; [right; lia|].
  eexists _, s'. split; [done|]. right. split; [done|]. split; [done|]. split; [done|].
  intros x Hx. rewrite (rw_used s s' g j d w w' false Hok Hd Hw Hu Hj Hr x Hx). rewrite <-Hbj.
  destruct (Z.eqb_spec x b) as [->|]; [rewrite decide_True by done; by rewrite andb_false_r|rewrite decide_False by done; by rewrite andb_true_r].
Qed.
End fs.

(** ** Inconsistent counts *)

(** When the super block claims free blocks but no group has one, the code
    reports success without storing a block. *)
Lemma alloc_unset :
  ext2_alloc_block (Sbi (Super 64 5 0 64) 4096 {[1 := Descs [Desc 2 0]; 2 := Bits [2 ^ 64 - 1]]}) [] =
    Ok (0, None, Sbi (Super 64 5 0 64) 4096 {[1 := Descs [Desc 2 0]; 2 := Bits [2 ^ 64 - 1]]}).
Proof. vm_compute. reflexivity. Qed.

(** ** Paths *)

(** The logical block a path stands for, with [p] pointers per block. *)
Definition path_block (p : Z) (offs : list Z) : option Z :=
  match offs with
  | [n] => Some n
  | [_; a] => Some (12 + a)
  | [_; a; b] => Some (12 + p + (a * p + b))
  | [_; a; b; c] => Some (12 + p + p * p + ((a * p + b) * p + c))
  | _ => None
  end.

(** The slots a path goes through exist. *)
Definition path_ok (p : Z) (offs : list Z) : Prop :=
  match offs with
  | [n] => 0 ≤ n < EXT2_NDIR_BLOCKS
  | o :: offs => o = EXT2_NDIR_BLOCKS + Z.of_nat (length offs) - 1 ∧ Forall (λ x, 0 ≤ x < p) offs
  | [] => False
  end.

(** block paths.  For every logical block of a file, [ext2_block_to_path]
    gives offsets inside the inode's array and inside the pointer blocks, at the
    level the first offset names, from which the logical block can be computed
    back; so distinct blocks have distinct paths.  It fails with [-EFBIG] exactly
    for blocks beyond the triply indirect range. *)
Theorem ext2_block_to_path_roundtrip p lbn :
  0 < p ≤ 2 ^ 20 → in_u32 lbn →
  match ext2_block_to_path (4 * p) lbn with
  | inr offs => path_ok p offs ∧ path_block p offs = Some lbn ∧ lbn < 12 + p + p * p + p * p * p
  | inl ret => ret = - EFBIG ∧ 12 + p + p * p + p * p * p ≤ lbn
  end.
Proof.
  unfold in_u32. intros Hp Hl. unfold ext2_block_to_path, EXT2_NDIR_BLOCKS. replace (4 * p / 4) with p by (rewrite Z.mul_comm, Z.div_mul by lia; done).
  assert (p * p ≤ 2 ^ 40) by nia. assert (p * p * p ≤ 2 ^ 60) by nia. cbn zeta.
  destruct (Z.ltb_spec lbn 12); [simpl; unfold EXT2_NDIR_BLOCKS; split; [lia|split; [done|nia]]|].
  destruct (Z.ltb_spec (lbn - 12) p).
  { simpl. unfold EXT2_IND_BLOCK, EXT2_NDIR_BLOCKS. split; [split; [done|]; repeat constructor; lia|]. split; [f_equal; lia|nia]. }
  rewrite (u64_small (p * p)) by (unfold in_u64; nia).
  destruct (Z.ltb_spec (lbn - 12 - p) (p * p)).
  { set (n := lbn - 12 - p) in *. pose proof (Z.div_mod n p ltac:(lia)). pose proof (Z.mod_pos_bound n p ltac:(lia)).
    assert (0 ≤ n / p < p) by (split; [apply Z.div_pos; lia|apply Z.div_lt_upper_bound; lia]).
    simpl. unfold EXT2_DIND_BLOCK, EXT2_NDIR_BLOCKS. split; [split; [done|]; repeat constructor; lia|]. split; [f_equal; lia|nia]. }
  rewrite (u64_small (p * p * p)), Z.geb_leb by (unfold in_u64; nia).
  destruct (Z.leb_spec (p * p * p) (lbn - 12 - p - p * p)); [split; [done|lia]|].
  set (n := lbn - 12 - p - p * p) in *. assert (Hn : 0 ≤ n) by lia.
  pose proof (Z.div_mod n p ltac:(lia)). pose proof (Z.mod_pos_bound n p ltac:(lia)).
  pose proof (Z.div_mod (n / p) p ltac:(lia)). pose proof (Z.mod_pos_bound (n / p) p ltac:(lia)).
  assert (Hdd : n / (p * p) = n / p / p) by (rewrite Z.div_div by lia; done). rewrite Hdd.
  assert (0 ≤ n / p / p < p) by (split; [apply Z.div_pos; [apply Z.div_pos; lia|lia]|]; apply Z.div_lt_upper_bound; [lia|];
    apply Z.div_lt_upper_bound; nia).
  simpl. unfold EXT2_TIND_BLOCK, EXT2_NDIR_BLOCKS. split; [split; [done|]; repeat constructor; lia|]. split; [f_equal|lia].
  replace (n / p / p * p + (n / p) mod p) with (n / p) by lia. lia.
Qed.

(** ** Witnesses *)

(** A one-group file system of 64 blocks: [w] is its bitmap, [n] its free count. *)
Definition demo_fs (n w : Z) : ext2_sb_info :=
  Sbi (Super 64 n 0 64) 4096 {[1 := Descs [Desc 2 n]; 2 := Bits [w]]}.

Lemma demo_valid n w g : valid (demo_fs n w) g → g = 0.
Proof. intros [Hg Hlt]. unfold gfirst, demo_fs in Hlt. simpl in Hlt. lia. Qed.

Lemma demo_group n w g d : valid (demo_fs n w) g → group (demo_fs n w) g = Some d → g = 0 ∧ d = Desc 2 n.
Proof. intros ->%demo_valid. change (group (demo_fs n w) 0) with (Some (Desc 2 n)). by intros [= <-]. Qed.

Lemma demo_fs_ok n w :
  words [w] → zeros [w] 64 = n → used (demo_fs n w) 0 = true → fs_ok (demo_fs n w).
Proof.
  intros Hw Hz Hu. split.
  - done.
  - simpl. lia.
  - simpl. lia.
  - intros g ->%demo_valid. exists (Desc 2 n), [w]. repeat split; [done|done|]. by rewrite <-Hz.
  - intros g g' d d' Hv Hv' Hd Hd' _. destruct (demo_group _ _ g d Hv Hd), (demo_group _ _ g' d' Hv' Hd'). congruence.
  - change (gsum _ _) with (0 + n) || change (gsum _ _) with (n + 0). simpl. lia.
  - done.
Qed.

Lemma ext2_alloc_block_spec_witness :
  ∃ s', ext2_alloc_block (demo_fs 61 7) [] = Ok (0, Some 3, s') ∧ fs_ok s' ∧ used s' 3 = true.
Proof.
  destruct (ext2_alloc_block_spec (demo_fs 61 7) []) as (ret&blk&s'&E&Hr);
    [apply demo_fs_ok; [repeat constructor; vm_compute; done|reflexivity|reflexivity]|].
  assert (E' : ext2_alloc_block (demo_fs 61 7) [] = Ok (0, Some 3, demo_fs 60 15)) by (vm_compute; reflexivity).
  rewrite E' in E. injection E as <- <- <-. eexists. split; [exact E'|].
  destruct Hr as [(H&_)|[(_&H&_)|(_&b&Hb&Ha)]]; [by apply elem_of_nil in H|done|].
  injection Hb as <-. split; [apply (a_ok _ _ _ Ha)|reflexivity].
Defined.

Lemma ext2_free_block_spec_witness :
  ∃ s', ext2_free_block (demo_fs 60 15) [] 3 = Ok (0, s') ∧ used s' 3 = false.
Proof.
  destruct (ext2_free_block_spec (demo_fs 60 15) [] 3) as (ret&s'&E&Hr);
    [apply demo_fs_ok; [repeat constructor; vm_compute; done|reflexivity|reflexivity]
    |vm_compute; split; [discriminate|reflexivity]|done|reflexivity
    |intros g d Hv Hd; destruct (demo_group _ _ g d Hv Hd) as [-> ->]; vm_compute; done|].
  destruct Hr as [(H&_)|(->&_&_&Hu)]; [by apply elem_of_nil in H|]. exists s'. split; [exact E|].
  rewrite Hu by (vm_compute; split; [discriminate|reflexivity]). reflexivity.
Defined.

Lemma ext2_block_to_path_roundtrip_witness :
  ext2_block_to_path 4096 5000 = inr [13; 3; 892] ∧ path_block 1024 [13; 3; 892] = Some 5000.
Proof.
  pose proof (ext2_block_to_path_roundtrip 1024 5000 ltac:(lia) ltac:(unfold in_u32; lia)) as H.
  assert (E : ext2_block_to_path (4 * 1024) 5000 = inr [13; 3; 892]) by (vm_compute; reflexivity).
  rewrite E in H. destruct H as (_&H&_). split; [exact E|exact H].
Defined.
