(* ===== verification/Fault.v ===== *)
(** * Page faults: [mm/page_fault.c]

    [handle_page_fault] on the layout of [Vma], the three-level tables of
    [Pgtable] and the contents of physical frames.  It holds [mmap_lock]
    throughout, so it is one transition.  What [alloc_page] and the allocation
    of page tables return is an argument; the [read] operation of the mapped
    file is a parameter: the bytes from a position, at most as many as asked
    for, or an error. *)
From stdpp Require Import base tactics numbers list gmap.
From S2P Require Import Prelude Bitmap Refcount Fdtable Buddy Rbtree Kiov Vma VmaRange Pgtable Mmap.

(** A conversion to [loff_t]. *)
Definition loff (x : Z) : Z := (u64 x + 2 ^ 63) mod 2 ^ 64 - 2 ^ 63.

(** An address space with the frames it uses, each [PAGE_SIZE] bytes. *)
Record aspace := As { lay : mm (PT := pgt); mem : gmap Z (list Z) }.

Definition with_lay (s : aspace) (m : mm (PT := pgt)) : aspace := As m (mem s).
Definition with_tables (s : aspace) (t : pgt) (es : list event) : aspace := As (emit (with_pt (lay s) t) es) (mem s).
Definition with_pages (t : pgt) (ps : gmap Z page) : pgt := Pgt (tabs t) (pgd t) ps.
Definition set_frame (s : aspace) (p : Z) (data : list Z) : aspace := As (lay s) (<[p := data]> (mem s)).

(** [memcpy] of [bs] to offset [off] of a frame. *)
Definition blit (data : list Z) (off : Z) (bs : list Z) : list Z :=
  take (Z.to_nat off) data ++ bs ++ drop (Z.to_nat off + length bs) data.

Section fault.
Context (CONFIG_DEBUG_REFCOUNT : bool) (read : positive → Z → Z → Z + list Z).

(** A page the allocator hands out, with its descriptor. *)
Definition alloc_page (s : aspace) (a : option (Z * page)) : option Z * aspace :=
  match a with
  | None => (None, s)
  | Some (p, d) => (Some p, with_lay s (with_pt (lay s) (with_pages (pt (lay s)) (<[p := d]> (pages (pt (lay s)))))))
  end.

(** [free_pages] of a single page, as far as its descriptor goes.  When the last
    reference is dropped the page belongs to the allocator again: descriptor and
    contents leave the state. *)
Definition free_page (s : aspace) (p : Z) : res aspace :=
  let t := pt (lay s) in
  let! d := deref (pages t !! p) in
  if negb (flags d =? PG_ALLOCATED) || negb (order d =? 0) || negb (truth (refcount_read (refcount d))) then Ok s else
  let! (last, r) := refcount_dec_and_test CONFIG_DEBUG_REFCOUNT [] (refcount d) in
  let ps := if last then delete p (pages t) else <[p := Page (flags d) r (order d)]> (pages t) in
  Ok (As (emit (with_pt (lay s) (with_pages t ps)) [FreePage p]) (if last then delete p (mem s) else mem s)).

(** [while (iov.count)]: [off] and [count] are what is left of the vector. *)
Fixpoint fill_loop (fuel : nat) (f : positive) (pos : Z) (data : list Z) (off count : Z) : res (Z * list Z) :=
  if count =? 0 then Ok (0, data) else
  match fuel with
  | O => Loop
  | S fuel' =>
      match read f pos count with
      | inl e => Ok (s32 e, data)
      | inr [] => Ok (- EIO, data)
      | inr bs =>
          let n := Z.of_nat (length bs) in
          fill_loop fuel' f (pos + n) (blit data off bs) (off + n) (count - n)
      end
  end.

(** The contents of a new page of an area: zeros and the bytes of the file. *)
Definition fill_page (vm : vm_struct) (addr : Z) : res (Z * list Z) :=
  let data := replicate (Z.to_nat PAGE_SIZE) 0 in
  match vm_file vm with
  | None => Ok (0, data)
  | Some f =>
      let first := MAX addr (vm_fstart vm) in
      let last := MIN (u64 (addr + PAGE_SIZE)) (vm_fend vm) in
      if first <? last
      then fill_loop (Z.to_nat (last - first)) f (loff (vm_offset vm + first - vm_start vm)) data (first - addr) (last - first)
      else Ok (0, data)
  end.

(** The two ways to install a page: a copy of a shared page, a new page. *)
Definition fault_copy (s : aspace) (vm : vm_struct) (addr paddr page : Z) (a1 a2 : got) : res (Z * aspace) :=
  let! data := deref (mem s !! paddr) in
  let s := set_frame s page data in
  let! (old, t) := pgtable_unmap_page (pt (lay s)) addr in
  let! (ret, t, es) := pgtable_map_page t addr page (vm_flags vm) a1 a2 in
  let! _ := Assert (ret =? 0) in
  let s := with_tables s t es in
  match old with None => Ok (ret, s) | Some old => let! s := free_page s old in Ok (ret, s) end.

Definition fault_new (s : aspace) (vm : vm_struct) (addr page : Z) (a1 a2 : got) : res (Z * aspace) :=
  let! (ret, data) := fill_page vm addr in
  let s := set_frame s page data in
  if truth ret then let! s := free_page s page in Ok (ret, s) else
  let! (ret, t, es) := pgtable_map_page (pt (lay s)) addr page (vm_flags vm) a1 a2 in
  let s := with_tables s t es in
  if truth ret then let! s := free_page s page in Ok (ret, s) else Ok (ret, s).

Definition handle_page_fault (s : aspace) (addr access : Z) (a : option (Z * page)) (a1 a2 : got) : res (Z * aspace) :=
  let! v := vma_find (lay s) addr in
  match v with
  | None => Ok (- EFAULT, s)
  | Some v =>
      let! vm := load_vma (lay s) v in
      if negb (truth (Z.land (vm_flags vm) access)) then Ok (- EACCES, s) else
      let addr := ALIGN_DOWN addr PAGE_SIZE in
      let! r := pgtable_lookup (pt (lay s)) addr in
      match r with
      | inr paddr =>
          if negb (truth (Z.land access VM_WRITE)) then Ok (0, s) else
          let! d := deref (pages (pt (lay s)) !! paddr) in
          if refcount_read (refcount d) =? 1 then
            let! (_, t) := pgtable_protect_page (pt (lay s)) addr (vm_flags vm) in
            Ok (0, with_tables s t [TlbFlush])
          else
            match alloc_page s a with
            | (None, s) => Ok (- ENOMEM, s)
            | (Some page, s) => fault_copy s vm addr paddr page a1 a2
            end
      | inl ret =>
          let! _ := Assert (ret =? - ENOENT) in
          match alloc_page s a with
          | (None, s) => Ok (- ENOMEM, s)
          | (Some page, s) => fault_new s vm addr page a1 a2
          end
      end
  end.
End fault.

(** ** Filling a page *)

Lemma blit_length data off bs :
  0 ≤ off → off + Z.of_nat (length bs) ≤ Z.of_nat (length data) → length (blit data off bs) = length data.
Proof. intros Ho Hl. unfold blit. rewrite !length_app, length_take, length_drop. lia. Qed.

Lemma blit_lookup data off bs i :
  0 ≤ off → off + Z.of_nat (length bs) ≤ Z.of_nat (length data) →
  blit data off bs !! i =
    if decide (off ≤ Z.of_nat i < off + Z.of_nat (length bs)) then bs !! (i - Z.to_nat off)%nat else data !! i.
Proof.
  intros Ho Hl. unfold blit. case_decide.
  - rewrite lookup_app_r, length_take by (rewrite length_take; lia). rewrite lookup_app_l by lia. f_equal. lia.
  - destruct (decide (Z.of_nat i < off)).
    + rewrite lookup_app_l by (rewrite length_take; lia). by rewrite lookup_take, decide_True by lia.
    + rewrite lookup_app_r, length_take by (rewrite length_take; lia). rewrite lookup_app_r by lia. rewrite lookup_drop. f_equal. lia.
Qed.

Section fill.
Context (read : positive → Z → Z → Z + list Z) (content : positive → Z → Z).

(** [read] returns an error or bytes of the file, at most as many as asked for. *)
Definition reads_content : Prop :=
  ∀ f pos n, 0 < n → match read f pos n with
    | inl e => - 4096 < e < 0
    | inr bs => Z.of_nat (length bs) ≤ n ∧ ∀ i b, bs !! i = Some b → b = content f (pos + Z.of_nat i)
    end.

Context (Hread : reads_content).

Lemma fill_loop_ok fuel f pos data off count :
  0 ≤ off → 0 ≤ count ≤ Z.of_nat fuel → off + count ≤ Z.of_nat (length data) →
  ∃ ret data', fill_loop read fuel f pos data off count = Ok (ret, data') ∧ length data' = length data ∧ ret ≤ 0 ∧
    (ret = 0 → ∀ i, data' !! i =
       if decide (off ≤ Z.of_nat i < off + count) then Some (content f (pos + (Z.of_nat i - off))) else data !! i).
Proof.
  revert pos data off count. induction fuel as [|fuel IH]; intros pos data off count Ho Hc Hl; cbn [fill_loop].
  { replace count with 0 by lia. exists 0, data. do 3 (split; [done|]). intros _ i. by rewrite decide_False by lia. }
  destruct (Z.eqb_spec count 0) as [->|Hne].
  { exists 0, data. do 3 (split; [done|]). intros _ i. by rewrite decide_False by lia. }
  pose proof (Hread f pos count ltac:(lia)) as Hr. destruct (read f pos count) as [e|bs].
  { exists (s32 e), data. assert (s32 e = e) as -> by (unfold s32, u32, wrap; Z.to_euclidean_division_equations; lia).
    do 2 (split; [done|]). split; [lia|]. lia. }
  destruct bs as [|b0 bs].
  { exists (- EIO), data. do 3 (split; [done|]). done. }
  remember (b0 :: bs) as bs' eqn:Eb. destruct Hr as [Hn Hbs]. assert (0 < Z.of_nat (length bs')) by (subst; simpl; lia).
  destruct (IH (pos + Z.of_nat (length bs')) (blit data off bs') (off + Z.of_nat (length bs')) (count - Z.of_nat (length bs')))
    as (ret&data'&E&Hl'&Hret&Hd); [lia|lia|rewrite blit_length; lia|].
  exists ret, data'. split; [done|]. rewrite blit_length in Hl' by lia. split; [done|]. split; [done|].
  intros H0 i. rewrite (Hd H0), blit_lookup by lia. repeat case_decide; try lia; try done.
  - do 2 f_equal. lia.
  - destruct (lookup_lt_is_Some_2 bs' (i - Z.to_nat off)) as [b Hb]; [lia|]. rewrite Hb. rewrite (Hbs _ _ Hb). do 2 f_equal. lia.
Qed.

(** Byte [i] of the page at [addr] of an area that has not been touched yet. *)
Definition backing (vm : vm_struct) (addr i : Z) : Z :=
  match vm_file vm with
  | Some f => if decide (vm_fstart vm ≤ addr + i < vm_fend vm)
              then content f (loff (vm_offset vm + Z.max addr (vm_fstart vm) - vm_start vm) + (addr + i - Z.max addr (vm_fstart vm))) else 0
  | None => 0
  end.

Lemma fill_page_ok vm addr :
  0 ≤ addr < UVADDR_END →
  ∃ ret data, fill_page read vm addr = Ok (ret, data) ∧ length data = Z.to_nat PAGE_SIZE ∧ ret ≤ 0 ∧
    (ret = 0 → ∀ i, 0 ≤ i < PAGE_SIZE → data !! Z.to_nat i = Some (backing vm addr i)) ∧
    (ret ≠ 0 → vm_file vm ≠ None).
Proof.
  intros Ha. unfold fill_page, backing. set (zero := replicate (Z.to_nat PAGE_SIZE) 0).
  assert (Hz : length zero = Z.to_nat PAGE_SIZE) by apply length_replicate.
  assert (Hz0 : ∀ i, 0 ≤ i < PAGE_SIZE → zero !! Z.to_nat i = Some 0) by (intros i Hi; apply lookup_replicate; split; [done|lia]).
  destruct (vm_file vm) as [f|].
  2: { exists 0, zero. do 3 (split; [done|]). split; [by auto|done]. }
  rewrite MAX_spec, MIN_spec. unfold UVADDR_END in Ha. rewrite u64_small by (unfold in_u64, PAGE_SIZE; lia).
  destruct (Z.ltb_spec (Z.max addr (vm_fstart vm)) (Z.min (addr + PAGE_SIZE) (vm_fend vm))) as [Hlt|Hge].
  - edestruct (fill_loop_ok (Z.to_nat (Z.min (addr + PAGE_SIZE) (vm_fend vm) - Z.max addr (vm_fstart vm))) f
      (loff (vm_offset vm + Z.max addr (vm_fstart vm) - vm_start vm)) zero (Z.max addr (vm_fstart vm) - addr)) as (ret&data&->&Hl&Hr&Hd);
      [lia| |rewrite Hz|]; [lia|unfold PAGE_SIZE; lia|].
    exists ret, data. split; [done|]. split; [congruence|]. split; [done|]. split; [|done].
    intros H0 i Hi. rewrite (Hd H0). rewrite Z2Nat.id by lia. repeat case_decide; try lia; [|by auto]. do 2 f_equal. lia.
  - exists 0, zero. do 3 (split; [done|]). split; [|done]. intros _ i Hi. rewrite Hz0, decide_False by (done || lia). done.
Qed.
End fill.

(** ** Address spaces *)

Abbreviation tb s := (pt (lay s)).

(** A frame in use, with its contents. *)
Definition live (s : aspace) (p : Z) : Prop :=
  ∃ d data, pages (tb s) !! p = Some d ∧ flags d = PG_ALLOCATED ∧ order d = 0 ∧ 0 < refcount d ≤ REFCOUNT_MAX ∧
    mem s !! p = Some data ∧ length data = Z.to_nat PAGE_SIZE.

(** An entry for a page of an area: present to the hardware unless the area
    allows nothing, granting what the area allows, possibly without writing. *)
Definition entry_for (vm : vm_struct) (e : Z) : Prop :=
  Z.testbit e 0 = negb (vm_flags vm =? 0) ∧ ∃ sh, perm e = grant (vm_flags vm) sh.

(** The page table maps pages of areas to frames in use. *)
Record agree (s : aspace) (l : list area) : Prop := {
  g_area b e : user_page b → at_page mapped (tb s) b = Some e → ∃ v vm, area_at b l = Some (v, vm) ∧ entry_for vm e;
  g_frame b e : user_page b → at_page mapped (tb s) b = Some e → live s (pt_entry_paddr e);
}.

(** What the allocator may hand out: pages not in use, all different. *)
Definition page_fresh (s : aspace) (a : option (Z * page)) : Prop :=
  match a with
  | None => True
  | Some (p, d) => d = Page PG_ALLOCATED 1 0 ∧ page_paddr p ∧ tabs (tb s) !! p = None ∧ pages (tb s) !! p = None ∧ mem s !! p = None
  end.
Definition table_fresh (s : aspace) (a : option (Z * page)) (g : got) : Prop :=
  got_ok (tb s) g ∧ ∀ q, given g q → pages (tb s) !! q = None ∧ ∀ d, a ≠ Some (q, d).
Record supplies (s : aspace) (a : option (Z * page)) (a1 a2 : got) : Prop := {
  su_page : page_fresh s a;
  su_a1 : table_fresh s a a1;
  su_a2 : table_fresh s a a2;
  su_diff : got_diff a1 a2;
}.

Lemma inv_tables m m' l dt ext :
  inv m l dt ext → tree m' = tree m → vmas m' = vmas m → fst_ m' = fst_ m → wf (pt m') → inv m' l dt ext.
Proof. destruct m, m'. simpl. intros [H1 H2 H3 H4 H5 H6 H7 H8] -> -> -> Hw. by split. Qed.

Lemma grant_access f access :
  0 ≤ f < 8 → access ∈ [VM_READ; VM_WRITE; VM_EXEC] → Z.land f access ≠ 0 →
  Z.land (grant f false) access ≠ 0 ∧ (access ≠ VM_WRITE → ∀ sh, Z.land (grant f sh) access ≠ 0).
Proof.
  intros Hf Ha. assert (Hall : Forall (λ f, Forall (λ x, Z.land f x ≠ 0 → Z.land (grant f false) x ≠ 0 ∧
    (x ≠ VM_WRITE → Z.land (grant f false) x ≠ 0 ∧ Z.land (grant f true) x ≠ 0)) [VM_READ; VM_WRITE; VM_EXEC]) (seqZ 0 8)).
  { apply (bool_decide_unpack _). vm_compute. exact I. }
  rewrite Forall_forall in Hall. specialize (Hall f ltac:(apply elem_of_seqZ; lia)). rewrite Forall_forall in Hall.
  intros H0. destruct (Hall access Ha H0) as [H1 H2]. split; [done|]. intros Hw []; by apply H2.
Qed.

Lemma made_for vm page :
  page_paddr page → 0 ≤ vm_flags vm < 8 →
  let e := pt_entry_make page (vma_to_pte (vm_flags vm)) in
  entry_for vm e ∧ perm e = grant (vm_flags vm) false ∧ pt_entry_paddr e = page.
Proof.
  intros Hp Hf. destruct (prot_bits_ok (vm_flags vm) false Hf) as (Hb&_&_&Hg). unfold prot_bits in *.
  assert (Hperm : perm (pt_entry_make page (vma_to_pte (vm_flags vm))) = grant (vm_flags vm) false) by by rewrite make_perm.
  split; [|split; [done|by apply make_paddr]]. split; [|by exists false].
  rewrite make_bits by (done || lia). change (10 <=? 0) with false. by apply prot_valid.
Qed.

Lemma protected_for t vm e :
  user_leaf t e → 0 ≤ vm_flags vm < 8 →
  entry_for vm (protected t (vm_flags vm) e) ∧ perm (protected t (vm_flags vm) e) = grant (vm_flags vm) (pgt_shared t (pt_entry_paddr e)) ∧
    pt_entry_paddr (protected t (vm_flags vm) e) = pt_entry_paddr e.
Proof.
  intros Hu Hf. set (sh := pgt_shared t (pt_entry_paddr e)). destruct (prot_bits_ok (vm_flags vm) sh Hf) as (Hb&_&_&Hg).
  assert (Hperm : perm (protected t (vm_flags vm) e) = grant (vm_flags vm) sh) by (unfold protected; by rewrite value_perm).
  split; [|split; [done|apply value_paddr; [apply (ul_u64 _ _ Hu)|done]]]. split; [|by exists sh].
  unfold protected. rewrite value_low by done. fold sh. unfold prot_bits. rewrite <-(prot_valid (vm_flags vm)) by done.
  destruct sh; [|done]. rewrite Z.land_spec. change (Z.testbit (not64 PTE_W) 0) with true. apply andb_true_r.
Qed.

Lemma agree_step s s' l b v vm e' :
  agree s l → (∀ p, live s p → live s' p) → area_at b l = Some (v, vm) →
  (∀ e, e' = Some e → entry_for vm e ∧ live s' (pt_entry_paddr e)) →
  (∀ c, user_page c → at_page mapped (tb s') c = if decide (c = b) then e' else at_page mapped (tb s) c) →
  agree s' l.
Proof.
  intros [H1 H2] Hl Hb He Hm. split; intros c e Hc; rewrite Hm by done; case_decide; subst; [..|by eauto].
  - intros ->. exists v, vm. split; [done|by apply He].
  - by auto.
  - intros ->. by apply He.
Qed.

Lemma wf_pages t ps :
  wf t → (∀ i j k e, (i < KERNEL_PGD_FIRST)%nat → mapped t i j k = Some e → is_Some (ps !! pt_entry_paddr e)) → wf (with_pages t ps).
Proof.
  intros [H1 H2 H3 H4 H5 H6 H7] Hp. split; try done. intros i j k e Hi Hm. destruct (H7 i j k e Hi Hm) as [L1 L2 L3 L4].
  split; try done. by apply (Hp i j k).
Qed.

Lemma wf_pages_mono t ps : wf t → (∀ p, is_Some (pages t !! p) → is_Some (ps !! p)) → wf (with_pages t ps).
Proof. intros Hw Hp. apply wf_pages; [done|]. intros i j k e Hi Hm. apply Hp, (ul_page _ _ (w_leaf _ Hw _ _ _ _ Hi Hm)). Qed.

Lemma insert_some {A} (m : gmap Z A) p x q : is_Some (m !! q) → is_Some (<[p := x]> m !! q).
Proof. intros H. destruct (decide (q = p)) as [->|]; [by rewrite lookup_insert_eq|by rewrite lookup_insert_ne]. Qed.

Section cases.
Context (CONFIG_DEBUG_REFCOUNT : bool) (read : positive → Z → Z → Z + list Z) (content : positive → Z → Z).
Context (Hread : reads_content read content) (ext : positive → Z).

Lemma free_page_ok s p d :
  pages (tb s) !! p = Some d → flags d = PG_ALLOCATED → order d = 0 → 0 < refcount d ≤ REFCOUNT_MAX →
  free_page CONFIG_DEBUG_REFCOUNT s p = Ok (As (emit (with_pt (lay s) (with_pages (tb s)
    (if decide (refcount d = 1) then delete p (pages (tb s)) else <[p := Page (flags d) (refcount d - 1) (order d)]> (pages (tb s)))))
    [FreePage p]) (if decide (refcount d = 1) then delete p (mem s) else mem s)).
Proof.
  intros Hd Hfl Ho Hr. unfold free_page. rewrite Hd. cbn [deref res_bind]. rewrite Hfl, Ho, !Z.eqb_refl. unfold refcount_read, truth.
  rewrite u32_small by (unfold in_u32, REFCOUNT_MAX, INT32_MAX in *; lia). replace (refcount d =? 0) with false by lia. cbn [negb orb].
  rewrite dec_and_test_live by lia. cbn [res_bind].
  destruct (decide (refcount d = 1)); [by rewrite bool_decide_true|by rewrite bool_decide_false].
Qed.

(** What the page at [b] shows: what it showed before, or what backs the area. *)
Definition shows (s : aspace) (vm : vm_struct) (b : Z) (data : list Z) : Prop :=
  match pgt_leaf (tb s) b with
  | Some q => mem s !! q = Some data
  | None => ∀ i, 0 ≤ i < PAGE_SIZE → data !! Z.to_nat i = Some (backing content vm b i)
  end.

(** The access that faulted is possible now; a written page has no other user. *)
Definition resolved (s s' : aspace) (vm : vm_struct) (b access : Z) : Prop :=
  ∃ p data, pgt_leaf (tb s') b = Some p ∧ mem s' !! p = Some data ∧ shows s vm b data ∧
    (∃ e, pgt_perm (tb s') b = Some e ∧ Z.land e access ≠ 0) ∧ (access = VM_WRITE → pgt_shared (tb s') p = false).

(** Nothing but the page at [b] and the new frame changes. *)
Record confined (s s' : aspace) (l : list area) (a : option (Z * page)) (b : Z) : Prop := {
  c_inv : inv (lay s') l [] ext;
  c_agree : agree s' l;
  c_maps c : user_page c → c ≠ b → at_page mapped (tb s') c = at_page mapped (tb s) c;
  c_mem q : (∀ d, a ≠ Some (q, d)) → mem s' !! q = mem s !! q;
}.

Context (s : aspace) (l : list area) (v : positive) (vm : vm_struct) (b access : Z).
Context (Hi : inv (lay s) l [] ext) (Hg : agree s l) (Hb : user_page b) (Hvm : area_at b l = Some (v, vm)).
Context (Hf : 0 ≤ vm_flags vm < 8) (Hacc : access ∈ [VM_READ; VM_WRITE; VM_EXEC]) (Hok : Z.land (vm_flags vm) access ≠ 0).

Lemma confined_refl a : confined s s l a b.
Proof. by split. Qed.

Lemma wf_now : wf (tb s).
Proof. apply (i_pt _ _ _ _ Hi). Qed.

(** Access to a page that is already there. *)
Lemma resolved_present e :
  at_page mapped (tb s) b = Some e → access ≠ VM_WRITE → resolved s s vm b access.
Proof.
  intros He Hw. destruct (g_frame _ _ Hg b e Hb He) as (d&data&_&_&_&_&Hm&_).
  destruct (g_area _ _ Hg b e Hb He) as (v'&vm'&Hvm'&_&sh&Hp). simplify_eq.
  exists (pt_entry_paddr e), data. unfold shows, pgt_leaf, pgt_perm. rewrite He. do 3 (split; [done|]). split; [|done].
  eexists. split; [done|]. rewrite Hp. by apply grant_access.
Qed.

(** Making the page of the only user writable. *)
Lemma resolved_protect e d :
  at_page mapped (tb s) b = Some e → pages (tb s) !! pt_entry_paddr e = Some d → refcount d = 1 →
  ∃ t, pgtable_protect_page (tb s) b (vm_flags vm) = Ok (true, t) ∧
    confined s (with_tables s t [TlbFlush]) l None b ∧ resolved s (with_tables s t [TlbFlush]) vm b access.
Proof.
  intros He Hd Hr. destruct (protect_entry (tb s) b (vm_flags vm) wf_now Hb Hf) as (t&E&Hw&Hp&_&Hm). rewrite He in E, Hm.
  exists t. rewrite E. split; [done|]. assert (Hsh : pgt_shared (tb s) (pt_entry_paddr e) = false).
  { unfold pgt_shared. by rewrite Hd, Hr. }
  destruct (protected_for (tb s) vm e) as (Hent&Hperm&Hpa); [by apply (page_leaf (tb s) b); [apply wf_now|..]|done|].
  assert (Hlive : ∀ p, live s p → live (with_tables s t [TlbFlush]) p) by (intros p; unfold live, with_tables; simpl; by rewrite Hp).
  split.
  - split; [by apply (inv_tables (lay s))| | |done].
    + eapply (agree_step s _ l b); [done|done|done| |exact Hm]. intros e' [= <-]. split; [done|]. rewrite Hpa.
      by apply Hlive, (g_frame _ _ Hg b).
    + intros c Hc Hne. simpl. by rewrite Hm, decide_False.
  - destruct (g_frame _ _ Hg b e Hb He) as (d'&data&_&_&_&_&Hmem&_). exists (pt_entry_paddr e), data.
    unfold shows, pgt_leaf, pgt_perm. cbn [with_tables lay pt emit with_pt mem]. rewrite Hm, He, decide_True by done.
    cbn [fmap option_fmap option_map]. rewrite Hpa. do 3 (split; [done|]). split.
    + eexists. split; [done|]. rewrite Hperm, Hsh. apply (proj1 (grant_access _ _ Hf Hacc Hok)).
    + intros _. unfold pgt_shared in *. by rewrite Hp.
Qed.

Abbreviation fresh_page := (Page PG_ALLOCATED 1 0).

Context (p : Z) (Hp : page_fresh s (Some (p, fresh_page))).

Lemma live_old q : live s q → q ≠ p.
Proof. intros (d&_&Hd&_) ->. destruct Hp as (_&_&_&Hn&_). by rewrite Hn in Hd. Qed.

(** The tables with the descriptor of the new page. *)
Abbreviation alloced := (with_pages (tb s) (<[p := fresh_page]> (pages (tb s)))).

Lemma alloced_wf : wf alloced.
Proof. apply wf_pages_mono; [apply wf_now|]. intros q. apply insert_some. Qed.

Lemma resolved_copy e d a1 a2 :
  at_page mapped (tb s) b = Some e → pages (tb s) !! pt_entry_paddr e = Some d → refcount d ≠ 1 →
  ∃ s', fault_copy CONFIG_DEBUG_REFCOUNT (alloc_page s (Some (p, fresh_page))).2 vm b (pt_entry_paddr e) p a1 a2 = Ok (0, s') ∧
    confined s s' l (Some (p, fresh_page)) b ∧ resolved s s' vm b access.
Proof.
  intros He Hd Hr. destruct (g_frame _ _ Hg b e Hb He) as (d'&data&Hd'&Hfl&Hor&Hrc&Hm&Hlen). rewrite Hd in Hd'. injection Hd' as <-.
  destruct Hp as (_&Hpp&Hpt&Hpn&Hpm). assert (Hne : pt_entry_paddr e ≠ p) by congruence.
  unfold fault_copy. cbn [alloc_page snd with_lay mem lay]. rewrite Hm. cbn [deref res_bind set_frame lay mem with_pt pt].
  destruct (remap_ok alloced b e p (vm_flags vm) a1 a2 alloced_wf Hb He Hpp) as (t1&t2&E1&E2&Hw2&Hp2&Hm2); [cbn [with_pages pages]; by rewrite lookup_insert_eq|done|].
  change (tb (with_lay s (with_pt (lay s) alloced))) with alloced. rewrite E1. cbn [res_bind]. rewrite E2. cbn [res_bind Z.eqb Assert].
  rewrite (free_page_ok _ (pt_entry_paddr e) d); [|cbn [lay pt with_tables emit with_pt]; rewrite Hp2; cbn [with_pages pages]; by rewrite lookup_insert_ne|done..].
  rewrite !decide_False by done. cbn [res_bind]. eexists. split; [done|].
  cbn [with_tables lay pt emit with_pt mem with_lay log tree vmas fst_]. rewrite Hp2. cbn [with_pages pages].
  set (ps := <[pt_entry_paddr e := Page (flags d) (refcount d - 1) (order d)]> (<[p := fresh_page]> (pages (tb s)))).
  match goal with |- confined _ ?x _ _ _ ∧ _ => set (s' := x) end.
  assert (Hps : pages (tb s') = ps) by reflexivity. assert (Hmem : mem s' = <[p := data]> (mem s)) by reflexivity.
  assert (Hpsp : ps !! p = Some fresh_page) by (unfold ps; by rewrite lookup_insert_ne, lookup_insert_eq by done).
  assert (Hmade := made_for vm p Hpp Hf). destruct Hmade as (Hent&Hperm&Hpa).
  assert (Hlp : live s' p).
  { exists fresh_page, data. rewrite Hps, Hmem, lookup_insert_eq. by unfold REFCOUNT_MAX, INT32_MAX. }
  assert (Hlive : ∀ q, live s q → live s' q).
  { intros q Hq. pose proof (live_old q Hq) as Hqp. destruct Hq as (dq&dt&Hdq&Hfq&Hoq&Hrq&Hmq&Hlq).
    unfold live. rewrite Hps, Hmem, lookup_insert_ne by done. destruct (decide (q = pt_entry_paddr e)) as [->|Hqe].
    - rewrite Hd in Hdq. injection Hdq as <-. eexists _, dt. unfold ps. rewrite lookup_insert_eq. split; [done|]. cbn [flags order refcount].
      repeat split; try done; lia.
    - exists dq, dt. unfold ps. by rewrite !lookup_insert_ne. }
  assert (Hms : ∀ c, user_page c → at_page mapped (tb s') c = if decide (c = b) then Some (pt_entry_make p (vma_to_pte (vm_flags vm))) else at_page mapped (tb s) c)
    by exact Hm2.
  split.
  - split.
    + apply (inv_tables (lay s)); [done..|]. apply wf_pages_mono; [done|]. intros q Hq. rewrite Hp2 in Hq. by apply insert_some.
    + eapply (agree_step s _ l b); [done|done|done| |exact Hms]. intros e' [= <-]. by rewrite Hpa.
    + intros c Hc Hcb. by rewrite Hms, decide_False.
    + intros q Hq. rewrite Hmem, lookup_insert_ne; [done|]. intros <-. by eapply Hq.
  - exists p, data. unfold shows, pgt_leaf, pgt_perm. rewrite Hms, He, decide_True by done. cbn [fmap option_fmap option_map]. rewrite Hpa, Hperm.
    split; [done|]. split; [by rewrite Hmem, lookup_insert_eq|]. split; [done|]. split.
    + eexists. split; [done|]. apply (proj1 (grant_access _ _ Hf Hacc Hok)).
    + intros _. unfold pgt_shared. by rewrite Hps, Hpsp.
Qed.

(** Giving the new page back. *)
Lemma undo_page s2 data :
  tree (lay s2) = tree (lay s) → vmas (lay s2) = vmas (lay s) → fst_ (lay s2) = fst_ (lay s) → mem s2 = <[p := data]> (mem s) →
  wf (tb s2) → (∀ i j k, mapped (tb s2) i j k = mapped (tb s) i j k) → pages (tb s2) !! p = Some fresh_page →
  (∀ q, is_Some (pages (tb s) !! q) → pages (tb s2) !! q = pages (tb s) !! q) →
  ∃ s', free_page CONFIG_DEBUG_REFCOUNT s2 p = Ok s' ∧ confined s s' l (Some (p, fresh_page)) b ∧
    at_page mapped (tb s') b = at_page mapped (tb s) b.
Proof.
  intros Ht Hv Hfs Hm Hw Hmap Hpg Hps. destruct Hp as (_&Hpp&Hpt&Hpn&Hpm).
  rewrite (free_page_ok s2 p fresh_page Hpg) by (done || unfold REFCOUNT_MAX, INT32_MAX; simpl; lia).
  eexists. split; [done|]. rewrite !decide_True by done.
  match goal with |- confined _ ?x _ _ _ ∧ _ => set (s' := x) end.
  assert (Hps' : pages (tb s') = delete p (pages (tb s2))) by reflexivity.
  assert (Hmem : mem s' = mem s) by (cbn [s' mem]; rewrite Hm; by rewrite delete_insert_id).
  assert (Hms : ∀ i j k, mapped (tb s') i j k = mapped (tb s) i j k) by exact Hmap.
  split; [|by rewrite Hms]. split.
  - apply (inv_tables (lay s)); [done..|]. apply wf_pages; [done|]. intros i j k e Hi' Hme. rewrite Hmap in Hme.
    pose proof (ul_page _ _ (w_leaf _ wf_now _ _ _ _ Hi' Hme)) as Hpe. rewrite lookup_delete_ne; [by rewrite Hps|].
    intros Heq. rewrite <-Heq, Hpn in Hpe. by destruct Hpe.
  - eapply (agree_step s s' l b v vm (at_page mapped (tb s) b)); [done| |done| |].
    + intros q Hq. pose proof (live_old q Hq). destruct Hq as (d&dt&Hd&?&?&?&?&?). exists d, dt. rewrite Hps', Hmem, lookup_delete_ne by done.
      rewrite Hps by (rewrite Hd; by eexists). done.
    + intros e He. destruct (g_area _ _ Hg b e Hb He) as (v'&vm'&?&?). simplify_eq. split; [done|].
      destruct (g_frame _ _ Hg b e Hb He) as (d&dt&Hd&?&?&?&?&?). exists d, dt. rewrite Hps', Hmem, lookup_delete_ne by congruence.
      rewrite Hps by (rewrite Hd; by eexists). done.
    + intros c Hc. rewrite Hms. by case_decide; subst.
  - intros c Hc _. apply Hms.
  - intros q _. by rewrite Hmem.
Qed.

Lemma resolved_new a1 a2 :
  at_page mapped (tb s) b = None → supplies s (Some (p, fresh_page)) a1 a2 →
  ∃ ret s', fault_new CONFIG_DEBUG_REFCOUNT read (alloc_page s (Some (p, fresh_page))).2 vm b p a1 a2 = Ok (ret, s') ∧
    confined s s' l (Some (p, fresh_page)) b ∧
    if decide (ret = 0) then resolved s s' vm b access
    else at_page mapped (tb s') b = None ∧ (vm_file vm ≠ None ∨ a1 = inl ret ∨ a2 = inl ret).
Proof.
  intros Hn [_ [Ha1 Hd1] [Ha2 Hd2] Hdf]. destruct Hp as (_&Hpp&Hpt&Hpn&Hpm). pose proof Hb as [Hb1 _].
  destruct (fill_page_ok read content Hread vm b) as (ret0&data&Ef&Hlen&_&Hfill&Hfe); [unfold UVADDR_START in *; lia|].
  unfold fault_new. rewrite Ef. cbn [res_bind alloc_page snd]. unfold truth at 1. destruct (Z.eqb_spec ret0 0) as [H0|H0]; cbn [negb].
  2: { edestruct (undo_page (set_frame (with_lay s (with_pt (lay s) alloced)) p data) data) as (s'&->&Hc&Hm);
         [done..|apply alloced_wf|done|cbn; by rewrite lookup_insert_eq| |].
       - intros q [d Hq]. cbn. rewrite lookup_insert_ne; [done|congruence].
       - exists ret0, s'. split; [done|]. split; [done|]. rewrite decide_False by done. rewrite Hm. auto. }
  cbn [set_frame lay]. change (tb (with_lay s (with_pt (lay s) alloced))) with alloced.
  rewrite pgtable_map_page_eq by done.
  destruct (map_page_ok alloced b p (vm_flags vm) a1 a2 alloced_wf Hb Hpp) as (ret&t'&E&Hw'&Hr);
    [cbn [with_pages pages]; by rewrite lookup_insert_eq|done..|].
  destruct (map_page_frame _ _ _ _ _ _ _ _ alloced_wf Ha1 Ha2 E) as [_ Hfr]. rewrite E. cbn [res_bind].
  assert (Hpg : pages t' !! p = Some fresh_page).
  { destruct (Hfr p) as [-> _]; [intros Hg1; by destruct (proj2 (Hd1 _ Hg1) fresh_page)|intros Hg2; by destruct (proj2 (Hd2 _ Hg2) fresh_page)|].
    cbn [with_pages pages]. by rewrite lookup_insert_eq. }
  assert (Hpo : ∀ q, is_Some (pages (tb s) !! q) → pages t' !! q = pages (tb s) !! q).
  { intros q Hq. destruct (Hfr q) as [-> _].
    - intros [Hx _]%Hd1. rewrite Hx in Hq. by destruct Hq.
    - intros [Hx _]%Hd2. rewrite Hx in Hq. by destruct Hq.
    - cbn [with_pages pages]. rewrite lookup_insert_ne; [done|]. intros ->. rewrite Hpn in Hq. by destruct Hq. }
  match goal with |- context [with_tables ?x t' ?es] => set (s2 := with_tables x t' es) end.
  unfold truth. destruct (Z.eqb_spec ret 0) as [->|Hne]; cbn [negb].
  - destruct Hr as [(_&_&Hm)|([[Hx _]|[->| ->]]&_)]; [|done..].
    exists 0, s2. split; [done|]. destruct (made_for vm p Hpp Hf) as (Hent&Hperm&Hpa).
    assert (Hlive : ∀ q, live s q → live s2 q).
    { intros q Hq. pose proof (live_old q Hq) as Hqp. destruct Hq as (d&dt&Hd&?&?&?&Hmq&?). exists d, dt. cbn [s2 with_tables lay pt emit with_pt mem set_frame with_lay].
      rewrite Hpo by (rewrite Hd; by eexists). by rewrite lookup_insert_ne. }
    split; [split|].
    + by apply (inv_tables (lay s)).
    + eapply (agree_step s s2 l b v vm); [done|done|done| |exact Hm]. intros e' [= <-]. split; [done|]. rewrite Hpa.
      exists fresh_page, data. cbn [s2 with_tables lay pt emit with_pt mem set_frame with_lay]. rewrite lookup_insert_eq. by unfold REFCOUNT_MAX, INT32_MAX.
    + intros c Hc Hcb. cbn [s2 with_tables lay pt emit with_pt]. by rewrite Hm, decide_False.
    + intros q Hq. cbn [s2 with_tables mem set_frame with_lay]. rewrite lookup_insert_ne; [done|]. intros <-. by eapply Hq.
    + rewrite decide_True by done. exists p, data. unfold shows, pgt_leaf, pgt_perm. cbn [s2 with_tables lay pt emit with_pt mem set_frame with_lay].
      rewrite Hm, Hn, decide_True by done. cbn [fmap option_fmap option_map]. rewrite Hpa, Hperm, lookup_insert_eq. split; [done|]. split; [done|].
      split; [by apply Hfill|]. split; [|intros _; unfold pgt_shared; by rewrite Hpg].
      eexists. split; [done|]. apply (proj1 (grant_access _ _ Hf Hacc Hok)).
  - destruct Hr as [(->&_)|(Hr&Hm)]; [done|].
    edestruct (undo_page s2 data) as (s'&->&Hc&Hm'); [done..|]. exists ret, s'. split; [done|]. split; [done|].
    rewrite decide_False by done. rewrite Hm'. split; [done|]. right. destruct Hr as [[_ [e He]]|?]; [|done].
    exfalso. by assert (Some e = None) by (rewrite <-He, <-Hn; done).
Qed.
End cases.

Lemma area_at_page l ext m x addr :
  inv (PT := pgt) m l [] ext → area_at addr l = Some x →
  user_page (addr - addr mod PAGE_SIZE) ∧ area_at (addr - addr mod PAGE_SIZE) l = Some x ∧ 0 ≤ vm_flags x.2 < 8.
Proof.
  intros Hi Hx. pose proof (area_at_Some _ _ _ Hx) as [Hin Hc]. destruct x as [v vm]. destruct (i_linked _ _ _ _ Hi v vm Hin) as [_ Hw].
  unfold vma_wf in Hw. unfold covers in Hc. simpl in *.
  assert (Hr : vm_start vm ≤ addr - addr mod PAGE_SIZE ≤ addr).
  { unfold PAGE_SIZE in *. Z.to_euclidean_division_equations; lia. }
  split; [|split; [|lia]].
  - unfold user_page. split; [lia|]. rewrite Zminus_mod, Zmod_mod, Z.sub_diag. done.
  - apply list_elem_of_split in Hin as (l1&l2&->). apply area_at_unique; [apply (i_order _ _ _ _ Hi)|]. unfold covers. simpl. lia.
Qed.

Lemma paddr_u64 e : u64 (pt_entry_paddr e + 0) = pt_entry_paddr e.
Proof. rewrite Z.add_0_r. apply u64_small. unfold pt_entry_paddr. apply u64_range. Qed.

(** C2: page faults.  [handle_page_fault] on a consistent address space returns.
    Without an area at the address, or one that does not allow the access, it
    says so and changes nothing.  Otherwise nothing but the faulting page and a
    new frame changes, the address space stays consistent, and frames in use
    keep their contents.  A result of 0 means that the access is possible now
    and that the page shows what it showed before, or, when it was not there,
    the bytes of the file in the file-backed part of the area and zeros
    elsewhere; after a write fault no one else uses its frame.  Any other result
    is the failure of an allocation or of reading the file, and leaves the
    mapping as it was. *)
Theorem handle_page_fault_spec CONFIG_DEBUG_REFCOUNT read content ext s l addr access a a1 a2 :
  reads_content read content → inv (lay s) l [] ext → agree s l → supplies s a a1 a2 → in_u64 addr →
  access ∈ [VM_READ; VM_WRITE; VM_EXEC] →
  ∃ ret s', handle_page_fault CONFIG_DEBUG_REFCOUNT read s addr access a a1 a2 = Ok (ret, s') ∧
    match area_at addr l with
    | None => ret = - EFAULT ∧ s' = s
    | Some (_, vm) =>
        if decide (Z.land (vm_flags vm) access = 0) then ret = - EACCES ∧ s' = s
        else let b := addr - addr mod PAGE_SIZE in
          confined ext s s' l a b ∧
          if decide (ret = 0) then resolved content s s' vm b access
          else at_page mapped (tb s') b = at_page mapped (tb s) b ∧
               (a = None ∧ ret = - ENOMEM ∨ vm_file vm ≠ None ∨ a1 = inl ret ∨ a2 = inl ret)
    end.
Proof.
  intros Hread Hi Hg Hsu Hu Hacc. unfold handle_page_fault. rewrite (vma_find_spec _ _ _ _ _ Hi). cbn [res_bind].
  destruct (area_at addr l) as [[v vm]|] eqn:Hvm; cbn [fmap option_fmap option_map fst].
  2: { exists (- EFAULT), s. done. }
  destruct (area_at_page _ _ _ _ _ Hi Hvm) as (Hb&Hvb&Hf). pose proof (area_at_Some _ _ _ Hvm) as [Hin _].
  rewrite (inv_load _ _ _ _ _ _ Hi) by (rewrite app_nil_r; done). cbn [res_bind]. unfold truth at 1. simpl in Hf.
  destruct (decide (Z.land (vm_flags vm) access = 0)) as [H0|H0].
  { rewrite H0. exists (- EACCES), s. done. }
  replace (Z.land (vm_flags vm) access =? 0) with false by (symmetry; by apply Z.eqb_neq). cbn [negb]. 
  assert (Hal : ALIGN_DOWN addr PAGE_SIZE = addr - addr mod PAGE_SIZE)
    by (change PAGE_SIZE with (2 ^ 12); apply ALIGN_DOWN_spec; (done || lia)). rewrite !Hal.
  set (b := addr - addr mod PAGE_SIZE) in *. pose proof (wf_now ext s l Hi) as Hw. cbn zeta.
  rewrite pgtable_lookup_ok by (done || apply Hb). replace (b - b mod PAGE_SIZE) with b by (destruct Hb as [_ ->]; lia). destruct Hb as [Hb1 Hb2].
  rewrite Hb2. assert (Hb : user_page b) by done. cbn [res_bind].
  destruct (at_page mapped (tb s) b) as [e|] eqn:He.
  - destruct (g_area _ _ Hg b e Hb He) as (v'&vm'&Hvm'&Hv&_). rewrite Hvb in Hvm'. injection Hvm' as <- <-. rewrite Hv.
    replace (vm_flags vm =? 0) with false by (symmetry; apply Z.eqb_neq; intros Hz; by rewrite Hz in H0). cbn [negb]. rewrite paddr_u64.
    destruct (decide (access = VM_WRITE)) as [Hwr|Hwr].
    2: { replace (truth (Z.land access VM_WRITE)) with false.
         2: { rewrite !elem_of_cons in Hacc. destruct Hacc as [->|[->|[->|Hc]]]; [done..|by apply elem_of_nil in Hc]. }
         cbn [negb]. exists 0, s. split; [done|]. split; [by apply confined_refl|]. rewrite decide_True by done. by eapply resolved_present. }
    replace (truth (Z.land access VM_WRITE)) with true by by rewrite Hwr. cbn [negb]. destruct (g_frame _ _ Hg b e Hb He) as (d&data&Hd&Hfl&Ho&Hrc&_).
    rewrite Hd. cbn [deref res_bind]. unfold refcount_read. rewrite u32_small by (unfold in_u32, REFCOUNT_MAX, INT32_MAX in *; lia).
    destruct (Z.eqb_spec (refcount d) 1) as [H1|H1].
    + destruct (resolved_protect content ext s l v vm b access Hi Hg Hb Hvb Hf Hacc H0 e d He Hd H1) as (t&->&[? ? ? Hc]&Hres).
      cbn [res_bind]. eexists 0, _. split; [done|]. rewrite decide_True by done. split; [|exact Hres]. split; [done..|]. intros q _. by apply Hc.
    + destruct a as [[p d0]|]; cbn [alloc_page].
      2: { exists (- ENOMEM), s. split; [done|]. split; [by apply confined_refl|]. rewrite decide_False by done. auto. }
      pose proof (su_page _ _ _ _ Hsu) as Hp. assert (d0 = Page PG_ALLOCATED 1 0) as -> by apply Hp.
      destruct (resolved_copy CONFIG_DEBUG_REFCOUNT content ext s l v vm b access Hi Hg Hb Hvb Hf Hacc H0 p Hp e d a1 a2 He Hd H1) as (s'&E&Hc&Hres).
      cbn [alloc_page snd] in E. rewrite E. exists 0, s'. split; [done|]. by rewrite decide_True.
  - rewrite Z.eqb_refl. cbn [Assert res_bind]. destruct a as [[p d0]|]; cbn [alloc_page].
    2: { exists (- ENOMEM), s. split; [done|]. split; [by apply confined_refl|]. rewrite decide_False by done. auto. }
    pose proof (su_page _ _ _ _ Hsu) as Hp. assert (d0 = Page PG_ALLOCATED 1 0) as -> by apply Hp.
    destruct (resolved_new CONFIG_DEBUG_REFCOUNT read content Hread ext s l v vm b access Hi Hg Hb Hvb Hf Hacc H0 p Hp a1 a2 He Hsu) as (ret&s'&E&Hc&Hres).
    cbn [alloc_page snd] in E. rewrite E. exists ret, s'. split; [done|]. split; [done|].
    case_decide; [done|]. destruct Hres as [Hn Hwhy]. by auto.
Qed.

(** ** A write to an untouched page *)

Definition demo_as : aspace := As demo_mm ∅.
Definition no_read : positive → Z → Z → Z + list Z := λ _ _ _, inl (- EIO).

Lemma demo_tables : tb demo_as = demo_pgt.
Proof. vm_compute. reflexivity. Qed.

Lemma demo_agree l : agree demo_as l.
Proof.
  split; intros b e Hb; rewrite demo_tables; unfold demo_pgt, mapped, leaf_at, pte_at; by rewrite empty_pmd.
Qed.

Lemma demo_supplies :
  supplies demo_as (Some (0x7000, Page PG_ALLOCATED 1 0)) (inr (0x8000, frame)) (inr (0x9000, frame)).
Proof.
  assert (Hp : ∀ q, q ∈ [0x7000; 0x8000; 0x9000] → page_paddr q ∧ tabs (tb demo_as) !! q = None ∧ pages (tb demo_as) !! q = None).
  { rewrite demo_tables. apply Forall_forall. repeat constructor; (lia || reflexivity). }
  split; [|split|split|done].
  - destruct (Hp 0x7000) as (?&?&?); [set_solver|]. by repeat split.
  - destruct (Hp 0x8000) as (?&?&?); [set_solver|]. by split.
  - intros q Hq. cbn [given] in Hq. subst q. destruct (Hp 0x8000) as (?&?&?); [set_solver|]. split; [done|intros d Hd; discriminate Hd].
  - destruct (Hp 0x9000) as (?&?&?); [set_solver|]. by split.
  - intros q Hq. cbn [given] in Hq. subst q. destruct (Hp 0x9000) as (?&?&?); [set_solver|]. split; [done|intros d Hd; discriminate Hd].
Qed.

Lemma handle_page_fault_spec_witness :
  ∃ s', handle_page_fault false no_read demo_as 0x21008 VM_WRITE (Some (0x7000, Page PG_ALLOCATED 1 0)) (inr (0x8000, frame)) (inr (0x9000, frame))
      = Ok (0, s') ∧
    ∃ p data, pgt_leaf (tb s') 0x21000 = Some p ∧ mem s' !! p = Some data ∧ data !! 8%nat = Some 0 ∧ pgt_shared (tb s') p = false.
Proof.
  destruct demo_inv as (l&Hi&_&_&Hv).
  destruct (handle_page_fault_spec false no_read (λ _ _, 0) no_ext demo_as l 0x21008 VM_WRITE
    (Some (0x7000, Page PG_ALLOCATED 1 0)) (inr (0x8000, frame)) (inr (0x9000, frame))) as (ret&s'&E&Hr);
    [by intros f pos n Hn|exact Hi|apply demo_agree|apply demo_supplies|unfold in_u64; lia|set_solver|].
  specialize (Hv 0x21008). rewrite decide_True in Hv by lia. unfold view in Hv.
  destruct (area_at 0x21008 l) as [[v vm]|] eqn:Ea; [|done]. unfold vm_view in Hv. cbn [fmap option_fmap option_map snd] in Hv.
  injection Hv as Hfl Hfile. rewrite Hfl in Hr. rewrite decide_False in Hr by done. cbv zeta in Hr. destruct Hr as [_ Hr].
  assert (ret = 0) as -> by (apply (f_equal (λ r, match r with Ok (x, _) => x | _ => 1 end)) in E; vm_compute in E; by rewrite <-E).
  rewrite decide_True in Hr by done. destruct Hr as (p&data&Hl&Hm&Hs&_&Hsh). exists s'. split; [exact E|].
  exists p, data. split; [exact Hl|]. split; [exact Hm|]. split; [|by apply Hsh].
  unfold shows in Hs. rewrite demo_tables in Hs. unfold pgt_leaf, demo_pgt, mapped, leaf_at, pte_at in Hs. rewrite empty_pmd in Hs.
  change 8%nat with (Z.to_nat 8). rewrite (Hs 8) by (unfold PAGE_SIZE; lia). unfold backing. by destruct (vm_file vm).
Defined.
