(* ===== verification/Virtqueue.v ===== *)
(** * Virtqueues: [drivers/virtio/virtqueue.c]

    The descriptor table, the available ring the driver writes and the used ring
    the device writes.  Operations run under [vq->lock]; between them the device
    may change [used].  The memory the rings live in is allocated elsewhere.

    The device reads the table and the available ring while [vq_add] runs, so
    [vq_add] is the sequence of its stores, with [dma_wmb()] as an element of the
    sequence: it returns the stores it made along with the queue they lead to.
    [seen] says which of them the device may have observed at a moment: any
    selection, except that nothing after a barrier shows before everything in
    front of it. *)
From stdpp Require Import base tactics numbers list sets.
From S2P Require Import Prelude.

Definition VRING_DESC_F_NEXT : Z := 1.
Definition VRING_DESC_F_WRITE : Z := 2.

Record vq_sg := Sg { sg_addr : Z; sg_len : Z }.
Record vring_desc := VDesc { d_addr : Z; d_len : Z; d_flags : Z; d_next : Z }.
Record vring_avail := Avail { av_idx : Z; av_ring : list Z }.
Record vring_used := Used { us_idx : Z; us_ring : list (Z * Z) }.     (* id, len *)

Record virtqueue := Vq {
  num : Z;
  desc : list vring_desc;
  avail : vring_avail;
  used : vring_used;
  free_head : Z;
  num_free : Z;
  avail_idx : Z;
  last_used_idx : Z;
  cookies : list Z;
}.

(** The state [virtqueue_create] leaves in zeroed memory:
    [desc[i].next = i + 1]. *)
Definition virtqueue_create (n : Z) : virtqueue :=
  Vq n ((λ i, VDesc 0 0 0 (u16 (i + 1))) <$> seqZ 0 n) (Avail 0 (replicate (Z.to_nat n) 0))
     (Used 0 (replicate (Z.to_nat n) (0, 0))) 0 n 0 0 (replicate (Z.to_nat n) 0).

(** ** Stores *)

(** An assignment to a field of the queue, a descriptor or a ring, or the write
    barrier. *)
Inductive vstore :=
  | desc_addr (i v : Z) | desc_len (i v : Z) | desc_flags (i v : Z)
  | put_free_head (v : Z) | put_num_free (v : Z) | put_cookie (i v : Z)
  | ring_slot_at (i v : Z) | put_avail_idx (v : Z) | avail_publish (v : Z)
  | dma_wmb.

Definition with_desc (vq : virtqueue) (ds : list vring_desc) : virtqueue :=
  Vq (num vq) ds (avail vq) (used vq) (free_head vq) (num_free vq) (avail_idx vq) (last_used_idx vq) (cookies vq).
Definition with_avail (vq : virtqueue) (av : vring_avail) : virtqueue :=
  Vq (num vq) (desc vq) av (used vq) (free_head vq) (num_free vq) (avail_idx vq) (last_used_idx vq) (cookies vq).

Definition desc_update (vq : virtqueue) (i : Z) (f : vring_desc → vring_desc) : res virtqueue :=
  let! d := arr_get (desc vq) (Z.to_nat i) in
  let! ds := arr_set (desc vq) (Z.to_nat i) (f d) in
  Ok (with_desc vq ds).

(** One store reaching memory. *)
Definition perform (vq : virtqueue) (x : vstore) : res virtqueue :=
  match x with
  | desc_addr i v => desc_update vq i (λ d, VDesc v (d_len d) (d_flags d) (d_next d))
  | desc_len i v => desc_update vq i (λ d, VDesc (d_addr d) v (d_flags d) (d_next d))
  | desc_flags i v => desc_update vq i (λ d, VDesc (d_addr d) (d_len d) v (d_next d))
  | put_free_head v =>
      Ok (Vq (num vq) (desc vq) (avail vq) (used vq) (u16 v) (num_free vq) (avail_idx vq) (last_used_idx vq) (cookies vq))
  | put_num_free v =>
      Ok (Vq (num vq) (desc vq) (avail vq) (used vq) (free_head vq) (u16 v) (avail_idx vq) (last_used_idx vq) (cookies vq))
  | put_cookie i v =>
      let! cs := arr_set (cookies vq) (Z.to_nat i) v in
      Ok (Vq (num vq) (desc vq) (avail vq) (used vq) (free_head vq) (num_free vq) (avail_idx vq) (last_used_idx vq) cs)
  | ring_slot_at i v =>
      let! r := arr_set (av_ring (avail vq)) (Z.to_nat i) (u16 v) in
      Ok (with_avail vq (Avail (av_idx (avail vq)) r))
  | put_avail_idx v =>
      Ok (Vq (num vq) (desc vq) (avail vq) (used vq) (free_head vq) (num_free vq) (u16 v) (last_used_idx vq) (cookies vq))
  | avail_publish v => Ok (with_avail vq (Avail (u16 v) (av_ring (avail vq))))
  | dma_wmb => Ok vq
  end.

(** The store of the running code: it sees the effect at once and appends the
    store to those made so far. *)
Definition store (s : virtqueue * list vstore) (x : vstore) : res (virtqueue * list vstore) :=
  let! vq := perform s.1 x in Ok (vq, s.2 ++ [x]).

(** The assignments to descriptor [at_] for buffer [i]. *)
Definition desc_fill (s : virtqueue * list vstore) (at_ : Z) (g : vq_sg) (i n_out count : Z) : res (virtqueue * list vstore) :=
  let! s := store s (desc_addr at_ (sg_addr g)) in
  let! s := store s (desc_len at_ (sg_len g)) in
  let! s := store s (desc_flags at_ (if i <? n_out then 0 else VRING_DESC_F_WRITE)) in
  if i + 1 <? count then
    let! d := arr_get (desc s.1) (Z.to_nat at_) in
    store s (desc_flags at_ (Z.lor (d_flags d) VRING_DESC_F_NEXT))
  else Ok s.

(** The loop over the buffers: [n] are left, [i] is the index of the first. *)
Fixpoint add_loop (n : nat) (s : virtqueue * list vstore) (sg : list vq_sg) (i n_out count next : Z) :
    res (virtqueue * list vstore * Z) :=
  match n with
  | O => Ok (s, next)
  | S n =>
      let! d := arr_get (desc s.1) (Z.to_nat next) in
      let! g := arr_get sg (Z.to_nat i) in
      let! s := desc_fill s next g i n_out count in
      add_loop n s sg (i + 1) n_out count (d_next d)
  end.

(** The result, the queue afterwards and the stores in the order made. *)
Definition vq_add (vq : virtqueue) (sg : list vq_sg) (n_out n_in cookie : Z) : res (Z * virtqueue * list vstore) :=
  let count := u32 (n_out + n_in) in
  if count >? num_free vq then Ok (- ENOSPC, vq, []) else
  let head := free_head vq in
  let! (s, next) := add_loop (Z.to_nat count) (vq, []) sg 0 n_out count head in
  let! s := store s (put_free_head next) in
  let! s := store s (put_num_free (num_free s.1 - count)) in
  let! s := store s (put_cookie head cookie) in
  let! s := store s (ring_slot_at (Z.land (avail_idx s.1) (num s.1 - 1)) head) in
  let! s := store s dma_wmb in
  let! s := store s (put_avail_idx (avail_idx s.1 + 1)) in
  let! s := store s (avail_publish (avail_idx s.1)) in
  Ok (0, s.1, s.2).

(** [while (desc[tail].flags & VRING_DESC_F_NEXT)] *)
Fixpoint tail_loop (fuel : nat) (desc : list vring_desc) (tail num_free : Z) : res (Z * Z) :=
  let! d := arr_get desc (Z.to_nat tail) in
  if truth (Z.land (d_flags d) VRING_DESC_F_NEXT) then
    match fuel with
    | O => Loop
    | S fuel' => tail_loop fuel' desc (d_next d) (u16 (num_free + 1))
    end
  else Ok (tail, num_free).

(** The cookie (0 when there is none) and the length the device stored. *)
Definition vq_get_buf (vq : virtqueue) : res (Z * Z * virtqueue) :=
  let pending := u16 (us_idx (used vq) - last_used_idx vq) in
  if pending =? 0 then Ok (0, 0, vq) else
  let! _ := Assert (pending <=? u16 (avail_idx vq - last_used_idx vq)) in
  let! elem := arr_get (us_ring (used vq)) (Z.to_nat (Z.land (last_used_idx vq) (num vq - 1))) in
  let head := elem.1 in
  let! _ := Assert (head <? num vq) in
  let! cookie := arr_get (cookies vq) (Z.to_nat head) in
  let! _ := Assert (truth cookie) in
  let! cookies' := arr_set (cookies vq) (Z.to_nat head) 0 in
  let! (tail, nf) := tail_loop (length (desc vq)) (desc vq) head (num_free vq) in
  let! d := arr_get (desc vq) (Z.to_nat tail) in
  let! desc' := arr_set (desc vq) (Z.to_nat tail) (VDesc (d_addr d) (d_len d) (d_flags d) (free_head vq)) in
  Ok (cookie, elem.2,
      Vq (num vq) desc' (avail vq) (used vq) (u16 head) (u16 (nf + 1)) (avail_idx vq) (u16 (last_used_idx vq + 1)) cookies').

(** ** Chains of descriptors *)

Abbreviation slot l x := (l !! Z.to_nat x).

(** Every index of the list is followed by the next one. *)
Fixpoint links (desc : list vring_desc) (c : list Z) : Prop :=
  match c with
  | a :: (b :: _) as c' => (∃ d, slot desc a = Some d ∧ d_next d = b) ∧ links desc c'
  | _ => True
  end.

(** A request in flight: its descriptors in order, each but the last flagged as
    continued. *)
Fixpoint inflight (desc : list vring_desc) (c : list Z) : Prop :=
  match c with
  | [] => False
  | a :: c' => ∃ d, slot desc a = Some d ∧
      match c' with
      | [] => truth (Z.land (d_flags d) VRING_DESC_F_NEXT) = false
      | b :: _ => truth (Z.land (d_flags d) VRING_DESC_F_NEXT) = true ∧ d_next d = b ∧ inflight desc c'
      end
  end.

(** What the device finds when it follows a chain: address, length, and whether
    it may write. *)
Fixpoint device_walk (fuel : nat) (desc : list vring_desc) (a : Z) : option (list (Z * Z * bool)) :=
  match fuel with
  | O => None
  | S fuel' =>
      d ← slot desc a;
      let x := (d_addr d, d_len d, truth (Z.land (d_flags d) VRING_DESC_F_WRITE)) in
      if truth (Z.land (d_flags d) VRING_DESC_F_NEXT) then (λ l, x :: l) <$> device_walk fuel' desc (d_next d) else Some [x]
  end.

Lemma links_app desc c1 c2 : links desc (c1 ++ c2) → links desc c1 ∧ links desc c2.
Proof.
  induction c1 as [|a [|b c1] IH]; intros H; [done| |].
  - split; [done|]. destruct c2; [done|apply H].
  - destruct H as [H1 H2]. destruct (IH H2). done.
Qed.

Lemma inflight_links desc c : inflight desc c → links desc c.
Proof. induction c as [|a [|b c] IH]; [done..|]. intros (d&Hd&_&Hn&Hc). split; [by exists d|by apply IH]. Qed.

Lemma links_ext desc desc' c :
  (∀ a d, a ∈ c → slot desc a = Some d → ∃ d', slot desc' a = Some d' ∧ d_next d' = d_next d) → links desc c → links desc' c.
Proof.
  induction c as [|a [|b c] IH]; intros Hx; [done..|]. intros [(d&Hd&Hn) Hc]. split.
  - destruct (Hx a d) as (d'&?&?); [by left|done|]. exists d'. split; [done|congruence].
  - apply IH; [|done]. intros x d0 Hin. apply Hx. by right.
Qed.

Lemma inflight_ext desc desc' c : (∀ a, a ∈ c → slot desc' a = slot desc a) → inflight desc c → inflight desc' c.
Proof.
  induction c as [|a [|b c] IH]; intros Hx; [done|..].
  - intros (d&Hd&Hf). exists d. rewrite Hx by set_solver. done.
  - intros (d&Hd&Hf&Hn&Hc). exists d. rewrite Hx by set_solver. do 3 (split; [done|]). apply IH; [|done]. intros x Hin. apply Hx. by right.
Qed.

Lemma walk_ext desc desc' fuel a c :
  (∀ x, x ∈ a :: c → slot desc' x = slot desc x) → inflight desc (a :: c) → device_walk fuel desc' a = device_walk fuel desc a.
Proof.
  revert a c. induction fuel as [|fuel IH]; intros a c Hx; [done|]. intros (d&Hd&Hc). cbn [device_walk]. rewrite Hx, Hd by by left.
  cbn [mbind option_bind]. destruct c as [|b c]; [by rewrite Hc|]. destruct Hc as (->&->&Hc). f_equal. apply (IH b c); [|done].
  intros x Hin. apply Hx. by right.
Qed.

(** ** Building a chain *)

(** The flags of buffer [i] of [count], [n_out] of which the device reads. *)
Definition buf_flags (n_out count i : Z) : Z :=
  let f := if i <? n_out then 0 else VRING_DESC_F_WRITE in
  if i + 1 <? count then Z.lor f VRING_DESC_F_NEXT else f.

Lemma buf_flags_next n_out count i : truth (Z.land (buf_flags n_out count i) VRING_DESC_F_NEXT) = (i + 1 <? count).
Proof. unfold buf_flags. by destruct (i <? n_out), (i + 1 <? count). Qed.
Lemma buf_flags_write n_out count i : truth (Z.land (buf_flags n_out count i) VRING_DESC_F_WRITE) = negb (i <? n_out).
Proof. unfold buf_flags. by destruct (i <? n_out), (i + 1 <? count). Qed.

Lemma slot_insert {A} (l : list A) a b x :
  0 ≤ a → 0 ≤ b → (Z.to_nat b < length l)%nat → slot (<[Z.to_nat b := x]> l) a = if decide (a = b) then Some x else slot l a.
Proof.
  intros Ha Hb Hl. case_decide as E; [subst; by rewrite list_lookup_insert_eq|]. rewrite list_lookup_insert_ne; [done|]. lia.
Qed.

(** ** What the device may have observed *)

(** The memory after the stores of [l]. *)
Fixpoint stores (vq : virtqueue) (l : list vstore) : res virtqueue :=
  match l with
  | [] => Ok vq
  | x :: l => let! vq := perform vq x in stores vq l
  end.

(** [l] can be what is visible of the stores [tr] at one moment: all of a first
    part, any of the stores of a second part without a barrier, none of the rest. *)
Definition seen (tr l : list vstore) : Prop :=
  ∃ t1 t2 t3 l2, tr = t1 ++ t2 ++ t3 ∧ (dma_wmb ∉ t2) ∧ l2 `sublist_of` t2 ∧ l = t1 ++ l2.

Lemma stores_app vq l1 l2 w : stores vq l1 = Ok w → stores vq (l1 ++ l2) = stores w l2.
Proof.
  revert vq. induction l1 as [|x l1 IH]; intros vq; cbn [stores app]; [by intros [= ->]|].
  destruct (perform vq x); try discriminate. cbn [res_bind]. apply IH.
Qed.

(** With a barrier in the sequence, either nothing behind it is visible, or
    everything in front of it. *)
Lemma seen_barrier P E l :
  dma_wmb ∉ E → seen (P ++ dma_wmb :: E) l → l ⊆ P ++ [dma_wmb] ∨ ∃ l', l = P ++ dma_wmb :: l' ∧ l' `sublist_of` E.
Proof.
  intros HE (t1&t2&t3&l2&Htr&Ht2&Hl2&->). assert (Hsub : l2 ⊆ t2) by (intros x; by apply sublist_subseteq).
  destruct (app_eq_inv _ _ _ _ Htr) as [(k&->&Hk)|(k&->&Hk)].
  - left. destruct (app_eq_inv _ _ _ _ Hk) as [(k'&->&Hk')|(k'&->&Hk')]; [|set_solver].
    destruct k' as [|y k']; [set_solver|]. injection Hk' as <- _. set_solver.
  - destruct k as [|y k]; cbn [app] in Hk.
    + left. destruct t2 as [|y t2]; [|injection Hk as <- _; set_solver]. apply sublist_nil_r in Hl2 as ->. set_solver.
    + injection Hk as <- ->. right. exists (k ++ l2). split; [by rewrite <-app_assoc|].
      apply sublist_app; [done|]. by apply sublist_inserts_r.
Qed.

Lemma desc_update_Ok vq i f d :
  slot (desc vq) i = Some d → desc_update vq i f = Ok (with_desc vq (<[Z.to_nat i := f d]> (desc vq))).
Proof.
  intros Hd. unfold desc_update. rewrite (arr_get_Ok _ _ _ Hd). cbn [res_bind]. rewrite arr_set_Ok by by eapply lookup_lt_Some. done.
Qed.

Lemma with_desc_twice vq ds ds' : with_desc (with_desc vq ds) ds' = with_desc vq ds'.
Proof. done. Qed.

(** The stores that fill the descriptors [c]. *)
Definition desc_store (c : list Z) (x : vstore) : Prop :=
  match x with desc_addr i _ | desc_len i _ | desc_flags i _ => i ∈ c | _ => False end.

Lemma desc_store_mono c c' x : c ⊆ c' → desc_store c x → desc_store c' x.
Proof. destruct x; simpl; set_solver. Qed.

Section add.
Context (sg : list vq_sg) (n_out count : Z) (n : Z).

(** The table after descriptor [c !! j] has taken buffer [i + j]. *)
Record written (desc desc' : list vring_desc) (i : Z) (c : list Z) : Prop := {
  wr_len : length desc' = length desc;
  wr_other x : 0 ≤ x → x ∉ c → slot desc' x = slot desc x;
  wr_at j a : c !! j = Some a → ∃ d g, slot desc a = Some d ∧ sg !! (Z.to_nat i + j)%nat = Some g ∧
    slot desc' a = Some (VDesc (sg_addr g) (sg_len g) (buf_flags n_out count (i + Z.of_nat j)) (d_next d));
}.

(** Filling a descriptor: the stores made, which all go to it, lead to the same
    queue. *)
Lemma desc_fill_ok vq t a i d g :
  slot (desc vq) a = Some d →
  ∃ tr, let vq' := with_desc vq (<[Z.to_nat a := VDesc (sg_addr g) (sg_len g) (buf_flags n_out count i) (d_next d)]> (desc vq)) in
    desc_fill (vq, t) a g i n_out count = Ok (vq', t ++ tr) ∧ stores vq tr = Ok vq' ∧ Forall (desc_store [a]) tr.
Proof.
  intros Hd. pose proof (lookup_lt_Some _ _ _ Hd) as Hlt. cbv zeta.
  set (fl := if i <? n_out then 0 else VRING_DESC_F_WRITE).
  exists ([desc_addr a (sg_addr g); desc_len a (sg_len g); desc_flags a fl] ++
          if i + 1 <? count then [desc_flags a (Z.lor fl VRING_DESC_F_NEXT)] else []).
  unfold desc_fill, store, buf_flags. fold fl.
  assert (H1 : stores vq [desc_addr a (sg_addr g); desc_len a (sg_len g); desc_flags a fl] =
               Ok (with_desc vq (<[Z.to_nat a := VDesc (sg_addr g) (sg_len g) fl (d_next d)]> (desc vq)))).
  { cbn [stores perform]. rewrite (desc_update_Ok _ _ _ _ Hd). cbn [res_bind].
    do 2 (erewrite desc_update_Ok by (cbn [desc with_desc]; apply list_lookup_insert_eq; rewrite ?length_insert; done); cbn [res_bind]).
    unfold with_desc. cbn [desc num avail used free_head num_free avail_idx last_used_idx cookies d_addr d_len d_flags d_next].
    by rewrite !list_insert_insert_eq. }
  assert (H2 := H1). cbn [stores] in H2. cbn [fst snd].
  destruct (perform vq _) as [v1| | |] eqn:E1; try discriminate. cbn [res_bind fst snd] in H2 |- *.
  destruct (perform v1 _) as [v2| | |] eqn:E2; try discriminate. cbn [res_bind fst snd] in H2 |- *.
  destruct (perform v2 _) as [v3| | |] eqn:E3; try discriminate. cbn [res_bind fst snd] in H2 |- *. injection H2 as ->.
  rewrite <-!app_assoc. cbn [app]. destruct (i + 1 <? count).
  - rewrite (arr_get_Ok _ _ (VDesc (sg_addr g) (sg_len g) fl (d_next d))) by by apply list_lookup_insert_eq.
    cbn [res_bind d_flags]. cbn [perform]. erewrite desc_update_Ok by (cbn [desc with_desc]; by apply list_lookup_insert_eq).
    cbn [res_bind fst snd desc with_desc d_addr d_len d_next]. rewrite list_insert_insert_eq, <-!app_assoc.
    split; [done|]. split; [|repeat constructor; simpl; set_solver].
    refine (eq_trans (stores_app _ [_; _; _] [_] _ H1) _). cbn [stores perform]. erewrite desc_update_Ok by (cbn [desc with_desc]; by apply list_lookup_insert_eq).
    cbn [res_bind desc with_desc d_addr d_len d_next]. by rewrite list_insert_insert_eq.
  - split; [done|]. split; [done|]. repeat constructor; simpl; set_solver.
Qed.

Lemma add_loop_ok c F vq t i next :
  Z.of_nat (length (desc vq)) = n → NoDup (c ++ F) → Forall (λ x, 0 ≤ x < n) (c ++ F) → links (desc vq) (c ++ F) →
  (∀ a l, c ++ F = a :: l → next = a) → 0 ≤ i → (Z.to_nat i + length c ≤ length sg)%nat →
  ∃ desc' tr next', add_loop (length c) (vq, t) sg i n_out count next = Ok (with_desc vq desc', t ++ tr, next') ∧
    stores vq tr = Ok (with_desc vq desc') ∧ Forall (desc_store c) tr ∧ written (desc vq) desc' i c ∧ (∀ a l, F = a :: l → next' = a).
Proof.
  revert vq t i next. induction c as [|a c IH]; intros vq t i next Hlen Hnd Hr Hlk Hnx Hi Hsg.
  { exists (desc vq), [], next. destruct vq. rewrite app_nil_r. do 3 (split; [done|]). split; [|done]. split; [done|done|].
    intros j a. by rewrite lookup_nil. }
  cbn [length add_loop fst] in *. rewrite (Hnx a (c ++ F)) by done. cbn [app] in *.
  apply NoDup_cons in Hnd as [Hna Hnd]. apply Forall_cons in Hr as [Ha Hr].
  destruct (lookup_lt_is_Some_2 (desc vq) (Z.to_nat a)) as [d Hd]; [lia|]. destruct (lookup_lt_is_Some_2 sg (Z.to_nat i)) as [g Hg]; [lia|].
  rewrite (arr_get_Ok _ _ _ Hd). cbn [res_bind]. rewrite (arr_get_Ok _ _ _ Hg). cbn [res_bind].
  destruct (desc_fill_ok vq t a i d g Hd) as (tr1&->&Hs1&Hf1). cbn [res_bind].
  set (d' := VDesc _ _ _ _) in *. set (desc1 := <[Z.to_nat a := d']> (desc vq)) in *.
  assert (Hold : ∀ x, 0 ≤ x → x ≠ a → slot desc1 x = slot (desc vq) x).
  { intros x Hx Hxa. unfold desc1. rewrite slot_insert by lia. by rewrite decide_False. }
  assert (Hlk' : links (desc vq) (c ++ F)) by (destruct (c ++ F); [done|apply Hlk]).
  destruct (IH (with_desc vq desc1) (t ++ tr1) (i + 1) (d_next d)) as (desc'&tr&next'&E&Hs&Hf&[W1 W2 W3]&Hn'); cbn [desc with_desc] in *.
  - unfold desc1. by rewrite length_insert.
  - done.
  - done.
  - eapply links_ext; [|exact Hlk']. intros x dx Hx Hdx. rewrite Forall_forall in Hr. specialize (Hr x Hx).
    exists dx. rewrite Hold by (lia || congruence). done.
  - intros b l Hb. rewrite Hb in Hlk. destruct Hlk as [(d0&Hd0&<-) _]. congruence.
  - lia.
  - lia.
  - exists desc', (tr1 ++ tr), next'. rewrite E, app_assoc. split; [done|]. split; [by rewrite (stores_app _ _ _ _ Hs1)|].
    split; [apply Forall_app; split; (eapply Forall_impl; [eassumption|]); intros x; apply desc_store_mono; set_solver|]. split; [|done]. split.
    + rewrite W1. unfold desc1. apply length_insert.
    + intros x Hx Hxc. apply not_elem_of_cons in Hxc as [Hxa Hxc]. rewrite W2 by done. by apply Hold.
    + intros [|j] b Hb; simpl in Hb.
      * injection Hb as ->. exists d, g. rewrite Nat.add_0_r, Z.add_0_r. split; [done|]. split; [done|].
        rewrite W2 by (lia || set_solver). unfold desc1. rewrite slot_insert by lia. by rewrite decide_True.
      * destruct (W3 j b Hb) as (d0&g0&Hd0&Hg0&Hd'). assert (b ≠ a) by (intros ->; apply Hna; apply list_elem_of_lookup_2 in Hb; set_solver).
        rewrite Forall_forall in Hr. assert (0 ≤ b) by (apply list_elem_of_lookup_2 in Hb; specialize (Hr b ltac:(set_solver)); lia).
        exists d0, g0. rewrite Hold in Hd0 by done. split; [done|]. split; [rewrite <-Hg0; f_equal; lia|]. rewrite Hd'. do 3 f_equal. lia.
Qed.

(** The chain is in flight, and the device sees the buffers. *)
Definition buffers (i : Z) (k : nat) : list (Z * Z * bool) :=
  imap (λ j g, (sg_addr g, sg_len g, negb (i + Z.of_nat j <? n_out))) (take k (drop (Z.to_nat i) sg)).

Lemma written_inflight desc desc' i c :
  written desc desc' i c → 0 ≤ i → i + Z.of_nat (length c) = count → c ≠ [] → links desc c → inflight desc' c.
Proof.
  intros [_ _ Hat] Hi Hc Hne Hlk. revert i Hi Hat Hc. induction c as [|a c IH]; intros i Hi Hat Hc; [done|].
  destruct (Hat 0%nat a eq_refl) as (d&g&Hd&_&Hd'). rewrite Z.add_0_r in Hd'. eexists. split; [exact Hd'|]. cbn [d_flags d_next].
  rewrite buf_flags_next. destruct c as [|b c]; simpl in Hc; [lia|]. split; [lia|]. destruct Hlk as [(d0&Hd0&<-) Hlk].
  split; [congruence|]. apply (IH ltac:(done) Hlk (i + 1)); [lia| |simpl; lia]. intros j x Hx. destruct (Hat (S j) x Hx) as (dx&gx&?&Hg&Hx').
  exists dx, gx. split; [done|]. split; [rewrite <-Hg; f_equal; lia|]. rewrite Hx'. do 3 f_equal. lia.
Qed.

Lemma written_walk desc desc' i a c fuel :
  written desc desc' i (a :: c) → 0 ≤ i → i + Z.of_nat (S (length c)) = count → links desc (a :: c) → (length c < fuel)%nat →
  device_walk fuel desc' a = Some (buffers i (S (length c))).
Proof.
  intros [_ _ Hat] Hi Hc Hlk. revert fuel a i Hi Hat Hc Hlk. induction c as [|b c IH]; intros fuel a i Hi Hat Hc Hlk Hf;
    (destruct fuel as [|fuel]; [lia|]); destruct (Hat 0%nat a eq_refl) as (d&g&Hd&Hg&Hd'); rewrite Nat.add_0_r in Hg; rewrite Z.add_0_r in Hd';
    cbn [device_walk]; rewrite Hd'; cbn [mbind option_bind d_flags d_next d_addr d_len]; rewrite buf_flags_next, buf_flags_write; simpl in Hc;
    unfold buffers; rewrite (drop_S _ _ _ Hg); cbn [take imap].
  - replace (i + 1 <? count) with false by lia. by rewrite Z.add_0_r.
  - replace (i + 1 <? count) with true by lia. destruct Hlk as [(d0&Hd0&Hn) Hlk]. rewrite Hd in Hd0. injection Hd0 as <-. rewrite Hn.
    rewrite (IH fuel b (i + 1)); [|lia| |simpl; lia|done|simpl in Hf; lia].
    + cbn [fmap option_fmap option_map]. rewrite Z.add_0_r. do 2 f_equal. unfold buffers. replace (Z.to_nat (i + 1)) with (S (Z.to_nat i)) by lia.
      apply imap_ext. intros j x _. simpl. do 2 f_equal. f_equal. lia.
    + intros j x Hx. destruct (Hat (S j) x Hx) as (dx&gx&?&Hgx&Hx'). exists dx, gx. split; [done|]. split; [rewrite <-Hgx; f_equal; lia|].
      rewrite Hx'. do 3 f_equal. lia.
Qed.
End add.

(** ** The invariant

    [F]: the free descriptors in the order of the free list; [Q]: the requests in
    flight, each the list of its descriptors with its cookie. *)
Record vq_ok (vq : virtqueue) (F : list Z) (Q : list (list Z * Z)) : Prop := {
  v_num : ∃ k, 0 ≤ k ≤ 15 ∧ num vq = 2 ^ k;
  v_desc : Z.of_nat (length (desc vq)) = num vq;
  v_ring : Z.of_nat (length (av_ring (avail vq))) = num vq;
  v_used : Z.of_nat (length (us_ring (used vq))) = num vq;
  v_cook : Z.of_nat (length (cookies vq)) = num vq;
  v_part : F ++ mjoin Q.*1 ≡ₚ seqZ 0 (num vq);
  v_free : links (desc vq) F;
  v_head a l : F = a :: l → free_head vq = a;
  v_fly c k : (c, k) ∈ Q → inflight (desc vq) c;
  v_nf : num_free vq = Z.of_nat (length F);
  v_cookie c k : (c, k) ∈ Q → k ≠ 0 ∧ ∃ a l, c = a :: l ∧ slot (cookies vq) a = Some k;
  v_nocookie x : 0 ≤ x < num vq → (∀ c k, (c, k) ∈ Q → head c ≠ Some x) → slot (cookies vq) x = Some 0;
  v_last : 0 ≤ last_used_idx vq < 2 ^ 16;
  v_avail : avail_idx vq = u16 (last_used_idx vq + Z.of_nat (length Q));
  v_aidx : av_idx (avail vq) = avail_idx vq;
}.

Lemma u16_small x : 0 ≤ x < 2 ^ 16 → u16 x = x.
Proof. apply Z.mod_small. Qed.
Lemma u16_add x y : u16 (u16 x + y) = u16 (x + y).
Proof. unfold u16, wrap. by rewrite Zplus_mod_idemp_l. Qed.
Lemma u16_range x : 0 ≤ u16 x < 2 ^ 16.
Proof. by apply Z.mod_pos_bound. Qed.

Lemma elem_concat (Q : list (list Z * Z)) c k x : (c, k) ∈ Q → x ∈ c → x ∈ mjoin Q.*1.
Proof.
  intros Hq Hx. apply list_elem_of_join. exists c. split; [done|]. apply list_elem_of_fmap. by exists (c, k).
Qed.

Lemma flights_le (Q : list (list Z * Z)) : (∀ c k, (c, k) ∈ Q → c ≠ []) → (length Q ≤ length (mjoin Q.*1))%nat.
Proof.
  induction Q as [|[c k] Q IH]; intros Hne; [done|]. cbn [fmap list_fmap mjoin list_join fst length]. rewrite length_app.
  assert (length c ≠ 0)%nat by (rewrite length_zero_iff_nil; apply (Hne c k); by left).
  specialize (IH ltac:(intros c' k' Hx; apply (Hne c' k'); by right)).
  apply Nat.le_trans with (1 + length (mjoin Q.*1))%nat; [lia|]. apply Nat.add_le_mono_r. lia.
Qed.

Section inv.
Context (vq : virtqueue) (F : list Z) (Q : list (list Z * Z)) (Hok : vq_ok vq F Q).

Lemma all_nodup : NoDup (F ++ mjoin Q.*1).
Proof. rewrite (v_part _ _ _ Hok). apply NoDup_seqZ. Qed.

Lemma all_range x : x ∈ F ++ mjoin Q.*1 → 0 ≤ x < num vq.
Proof. rewrite (v_part _ _ _ Hok). intros H%elem_of_seqZ. lia. Qed.

Lemma free_apart x c k : x ∈ F → (c, k) ∈ Q → x ∉ c.
Proof.
  intros Hx Hq Hc. pose proof all_nodup as (_&Hd&_)%NoDup_app. by apply (Hd x Hx), (elem_concat Q c k).
Qed.

Lemma num_bound : 0 < num vq ≤ 32768.
Proof.
  destruct (v_num _ _ _ Hok) as (k&Hk&->). split; [by apply Z.pow_pos_nonneg; lia|]. change 32768 with (2 ^ 15). apply Z.pow_le_mono_r; lia.
Qed.

Lemma all_length : Z.of_nat (length F + length (mjoin Q.*1)) = num vq.
Proof.
  pose proof num_bound. pose proof (Permutation_length (v_part _ _ _ Hok)) as H1. rewrite length_app, length_seqZ in H1. lia.
Qed.

Lemma ring_slot x : 0 ≤ x < 2 ^ 16 → Z.land x (num vq - 1) = x mod num vq ∧ 0 ≤ x mod num vq < num vq.
Proof.
  intros Hx. destruct (v_num _ _ _ Hok) as (k&Hk&Hn). rewrite Hn, Z.sub_1_r, <-Z.ones_equiv, Z.land_ones by lia.
  split; [done|]. apply Z.mod_pos_bound, Z.pow_pos_nonneg; lia.
Qed.
End inv.

(** A store that publishes nothing: to the descriptors [c], to slot [r] of the
    available ring, or to the driver's own fields. *)
Definition quiet (c : list Z) (r : Z) (x : vstore) : Prop :=
  match x with
  | desc_addr i _ | desc_len i _ | desc_flags i _ | put_cookie i _ => i ∈ c
  | ring_slot_at i _ => i = r
  | avail_publish _ => False
  | _ => True
  end.

Lemma quiet_stores vq c r l :
  (∀ x, x ∈ c → 0 ≤ x < Z.of_nat (length (desc vq)) ∧ x < Z.of_nat (length (cookies vq))) → 0 ≤ r < Z.of_nat (length (av_ring (avail vq))) →
  Forall (quiet c r) l →
  ∃ w, stores vq l = Ok w ∧ av_idx (avail w) = av_idx (avail vq) ∧
    (∀ j, 0 ≤ j → j ≠ r → slot (av_ring (avail w)) j = slot (av_ring (avail vq)) j) ∧
    (∀ x, 0 ≤ x → x ∉ c → slot (desc w) x = slot (desc vq) x).
Proof.
  intros Hc Hr Hl. revert vq Hc Hr. induction Hl as [|x l Hx Hl IH]; intros vq Hc Hr; [by exists vq|]. cbn [stores].
  assert (∃ v, perform vq x = Ok v ∧ length (desc v) = length (desc vq) ∧ length (cookies v) = length (cookies vq) ∧
    length (av_ring (avail v)) = length (av_ring (avail vq)) ∧ av_idx (avail v) = av_idx (avail vq) ∧
    (∀ j, 0 ≤ j → j ≠ r → slot (av_ring (avail v)) j = slot (av_ring (avail vq)) j) ∧
    (∀ x, 0 ≤ x → x ∉ c → slot (desc v) x = slot (desc vq) x)) as (v&->&Hd&Hk&Ha&Hi&Hring&Hdesc).
  { destruct x as [i v|i v|i v| | |i v|i v| | |]; cbn [quiet] in Hx; try done; cbn [perform]; try (eexists; split; [done|done]).
    1-3: destruct (Hc i Hx) as [? _]; destruct (lookup_lt_is_Some_2 (desc vq) (Z.to_nat i)) as [d Hd]; [lia|];
         rewrite (desc_update_Ok _ _ _ _ Hd); eexists; (split; [done|]); cbn [with_desc desc cookies avail]; rewrite length_insert;
         (do 5 (split; [done|])); intros y Hy Hyc; rewrite slot_insert by lia; rewrite decide_False; [done|by intros ->].
    - destruct (Hc i Hx) as [? ?]. rewrite arr_set_Ok by lia. eexists. split; [done|]. cbn [desc cookies avail]. by rewrite length_insert.
    - subst i. rewrite arr_set_Ok by lia. eexists. split; [done|]. cbn [with_avail desc cookies avail av_ring av_idx]. rewrite length_insert.
      do 4 (split; [done|]). split; [|done]. intros j Hj Hjr. rewrite slot_insert by lia. by rewrite decide_False. }
  cbn [res_bind]. destruct (IH v) as (w&Hw&Hi'&Hring'&Hdesc').
  { intros y Hy. rewrite Hd, Hk. by apply Hc. } { by rewrite Ha. }
  exists w. split; [done|]. split; [congruence|]. split; intros; [rewrite Hring'|rewrite Hdesc']; auto.
Qed.

(** The slot about to be written is none of those of the requests in flight. *)
Lemma ring_slot_fresh vq F Q i :
  vq_ok vq F Q → F ≠ [] → 0 ≤ i < Z.of_nat (length Q) → (last_used_idx vq + i) mod num vq ≠ avail_idx vq mod num vq.
Proof.
  intros Hok HF Hi Heq. pose proof (num_bound _ _ _ Hok). pose proof (all_length _ _ _ Hok) as Hl.
  assert (length Q ≤ length (mjoin Q.*1))%nat.
  { apply flights_le. intros c k Hck. destruct (v_cookie _ _ _ Hok c k Hck) as (_&a&l&->&_). done. }
  assert (length F ≠ 0)%nat by by rewrite length_zero_iff_nil.
  destruct (v_num _ _ _ Hok) as (k&Hk&Hn). rewrite (v_avail _ _ _ Hok) in Heq. unfold u16, wrap in Heq.
  assert (Hdiv : (num vq | 2 ^ 16)).
  { rewrite Hn. exists (2 ^ (16 - k)). rewrite <-Z.pow_add_r by lia. f_equal. lia. }
  rewrite (Z.mod_mod_divide _ _ _ Hdiv) in Heq.
  set (x := last_used_idx vq) in *. set (q := Z.of_nat (length Q)) in *.
  assert (Hz : (q - i) mod num vq = 0).
  { replace (q - i) with (x + q - (x + i)) by lia. rewrite Zminus_mod, Heq, Z.sub_diag. by apply Z.mod_0_l; lia. }
  rewrite Z.mod_small in Hz by lia. lia.
Qed.

(** The stores behind the barrier. *)
Definition publish (v : Z) : list vstore := [put_avail_idx v; avail_publish (u16 v)].

Lemma publish_seen w v l :
  l `sublist_of` publish v → ∃ w', stores w l = Ok w' ∧ desc w' = desc w ∧ av_ring (avail w') = av_ring (avail w) ∧
    (av_idx (avail w') = av_idx (avail w) ∨ av_idx (avail w') = u16 v).
Proof.
  assert (Hv : u16 (u16 v) = u16 v) by (apply u16_small, u16_range).
  unfold publish. intros Hl. rewrite !sublist_cons_r in Hl. setoid_rewrite sublist_cons_r in Hl. rewrite sublist_nil_r in Hl.
  setoid_rewrite sublist_nil_r in Hl. destruct Hl as [[->|(?&->&->)]|(?&->&[->|(?&->&->)])]; cbn [stores perform res_bind];
    eexists; (split; [done|]); rewrite ?Hv; auto.
Qed.

(** Taking the first descriptors of the free list: the queue afterwards, and the
    stores, [P] in front of the barrier. *)
Lemma vq_add_ok vq Q sg n_out n_in cookie a c F' :
  vq_ok vq ((a :: c) ++ F') Q → 0 < n_out + n_in < 2 ^ 32 → Z.of_nat (length sg) = n_out + n_in → cookie ≠ 0 →
  Z.of_nat (length (a :: c)) = n_out + n_in →
  ∃ vq' P w,
    vq_add vq sg n_out n_in cookie =
      Ok (0, vq', P ++ dma_wmb :: publish (avail_idx vq + 1)) ∧
    (Forall (quiet (a :: c) (avail_idx vq mod num vq)) P ∧ stores vq P = Ok w ∧ stores w (publish (avail_idx vq + 1)) = Ok vq' ∧
      av_idx (avail w) = av_idx (avail vq)) ∧
    vq_ok vq' F' ((a :: c, cookie) :: Q) ∧ used vq' = used vq ∧
    device_walk (length (desc vq')) (desc vq') a = Some (buffers sg n_out 0 (length sg)) ∧
    av_idx (avail vq') = u16 (av_idx (avail vq) + 1) ∧
    av_ring (avail vq') = <[Z.to_nat (av_idx (avail vq) mod num vq) := a]> (av_ring (avail vq)) ∧
    (∀ b l k fuel, (b :: l, k) ∈ Q → device_walk fuel (desc vq') b = device_walk fuel (desc vq) b).
Proof.
  intros Hok Hn Hsg Hck Hl. remember ((a :: c) ++ F') as F eqn:HF. unfold vq_add.
  rewrite u32_small by (unfold in_u32; lia). set (count := n_out + n_in) in *.
  assert (Hcnt : count ≤ num_free vq) by (rewrite (v_nf _ _ _ Hok), HF, length_app; lia). rewrite Z.gtb_ltb. replace (num_free vq <? count) with false by lia.
  pose proof (num_bound _ _ _ Hok) as Hnb. replace (Z.to_nat count) with (length (a :: c)) by lia. pose proof (all_nodup _ _ _ Hok) as Hnd. pose proof (all_range _ _ _ Hok) as Hrg.
  pose proof (free_apart _ _ _ Hok) as Hap. pose proof (v_free _ _ _ Hok) as Hlk. pose proof (v_head _ _ _ Hok) as Hh. rewrite HF in Hnd, Hlk, Hh.
  destruct (add_loop_ok sg n_out count (num vq) (a :: c) F' vq [] 0 (free_head vq)) as (desc'&tr&next'&->&Hst&Htr&Hw&Hnx).
  { apply (v_desc _ _ _ Hok). } { by apply NoDup_app in Hnd as (?&_&_). }
  { apply Forall_forall. intros x Hx. apply Hrg. rewrite HF. set_solver. } { done. } { exact Hh. } { done. } { lia. }
  cbn [res_bind]. rewrite (Hh a (c ++ F')) by done. assert (Ha : 0 ≤ a < num vq) by (apply Hrg; rewrite HF; set_solver).
  pose proof (v_cook _ _ _ Hok) as Hlc. pose proof (v_ring _ _ _ Hok) as Hlr. pose proof (v_aidx _ _ _ Hok) as Hai.
  assert (Hav : 0 ≤ avail_idx vq < 2 ^ 16) by (rewrite (v_avail _ _ _ Hok); apply u16_range).
  destruct (ring_slot _ _ _ Hok (avail_idx vq) Hav) as [Hland Hslot].
  unfold store. cbn [perform fst snd res_bind with_desc desc num avail used free_head num_free avail_idx last_used_idx cookies app].
  rewrite arr_set_Ok by lia. cbn [perform fst snd res_bind with_avail desc num avail used free_head num_free avail_idx last_used_idx cookies av_idx av_ring].
  rewrite Hland, arr_set_Ok by lia. cbn [perform fst snd res_bind with_avail desc num avail used free_head num_free avail_idx last_used_idx cookies av_idx av_ring].
  rewrite (u16_small a), (u16_small (u16 _)) by (lia || apply u16_range).
  set (slot0 := avail_idx vq mod num vq) in *.
  eexists _, (tr ++ [put_free_head next'; put_num_free (num_free vq - count); put_cookie a cookie; ring_slot_at slot0 a]), _.
  split; [rewrite <-!app_assoc; reflexivity|]. split.
  { split.
    { apply Forall_app. split; [|repeat constructor; simpl; set_solver].
      eapply Forall_impl; [exact Htr|]. intros []; simpl; done. }
    rewrite (stores_app _ _ _ _ Hst). cbn [stores perform res_bind with_desc desc num avail used free_head num_free avail_idx last_used_idx cookies].
    rewrite arr_set_Ok by lia. cbn [stores perform res_bind with_desc desc num avail used free_head num_free avail_idx last_used_idx cookies].
    rewrite arr_set_Ok by lia. cbn [res_bind]. rewrite (u16_small a) by lia. split; [done|]. split; [|done].
    cbn [publish stores perform res_bind]. by rewrite (u16_small (u16 _)) by apply u16_range. }
  unfold with_avail, with_desc. cbn [desc num avail used free_head num_free avail_idx last_used_idx cookies av_idx av_ring].
  destruct (links_app _ _ _ Hlk) as [Hlc1 Hlf].
  assert (Hfly : ∀ b k x, (b, k) ∈ Q → x ∈ b → slot desc' x = slot (desc vq) x).
  { intros b k x Hb Hx. apply (wr_other _ _ _ _ _ _ _ Hw).
    - apply Hrg. apply elem_of_app. right. by eapply elem_concat.
    - intros Hc. by apply (Hap x b k); [rewrite HF; set_solver|..]. }
  split; [|split; [done|split; [|split; [by rewrite Hai|split; [by rewrite Hai|]]]]].
  - split; cbn [num desc avail av_ring used us_ring cookies num_free free_head last_used_idx avail_idx av_idx].
    + apply (v_num _ _ _ Hok).
    + rewrite (wr_len _ _ _ _ _ _ _ Hw). apply (v_desc _ _ _ Hok).
    + by rewrite length_insert.
    + apply (v_used _ _ _ Hok).
    + by rewrite length_insert.
    + rewrite <-(v_part _ _ _ Hok), HF. cbn [fmap list_fmap fst mjoin list_join]. solve_Permutation.
    + eapply links_ext; [|exact Hlf]. intros x d Hx Hd. exists d. split; [|done]. rewrite <-Hd. apply (wr_other _ _ _ _ _ _ _ Hw).
      * apply Hrg. rewrite HF. set_solver.
      * intros Hc. apply NoDup_app in Hnd as (Hnd&_&_). apply NoDup_app in Hnd as (_&Hd'&_). by apply (Hd' x Hc).
    + intros b l Hb. rewrite (Hnx b l Hb). apply u16_small. assert (0 ≤ b < num vq) by (apply Hrg; rewrite HF, Hb; set_solver). lia.
    + intros b k. rewrite elem_of_cons. intros [[= -> ->]|Hb].
      * eapply written_inflight; [exact Hw|done|lia|done|done].
      * eapply inflight_ext; [|by eapply (v_fly _ _ _ Hok)]. by intros x; eapply Hfly.
    + rewrite (v_nf _ _ _ Hok), HF, length_app. rewrite u16_small by (pose proof (all_length _ _ _ Hok); rewrite HF, length_app in *; lia). lia.
    + intros b k. rewrite elem_of_cons. intros [[= -> ->]|Hb].
      * split; [done|]. exists a, c. split; [done|]. rewrite slot_insert by lia. by rewrite decide_True.
      * destruct (v_cookie _ _ _ Hok b k Hb) as (Hk&x&l&->&Hx). split; [done|]. exists x, l. split; [done|].
        assert (0 ≤ x < num vq) by (apply Hrg, elem_of_app; right; eapply elem_concat; [exact Hb|by left]).
        rewrite slot_insert by lia. rewrite decide_False; [done|]. intros ->. by apply (Hap a (a :: l) k); [rewrite HF; left|..|left].
    + intros x Hx Hno. assert (x ≠ a) by (intros ->; by apply (Hno (a :: c) cookie); [left|]).
      rewrite slot_insert, decide_False by (lia || done). apply (v_nocookie _ _ _ Hok); [done|]. intros b k Hb. apply Hno with k. by right.
    + apply (v_last _ _ _ Hok).
    + rewrite (v_avail _ _ _ Hok), u16_add. f_equal. simpl. lia.
    + done.
  - cbn [desc]. replace (length sg) with (S (length c)) by (simpl in Hl; lia). eapply written_walk; [exact Hw|done|simpl in Hl; lia|done|].
    rewrite (wr_len _ _ _ _ _ _ _ Hw). pose proof (v_desc _ _ _ Hok). pose proof (all_length _ _ _ Hok) as Hal. rewrite HF, length_app in Hal. simpl in Hal. lia.
  - intros b l k fuel Hb. cbn [desc]. apply (walk_ext _ _ _ _ l); [|by eapply (v_fly _ _ _ Hok)]. by intros x; eapply Hfly.
Qed.

(** C29: adding a request.  With fewer free descriptors than buffers [vq_add]
    fails with [-ENOSPC], having stored nothing.  Otherwise it takes the needed
    descriptors from the free list, the device that follows the chain from the
    published head finds exactly the buffers in order, the first [n_out] for
    reading and the rest for writing, and one entry, at the old index, is added
    to the available ring.

    The request is published last.  Whatever part [l] of the stores the device
    has observed at a moment while [vq_add] runs, the chains in flight and their
    entries in the available ring are as they were, and the index in the
    available ring is the old one, or it is the new one and then the new entry
    and the whole chain behind it are visible too. *)
Theorem vq_add_spec vq F Q sg n_out n_in cookie :
  vq_ok vq F Q → 0 ≤ n_out → 0 ≤ n_in → 0 < n_out + n_in < 2 ^ 32 → Z.of_nat (length sg) = n_out + n_in → cookie ≠ 0 →
  ∃ ret vq' tr, vq_add vq sg n_out n_in cookie = Ok (ret, vq', tr) ∧
    if decide (n_out + n_in ≤ num_free vq) then
      ret = 0 ∧ ∃ a c F', F = (a :: c) ++ F' ∧ vq_ok vq' F' ((a :: c, cookie) :: Q) ∧ used vq' = used vq ∧
        device_walk (length (desc vq')) (desc vq') a = Some (buffers sg n_out 0 (length sg)) ∧
        av_idx (avail vq') = u16 (av_idx (avail vq) + 1) ∧
        av_ring (avail vq') = <[Z.to_nat (av_idx (avail vq) mod num vq) := a]> (av_ring (avail vq)) ∧
        (∀ b l k fuel, (b :: l, k) ∈ Q → device_walk fuel (desc vq') b = device_walk fuel (desc vq) b) ∧
        stores vq tr = Ok vq' ∧
        ∀ l, seen tr l → ∃ w, stores vq l = Ok w ∧
          (∀ b l' k fuel, (b :: l', k) ∈ Q → device_walk fuel (desc w) b = device_walk fuel (desc vq) b) ∧
          (∀ i, 0 ≤ i < Z.of_nat (length Q) →
             let r := (last_used_idx vq + i) mod num vq in slot (av_ring (avail w)) r = slot (av_ring (avail vq)) r) ∧
          (av_idx (avail w) = av_idx (avail vq) ∨
           av_idx (avail w) = u16 (av_idx (avail vq) + 1) ∧
             slot (av_ring (avail w)) (av_idx (avail vq) mod num vq) = Some a ∧
             device_walk (length (desc w)) (desc w) a = Some (buffers sg n_out 0 (length sg)))
    else ret = - ENOSPC ∧ vq' = vq ∧ tr = [].
Proof.
  intros Hok Ho Hi Hn Hsg Hck. destruct (decide (n_out + n_in ≤ num_free vq)) as [Hle|Hgt].
  2: { exists (- ENOSPC), vq, []. unfold vq_add. rewrite u32_small by (unfold in_u32; lia). rewrite Z.gtb_ltb.
       by replace (num_free vq <? n_out + n_in) with true by lia. }
  rewrite (v_nf _ _ _ Hok) in Hle. set (n := Z.to_nat (n_out + n_in)). pose proof (take_drop n F) as HF.
  assert (Hl : length (take n F) = n) by (rewrite length_take; lia). destruct (take n F) as [|a c]; [simpl in Hl; lia|].
  rewrite <-HF in Hok. destruct (vq_add_ok vq Q sg n_out n_in cookie a c (drop n F) Hok) as (vq'&P&w&E&HP&Hok'&Hu&Hw&Hx&Hr&Hfl); [done..|lia|].
  eexists 0, vq', _. split; [exact E|]. split; [done|]. exists a, c, (drop n F). do 7 (split; [done|]).
  destruct HP as (HP&Hst&Hpub&Hai). pose proof (v_aidx _ _ _ Hok) as Haix. split; [by rewrite (stores_app _ _ _ _ Hst)|].
  assert (Hrg : ∀ x, x ∈ a :: c → 0 ≤ x < num vq) by (intros x Hin; apply (all_range _ _ _ Hok); set_solver).
  assert (Hav : 0 ≤ avail_idx vq < 2 ^ 16) by (rewrite (v_avail _ _ _ Hok); apply u16_range).
  destruct (ring_slot _ _ _ Hok _ Hav) as [_ Hslot].
  assert (Hother : ∀ i, 0 ≤ i < Z.of_nat (length Q) → (last_used_idx vq + i) mod num vq ≠ avail_idx vq mod num vq).
  { intros i. apply (ring_slot_fresh _ _ _ _ Hok). done. }
  pose proof (v_desc _ _ _ Hok) as Hld. pose proof (v_cook _ _ _ Hok) as Hlc. pose proof (v_ring _ _ _ Hok) as Hlr. pose proof (num_bound _ _ _ Hok).
  intros l [Hsub|(l'&->&Hsub)]%seen_barrier; [..|unfold publish; set_solver].
  - destruct (quiet_stores vq (a :: c) (avail_idx vq mod num vq) l) as (v&Hv&Hvi&Hvr&Hvd).
    { intros x Hin. specialize (Hrg x Hin). lia. } { lia. }
    { apply Forall_forall. intros x Hin. rewrite Forall_forall in HP. apply Hsub, elem_of_app in Hin as [Hin|Hin]; [by apply HP|].
      by apply list_elem_of_singleton in Hin as ->. }
    exists v. split; [done|]. split; [|split; [|by left]].
    + intros b l' k fuel Hb. apply (walk_ext _ _ _ _ l'); [|by eapply (v_fly _ _ _ Hok)]. intros x Hin. apply Hvd.
      * apply (all_range _ _ _ Hok), elem_of_app. right. by eapply elem_concat.
      * intros Hin'. by apply (free_apart _ _ _ Hok x (b :: l') k); [set_solver|..].
    + intros i Hir. apply Hvr; [by apply Z.mod_pos_bound; lia|by apply Hother].
  - destruct (publish_seen w _ _ Hsub) as (v&Hv&Hvd&Hvr&Hvi).
    destruct (publish_seen w (avail_idx vq + 1) _ (reflexivity _)) as (v'&Hv'&Hd'&Hr'&_). rewrite Hpub in Hv'. injection Hv' as <-.
    exists v. rewrite (stores_app _ _ _ _ Hst), Hvd, <-Hd', Hvr, <-Hr', Hr, Haix. split; [done|]. split; [done|]. split.
    + intros i Hir. cbv zeta. rewrite slot_insert by (lia || apply Z.mod_pos_bound; lia). by rewrite decide_False by by apply Hother.
    + destruct Hvi as [->| ->]; [left; congruence|right]. split; [done|]. split; [|done]. rewrite slot_insert by lia. by rewrite decide_True.
Qed.

(** ** Returning a chain *)

Lemma tail_loop_ok desc a c fuel nf :
  inflight desc (a :: c) → (length c ≤ fuel)%nat → 0 ≤ nf → nf + Z.of_nat (length c) < 2 ^ 16 →
  ∃ t d, last (a :: c) = Some t ∧ slot desc t = Some d ∧ tail_loop fuel desc a nf = Ok (t, nf + Z.of_nat (length c)).
Proof.
  revert a fuel nf. induction c as [|b c IH]; intros a fuel nf (d&Hd&Hc) Hf Hn Hb.
  - exists a, d. split; [done|]. split; [done|]. destruct fuel; cbn [tail_loop]; rewrite (arr_get_Ok _ _ _ Hd); cbn [res_bind]; rewrite Hc;
      simpl; by rewrite Z.add_0_r.
  - destruct Hc as (Hfl&Hnx&Hc). destruct fuel as [|fuel]; [simpl in Hf; lia|]. simpl in Hf, Hb.
    destruct (IH b fuel (u16 (nf + 1)) Hc) as (t&d'&Ht&Hd'&E); [lia|apply u16_range|rewrite u16_small by lia; lia|].
    exists t, d'. split; [done|]. split; [done|]. cbn [tail_loop]. rewrite (arr_get_Ok _ _ _ Hd). cbn [res_bind]. rewrite Hfl, Hnx, E.
    rewrite u16_small by lia. do 2 f_equal. simpl. lia.
Qed.

(** Joining a chain whose last descriptor points to the head of another. *)
Lemma links_join desc c F t d fh :
  last c = Some t → slot desc t = Some d → d_next d = fh → (∀ a l, F = a :: l → fh = a) → links desc c → links desc F → links desc (c ++ F).
Proof.
  intros Ht Hd Hn Hh Hc HF. induction c as [|a [|b c] IH]; [done|..].
  - injection Ht as ->. destruct F as [|b F]; [done|]. split; [|done]. exists d. split; [done|]. rewrite Hn. by eapply Hh.
  - destruct Hc as [Ha Hc]. split; [done|]. by apply IH.
Qed.

Lemma links_but_last desc desc' c t :
  NoDup c → last c = Some t → (∀ x, x ∈ c → x ≠ t → slot desc' x = slot desc x) → links desc c → links desc' c.
Proof.
  induction c as [|a [|b c] IH]; [done..|]. intros [Hn Hnd]%NoDup_cons Hl Hs [(d&Hd&He) Hc]. split.
  - exists d. split; [|done]. rewrite Hs; [done|by left|]. intros ->. apply Hn. by apply last_Some_elem_of.
  - apply IH; [done|done| |done]. intros x Hx. apply Hs. by right.
Qed.

Section get.
Context (vq : virtqueue) (F : list Z) (Q : list (list Z * Z)) (Hok : vq_ok vq F Q).
Context (a : Z) (c : list Z) (k : Z) (Q' : list (list Z * Z)) (HQ : Q ≡ₚ (a :: c, k) :: Q').

Lemma get_part : (a :: c) ++ F ++ mjoin Q'.*1 ≡ₚ seqZ 0 (num vq).
Proof. rewrite <-(v_part _ _ _ Hok), HQ. cbn [fmap list_fmap fst mjoin list_join]. solve_Permutation. Qed.

Lemma get_in : (a :: c, k) ∈ Q.
Proof. rewrite HQ. by left. Qed.

Lemma get_chain x : x ∈ a :: c → 0 ≤ x < num vq ∧ (x ∉ F) ∧ ∀ b j, (b, j) ∈ Q' → x ∉ b.
Proof.
  intros Hx. assert (Hnd : NoDup ((a :: c) ++ F ++ mjoin Q'.*1)) by (rewrite get_part; apply NoDup_seqZ).
  apply NoDup_app in Hnd as (_&Hd&_). specialize (Hd x Hx). split; [|split; [set_solver|]].
  - eapply (all_range _ _ _ Hok), elem_of_app. right. by eapply elem_concat; [apply get_in|].
  - intros b j Hb Hxb. apply Hd, elem_of_app. right. by eapply elem_concat.
Qed.

Lemma get_ok t d :
  last (a :: c) = Some t → slot (desc vq) t = Some d →
  vq_ok (Vq (num vq) (<[Z.to_nat t := VDesc (d_addr d) (d_len d) (d_flags d) (free_head vq)]> (desc vq)) (avail vq) (used vq) (u16 a)
            (u16 (num_free vq + Z.of_nat (length c) + 1)) (avail_idx vq) (u16 (last_used_idx vq + 1)) (<[Z.to_nat a := 0]> (cookies vq)))
    ((a :: c) ++ F) Q'.
Proof.
  intros Ht Hd. assert (Hta : t ∈ a :: c) by (apply last_Some_elem_of; done).
  destruct (get_chain t Hta) as (Htr&HtF&HtQ). destruct (get_chain a ltac:(left)) as (Har&HaF&HaQ).
  pose proof (num_bound _ _ _ Hok). pose proof (v_desc _ _ _ Hok). pose proof (v_cook _ _ _ Hok).
  assert (Hq' : ∀ b j, (b, j) ∈ Q' → (b, j) ∈ Q) by (intros b j Hb; rewrite HQ; by right).
  assert (Hsame : ∀ x, x ≠ t → 0 ≤ x → slot (<[Z.to_nat t := VDesc (d_addr d) (d_len d) (d_flags d) (free_head vq)]> (desc vq)) x = slot (desc vq) x).
  { intros x Hx Hx0. rewrite slot_insert by lia. by rewrite decide_False. }
  assert (Hlen : Z.of_nat (length ((a :: c) ++ F)) ≤ num vq).
  { pose proof (Permutation_length get_part) as Hl. rewrite length_seqZ, !length_app in *. lia. }
  rewrite length_app in Hlen. simpl in Hlen.
  split; cbn [num desc avail av_ring used us_ring cookies num_free free_head last_used_idx avail_idx av_idx].
  - apply (v_num _ _ _ Hok).
  - by rewrite length_insert.
  - apply (v_ring _ _ _ Hok).
  - apply (v_used _ _ _ Hok).
  - by rewrite length_insert.
  - rewrite <-app_assoc. apply get_part.
  - eapply (links_join _ _ _ t _ (free_head vq)); [done|by rewrite slot_insert, decide_True by lia|done|apply (v_head _ _ _ Hok)|..].
    + eapply (links_but_last (desc vq) _ _ t); [|done| |by eapply inflight_links, (v_fly _ _ _ Hok), get_in].
      * assert (Hnd : NoDup ((a :: c) ++ F ++ mjoin Q'.*1)) by (rewrite get_part; apply NoDup_seqZ). by apply NoDup_app in Hnd as (?&_).
      * intros x Hx Hxt. apply Hsame; [done|]. apply get_chain in Hx. lia.
    + eapply links_ext; [|apply (v_free _ _ _ Hok)]. intros x dx Hx Hdx. exists dx. split; [|done]. rewrite <-Hdx. apply Hsame; [congruence|].
      apply (all_range _ _ _ Hok x). set_solver.
  - intros b l [= <- _]. apply u16_small. lia.
  - intros b j Hb. eapply inflight_ext; [|by eapply (v_fly _ _ _ Hok), Hq']. intros x Hx. apply Hsame.
    + intros ->. by apply (HtQ b j).
    + apply (all_range _ _ _ Hok), elem_of_app. right. by eapply elem_concat; [apply Hq'|].
  - rewrite (v_nf _ _ _ Hok), length_app, u16_small; simpl; lia.
  - intros b j Hb. destruct (v_cookie _ _ _ Hok b j (Hq' b j Hb)) as (Hj&x&l&->&Hx). split; [done|]. exists x, l. split; [done|].
    assert (0 ≤ x < num vq) by (apply (all_range _ _ _ Hok), elem_of_app; right; eapply elem_concat; [by apply Hq'|by left]).
    rewrite slot_insert by lia. rewrite decide_False; [done|]. intros ->. apply (HaQ _ _ Hb). by left.
  - intros x Hx Hno. rewrite slot_insert by lia. case_decide; [done|]. apply (v_nocookie _ _ _ Hok); [done|].
    intros b j. rewrite HQ, elem_of_cons. intros [[= -> ->]|Hb]; [by intros [= ->]|by apply (Hno b j)].
  - apply u16_range.
  - rewrite u16_add, (v_avail _ _ _ Hok), HQ. f_equal. simpl. lia.
  - apply (v_aidx _ _ _ Hok).
Qed.
End get.

(** C10: taking back a request.  With nothing pending [vq_get_buf] returns NULL
    and changes nothing.  An element the device wrote for a request in flight
    yields the cookie of exactly that request and the device's length, and
    returns all its descriptors to the free list; the other requests are not
    disturbed.  An index that overruns what was made available, or an element
    that names no request in flight, is caught by an assertion whatever the
    device wrote. *)
Theorem vq_get_buf_spec vq F Q :
  vq_ok vq F Q →
  let pending := u16 (us_idx (used vq) - last_used_idx vq) in
  ∃ id len, slot (us_ring (used vq)) (last_used_idx vq mod num vq) = Some (id, len) ∧
    if decide (pending = 0) then vq_get_buf vq = Ok (0, 0, vq)
    else if decide (pending ≤ Z.of_nat (length Q)) then
      ∀ Hid : 0 ≤ id,
      (∀ c k Q', Q ≡ₚ (id :: c, k) :: Q' → ∃ vq', vq_get_buf vq = Ok (k, len, vq') ∧ vq_ok vq' ((id :: c) ++ F) Q' ∧
         (∀ b l j fuel, (b :: l, j) ∈ Q' → device_walk fuel (desc vq') b = device_walk fuel (desc vq) b)) ∧
      ((∀ c k, (c, k) ∈ Q → head c ≠ Some id) → vq_get_buf vq = Panic)
    else vq_get_buf vq = Panic.
Proof.
  intros Hok. cbv zeta. pose proof (num_bound _ _ _ Hok) as Hnb. destruct (ring_slot _ _ _ Hok _ (v_last _ _ _ Hok)) as [Hsl Hr].
  destruct (lookup_lt_is_Some_2 (us_ring (used vq)) (Z.to_nat (last_used_idx vq mod num vq))) as [[id len] He];
    [pose proof (v_used _ _ _ Hok); lia|].
  exists id, len. split; [done|]. unfold vq_get_buf. set (pending := u16 (us_idx (used vq) - last_used_idx vq)).
  destruct (decide (pending = 0)) as [->|Hp]; [done|]. replace (pending =? 0) with false by lia.
  assert (Hq : u16 (avail_idx vq - last_used_idx vq) = Z.of_nat (length Q)).
  { rewrite (v_avail _ _ _ Hok). unfold Z.sub. rewrite u16_add. replace (_ + _ + _) with (Z.of_nat (length Q)) by lia. apply u16_small.
    assert (length Q ≤ length (mjoin Q.*1))%nat; [|pose proof (all_length _ _ _ Hok); lia].
    apply flights_le. intros c k Hck. destruct (v_cookie _ _ _ Hok c k Hck) as (_&a&l&->&_). done. }
  rewrite Hq. destruct (decide (pending ≤ Z.of_nat (length Q))) as [Hle|Hgt].
  2: { by replace (pending <=? Z.of_nat (length Q)) with false by lia. }
  replace (pending <=? Z.of_nat (length Q)) with true by lia. cbn [Assert res_bind]. rewrite Hsl, (arr_get_Ok _ _ _ He). cbn [res_bind fst snd].
  intros Hid. pose proof (v_cook _ _ _ Hok) as Hlc. split.
  - intros c k Q' HQ. destruct (get_chain vq F Q Hok id c k Q' HQ id) as ([_ Hlt]&_&_); [by left|].
    replace (id <? num vq) with true by lia. cbn [Assert res_bind].
    destruct (v_cookie _ _ _ Hok _ _ (get_in Q id c k Q' HQ)) as (Hk&x&l&[= <- <-]&Hck). rewrite (arr_get_Ok _ _ _ Hck). cbn [res_bind].
    unfold truth at 1. replace (k =? 0) with false by lia. cbn [negb Assert res_bind]. rewrite arr_set_Ok by lia. cbn [res_bind].
    pose proof (Permutation_length (get_part vq F Q Hok id c k Q' HQ)) as Hl. rewrite length_seqZ, !length_app in Hl. simpl in Hl.
    pose proof (v_desc _ _ _ Hok). pose proof (v_nf _ _ _ Hok).
    destruct (tail_loop_ok (desc vq) id c (length (desc vq)) (num_free vq)) as (t&d&Ht&Hd&->);
      [by eapply (v_fly _ _ _ Hok), get_in|lia..|]. cbn [res_bind]. rewrite (arr_get_Ok _ _ _ Hd). cbn [res_bind].
    pose proof (lookup_lt_Some _ _ _ Hd). rewrite arr_set_Ok by done. cbn [res_bind]. eexists. split; [done|].
    split; [by eapply get_ok|]. intros b l j fuel Hb. cbn [desc]. apply (walk_ext _ _ _ _ l); [|eapply (v_fly _ _ _ Hok); rewrite HQ; right; exact Hb].
    intros x Hx. apply last_Some_elem_of in Ht. destruct (get_chain vq F Q Hok id c k Q' HQ t Ht) as (?&_&Hno).
    assert (0 ≤ x) by (apply (all_range _ _ _ Hok x), elem_of_app; right; eapply (elem_concat _ (b :: l) j); [rewrite HQ; by right|done]).
    rewrite slot_insert by lia. rewrite decide_False; [done|]. intros ->. by apply (Hno (b :: l) j).
  - intros Hno. destruct (Z.ltb_spec id (num vq)); [|done]. cbn [Assert res_bind].
    rewrite (arr_get_Ok _ _ _ (v_nocookie _ _ _ Hok id ltac:(lia) Hno)). done.
Qed.

(** ** A new queue *)

Lemma links_fresh n k m :
  0 ≤ k → 0 ≤ m → k + m ≤ n → n ≤ 32768 → links ((λ i, VDesc 0 0 0 (u16 (i + 1))) <$> seqZ 0 n) (seqZ k m).
Proof.
  intros Hk Hm Hkm Hn. set (ds := _ <$> _). revert k Hk Hkm. pattern m. apply natlike_ind; [done| |done]. clear m Hm. intros m Hm IH k Hk Hkm.
  rewrite (seqZ_cons k) by lia. replace (Z.pred (Z.succ m)) with m by lia. specialize (IH (Z.succ k) ltac:(lia) ltac:(lia)).
  destruct (decide (m = 0)) as [->|]; [done|]. rewrite (seqZ_cons (Z.succ k)) in IH |- * by lia. split; [|done].
  exists (VDesc 0 0 0 (u16 (k + 1))). split; [|simpl; rewrite u16_small; lia].
  unfold ds. rewrite list_lookup_fmap, lookup_seqZ_lt by lia. simpl. do 3 f_equal. lia.
Qed.

Lemma virtqueue_create_ok k : 0 ≤ k ≤ 15 → vq_ok (virtqueue_create (2 ^ k)) (seqZ 0 (2 ^ k)) [].
Proof.
  intros Hk. assert (Hn : 0 < 2 ^ k ≤ 32768).
  { split; [apply Z.pow_pos_nonneg; lia|]. change 32768 with (2 ^ 15). apply Z.pow_le_mono_r; lia. }
  unfold virtqueue_create. split; cbn [num desc avail av_ring used us_ring cookies num_free free_head last_used_idx avail_idx av_idx].
  - by exists k.
  - rewrite length_fmap, length_seqZ. lia.
  - rewrite length_replicate. lia.
  - rewrite length_replicate. lia.
  - rewrite length_replicate. lia.
  - by rewrite app_nil_r.
  - apply links_fresh; lia.
  - intros a l. rewrite seqZ_cons by lia. by intros [= <- _].
  - intros c j Hx. by apply elem_of_nil in Hx.
  - rewrite length_seqZ. lia.
  - intros c j Hx. by apply elem_of_nil in Hx.
  - intros x Hx _. apply lookup_replicate. split; [done|lia].
  - lia.
  - done.
  - done.
Qed.

(** Whatever the device writes to the used ring keeps the driver's state valid. *)
Definition device_writes (vq : virtqueue) (u : vring_used) : virtqueue :=
  Vq (num vq) (desc vq) (avail vq) u (free_head vq) (num_free vq) (avail_idx vq) (last_used_idx vq) (cookies vq).

Lemma device_writes_ok vq F Q u : vq_ok vq F Q → length (us_ring u) = length (us_ring (used vq)) → vq_ok (device_writes vq u) F Q.
Proof. intros [? ? ? Hu ? ? ? ? ? ? ? ? ? ? ?] Hl. split; try done. simpl. by rewrite Hl. Qed.

(** ** Witnesses: a queue of four, one request of three buffers *)

Definition demo_sg : list vq_sg := [Sg 0x1000 16; Sg 0x2000 512; Sg 0x3000 1].
Definition demo_vq : virtqueue :=
  match vq_add (virtqueue_create 4) demo_sg 1 2 7 with Ok (_, vq, _) => vq | _ => virtqueue_create 4 end.

Lemma demo_vq_ok : vq_ok demo_vq [3] [([0; 1; 2], 7)].
Proof.
  destruct (vq_add_ok (virtqueue_create 4) [] demo_sg 1 2 7 0 [1; 2] [3]) as (vq'&P&w&E&_&Hok&_);
    [apply (virtqueue_create_ok 2); lia|lia|done|done|done|]. unfold demo_vq. by rewrite E.
Qed.

Lemma vq_add_spec_witness :
  vq_ok demo_vq [3] [([0; 1; 2], 7)] ∧
  device_walk 4 (desc demo_vq) 0 = Some [(0x1000, 16, false); (0x2000, 512, true); (0x3000, 1, true)].
Proof.
  destruct (vq_add_spec (virtqueue_create 4) (seqZ 0 4) [] demo_sg 1 2 7) as (ret&vq'&tr&E&Hr);
    [apply (virtqueue_create_ok 2); lia|lia..|done|done|].
  rewrite decide_True in Hr by (vm_compute; discriminate). destruct Hr as (->&a&c&F'&HF&Hok&_&Hw&_&_&_&_&Hs).
  assert (vq' = demo_vq) as -> by (unfold demo_vq; by rewrite E).
  assert (H3 : length (a :: c) = 3%nat).
  { pose proof (v_nf _ _ _ Hok) as Hn. change (num_free demo_vq) with 1 in Hn. pose proof (f_equal length HF) as Hl. rewrite length_app in Hl. simpl in Hl |- *. lia. }
  destruct c as [|b [|d [|]]]; try discriminate H3. injection HF as <- <- <- <-. split; [exact Hok|exact Hw].
Defined.

Lemma vq_get_buf_spec_witness :
  ∃ vq', vq_get_buf (device_writes demo_vq (Used 1 [(0, 513); (0, 0); (0, 0); (0, 0)])) = Ok (7, 513, vq') ∧ vq_ok vq' [0; 1; 2; 3] [].
Proof.
  destruct (vq_get_buf_spec (device_writes demo_vq (Used 1 [(0, 513); (0, 0); (0, 0); (0, 0)])) [3] [([0; 1; 2], 7)]) as (id&len&He&Hr);
    [by apply device_writes_ok; [apply demo_vq_ok|]|].
  vm_compute in He. injection He as <- <-. rewrite decide_False, decide_True in Hr by (vm_compute; discriminate).
  destruct (Hr ltac:(done)) as [H _]. destruct (H [1; 2] 7 [] ltac:(reflexivity)) as (vq'&E&Hok'&_).
  exists vq'. split; [exact E|exact Hok'].
Defined.
