(* ===== verification/Strings.v ===== *)
(** * Memory and string functions: [lib/string.c]

    Memory is a map from addresses to bytes; an access outside it faults.  The
    functions are the loops of the source.  Loops over a string end at its
    terminator; their fuel is the number of bytes of memory, which no string
    exceeds. *)
From stdpp Require Import base tactics numbers list gmap fin_maps sets.
From S2P Require Import Prelude.

Abbreviation memory := (gmap Z Z).

Definition ld (m : memory) (p : Z) : res Z := deref (m !! p).
Definition st (m : memory) (p v : Z) : res memory :=
  match m !! p with Some _ => Ok (<[p := v]> m) | None => Fault end.

(** ** Blocks *)

(** [while (n--) *d++ = *s++;] *)
Fixpoint copy_up (n : nat) (m : memory) (d s : Z) : res memory :=
  match n with
  | O => Ok m
  | S n => let! c := ld m s in let! m := st m d c in copy_up n m (d + 1) (s + 1)
  end.
(** [while (n) { n--; d[n] = s[n]; }] *)
Fixpoint copy_down (n : nat) (m : memory) (d s : Z) : res memory :=
  match n with
  | O => Ok m
  | S n => let! c := ld m (s + Z.of_nat n) in let! m := st m (d + Z.of_nat n) c in copy_down n m d s
  end.

Definition memcpy (m : memory) (dst src : Z) (n : nat) : res memory := copy_up n m dst src.
Definition memmove (m : memory) (dst src : Z) (n : nat) : res memory :=
  if (dst =? src) || bool_decide (n = 0%nat) then Ok m else
  if dst <? src then copy_up n m dst src else copy_down n m dst src.

Fixpoint memset (m : memory) (dst c : Z) (n : nat) : res memory :=
  match n with O => Ok m | S n => let! m := st m dst (u8 c) in memset m (dst + 1) c n end.

(** [*l - *r] of the first difference, or 0. *)
Fixpoint memcmp (m : memory) (l r : Z) (n : nat) : res Z :=
  match n with
  | O => Ok 0
  | S n =>
      let! a := ld m l in let! b := ld m r in
      if a =? b then memcmp m (l + 1) (r + 1) n else Ok (a - b)
  end.

Fixpoint memchr (m : memory) (p c : Z) (n : nat) : res (option Z) :=
  match n with
  | O => Ok None
  | S n => let! a := ld m p in if a =? u8 c then Ok (Some p) else memchr m (p + 1) c n
  end.

(** ** Strings *)

Fixpoint strlen_loop (fuel : nat) (m : memory) (s start : Z) : res Z :=
  let! c := ld m s in
  if truth c then match fuel with O => Loop | S fuel => strlen_loop fuel m (s + 1) start end else Ok (s - start).
Definition strlen (m : memory) (s : Z) : res Z := strlen_loop (size m) m s s.

Fixpoint strnlen_loop (n : nat) (m : memory) (s len : Z) : res Z :=
  match n with
  | O => Ok len
  | S n => let! c := ld m (s + len) in if truth c then strnlen_loop n m s (len + 1) else Ok len
  end.
Definition strnlen (m : memory) (s : Z) (n : nat) : res Z := strnlen_loop n m s 0.

Fixpoint strcmp_loop (fuel : nat) (m : memory) (lhs rhs : Z) : res Z :=
  let! a := ld m lhs in
  let! b := ld m rhs in
  if truth a && (a =? b)
  then match fuel with O => Loop | S fuel => strcmp_loop fuel m (lhs + 1) (rhs + 1) end
  else Ok (a - b).
Definition strcmp (m : memory) (lhs rhs : Z) : res Z := strcmp_loop (size m) m lhs rhs.

Fixpoint strcpy_loop (fuel : nat) (m : memory) (dst src : Z) : res memory :=
  let! c := ld m src in
  let! m := st m dst c in
  if truth c then match fuel with O => Loop | S fuel => strcpy_loop fuel m (dst + 1) (src + 1) end else Ok m.
Definition strcpy (m : memory) (dst src : Z) : res memory := strcpy_loop (size m) m dst src.

(** A [do]-[while] loop: the test for [c] includes the terminator. *)
Fixpoint strchr_loop (fuel : nat) (m : memory) (s c : Z) : res (option Z) :=
  let! a := ld m s in
  if a =? u8 c then Ok (Some s) else
  if truth a then match fuel with O => Loop | S fuel => strchr_loop fuel m (s + 1) c end else Ok None.
Definition strchr (m : memory) (s c : Z) : res (option Z) := strchr_loop (size m) m s c.

Fixpoint strrchr_loop (fuel : nat) (m : memory) (s c : Z) (last : option Z) : res (option Z) :=
  let! a := ld m s in
  let last := if a =? u8 c then Some s else last in
  if truth a then match fuel with O => Loop | S fuel => strrchr_loop fuel m (s + 1) c last end else Ok last.
Definition strrchr (m : memory) (s c : Z) : res (option Z) := strrchr_loop (size m) m s c None.

(** ** Blocks and strings in memory *)

(** The bytes [l] at [p]. *)
Definition block (m : memory) (p : Z) (l : list Z) : Prop := ∀ i x, l !! i = Some x → m !! (p + Z.of_nat i) = Some x.

(** A terminated string. *)
Definition cstr (m : memory) (p : Z) (l : list Z) : Prop := Forall (λ c, 0 < c < 256) l ∧ block m p (l ++ [0]).

Lemma block_cons m p x l : block m p (x :: l) ↔ m !! p = Some x ∧ block m (p + 1) l.
Proof.
  unfold block. split.
  - intros H. split; [by specialize (H 0%nat x eq_refl); rewrite Z.add_0_r in H|]. intros i y Hy. specialize (H (S i) y Hy). rewrite <-H. f_equal. lia.
  - intros [H0 H1] [|i] y Hy; simpl in Hy; [injection Hy as <-; by rewrite Z.add_0_r|]. rewrite <-(H1 i y Hy). f_equal. lia.
Qed.

Lemma block_app m p l k : block m p (l ++ k) ↔ block m p l ∧ block m (p + Z.of_nat (length l)) k.
Proof.
  revert p. induction l as [|x l IH]; intros p; simpl.
  - rewrite Z.add_0_r. split; [intros H; split; [|done]|tauto]. intros i y. by rewrite lookup_nil.
  - rewrite !block_cons, IH. replace (p + 1 + Z.of_nat (length l)) with (p + Z.of_nat (S (length l))) by lia. tauto.
Qed.

Lemma cstr_cons m p c l : cstr m p (c :: l) ↔ 0 < c < 256 ∧ m !! p = Some c ∧ cstr m (p + 1) l.
Proof. unfold cstr. rewrite Forall_cons. simpl. rewrite block_cons. tauto. Qed.

Lemma cstr_nil m p : cstr m p [] ↔ m !! p = Some 0.
Proof.
  unfold cstr. simpl. rewrite block_cons. split; [tauto|]. intros H. split; [done|]. split; [done|]. intros i y. by rewrite lookup_nil.
Qed.

(** A block is no larger than memory. *)
Lemma block_size m p l : block m p l → (length l ≤ size m)%nat.
Proof.
  intros Hb. assert (Hs : list_to_set (C := gset Z) (seqZ p (Z.of_nat (length l))) ⊆ dom m).
  { intros a Ha. rewrite elem_of_list_to_set, elem_of_seqZ in Ha. apply elem_of_dom.
    destruct (lookup_lt_is_Some_2 l (Z.to_nat (a - p))) as [x Hx]; [lia|]. exists x. rewrite <-(Hb _ _ Hx). f_equal. lia. }
  apply subseteq_size in Hs. rewrite size_dom in Hs. rewrite size_list_to_set in Hs by apply NoDup_seqZ. rewrite length_seqZ in Hs. lia.
Qed.

Lemma cstr_size m p l : cstr m p l → (length l < size m)%nat.
Proof. intros [_ H%block_size]. rewrite length_app in H. simpl in H. lia. Qed.

(** ** Copying *)

(** Memory after the [n] bytes at [s] have been copied to [d] at once. *)
Definition moved (m : memory) (d s : Z) (n : nat) (m' : memory) : Prop :=
  ∀ p, m' !! p = if decide (d ≤ p < d + Z.of_nat n) then m !! (s + (p - d)) else m !! p.

Definition mapped_block (m : memory) (p : Z) (n : nat) : Prop := ∀ a, p ≤ a < p + Z.of_nat n → is_Some (m !! a).

Lemma st_ok m p v : is_Some (m !! p) → st m p v = Ok (<[p := v]> m).
Proof. unfold st. by intros [x ->]. Qed.
Lemma ld_ok m p v : m !! p = Some v → ld m p = Ok v.
Proof. unfold ld. by intros ->. Qed.

Lemma mapped_insert m q v p n : mapped_block m p n → mapped_block (<[q := v]> m) p n.
Proof. intros H a Ha. destruct (decide (a = q)) as [->|]; [by rewrite lookup_insert_eq|rewrite lookup_insert_ne; auto]. Qed.

Lemma copy_up_ok n m d s :
  mapped_block m d n → mapped_block m s n → d < s ∨ s + Z.of_nat n ≤ d → ∃ m', copy_up n m d s = Ok m' ∧ moved m d s n m'.
Proof.
  revert m d s. induction n as [|n IH]; intros m d s Hd Hs Ho.
  { exists m. split; [done|]. intros p. by rewrite decide_False by lia. }
  cbn [copy_up]. destruct (Hs s) as [c Hc]; [lia|]. rewrite (ld_ok _ _ _ Hc). cbn [res_bind]. rewrite st_ok by (apply Hd; lia). cbn [res_bind].
  destruct (IH (<[d := c]> m) (d + 1) (s + 1)) as (m'&->&Hm').
  - apply mapped_insert. intros a Ha. apply Hd. lia.
  - apply mapped_insert. intros a Ha. apply Hs. lia.
  - lia.
  - exists m'. split; [done|]. intros p. rewrite Hm'. repeat case_decide; try lia.
    + rewrite lookup_insert_ne by lia. f_equal. lia.
    + assert (p = d) as -> by lia. rewrite lookup_insert_eq, <-Hc. f_equal. lia.
    + by rewrite lookup_insert_ne by lia.
Qed.

Lemma copy_down_ok n m d s :
  mapped_block m d n → mapped_block m s n → s ≤ d → ∃ m', copy_down n m d s = Ok m' ∧ moved m d s n m'.
Proof.
  revert m. induction n as [|n IH]; intros m Hd Hs Ho.
  { exists m. split; [done|]. intros p. by rewrite decide_False by lia. }
  cbn [copy_down]. destruct (Hs (s + Z.of_nat n)) as [c Hc]; [lia|]. rewrite (ld_ok _ _ _ Hc). cbn [res_bind].
  rewrite st_ok by (apply Hd; lia). cbn [res_bind]. destruct (IH (<[d + Z.of_nat n := c]> m)) as (m'&->&Hm').
  - apply mapped_insert. intros a Ha. apply Hd. lia.
  - apply mapped_insert. intros a Ha. apply Hs. lia.
  - done.
  - exists m'. split; [done|]. intros p. rewrite Hm'. repeat case_decide; try lia.
    + by rewrite lookup_insert_ne by lia.
    + assert (p = d + Z.of_nat n) as -> by lia. rewrite lookup_insert_eq, <-Hc. f_equal. lia.
    + by rewrite lookup_insert_ne by lia.
Qed.

Lemma memset_ok m d c n :
  mapped_block m d n → ∃ m', memset m d c n = Ok m' ∧ ∀ p, m' !! p = if decide (d ≤ p < d + Z.of_nat n) then Some (u8 c) else m !! p.
Proof.
  revert m d. induction n as [|n IH]; intros m d Hd.
  { exists m. split; [done|]. intros p. by rewrite decide_False by lia. }
  cbn [memset]. rewrite st_ok by (apply Hd; lia). cbn [res_bind]. destruct (IH (<[d := u8 c]> m) (d + 1)) as (m'&->&Hm').
  { apply mapped_insert. intros a Ha. apply Hd. lia. }
  exists m'. split; [done|]. intros p. rewrite Hm'. repeat case_decide; try lia; [done| |by rewrite lookup_insert_ne by lia].
  assert (p = d) as -> by lia. by rewrite lookup_insert_eq.
Qed.

(** ** Strings *)

Lemma strlen_loop_ok fuel m s l start :
  cstr m s l → (length l ≤ fuel)%nat → strlen_loop fuel m s start = Ok (s + Z.of_nat (length l) - start).
Proof.
  revert s l. induction fuel as [|fuel IH]; intros s [|c l] Hs Hf; simpl in Hf; try lia; cbn [strlen_loop].
  - apply cstr_nil in Hs. rewrite (ld_ok _ _ _ Hs). cbn. by rewrite Z.add_0_r.
  - apply cstr_nil in Hs. rewrite (ld_ok _ _ _ Hs). cbn. by rewrite Z.add_0_r.
  - apply cstr_cons in Hs as (Hc&Hp&Hs). rewrite (ld_ok _ _ _ Hp). cbn [res_bind]. unfold truth. replace (c =? 0) with false by lia.
    cbn [negb]. rewrite (IH _ l) by (done || lia). f_equal. simpl. lia.
Qed.

Lemma strnlen_loop_ok n m s l len :
  cstr m (s + len) l → strnlen_loop n m s len = Ok (len + Z.min (Z.of_nat n) (Z.of_nat (length l))).
Proof.
  revert len l. induction n as [|n IH]; intros len l Hs; cbn [strnlen_loop]; [f_equal; lia|]. destruct l as [|c l].
  - apply cstr_nil in Hs. rewrite (ld_ok _ _ _ Hs). cbn [res_bind truth Z.eqb negb]. f_equal. simpl. lia.
  - apply cstr_cons in Hs as (Hc&Hp&Hs). rewrite (ld_ok _ _ _ Hp). cbn [res_bind]. unfold truth. replace (c =? 0) with false by lia.
    cbn [negb]. rewrite (IH _ l) by by rewrite <-Z.add_assoc in Hs. f_equal. simpl. lia.
Qed.

Lemma u8_small c : 0 ≤ c < 256 → u8 c = c.
Proof. apply (Z.mod_small c 256). Qed.

(** [p] is the first (last) place of [c] in the string at [s] with its
    terminator. *)
Definition first_at (s : Z) (l : list Z) (c : Z) (p : option Z) : Prop :=
  match p with
  | Some p => ∃ i, p = s + Z.of_nat i ∧ l !! i = Some c ∧ ∀ j, (j < i)%nat → l !! j ≠ Some c
  | None => c ∉ l
  end.
Definition last_at (s : Z) (l : list Z) (c : Z) (p : option Z) : Prop :=
  match p with
  | Some p => ∃ i, p = s + Z.of_nat i ∧ l !! i = Some c ∧ ∀ j, (i < j)%nat → l !! j ≠ Some c
  | None => c ∉ l
  end.

Lemma strchr_loop_ok fuel m s l c :
  cstr m s l → (length l ≤ fuel)%nat → 0 ≤ c < 256 → ∃ p, strchr_loop fuel m s c = Ok p ∧ first_at s (l ++ [0]) c p.
Proof.
  intros Hs Hf Hc. revert s l Hs Hf. induction fuel as [|fuel IH]; intros s [|a l] Hs Hf; simpl in Hf; try lia; cbn [strchr_loop];
    rewrite (u8_small c) by done.
  1,2: apply cstr_nil in Hs; rewrite (ld_ok _ _ _ Hs); cbn [res_bind]; change (truth 0) with false; destruct (Z.eqb_spec 0 c) as [<-|Hne];
    [exists (Some s); split; [done|]; exists 0%nat; split; [lia|]; split; [done|]; lia|exists None; split; [done|set_solver]].
  apply cstr_cons in Hs as (Ha&Hp&Hs). rewrite (ld_ok _ _ _ Hp). cbn [res_bind]. destruct (Z.eqb_spec a c) as [->|Hne].
  { exists (Some s). split; [done|]. exists 0%nat. split; [lia|]. split; [done|]. lia. }
  unfold truth. replace (a =? 0) with false by lia. cbn [negb]. destruct (IH (s + 1) l Hs ltac:(lia)) as (p&->&Hat). exists p. split; [done|].
  destruct p as [p|]; [|simpl; set_solver]. destruct Hat as (i&->&Hi&Hj). exists (S i). split; [lia|]. split; [done|].
  intros [|j] Hji; simpl; [congruence|apply Hj; lia].
Qed.

Lemma strrchr_loop_ok fuel m s l c acc :
  cstr m s l → (length l ≤ fuel)%nat → 0 ≤ c < 256 →
  ∃ p, strrchr_loop fuel m s c acc = Ok p ∧ (if decide (c ∈ l ++ [0]) then last_at s (l ++ [0]) c p ∧ p ≠ None else p = acc).
Proof.
  intros Hs Hf Hc. revert s l acc Hs Hf. induction fuel as [|fuel IH]; intros s [|a l] acc Hs Hf; simpl in Hf; try lia; cbn [strrchr_loop];
    rewrite (u8_small c) by done.
  1,2: apply cstr_nil in Hs; rewrite (ld_ok _ _ _ Hs); cbn [res_bind]; change (truth 0) with false; destruct (Z.eqb_spec 0 c) as [<-|Hne];
    [exists (Some s); split; [done|]; rewrite decide_True by set_solver; split; [|done]; exists 0%nat; split; [lia|]; split; [done|];
       intros [|j] ?; [lia|done]
    |exists acc; split; [done|]; by rewrite decide_False by set_solver].
  apply cstr_cons in Hs as (Ha&Hp&Hs). rewrite (ld_ok _ _ _ Hp). cbn [res_bind]. unfold truth. replace (a =? 0) with false by lia. cbn [negb].
  destruct (IH (s + 1) l (if a =? c then Some s else acc) Hs ltac:(lia)) as (p&->&Hat). exists p. split; [done|].
  destruct (decide (c ∈ l ++ [0])) as [Hin|Hn].
  - rewrite decide_True by (simpl; set_solver). destruct p as [p|]; [|by destruct Hat]. destruct Hat as [(i&->&Hi&Hj) _]. split; [|done].
    exists (S i). split; [lia|]. split; [done|]. intros [|j] Hji; simpl; [lia|apply Hj; lia].
  - subst p. destruct (Z.eqb_spec a c) as [->|Hne].
    + rewrite decide_True by (simpl; set_solver). split; [|done]. exists 0%nat. split; [lia|]. split; [done|]. intros [|j] Hji; [lia|]. simpl.
      intros Hj. by apply Hn, list_elem_of_lookup_2 with j.
    + rewrite decide_False; [done|]. simpl. set_solver.
Qed.

(** Lexicographic order of byte strings. *)
Fixpoint lex_lt (l k : list Z) : Prop :=
  match l, k with
  | _, [] => False
  | [], _ :: _ => True
  | a :: l, b :: k => a < b ∨ a = b ∧ lex_lt l k
  end.

Lemma strcmp_loop_ok fuel m p q l k :
  cstr m p l → cstr m q k → (length l ≤ fuel)%nat →
  ∃ r, strcmp_loop fuel m p q = Ok r ∧ (r = 0 ↔ l = k) ∧ (r < 0 ↔ lex_lt l k) ∧ (0 < r ↔ lex_lt k l).
Proof.
  revert p q l k. induction fuel as [|fuel IH]; intros p q [|a l] k Hp Hq Hf; simpl in Hf; try lia; cbn [strcmp_loop].
  1,2: apply cstr_nil in Hp; rewrite (ld_ok _ _ _ Hp); destruct k as [|b k];
    [apply cstr_nil in Hq; rewrite (ld_ok _ _ _ Hq); exists 0; split; [done|]; simpl; (split; [done|lia])
    |apply cstr_cons in Hq as (Hb&Hq&_); rewrite (ld_ok _ _ _ Hq); exists (0 - b); split; [done|]; simpl; (split; [split; [lia|done]|lia])].
  apply cstr_cons in Hp as (Ha&Hpa&Hp). rewrite (ld_ok _ _ _ Hpa). cbn [res_bind]. destruct k as [|b k].
  { apply cstr_nil in Hq. rewrite (ld_ok _ _ _ Hq). cbn [res_bind]. replace (a =? 0) with false by lia. rewrite andb_false_r.
    exists (a - 0). split; [done|]. simpl. split; [split; [lia|done]|lia]. }
  apply cstr_cons in Hq as (Hb&Hqb&Hq). rewrite (ld_ok _ _ _ Hqb). cbn [res_bind]. unfold truth. replace (a =? 0) with false by lia. cbn [negb andb].
  destruct (Z.eqb_spec a b) as [->|Hne].
  - destruct (IH (p + 1) (q + 1) l k Hp Hq ltac:(lia)) as (r&->&H0&H1&H2). exists r. split; [done|]. simpl. rewrite H0, H1, H2.
    split; [split; [by intros ->|congruence]|]. split; (split; [by right|intros [?|[_ ?]]; [lia|done]]).
  - exists (a - b). split; [done|]. simpl. split; [split; [lia|congruence]|lia].
Qed.

Lemma strcpy_loop_ok fuel m d s l :
  cstr m s l → mapped_block m d (S (length l)) → d < s ∨ s + Z.of_nat (length l) < d → (length l ≤ fuel)%nat →
  ∃ m', strcpy_loop fuel m d s = Ok m' ∧ moved m d s (S (length l)) m'.
Proof.
  revert m d s l. induction fuel as [|fuel IH]; intros m d s [|a l] Hs Hd Ho Hf; simpl in Hf; try lia; cbn [strcpy_loop].
  1,2: apply cstr_nil in Hs; rewrite (ld_ok _ _ _ Hs); cbn [res_bind]; rewrite st_ok by (apply Hd; simpl; lia); cbn [res_bind];
    (exists (<[d := 0]> m)); (split; [done|]); intros p; simpl; case_decide;
    [assert (p = d) as -> by lia; rewrite lookup_insert_eq, <-Hs; f_equal; lia|by rewrite lookup_insert_ne by lia].
  apply cstr_cons in Hs as (Ha&Hp&Hs). rewrite (ld_ok _ _ _ Hp). cbn [res_bind]. rewrite st_ok by (apply Hd; simpl; lia). cbn [res_bind].
  unfold truth. replace (a =? 0) with false by lia. cbn [negb]. simpl in Hd, Ho. destruct (IH (<[d := a]> m) (d + 1) (s + 1) l) as (m'&->&Hm').
  - destruct Hs as [Hs1 Hs2]. split; [done|]. intros i x Hx. pose proof (lookup_lt_Some _ _ _ Hx) as Hlt. rewrite length_app in Hlt. simpl in Hlt.
    rewrite lookup_insert_ne by lia. by apply Hs2.
  - apply mapped_insert. intros x Hx. apply Hd. lia.
  - lia.
  - lia.
  - exists m'. split; [done|]. intros p. rewrite Hm'. simpl length. repeat case_decide; try lia.
    + rewrite lookup_insert_ne by lia. f_equal. lia.
    + assert (p = d) as -> by lia. rewrite lookup_insert_eq, <-Hp. f_equal. lia.
    + by rewrite lookup_insert_ne by lia.
Qed.

Lemma memcmp_ok m p q l k n :
  block m p l → block m q k → length l = n → length k = n →
  ∃ r, memcmp m p q n = Ok r ∧ (r = 0 ↔ l = k) ∧ (r < 0 ↔ lex_lt l k) ∧ (0 < r ↔ lex_lt k l).
Proof.
  revert p q l k. induction n as [|n IH]; intros p q [|a l] [|b k] Hp Hq Hl Hk; try done; cbn [memcmp].
  { exists 0. split; [done|]. split; [done|]. simpl. lia. }
  apply block_cons in Hp as [Ha Hp], Hq as [Hb Hq]. rewrite (ld_ok _ _ _ Ha), (ld_ok _ _ _ Hb). cbn [res_bind]. simpl in Hl, Hk.
  destruct (Z.eqb_spec a b) as [->|Hne].
  - destruct (IH _ _ l k Hp Hq) as (r&->&H0&H1&H2); [lia..|]. exists r. split; [done|]. simpl. rewrite H0, H1, H2.
    split; [split; [by intros ->|congruence]|]. split; (split; [by right|intros [?|[_ ?]]; [lia|done]]).
  - exists (a - b). split; [done|]. simpl. split; [split; [lia|congruence]|lia].
Qed.

Lemma memchr_ok m p l c : block m p l → 0 ≤ c < 256 → ∃ x, memchr m p c (length l) = Ok x ∧ first_at p l c x.
Proof.
  revert p. induction l as [|a l IH]; intros p Hp Hc; cbn [memchr length].
  { exists None. split; [done|]. simpl. set_solver. }
  apply block_cons in Hp as [Ha Hp]. rewrite (ld_ok _ _ _ Ha), u8_small by done. cbn [res_bind]. destruct (Z.eqb_spec a c) as [->|Hne].
  { exists (Some p). split; [done|]. exists 0%nat. split; [lia|]. split; [done|]. lia. }
  destruct (IH (p + 1) Hp Hc) as (x&->&Hx). exists x. split; [done|]. destruct x as [x|]; [|simpl in *; set_solver].
  destruct Hx as (i&->&Hi&Hj). exists (S i). split; [lia|]. split; [done|]. intros [|j] Hji; simpl; [congruence|apply Hj; lia].
Qed.

(** Only the low byte of [c] is looked for. *)
Lemma memchr_u8 m p c n : memchr m p c n = memchr m p (u8 c) n.
Proof.
  revert p. induction n as [|n IH]; intros p; cbn [memchr]; [done|]. rewrite IH.
  assert (u8 (u8 c) = u8 c) as -> by (unfold u8, wrap; by rewrite Z.mod_mod). done.
Qed.

Lemma block_mapped m p l n : block m p l → length l = n → mapped_block m p n.
Proof.
  intros Hb <- a Ha. destruct (lookup_lt_is_Some_2 l (Z.to_nat (a - p))) as [x Hx]; [lia|].
  exists x. rewrite <-(Hb _ _ Hx). f_equal. lia.
Qed.

(** C33: the block functions compute their reference on two blocks of [n] bytes,
    [l] at [dst] and [k] at [src], which may overlap.  [memmove] leaves memory as
    if all bytes had been read before any was written, however the blocks
    overlap; [memcpy] does so when they are disjoint; [memset] writes exactly
    its block; [memcmp] is zero exactly for equal blocks and otherwise has the
    sign of their lexicographic order as unsigned bytes; [memchr] returns the
    first place of the low byte of [c], or NULL when there is none.  None of
    them faults inside mapped memory. *)
Theorem block_functions_spec m dst src n c l k :
  block m dst l → block m src k → length l = n → length k = n →
  (∃ m', memmove m dst src n = Ok m' ∧ moved m dst src n m') ∧
  (dst + Z.of_nat n ≤ src ∨ src + Z.of_nat n ≤ dst → ∃ m', memcpy m dst src n = Ok m' ∧ moved m dst src n m') ∧
  (∃ m', memset m dst c n = Ok m' ∧ ∀ p, m' !! p = if decide (dst ≤ p < dst + Z.of_nat n) then Some (u8 c) else m !! p) ∧
  (∃ r, memcmp m dst src n = Ok r ∧ (r = 0 ↔ l = k) ∧ (r < 0 ↔ lex_lt l k) ∧ (0 < r ↔ lex_lt k l)) ∧
  (∃ x, memchr m dst c n = Ok x ∧ first_at dst l (u8 c) x).
Proof.
  intros Hl Hk Hln Hkn. pose proof (block_mapped _ _ _ _ Hl Hln) as Hd. pose proof (block_mapped _ _ _ _ Hk Hkn) as Hs.
  split; [|split; [|split; [by apply memset_ok|split; [by apply memcmp_ok|]]]].
  - unfold memmove. destruct (Z.eqb_spec dst src) as [->|Hne]; simpl.
    { exists m. split; [done|]. intros p. case_decide; [|done]. f_equal. lia. }
    case_bool_decide as Hn; [rewrite Hn; exists m; split; [done|]; intros p; by rewrite decide_False by lia|].
    destruct (Z.ltb_spec dst src); [apply copy_up_ok; auto|apply copy_down_ok; auto; lia].
  - intros Ho. destruct (decide (n = 0%nat)) as [->|]; [exists m; split; [done|]; intros p; by rewrite decide_False by lia|].
    apply copy_up_ok; [done|done|]. lia.
  - rewrite memchr_u8, <-Hln. apply memchr_ok; [done|]. unfold u8, wrap. apply Z.mod_pos_bound. lia.
Qed.

(** the string functions mean what C says.  On terminated strings
    [strlen] and [strnlen] return the (bounded) length, [strcmp] is zero exactly
    for equal strings and otherwise has the sign of their lexicographic order as
    unsigned bytes, and [strchr] and [strrchr] return the first and the last
    place of a byte, the terminator included, or NULL when there is none;
    [strcpy] copies the string with its terminator to memory that does not
    overlap it from above; [memcmp] and [memchr] agree with [strcmp] and
    [strchr] on blocks. *)
Theorem string_functions_spec m p q l k c n :
  cstr m p l → cstr m q k → 0 ≤ c < 256 →
  strlen m p = Ok (Z.of_nat (length l)) ∧
  strnlen m p n = Ok (Z.min (Z.of_nat n) (Z.of_nat (length l))) ∧
  (∃ r, strcmp m p q = Ok r ∧ (r = 0 ↔ l = k) ∧ (r < 0 ↔ lex_lt l k) ∧ (0 < r ↔ lex_lt k l)) ∧
  (∃ x, strchr m p c = Ok x ∧ first_at p (l ++ [0]) c x) ∧
  (∃ x, strrchr m p c = Ok x ∧ last_at p (l ++ [0]) c x) ∧
  (∀ d, mapped_block m d (S (length l)) → d < p ∨ p + Z.of_nat (length l) < d →
     ∃ m', strcpy m d p = Ok m' ∧ moved m d p (S (length l)) m') ∧
  (length k = length l → ∃ r, memcmp m p q (length l) = Ok r ∧ (r = 0 ↔ l = k) ∧ (r < 0 ↔ lex_lt l k) ∧ (0 < r ↔ lex_lt k l)) ∧
  (∃ x, memchr m p c (length l) = Ok x ∧ first_at p l c x).
Proof.
  intros Hp Hq Hc. pose proof (cstr_size _ _ _ Hp) as Hl. split_and!.
  - unfold strlen. rewrite (strlen_loop_ok _ _ _ l) by (done || lia). f_equal. lia.
  - unfold strnlen. rewrite (strnlen_loop_ok _ _ _ l); [done|]. by rewrite Z.add_0_r.
  - apply strcmp_loop_ok; [done|done|lia].
  - apply strchr_loop_ok; [done|lia|done].
  - destruct (strrchr_loop_ok (size m) m p l c None Hp ltac:(lia) Hc) as (x&E&Hx). exists x. split; [done|].
    case_decide; [apply Hx|by subst].
  - intros d Hd Ho. apply strcpy_loop_ok; auto with lia.
  - intros Hk. destruct Hp as [_ [Hp _]%block_app], Hq as [_ [Hq _]%block_app]. by apply memcmp_ok.
  - destruct Hp as [_ [Hp _]%block_app]. by apply memchr_ok.
Qed.

(** ** Witnesses *)

Definition demo_mem : memory := list_to_map (zip (seqZ 100 8) [97; 98; 0; 97; 99; 0; 7; 7]).

Lemma block_functions_spec_witness :
  (∃ m', memmove demo_mem 101 100 4 = Ok m' ∧ m' !! 101 = Some 97 ∧ m' !! 102 = Some 98 ∧ m' !! 104 = Some 97) ∧
  ∃ r, memcmp demo_mem 101 100 4 = Ok r ∧ 0 < r.
Proof.
  assert (block demo_mem 101 [98; 0; 97; 99] ∧ block demo_mem 100 [97; 98; 0; 97]) as [Hb1 Hb2].
  { split; intros [|[|[|[|i]]]] x Hx; by inversion Hx. }
  destruct (block_functions_spec demo_mem 101 100 4 0 _ _ Hb1 Hb2 eq_refl eq_refl) as ((m'&E&Hm)&_&_&(r&Er&_&_&Hr)&_).
  split; [|exists r; split; [exact Er|]; apply Hr; simpl; lia]. exists m'. split; [exact E|]. rewrite !Hm, !decide_True by lia. repeat split; reflexivity.
Defined.

Lemma string_functions_spec_witness :
  strlen demo_mem 100 = Ok 2 ∧ ∃ r, strcmp demo_mem 100 103 = Ok r ∧ r < 0.
Proof.
  assert (Hs : ∀ p a b, demo_mem !! p = Some a → demo_mem !! (p + 1) = Some b → demo_mem !! (p + 1 + 1) = Some 0 → 0 < a < 256 → 0 < b < 256 →
    cstr demo_mem p [a; b]) by (intros p a b ? ? ? ? ?; rewrite !cstr_cons, cstr_nil; done).
  destruct (string_functions_spec demo_mem 100 103 [97; 98] [97; 99] 98 5) as (Hl&_&(r&E&_&Hlt&_)&_); [by apply Hs..|lia|].
  split; [exact Hl|]. exists r. split; [exact E|]. apply Hlt. simpl. lia.
Defined.
