(* ===== verification/Vsprintf.v ===== *)
(** * Formatted output: [lib/vsprintf.c]

    Bytes written so far are a list whose length is [*len]; [buf] only decides
    whether they are stored, so it does not appear.  Arguments are a list with
    the type each directive fetches; fetching another type faults, as does
    running out of the digit buffer. *)
From stdpp Require Import base tactics numbers list.
From S2P Require Import Prelude.

(** An argument as [va_arg] fetches it: an [int] or [unsigned int], a pointer,
    a string or NULL. *)
Inductive va_arg := VaInt (n : Z) | VaPtr (p : Z) | VaStr (s : option (list Z)).

Definition append (out : list Z) (c : Z) : Z * list Z :=
  if Z.of_nat (length out) =? INT32_MAX then (- EOVERFLOW, out) else (0, out ++ [c]).

(** Appending byte after byte until one fails. *)
Fixpoint append_all (out l : list Z) : Z * list Z :=
  match l with
  | [] => (0, out)
  | c :: l => let (ret, out) := append out c in if ret <? 0 then (ret, out) else append_all out l
  end.

(** The byte [digits[d]] of ["0123456789abcdef"]. *)
Definition digit (d : Z) : Z := if d <? 10 then 48 + d else 87 + d.
(** [sizeof(tmp)] *)
Definition TMP_SIZE : nat := 24.

(** The [do]-[while] loop that fills [tmp] from its end; [acc] is the filled part. *)
Fixpoint digits_loop (fuel : nat) (base value : Z) (acc : list Z) : res (list Z) :=
  if decide (TMP_SIZE ≤ length acc)%nat then Fault else
  let acc := digit (value mod base) :: acc in
  let value := value / base in
  if truth value then match fuel with O => Loop | S fuel => digits_loop fuel base value acc end else Ok acc.

Definition number (out : list Z) (value base : Z) : res (Z * list Z) :=
  let! tmp := digits_loop 64 base value [] in
  Ok (append_all out tmp).

Definition null_text : list Z := [40; 110; 117; 108; 108; 41].   (* (null) *)

(** The [switch]: the result, the output and the remaining arguments. *)
Definition directive (d : Z) (out : list Z) (args : list va_arg) : res (Z * list Z * list va_arg) :=
  if d =? 37 then (* % *) let (ret, out) := append out 37 in Ok (ret, out, args) else
  if d =? 99 then (* c *)
    match args with VaInt n :: args => let (ret, out) := append out (u8 n) in Ok (ret, out, args) | _ => Fault end else
  if d =? 115 then (* s *)
    match args with VaStr s :: args => let (ret, out) := append_all out (default null_text s) in Ok (ret, out, args) | _ => Fault end else
  if d =? 100 then (* d *)
    match args with
    | VaInt n :: args =>
        let value := s32 n in
        let magnitude := u32 value in
        let '(ret, out, magnitude) :=
          if value <? 0 then let (ret, out) := append out 45 in (ret, out, u32 (0 - magnitude)) else (0, out, magnitude) in
        let! (ret, out) := if ret =? 0 then number out magnitude 10 else Ok (ret, out) in
        Ok (ret, out, args)
    | _ => Fault
    end else
  if (d =? 117) || (d =? 120) then (* u, x *)
    match args with
    | VaInt n :: args => let! (ret, out) := number out (u32 n) (if d =? 117 then 10 else 16) in Ok (ret, out, args)
    | _ => Fault
    end else
  if d =? 112 then (* p *)
    match args with
    | VaPtr p :: args =>
        let (ret, out) := append out 48 in
        let (ret, out) := if ret =? 0 then append out 120 else (ret, out) in
        let! (ret, out) := if ret =? 0 then number out p 16 else Ok (ret, out) in
        Ok (ret, out, args)
    | _ => Fault
    end else
  Ok (- EINVAL, out, args).

Fixpoint format_loop (fmt : list Z) (args : list va_arg) (out : list Z) : res (Z * list Z) :=
  match fmt with
  | [] => Ok (0, out)
  | c :: fmt =>
      if negb (c =? 37) then
        let (ret, out) := append out c in
        if ret <? 0 then Ok (ret, out) else format_loop fmt args out
      else
        match fmt with
        | [] => Ok (- EINVAL, out)
        | d :: fmt =>
            let! (ret, out, args) := directive d out args in
            if ret <? 0 then Ok (ret, out) else format_loop fmt args out
        end
  end.

(** The return value and the bytes before the terminator. *)
Definition vsprintf (fmt : list Z) (args : list va_arg) : res (Z * list Z) :=
  let! (ret, out) := format_loop fmt args [] in
  Ok (if ret <? 0 then ret else Z.of_nat (length out), out).

(** ** Numerals *)

Definition digit_val (c : Z) : option Z :=
  if (48 <=? c) && (c <? 58) then Some (c - 48) else if (97 <=? c) && (c <? 103) then Some (c - 87) else None.

(** The value of a list of digits, most significant first. *)
Definition value (base : Z) (l : list Z) : Z := foldl (λ acc c, acc * base + default 0 (digit_val c)) 0 l.

(** [l] is the usual numeral of [n]: digits below the base, no leading zero. *)
Definition numeral (base n : Z) (l : list Z) : Prop :=
  l ≠ [] ∧ Forall (λ c, ∃ d, digit_val c = Some d ∧ 0 ≤ d < base) l ∧ value base l = n ∧ (head l = Some 48 → l = [48]).

Lemma digit_val_digit d : 0 ≤ d < 16 → digit_val (digit d) = Some d.
Proof.
  intros Hd. unfold digit, digit_val. destruct (Z.ltb_spec d 10).
  - replace ((48 <=? 48 + d) && (48 + d <? 58)) with true by lia. f_equal. lia.
  - replace ((48 <=? 87 + d) && (87 + d <? 58)) with false by lia. replace ((97 <=? 87 + d) && (87 + d <? 103)) with true by lia. f_equal. lia.
Qed.

Lemma value_cons base c l : value base (c :: l) = default 0 (digit_val c) * base ^ Z.of_nat (length l) + value base l.
Proof.
  unfold value. change (foldl _ 0 (c :: l)) with (foldl (λ acc c, acc * base + default 0 (digit_val c)) (0 * base + default 0 (digit_val c)) l).
  rewrite Z.mul_0_l, Z.add_0_l. generalize (default 0 (digit_val c)). induction l as [|x l IH] using rev_ind; intros a; simpl; [lia|].
  rewrite !foldl_app, length_app. simpl. rewrite (IH a), Nat2Z.inj_add, Z.pow_add_r by lia. change (Z.of_nat 1) with 1. rewrite Z.pow_1_r. ring.
Qed.

Lemma digits_loop_ok fuel k base n acc :
  2 ≤ base ≤ 16 → 0 ≤ n < base ^ Z.of_nat k → (0 < k)%nat → (k + length acc ≤ TMP_SIZE)%nat → (k ≤ S fuel)%nat →
  ∃ l, digits_loop fuel base n acc = Ok (l ++ acc) ∧ numeral base n l.
Proof.
  intros Hb. revert k n acc. induction fuel as [|fuel IH]; intros k n acc Hn Hk Hl Hf; cbn [digits_loop]; rewrite decide_False by lia;
    pose proof (Z.mod_pos_bound n base ltac:(lia)) as Hm; pose proof (Z.div_mod n base ltac:(lia)) as Hdm.
  all: destruct (decide (n / base = 0)) as [H0|H0].
  1,3: rewrite H0; (exists [digit (n mod base)]); (split; [done|]); (split; [done|]); (split; [constructor; [|done];
         exists (n mod base); split; [apply digit_val_digit; lia|lia]|]); (split; [|by intros [= ->]]);
       rewrite value_cons, digit_val_digit by lia; simpl; rewrite Z.mul_1_r; unfold value; simpl; lia.
  - exfalso. assert (k = 1%nat) as -> by lia. change (Z.of_nat 1) with 1 in Hn. rewrite Z.pow_1_r in Hn. by rewrite Z.div_small in H0.
  - assert (Hpos : 0 < n / base) by (pose proof (Z.div_pos n base ltac:(lia) ltac:(lia)); lia).
    unfold truth. replace (n / base =? 0) with false by lia. cbn [negb].
    destruct k as [|k]; [lia|]. destruct (decide (k = 0%nat)) as [->|Hk0].
    { change (Z.of_nat 1) with 1 in Hn. rewrite Z.pow_1_r in Hn. by rewrite Z.div_small in H0. }
    destruct (IH k (n / base) (digit (n mod base) :: acc)) as (l&->&Hne&Hd&Hv&Hz).
    + split; [lia|]. apply Z.div_lt_upper_bound; [lia|]. rewrite <-Z.pow_succ_r by lia. replace (Z.succ (Z.of_nat k)) with (Z.of_nat (S k)) by lia. lia.
    + lia.
    + simpl. lia.
    + lia.
    + exists (l ++ [digit (n mod base)]). rewrite <-app_assoc. split; [done|]. split; [by destruct l|]. split; [|split].
      * apply Forall_app. split; [done|]. constructor; [|done]. exists (n mod base). split; [apply digit_val_digit; lia|lia].
      * unfold value. rewrite foldl_app. simpl. fold (value base l). rewrite Hv, digit_val_digit by lia. simpl. lia.
      * destruct l as [|x l]; [done|]. simpl. intros [= ->]. specialize (Hz eq_refl). injection Hz as ->. unfold value in Hv. simpl in Hv. lia.
Qed.

(** ** What a format means *)

Inductive item := Lit (c : Z) | Num (base n : Z).

Definition number_items (d n : Z) : list item :=
  if d =? 100 then (if s32 n <? 0 then [Lit 45; Num 10 (- s32 n)] else [Num 10 (s32 n)]) else [Num (if d =? 117 then 10 else 16) (u32 n)].

(** The literal bytes and the numbers a format asks for with these arguments. *)
Fixpoint items (fmt : list Z) (args : list va_arg) : option (list item) :=
  match fmt with
  | [] => Some []
  | c :: fmt =>
      if negb (c =? 37) then cons (Lit c) <$> items fmt args else
      match fmt with
      | [] => None
      | d :: fmt =>
          if d =? 37 then cons (Lit 37) <$> items fmt args else
          match args with
          | VaInt n :: args =>
              if d =? 99 then cons (Lit (u8 n)) <$> items fmt args else
              if (d =? 100) || (d =? 117) || (d =? 120) then app (number_items d n) <$> items fmt args else None
          | VaStr s :: args => if d =? 115 then app (Lit <$> default null_text s) <$> items fmt args else None
          | VaPtr p :: args => if d =? 112 then app [Lit 48; Lit 120; Num 16 p] <$> items fmt args else None
          | [] => None
          end
      end
  end.

Inductive spells : list item → list Z → Prop :=
  | spells_nil : spells [] []
  | spells_lit c l out : spells l out → spells (Lit c :: l) (c :: out)
  | spells_num base n l ds out : numeral base n ds → spells l out → spells (Num base n :: l) (ds ++ out).

Lemma spells_app l1 l2 o1 o2 : spells l1 o1 → spells l2 o2 → spells (l1 ++ l2) (o1 ++ o2).
Proof. induction 1; intros H2; simpl; [done|constructor; auto|rewrite <-app_assoc; constructor; auto]. Qed.

Lemma spells_lits l : spells (Lit <$> l) l.
Proof. induction l; simpl; constructor; auto. Qed.

(** Arguments within the range of their types. *)
Definition arg_ok (a : va_arg) : Prop :=
  match a with VaPtr p => in_u64 p | _ => True end.

Definition fits (out : list Z) : Prop := Z.of_nat (length out) ≤ INT32_MAX.
#[global] Instance fits_dec out : Decision (fits out).
Proof. unfold fits. apply _. Defined.
Definition MAXN : nat := Z.to_nat INT32_MAX.

(** Everything that fits, or an error after as much as fits. *)
Definition limited (out : list Z) : Z * list Z := if decide (fits out) then (0, out) else (- EOVERFLOW, take MAXN out).

Lemma fits_app l k : fits (l ++ k) → fits l.
Proof. unfold fits. rewrite length_app. lia. Qed.

Lemma limited_full out l : ¬ fits out → limited (out ++ l) = limited out.
Proof.
  intros Hn. unfold limited. rewrite !decide_False; [|done|by intros ?%fits_app]. f_equal. rewrite take_app_le; [done|].
  unfold fits, MAXN in *. lia.
Qed.

Lemma append_all_ok out l : fits out → append_all out l = limited (out ++ l).
Proof.
  revert out. induction l as [|c l IH]; intros out Hf; cbn [append_all].
  { rewrite app_nil_r. unfold limited. by rewrite decide_True. }
  unfold append. destruct (Z.eqb_spec (Z.of_nat (length out)) INT32_MAX) as [He|Hne]; cbn [Z.ltb Z.compare Z.opp].
  - change (- EOVERFLOW <? 0) with true. unfold limited. rewrite decide_False by (unfold fits; rewrite length_app; simpl; lia).
    f_equal. rewrite take_app_le by (unfold MAXN; lia). symmetry. apply take_ge. unfold MAXN. lia.
  - change (0 <? 0) with false. rewrite IH; [by rewrite <-app_assoc|]. unfold fits in *. rewrite length_app. simpl. lia.
Qed.

Lemma append_ok out c : fits out → append out c = limited (out ++ [c]).
Proof.
  intros Hf. rewrite <-append_all_ok by done. cbn [append_all]. destruct (append out c) as [ret o] eqn:E.
  destruct (ret <? 0) eqn:Er; [done|]. unfold append in E. destruct (_ =? INT32_MAX); by simplify_eq.
Qed.

Lemma limited_cases out : (limited out = (0, out) ∧ fits out) ∨ (limited out = (- EOVERFLOW, take MAXN out) ∧ ¬ fits out).
Proof. unfold limited. case_decide; auto. Qed.

Lemma number_ok out n base :
  fits out → in_u64 n → base = 10 ∨ base = 16 → ∃ ds, numeral base n ds ∧ number out n base = Ok (limited (out ++ ds)).
Proof.
  intros Hf Hn Hb. unfold number, in_u64 in *.
  destruct (digits_loop_ok 64 20 base n []) as (l&E&Hl); [lia| |lia|unfold TMP_SIZE; simpl; lia|lia|].
  { change (Z.of_nat 20) with 20. destruct Hb as [->| ->]; lia. }
  exists l. split; [done|]. rewrite app_nil_r in E. rewrite E. cbn [res_bind]. by rewrite append_all_ok.
Qed.

(** One directive writes what its items spell. *)
Lemma int_directive_ok d n out args :
  fits out → d = 100 ∨ d = 117 ∨ d = 120 →
  ∃ o ret out', spells (number_items d n) o ∧ limited (out ++ o) = (ret, out') ∧ directive d out (VaInt n :: args) = Ok (ret, out', args).
Proof.
  intros Hf Hd. destruct Hd as [->|Hd].
  - unfold directive, number_items. cbn [Z.eqb Pos.eqb]. assert (Hr : - 2 ^ 31 ≤ s32 n < 2 ^ 31) by (unfold s32; Z.to_euclidean_division_equations; lia).
    generalize dependent (s32 n). clear n. intros n Hr. destruct (Z.ltb_spec n 0) as [Hneg|Hpos].
    + rewrite append_ok by done. destruct (limited_cases (out ++ [45])) as [[-> Hf']|[-> Hf']].
      * cbn [Z.eqb]. assert (Hm : u32 (0 - u32 n) = - n) by (unfold u32, wrap; Z.to_euclidean_division_equations; lia). rewrite Hm.
        destruct (number_ok (out ++ [45]) (- n) 10 Hf') as (ds&Hds&->); [unfold in_u64; lia|auto|]. cbn [res_bind].
        exists (45 :: ds). destruct (limited (out ++ 45 :: ds)) as [ret o'] eqn:E. exists ret, o'. split; [|split; [done|]].
        -- constructor. rewrite <-(app_nil_r ds). by constructor; [|constructor].
        -- rewrite <-app_assoc. simpl. by rewrite E.
      * destruct (digits_loop_ok 64 20 10 (- n) []) as (ds&_&Hds); [lia|lia|lia|unfold TMP_SIZE; simpl; lia|lia|].
        exists (45 :: ds), (- EOVERFLOW), (take MAXN (out ++ [45])). split; [constructor; rewrite <-(app_nil_r ds); by constructor; [|constructor]|].
        split; [|done]. change (out ++ 45 :: ds) with (out ++ [45] ++ ds). rewrite app_assoc, limited_full by done. unfold limited. by rewrite decide_False.
    + rewrite u32_small by (unfold in_u32; lia). destruct (number_ok out n 10 Hf) as (ds&Hds&->); [unfold in_u64; lia|auto|]. cbn [res_bind].
      exists ds. destruct (limited (out ++ ds)) as [ret o'] eqn:E. exists ret, o'. split; [rewrite <-(app_nil_r ds); by constructor; [|constructor]|]. done.
  - assert (Hdir : directive d out (VaInt n :: args) = (let! (ret, out) := number out (u32 n) (if d =? 117 then 10 else 16) in Ok (ret, out, args))).
    { by destruct Hd as [->| ->]. }
    assert (Hit : number_items d n = [Num (if d =? 117 then 10 else 16) (u32 n)]) by by destruct Hd as [->| ->].
    rewrite Hdir, Hit. destruct (number_ok out (u32 n) (if d =? 117 then 10 else 16) Hf) as (ds&Hds&->).
    + unfold in_u64, u32, wrap. Z.to_euclidean_division_equations; lia.
    + destruct (d =? 117); auto.
    + cbn [res_bind]. exists ds. destruct (limited (out ++ ds)) as [ret o'] eqn:E. exists ret, o'.
      split; [rewrite <-(app_nil_r ds); by constructor; [|constructor]|]. done.
Qed.

Lemma directive_ok d out args fmt l :
  fits out → Forall arg_ok args → items (37 :: d :: fmt) args = Some l →
  ∃ o ret out' args' l1 l2, l = l1 ++ l2 ∧ spells l1 o ∧ limited (out ++ o) = (ret, out') ∧
    directive d out args = Ok (ret, out', args') ∧ items fmt args' = Some l2 ∧ Forall arg_ok args'.
Proof.
  intros Hf Ha. cbn [items Z.eqb Pos.eqb negb]. destruct (Z.eqb_spec d 37) as [->|N37].
  { intros (l2&Hl&->)%fmap_Some. exists [37]. destruct (limited (out ++ [37])) as [ret o'] eqn:E. exists ret, o', args, [Lit 37], l2.
    unfold directive. cbn [Z.eqb Pos.eqb]. rewrite append_ok, E by done. repeat split; try done. repeat constructor. }
  destruct args as [|[n|p|s] args]; [done|..]; apply Forall_cons in Ha as [Harg Ha].
  - destruct (Z.eqb_spec d 99) as [->|N99].
    { intros (l2&Hl&->)%fmap_Some. exists [u8 n]. destruct (limited (out ++ [u8 n])) as [ret o'] eqn:E. exists ret, o', args, [Lit (u8 n)], l2.
      unfold directive. cbn [Z.eqb Pos.eqb]. rewrite append_ok, E by done. repeat split; try done. repeat constructor. }
    destruct (_ || _) eqn:Ed; [|done]. intros (l2&Hl&->)%fmap_Some.
    destruct (int_directive_ok d n out args Hf) as (o&ret&out'&Ho&E&Hd); [lia|]. exists o, ret, out', args, (number_items d n), l2. done.
  - destruct (Z.eqb_spec d 112) as [->|]; [|done]. intros (l2&Hl&->)%fmap_Some. simpl in Harg.
    destruct (digits_loop_ok 64 20 16 p []) as (ds0&E0&Hds0); [lia|unfold in_u64 in Harg; change (Z.of_nat 20) with 20; lia|lia|unfold TMP_SIZE; simpl; lia|lia|].
    rewrite app_nil_r in E0.
    exists (48 :: 120 :: ds0). destruct (limited (out ++ 48 :: 120 :: ds0)) as [ret o'] eqn:E. exists ret, o', args, [Lit 48; Lit 120; Num 16 p], l2.
    split; [done|]. split; [do 2 constructor; rewrite <-(app_nil_r ds0); by constructor; [|constructor]|]. split; [done|]. split; [|done].
    unfold directive. cbn [Z.eqb Pos.eqb orb]. rewrite append_ok by done.
    replace (out ++ 48 :: 120 :: ds0) with (((out ++ [48]) ++ [120]) ++ ds0) in E by by rewrite <-!app_assoc.
    destruct (limited_cases (out ++ [48])) as [[-> H1]|[E1 H1]]; [|rewrite E1; rewrite <-app_assoc, limited_full, E1 in E by done; by simplify_eq].
    cbn [Z.eqb]. rewrite append_ok by done.
    destruct (limited_cases ((out ++ [48]) ++ [120])) as [[-> H2]|[E2 H2]]; [|rewrite E2; rewrite limited_full, E2 in E by done; by simplify_eq].
    cbn [Z.eqb]. unfold number. rewrite E0. cbn [res_bind]. by rewrite append_all_ok, E.
  - destruct (Z.eqb_spec d 115) as [->|]; [|done]. intros (l2&Hl&->)%fmap_Some. exists (default null_text s).
    destruct (limited (out ++ default null_text s)) as [ret o'] eqn:E. exists ret, o', args, (Lit <$> default null_text s), l2.
    split; [done|]. split; [apply spells_lits|]. split; [done|]. split; [|done].
    unfold directive. cbn [Z.eqb Pos.eqb]. by rewrite append_all_ok, E.
Qed.

Lemma format_loop_ok fmt args out l :
  fits out → Forall arg_ok args → items fmt args = Some l →
  ∃ o, spells l o ∧ format_loop fmt args out = Ok (limited (out ++ o)).
Proof.
  remember (length fmt) as n eqn:Hn. assert (Hle : (length fmt ≤ n)%nat) by lia. clear Hn. revert fmt args out l Hle.
  induction n as [|n IH]; intros fmt args out l Hle Hf Ha Hi.
  { destruct fmt; [|simpl in Hle; lia]. injection Hi as <-. exists []. split; [constructor|]. rewrite app_nil_r. unfold limited. by rewrite decide_True. }
  destruct fmt as [|c fmt]; [injection Hi as <-; exists []; split; [constructor|]; rewrite app_nil_r; unfold limited; by rewrite decide_True|].
  simpl in Hle. assert (Hnil : fits []) by (unfold fits; simpl; unfold INT32_MAX; lia).
  assert (Hstep : ∀ o ret out' args' fmt' l1 l2, (length fmt' ≤ n)%nat → spells l1 o → limited (out ++ o) = (ret, out') → Forall arg_ok args' →
    items fmt' args' = Some l2 →
    ∃ o', spells (l1 ++ l2) o' ∧ (if ret <? 0 then Ok (ret, out') else format_loop fmt' args' out') = Ok (limited (out ++ o'))).
  { intros o ret out' args' fmt' l1 l2 Hl' Ho E Ha' Hi'. destruct (limited_cases (out ++ o)) as [[H Hfo]|[H Hfo]]; rewrite H in E; simplify_eq.
    - change (0 <? 0) with false. destruct (IH fmt' args' (out ++ o) l2 Hl' Hfo Ha' Hi') as (o2&Ho2&->).
      exists (o ++ o2). split; [by apply spells_app|]. by rewrite app_assoc.
    - change (- EOVERFLOW <? 0) with true. destruct (IH fmt' args' [] l2 Hl' Hnil Ha' Hi') as (o2&Ho2&_).
      exists (o ++ o2). split; [by apply spells_app|]. by rewrite app_assoc, limited_full, H. }
  cbn [format_loop]. destruct (Z.eqb_spec c 37) as [->|Hc]; cbn [negb].
  - destruct fmt as [|d fmt]; [done|]. destruct (directive_ok d out args fmt l Hf Ha Hi) as (o&ret&out'&args'&l1&l2&->&Ho&E&->&Hi'&Ha').
    cbn [res_bind]. simpl in Hle. eapply Hstep; eauto. lia.
  - cbn [items] in Hi. replace (c =? 37) with false in Hi by lia. cbn [negb] in Hi. apply fmap_Some in Hi as (l2&Hi&->).
    rewrite append_ok by done. destruct (limited (out ++ [c])) as [ret out'] eqn:E.
    destruct (Hstep [c] ret out' args fmt [Lit c] l2) as (o'&Ho'&E'); [lia|repeat constructor|done..|]. by exists o'.
Qed.

(** formatting.  For a format with known directives and arguments of
    matching types, [vsprintf] writes what the format spells: its literal bytes,
    characters and strings, and for each number the usual numeral, with a sign
    when it is negative, also for the least [int]; it returns how many bytes
    that are.  The digit buffer is never exceeded.  When there would be more
    than [INT_MAX] bytes it writes that many and returns [-EOVERFLOW]. *)
Theorem vsprintf_spec fmt args l :
  Forall arg_ok args → items fmt args = Some l →
  ∃ o, spells l o ∧
    vsprintf fmt args = Ok (if decide (fits o) then (Z.of_nat (length o), o) else (- EOVERFLOW, take MAXN o)).
Proof.
  intros Ha Hi. destruct (format_loop_ok fmt args [] l) as (o&Ho&E); [unfold fits, INT32_MAX; simpl; lia|done|done|].
  exists o. split; [done|]. unfold vsprintf. rewrite E. cbn [app res_bind]. unfold limited. by case_decide.
Qed.

(** A format and its text: [%d!%x] with the least [int] and 255. *)
Lemma vsprintf_spec_witness :
  vsprintf [37; 100; 33; 37; 120] [VaInt (- 2 ^ 31); VaInt 255] = Ok (14, [45; 50; 49; 52; 55; 52; 56; 51; 54; 52; 56; 33; 102; 102]) ∧
  spells [Lit 45; Num 10 (2 ^ 31); Lit 33; Num 16 255] [45; 50; 49; 52; 55; 52; 56; 51; 54; 52; 56; 33; 102; 102].
Proof.
  destruct (vsprintf_spec [37; 100; 33; 37; 120] [VaInt (- 2 ^ 31); VaInt 255] [Lit 45; Num 10 (2 ^ 31); Lit 33; Num 16 255]) as (o&Ho&E);
    [repeat constructor|reflexivity|].
  assert (E' : vsprintf [37; 100; 33; 37; 120] [VaInt (- 2 ^ 31); VaInt 255] = Ok (14, [45; 50; 49; 52; 55; 52; 56; 51; 54; 52; 56; 33; 102; 102]))
    by (vm_compute; reflexivity).
  split; [exact E'|]. rewrite E' in E. case_decide; [|discriminate E]. injection E as _ <-. exact Ho.
Defined.
