(* ===== verification/Slub.v ===== *)
(** * Object allocator: [mm/slub.c]

    Ten caches of equal objects of 8 to 4096 bytes.  A slab is one page; its free
    objects are linked through their first word and, with [CONFIG_DEBUG_ALLOC],
    filled with a pattern behind it.  [words] is the memory, by the addresses of
    its 64-bit words; [descs] has the descriptors of the pages the allocator
    holds, by the (virtual) address of the page; [frees] records the calls of
    [free_pages]: the block, its order and the flags left on its descriptor.  What the page allocator returns is an argument.
    Operations run under [cache->lock].

    The allocator refines a heap, a map from the addresses of the live objects to
    their sizes ([rep]): an allocation adds an object apart from all others, a
    free removes it, neither touches the contents of another live object, and what
    the owners of live objects write into them cannot hurt the allocator. *)
From stdpp Require Import base tactics numbers list gmap sets.
From S2P Require Import Prelude Refcount Memblock Buddy.

Definition KMALLOC_SHIFT_LOW : Z := 3.
Definition KMALLOC_SHIFT_HIGH : Z := 12.
Definition KMALLOC_MAX_SIZE : Z := Z.shiftl 1 KMALLOC_SHIFT_HIGH.
Definition SLAB_POISON : Z := 0x6b.

Record kmem_cache := Cache { c_size : Z; c_objects : Z; partial : list Z; full : list Z }.
Record page_desc := PDesc { p_flags : Z; p_order : Z; sl_cache : nat; sl_freelist : Z; sl_inuse : Z }.
Record slub := Slub { caches : list kmem_cache; descs : gmap Z page_desc; words : gmap Z Z; frees : list (Z * Z * Z) }.

Definition set_cache (s : slub) (ci : nat) (c : kmem_cache) : res slub :=
  let! cs := arr_set (caches s) ci c in Ok (Slub cs (descs s) (words s) (frees s)).
Definition set_desc (s : slub) (p : Z) (d : page_desc) : slub := Slub (caches s) (<[p := d]> (descs s)) (words s) (frees s).
Definition set_words (s : slub) (w : gmap Z Z) : slub := Slub (caches s) (descs s) w (frees s).

(** ** Memory *)

(** Reading a pointer and a byte, little-endian. *)
Definition load_word (w : gmap Z Z) (p : Z) : res Z := if p =? 0 then Fault else Ok (w !!! p).
Definition load_byte (w : gmap Z Z) (p : Z) : Z := u8 (Z.shiftr (w !!! (p - p mod 8)) (8 * (p mod 8))).
Definition store_byte (w : gmap Z Z) (p v : Z) : gmap Z Z :=
  let k := 8 * (p mod 8) in
  <[p - p mod 8 := Z.lor (Z.ldiff (w !!! (p - p mod 8)) (Z.shiftl (Z.ones 8) k)) (Z.shiftl (u8 v) k)]> w.
(** [memset(p, v, n)] *)
Fixpoint memset (n : nat) (w : gmap Z Z) (p v : Z) : gmap Z Z :=
  match n with O => w | S n => memset n (store_byte w p v) (p + 1) v end.

Section slub.
Context (CONFIG_MAX_ORDER : nat) (CONFIG_DEBUG_ALLOC : bool).

(** ** Checks of [CONFIG_DEBUG_ALLOC] *)

Definition object_valid (c : kmem_cache) (base ptr : Z) : bool :=
  let offset := u64 (ptr - base) in
  (offset <? u32 (c_objects c * c_size c)) && negb (truth (offset mod c_size c)).

(** The loop over the bytes behind the first word: [n] left. *)
Fixpoint poison_loop (n : nat) (w : gmap Z Z) (ptr i : Z) : res unit :=
  match n with
  | O => Ok ()
  | S n => let! _ := Assert (load_byte w (ptr + i) =? SLAB_POISON) in poison_loop n w ptr (i + 1)
  end.

Definition check_free_object (w : gmap Z Z) (c : kmem_cache) (base ptr : Z) : res unit :=
  let! _ := Assert (object_valid c base ptr) in
  poison_loop (Z.to_nat (c_size c - 8)) w ptr 8.

(** The walk over the free list: [nr] objects left to see. *)
Fixpoint check_loop (nr : nat) (w : gmap Z Z) (c : kmem_cache) (base ptr next : Z) : res Z :=
  match nr with
  | O => Ok next
  | S nr =>
      let! _ := Assert (truth next && object_valid c base next) in
      let! _ := Assert (negb (next =? ptr)) in
      let! next := load_word w next in
      check_loop nr w c base ptr next
  end.

Definition check_free (w : gmap Z Z) (c : kmem_cache) (base ptr : Z) (d : page_desc) : res unit :=
  let nr_free := u32 (c_objects c - sl_inuse d) in
  let! _ := Assert (object_valid c base ptr) in
  let! _ := Assert (truth (sl_inuse d)) in
  let! next := check_loop (Z.to_nat nr_free) w c base ptr (sl_freelist d) in
  Assert (negb (truth next)).

(** ** Slabs *)

(** The loop that links the objects [i, i + 1, ...]. *)
Fixpoint link_loop (n : nat) (w : gmap Z Z) (base i size objects : Z) : gmap Z Z :=
  match n with
  | O => w
  | S n => link_loop n (<[base + i * size := if i + 1 <? objects then base + (i + 1) * size else 0]> w) base (i + 1) size objects
  end.

Definition new_slab (s : slub) (ci : nat) (a : option Z) : res (option Z * slub) :=
  match a with
  | None => Ok (None, s)
  | Some base =>
      let! c := arr_get (caches s) ci in
      let s := set_desc s base (PDesc (Z.lor PG_ALLOCATED PG_SLAB) 0 ci base 0) in
      let w := if CONFIG_DEBUG_ALLOC then memset (Z.to_nat PAGE_SIZE) (words s) base SLAB_POISON else words s in
      Ok (Some base, set_words s (link_loop (Z.to_nat (c_objects c)) w base 0 (c_size c) (c_objects c)))
  end.

(** [list_add(&page->node, &cache->partial)] *)
Definition add_partial (s : slub) (ci : nat) (p : Z) : res slub :=
  let! c := arr_get (caches s) ci in set_cache s ci (Cache (c_size c) (c_objects c) (p :: partial c) (full c)).

(** The part under the lock: the first object of the first partial slab. *)
Definition take_object (s : slub) (ci : nat) : res (Z * slub) :=
  let! c := arr_get (caches s) ci in
  let! p := deref (head (partial c)) in
  let! d := deref (descs s !! p) in
  let object := sl_freelist d in
  let! _ := if CONFIG_DEBUG_ALLOC then check_free_object (words s) c p object else Ok tt in
  let! next := load_word (words s) object in
  let s := set_desc s p (PDesc (p_flags d) (p_order d) (sl_cache d) next (u32 (sl_inuse d + 1))) in
  let! s :=
    if next =? 0 then set_cache s ci (Cache (c_size c) (c_objects c) (filter (λ q, q ≠ p) (partial c)) (full c ++ [p])) else Ok s in
  Ok (object, s).

Definition cache_alloc (s : slub) (ci : nat) (a : option Z) : res (Z * slub) :=
  let! c := arr_get (caches s) ci in
  match partial c with
  | [] =>
      let! (p, s) := new_slab s ci a in
      match p with
      | None => Ok (0, s)
      | Some p => let! s := add_partial s ci p in take_object s ci
      end
  | _ :: _ => take_object s ci
  end.

(** ** Allocation *)

(** [while (size > (1UL << (KMALLOC_SHIFT_LOW + index))) ++index;] *)
Fixpoint index_loop (fuel : nat) (size : Z) (index : nat) : res nat :=
  if size >? Z.shiftl 1 (KMALLOC_SHIFT_LOW + Z.of_nat index)
  then match fuel with O => Loop | S fuel => index_loop fuel size (S index) end
  else Ok index.

(** [while (bytes < size)]: the order, or none. *)
Fixpoint order_loop (fuel : nat) (size bytes : Z) (order : nat) : res (option nat) :=
  if bytes <? size then
    if (CONFIG_MAX_ORDER <=? S order)%nat then Ok None else
    match fuel with O => Loop | S fuel => order_loop fuel size (u64 (Z.shiftl bytes 1)) (S order) end
  else Ok (Some order).

(** [a]: what [alloc_page] or [alloc_pages] returns. *)
Definition kmalloc (s : slub) (size : Z) (a : option Z) : res (Z * slub) :=
  if size =? 0 then Ok (0, s) else
  if size <=? KMALLOC_MAX_SIZE then
    let! index := index_loop 10 size 0 in cache_alloc s index a
  else
    let! o := order_loop CONFIG_MAX_ORDER size PAGE_SIZE 0 in
    match o, a with
    | None, _ | _, None => Ok (0, s)
    | Some o, Some p => Ok (p, set_desc s p (PDesc (Z.lor PG_ALLOCATED PG_KMALLOC) (Z.of_nat o) 0 0 0))
    end.

Definition kzalloc (s : slub) (size : Z) (a : option Z) : res (Z * slub) :=
  let! (ptr, s) := kmalloc s size a in
  Ok (ptr, if truth ptr then set_words s (memset (Z.to_nat size) (words s) ptr 0) else s).

(** ** Release *)

(** [free_pages] on the block at [p], whose descriptor has the flags [fl]: the
    block leaves the allocator. *)
Definition give_back (s : slub) (p order fl : Z) : slub :=
  Slub (caches s) (delete p (descs s)) (words s) (frees s ++ [(p, order, fl)]).

Definition kfree (s : slub) (ptr : Z) : res slub :=
  if ptr =? 0 then Ok s else
  let base := ALIGN_DOWN ptr PAGE_SIZE in
  match descs s !! base with
  | None => Ok s
  | Some d =>
      if negb (truth (Z.land (p_flags d) (Z.lor PG_SLAB PG_KMALLOC))) then Ok s else
      if truth (Z.land (p_flags d) PG_KMALLOC) then
        if negb (ptr =? base) then Ok s else Ok (give_back s base (p_order d) (Z.land (p_flags d) (not64 PG_KMALLOC)))
      else
        let ci := sl_cache d in
        let! c := arr_get (caches s) ci in
        let! _ := if CONFIG_DEBUG_ALLOC then check_free (words s) c base ptr d else Ok tt in
        let c := if sl_inuse d =? c_objects c
                 then Cache (c_size c) (c_objects c) (partial c ++ [base]) (filter (λ q, q ≠ base) (full c)) else c in
        let w := if CONFIG_DEBUG_ALLOC then memset (Z.to_nat (c_size c)) (words s) ptr SLAB_POISON else words s in
        let s := set_words s (<[ptr := sl_freelist d]> w) in
        let inuse := u32 (sl_inuse d - 1) in
        let empty := inuse =? 0 in
        let c := if empty then Cache (c_size c) (c_objects c) (filter (λ q, q ≠ base) (partial c)) (full c) else c in
        let! s := set_cache (set_desc s base (PDesc (p_flags d) (p_order d) ci ptr inuse)) ci c in
        Ok (if empty then give_back s base 0 (Z.land (p_flags d) (not64 PG_SLAB)) else s)
  end.
End slub.

(** [cache->size], [cache->objects] and empty lists. *)
Definition slub_init : slub :=
  Slub ((λ i, let size := Z.shiftl 1 (KMALLOC_SHIFT_LOW + Z.of_nat i) in Cache size (PAGE_SIZE / size) [] []) <$> seq 0 10) ∅ ∅ [].

(** ** Memory *)

Lemma u8_spec x i : 0 ≤ i → Z.testbit (u8 x) i = (i <? 8) && Z.testbit x i.
Proof.
  intros. unfold u8, wrap. destruct (Z.ltb_spec i 8).
  - by rewrite Z.mod_pow2_bits_low by lia.
  - by rewrite Z.mod_pow2_bits_high by lia.
Qed.

Lemma ones8_spec i : Z.testbit (Z.ones 8) i = (0 <=? i) && (i <? 8).
Proof.
  destruct (Z.leb_spec 0 i); simpl; [|by apply Z.testbit_neg_r].
  destruct (Z.ltb_spec i 8); [apply Z.ones_spec_low|apply Z.ones_spec_high]; lia.
Qed.

Lemma shiftl_byte_spec v k i : Z.testbit (Z.shiftl (u8 v) k) i = (0 <=? i) && (0 <=? i - k) && (i - k <? 8) && Z.testbit v (i - k).
Proof.
  destruct (Z.leb_spec 0 i); simpl; [|by apply Z.testbit_neg_r].
  rewrite Z.shiftl_spec by lia. destruct (Z.leb_spec 0 (i - k)); simpl; [|by apply Z.testbit_neg_r].
  by apply u8_spec.
Qed.

(** A byte that was stored is read back; the others keep their value. *)
Lemma load_store_byte w p v q : load_byte (store_byte w p v) q = if decide (q = p) then u8 v else load_byte w q.
Proof.
  unfold load_byte at 1, store_byte. pose proof (Z.mod_pos_bound p 8). pose proof (Z.mod_pos_bound q 8).
  destruct (decide (q - q mod 8 = p - p mod 8)) as [Hw|Hw].
  - rewrite Hw, lookup_total_insert_eq. apply Z.bits_inj'. intros i Hi.
    rewrite u8_spec, Z.shiftr_spec, Z.lor_spec, Z.ldiff_spec by lia.
    rewrite (Z.shiftl_spec (Z.ones 8)), ones8_spec, shiftl_byte_spec by lia. case_decide as Hq.
    + subst q. replace (i + 8 * (p mod 8) - 8 * (p mod 8)) with i by lia. rewrite u8_spec by lia.
      destruct (Z.ltb_spec i 8); [|done]. repeat (rewrite (proj2 (Z.leb_le _ _)) by lia). simpl. by rewrite andb_false_r.
    + assert (q mod 8 ≠ p mod 8) by lia. unfold load_byte. rewrite u8_spec, Z.shiftr_spec, Hw by lia.
      destruct (Z.ltb_spec i 8); [|done]. simpl.
      rewrite <-!andb_assoc. rewrite (andb_assoc (0 <=? i + 8 * (q mod 8) - 8 * (p mod 8))).
      replace ((0 <=? i + 8 * (q mod 8) - 8 * (p mod 8)) && (i + 8 * (q mod 8) - 8 * (p mod 8) <? 8)) with false by lia.
      simpl. by rewrite andb_true_r, andb_false_r, orb_false_r.
  - rewrite lookup_total_insert_ne by done. by rewrite decide_False by (intros ->; done).
Qed.

Lemma store_byte_word w p v a : a ≠ p - p mod 8 → store_byte w p v !!! a = w !!! a.
Proof. intros. unfold store_byte. by apply lookup_total_insert_ne. Qed.

Lemma memset_byte n w p v q :
  load_byte (memset n w p v) q = if decide (p ≤ q < p + Z.of_nat n) then u8 v else load_byte w q.
Proof.
  revert w p. induction n as [|n IH]; intros w p; simpl; [by rewrite decide_False by lia|].
  rewrite IH, load_store_byte. repeat case_decide; done || lia.
Qed.

Lemma memset_word n w p v a :
  a + 8 ≤ p ∨ p + Z.of_nat n ≤ a → memset n w p v !!! a = w !!! a.
Proof.
  revert w p. induction n as [|n IH]; intros w p Ha; simpl; [done|].
  rewrite IH by lia. apply store_byte_word. pose proof (Z.mod_pos_bound p 8). lia.
Qed.

(** A byte of another word survives the store of a word. *)
Lemma load_byte_insert w a v q : q < a ∨ a + 8 ≤ q → load_byte (<[a := v]> w) q = load_byte w q.
Proof.
  intros. unfold load_byte. pose proof (Z.mod_pos_bound q 8). by rewrite lookup_total_insert_ne by lia.
Qed.

Lemma load_byte_agree w w' q : w' !!! (q - q mod 8) = w !!! (q - q mod 8) → load_byte w' q = load_byte w q.
Proof. unfold load_byte. by intros ->. Qed.

(** ** The invariant *)

Definition SLAB : Z := Z.lor PG_ALLOCATED PG_SLAB.
Definition LARGE : Z := Z.lor PG_ALLOCATED PG_KMALLOC.

(** Size and number of the objects of a slab of cache [i]. *)
Definition csize (i : nat) : Z := 2 ^ (3 + Z.of_nat i).
Definition cobjs (i : nat) : Z := 2 ^ (9 - Z.of_nat i).

(** [x] is an object of the slab at [base]. *)
Definition obj_ok (i : nat) (base x : Z) : Prop := base ≤ x < base + PAGE_SIZE ∧ x mod csize i = 0.

(** The free list from [x] has the objects [l]. *)
Fixpoint chain (w : gmap Z Z) (x : Z) (l : list Z) : Prop :=
  match l with [] => x = 0 | y :: l => x = y ∧ y ≠ 0 ∧ chain w (w !!! y) l end.

Record slab_ok (dbg : bool) (i : nat) (w : gmap Z Z) (base : Z) (d : page_desc) (l : list Z) : Prop := {
  so_chain : chain w (sl_freelist d) l;
  so_nodup : NoDup l;
  so_valid : ∀ x, x ∈ l → obj_ok i base x;
  so_inuse : 0 ≤ sl_inuse d ∧ sl_inuse d = cobjs i - Z.of_nat (length l);
  so_poison : dbg = true → ∀ x k, x ∈ l → 8 ≤ k < csize i → load_byte w (x + k) = SLAB_POISON
}.

Definition blk (d : page_desc) : Z := PAGE_SIZE * 2 ^ p_order d.

Definition slab_of (ds : gmap Z page_desc) (i : nat) (p : Z) : Prop := ∃ d, ds !! p = Some d ∧ p_flags d = SLAB ∧ sl_cache d = i.

(** The free objects of the pages are [fl]. *)
Record cache_ok (ds : gmap Z page_desc) (fl : Z → list Z) (i : nat) (c : kmem_cache) : Prop := {
  co_size : c_size c = csize i;
  co_objects : c_objects c = cobjs i;
  co_partial_nodup : NoDup (partial c);
  co_full_nodup : NoDup (full c);
  co_partial : ∀ p, p ∈ partial c ↔ slab_of ds i p ∧ fl p ≠ [];
  co_full : ∀ p, p ∈ full c ↔ slab_of ds i p ∧ fl p = []
}.

(** A page or block the allocator holds: a slab or a large object. *)
Record desc_ok (dbg : bool) (w : gmap Z Z) (p : Z) (d : page_desc) (l : list Z) : Prop := {
  do_pos : 0 < p;
  do_aligned : p mod PAGE_SIZE = 0;
  do_order : 0 ≤ p_order d;
  do_end : p + blk d ≤ 2 ^ 64;
  do_kind : (p_flags d = SLAB ∧ p_order d = 0 ∧ (sl_cache d < 10)%nat ∧ slab_ok dbg (sl_cache d) w p d l) ∨ p_flags d = LARGE
}.

Record slub_ok (dbg : bool) (s : slub) (fl : Z → list Z) : Prop := {
  ok_len : length (caches s) = 10%nat;
  ok_cache : ∀ i c, caches s !! i = Some c → cache_ok (descs s) fl i c;
  ok_desc : ∀ p d, descs s !! p = Some d → desc_ok dbg (words s) p d (fl p);
  ok_apart : ∀ p d q e, descs s !! p = Some d → descs s !! q = Some e → p ≠ q → p + blk d ≤ q ∨ q + blk e ≤ p
}.

(** The object at [x], of [sz] bytes, is in use. *)
Definition page_live (p : Z) (d : page_desc) (l : list Z) (x sz : Z) : Prop :=
  (p_flags d = SLAB ∧ obj_ok (sl_cache d) p x ∧ (x ∉ l) ∧ sz = csize (sl_cache d)) ∨ (p_flags d = LARGE ∧ x = p ∧ sz = blk d).
Definition live (s : slub) (fl : Z → list Z) (x sz : Z) : Prop := ∃ p d, descs s !! p = Some d ∧ page_live p d (fl p) x sz.

(** No slab is kept without an object in use. *)
Definition no_empty (s : slub) : Prop := ∀ p d, descs s !! p = Some d → p_flags d = SLAB → sl_inuse d ≠ 0.

(** The live objects of the state are those of the heap [h]. *)
Definition rep (dbg : bool) (s : slub) (h : gmap Z Z) : Prop :=
  ∃ fl, slub_ok dbg s fl ∧ no_empty s ∧ ∀ x sz, h !! x = Some sz ↔ live s fl x sz.

(** The heap has no object besides [x] in its page. *)
Definition alone (h : gmap Z Z) (x : Z) : Prop :=
  map_Forall (λ y _, ALIGN_DOWN y PAGE_SIZE = ALIGN_DOWN x PAGE_SIZE → y = x) h.
#[export] Instance alone_dec h x : Decision (alone h x).
Proof. unfold alone. apply _. Defined.

(** The block of [2 ^ o] pages at [p] is free for the taking. *)
Definition fresh_block (s : slub) (p o : Z) : Prop :=
  0 < p ∧ p mod PAGE_SIZE = 0 ∧ p + PAGE_SIZE * 2 ^ o ≤ 2 ^ 64 ∧
  ∀ q d, descs s !! q = Some d → p + PAGE_SIZE * 2 ^ o ≤ q ∨ q + blk d ≤ p.

(** ** Sizes and addresses of objects *)

Lemma csize_facts i : (i < 10)%nat → csize i * cobjs i = PAGE_SIZE ∧ 8 ≤ csize i ≤ PAGE_SIZE ∧ 1 ≤ cobjs i ≤ 512 ∧ csize i mod 8 = 0.
Proof. intros. do 10 (destruct i as [|i]; [by vm_compute|]). lia. Qed.

Lemma csize_divides i x : (i < 10)%nat → x mod PAGE_SIZE = 0 → x mod csize i = 0.
Proof.
  intros Hi Hx. destruct (csize_facts i Hi) as (Hm&?&?&_). apply Z.mod_divide in Hx as [k ->]; [|done].
  apply Z.mod_divide; [lia|]. exists (k * cobjs i). lia.
Qed.

Lemma csize_mod8 i x : (i < 10)%nat → x mod csize i = 0 → x mod 8 = 0.
Proof.
  intros Hi Hx. destruct (csize_facts i Hi) as (_&?&_&H8). apply Z.mod_divide in Hx as [k ->]; [|lia].
  by rewrite Z.mul_mod, H8, Z.mul_0_r by done.
Qed.

(** Distinct multiples of [n] are [n] apart. *)
Lemma multiples_apart n x y : 0 < n → x mod n = 0 → y mod n = 0 → x < y → x + n ≤ y.
Proof.
  intros Hn Hx%Z.mod_divide Hy%Z.mod_divide Hlt; [|lia..]. destruct Hx as [a ->], Hy as [b ->].
  apply Z.mul_lt_mono_pos_r in Hlt; [|done]. nia.
Qed.

Lemma obj_end i p x : (i < 10)%nat → p mod PAGE_SIZE = 0 → obj_ok i p x → x + csize i ≤ p + PAGE_SIZE.
Proof.
  intros Hi Hp [Hx Hm]. pose proof (csize_facts i Hi). apply multiples_apart; [lia|done| |lia].
  apply csize_divides; [done|]. rewrite Z.add_mod, Hp by done. done.
Qed.

Lemma ALIGN_DOWN_obj i p x : (i < 10)%nat → 0 < p → p mod PAGE_SIZE = 0 → p + PAGE_SIZE ≤ 2 ^ 64 → obj_ok i p x → ALIGN_DOWN x PAGE_SIZE = p.
Proof.
  intros Hi H0 Hp He [Hx _]. change PAGE_SIZE with (2 ^ 12) in *. rewrite ALIGN_DOWN_spec by (unfold in_u64; lia).
  enough (x mod 2 ^ 12 = x - p) by lia. symmetry. apply Z.mod_unique_pos with (p / 2 ^ 12); [lia|].
  pose proof (Z.div_mod p (2 ^ 12)). lia.
Qed.

(** The check of the source is [obj_ok]. *)
Lemma object_valid_spec c i p x :
  (i < 10)%nat → c_size c = csize i → c_objects c = cobjs i → 0 < p → p mod PAGE_SIZE = 0 → p + PAGE_SIZE ≤ 2 ^ 64 → in_u64 x →
  object_valid c p x = true ↔ obj_ok i p x.
Proof.
  intros Hi Hs Ho H0 Hp He Hx. destruct (csize_facts i Hi) as (Hm&?&?&_). unfold object_valid, obj_ok, truth.
  rewrite Hs, Ho, (Z.mul_comm (cobjs i)), Hm, (u32_small PAGE_SIZE) by done. rewrite negb_involutive, andb_true_iff, Z.ltb_lt, Z.eqb_eq.
  assert (Hd : ∀ y, y = x - p → y mod csize i = 0 ↔ x mod csize i = 0).
  { intros y ->. assert (p mod csize i = 0) as Hpm by by apply csize_divides.
    rewrite Zminus_mod, Hpm, Z.sub_0_r, Z.mod_mod by lia. done. }
  unfold in_u64 in Hx. destruct (decide (p ≤ x)).
  - rewrite u64_small by (unfold in_u64; lia). rewrite (Hd (x - p)) by done. intuition lia.
  - split; [|lia]. intros [Hlt _]. exfalso.
    assert (u64 (x - p) = x - p + 2 ^ 64) as Hu.
    { unfold u64, wrap. symmetry. apply Z.mod_unique_pos with (-1); lia. }
    rewrite Hu in Hlt. lia.
Qed.

(** ** Free lists *)

Lemma chain_agree w w' x l : (∀ y, y ∈ l → w' !!! y = w !!! y) → chain w x l → chain w' x l.
Proof.
  revert x. induction l as [|y l IH]; simpl; [done|]. intros x Hw (->&Hy&Hc). split_and!; [done..|].
  rewrite Hw by by left. apply IH; [|done]. intros z Hz. apply Hw. by right.
Qed.

(** A slab depends on the words of its free objects only. *)
Lemma slab_agree dbg i w w' p d l :
  (i < 10)%nat → (∀ x a, x ∈ l → x ≤ a < x + csize i → a mod 8 = 0 → w' !!! a = w !!! a) →
  slab_ok dbg i w p d l → slab_ok dbg i w' p d l.
Proof.
  intros Hi Hw [Hc Hn Hv Hu Hp]. pose proof (csize_facts i Hi) as (_&?&_).
  assert (H8 : ∀ x, x ∈ l → x mod 8 = 0) by (intros x Hx; by apply (csize_mod8 i), (Hv x Hx)).
  split; [|done..|].
  - apply (chain_agree w); [|done]. intros y Hy. apply (Hw y); [done|lia|auto].
  - intros Hd x k Hx Hk. rewrite <-(Hp Hd x k Hx Hk). apply load_byte_agree.
    specialize (H8 x Hx). pose proof (Z.mod_pos_bound (x + k) 8 ltac:(lia)).
    assert ((x + k - (x + k) mod 8) mod 8 = 0) as Hm.
    { rewrite Zminus_mod, Z.mod_mod, Z.sub_diag by done. done. }
    apply (Hw x); [done| |done]. apply Z.mod_divide in H8 as [j ->]; [|done]. apply Z.mod_divide in Hm as [m Hm]; [|done]. lia.
Qed.

Lemma obj_u64 i p x : (i < 10)%nat → 0 < p → p + PAGE_SIZE ≤ 2 ^ 64 → obj_ok i p x → in_u64 x ∧ x ≠ 0.
Proof. unfold obj_ok, in_u64. lia. Qed.

(** The walk of [check_free] ends at the end of the list, unless it meets [ptr]. *)
Lemma check_loop_spec c i w p ptr x l :
  (i < 10)%nat → c_size c = csize i → c_objects c = cobjs i → 0 < p → p mod PAGE_SIZE = 0 → p + PAGE_SIZE ≤ 2 ^ 64 →
  chain w x l → (∀ y, y ∈ l → obj_ok i p y) →
  check_loop (length l) w c p ptr x = if decide (ptr ∈ l) then Panic else Ok 0.
Proof.
  intros Hi Hs Ho H0 Hp He. revert x. induction l as [|y l IH]; intros x Hc Hv; simpl in *.
  { by subst. }
  destruct Hc as (->&Hy&Hc). assert (obj_ok i p y) as Hvy by (apply Hv; left).
  destruct (obj_u64 _ _ _ Hi H0 He Hvy) as [Hu _].
  rewrite (proj2 (object_valid_spec c i p y Hi Hs Ho H0 Hp He Hu) Hvy). unfold truth.
  rewrite (proj2 (Z.eqb_neq y 0) Hy). simpl. destruct (Z.eqb_spec y ptr) as [->|Hne]; simpl.
  { by rewrite decide_True by left. }
  unfold load_word. rewrite (proj2 (Z.eqb_neq y 0) Hy). simpl. rewrite IH; [|done|].
  - destruct (decide (ptr ∈ l)), (decide (ptr ∈ y :: l)); set_solver.
  - intros z Hz. apply Hv. by right.
Qed.

(** [check_free] accepts exactly the objects in use. *)
Lemma check_free_spec dbg c i w p d l ptr :
  (i < 10)%nat → c_size c = csize i → c_objects c = cobjs i → 0 < p → p mod PAGE_SIZE = 0 → p + PAGE_SIZE ≤ 2 ^ 64 →
  slab_ok dbg i w p d l → in_u64 ptr → sl_inuse d ≠ 0 →
  check_free w c p ptr d = if decide (obj_ok i p ptr ∧ ptr ∉ l) then Ok () else Panic.
Proof.
  intros Hi Hs Ho H0 Hp He [Hc _ Hv [Hu0 Hu] _] Hptr Hne. destruct (csize_facts i Hi) as (_&_&?&_). unfold check_free.
  rewrite Ho. replace (cobjs i - sl_inuse d) with (Z.of_nat (length l)) by lia. rewrite u32_small by (unfold in_u32; lia).
  rewrite Nat2Z.id, (check_loop_spec c i w p ptr _ l) by done.
  pose proof (object_valid_spec c i p ptr Hi Hs Ho H0 Hp He Hptr) as Hov.
  unfold truth. rewrite (proj2 (Z.eqb_neq _ _) Hne). destruct (decide (obj_ok i p ptr ∧ ptr ∉ l)) as [[Hx Hl]|Hx].
  - apply Hov in Hx. rewrite Hx, decide_False by done. done.
  - destruct (object_valid c p ptr); [|done]. rewrite decide_True; [done|].
    destruct (decide (ptr ∈ l)); [done|]. destruct Hx. by rewrite <-Hov.
Qed.

Lemma poison_loop_spec n w ptr i :
  (∀ k, i ≤ k < i + Z.of_nat n → load_byte w (ptr + k) = SLAB_POISON) → poison_loop n w ptr i = Ok ().
Proof.
  revert i. induction n as [|n IH]; intros i Hk; simpl; [done|]. rewrite Hk by lia. simpl. apply IH. intros. apply Hk. lia.
Qed.

Lemma check_free_object_spec c i w p d x l :
  (i < 10)%nat → c_size c = csize i → c_objects c = cobjs i → 0 < p → p mod PAGE_SIZE = 0 → p + PAGE_SIZE ≤ 2 ^ 64 →
  slab_ok true i w p d l → x ∈ l → check_free_object w c p x = Ok ().
Proof.
  intros Hi Hs Ho H0 Hp He [_ _ Hv _ Hpo] Hx. destruct (csize_facts i Hi) as (_&?&_&_). unfold check_free_object.
  assert (obj_ok i p x) as Hvx by auto. destruct (obj_u64 _ _ _ Hi H0 He Hvx) as [Hu _].
  rewrite (proj2 (object_valid_spec c i p x Hi Hs Ho H0 Hp He Hu) Hvx). simpl.
  apply poison_loop_spec. intros k Hk. apply Hpo; [done..|]. rewrite Hs in Hk. lia.
Qed.

(** ** New slabs *)

Lemma link_loop_other n w p i sz m a :
  (∀ j, i ≤ j < i + Z.of_nat n → a ≠ p + j * sz) → link_loop n w p i sz m !!! a = w !!! a.
Proof.
  revert w i. induction n as [|n IH]; intros w i Ha; simpl; [done|].
  rewrite IH by (intros; apply Ha; lia). apply lookup_total_insert_ne. apply not_eq_sym, Ha. lia.
Qed.

Lemma link_loop_at n w p i sz m j :
  0 < sz → i ≤ j < i + Z.of_nat n →
  link_loop n w p i sz m !!! (p + j * sz) = if j + 1 <? m then p + (j + 1) * sz else 0.
Proof.
  intros Hsz. revert w i. induction n as [|n IH]; intros w i Hj; simpl; [lia|].
  destruct (decide (j = i)) as [->|]; [|by apply IH; lia].
  rewrite link_loop_other by (intros; nia). by rewrite lookup_total_insert_eq.
Qed.

(** The objects of a slab from the [j]th. *)
Definition objs_from (p sz j : Z) (n : nat) : list Z := (λ k, p + (j + Z.of_nat k) * sz) <$> seq 0 n.

Lemma objs_from_S p sz j n : objs_from p sz j (S n) = (p + j * sz) :: objs_from p sz (j + 1) n.
Proof.
  unfold objs_from. cbn [seq fmap list_fmap]. f_equal; [f_equal; f_equal; lia|].
  rewrite <-seq_shift. change (@fmap list _) with map. rewrite map_map. apply map_ext. intros k. f_equal. f_equal. lia.
Qed.

Lemma objs_chain w p sz m n j :
  0 < p → 0 < sz → 0 ≤ j → j + Z.of_nat n = m →
  (∀ k, j ≤ k < m → w !!! (p + k * sz) = if k + 1 <? m then p + (k + 1) * sz else 0) →
  chain w (if j <? m then p + j * sz else 0) (objs_from p sz j n).
Proof.
  intros Hp Hsz. revert j. induction n as [|n IH]; intros j Hj Hm Hw.
  { replace (j <? m) with false by lia. done. }
  rewrite objs_from_S. replace (j <? m) with true by lia. simpl. split_and!; [done|nia|].
  rewrite Hw by lia. apply IH; [lia..|]. intros. apply Hw. lia.
Qed.

(** ** Live objects *)

Lemma SLAB_LARGE : SLAB ≠ LARGE.
Proof. done. Qed.

Lemma blk_slab d : p_order d = 0 → blk d = PAGE_SIZE.
Proof. unfold blk. by intros ->. Qed.

Lemma page_live_inside dbg w p d l x sz :
  desc_ok dbg w p d l → page_live p d l x sz → p ≤ x ∧ x + sz ≤ p + blk d ∧ 8 ≤ sz ∧ x mod 8 = 0 ∧ sz mod 8 = 0.
Proof.
  intros [H0 Ha Hor _ Hk] [(Hf&Hx&_&->)|(Hf&->&->)].
  - destruct Hk as [(_&Ho&Hi&_)|Hl]; [|by rewrite Hf in Hl]. rewrite blk_slab by done.
    pose proof (csize_facts _ Hi) as (_&?&_&?). pose proof (obj_end _ _ _ Hi Ha Hx). destruct Hx as [Hx Hm].
    split_and!; [lia..| |done]. by apply csize_mod8 in Hm.
  - unfold blk. assert (1 ≤ 2 ^ p_order d) by (pose proof (Z.pow_pos_nonneg 2 (p_order d)); lia).
    split_and!; [lia..|unfold PAGE_SIZE; lia| |].
    + change PAGE_SIZE with (8 * 512) in Ha. apply Z.mod_divide in Ha as [k ->]; [|done].
      replace (k * (8 * 512)) with (k * 512 * 8) by lia. by apply Z.mod_mul.
    + change PAGE_SIZE with (8 * 512). rewrite <-Z.mul_assoc, Z.mul_comm. by apply Z.mod_mul.
Qed.

(** Two live objects are the same or apart. *)
Lemma live_apart dbg s fl x n y m :
  slub_ok dbg s fl → live s fl x n → live s fl y m → (x = y ∧ n = m) ∨ x + n ≤ y ∨ y + m ≤ x.
Proof.
  intros Hs (p&d&Hp&Hx) (q&e&Hq&Hy).
  pose proof (page_live_inside _ _ _ _ _ _ _ (ok_desc _ _ _ Hs _ _ Hp) Hx).
  pose proof (page_live_inside _ _ _ _ _ _ _ (ok_desc _ _ _ Hs _ _ Hq) Hy).
  destruct (decide (p = q)) as [->|Hne].
  2: { pose proof (ok_apart _ _ _ Hs _ _ _ _ Hp Hq Hne). lia. }
  simplify_eq. destruct Hx as [(Hf&[_ Hx]&_&->)|(Hf&->&->)], Hy as [(Hf'&[_ Hy]&_&->)|(Hf'&->&->)];
    [|by rewrite Hf in Hf'..|by left].
  destruct (Z.lt_trichotomy x y) as [?|[?|?]]; [right; left|by left|right; right]; apply multiples_apart; done || lia.
Qed.

Lemma live_insert cs ds w fr fl p d l x sz :
  live (Slub cs (<[p := d]> ds) w fr) (λ q, if decide (q = p) then l else fl q) x sz ↔
  page_live p d l x sz ∨ ∃ q e, q ≠ p ∧ ds !! q = Some e ∧ page_live q e (fl q) x sz.
Proof.
  unfold live. simpl. split.
  - intros (q&e&Hq&Hl). destruct (decide (q = p)) as [->|Hne].
    + rewrite lookup_insert_eq in Hq. simplify_eq. auto.
    + rewrite lookup_insert_ne in Hq by done. eauto 10.
  - intros [Hl|(q&e&Hne&Hq&Hl)].
    + exists p, d. rewrite lookup_insert_eq, decide_True by done. done.
    + exists q, e. rewrite lookup_insert_ne, decide_False by done. done.
Qed.

Lemma live_delete cs ds w fr fl p x sz :
  live (Slub cs (delete p ds) w fr) fl x sz ↔ ∃ q e, q ≠ p ∧ ds !! q = Some e ∧ page_live q e (fl q) x sz.
Proof.
  unfold live. simpl. split.
  - intros (q&e&[Hne Hq]%lookup_delete_Some&Hl). eauto 10.
  - intros (q&e&Hne&Hq&Hl). exists q, e. by rewrite lookup_delete_ne.
Qed.

Lemma live_split s fl p d x sz :
  descs s !! p = Some d →
  live s fl x sz ↔ page_live p d (fl p) x sz ∨ ∃ q e, q ≠ p ∧ descs s !! q = Some e ∧ page_live q e (fl q) x sz.
Proof.
  intros Hp. split.
  - intros (q&e&Hq&Hl). destruct (decide (q = p)) as [->|]; [simplify_eq; auto|eauto 10].
  - intros [Hl|(q&e&_&Hq&Hl)]; [exists p, d|exists q, e]; done.
Qed.

(** ** Updates of the state *)

(** The lists of a cache after the page [p] was moved: it is on the first if [P], on the second if [Q]. *)
Record relisted (c c' : kmem_cache) (p : Z) (P Q : Prop) : Prop := {
  rl_size : c_size c' = c_size c;
  rl_objects : c_objects c' = c_objects c;
  rl_partial_nodup : NoDup (partial c');
  rl_full_nodup : NoDup (full c');
  rl_partial : ∀ q, q ≠ p → q ∈ partial c' ↔ q ∈ partial c;
  rl_full : ∀ q, q ≠ p → q ∈ full c' ↔ q ∈ full c;
  rl_partial_p : p ∈ partial c' ↔ P;
  rl_full_p : p ∈ full c' ↔ Q
}.

(** Memory changed inside the page [p] only. *)
Definition page_frame (p : Z) (w w' : gmap Z Z) : Prop := ∀ a, a mod 8 = 0 → a < p ∨ p + PAGE_SIZE ≤ a → w' !!! a = w !!! a.

Lemma desc_frame dbg w w' p q e l : page_frame p w w' → (p + PAGE_SIZE ≤ q ∨ q + blk e ≤ p) → desc_ok dbg w q e l → desc_ok dbg w' q e l.
Proof.
  intros Hw Hap [H0 Ha Hor He Hk]. split; [done..|]. destruct Hk as [(Hf&Ho&Hi&Hso)|]; [left|by right].
  split_and!; [done..|]. rewrite blk_slab in Hap by done. apply (slab_agree dbg _ w); [done| |done].
  intros x a Hx Hxa H8. apply Hw; [done|]. pose proof (so_valid _ _ _ _ _ _ Hso x Hx) as Hv.
  pose proof (obj_end _ _ _ Hi Ha Hv). destruct Hv. lia.
Qed.

Section updates.
Context (dbg : bool) (s : slub) (fl : Z → list Z) (Hs : slub_ok dbg s fl).

(** The page [p] is, or becomes, a slab of cache [i] with the free objects [l]. *)
Lemma put_slab i c c' p d l w fr :
  caches s !! i = Some c → 0 < p → p mod PAGE_SIZE = 0 → p + PAGE_SIZE ≤ 2 ^ 64 →
  (∀ e, descs s !! p = Some e → p_flags e = SLAB ∧ sl_cache e = i) →
  (∀ q e, descs s !! q = Some e → q ≠ p → p + PAGE_SIZE ≤ q ∨ q + blk e ≤ p) →
  p_flags d = SLAB → p_order d = 0 → sl_cache d = i → slab_ok dbg i w p d l →
  page_frame p (words s) w → relisted c c' p (l ≠ []) (l = []) →
  slub_ok dbg (Slub (<[i := c']> (caches s)) (<[p := d]> (descs s)) w fr) (λ q, if decide (q = p) then l else fl q).
Proof.
  intros Hc H0 Ha He Hold Hap Hf Ho Hi Hso Hw Hrl.
  assert (i < 10)%nat as Hi10 by (rewrite <-(ok_len _ _ _ Hs); by eapply lookup_lt_Some).
  assert (Hsl : ∀ j q, slab_of (<[p := d]> (descs s)) j q ↔ if decide (q = p) then j = i else slab_of (descs s) j q).
  { intros j q. unfold slab_of. case_decide as Hq.
    - subst q. rewrite lookup_insert_eq. naive_solver.
    - by rewrite lookup_insert_ne. }
  split; simpl.
  - rewrite length_insert. apply Hs.
  - intros j cj Hj. apply list_lookup_insert_Some in Hj as [(<-&<-&_)|[Hne Hj]].
    + pose proof (ok_cache _ _ _ Hs _ _ Hc) as Hco. destruct Hrl as [Hrs Hro ?? Hrp Hrf Hpp Hpf], Hco as [Hcs Hcob ?? Hcp Hcf].
      split; [congruence..|done|done| |]; intros q; rewrite Hsl; case_decide as Hq;
        [subst q; rewrite Hpp; naive_solver|by rewrite Hrp, Hcp|subst q; rewrite Hpf; naive_solver|by rewrite Hrf, Hcf].
    + destruct (ok_cache _ _ _ Hs _ _ Hj) as [Hcs Hcob ?? Hcp Hcf].
      split; [done..| |]; intros q; rewrite Hsl; case_decide as Hq; [|by auto| |by auto]; subst q;
        [rewrite Hcp|rewrite Hcf]; (split; [|naive_solver]); intros [(e&He1&_&He2) _]; apply Hold in He1 as [_ ?]; congruence.
  - intros q e Hq. apply lookup_insert_Some in Hq as [[<- <-]|[Hne Hq]].
    + rewrite decide_True by done. split; [done..|lia|by rewrite blk_slab|left]. by rewrite Hi.
    + rewrite decide_False by done. apply (desc_frame _ (words s) w p); [done|by apply Hap|]. by apply Hs.
  - intros q e q' e' Hq Hq' Hne. apply lookup_insert_Some in Hq as [[<- <-]|[Hqp Hq]]; apply lookup_insert_Some in Hq' as [[<- <-]|[Hqp' Hq']];
      [done|..].
    + rewrite (blk_slab d) by done. auto.
    + rewrite (blk_slab d) by done. destruct (Hap q e Hq); auto.
    + by eapply (ok_apart _ _ _ Hs).
Qed.

(** The slab at [p] leaves. *)
Lemma drop_slab i c c' p d w fr :
  caches s !! i = Some c → descs s !! p = Some d → p_flags d = SLAB → sl_cache d = i →
  page_frame p (words s) w → relisted c c' p False False →
  slub_ok dbg (Slub (<[i := c']> (caches s)) (delete p (descs s)) w fr) fl.
Proof.
  intros Hc Hp Hf Hi Hw Hrl.
  assert (Hsl : ∀ j q, slab_of (delete p (descs s)) j q ↔ q ≠ p ∧ slab_of (descs s) j q).
  { intros j q. unfold slab_of. setoid_rewrite lookup_delete_Some. naive_solver. }
  pose proof (ok_desc _ _ _ Hs _ _ Hp) as Hd. assert (p_order d = 0) as Ho by (destruct (do_kind _ _ _ _ _ Hd) as [(_&?&_)|Hl]; [done|by rewrite Hf in Hl]).
  split; simpl.
  - rewrite length_insert. apply Hs.
  - intros j cj Hj. apply list_lookup_insert_Some in Hj as [(<-&<-&_)|[Hne Hj]].
    + pose proof (ok_cache _ _ _ Hs _ _ Hc) as Hco. destruct Hrl as [Hrs Hro ?? Hrp Hrf Hpp Hpf], Hco as [Hcs Hcob ?? Hcp Hcf].
      split; [congruence..|done|done| |]; intros q; rewrite Hsl; destruct (decide (q = p)) as [->|Hq];
        [rewrite Hpp; tauto|rewrite Hrp, Hcp by done; tauto|rewrite Hpf; tauto|rewrite Hrf, Hcf by done; tauto].
    + destruct (ok_cache _ _ _ Hs _ _ Hj) as [Hcs Hcob ?? Hcp Hcf].
      assert (∀ q, slab_of (descs s) j q → q ≠ p) as Hnp by (intros q (e&?&_&?) ->; simplify_eq).
      split; [done..| |]; intros q; rewrite Hsl; [rewrite Hcp|rewrite Hcf]; naive_solver.
  - intros q e [Hne Hq]%lookup_delete_Some. apply (desc_frame _ (words s) w p); [done| |by apply Hs].
    rewrite <-(blk_slab d Ho). by apply (ok_apart _ _ _ Hs p d q e).
  - intros q e q' e' [_ Hq]%lookup_delete_Some [_ Hq']%lookup_delete_Some. by apply Hs.
Qed.

(** A large object at [p] appears, or leaves. *)
Lemma put_large p d fr :
  descs s !! p = None → p_flags d = LARGE → 0 ≤ p_order d → 0 < p → p mod PAGE_SIZE = 0 → p + blk d ≤ 2 ^ 64 →
  (∀ q e, descs s !! q = Some e → p + blk d ≤ q ∨ q + blk e ≤ p) →
  slub_ok dbg (Slub (caches s) (<[p := d]> (descs s)) (words s) fr) (λ q, if decide (q = p) then [] else fl q).
Proof.
  intros Hn Hf Ho H0 Ha He Hap.
  assert (Hsl : ∀ j q, slab_of (<[p := d]> (descs s)) j q ↔ q ≠ p ∧ slab_of (descs s) j q).
  { intros j q. unfold slab_of. destruct (decide (q = p)) as [->|]; [rewrite lookup_insert_eq, Hn|by rewrite lookup_insert_ne by done; naive_solver].
    split; [|naive_solver]. intros (e&[= <-]&Hfs&_). by rewrite Hf in Hfs. }
  split; simpl.
  - apply Hs.
  - intros j cj Hj. destruct (ok_cache _ _ _ Hs _ _ Hj) as [Hcs Hcob ?? Hcp Hcf].
    assert (∀ q, slab_of (descs s) j q → q ≠ p) as Hnp by (intros q (e&?&_&?) ->; simplify_eq).
    split; [done..| |]; intros q; rewrite Hsl; [rewrite Hcp|rewrite Hcf]; case_decide; naive_solver.
  - intros q e Hq. apply lookup_insert_Some in Hq as [[<- <-]|[Hne Hq]].
    + rewrite decide_True by done. split; [done..|]. by right.
    + rewrite decide_False by done. by apply Hs.
  - intros q e q' e' Hq Hq' Hne. apply lookup_insert_Some in Hq as [[<- <-]|[Hqp Hq]]; apply lookup_insert_Some in Hq' as [[<- <-]|[Hqp' Hq']];
      [done|by apply Hap| |by eapply (ok_apart _ _ _ Hs)].
    destruct (Hap q e Hq); auto.
Qed.

Lemma drop_large p d fr :
  descs s !! p = Some d → p_flags d = LARGE → slub_ok dbg (Slub (caches s) (delete p (descs s)) (words s) fr) fl.
Proof.
  intros Hp Hf.
  assert (Hsl : ∀ j q, slab_of (delete p (descs s)) j q ↔ slab_of (descs s) j q).
  { intros j q. unfold slab_of. setoid_rewrite lookup_delete_Some. split; [naive_solver|]. intros (e&He&Hfs&Hc).
    exists e. split_and!; [|done..]. intros ->. simplify_eq. by rewrite Hf in Hfs. }
  split; simpl.
  - apply Hs.
  - intros j cj Hj. destruct (ok_cache _ _ _ Hs _ _ Hj) as [Hcs Hcob ?? Hcp Hcf]. split; [done..| |]; intros q; rewrite Hsl; auto.
  - intros q e [Hne Hq]%lookup_delete_Some. by apply Hs.
  - intros q e q' e' [_ Hq]%lookup_delete_Some [_ Hq']%lookup_delete_Some. by apply Hs.
Qed.
End updates.

(** ** Taking an object *)

Lemma filter_ne_nodup (p : Z) (l : list Z) : NoDup l → NoDup (filter (λ q, q ≠ p) l).
Proof. apply NoDup_filter. Qed.

Lemma elem_filter_ne (p q : Z) (l : list Z) : q ∈ filter (λ q, q ≠ p) l ↔ q ≠ p ∧ q ∈ l.
Proof. by rewrite list_elem_of_filter. Qed.

(** The facts of a slab of the state. *)
Lemma slab_desc dbg s fl i c p :
  slub_ok dbg s fl → caches s !! i = Some c → slab_of (descs s) i p →
  ∃ d, descs s !! p = Some d ∧ p_flags d = SLAB ∧ sl_cache d = i ∧ p_order d = 0 ∧ (i < 10)%nat ∧
    0 < p ∧ p mod PAGE_SIZE = 0 ∧ p + PAGE_SIZE ≤ 2 ^ 64 ∧ slab_ok dbg i (words s) p d (fl p).
Proof.
  intros Hs Hc (d&Hp&Hf&Hi). exists d. destruct (ok_desc _ _ _ Hs _ _ Hp) as [? ? ? He [(_&Ho&Hi10&Hso)|Hl]]; [|by rewrite Hf in Hl].
  rewrite blk_slab in He by done. rewrite Hi in *. split_and!; done.
Qed.

(** The first free object leaves the slab. *)
Lemma slab_take dbg i w p d x l :
  slab_ok dbg i w p d (x :: l) → (i < 10)%nat → 
  slab_ok dbg i w p (PDesc (p_flags d) (p_order d) (sl_cache d) (w !!! x) (u32 (sl_inuse d + 1))) l ∧
  sl_freelist d = x ∧ x ≠ 0 ∧ (w !!! x = 0 ↔ l = []) ∧ u32 (sl_inuse d + 1) ≠ 0.
Proof.
  intros [(Hx&H0&Hc) Hn Hv [Hu0 Hu] Hpo] Hi. apply NoDup_cons in Hn as [Hxl Hn]. destruct (csize_facts i Hi) as (_&_&?&_).
  cbn [length] in Hu. assert (u32 (sl_inuse d + 1) = sl_inuse d + 1) as Hw by (apply u32_small; unfold in_u32; lia).
  rewrite Hw. split_and!; [|done..| |lia].
  - split; simpl; [done|done| |lia|].
    + intros y Hy. apply Hv. by right.
    + intros Hd y k Hy. apply Hpo; [done|by right].
  - destruct l as [|y l]; simpl in Hc; [done|]. destruct Hc as (->&Hy&_). done.
Qed.

(** What an allocation of the object [x] of [sz] bytes does: the state is [s'] with the free objects [fl']. *)
Record takes (dbg : bool) (s : slub) (fl : Z → list Z) (x sz : Z) (s' : slub) (fl' : Z → list Z) : Prop := {
  tk_ok : slub_ok dbg s' fl';
  tk_live : ∀ y m, live s' fl' y m ↔ (y = x ∧ m = sz) ∨ live s fl y m;
  tk_new : ∀ m, live s fl x m → False;
  tk_empty : no_empty s → no_empty s';
  tk_bytes : ∀ y m b, live s fl y m → y ≤ b < y + m → load_byte (words s') b = load_byte (words s) b
}.

Lemma take_object_spec dbg s fl i c p ps :
  slub_ok dbg s fl → caches s !! i = Some c → partial c = p :: ps →
  (∀ q e, descs s !! q = Some e → q ≠ p → p_flags e = SLAB → sl_inuse e ≠ 0) →
  ∃ x s' fl', take_object dbg s i = Ok (x, s') ∧ slub_ok dbg s' fl' ∧ x ≠ 0 ∧ x mod csize i = 0 ∧ words s' = words s ∧
    (∀ y m, live s' fl' y m ↔ (y = x ∧ m = csize i) ∨ live s fl y m) ∧ (∀ m, live s fl x m → False) ∧ no_empty s'.
Proof.
  intros Hs Hc Hpt Hne. destruct (ok_cache _ _ _ Hs _ _ Hc) as [Hcs Hco Hpn Hfn Hcp Hcf].
  assert (p ∈ partial c) as [Hsl Hl]%Hcp by (rewrite Hpt; left).
  destruct (slab_desc _ _ _ _ _ _ Hs Hc Hsl) as (d&Hp&Hf&Hci&Ho&Hi&H0&Ha&He&Hso).
  destruct (fl p) as [|x l] eqn:Hflp; [done|]. destruct (slab_take _ _ _ _ _ _ _ Hso Hi) as (Hso'&Hx&Hx0&Hlast&Hu).
  set (d' := PDesc (p_flags d) (p_order d) (sl_cache d) (words s !!! x) (u32 (sl_inuse d + 1))) in *.
  set (c' := if words s !!! x =? 0 then Cache (c_size c) (c_objects c) (filter (λ q, q ≠ p) (partial c)) (full c ++ [p]) else c).
  assert (p ∉ full c) as Hnf by (rewrite Hcf, Hflp; naive_solver).
  assert (relisted c c' p (l ≠ []) (l = [])) as Hrl.
  { subst c'. destruct (Z.eqb_spec (words s !!! x) 0) as [E|E].
    - apply Hlast in E as ->. split; simpl; [done|done|by apply filter_ne_nodup|..].
      + apply NoDup_app. split_and!; [done|set_solver|]. apply NoDup_singleton.
      + intros q Hq. rewrite elem_filter_ne. naive_solver.
      + set_solver.
      + rewrite elem_filter_ne. naive_solver.
      + set_solver.
    - assert (l ≠ []) by tauto. split; try done; rewrite Hpt; set_solver. }
  exists x, (Slub (<[i := c']> (caches s)) (<[p := d']> (descs s)) (words s) (frees s)), (λ q, if decide (q = p) then l else fl q).
  assert (obj_ok i p x) as Hox by (apply (so_valid _ _ _ _ _ _ Hso); left).
  assert (Hoth : ∀ q e, descs s !! q = Some e → q ≠ p → p + PAGE_SIZE ≤ q ∨ q + blk e ≤ p).
  { intros q e Hq Hqp. rewrite <-(blk_slab d Ho). by apply (ok_apart _ _ _ Hs p d q e). }
  split_and!; [| |done|apply Hox|done|..].
  - unfold take_object. rewrite (arr_get_Ok _ _ _ Hc). cbn [res_bind]. rewrite Hpt. cbn [head deref res_bind]. rewrite Hp. cbn [deref res_bind].
    rewrite Hx. replace (if dbg then check_free_object (words s) c p x else Ok ()) with (Ok () : res unit).
    2: { destruct dbg; [|done]. symmetry. apply (check_free_object_spec c i _ p d x (x :: l)); try done. left. }
    cbn [res_bind]. unfold load_word. rewrite (proj2 (Z.eqb_neq _ _) Hx0). cbn [res_bind]. fold d'. subst c'. rewrite Hpt.
    destruct (words s !!! x =? 0).
    + unfold set_cache, set_desc. simpl. rewrite arr_set_Ok by by eapply lookup_lt_Some. done.
    + simpl. by rewrite list_insert_id.
  - apply (put_slab dbg s fl Hs i c); try done. intros e He1. simplify_eq. done.
  - intros y m. rewrite live_insert, (live_split s fl p d y m Hp), Hflp. unfold page_live. simpl. rewrite Hf, Hci.
    pose proof (so_nodup _ _ _ _ _ _ Hso) as [Hxl _]%NoDup_cons. pose proof SLAB_LARGE.
    split.
    + intros [[(_&Hy&Hyl&->)|(?&_)]|?]; [|done|by auto]. destruct (decide (y = x)) as [->|]; [by left|]. right. left. left. set_solver.
    + intros [[-> ->]|[[(_&Hy&Hyl&->)|(?&_)]|?]]; [by auto 10| |done|by auto]. left. left. set_solver.
  - intros m Hm. rewrite (live_split s fl p d x m Hp), Hflp in Hm. destruct Hm as [[(_&_&Hn&_)|(Hl'&_)]|(q&e&Hqp&Hq&Hlq)].
    + set_solver.
    + by rewrite Hf in Hl'.
    + pose proof (page_live_inside _ _ _ _ _ _ _ (ok_desc _ _ _ Hs _ _ Hq) Hlq). pose proof (Hoth q e Hq Hqp). destruct Hox. lia.
  - intros q e Hq Hfq. simpl in Hq. apply lookup_insert_Some in Hq as [[<- <-]|[Hqp Hq]]; [done|]. by apply (Hne q).
Qed.

(** ** New slabs *)

Lemma elem_objs_from i p x :
  (i < 10)%nat → p mod PAGE_SIZE = 0 → x ∈ objs_from p (csize i) 0 (Z.to_nat (cobjs i)) ↔ obj_ok i p x.
Proof.
  intros Hi Ha. destruct (csize_facts i Hi) as (Hm&?&?&_). pose proof (csize_divides i p Hi Ha) as Hd.
  unfold objs_from, obj_ok. rewrite list_elem_of_fmap. split.
  - intros (k&->&Hk%elem_of_seq). split; [rewrite <-Hm; nia|].
    by rewrite Z.add_mod, Hd, Z.mod_mul by lia.
  - intros [Hx Hxm]. apply Z.mod_divide in Hd as [a Hd], Hxm as [b Hxm]; [|lia..].
    exists (Z.to_nat (b - a)). assert (a ≤ b) by nia. split; [rewrite Z2Nat.id; lia|].
    apply elem_of_seq. assert (b - a < cobjs i) by nia. lia.
Qed.

Lemma objs_from_nodup p sz j n : 0 < sz → NoDup (objs_from p sz j n).
Proof. intros. unfold objs_from. apply NoDup_fmap_2; [|apply NoDup_seq]. intros a b E. nia. Qed.

Section new_slab.
Context (dbg : bool) (w : gmap Z Z) (i : nat) (p : Z).
Context (Hi : (i < 10)%nat) (H0 : 0 < p) (Ha : p mod PAGE_SIZE = 0).

(** Memory of the page after [new_slab]. *)
Let w1 := if dbg then memset (Z.to_nat PAGE_SIZE) w p SLAB_POISON else w.
Let w2 := link_loop (Z.to_nat (cobjs i)) w1 p 0 (csize i) (cobjs i).

Lemma new_slab_frame : page_frame p w w2.
Proof.
  intros a H8 Hap. destruct (csize_facts i Hi) as (Hm&?&?&_). subst w2. rewrite link_loop_other by (intros; nia).
  subst w1. destruct dbg; [|done]. apply memset_word. rewrite Z2Nat.id by done.
  assert (p mod 8 = 0) as Hp8 by (apply (csize_mod8 i); [done|by apply csize_divides]).
  destruct Hap; [left|by right]. by apply multiples_apart.
Qed.

Lemma new_slab_poison x k :
  dbg = true → obj_ok i p x → 8 ≤ k < csize i → load_byte w2 (x + k) = SLAB_POISON.
Proof.
  intros Hd Hx Hk. pose proof (obj_end i p x Hi Ha Hx) as Hend. destruct (csize_facts i Hi) as (Hm&?&?&_). destruct Hx as [Hx Hxm].
  transitivity (load_byte w1 (x + k)).
  2: { subst w1. rewrite Hd, memset_byte, decide_True by (rewrite Z2Nat.id by done; lia). done. }
  apply load_byte_agree. subst w2. apply link_loop_other. intros j Hj Heq.
  pose proof (csize_mod8 i x Hi Hxm) as H8. pose proof (csize_divides i p Hi Ha) as Hpd. pose proof (Z.mod_pos_bound (x + k) 8).
  assert ((p + j * csize i) mod csize i = 0) as Hjm by by rewrite Z.add_mod, Hpd, Z.mod_mul by lia.
  assert (8 ≤ k - (x + k) mod 8).
  { assert ((x + k) mod 8 = k mod 8) as -> by (by rewrite Z.add_mod, H8, Z.add_0_l, Z.mod_mod).
    pose proof (Z.div_mod k 8). pose proof (Z.div_le_lower_bound k 8 1 ltac:(lia) ltac:(lia)). lia. }
  rewrite <-Heq in Hjm. pose proof (multiples_apart (csize i) x (x + k - (x + k) mod 8) ltac:(lia) Hxm Hjm ltac:(lia)). lia.
Qed.

Lemma new_slab_ok : slab_ok dbg i w2 p (PDesc SLAB 0 i p 0) (objs_from p (csize i) 0 (Z.to_nat (cobjs i))).
Proof.
  destruct (csize_facts i Hi) as (Hm&?&?&_). split; simpl.
  - replace p with (if 0 <? cobjs i then p + 0 * csize i else 0) at 1 by (replace (0 <? cobjs i) with true by lia; lia).
    apply objs_chain; [lia..|]. intros k Hk. apply link_loop_at; lia.
  - apply objs_from_nodup. lia.
  - intros x. by apply elem_objs_from.
  - unfold objs_from. rewrite length_fmap, length_seq. lia.
  - intros Hd x k Hx. apply new_slab_poison; [done|]. by apply elem_objs_from.
Qed.
End new_slab.

(** Bytes of a live object survive a change of another page. *)
Lemma live_bytes dbg s fl p w y m b :
  slub_ok dbg s fl → page_frame p (words s) w → p mod PAGE_SIZE = 0 →
  (∀ q e, descs s !! q = Some e → p + PAGE_SIZE ≤ q ∨ q + blk e ≤ p) →
  live s fl y m → y ≤ b < y + m → load_byte w b = load_byte (words s) b.
Proof.
  intros Hs Hw Ha Hap (q&e&Hq&Hl) Hb. pose proof (page_live_inside _ _ _ _ _ _ _ (ok_desc _ _ _ Hs _ _ Hq) Hl) as (?&?&?&H8&_).
  apply load_byte_agree, Hw; [by rewrite Zminus_mod, Z.mod_mod, Z.sub_diag by done|]. pose proof (Z.mod_pos_bound b 8 ltac:(lia)).
  assert (y ≤ b - b mod 8). { apply Z.mod_divide in H8 as [k ->]; [|done]. pose proof (Z.div_mod b 8). nia. }
  specialize (Hap q e Hq). lia.
Qed.

Lemma cache_alloc_spec dbg s fl i a :
  slub_ok dbg s fl → no_empty s → (i < 10)%nat → (∀ p, a = Some p → fresh_block s p 0) →
  (a = None ∧ cache_alloc dbg s i a = Ok (0, s)) ∨
  ∃ x s' fl', cache_alloc dbg s i a = Ok (x, s') ∧ takes dbg s fl x (csize i) s' fl' ∧ x ≠ 0 ∧ x mod csize i = 0.
Proof.
  intros Hs Hn Hi Hfr. destruct (lookup_lt_is_Some_2 (caches s) i) as [c Hc]; [by rewrite (ok_len _ _ _ Hs)|].
  unfold cache_alloc. rewrite (arr_get_Ok _ _ _ Hc). cbn [res_bind]. destruct (partial c) as [|p ps] eqn:Hpt.
  2: { right. destruct (take_object_spec dbg s fl i c p ps) as (x&s'&fl'&Ht&Hok&Hx0&Hxm&Hw&Hl&Hnew&Hne); [done..|by intros; eapply Hn|].
       exists x, s', fl'. split_and!; [done| |done..]. split; [done..|]. by rewrite Hw. }
  destruct a as [p|]; [right|by left]. destruct (Hfr p eq_refl) as (H0&Ha&He&Hap). change (2 ^ 0) with 1 in *. rewrite Z.mul_1_r in *.
  unfold new_slab. rewrite (arr_get_Ok _ _ _ Hc). destruct (ok_cache _ _ _ Hs _ _ Hc) as [Hcs Hco Hpn Hfn Hcp Hcf]. cbn [res_bind].
  unfold add_partial, set_words, set_desc, set_cache. cbn [caches descs words frees]. rewrite (arr_get_Ok _ _ _ Hc). cbn [res_bind].
  rewrite arr_set_Ok by by eapply lookup_lt_Some. cbn [res_bind]. rewrite Hcs, Hco, Hpt.
  assert (descs s !! p = None) as Hnone.
  { destruct (descs s !! p) as [d|] eqn:Hd; [|done]. specialize (Hap p d Hd). destruct (ok_desc _ _ _ Hs _ _ Hd).
    unfold blk in *. pose proof (Z.pow_pos_nonneg 2 (p_order d)). unfold PAGE_SIZE in *. lia. }
  set (l := objs_from p (csize i) 0 (Z.to_nat (cobjs i))).
  set (w2 := link_loop _ _ p 0 _ _). set (c1 := Cache _ _ [p] _). fold SLAB.
  assert (slab_ok dbg i w2 p (PDesc SLAB 0 i p 0) l) as Hso by exact (new_slab_ok dbg (words s) i p Hi H0 Ha).
  assert (page_frame p (words s) w2) as Hw by exact (new_slab_frame dbg (words s) i p Hi Ha).
  assert (∀ y, obj_ok i p y → y ∈ l) as Hel by (intros y; apply (elem_objs_from i p y Hi Ha)).
  assert (l ≠ []) as Hlne.
  { destruct (csize_facts i Hi) as (_&_&?&_). subst l. intros E%(f_equal length). unfold objs_from in E.
    rewrite length_fmap, length_seq in E. simpl in E. lia. }
  clearbody l w2.
  assert (relisted c c1 p (l ≠ []) (l = [])) as Hrl.
  { assert (p ∉ full c) by (rewrite Hcf; intros [(e&He1&_) _]; by simplify_eq).
    split; simpl; [done|done|apply NoDup_singleton|done|..]; rewrite ?Hpt; set_solver. }
  set (s1 := Slub _ _ w2 _). set (fl1 := λ q, if decide (q = p) then l else fl q).
  assert (slub_ok dbg s1 fl1) as Hs1.
  { apply (put_slab dbg s fl Hs i c); try done; [intros e He1; by simplify_eq|by intros q e Hq _; apply Hap]. }
  assert (Hlive : ∀ y m, live s1 fl1 y m ↔ live s fl y m).
  { intros y m. subst s1 fl1. rewrite live_insert. unfold live at 1, page_live at 1. simpl. split.
    - intros [[(_&Hy&Hyl&_)|(?&_)]|(q&e&_&?&?)]; [|done|eauto]. by apply Hel in Hy.
    - intros (q&e&Hq&Hl). right. exists q, e. split_and!; [intros ->; by simplify_eq|done..]. }
  destruct (take_object_spec dbg s1 fl1 i c1 p []) as (x&s'&fl'&Ht&Hok&Hx0&Hxm&Hw'&Hl&Hnew&Hne); [done| |done| |].
  { subst s1. simpl. apply list_lookup_insert_eq. by eapply lookup_lt_Some. }
  { intros q e Hq Hqp. subst s1. simpl in Hq. rewrite lookup_insert_ne in Hq by done. exact (Hn q e Hq). }
  exists x, s', fl'. split_and!; [done| |done..]. split; [done|..|done|].
  - intros y m. by rewrite Hl, Hlive.
  - intros m Hm. apply (Hnew m). by apply Hlive.
  - intros y m b Hy Hb. rewrite Hw'. by eapply (live_bytes dbg s fl p w2).
Qed.

(** ** Allocation *)

(** The order of the block [kmalloc] asks for. *)
Definition request (size : Z) : Z := Z.max 0 (Z.log2_up size - PAGE_SHIFT).

Lemma index_loop_spec fuel size j :
  0 < size ≤ csize 9 → (j ≤ 9)%nat → (9 - j ≤ fuel)%nat → j = 0%nat ∨ csize j < 2 * size →
  ∃ i, index_loop fuel size j = Ok i ∧ (i < 10)%nat ∧ size ≤ csize i ∧ (csize i = 8 ∨ csize i < 2 * size).
Proof.
  revert j. induction fuel as [|fuel IH]; intros j Hsz Hj Hf Hinv; cbn [index_loop]; rewrite Z.shiftl_1_l; change (2 ^ (KMALLOC_SHIFT_LOW + Z.of_nat j)) with (csize j); rewrite Z.gtb_ltb.
  - assert (j = 9%nat) as -> by lia. replace (csize 9 <? size) with false by lia. exists 9%nat.
    split_and!; [done|lia|lia|right; lia].
  - destruct (Z.ltb_spec (csize j) size) as [Hlt|Hge].
    + assert (j ≠ 9%nat) by (intros ->; lia). apply IH; [lia..|right].
      unfold csize in *. rewrite Nat2Z.inj_succ. replace (3 + Z.succ (Z.of_nat j)) with (Z.succ (3 + Z.of_nat j)) by lia.
      rewrite Z.pow_succ_r by lia. lia.
    + exists j. split_and!; [done|lia|lia|]. destruct Hinv as [->|]; [by left|by right].
Qed.

Lemma order_loop_spec MAX fuel size o :
  (MAX ≤ 52)%nat → PAGE_SIZE < size → Z.of_nat o ≤ request size → (o < MAX)%nat → (MAX - o ≤ fuel)%nat →
  order_loop MAX fuel size (2 ^ (12 + Z.of_nat o)) o =
    Ok (if decide (request size < Z.of_nat MAX) then Some (Z.to_nat (request size)) else None).
Proof.
  intros HM Hsz. revert o. induction fuel as [|fuel IH]; intros o Ho HoM Hf; [lia|]. simpl.
  assert (Hbr : 2 ^ (12 + Z.of_nat o) < size ↔ Z.of_nat o < request size).
  { unfold request, PAGE_SHIFT, PAGE_SIZE in *. pose proof (Z.log2_up_le_pow2 size (12 + Z.of_nat o)). lia. }
  destruct (Z.ltb_spec (2 ^ (12 + Z.of_nat o)) size) as [Hlt|Hge].
  - apply Hbr in Hlt. destruct (Nat.leb_spec MAX (S o)); [rewrite decide_False by lia; done|].
    rewrite Z.shiftl_mul_pow2 by lia. replace (2 ^ (12 + Z.of_nat o) * 2 ^ 1) with (2 ^ (12 + Z.of_nat (S o))).
    2: { rewrite <-Z.pow_add_r by lia. f_equal. lia. }
    rewrite u64_small; [apply IH; lia|]. split; [lia|]. apply Z.pow_lt_mono_r; lia.
  - assert (request size = Z.of_nat o) as -> by lia. rewrite decide_True by lia. by rewrite Nat2Z.id.
Qed.

Lemma request_bounds size : PAGE_SIZE < size → let sz := PAGE_SIZE * 2 ^ request size in size ≤ sz ∧ sz < 2 * size ∧ 0 ≤ request size.
Proof.
  intros Hsz. unfold request, PAGE_SHIFT. change PAGE_SIZE with (2 ^ 12) in *. pose proof (Z.log2_up_spec size) as Hs.
  assert (12 < Z.log2_up size). { pose proof (Z.log2_up_le_pow2 size 12). lia. }
  rewrite Z.max_r by lia. rewrite <-Z.pow_add_r by lia. replace (12 + (Z.log2_up size - 12)) with (Z.succ (Z.pred (Z.log2_up size))) by lia.
  specialize (Hs ltac:(lia)). simpl. rewrite Z.pow_succ_r in * by lia. rewrite <-(Z.succ_pred (Z.log2_up size)), Z.pow_succ_r in Hs by lia.
  rewrite Z.pred_succ in Hs. lia.
Qed.

Lemma kmalloc_takes MAX dbg s fl size a :
  slub_ok dbg s fl → no_empty s → (0 < MAX ≤ 52)%nat → in_u64 size → (∀ p, a = Some p → fresh_block s p (request size)) →
  ∃ r s', kmalloc MAX dbg s size a = Ok (r, s') ∧
    ((r = 0 ∧ s' = s ∧ (size = 0 ∨ Z.of_nat MAX ≤ request size ∨ a = None)) ∨
     (r ≠ 0 ∧ ∃ sz fl', takes dbg s fl r sz s' fl' ∧ size ≤ sz ∧ (sz = 8 ∨ sz < 2 * size) ∧ r mod Z.min sz PAGE_SIZE = 0)).
Proof.
  intros Hs Hn HM [H0 H64] Hfr. unfold kmalloc. destruct (Z.eqb_spec size 0) as [->|Hne]; [eauto 10|].
  change KMALLOC_MAX_SIZE with PAGE_SIZE. destruct (Z.leb_spec size PAGE_SIZE) as [Hle|Hgt].
  - destruct (index_loop_spec 10 size 0) as (i&->&Hi&Hsi&Hup); [change (csize 9) with PAGE_SIZE; lia|lia|lia|by left|]. cbn [res_bind].
    assert (request size = 0) as Hr.
    { unfold request, PAGE_SHIFT. pose proof (Z.log2_up_le_pow2 size 12). change (2 ^ 12) with PAGE_SIZE in *. lia. }
    rewrite Hr in Hfr. destruct (cache_alloc_spec dbg s fl i a) as [[-> ->]|(x&s'&fl'&->&Htk&Hx&Hxm)]; [done..|eauto 10|].
    exists x, s'. split; [done|]. right. split; [done|]. exists (csize i), fl'. split_and!; [done..|].
    destruct (csize_facts i Hi) as (_&?&_). by rewrite Z.min_l by lia.
  - destruct (request_bounds size Hgt) as (Hlo&Hup&Hr0).
    change PAGE_SIZE with (2 ^ (12 + Z.of_nat 0)) at 1. rewrite order_loop_spec by lia. cbn [res_bind].
    case_decide as HrM; [|by eexists _, _; split; [done|]; left; split_and!; [done..|right; left; lia]].
    destruct a as [p|]; [|eauto 10]. exists p. eexists. split; [done|]. right.
    destruct (Hfr p eq_refl) as (Hp0&Hpa&Hpe&Hap). split; [lia|]. rewrite Z2Nat.id by done.
    set (d := PDesc _ (request size) 0 0 0). assert (blk d = PAGE_SIZE * 2 ^ request size) as Hblk by done. rewrite <-Hblk in *.
    assert (descs s !! p = None) as Hnone.
    { destruct (descs s !! p) as [e|] eqn:He; [|done]. specialize (Hap p e He). destruct (ok_desc _ _ _ Hs _ _ He).
      unfold blk in Hap at 2. pose proof (Z.pow_pos_nonneg 2 (p_order e)). unfold PAGE_SIZE in *. lia. }
    exists (blk d), (λ q, if decide (q = p) then [] else fl q). split_and!; [|done|by right|].
    2: { rewrite Z.min_r by lia. done. }
    split.
    + by apply put_large.
    + intros y m. unfold set_desc. rewrite live_insert. unfold live, page_live at 1. simpl. pose proof SLAB_LARGE. split.
      * intros [[(?&_)|(_&->&->)]|(q&e&_&?&?)]; [done|by left|eauto].
      * intros [[-> ->]|(q&e&Hq&Hl)]; [by auto 10|]. right. exists q, e. split_and!; [intros ->; by simplify_eq|done..].
    + intros m (q&e&Hq&Hl). pose proof (page_live_inside _ _ _ _ _ _ _ (ok_desc _ _ _ Hs _ _ Hq) Hl). specialize (Hap q e Hq). lia.
    + intros Hnes q e Hq Hf. simpl in Hq. apply lookup_insert_Some in Hq as [[<- <-]|[_ Hq]]; [done|by apply (Hnes q e)].
    + done.
Qed.

(** ** Release *)

Section give.
Context (dbg : bool) (i : nat) (w : gmap Z Z) (p x : Z) (d : page_desc) (l : list Z).
Context (Hi : (i < 10)%nat) (H0 : 0 < p) (Hx : obj_ok i p x).

(** Memory after the object [x] was put in front of the free list. *)
Definition given_words : gmap Z Z := <[x := sl_freelist d]> (if dbg then memset (Z.to_nat (csize i)) w x SLAB_POISON else w).

Lemma given_frame a : a mod 8 = 0 → a < x ∨ x + csize i ≤ a → given_words !!! a = w !!! a.
Proof.
  intros H8 Ha. destruct (csize_facts i Hi) as (_&?&_). destruct Hx as [_ Hxm]. apply csize_mod8 in Hxm; [|done]. unfold given_words.
  rewrite lookup_total_insert_ne by lia. destruct dbg; [|done]. apply memset_word. rewrite Z2Nat.id by lia.
  destruct Ha; [left; by apply multiples_apart|by right].
Qed.

Lemma slab_give :
  slab_ok dbg i w p d l → (x ∉ l) → sl_inuse d ≠ 0 →
  slab_ok dbg i given_words p (PDesc (p_flags d) (p_order d) (sl_cache d) x (u32 (sl_inuse d - 1))) (x :: l) ∧
  u32 (sl_inuse d - 1) = sl_inuse d - 1.
Proof.
  intros Hso Hxl Hu. destruct (csize_facts i Hi) as (_&?&?&_).
  assert (slab_ok dbg i given_words p d l) as [Hc Hn Hv [Hu0 Hul] Hpo].
  { apply (slab_agree dbg i w); [done| |done]. intros y a Hy Hya H8. apply given_frame; [done|].
    assert (y ≠ x) by (intros ->; done). destruct (so_valid _ _ _ _ _ _ Hso y Hy) as [_ Hym], Hx as [_ Hxm].
    destruct (decide (y < x)) as [Hlt|].
    - pose proof (multiples_apart (csize i) y x ltac:(lia) Hym Hxm Hlt). lia.
    - pose proof (multiples_apart (csize i) x y ltac:(lia) Hxm Hym ltac:(lia)). lia. }
  assert (u32 (sl_inuse d - 1) = sl_inuse d - 1) as Hw by (apply u32_small; unfold in_u32; simpl in *; lia).
  split; [|done]. rewrite Hw. split; cbn [sl_freelist sl_inuse].
  - simpl. split_and!; [done|destruct Hx; lia|]. unfold given_words at 2. by rewrite lookup_total_insert_eq.
  - by constructor.
  - intros y [->|Hy]%elem_of_cons; auto.
  - rewrite length_cons. lia.
  - intros Hd y k [->|Hy]%elem_of_cons Hk; [|by apply Hpo]. unfold given_words. rewrite Hd.
    rewrite load_byte_insert by lia. rewrite memset_byte, decide_True by lia. done.
Qed.
End give.

(** A slab with one object in use has no second one. *)
Lemma slab_one_live dbg i w p d l x y :
  (i < 10)%nat → p mod PAGE_SIZE = 0 → slab_ok dbg i w p d l → sl_inuse d = 1 →
  obj_ok i p x → obj_ok i p y → (x ∉ l) → (y ∉ l) → y ≠ x → False.
Proof.
  intros Hi Ha [_ Hn Hv [_ Hu] _] H1 Hx Hy Hxl Hyl Hne. destruct (csize_facts i Hi) as (_&?&?&_).
  assert (x :: y :: l ⊆+ objs_from p (csize i) 0 (Z.to_nat (cobjs i))) as Hsub.
  { apply NoDup_submseteq; [repeat constructor; set_solver|]. intros z Hz. apply elem_objs_from; [done..|]. set_solver. }
  apply submseteq_length in Hsub. unfold objs_from in Hsub. rewrite length_fmap, length_seq in Hsub. simpl in Hsub. lia.
Qed.

(** With two objects in use there is another one than [x]. *)
Lemma slab_other_live dbg i w p d l x :
  (i < 10)%nat → p mod PAGE_SIZE = 0 → slab_ok dbg i w p d l → 1 < sl_inuse d →
  ∃ y, obj_ok i p y ∧ (y ∉ l) ∧ y ≠ x.
Proof.
  intros Hi Ha [_ Hn Hv [_ Hu] _] H1. destruct (csize_facts i Hi) as (_&?&?&_).
  set (os := objs_from p (csize i) 0 (Z.to_nat (cobjs i))).
  destruct (decide (Forall (λ y, y ∈ x :: l) os)) as [Hall|Hex].
  - exfalso. assert (os ⊆+ x :: l) as Hsub.
    { apply NoDup_submseteq; [apply objs_from_nodup; lia|]. by apply Forall_forall. }
    apply submseteq_length in Hsub. unfold os, objs_from in Hsub. rewrite length_fmap, length_seq in Hsub.
    simpl in Hsub. lia.
  - apply not_Forall_Exists in Hex; [|intros y; exact (decide _)].
    apply Exists_exists in Hex as (y&Hy&Hny). exists y. simpl in Hny.
    split; [by apply elem_objs_from|]. set_solver.
Qed.

(** The page of a live object is the one its address is aligned down to. *)
Lemma page_live_base dbg s fl p d y m :
  slub_ok dbg s fl → descs s !! p = Some d → page_live p d (fl p) y m → ALIGN_DOWN y PAGE_SIZE = p.
Proof.
  intros Hs Hp Hl. destruct (ok_desc _ _ _ Hs _ _ Hp) as [H0 Ha Hor He Hk].
  assert (0 < 2 ^ p_order d) by (by apply Z.pow_pos_nonneg).
  assert (p + PAGE_SIZE ≤ 2 ^ 64) by (unfold blk in He; change PAGE_SIZE with 4096 in *; nia).
  destruct Hl as [(Hf&Ho&_)|(_&->&_)].
  - destruct Hk as [(_&_&Hi&_)|Hl]; [|by rewrite Hf in Hl]. by eapply ALIGN_DOWN_obj.
  - change PAGE_SIZE with (2 ^ 12) in *. rewrite ALIGN_DOWN_spec; [lia| |lia].
    unfold in_u64, UINT64_MAX. lia.
Qed.

(** A slab that was full comes back to the partial list. *)
Lemma relisted_back ds fl i c p (b : bool) :
  cache_ok ds fl i c → slab_of ds i p → (b = true ↔ fl p = []) →
  relisted c (if b then Cache (c_size c) (c_objects c) (partial c ++ [p]) (filter (λ q, q ≠ p) (full c)) else c) p True False.
Proof.
  intros [Hcs Hco Hpn Hfn Hcp Hcf] Hsl Hb. destruct b.
  - assert (p ∉ partial c) by (rewrite Hcp; naive_solver).
    split; simpl; [done|done|apply NoDup_app; split_and!; [done|set_solver|apply NoDup_singleton]|by apply filter_ne_nodup|..].
    + set_solver.
    + intros q Hq. rewrite elem_filter_ne. naive_solver.
    + set_solver.
    + rewrite elem_filter_ne. naive_solver.
  - assert (fl p ≠ []) by naive_solver. split; [done..| |]; [rewrite Hcp|rewrite Hcf]; tauto.
Qed.

(** The facts of a live object of a slab. *)
Lemma kfree_slab dbg s fl p d c x :
  slub_ok dbg s fl → no_empty s → descs s !! p = Some d → p_flags d = SLAB → caches s !! sl_cache d = Some c →
  obj_ok (sl_cache d) p x → (x ∉ fl p) →
  ∃ s' fl', kfree dbg s x = Ok s' ∧ slub_ok dbg s' fl' ∧ no_empty s' ∧ words s' = given_words dbg (sl_cache d) (words s) x d ∧
    (∀ y m, live s' fl' y m ↔ y ≠ x ∧ live s fl y m) ∧
    (if decide (sl_inuse d = 1) then frees s' = frees s ++ [(p, 0, PG_ALLOCATED)] ∧ descs s' !! p = None
     else frees s' = frees s ∧ is_Some (descs s' !! p)).
Proof.
  intros Hs Hn Hp Hf Hc Hx Hxl. destruct (slab_desc dbg s fl (sl_cache d) c p Hs Hc) as (d'&Hp'&_&_&Ho&Hi&H0&Ha&He&Hso).
  { by exists d. }
  simplify_eq. set (i := sl_cache d) in *. pose proof (Hn p d Hp Hf) as Hu. destruct (ok_cache _ _ _ Hs _ _ Hc) as [Hcs Hco Hpn Hfn Hcp Hcf].
  destruct (slab_give dbg i (words s) p x d (fl p) Hi H0 Hx Hso Hxl Hu) as [Hso' Hu32].
  destruct (obj_u64 i p x Hi H0 He Hx) as [Hx64 Hx0]. destruct (csize_facts i Hi) as (_&?&?&_). pose proof (obj_end i p x Hi Ha Hx).
  assert (page_frame p (words s) (given_words dbg i (words s) x d)) as Hfrm.
  { intros a H8 Hap. apply (given_frame _ _ _ p); [done..|]. destruct Hx. lia. }
  assert (slab_of (descs s) i p) as Hsl by by exists d.
  assert (Hfull : sl_inuse d = c_objects c ↔ fl p = []).
  { rewrite Hco. destruct (so_inuse _ _ _ _ _ _ Hso) as [_ ->]. destruct (fl p); simpl; (split; [done || lia|done || lia]). }
  set (c1 := if sl_inuse d =? c_objects c then Cache (c_size c) (c_objects c) (partial c ++ [p]) (filter (λ q, q ≠ p) (full c)) else c).
  assert (relisted c c1 p True False) as Hrl1 by (apply (relisted_back (descs s) fl i); [by apply (ok_cache _ _ _ Hs)|done|by rewrite Z.eqb_eq]).
  set (c2 := if u32 (sl_inuse d - 1) =? 0 then Cache (c_size c1) (c_objects c1) (filter (λ q, q ≠ p) (partial c1)) (full c1) else c1).
  fold i in Hso'. set (d' := PDesc (p_flags d) (p_order d) i x (u32 (sl_inuse d - 1))) in *.
  assert (Hk : kfree dbg s x = Ok (
    let s1 := Slub (<[i := c2]> (caches s)) (<[p := d']> (descs s)) (given_words dbg i (words s) x d) (frees s) in
    if u32 (sl_inuse d - 1) =? 0 then give_back s1 p 0 PG_ALLOCATED else s1)).
  { unfold kfree. rewrite (proj2 (Z.eqb_neq _ _) Hx0), (ALIGN_DOWN_obj i p x), Hp, Hf by done.
    change (truth (Z.land SLAB (Z.lor PG_SLAB PG_KMALLOC))) with true. change (truth (Z.land SLAB PG_KMALLOC)) with false.
    cbn [negb]. change (Z.land SLAB (not64 PG_SLAB)) with PG_ALLOCATED. fold i. rewrite (arr_get_Ok _ _ _ Hc). cbn [res_bind].
    replace (if dbg then check_free (words s) c p x d else Ok ()) with (Ok () : res unit).
    2: { destruct dbg; [|done]. rewrite (check_free_spec true c i (words s) p d (fl p) x) by done. by rewrite decide_True. }
    cbn [res_bind]. fold c1. unfold given_words. rewrite <-Hcs, <-(rl_size _ _ _ _ _ Hrl1). unfold set_cache. cbn [caches set_desc set_words].
    rewrite arr_set_Ok by by eapply lookup_lt_Some. cbn [res_bind]. rewrite <-Hf. done. }
  assert (Hoth : ∀ q e, descs s !! q = Some e → q ≠ p → p + PAGE_SIZE ≤ q ∨ q + blk e ≤ p).
  { intros q e Hq Hqp. rewrite <-(blk_slab d Ho). by apply (ok_apart _ _ _ Hs p d q e). }
  assert (Hrest : ∀ y m q e, q ≠ p → descs s !! q = Some e → page_live q e (fl q) y m → y ≠ x).
  { intros y m q e Hqp Hq Hl ->. pose proof (page_live_inside _ _ _ _ _ _ _ (ok_desc _ _ _ Hs _ _ Hq) Hl).
    pose proof (Hoth q e Hq Hqp). destruct Hx. lia. }
  clearbody c1. rewrite Hk. subst c2. rewrite Hu32 in *. destruct (Z.eqb_spec (sl_inuse d - 1) 0) as [E|E].
  - exists (give_back (Slub (<[i := Cache (c_size c1) (c_objects c1) (filter (λ q, q ≠ p) (partial c1)) (full c1)]> (caches s)) (<[p := d']> (descs s)) (given_words dbg i (words s) x d) (frees s)) p 0 PG_ALLOCATED), fl.
    split; [done|]. unfold give_back. cbn [caches descs words frees]. rewrite delete_insert_eq. split_and!.
    + apply (drop_slab dbg s fl Hs i c _ p d); try done. destruct Hrl1 as [??? ? Hrp Hrf Hpp Hpf].
      split; simpl; [done..|by apply filter_ne_nodup|done| |done| |done].
      * intros q Hq. rewrite elem_filter_ne, Hrp by done. naive_solver.
      * rewrite elem_filter_ne. naive_solver.
    + intros q e Hq. simpl in Hq. apply lookup_delete_Some in Hq as [_ Hq]. exact (Hn q e Hq).
    + done.
    + intros y m. rewrite live_delete, (live_split s fl p d y m Hp). split; [intros (q&e&?&?&?); split; [by eapply Hrest|by eauto 10]|].
      intros [Hyx [[(_&Hy&Hyl&_)|(Hl&_)]|?]]; [|by rewrite Hf in Hl|done]. exfalso.
      apply (slab_one_live dbg i (words s) p d (fl p) x y); done || lia.
    + rewrite decide_True by lia. split; [done|]. apply lookup_delete_eq.
  - exists (Slub (<[i := c1]> (caches s)) (<[p := d']> (descs s)) (given_words dbg i (words s) x d) (frees s)), (λ q, if decide (q = p) then x :: fl p else fl q).
    split; [done|]. split_and!.
    + apply (put_slab dbg s fl Hs i c); try done; [intros e He1; by simplify_eq|]. destruct Hrl1. split; [done..| |]; naive_solver.
    + intros q e Hq Hfq. simpl in Hq. apply lookup_insert_Some in Hq as [[<- <-]|[Hqp Hq]]; [subst d'; simpl; lia|exact (Hn q e Hq Hfq)].
    + done.
    + intros y m. rewrite live_insert, (live_split s fl p d y m Hp). unfold page_live. subst d'. simpl. rewrite Hf. fold i. pose proof SLAB_LARGE. split.
      * intros [[(_&Hy&Hyl&->)|(?&_)]|(q&e&?&?&?)]; [|done|split; [by eapply Hrest|by eauto 10]]. split; [set_solver|]. left. left. set_solver.
      * intros [Hyx [[(_&Hy&Hyl&->)|(?&_)]|?]]; [|done|by auto]. left. left. set_solver.
    + rewrite decide_False by lia. split; [done|]. simpl. by rewrite lookup_insert_eq.
Qed.

(** ** The heap *)

Lemma slub_init_rep dbg : rep dbg slub_init ∅.
Proof.
  exists (λ _, []). split_and!.
  - split; [done| |by intros ? ? ?..]. intros i c Hc.
    assert (i < 10)%nat as Hi by (by apply lookup_lt_Some in Hc).
    do 10 (destruct i as [|i]; [simpl in Hc; injection Hc as <-; split; [done|done|constructor|constructor|..];
      intros p; (split; [by intros ?%not_elem_of_nil|by intros [(d&?&_) _]])|]). lia.
  - by intros p d ?.
  - intros x sz. split; [done|]. by intros (p&d&?&_).
Qed.

Lemma rep_take dbg s fl h r sz s' fl' :
  (∀ x m, h !! x = Some m ↔ live s fl x m) → no_empty s → takes dbg s fl r sz s' fl' →
  rep dbg s' (<[r := sz]> h) ∧ (h !! r = None) ∧
  (∀ y m, h !! y = Some m → r + sz ≤ y ∨ y + m ≤ r) ∧
  (∀ y m b, h !! y = Some m → y ≤ b < y + m → load_byte (words s') b = load_byte (words s) b).
Proof.
  intros Hh Hn [Hok Hl Hnew Hne Hb]. split_and!.
  - exists fl'. split_and!; [done|by apply Hne|]. intros x m. rewrite Hl, lookup_insert_Some, Hh. split; [naive_solver|].
    intros [[-> ->]|Hx]; [by left|]. right. split; [|done]. intros ->. by eapply Hnew.
  - destruct (h !! r) as [m|] eqn:E; [|done]. apply Hh in E. by apply Hnew in E.
  - intros y m Hy. apply Hh in Hy. destruct (live_apart dbg s' fl' r sz y m Hok) as [[-> ->]|?]; [apply Hl; by left|apply Hl; by right| |done].
    by apply Hnew in Hy.
  - intros y m b Hy. apply Hh in Hy. by apply (Hb y m).
Qed.

(** Two objects of a heap are apart, inside memory, and 8-aligned. *)
Lemma rep_apart dbg s h x n y m :
  rep dbg s h → h !! x = Some n → h !! y = Some m → x ≠ y → x + n ≤ y ∨ y + m ≤ x.
Proof.
  intros (fl&Hs&_&Hh) Hx Hy Hne. apply Hh in Hx, Hy. destruct (live_apart dbg s fl x n y m Hs Hx Hy) as [[-> _]|?]; done.
Qed.

(** Whatever is written into live objects, the allocator is unharmed. *)
Lemma rep_write dbg s h w :
  rep dbg s h →
  (∀ a, a mod 8 = 0 → (∀ y m, h !! y = Some m → a < y ∨ y + m ≤ a) → w !!! a = words s !!! a) →
  rep dbg (set_words s w) h.
Proof.
  intros (fl&Hs&Hn&Hh) Hw. exists fl. split_and!; [|done..]. split; simpl; [apply Hs..| |apply Hs].
  intros p d Hp. destruct (ok_desc _ _ _ Hs _ _ Hp) as [H0 Ha Hor He Hk]. split; [done..|].
  destruct Hk as [(Hf&Ho&Hi&Hso)|]; [left|by right]. split_and!; [done..|]. apply (slab_agree _ _ (words s)); [done| |done].
  intros x a Hx Hxa H8. apply Hw; [done|]. intros y m (q&e&Hq&Hl)%Hh.
  pose proof (so_valid _ _ _ _ _ _ Hso x Hx) as Hv. pose proof (obj_end _ _ _ Hi Ha Hv). destruct Hv as [Hxp Hxm].
  pose proof (page_live_inside _ _ _ _ _ _ _ (ok_desc _ _ _ Hs _ _ Hq) Hl). destruct (decide (q = p)) as [->|Hqp].
  2: { pose proof (ok_apart _ _ _ Hs _ _ _ _ Hq Hp Hqp) as Hap. rewrite (blk_slab d Ho) in Hap. lia. }
  simplify_eq. destruct Hl as [(_&[_ Hym]&Hyl&->)|(Hf'&_)]; [|by rewrite Hf in Hf'].
  assert (x ≠ y) by (intros ->; done). destruct (csize_facts _ Hi) as (_&?&_). destruct (decide (x < y)).
  - pose proof (multiples_apart (csize (sl_cache d)) x y ltac:(lia) Hxm Hym ltac:(lia)). lia.
  - pose proof (multiples_apart (csize (sl_cache d)) y x ltac:(lia) Hym Hxm ltac:(lia)). lia.
Qed.

(** Bytes of an object other than the one given back survive. *)
Lemma given_bytes dbg s h i w x d y m b :
  rep dbg s h → h !! x = Some (csize i) → h !! y = Some m → y ≠ x → y ≤ b < y + m → (i < 10)%nat → x mod csize i = 0 →
  (∀ a, a mod 8 = 0 → a < x ∨ x + csize i ≤ a → given_words dbg i w x d !!! a = w !!! a) →
  load_byte (given_words dbg i w x d) b = load_byte w b.
Proof.
  intros Hr Hx Hy Hne Hb Hi Hxm Hfr. pose proof (rep_apart _ _ _ _ _ _ _ Hr Hx Hy ltac:(done)) as Hap.
  destruct Hr as (fl&Hs&_&Hh). apply Hh in Hy as (q&e&Hq&Hl).
  pose proof (page_live_inside _ _ _ _ _ _ _ (ok_desc _ _ _ Hs _ _ Hq) Hl) as (_&_&_&H8&_).
  assert ((b - b mod 8) mod 8 = 0) as Hb8 by by rewrite Zminus_mod, Z.mod_mod, Z.sub_diag by done.
  pose proof (Z.mod_pos_bound b 8 ltac:(lia)). apply load_byte_agree, Hfr; [done|].
  destruct Hap as [Hap|Hap]; [right|left; lia].
  apply Z.mod_divide in H8 as [k ->]; [|done]. apply Z.mod_divide in Hb8 as [j Hj]; [|done]. lia.
Qed.

(** A free of a large object. *)
Lemma kfree_large dbg s fl p d :
  slub_ok dbg s fl → no_empty s → descs s !! p = Some d → p_flags d = LARGE →
  ∃ s', kfree dbg s p = Ok s' ∧ slub_ok dbg s' fl ∧ no_empty s' ∧ words s' = words s ∧
    (∀ y m, live s' fl y m ↔ y ≠ p ∧ live s fl y m) ∧
    frees s' = frees s ++ [(p, p_order d, PG_ALLOCATED)] ∧ descs s' !! p = None.
Proof.
  intros Hs Hn Hp Hf. destruct (ok_desc _ _ _ Hs _ _ Hp) as [H0 Ha Hor He _].
  assert (ALIGN_DOWN p PAGE_SIZE = p) as Hal.
  { change PAGE_SIZE with (2 ^ 12) in *. rewrite ALIGN_DOWN_spec; [lia| |lia]. split; [lia|].
    unfold blk in He. pose proof (Z.pow_pos_nonneg 2 (p_order d)). unfold PAGE_SIZE in He. lia. }
  eexists. split_and!.
  - unfold kfree. rewrite (proj2 (Z.eqb_neq p 0)), Hal, Hp, Hf by lia.
    change (truth (Z.land LARGE (Z.lor PG_SLAB PG_KMALLOC))) with true. change (truth (Z.land LARGE PG_KMALLOC)) with true.
    cbn [negb]. rewrite Z.eqb_refl. done.
  - by eapply drop_large.
  - intros q e Hq. simpl in Hq. apply lookup_delete_Some in Hq as [_ Hq]. exact (Hn q e Hq).
  - done.
  - intros y m. unfold give_back. rewrite live_delete, (live_split s fl p d y m Hp). unfold page_live at 2. rewrite Hf. pose proof SLAB_LARGE. split.
    + intros (q&e&Hqp&Hq&Hl). split; [|by eauto 10]. intros ->.
      pose proof (page_live_inside _ _ _ _ _ _ _ (ok_desc _ _ _ Hs _ _ Hq) Hl). pose proof (ok_apart _ _ _ Hs _ _ _ _ Hq Hp Hqp) as Hap.
      unfold blk in Hap at 2. pose proof (Z.pow_pos_nonneg 2 (p_order d)). unfold PAGE_SIZE in Hap. lia.
    + intros [Hyp [[(?&_)|(_&?&_)]|?]]; done.
  - done.
  - apply lookup_delete_eq.
Qed.

(** The source's rejections: what is not a live object is not freed. *)
Lemma kfree_reject s fl x :
  slub_ok true s fl → no_empty s → in_u64 x → (∀ m, live s fl x m → False) →
  kfree true s x =
    match descs s !! ALIGN_DOWN x PAGE_SIZE with
    | Some d => if decide (p_flags d = SLAB) then Panic else Ok s
    | None => Ok s
    end.
Proof.
  intros Hs Hn Hx Hnl. unfold kfree. set (p := ALIGN_DOWN x PAGE_SIZE).
  destruct (Z.eqb_spec x 0) as [->|Hx0].
  { change p with 0. destruct (descs s !! 0) as [d|] eqn:Hd; [|done]. pose proof (do_pos _ _ _ _ _ (ok_desc _ _ _ Hs _ _ Hd)). lia. }
  destruct (descs s !! p) as [d|] eqn:Hd; [|done]. destruct (ok_desc _ _ _ Hs _ _ Hd) as [H0 Ha Hor He [(Hf&Ho&Hi&Hso)|Hf]].
  - rewrite Hf. change (truth (Z.land SLAB (Z.lor PG_SLAB PG_KMALLOC))) with true. change (truth (Z.land SLAB PG_KMALLOC)) with false.
    cbn [negb]. rewrite decide_True by done.
    destruct (lookup_lt_is_Some_2 (caches s) (sl_cache d)) as [c Hc]; [by rewrite (ok_len _ _ _ Hs)|].
    rewrite (arr_get_Ok _ _ _ Hc). cbn [res_bind]. destruct (ok_cache _ _ _ Hs _ _ Hc) as [Hcs Hco _ _ _ _].
    rewrite blk_slab in He by done.
    rewrite (check_free_spec true c (sl_cache d) (words s) p d (fl p) x); try done; [|exact (Hn p d Hd Hf)].
    rewrite decide_False; [done|]. intros [Hxo Hxl]. apply (Hnl (csize (sl_cache d))). exists p, d. split; [done|]. by left.
  - rewrite Hf. change (truth (Z.land LARGE (Z.lor PG_SLAB PG_KMALLOC))) with true. change (truth (Z.land LARGE PG_KMALLOC)) with true.
    cbn [negb]. rewrite decide_False by done. destruct (Z.eqb_spec x p) as [Hxp|]; [|done]. exfalso.
    apply (Hnl (blk d)). exists p, d. split; [done|]. right. done.
Qed.

(** C9: an allocation of the object allocator refines an allocation of the heap.
    From a state that represents the heap [h], for every size and every answer of
    the page allocator, [kmalloc] returns.  It returns NULL, leaving the state
    alone, only for size 0, for a size whose block is of too high an order, or
    when the page allocator has no page.  Otherwise it returns an object that was
    not live, of at least [size] bytes and less than twice as many (or 8),
    aligned to its size up to a page, apart from every live object, whose bytes
    all stay as they were; the new state represents the heap with the object
    added.  [kzalloc] does the same with the first [size] bytes zero. *)
Theorem kmalloc_spec MAX dbg s h size a :
  rep dbg s h → (0 < MAX ≤ 52)%nat → in_u64 size → (∀ p, a = Some p → fresh_block s p (request size)) →
  ∃ r s', kmalloc MAX dbg s size a = Ok (r, s') ∧
    ((r = 0 ∧ s' = s ∧ kzalloc MAX dbg s size a = Ok (0, s) ∧ (size = 0 ∨ Z.of_nat MAX ≤ request size ∨ a = None)) ∨
     (r ≠ 0 ∧ ∃ sz, size ≤ sz ∧ (sz = 8 ∨ sz < 2 * size) ∧ r mod Z.min sz PAGE_SIZE = 0 ∧
        rep dbg s' (<[r := sz]> h) ∧ h !! r = None ∧
        (∀ y m, h !! y = Some m → r + sz ≤ y ∨ y + m ≤ r) ∧
        (∀ y m b, h !! y = Some m → y ≤ b < y + m → load_byte (words s') b = load_byte (words s) b) ∧
        ∃ s'', kzalloc MAX dbg s size a = Ok (r, s'') ∧ rep dbg s'' (<[r := sz]> h) ∧
          (∀ b, r ≤ b < r + size → load_byte (words s'') b = 0) ∧
          (∀ b, b < r ∨ r + size ≤ b → load_byte (words s'') b = load_byte (words s') b))).
Proof.
  intros (fl&Hs&Hn&Hh) HM Hsz Hfr. destruct (kmalloc_takes MAX dbg s fl size a Hs Hn HM Hsz Hfr) as (r&s'&Hk&Hc).
  exists r, s'. split; [done|]. unfold kzalloc. rewrite Hk. destruct Hc as [(->&->&Hwhy)|(Hr&sz&fl'&Htk&Hlo&Hup&Hal)]; [by left|right].
  split; [done|]. exists sz. destruct (rep_take dbg s fl h r sz s' fl' Hh Hn Htk) as (Hrep&Hnone&Hap&Hby). split_and!; [done..|].
  cbn [res_bind]. unfold truth. rewrite (proj2 (Z.eqb_neq _ _) Hr). cbn [negb]. eexists. destruct Hsz as [Hs0 _]. split_and!; [done| | |].
  - apply rep_write; [done|]. intros b H8 Hout. apply memset_word. rewrite Z2Nat.id by done.
    specialize (Hout r sz (lookup_insert_eq _ _ _)).
    assert (r mod 8 = 0) as Hr8.
    { destruct Hrep as (fl2&Hs2&_&Hh2). destruct (proj1 (Hh2 r sz) (lookup_insert_eq _ _ _)) as (q&e&Hq&Hl).
      apply (page_live_inside _ _ _ _ _ _ _ (ok_desc _ _ _ Hs2 _ _ Hq) Hl). }
    destruct Hout; [left; by apply multiples_apart|right; lia].
  - intros b Hb. cbn [words set_words]. rewrite memset_byte, decide_True by lia. done.
  - intros b Hb. cbn [words set_words]. by rewrite memset_byte, decide_False by lia.
Qed.

Lemma kmalloc_spec_witness :
  rep true slub_init ∅ ∧ fresh_block slub_init 0x80200000 0 ∧
  ∃ r s', kmalloc 11 true slub_init 100 (Some 0x80200000) = Ok (r, s') ∧ r ≠ 0 ∧ ∃ sz, rep true s' (<[r := sz]> ∅).
Proof.
  assert (fresh_block slub_init 0x80200000 0) as Hf by (split_and!; [done..|]; by intros ? ? ?).
  pose proof (slub_init_rep true) as Hr. split; [done|]. split; [done|].
  destruct (kmalloc_spec 11 true slub_init ∅ 100 (Some 0x80200000)) as (r&s'&Hk&Hc); [exact Hr|lia|done|by intros p [= <-]|].
  exists r, s'. split; [exact Hk|]. clear Hk. destruct Hc as [(_&_&_&[E|[E|E]])|(Hne&sz&_&_&_&Hc&_)]; [discriminate E|by vm_compute in E|discriminate E|].
  split; [exact Hne|]. exists sz. exact Hc.
Defined.

Lemma heap_alone dbg s fl h p d x :
  slub_ok dbg s fl → (∀ x sz, h !! x = Some sz ↔ live s fl x sz) →
  descs s !! p = Some d → ALIGN_DOWN x PAGE_SIZE = p →
  alone h x ↔ ∀ y m, page_live p d (fl p) y m → y = x.
Proof.
  intros Hs Hh Hp Hx. unfold alone, map_Forall. rewrite Hx. split.
  - intros Hal y m Hl. apply (Hal y m); [apply Hh; by exists p, d|]. by eapply page_live_base.
  - intros Hal y m (q&e&Hq&Hl)%Hh Hy. rewrite (page_live_base dbg s fl q e y m Hs Hq Hl) in Hy. subst q.
    simplify_eq. by eapply Hal.
Qed.

(** C8: a free of the object allocator refines a free of the heap.  From a state
    that represents the heap [h], [kfree] of a live object returns, with the
    debug checks or without, in a state that represents the heap without it and in
    which the bytes of the other objects are unchanged, no slab is kept without
    a live object, and the page allocator gets the block of the object - its
    address, its order, only PG_ALLOCATED left of the flags - exactly when the
    object was the last one in it: then the page leaves the allocator, otherwise
    nothing is given back.  With the debug checks, [kfree] of any other
    address does nothing, or panics when the address lies in a slab: a double
    free and a pointer into an object are always caught. *)
Theorem kfree_spec dbg s h :
  rep dbg s h →
  (∀ x sz, h !! x = Some sz →
     ∃ s', kfree dbg s x = Ok s' ∧ rep dbg s' (delete x h) ∧ no_empty s' ∧
       (if decide (alone h x)
        then ∃ o, 0 ≤ o ∧ PAGE_SIZE * 2 ^ o = Z.max sz PAGE_SIZE ∧
          frees s' = frees s ++ [(ALIGN_DOWN x PAGE_SIZE, o, PG_ALLOCATED)] ∧
          descs s' !! ALIGN_DOWN x PAGE_SIZE = None
        else frees s' = frees s ∧ is_Some (descs s' !! ALIGN_DOWN x PAGE_SIZE)) ∧
       ∀ y m b, h !! y = Some m → y ≠ x → y ≤ b < y + m → load_byte (words s') b = load_byte (words s) b) ∧
  (∀ x, dbg = true → in_u64 x → h !! x = None →
     kfree dbg s x =
       match descs s !! ALIGN_DOWN x PAGE_SIZE with
       | Some d => if decide (p_flags d = SLAB) then Panic else Ok s
       | None => Ok s
       end).
Proof.
  intros Hrep. pose proof Hrep as (fl&Hs&Hn&Hh). split.
  2: { intros x -> Hx Hnone. apply (kfree_reject s fl); [done..|]. intros m Hm%Hh. congruence. }
  assert (Hdel : ∀ x s' fl', (∀ y m, live s' fl' y m ↔ y ≠ x ∧ live s fl y m) → ∀ y m, delete x h !! y = Some m ↔ live s' fl' y m).
  { intros x s' fl' Hl y m. rewrite Hl, lookup_delete_Some, Hh. naive_solver. }
  intros x sz Hx. destruct (proj1 (Hh x sz) Hx) as (p&d&Hp&[(Hf&Hox&Hxl&->)|(Hf&->&->)]).
  - destruct (ok_desc _ _ _ Hs _ _ Hp) as [H0 Ha _ He [(_&Ho&Hi&Hso)|Hl]]; [|by rewrite Hf in Hl]. rewrite blk_slab in He by done.
    destruct (lookup_lt_is_Some_2 (caches s) (sl_cache d)) as [c Hc]; [by rewrite (ok_len _ _ _ Hs)|].
    destruct (kfree_slab dbg s fl p d c x) as (s'&fl'&Hk&Hok&Hne&Hw&Hl&Hfr); [done..|]. exists s'. split_and!; [done| |done| |].
    + exists fl'. split_and!; [done..|]. by apply Hdel.
    + assert (Hxb : ALIGN_DOWN x PAGE_SIZE = p) by by apply (ALIGN_DOWN_obj (sl_cache d)).
      pose proof (heap_alone dbg s fl h p d x Hs Hh Hp Hxb) as Hal. rewrite Hxb.
      destruct (csize_facts (sl_cache d) Hi) as (_&?&_).
      destruct (decide (sl_inuse d = 1)) as [H1|H1].
      * rewrite decide_True. { exists 0. split_and!; [done|lia|apply Hfr..]. }
        apply Hal. intros y m [(_&Hy&Hyl&_)|(Hf'&_)]; [|by rewrite Hf in Hf'].
        destruct (decide (y = x)); [done|]. exfalso. by eapply (slab_one_live dbg _ (words s) p d (fl p) x y).
      * rewrite decide_False; [done|]. rewrite Hal. intros Hall.
        destruct (slab_other_live dbg (sl_cache d) (words s) p d (fl p) x) as (y&Hy&Hyl&Hyx); try done.
        { pose proof (Hn p d Hp Hf). destruct (so_inuse _ _ _ _ _ _ Hso). lia. }
        apply Hyx, (Hall y (csize (sl_cache d))). by left.
    + intros y m b Hy Hyx Hb. rewrite Hw. apply (given_bytes dbg s h _ _ _ _ y m); try done; [apply Hox|].
      intros a. by apply (given_frame _ _ _ p).
  - destruct (kfree_large dbg s fl p d) as (s'&Hk&Hok&Hne&Hw&Hl&Hfr); [done..|]. exists s'. split_and!; [done| |done| |].
    + exists fl. split_and!; [done..|]. by apply Hdel.
    + assert (Hpl : page_live p d (fl p) p (blk d)) by by right.
      pose proof (page_live_base dbg s fl p d p _ Hs Hp Hpl) as Hxb. rewrite Hxb.
      rewrite decide_True.
      * exists (p_order d). pose proof (do_order _ _ _ _ _ (ok_desc _ _ _ Hs _ _ Hp)).
        assert (0 < 2 ^ p_order d) by (by apply Z.pow_pos_nonneg). unfold blk.
        split_and!; [done| |apply Hfr..]. change PAGE_SIZE with 4096. nia.
      * apply (heap_alone dbg s fl h p d p Hs Hh Hp Hxb). intros y m [(Hf'&_)|(_&?&_)]; [|done].
        by rewrite Hf in Hf'.
    + intros. by rewrite Hw.
Qed.

Lemma kfree_spec_witness :
  ∃ s h x sz s', rep true s h ∧ h !! x = Some sz ∧ kfree true s x = Ok s' ∧ rep true s' ∅.
Proof.
  destruct (slub_init_rep true) as (fl&Hs&Hn&Hh).
  destruct (kmalloc_takes 11 true slub_init fl 100 (Some 0x80200000)) as (r&s'&_&Hc); [done|done|lia|done| |].
  { intros p [= <-]. split_and!; [done..|]. by intros ? ? ?. }
  destruct Hc as [(_&_&[E|[E|E]])|(_&sz&fl'&Htk&_)]; [discriminate E|by vm_compute in E|discriminate E|].
  destruct (rep_take true slub_init fl ∅ r sz s' fl' Hh Hn Htk) as [Hrep _].
  assert (<[r := sz]> ∅ !! r = Some sz) as Hlk by apply lookup_insert_eq.
  destruct (proj1 (kfree_spec true s' _ Hrep) r sz Hlk) as (s2&Hk&Hrep2&_).
  exists s', (<[r := sz]> ∅), r, sz, s2. split_and!; [exact Hrep|exact Hlk|exact Hk|]. by rewrite delete_insert_id in Hrep2.
Defined.
