(* ===== verification/Timer.v ===== *)
(** * Timers: [kernel/timer.c]

    The timers of one CPU: a red-black tree ordered by deadline and, among equal
    deadlines, by the order of the starts, with a pointer to the first node.  A
    timer is IDLE, QUEUED, RUNNING while its callback runs, or DRAINING when a
    cancellation came meanwhile.  [timers] has the fields of the timers of the
    CPU; the nodes are those of the tree.  [woken] counts the wake-ups of
    cancellations that wait.  Callbacks are a parameter: whatever happens between
    the two locked parts of a tick.

    The tree refines a queue sorted by deadline, first come first served. *)
From stdpp Require Import base tactics numbers list gmap sorting relations.
From S2P Require Import Prelude Rbtree.

Inductive timer_state := TIMER_IDLE | TIMER_QUEUED | TIMER_RUNNING | TIMER_DRAINING.
#[global] Instance timer_state_eq_dec : EqDecision timer_state.
Proof. solve_decision. Defined.

Record timer := Timer { deadline : Z; sequence : Z; state : timer_state }.
Record timers := Timers { tree : rb; first : ptr; next_sequence : Z; tm : gmap positive timer; woken : nat }.

Definition with_state (st : timer_state) (t : timer) : timer := Timer (deadline t) (sequence t) st.
Definition load_timer (b : timers) (x : positive) : res timer := deref (tm b !! x).
Definition set_timer (b : timers) (x : positive) (t : timer) : timers :=
  Timers (tree b) (first b) (next_sequence b) (<[x := t]> (tm b)) (woken b).
Definition set_tree (b : timers) (s : rb) (f : ptr) : timers := Timers s f (next_sequence b) (tm b) (woken b).

Definition timers_init : timers := Timers (Rb ∅ None) None 0 ∅ 0.

(** The timer comes into being: a cleared node and the idle state. *)
Definition timer_init (b : timers) (x : positive) : timers :=
  set_timer (set_tree b (Rb (<[x := Node (Some x) None None false]> (nodes (tree b))) (root (tree b))) (first b)) x (Timer 0 0 TIMER_IDLE).

(** The loop of [timer_start]: the link the new node goes to, and whether no step went right. *)
Fixpoint start_walk (fuel : nat) (b : timers) (dl seq : Z) (link parent : ptr) (d : dir) (fst : bool) : res (ptr * dir * bool) :=
  match link with
  | None => Ok (parent, d, fst)
  | Some x =>
      match fuel with
      | O => Loop
      | S fuel =>
          let! queued := load_timer b x in
          let! n := load (tree b) link in
          if (dl <? deadline queued) || ((dl =? deadline queued) && (seq <? sequence queued))
          then start_walk fuel b dl seq (rb_left n) link L fst
          else start_walk fuel b dl seq (rb_right n) link R false
      end
  end.

Definition timer_start (b : timers) (x : positive) (dl : Z) : res (Z * timers) :=
  let! t := load_timer b x in
  if negb (bool_decide (state t = TIMER_IDLE)) then Ok (- EBUSY, b) else
  let seq := next_sequence b in
  let b := Timers (tree b) (first b) (u64 (next_sequence b + 1)) (<[x := Timer dl seq (state t)]> (tm b)) (woken b) in
  let! (parent, d, fst) := start_walk (size (nodes (tree b))) b dl seq (root (tree b)) None L true in
  let! s := rb_link_node (tree b) (Some x) parent d in
  let! s := rb_insert_color s (Some x) in
  Ok (0, set_timer (set_tree b s (if fst then Some x else first b)) x (Timer dl seq TIMER_QUEUED)).

Definition remove_timer_locked (b : timers) (x : positive) : res timers :=
  let! f := if bool_decide (first b = Some x) then rb_next (tree b) (Some x) else Ok (first b) in
  let! s := rb_erase (tree b) (Some x) in
  let! s := RB_CLEAR_NODE s (Some x) in
  Ok (set_tree b s f).

Definition timer_cancel_locked (b : timers) (x : positive) : res (Z * timers) :=
  let! t := load_timer b x in
  match state t with
  | TIMER_QUEUED =>
      let! b := remove_timer_locked b x in
      Ok (1, set_timer b x (with_state TIMER_IDLE t))
  | TIMER_RUNNING | TIMER_DRAINING => Ok (- EBUSY, set_timer b x (with_state TIMER_DRAINING t))
  | TIMER_IDLE => Ok (0, b)
  end.

Definition timer_cancel (b : timers) (x : positive) : res (Z * timers) := timer_cancel_locked b x.

(** The loop of the synchronous cancellation; [env] is what happens on the other
    CPUs while the caller is parked, one entry per sleep. *)
Fixpoint timer_cancel_sync (env : list (timers → res timers)) (b : timers) (x : positive) : res timers :=
  let! (r, b) := timer_cancel_locked b x in
  if negb (r =? - EBUSY) then Ok b else
  match env with
  | [] => Loop
  | e :: env => let! b := e b in timer_cancel_sync env b x
  end.

(** ** Ticks *)

(** The first locked part: the first timer, if it has expired, is taken out. *)
Definition tick_take (b : timers) (now : Z) : res (option positive * timers) :=
  match first b with
  | None => Ok (None, b)
  | Some x =>
      let! t := load_timer b x in
      if deadline t >? now then Ok (None, b) else
      let! b := remove_timer_locked b x in
      Ok (Some x, set_timer b x (with_state TIMER_RUNNING t))
  end.

(** The second: the timer is idle again, and a cancellation that waits is woken. *)
Definition tick_done (b : timers) (x : positive) : res timers :=
  let! t := load_timer b x in
  let drain := bool_decide (state t = TIMER_DRAINING) in
  let b := set_timer b x (with_state TIMER_IDLE t) in
  Ok (if drain then Timers (tree b) (first b) (next_sequence b) (tm b) (S (woken b)) else b).

(** [ran]: the timers whose callbacks were run, in order. *)
Fixpoint timer_tick (callback : positive → timers → res timers) (fuel : nat) (b : timers) (now : Z) : res (list positive * timers) :=
  let! (x, b) := tick_take b now in
  match x with
  | None => Ok ([], b)
  | Some x =>
      match fuel with
      | O => Loop
      | S fuel =>
          let! b := callback x b in
          let! b := tick_done b x in
          let! (ran, b) := timer_tick callback fuel b now in
          Ok (x :: ran, b)
      end
  end.

(** ** The queue *)

Abbreviation entry := (positive * timer)%type.

(** Deadline first, then the order of the starts. *)
Definition key_lt (t u : timer) : Prop := deadline t < deadline u ∨ (deadline t = deadline u ∧ sequence t < sequence u).
Definition entry_lt (x y : entry) : Prop := key_lt x.2 y.2.
Definition stored (b : timers) (l : list entry) : Prop := Forall (λ y, tm b !! y.1 = Some y.2) l.

Lemma entry_lt_trans x y z : entry_lt x y → entry_lt y z → entry_lt x z.
Proof. unfold entry_lt, key_lt. lia. Qed.

(** [l]: the queued timers in order. *)
Record inv (b : timers) (l : list entry) : Prop := {
  v_rep : ∃ t, rep (nodes (tree b)) (tree b) t ∧ inorder t = l.*1;
  v_queued : ∀ x t, (x, t) ∈ l ↔ tm b !! x = Some t ∧ state t = TIMER_QUEUED;
  v_nodes : ∀ x, is_Some (tm b !! x) → is_Some (nodes (tree b) !! x);
  v_sorted : StronglySorted entry_lt l;
  v_seq : ∀ x t, (x, t) ∈ l → sequence t < next_sequence b;
  v_first : first b = head l.*1;
  v_range : 0 ≤ next_sequence b < 2 ^ 64
}.

Lemma queue_inv_stored b l : inv b l → stored b l.
Proof. intros Hi. apply Forall_forall. intros [x t] Hx. by apply (v_queued _ _ Hi) in Hx as [? _]. Qed.

Lemma inv_nodup b l : inv b l → NoDup l.*1.
Proof. intros [(t&[Hz _]&<-) _ _ _ _ _ _]. pose proof (z_nodup _ _ _ _ Hz) as Hn. simpl in Hn. by rewrite app_nil_r in Hn. Qed.

Lemma queue_inv_size b l : inv b l → (length l ≤ size (nodes (tree b)))%nat.
Proof.
  intros [(t&[Hz _]&Hin) _ _ _ _ _ _]. apply zrep_size in Hz. rewrite length_app, Hin, length_fmap in Hz. lia.
Qed.

Lemma sorted_split l x k :
  StronglySorted entry_lt (l ++ x :: k) →
  StronglySorted entry_lt l ∧ StronglySorted entry_lt k ∧ StronglySorted entry_lt (l ++ k) ∧
  (∀ y, y ∈ l → entry_lt y x) ∧ (∀ y, y ∈ k → entry_lt x y).
Proof.
  intros Hs. induction l as [|y l IH]; simpl in *.
  - apply StronglySorted_inv in Hs as [Hs Hx]. rewrite Forall_forall in Hx. split_and!; [constructor|done..|set_solver|done].
  - apply StronglySorted_inv in Hs as [Hs Hy]. destruct (IH Hs) as (H1&H2&H3&H4&H5). rewrite Forall_app, Forall_cons in Hy.
    destruct Hy as (Hy1&Hyx&Hy2). split_and!; [by constructor|done|constructor; [done|by apply Forall_app]| |done].
    intros z [->|Hz]%elem_of_cons; auto.
Qed.

Lemma sorted_join l x k :
  StronglySorted entry_lt (l ++ k) → (∀ y, y ∈ l → entry_lt y x) → (∀ y, y ∈ k → entry_lt x y) →
  StronglySorted entry_lt (l ++ x :: k).
Proof.
  intros Hs Hl Hk. induction l as [|y l IH]; simpl in *.
  - constructor; [done|]. by apply Forall_forall.
  - apply StronglySorted_inv in Hs as [Hs Hy]. constructor; [apply IH; [done|set_solver]|].
    rewrite Forall_app, Forall_cons in *. destruct Hy. split_and!; [done|apply Hl; by left|done].
Qed.

(** The walk ends between the timers before the new key and those after it. *)
Lemma start_walk_spec fuel b u h0 t path d f sg p q :
  zrep h0 (tree b) t path → inorder t = sg.*1 → stored b sg → StronglySorted entry_lt sg → (length sg ≤ fuel)%nat →
  (∀ y, y ∈ sg → sequence y.2 ≠ sequence u) → (∀ g rest, path = g :: rest → fd g = d) →
  (∀ v, inorder (fill path v) = p ++ inorder v ++ q) →
  ∃ path' d' s1 s2, start_walk fuel b (deadline u) (sequence u) (rid t) (pid path) d f = Ok (pid path', d', f && bool_decide (s1 = [])) ∧
    fill path' E = fill path t ∧ (∀ g rest, path' = g :: rest → fd g = d') ∧ sg = s1 ++ s2 ∧
    (∀ y, y ∈ s1 → key_lt y.2 u) ∧ (∀ y, y ∈ s2 → key_lt u y.2) ∧
    (∀ v, inorder (fill path' v) = (p ++ s1.*1) ++ inorder v ++ (s2.*1 ++ q)).
Proof.
  revert t path d f sg p q. induction fuel as [|fuel IH]; intros t path d f sg p q Hz Hin Hst Hso Hf Hne Hd Hpq.
  all: destruct t as [|c l x r]; try (destruct sg; [|done]; exists path, d, [], [];
    split_and!; [by destruct f|done..|set_solver|set_solver|intros v; simpl; by rewrite Hpq, app_nil_r]).
  { pose proof (f_equal length Hin) as Hl. simpl in Hl. rewrite length_app, length_fmap in Hl. simpl in Hl. lia. }
  simpl in Hin. symmetry in Hin. apply fst_app_inv in Hin as (s1&tq&s2&->&E1&E2).
  unfold stored in Hst. rewrite Forall_app, Forall_cons in Hst. destruct Hst as (Hst1&Hv&Hst2). simpl in Hv.
  destruct (sorted_split _ _ _ Hso) as (Hs1&Hs2&_&Hb1&Hb2).
  assert (Hn : load (tree b) (Some x) = Ok (Node (pid path) (rid l) (rid r) c)).
  { unfold load. simpl. by rewrite (proj1 (z_tree _ _ _ _ Hz)). }
  cbn [start_walk rid]. unfold load_timer. rewrite Hv. cbn [deref res_bind]. rewrite Hn. cbn [res_bind rb_left rb_right].
  rewrite length_app in Hf. simpl in Hf. assert (sequence tq ≠ sequence u) as Hseq by (apply (Hne (x, tq)); set_solver).
  destruct ((deadline u <? deadline tq) || ((deadline u =? deadline tq) && (sequence u <? sequence tq))) eqn:Hcmp.
  - assert (key_lt u tq) as Hlt by (unfold key_lt; lia).
    change (T c l x r) with (mk L c l x r) in Hz. rewrite <-zrep_up in Hz.
    destruct (IH l (F L c x r :: path) L f s1 p (x :: s2.*1 ++ q) Hz) as (path'&d'&k1&k2&Ew&Hfl&Hd'&->&Hk1&Hk2&Hpq');
      [done..|lia|set_solver|by intros g rest [= <- <-]| |].
    { intros v. simpl. rewrite Hpq. unfold fill1. simpl. rewrite ?inorder_mk. simpl. rewrite E2. by rewrite <-app_assoc. }
    exists path', d', k1, (k2 ++ (x, tq) :: s2). split; [done|]. split; [by rewrite Hfl|]. split; [done|].
    split; [by rewrite <-app_assoc|]. split; [done|]. split.
    + intros y [Hy|[->|Hy]%elem_of_cons]%elem_of_app; [by apply Hk2|done|].
      apply (entry_lt_trans (x, u) (x, tq) y); [done|by apply Hb2].
    + intros v. rewrite Hpq', fmap_app. simpl. by rewrite <-!app_assoc.
  - assert (key_lt tq u) as Hlt by (unfold key_lt; lia).
    change (T c l x r) with (mk R c r x l) in Hz. rewrite <-zrep_up in Hz.
    destruct (IH r (F R c x l :: path) R false s2 (p ++ s1.*1 ++ [x]) q Hz) as (path'&d'&k1&k2&Ew&Hfl&Hd'&->&Hk1&Hk2&Hpq');
      [done..|lia|set_solver|by intros g rest [= <- <-]| |].
    { intros v. simpl. rewrite Hpq. unfold fill1. simpl. rewrite ?inorder_mk. simpl. rewrite E1. by rewrite <-!app_assoc. }
    exists path', d', (s1 ++ (x, tq) :: k1), k2. split.
    { change (pid (F R c x l :: path)) with (Some x) in Ew. rewrite Ew. f_equal. f_equal. simpl. destruct f; [|done].
      symmetry. apply bool_decide_eq_false_2. by destruct s1. }
    split; [by rewrite Hfl|]. split; [done|]. split; [by rewrite <-app_assoc|]. split; [|split; [done|]].
    + intros y [Hy|[->|Hy]%elem_of_cons]%elem_of_app; [|done|by apply Hk1].
      apply (entry_lt_trans y (x, tq) (x, u)); [by apply Hb1|done].
    + intros v. rewrite Hpq', fmap_app. simpl. by rewrite <-!app_assoc.
Qed.

(** ** Removal *)

Lemma remove_spec b l1 x t l2 :
  inv b (l1 ++ (x, t) :: l2) →
  ∃ b', remove_timer_locked b x = Ok b' ∧ tm b' = tm b ∧ next_sequence b' = next_sequence b ∧ woken b' = woken b ∧
    first b' = head (l1 ++ l2).*1 ∧ (∃ tr, rep (nodes (tree b')) (tree b') tr ∧ inorder tr = (l1 ++ l2).*1) ∧
    (∀ y, is_Some (nodes (tree b) !! y) → is_Some (nodes (tree b') !! y)).
Proof.
  intros Hi. pose proof (inv_nodup _ _ Hi) as Hn. destruct Hi as [(tr&Hr&Hin) _ _ _ _ Hf _]. rewrite fmap_app in Hn, Hin, Hf. simpl in *.
  destruct (erase_spec _ _ tr x Hr) as (s'&t'&k1&k2&Ee&Hr'&Hk&Hk'); [rewrite Hin; set_solver|].
  rewrite Hin in Hk. apply NoDup_split_unique in Hk as [<- <-]; [|done].
  assert (Hnx : nodes s' !! x = Some (Node (Some x) None None false)).
  { rewrite (z_frame _ _ _ _ (proj1 Hr')); [apply lookup_insert_eq|]. simpl. rewrite app_nil_r, Hk'. apply NoDup_app in Hn as (_&Hn1&Hn2%NoDup_cons). set_solver. }
  unfold remove_timer_locked.
  assert ((if bool_decide (first b = Some x) then rb_next (tree b) (Some x) else Ok (first b)) = Ok (head (l1 ++ l2).*1)) as ->.
  { rewrite Hf, fmap_app. destruct l1 as [|y l1]; simpl.
    - rewrite bool_decide_eq_true_2 by done. by apply (step_spec _ R _ tr x [] (l2.*1) (proj1 Hr)).
    - rewrite bool_decide_eq_false_2; [done|]. intros [= Hyx]. simpl in Hn. rewrite Hyx in Hn. apply NoDup_cons in Hn as [Hn _]. set_solver. }
  cbn [res_bind]. rewrite Ee. cbn [res_bind]. unfold RB_CLEAR_NODE, set_parent. rewrite (store_Ok _ _ _ _ Hnx). cbn [res_bind].
  eexists. split; [done|]. simpl. split_and!; [done..| |].
  - exists t'. split; [|by rewrite fmap_app]. eapply rep_ext; [exact Hr'|done|]. intros i Hi. apply lookup_insert_ne. intros <-.
    rewrite Hk' in Hi. apply NoDup_app in Hn as (_&Hn1&Hn2%NoDup_cons). set_solver.
  - intros y Hy. destruct (decide (y = x)) as [->|Hyx]; [rewrite lookup_insert_eq; eauto|]. rewrite lookup_insert_ne by done.
    destruct (decide (y ∈ inorder t')) as [Hyt|Hyt]; [by eapply tree_at_lookup; [apply (z_tree _ _ _ _ (proj1 Hr'))|]|].
    rewrite (z_frame _ _ _ _ (proj1 Hr')); [by rewrite lookup_insert_ne|]. simpl. by rewrite app_nil_r.
Qed.

(** A queued timer leaves the queue for another state. *)
Lemma remove_inv b l1 x t l2 b' st :
  inv b (l1 ++ (x, t) :: l2) → remove_timer_locked b x = Ok b' → st ≠ TIMER_QUEUED →
  inv (set_timer b' x (with_state st t)) (l1 ++ l2).
Proof.
  intros Hi He Hst. destruct (remove_spec _ _ _ _ _ Hi) as (b2&Eq&Htm&Hseq&_&Hf&Hr&Hnd). rewrite He in Eq. simplify_eq.
  pose proof (inv_nodup _ _ Hi) as Hn. rewrite fmap_app in Hn. apply NoDup_app in Hn as (_&Hn1&Hn2%NoDup_cons).
  assert (Hnx : ∀ u, (x, u) ∈ l1 ++ l2 → False).
  { intros u Hu. apply (list_elem_of_fmap_2 fst) in Hu. rewrite fmap_app in Hu. simpl in *. set_solver. }
  split; simpl; try done.
  - intros y u. rewrite Htm. destruct (decide (y = x)) as [->|Hyx].
    + rewrite lookup_insert_eq. split; [by intros ?%Hnx|]. by intros [[= <-] ?].
    + rewrite lookup_insert_ne by done. rewrite <-(v_queued _ _ Hi). set_solver.
  - intros y. rewrite Htm. intros Hy. apply Hnd, (v_nodes _ _ Hi). destruct (decide (y = x)) as [->|Hyx].
    + exists t. apply (v_queued _ _ Hi x t). set_solver.
    + by rewrite lookup_insert_ne in Hy.
  - apply (sorted_split l1 (x, t) l2), Hi.
  - intros y u Hu. rewrite Hseq. apply (v_seq _ _ Hi y u). set_solver.
  - rewrite Hseq. apply Hi.
Qed.

(** A timer that is not queued changes to another such state. *)
Lemma state_inv b l x t st :
  inv b l → tm b !! x = Some t → state t ≠ TIMER_QUEUED → st ≠ TIMER_QUEUED → inv (set_timer b x (with_state st t)) l.
Proof.
  intros Hi Hx Ht Hst. split; simpl; try apply Hi.
  - intros y u. destruct (decide (y = x)) as [->|Hyx].
    + rewrite lookup_insert_eq. rewrite (v_queued _ _ Hi). split; [intros [? ?]; by simplify_eq|]. by intros [[= <-] ?].
    + rewrite lookup_insert_ne by done. apply Hi.
  - intros y Hy. apply (v_nodes _ _ Hi). destruct (decide (y = x)) as [->|]; [eauto|]. by rewrite lookup_insert_ne in Hy.
Qed.

Lemma start_ok b l x t dl :
  inv b l → tm b !! x = Some t → state t = TIMER_IDLE → next_sequence b + 1 < 2 ^ 64 →
  ∃ b' l1 l2, timer_start b x dl = Ok (0, b') ∧ l = l1 ++ l2 ∧
    inv b' (l1 ++ (x, Timer dl (next_sequence b) TIMER_QUEUED) :: l2) ∧
    (∀ y, y ∈ l1 → deadline y.2 ≤ dl) ∧ (∀ y, y ∈ l2 → dl < deadline y.2) ∧
    tm b' = <[x := Timer dl (next_sequence b) TIMER_QUEUED]> (tm b) ∧ woken b' = woken b ∧ next_sequence b' = next_sequence b + 1.
Proof.
  intros Hi Hx Hid Hsq. unfold timer_start, load_timer. rewrite Hx. cbn [deref res_bind]. rewrite Hid, bool_decide_eq_true_2 by done. cbn [negb].
  set (u := Timer dl (next_sequence b) TIMER_QUEUED). set (b1 := Timers (tree b) (first b) _ _ _).
  pose proof (queue_inv_size _ _ Hi) as Hsz. pose proof (inv_nodup _ _ Hi) as Hn. pose proof Hi as [(tr&Hr&Hin) Hq Hnd Hso Hse Hf Hrg].
  assert (x ∉ l.*1) as Hxl.
  { intros ([x' t']&->&Hl)%list_elem_of_fmap. simpl in Hx. apply Hq in Hl as [? ?]. simplify_eq. congruence. }
  assert (stored b1 l) as Hst.
  { apply Forall_forall. intros [y v] Hy. simpl. rewrite lookup_insert_ne; [by apply Hq|].
    intros <-. apply Hxl. apply list_elem_of_fmap. by exists (x, v). }
  destruct (start_walk_spec (size (nodes (tree b))) b1 u (nodes (tree b)) tr [] L true l [] [] (proj1 Hr) Hin Hst Hso Hsz)
    as (path&d&l1&l2&Ew&Hfill&Hd&->&Hl1&Hl2&Hpq).
  { intros [y v] Hy. simpl. specialize (Hse y v Hy). lia. } { done. } { intros v. simpl. by rewrite app_nil_r. }
  change (tree b1) with (tree b). pose proof (z_ctx _ _ _ _ (proj1 Hr)) as Hrt. simpl in Hrt, Ew. rewrite Hrt, Ew. cbn [res_bind]. simpl in Hfill. rewrite <-Hfill in Hr, Hin.
  destruct (Hnd x) as [nx Hnx]; [eauto|].
  destruct (insert_spec _ _ path x d (l1.*1) (l2.*1) Hr) as (s'&t'&Eq&Hr'&_&Hin').
  { rewrite Hin. done. } { by eexists. } { done. } { intros v. rewrite Hpq. by rewrite app_nil_r. }
  destruct (rb_link_node (tree b) (Some x) (pid path) d) as [s1| | |] eqn:E1; [|done..]. cbn [res_bind] in Eq |- *. rewrite Eq. cbn [res_bind].
  eexists _, l1, l2. split; [done|]. split; [done|].
  assert (Hdl1 : ∀ y, y ∈ l1 → deadline y.2 ≤ dl) by (intros y Hy; specialize (Hl1 y Hy); unfold key_lt in Hl1; simpl in Hl1; lia).
  assert (Hdl2 : ∀ y, y ∈ l2 → dl < deadline y.2).
  { intros [y v] Hy. specialize (Hl2 _ Hy). unfold key_lt in Hl2. simpl in *. specialize (Hse y v). set_solver by lia. }
  split_and!; [|done..|simpl; by rewrite insert_insert_eq|done|simpl; rewrite u64_small; [done|unfold in_u64; lia]].
  split; simpl.
  - exists t'. split; [|by rewrite Hin', fmap_app]. destruct s' as [h' rt']. by eapply rep_ext.
  - intros y v. rewrite insert_insert_eq. destruct (decide (y = x)) as [->|Hyx].
    + rewrite lookup_insert_eq. rewrite elem_of_app, elem_of_cons. split.
      * intros [Hy|[[= ->]|Hy]]; [|done|]; exfalso; apply Hxl, list_elem_of_fmap; exists (x, v); set_solver.
      * intros [[= <-] _]. auto.
    + rewrite lookup_insert_ne, <-Hq, !elem_of_app, elem_of_cons by done. naive_solver.
  - intros y Hy. assert (is_Some (nodes (tree b) !! y)) as Hyn.
    { destruct (decide (y = x)) as [->|]; [eauto|]. apply Hnd. by rewrite !lookup_insert_ne in Hy. }
    destruct (decide (y ∈ inorder t')) as [Hyt|Hyt]; [by eapply tree_at_lookup; [apply (z_tree _ _ _ _ (proj1 Hr'))|]|].
    rewrite (z_frame _ _ _ _ (proj1 Hr')); [done|]. simpl. by rewrite app_nil_r.
  - by apply sorted_join.
  - intros y v Hy. rewrite u64_small by (unfold in_u64; lia). apply elem_of_app in Hy as [Hy|[[= -> ->]|Hy]%elem_of_cons]; simpl; [..|lia|].
    + specialize (Hse y v). set_solver by lia.
    + specialize (Hse y v). set_solver by lia.
  - rewrite fmap_app. simpl. rewrite Hf, fmap_app. destruct l1 as [|y l1]; [by rewrite bool_decide_eq_true_2|]. by rewrite bool_decide_eq_false_2.
  - rewrite u64_small by (unfold in_u64; lia). lia.
Qed.

(** ** Operations during a callback *)

Definition executing (t : timer) : Prop := state t = TIMER_RUNNING ∨ state t = TIMER_DRAINING.

Lemma cancel_ok b l x t :
  inv b l → tm b !! x = Some t →
  match state t with
  | TIMER_QUEUED => ∃ l1 l2 b', l = l1 ++ (x, t) :: l2 ∧ timer_cancel b x = Ok (1, b') ∧ inv b' (l1 ++ l2) ∧
      tm b' = <[x := with_state TIMER_IDLE t]> (tm b) ∧ woken b' = woken b
  | TIMER_RUNNING | TIMER_DRAINING =>
      timer_cancel b x = Ok (- EBUSY, set_timer b x (with_state TIMER_DRAINING t)) ∧ inv (set_timer b x (with_state TIMER_DRAINING t)) l
  | TIMER_IDLE => timer_cancel b x = Ok (0, b)
  end.
Proof.
  intros Hi Hx. unfold timer_cancel, timer_cancel_locked, load_timer. rewrite Hx. cbn [deref res_bind].
  destruct (state t) eqn:Hs; [done| | |]; [|split; [done|]; by apply state_inv; rewrite ?Hs..].
  assert ((x, t) ∈ l) as (l1&l2&->)%list_elem_of_split by by apply Hi.
  destruct (remove_spec _ _ _ _ _ Hi) as (b'&Er&Htm&_&Hw&_). rewrite Er. cbn [res_bind].
  exists l1, l2. eexists. split_and!; [done..|by eapply remove_inv| |done]. simpl. by rewrite Htm.
Qed.

(** What a callback, or another CPU meanwhile, may do: start timers whose
    deadline is still ahead and, if [canc], cancel timers. *)
Inductive op_step (now : Z) (canc : bool) : timers → timers → Prop :=
  | op_start b x dl r b' :
      now < dl → next_sequence b + 1 < 2 ^ 64 → is_Some (tm b !! x) → timer_start b x dl = Ok (r, b') → op_step now canc b b'
  | op_cancel b x r b' :
      canc = true → is_Some (tm b !! x) → timer_cancel b x = Ok (r, b') → op_step now canc b b'.

Definition expired (now : Z) (l : list entry) : list entry := filter (λ y, deadline y.2 ≤ now) l.

(** What such operations keep. *)
Record kept (now : Z) (canc : bool) (b : timers) (l : list entry) (b' : timers) (l' : list entry) : Prop := {
  k_inv : inv b' l';
  k_sub : (expired now l').*1 `sublist_of` (expired now l).*1;
  k_same : canc = false → (expired now l').*1 = (expired now l).*1;
  k_run : ∀ x t, tm b !! x = Some t → executing t → ∃ t', tm b' !! x = Some t' ∧ executing t';
  k_new : ∀ x t', tm b' !! x = Some t' → executing t' → ∃ t, tm b !! x = Some t ∧ executing t;
}.

Lemma kept_refl now canc b l : inv b l → kept now canc b l b l.
Proof. intros. split; eauto. Qed.

Lemma kept_trans now canc b l b1 l1 b2 l2 : kept now canc b l b1 l1 → kept now canc b1 l1 b2 l2 → kept now canc b l b2 l2.
Proof.
  intros [? Hs1 He1 Hr1 Hn1] [? Hs2 He2 Hr2 Hn2]. split; [done|by etrans|intros; by rewrite He2, He1| |].
  - intros x t Hx Ht. destruct (Hr1 x t Hx Ht) as (t'&Hx'&Ht'). eauto.
  - intros x t Hx Ht. destruct (Hn2 x t Hx Ht) as (t'&Hx'&Ht'). eauto.
Qed.

(** A change of one timer that keeps whether it executes. *)
Lemma kept_run_insert b b' x t u :
  tm b' = <[x := u]> (tm b) → tm b !! x = Some t → (executing t ↔ executing u) →
  (∀ y v, tm b !! y = Some v → executing v → ∃ v', tm b' !! y = Some v' ∧ executing v') ∧
  (∀ y v, tm b' !! y = Some v → executing v → ∃ v', tm b !! y = Some v' ∧ executing v').
Proof.
  intros -> Hx Hiff. split; intros y v Hy Hv; destruct (decide (y = x)) as [->|Hyx].
  - simplify_eq. exists u. rewrite lookup_insert_eq. tauto.
  - exists v. by rewrite lookup_insert_ne.
  - rewrite lookup_insert_eq in Hy. simplify_eq. exists t. tauto.
  - rewrite lookup_insert_ne in Hy by done. eauto.
Qed.

Lemma expired_app now l k : expired now (l ++ k) = expired now l ++ expired now k.
Proof. unfold expired. by rewrite filter_app. Qed.
Lemma expired_cons now y l : expired now (y :: l) = if decide (deadline y.2 ≤ now) then y :: expired now l else expired now l.
Proof. unfold expired. by rewrite filter_cons. Qed.

Lemma op_kept now canc b l b' : inv b l → op_step now canc b b' → ∃ l', kept now canc b l b' l'.
Proof.
  intros Hi Hs. revert Hi. destruct Hs as [b x dl r b' Hdl Hsq [t Hx] He|b x r b' -> [t Hx] He]; intros Hi.
  - destruct (decide (state t = TIMER_IDLE)) as [Hid|Hid].
    2: { unfold timer_start, load_timer in He. rewrite Hx in He. cbn [deref res_bind] in He. rewrite bool_decide_eq_false_2 in He by done.
         simplify_eq/=. exists l. by apply kept_refl. }
    destruct (start_ok b l x t dl Hi Hx Hid Hsq) as (b2&l1&l2&He2&->&Hi2&_&_&Htm&_). rewrite He in He2. simplify_eq.
    exists (l1 ++ (x, Timer dl (next_sequence b) TIMER_QUEUED) :: l2).
    assert (expired now (l1 ++ (x, Timer dl (next_sequence b) TIMER_QUEUED) :: l2) = expired now (l1 ++ l2)) as Hex.
    { rewrite !expired_app, expired_cons, decide_False by (simpl; lia). done. }
    edestruct (kept_run_insert b b2 x t) as [H1 H2]; [done|done|by unfold executing; rewrite Hid; simpl; naive_solver|].
    split; [done|by rewrite Hex|by rewrite Hex|done..].
  - pose proof (cancel_ok b l x t Hi Hx) as Hc. destruct (state t) eqn:Hst.
    + rewrite Hc in He. simplify_eq. exists l. by apply kept_refl.
    + destruct Hc as (l1&l2&b2&->&He2&Hi2&Htm&_). rewrite He in He2. simplify_eq. exists (l1 ++ l2).
      edestruct (kept_run_insert b b2 x t) as [H1 H2]; [done|done|by unfold executing; rewrite Hst; simpl; naive_solver|].
      split; [done| |done|done..]. rewrite !expired_app, !fmap_app. apply sublist_app; [done|].
      rewrite expired_cons. case_decide; [by apply sublist_cons|done].
    + destruct Hc as [He2 Hi2]. rewrite He in He2. simplify_eq. exists l.
      edestruct (kept_run_insert b (set_timer b x (with_state TIMER_DRAINING t)) x t) as [H1 H2]; [done|done|by unfold executing; rewrite Hst; simpl; naive_solver|].
      by split.
    + destruct Hc as [He2 Hi2]. rewrite He in He2. simplify_eq. exists l.
      edestruct (kept_run_insert b (set_timer b x (with_state TIMER_DRAINING t)) x t) as [H1 H2]; [done|done|by unfold executing; rewrite Hst; simpl; naive_solver|].
      by split.
Qed.

Lemma ops_kept now canc b l b' : inv b l → rtc (op_step now canc) b b' → ∃ l', kept now canc b l b' l'.
Proof.
  intros Hi Hr. revert l Hi. induction Hr as [b|b b1 b2 Hs _ IH]; intros l Hi; [exists l; by apply kept_refl|].
  destruct (op_kept _ _ _ _ _ Hi Hs) as [l1 Hk1]. destruct (IH l1 (k_inv _ _ _ _ _ _ Hk1)) as [l2 Hk2].
  exists l2. by eapply kept_trans.
Qed.

(** ** Ticks *)

Lemma take_spec b l now :
  inv b l →
  (tick_take b now = Ok (None, b) ∧ expired now l = []) ∨
  (∃ x t l' b', l = (x, t) :: l' ∧ tick_take b now = Ok (Some x, b') ∧ inv b' l' ∧ tm b' = <[x := with_state TIMER_RUNNING t]> (tm b) ∧
     state t = TIMER_QUEUED ∧ tm b !! x = Some t ∧ expired now l = (x, t) :: expired now l').
Proof.
  intros Hi. unfold tick_take. rewrite (v_first _ _ Hi). destruct l as [|[x t] l']; [by left|]. simpl.
  destruct (proj1 (v_queued _ _ Hi x t)) as [Hx Hq]; [by left|]. unfold load_timer. rewrite Hx. cbn [deref res_bind].
  rewrite Z.gtb_ltb. destruct (Z.ltb_spec now (deadline t)) as [Hlt|Hge].
  - left. split; [done|]. pose proof (v_sorted _ _ Hi) as [_ Hall]%StronglySorted_inv. rewrite Forall_forall in Hall.
    unfold expired. rewrite filter_cons, decide_False by (simpl; lia).
    destruct (filter _ l') as [|y k] eqn:Ef; [done|]. assert (y ∈ filter (λ y : entry, deadline y.2 ≤ now) l') as Hy by (rewrite Ef; left).
    apply list_elem_of_filter in Hy as [Hy1 Hy2]. specialize (Hall y Hy2). unfold entry_lt, key_lt in Hall. simpl in Hall. lia.
  - right. destruct (remove_spec b [] x t l' Hi) as (b'&Er&Htm&_). rewrite Er. cbn [res_bind].
    exists x, t, l'. eexists. split_and!; [done|done|by apply (remove_inv b [] x t l')|simpl; by rewrite Htm|done|done|].
    by rewrite expired_cons, decide_True.
Qed.

Lemma done_spec b l x t :
  inv b l → tm b !! x = Some t → executing t →
  ∃ b', tick_done b x = Ok b' ∧ inv b' l ∧ tm b' = <[x := with_state TIMER_IDLE t]> (tm b) ∧
    woken b' = if decide (state t = TIMER_DRAINING) then S (woken b) else woken b.
Proof.
  intros Hi Hx Hex. unfold tick_done, load_timer. rewrite Hx. cbn [deref res_bind].
  assert (inv (set_timer b x (with_state TIMER_IDLE t)) l) as Hi2 by (apply state_inv; [done..| |done]; by destruct Hex as [->| ->]).
  eexists. split; [done|]. destruct (decide (state t = TIMER_DRAINING)).
  - rewrite bool_decide_eq_true_2 by done. split_and!; [|done..]. destruct Hi2. by split.
  - by rewrite bool_decide_eq_false_2.
Qed.

Section tick.
Context (now : Z) (canc : bool) (callback : positive → timers → res timers).
Context (Hcb : ∀ x b l, inv b l → ∃ b', callback x b = Ok b' ∧ rtc (op_step now canc) b b').

Lemma tick_spec fuel b l :
  inv b l → (length (expired now l) ≤ fuel)%nat →
  ∃ ran b' l', timer_tick callback fuel b now = Ok (ran, b') ∧ inv b' l' ∧
    ran `sublist_of` (expired now l).*1 ∧ (canc = false → ran = (expired now l).*1) ∧ expired now l' = [] ∧
    (∀ x t, tm b' !! x = Some t → executing t → ∃ t0, tm b !! x = Some t0 ∧ executing t0).
Proof.
  revert b l. induction fuel as [|fuel IH]; intros b l Hi Hf.
  all: destruct (take_spec b l now Hi) as [[Et Hex]|(x&t&l'&b1&->&Et&Hi1&Htm1&Hq&Hx&Hex)]; cbn [timer_tick]; rewrite Et; cbn [res_bind].
  1, 3: exists [], b, l; rewrite Hex; split_and!; [done..|eauto].
  { rewrite Hex in Hf. simpl in Hf. lia. }
  destruct (Hcb x b1 l' Hi1) as (b2&Ec&Hops). rewrite Ec. cbn [res_bind].
  destruct (ops_kept _ _ _ _ _ Hi1 Hops) as [l2 [Hi2 Hsub Hsame Hrun Hnew]].
  destruct (Hrun x (with_state TIMER_RUNNING t)) as (t2&Hx2&Hex2); [rewrite Htm1; apply lookup_insert_eq|by left|].
  destruct (done_spec b2 l2 x t2 Hi2 Hx2 Hex2) as (b3&Ed&Hi3&Htm3&_). rewrite Ed. cbn [res_bind].
  rewrite Hex in Hf. simpl in Hf. destruct (IH b3 l2 Hi3) as (ran&b4&l4&Er&Hi4&Hs4&Hc4&He4&Hn4).
  { apply sublist_length in Hsub. rewrite !length_fmap in Hsub. lia. }
  rewrite Er. cbn [res_bind]. exists (x :: ran), b4, l4. rewrite Hex. cbn [fmap list_fmap fst]. split_and!; [done|done| | |done|].
  - apply sublist_skip. by etrans.
  - intros Hc. by rewrite Hc4, Hsame.
  - intros y u Hy Hu. destruct (Hn4 y u Hy Hu) as (u3&Hu3&Hx3). rewrite Htm3 in Hu3.
    destruct (decide (y = x)) as [->|Hyx]; [rewrite lookup_insert_eq in Hu3; simplify_eq; by destruct Hx3|].
    rewrite lookup_insert_ne in Hu3 by done. destruct (Hnew y u3 Hu3 Hx3) as (u1&Hu1&Hx1). rewrite Htm1, lookup_insert_ne in Hu1 by done. eauto.
Qed.
End tick.

(** ** Properties *)

Lemma timers_init_inv : inv timers_init [].
Proof.
  split; simpl; [|set_solver|by intros ? [? ?]|constructor|set_solver|done|lia].
  exists E. split; [|done]. split; [split; [done|done|constructor|done]|]. split; [done|]. by exists 0%nat.
Qed.

Lemma timer_init_inv b l x : inv b l → tm b !! x = None → inv (timer_init b x) l.
Proof.
  intros [(t&Hr&Hin) Hq Hnd Hso Hse Hf Hrg] Hx. assert (x ∉ l.*1) as Hxl.
  { intros ([x' t']&->&Hl)%list_elem_of_fmap. simpl in Hx. apply Hq in Hl as [? ?]. by simplify_eq. }
  split; simpl; try done.
  - exists t. split; [|done]. eapply rep_ext; [exact Hr|done|]. intros i Hi. apply lookup_insert_ne. intros <-. by rewrite Hin in Hi.
  - intros y u. destruct (decide (y = x)) as [->|].
    + rewrite lookup_insert_eq. split; [|by intros [[= <-] ?]]. intros Hy. destruct Hxl. apply list_elem_of_fmap. by exists (x, u).
    + by rewrite lookup_insert_ne.
  - intros y. destruct (decide (y = x)) as [->|]; [rewrite !lookup_insert_eq; eauto|]. rewrite !lookup_insert_ne by done. apply Hnd.
Qed.

(** C18: the timers of a CPU refine a queue that is sorted by deadline and first
    come first served.  [timer_start] refuses a timer that is not idle and leaves
    everything alone; an idle one goes behind all queued timers that are due no
    later and in front of all that are due later, the rest of the queue keeps its
    order, and [first] is again the front.  [timer_cancel] takes a queued timer
    out and returns 1, tells a caller that the callback of a running one must be
    waited for, and does nothing for an idle one; in the first and the last case
    the timer is then neither queued nor executing. *)
Theorem timer_queue_refines b l x t dl :
  inv b l → tm b !! x = Some t → next_sequence b + 1 < 2 ^ 64 →
  (if decide (state t = TIMER_IDLE) then
     ∃ b' l1 l2, timer_start b x dl = Ok (0, b') ∧ l = l1 ++ l2 ∧
       inv b' (l1 ++ (x, Timer dl (next_sequence b) TIMER_QUEUED) :: l2) ∧
       Forall (λ y, deadline y.2 ≤ dl) l1 ∧ Forall (λ y, dl < deadline y.2) l2 ∧ first b' = head (l1.*1 ++ x :: l2.*1)
   else timer_start b x dl = Ok (- EBUSY, b)) ∧
  match state t with
  | TIMER_QUEUED => ∃ l1 l2 b', l = l1 ++ (x, t) :: l2 ∧ timer_cancel b x = Ok (1, b') ∧ inv b' (l1 ++ l2) ∧
      state <$> tm b' !! x = Some TIMER_IDLE ∧ x ∉ (l1 ++ l2).*1
  | TIMER_RUNNING | TIMER_DRAINING => ∃ b', timer_cancel b x = Ok (- EBUSY, b') ∧ inv b' l ∧ state <$> tm b' !! x = Some TIMER_DRAINING
  | TIMER_IDLE => timer_cancel b x = Ok (0, b) ∧ x ∉ l.*1
  end.
Proof.
  intros Hi Hx Hsq. split.
  - case_decide as Hid.
    + destruct (start_ok b l x t dl Hi Hx Hid Hsq) as (b'&l1&l2&He&Hl&Hi'&H1&H2&_). exists b', l1, l2.
      split_and!; [done..|by apply Forall_forall|by apply Forall_forall|]. rewrite (v_first _ _ Hi'), fmap_app. done.
    + unfold timer_start, load_timer. rewrite Hx. cbn [deref res_bind]. by rewrite bool_decide_eq_false_2.
  - pose proof (cancel_ok b l x t Hi Hx) as Hc. destruct (state t) eqn:Hst.
    + split; [done|]. intros ([x' t']&->&Hl)%list_elem_of_fmap. apply Hi in Hl as [? ?]. simplify_eq/=. congruence.
    + destruct Hc as (l1&l2&b'&->&He&Hi'&Htm&_). exists l1, l2, b'. rewrite Htm, lookup_insert_eq. split_and!; [done..|].
      pose proof (inv_nodup _ _ Hi) as Hn. rewrite !fmap_app in *. simpl in *. apply NoDup_app in Hn as (_&Hn1&Hn2%NoDup_cons). set_solver.
    + destruct Hc as [He Hi']. eexists. split; [done|]. split; [done|]. simpl. by rewrite lookup_insert_eq.
    + destruct Hc as [He Hi']. eexists. split; [done|]. split; [done|]. simpl. by rewrite lookup_insert_eq.
Qed.

(** Two timers with the same deadline: the second is queued behind the first. *)
Definition demo_timers : timers := timer_init (timer_init (timer_init timers_init 1) 2) 3.

Lemma timer_demo_inv : inv demo_timers [].
Proof. repeat apply timer_init_inv; [apply timers_init_inv|done..]. Qed.

Lemma timer_queue_refines_witness :
  ∃ b l b', inv b l ∧ l ≠ [] ∧ timer_start b 2 10 = Ok (0, b') ∧ first b' = Some 1%positive.
Proof.
  destruct (start_ok demo_timers [] 1%positive (Timer 0 0 TIMER_IDLE) 10 timer_demo_inv eq_refl eq_refl eq_refl)
    as (b&l1&l2&_&Hl&Hi&_&_&Htm&_&Hns).
  symmetry in Hl. apply app_nil in Hl as [-> ->]. simpl in Hi.
  destruct (timer_queue_refines b _ 2%positive (Timer 0 0 TIMER_IDLE) 10 Hi) as [Hs _]; [by rewrite Htm|by rewrite Hns|].
  rewrite decide_True in Hs by done. destruct Hs as (b'&k1&k2&He&Hk&_&_&H2&Hf). exists b. eexists. exists b'. split_and!; [exact Hi|done|done|].
  destruct k1 as [|y k1]; [|by simplify_eq/=]. simpl in Hk. subst k2. rewrite Forall_cons in H2. simpl in H2. lia.
Defined.

(** A synchronous cancellation returns once the callback has ended, and the timer
    is then idle and off the queue, so that its owner may release it. *)
Theorem timer_cancel_sync_spec env e b l x t :
  inv b l → tm b !! x = Some t →
  (∀ f b l, f ∈ env ++ [e] → inv b l → is_Some (tm b !! x) → ∃ b' l', f b = Ok b' ∧ inv b' l' ∧ is_Some (tm b' !! x)) →
  (∀ b l b' t, inv b l → e b = Ok b' → tm b' !! x = Some t → ¬ executing t) →
  ∃ b' l', timer_cancel_sync (env ++ [e]) b x = Ok b' ∧ inv b' l' ∧ state <$> tm b' !! x = Some TIMER_IDLE ∧ x ∉ l'.*1.
Proof.
  assert (Hoff : ∀ b l t, inv b l → tm b !! x = Some t → state t = TIMER_IDLE → x ∉ l.*1).
  { intros b0 l0 t0 Hi0 Hx0 Hs0 ([x' t']&->&Hl)%list_elem_of_fmap. apply Hi0 in Hl as [? ?]. simplify_eq/=. congruence. }
  assert (Hstop : ∀ env b l t, inv b l → tm b !! x = Some t → ¬ executing t →
    ∃ b' l', timer_cancel_sync env b x = Ok b' ∧ inv b' l' ∧ state <$> tm b' !! x = Some TIMER_IDLE ∧ x ∉ l'.*1).
  { intros env0 b0 l0 t0 Hi0 Hx0 Hn0. pose proof (cancel_ok b0 l0 x t0 Hi0 Hx0) as Hc. unfold executing in Hn0.
    assert (∀ r b', timer_cancel b0 x = Ok (r, b') → r ≠ - EBUSY → timer_cancel_sync env0 b0 x = Ok b') as Hret.
    { unfold timer_cancel. intros r b' He Hr. destruct env0; simpl; rewrite He; cbn [res_bind]; by rewrite (proj2 (Z.eqb_neq _ _) Hr). }
    destruct (state t0) eqn:Hs0; [| |naive_solver..].
    - exists b0, l0. split_and!; [by eapply Hret|done|by rewrite Hx0; simpl; rewrite Hs0|by eapply Hoff].
    - destruct Hc as (l1&l2&b'&->&He&Hi'&Htm&_). assert (tm b' !! x = Some (with_state TIMER_IDLE t0)) as Hx' by (rewrite Htm; apply lookup_insert_eq).
      exists b', (l1 ++ l2). split_and!; [by eapply Hret|done|by rewrite Hx'|by eapply Hoff]. }
  intros Hi Hx Henv Hlast. revert b l t Hi Hx. induction env as [|f env IH]; intros b l t Hi Hx.
  all: destruct (decide (state t = TIMER_RUNNING ∨ state t = TIMER_DRAINING)) as [Hex|Hn]; [|by eapply Hstop].
  all: pose proof (cancel_ok b l x t Hi Hx) as Hc; unfold timer_cancel in Hc; cbn [app timer_cancel_sync].
  all: assert (timer_cancel_locked b x = Ok (- EBUSY, set_timer b x (with_state TIMER_DRAINING t)) ∧ inv (set_timer b x (with_state TIMER_DRAINING t)) l)
    as [-> Hi2] by (by destruct Hex as [E|E]; rewrite E in Hc).
  all: cbn [res_bind]; rewrite Z.eqb_refl; cbn [negb].
  - destruct (Henv e (set_timer b x (with_state TIMER_DRAINING t)) l) as (b'&l'&Ee&Hi'&[t' Hx']); [set_solver|done|eexists; apply lookup_insert_eq|].
    rewrite Ee. cbn [res_bind]. eapply (Hstop []); [done|done|]. exact (Hlast _ _ _ _ Hi2 Ee Hx').
  - destruct (Henv f (set_timer b x (with_state TIMER_DRAINING t)) l) as (b'&l'&Ee&Hi'&[t' Hx']); [set_solver|done|eexists; apply lookup_insert_eq|].
    rewrite Ee. cbn [res_bind]. eapply IH; [|done|done]. intros g b0 l0 Hg. apply Henv. set_solver.
Qed.

(** C38: a tick runs the expired timers in order and returns.  If the callbacks
    (and the other CPUs meanwhile) start only timers that are due after [now] and
    cancel at will, [timer_tick] ends after at most as many callbacks as timers
    had expired at its start; the callbacks that ran are those of expired timers,
    in the order of the queue, each at most once, and all of them when nothing
    was cancelled; no expired timer is left queued, and no timer is left
    executing that was not executing before. *)
Theorem timer_tick_spec now canc callback b l fuel :
  inv b l → (length (expired now l) ≤ fuel)%nat →
  (∀ x b l, inv b l → ∃ b', callback x b = Ok b' ∧ rtc (op_step now canc) b b') →
  ∃ ran b' l', timer_tick callback fuel b now = Ok (ran, b') ∧ inv b' l' ∧
    ran `sublist_of` (expired now l).*1 ∧ (canc = false → ran = (expired now l).*1) ∧ expired now l' = [] ∧
    (∀ x t, tm b' !! x = Some t → executing t → ∃ t0, tm b !! x = Some t0 ∧ executing t0).
Proof. intros Hi Hf Hcb. by apply tick_spec. Qed.

Lemma timer_tick_spec_witness :
  ∃ b l ran b', inv b l ∧ timer_tick (λ _ b, Ok b) 1 b 10 = Ok (ran, b') ∧ ran = [1%positive].
Proof.
  destruct (start_ok demo_timers [] 1%positive (Timer 0 0 TIMER_IDLE) 10 timer_demo_inv eq_refl eq_refl eq_refl)
    as (b&l1&l2&_&Hl&Hi&_&_&Htm&_&Hns).
  symmetry in Hl. apply app_nil in Hl as [-> ->]. simpl in Hi.
  destruct (timer_tick_spec 10 false (λ _ b, Ok b) b _ 1 Hi) as (ran&b'&l'&He&_&_&Hr&_); [done|by intros x b2 l2 _; exists b2|].
  exists b. eexists. exists ran, b'. split_and!; [exact Hi|done|]. by rewrite Hr.
Defined.
