(* ===== verification/Tty.v ===== *)
(** * Terminal: [drivers/tty/tty.c]

    The line discipline and the calls on a terminal.  Received characters go into
    a ring indexed like that of a pipe; [canon] divides it into the characters that
    can be read and the line being edited.  [tty_read] holds [rlock] and drops the
    spinlock while it copies, so characters arrive and settings change during a
    copy: these events are an argument, one list per copy.  What the serial driver
    returns for a write is an argument too. *)
From stdpp Require Import base tactics numbers list gmap.
From S2P Require Import Prelude Bitmap Refcount Fdtable Kfifo Task Signal Kiov Pipe.

Definition ENOTTY : Z := 25.
Definition NCCS : nat := 19.
Definition ICRNL : Z := 0x100.
Definition IXON : Z := 0x400.
Definition OPOST : Z := 1.
Definition ONLCR : Z := 4.
Definition CS8 : Z := 0x30.
Definition CREAD : Z := 0x80.
Definition ISIG : Z := 1.
Definition ICANON : Z := 2.
Definition ECHO : Z := 8.
Definition ECHOE : Z := 0x10.
Definition ECHOK : Z := 0x20.
Definition IEXTEN : Z := 0x8000.
Definition VERASE : nat := 2.
Definition TCGETS : Z := 0x5401.
Definition TCSETS : Z := 0x5402.
Definition TCSETSW : Z := 0x5403.
Definition TCSETSF : Z := 0x5404.
Definition TIOCGWINSZ : Z := 0x5413.
Definition TIOCSWINSZ : Z := 0x5414.
Definition TTY_WRITE_CHUNK : Z := PAGE_SIZE / 2.
Definition NL : Z := 10.
Definition CR : Z := 13.
Definition BS : Z := 8.
Definition SP : Z := 32.

Record termios := Termios { c_iflag : Z; c_oflag : Z; c_cflag : Z; c_lflag : Z; c_line : Z; c_cc : list Z }.
Record winsize := Winsize { ws_row : Z; ws_col : Z; ws_xpixel : Z; ws_ypixel : Z }.
Record tty := Tty { t_head : Z; t_tail : Z; t_canon : Z; t_termios : termios; t_winsize : winsize; t_buffer : list Z }.

Definition has (flags bit : Z) : bool := truth (Z.land flags bit).

(** ** Output processing *)

Definition tty_opost (oflag c : Z) : list Z :=
  (if has oflag OPOST && has oflag ONLCR && (c =? NL) then [CR] else []) ++ [c].

(** ** Receiving *)

(** The terminal, what is echoed, and whether readers are woken. *)
Definition tty_receive (t : tty) (c : Z) : res (tty * list Z * bool) :=
  let tm := t_termios t in
  let c := if has (c_iflag tm) ICRNL && (c =? CR) then NL else c in
  let! erase := arr_get (c_cc tm) VERASE in
  if has (c_lflag tm) ICANON && (c =? erase) then
    if negb (t_head t =? t_canon t) then
      Ok (Tty (u32 (t_head t - 1)) (t_tail t) (t_canon t) tm (t_winsize t) (t_buffer t),
          if has (c_lflag tm) ECHO then [BS; SP; BS] else [], false)
    else Ok (t, [], false)
  else
    let used := u32 (t_head t - t_tail t) in
    if (used <? PAGE_SIZE) && ((used <? PAGE_SIZE - 1) || (c =? NL)) then
      let! b := arr_set (t_buffer t) (Z.to_nat (Z.land (t_head t) (PAGE_SIZE - 1))) c in
      let head := u32 (t_head t + 1) in
      let echo := if has (c_lflag tm) ECHO then (if c =? NL then tty_opost (c_oflag tm) c else [c]) else [] in
      let wake := negb (has (c_lflag tm) ICANON) || (c =? NL) in
      Ok (Tty head (t_tail t) (if wake then head else t_canon t) tm (t_winsize t) b, echo, wake)
    else Ok (t, [], false).

(** [TCSETS]: new settings; without [ICANON] what was typed can be read at once. *)
Definition set_termios (t : tty) (tm : termios) : tty :=
  Tty (t_head t) (t_tail t) (if has (c_lflag tm) ICANON then t_canon t else t_head t) tm (t_winsize t) (t_buffer t).

(** What happens while the spinlock is free. *)
Inductive event := Received (c : Z) | Settings (tm : termios).

Fixpoint run_events (t : tty) (l : list event) : res tty :=
  match l with
  | [] => Ok t
  | Received c :: l => let! (t, _, _) := tty_receive t c in run_events t l
  | Settings tm :: l => run_events (set_termios t tm) l
  end.

(** ** Reading *)

(** The end of one turn of the first loop. *)
Inductive turn :=
  | WaitSignalled                    (* wait_event_interruptible fails *)
  | RlockFailed (err : Z)            (* the mutex is not taken *)
  | Locked (t : tty) (m : amem).     (* both locks are held; terminal and memory now *)

Fixpoint tty_wait (env : list turn) : outcome + (tty * amem) :=
  match env with
  | [] => inl Blocked
  | WaitSignalled :: _ => inl (Returned (- EINTR))
  | RlockFailed e :: _ => inl (Returned e)
  | Locked t m :: env => if negb (t_tail t =? t_canon t) then inr (t, m) else tty_wait env
  end.

(** [memchr]: the index of the first [c]. *)
Fixpoint index_of (c : Z) (l : list Z) : option nat :=
  match l with [] => None | x :: l => if x =? c then Some 0%nat else S <$> index_of c l end.

(** The copy loop: [done], [ret], terminal, memory, vector. *)
Fixpoint tty_copy (has_mm : bool) (fuel : nat) (evs : nat → list event) (i : nat) (t : tty) (m : amem) (iov : kiov) (done : Z)
    : res (Z * Z * tty * amem * kiov) :=
  if negb (truth (count iov)) then Ok (done, 0, t, m, iov) else
  match fuel with
  | O => Loop
  | S fuel =>
      let offset := Z.land (t_tail t) (PAGE_SIZE - 1) in
      let cnt := MIN (u32 (t_canon t - t_tail t)) (u64 (PAGE_SIZE - offset)) in
      let cnt := MIN cnt (count iov) in
      if cnt =? 0 then Ok (done, 0, t, m, iov) else
      let! data := slice (t_buffer t) (Z.to_nat offset) (Z.to_nat cnt) in
      let newline := index_of NL data in
      let data := match newline with Some k => take (S k) data | None => data end in
      let! (copied, m, iov) := copy_to_kiov has_mm m data iov in
      let! t := run_events t (evs i) in
      let t := Tty (t_head t) (u32 (t_tail t + Z.of_nat copied)) (t_canon t) (t_termios t) (t_winsize t) (t_buffer t) in
      let done := u64 (done + Z.of_nat copied) in
      if negb (Nat.eqb copied (length data)) then Ok (done, - EFAULT, t, m, iov) else
      match newline with
      | Some _ => Ok (done, 0, t, m, iov)
      | None => tty_copy has_mm fuel evs (S i) t m iov done
      end
  end.

Record tty_result := TtyResult { tr_out : outcome; tr_tty : tty; tr_mem : amem; tr_iov : kiov }.

Definition tty_read (has_mm : bool) (t0 : tty) (m0 : amem) (iov : kiov) (env : list turn) (evs : nat → list event) : res tty_result :=
  match tty_wait env with
  | inl o => Ok (TtyResult o t0 m0 iov)
  | inr (t, m) =>
      let! (done, ret, t, m, iov) := tty_copy has_mm (Z.to_nat (count iov)) evs 0 t m iov 0 in
      Ok (TtyResult (Returned (if truth done then done else ret)) t m iov)
  end.

(** ** Writing *)

(** The loop over the characters that [written] bytes of the output cover. *)
Fixpoint consumed_loop (oflag written : Z) (l : list Z) (sent consumed : Z) : Z :=
  match l with
  | [] => consumed
  | c :: l =>
      let expanded := Z.of_nat (length (tty_opost oflag c)) in
      if sent + expanded >? written then consumed else consumed_loop oflag written l (sent + expanded) (consumed + 1)
  end.

(** The loop over the chunks; [dev i out] is what the serial driver returns for
    chunk [i] and [sent] what it has been given. *)
Fixpoint write_chunks (has_mm : bool) (fuel : nat) (dev : nat → list Z → Z) (i : nat) (oflag : Z) (m : amem) (iov : kiov) (done : Z) (sent : list Z)
    : res (Z * Z * kiov * list Z) :=
  if negb (truth (count iov)) then Ok (done, 0, iov, sent) else
  match fuel with
  | O => Loop
  | S fuel =>
      let cnt := MIN (count iov) TTY_WRITE_CHUNK in
      let! (copied, input, _) := copy_from_kiov has_mm m (Z.to_nat cnt) iov in
      if negb (Z.of_nat copied =? cnt) then Ok (done, - EFAULT, iov, sent) else
      let input := take copied input in
      let out := mjoin (tty_opost oflag <$> input) in
      let written := dev i out in
      if written <? 0 then Ok (done, written, iov, sent) else
      let sent := sent ++ take (Z.to_nat written) out in
      let consumed := consumed_loop oflag written input 0 0 in
      let iov := kiov_advance iov consumed in
      let done := u64 (done + consumed) in
      if negb (consumed =? Z.of_nat copied) then Ok (done, - EINTR, iov, sent)
      else write_chunks has_mm fuel dev (S i) oflag m iov done sent
  end.

(** [ok]: both buffers could be allocated. *)
Definition tty_write (has_mm : bool) (ok : bool) (t : tty) (m : amem) (iov : kiov) (dev : nat → list Z → Z) : res (Z * kiov * list Z) :=
  if negb ok then Ok (- ENOMEM, iov, []) else
  let! (done, ret, iov, sent) := write_chunks has_mm (Z.to_nat (count iov)) dev 0 (c_oflag (t_termios t)) m iov 0 [] in
  Ok (if truth done then done else ret, iov, sent).

(** ** Settings *)

(** Layout in memory, little-endian. *)
Definition termios_bytes (tm : termios) : list Z :=
  le32 (c_iflag tm) ++ le32 (c_oflag tm) ++ le32 (c_cflag tm) ++ le32 (c_lflag tm) ++ [c_line tm] ++ c_cc tm.
Definition termios_of (l : list Z) : termios :=
  Termios (field l 0 4) (field l 4 4) (field l 8 4) (field l 12 4) (field l 16 1) (take NCCS (drop 17 l)).
Definition winsize_bytes (w : winsize) : list Z := le16 (ws_row w) ++ le16 (ws_col w) ++ le16 (ws_xpixel w) ++ le16 (ws_ypixel w).
Definition winsize_of (l : list Z) : winsize := Winsize (field l 0 2) (field l 2 2) (field l 4 2) (field l 6 2).

Definition tty_ioctl (has_mm : bool) (t : tty) (m : amem) (cmd arg : Z) : Z * tty * amem :=
  if cmd =? TCGETS then
    let '(missing, m) := copy_to_user m has_mm arg (termios_bytes (t_termios t)) in
    (if decide (missing = O) then 0 else - EFAULT, t, m)
  else if (cmd =? TCSETS) || (cmd =? TCSETSW) || (cmd =? TCSETSF) then
    let '(missing, l) := copy_from_user m has_mm arg 36 in
    if decide (missing = O) then (0, set_termios t (termios_of l), m) else (- EFAULT, t, m)
  else if cmd =? TIOCGWINSZ then
    let '(missing, m) := copy_to_user m has_mm arg (winsize_bytes (t_winsize t)) in
    (if decide (missing = O) then 0 else - EFAULT, t, m)
  else if cmd =? TIOCSWINSZ then
    let '(missing, l) := copy_from_user m has_mm arg 8 in
    if decide (missing = O)
    then (0, Tty (t_head t) (t_tail t) (t_canon t) (t_termios t) (winsize_of l) (t_buffer t), m) else (- EFAULT, t, m)
  else (- ENOTTY, t, m).

(** The terminal [tty_init] sets up, with the buffer [b]. *)
Definition tty_init (b : list Z) : tty :=
  Tty 0 0 0
    (Termios (Z.lor ICRNL IXON) (Z.lor OPOST ONLCR) (Z.lor CS8 CREAD)
       (Z.lor ISIG (Z.lor ICANON (Z.lor ECHO (Z.lor ECHOE (Z.lor ECHOK IEXTEN))))) 0
       [3; 28; 127; 21; 4; 0; 1; 0; 17; 19; 26; 0; 18; 15; 23; 22; 0; 0; 0])
    (Winsize 24 80 0 0) b.

(** ** The line discipline *)

Definition ring (t : tty) : pipe := Pipe (t_head t) (t_tail t) (t_buffer t) 0 0.

(** [ready] can be read, [line] is being edited. *)
Record tty_ok (t : tty) (ready line : list Z) : Prop := {
  ty_ring : holds (ring t) (ready ++ line);
  ty_canon : t_canon t = u32 (t_tail t + Z.of_nat (length ready));
  ty_cc : length (c_cc (t_termios t)) = NCCS
}.

(** What a received character does to the two: the new ones, the echo, the wake-up. *)
Definition discipline (tm : termios) (ready line : list Z) (c : Z) : list Z * list Z * list Z * bool :=
  let c := if has (c_iflag tm) ICRNL && (c =? CR) then NL else c in
  if has (c_lflag tm) ICANON && bool_decide (c_cc tm !! VERASE = Some c) then
    (ready, take (length line - 1) line, if bool_decide (line ≠ []) && has (c_lflag tm) ECHO then [BS; SP; BS] else [], false)
  else if bool_decide (length ready + length line < 4095 ∨ (length ready + length line = 4095 ∧ c = NL))%nat then
    let echo := if has (c_lflag tm) ECHO then (if c =? NL then tty_opost (c_oflag tm) c else [c]) else [] in
    if negb (has (c_lflag tm) ICANON) || (c =? NL)
    then (ready ++ line ++ [c], [], echo, true)
    else (ready, line ++ [c], echo, false)
  else (ready, line, [], false).

Section ok.
Context (t : tty) (ready line : list Z) (Hok : tty_ok t ready line).

Lemma ok_cap : Z.of_nat (length ready + length line) ≤ 4096.
Proof. pose proof (holds_cap _ _ (ty_ring _ _ _ Hok)) as H. by rewrite length_app in H. Qed.

Lemma ok_used : u32 (t_head t - t_tail t) = Z.of_nat (length ready + length line).
Proof. pose proof (holds_used _ _ (ty_ring _ _ _ Hok)) as H. by rewrite length_app in H. Qed.

Lemma ok_tail : in_u32 (t_tail t).
Proof. exact (repr_out _ _ _ (ty_ring _ _ _ Hok)). Qed.

Lemma ok_head : t_head t = u32 (t_tail t + Z.of_nat (length ready + length line)).
Proof. pose proof (holds_head _ _ (ty_ring _ _ _ Hok)) as H. by rewrite length_app in H. Qed.

Lemma u32_add_inj x a b : 0 ≤ a < 2 ^ 32 → 0 ≤ b < 2 ^ 32 → u32 (x + a) = u32 (x + b) → a = b.
Proof.
  intros Ha Hb E. assert (u32 (x + a - x) = u32 (x + b - x)) as E2.
  { unfold u32, wrap in *. by rewrite Zminus_mod, E, <-Zminus_mod. }
  replace (x + a - x) with a in E2 by lia. replace (x + b - x) with b in E2 by lia.
  by rewrite !u32_small in E2.
Qed.

Lemma ok_editing : (t_head t =? t_canon t) = bool_decide (line = []).
Proof.
  rewrite (ty_canon _ _ _ Hok), ok_head. pose proof ok_cap. destruct line as [|x k] eqn:E.
  - rewrite bool_decide_eq_true_2 by done. apply Z.eqb_eq. f_equal. simpl. lia.
  - rewrite bool_decide_eq_false_2 by done. apply Z.eqb_neq. intros Hc. apply u32_add_inj in Hc; simpl in *; lia.
Qed.

Lemma ok_readable : u32 (t_canon t - t_tail t) = Z.of_nat (length ready).
Proof.
  rewrite (ty_canon _ _ _ Hok). pose proof ok_cap. unfold u32, wrap. rewrite Zminus_mod_idemp_l.
  replace (t_tail t + Z.of_nat (length ready) - t_tail t) with (Z.of_nat (length ready)) by lia. apply Z.mod_small. lia.
Qed.

Lemma ok_nothing : (t_tail t =? t_canon t) = bool_decide (ready = []).
Proof.
  pose proof ok_readable as Hr. pose proof ok_tail as Ht. destruct (decide (ready = [])) as [Hn|Hn].
  - rewrite bool_decide_eq_true_2 by done. rewrite (ty_canon _ _ _ Hok), Hn, Z.add_0_r, u32_small by done. apply Z.eqb_refl.
  - rewrite bool_decide_eq_false_2 by done. apply Z.eqb_neq. intros Hc. rewrite Hc, Z.sub_diag in Hr. change (u32 0) with 0 in Hr.
    destruct Hn. apply nil_length_inv. lia.
Qed.

(** The last character is taken back. *)
Lemma ok_erase w b tm :
  line ≠ [] → length (c_cc tm) = NCCS → b = t_buffer t →
  tty_ok (Tty (u32 (t_head t - 1)) (t_tail t) (t_canon t) tm w b) ready (take (length line - 1) line).
Proof.
  intros Hne Hcc ->. assert (0 < length line)%nat by (destruct line; [done|simpl; lia]). pose proof ok_cap.
  assert (ready ++ take (length line - 1) line = take (length ready + length line - 1) (ready ++ line)) as Happ.
  { rewrite take_app, (take_ge ready) by lia. f_equal. f_equal. lia. }
  split; [|apply Hok|done]. destruct (ty_ring _ _ _ Hok) as [Hk Hm Hd Ho Hi Hc Hb]. rewrite Happ. split; [done..| | |].
  - cbn [in_ out as_ring ring head tail t_head t_tail]. rewrite ok_head, length_take, length_app. unfold u32, wrap. rewrite Zminus_mod_idemp_l. f_equal. lia.
  - rewrite length_take. lia.
  - intros i x Hx. apply Hb. rewrite lookup_take in Hx. by case_decide.
Qed.

(** A character is put behind the last one. *)
Lemma ok_put c b ready' line' w tm :
  ready' ++ line' = ready ++ line ++ [c] → (length ready + length line < 4096)%nat → length (c_cc tm) = NCCS →
  b = <[Z.to_nat (t_head t mod 4096) := c]> (t_buffer t) →
  tty_ok (Tty (u32 (t_head t + 1)) (t_tail t) (u32 (t_tail t + Z.of_nat (length ready'))) tm w b) ready' line'.
Proof.
  intros Happ Hlt Hcc ->. split; [|done|done]. rewrite Happ, app_assoc.
  assert (Hb : memcpy (t_buffer t) (Z.to_nat (t_head t mod 4096)) [c] 0 1 = Ok (<[Z.to_nat (t_head t mod 4096) := c]> (t_buffer t))).
  { pose proof (holds_len _ _ (ty_ring _ _ _ Hok)) as Hl. simpl in Hl. pose proof (Z.mod_pos_bound (t_head t) 4096 ltac:(lia)).
    unfold memcpy. rewrite decide_True by (simpl; lia). f_equal. simpl.
    rewrite insert_take_drop by lia. f_equal. f_equal. f_equal. lia. }
  pose proof (Z.mod_pos_bound (t_head t) 4096 ltac:(lia)).
  apply (holds_written _ _ (ty_ring _ _ _ Hok) [c] _ 1); [|simpl; lia|simpl; lia|exact Hb].
  rewrite length_app. simpl. lia.
Qed.
End ok.

Lemma receive_ok t ready line c :
  tty_ok t ready line →
  ∃ t' ready' line' echo wake, tty_receive t c = Ok (t', echo, wake) ∧
    discipline (t_termios t) ready line c = (ready', line', echo, wake) ∧ tty_ok t' ready' line' ∧
    t_termios t' = t_termios t ∧ t_winsize t' = t_winsize t ∧ t_tail t' = t_tail t ∧ ready `prefix_of` ready'.
Proof.
  intros Hok. unfold tty_receive, discipline. set (c' := if _ && _ then NL else c). clearbody c'.
  destruct (lookup_lt_is_Some_2 (c_cc (t_termios t)) VERASE) as [e He]; [rewrite (ty_cc _ _ _ Hok); unfold VERASE, NCCS; lia|].
  rewrite (arr_get_Ok _ _ _ He). cbn [res_bind]. rewrite He.
  replace (bool_decide (Some e = Some c')) with (c' =? e).
  2: { destruct (Z.eqb_spec c' e) as [->|]; [by rewrite bool_decide_eq_true_2|]. rewrite bool_decide_eq_false_2; [done|]. by intros [= ->]. }
  destruct (has (c_lflag (t_termios t)) ICANON && (c' =? e)) eqn:Eer.
  - rewrite (ok_editing _ _ _ Hok). destruct (decide (line = [])) as [->|Hne].
    + rewrite bool_decide_eq_true_2, bool_decide_eq_false_2 by naive_solver. eexists _, _, _, _, _. split_and!; done.
    + rewrite bool_decide_eq_false_2, bool_decide_eq_true_2 by done. eexists _, _, _, _, _. split_and!; [done|done| |done..].
      apply (ok_erase t); [done|done|apply Hok|done].
  - rewrite (ok_used _ _ _ Hok). pose proof (ok_cap _ _ _ Hok).
    replace ((Z.of_nat (length ready + length line) <? PAGE_SIZE) && ((Z.of_nat (length ready + length line) <? PAGE_SIZE - 1) || (c' =? NL)))
      with (bool_decide (length ready + length line < 4095 ∨ (length ready + length line = 4095 ∧ c' = NL))%nat).
    2: { unfold PAGE_SIZE, NL. case_bool_decide; symmetry; [|apply not_true_iff_false];
         rewrite andb_true_iff, orb_true_iff, !Z.ltb_lt, Z.eqb_eq; lia. }
    case_bool_decide as Hroom; [|eexists _, _, _, _, _; split_and!; done].
    assert (Hoff : Z.land (t_head t) (PAGE_SIZE - 1) = t_head t mod 4096) by (apply (ring_offset (t_head t))).
    rewrite Hoff. pose proof (Z.mod_pos_bound (t_head t) 4096 ltac:(lia)).
    pose proof (holds_len _ _ (ty_ring _ _ _ Hok)) as Hl. simpl in Hl. rewrite arr_set_Ok by lia. cbn [res_bind].
    destruct (negb (has (c_lflag (t_termios t)) ICANON) || (c' =? NL)).
    + eexists _, _, _, _, _. split_and!; [done|done| |done..|by apply prefix_app_r].
      assert (u32 (t_head t + 1) = u32 (t_tail t + Z.of_nat (length (ready ++ line ++ [c'])))) as Hh.
      { rewrite (ok_head _ _ _ Hok). rewrite !length_app. unfold u32, wrap. rewrite Zplus_mod_idemp_l. f_equal. simpl. lia. }
      rewrite Hh at 2. apply (ok_put t ready line Hok c'); [by rewrite app_nil_r|lia|apply Hok|done].
    + eexists _, _, _, _, _. split_and!; [done|done| |done..]. rewrite (ty_canon _ _ _ Hok).
      apply (ok_put t ready line Hok c'); [done|lia|apply Hok|done].
Qed.

Definition event_ok (e : event) : Prop := match e with Received _ => True | Settings tm => length (c_cc tm) = NCCS end.

Lemma settings_ok t ready line tm :
  tty_ok t ready line → length (c_cc tm) = NCCS →
  ∃ ready' line', tty_ok (set_termios t tm) ready' line' ∧ ready' ++ line' = ready ++ line ∧ ready `prefix_of` ready' ∧
    (if has (c_lflag tm) ICANON then ready' = ready else line' = []).
Proof.
  intros Hok Hcc. unfold set_termios. destruct (has (c_lflag tm) ICANON).
  - exists ready, line. split_and!; [|done..]. destruct Hok. by split.
  - exists (ready ++ line), []. rewrite app_nil_r. split_and!; [|done|by apply prefix_app_r|done]. destruct Hok as [Hr Hc Hl].
    split; [by rewrite app_nil_r|simpl|done]. exact (holds_head _ _ Hr).
Qed.

Lemma events_ok t ready line l :
  tty_ok t ready line → Forall event_ok l →
  ∃ t' ready' line', run_events t l = Ok t' ∧ tty_ok t' ready' line' ∧ ready `prefix_of` ready' ∧ t_tail t' = t_tail t.
Proof.
  revert t ready line. induction l as [|[c|tm] l IH]; intros t ready line Hok Hl; simpl.
  - by exists t, ready, line.
  - apply Forall_cons in Hl as [_ Hl]. destruct (receive_ok t ready line c Hok) as (t1&r1&l1&echo&wake&->&_&Hok1&_&_&Ht1&Hp1). cbn [res_bind].
    destruct (IH t1 r1 l1 Hok1 Hl) as (t2&r2&l2&->&Hok2&Hp2&Ht2). exists t2, r2, l2. split_and!; [done|done|by etrans|congruence].
  - apply Forall_cons in Hl as [Hcc Hl]. destruct (settings_ok t ready line tm Hok Hcc) as (r1&l1&Hok1&_&Hp1&_).
    destruct (IH _ r1 l1 Hok1 Hl) as (t2&r2&l2&->&Hok2&Hp2&Ht2). exists t2, r2, l2. split_and!; [done|done|by etrans|done].
Qed.

(** ** Reading *)

Lemma index_of_spec c l :
  match index_of c l with
  | Some k => l !! k = Some c ∧ (c ∉ take k l) ∧ (k < length l)%nat
  | None => c ∉ l
  end.
Proof.
  induction l as [|x l IH]; simpl; [set_solver|]. destruct (Z.eqb_spec x c) as [->|Hne]; simpl.
  - split_and!; [done|set_solver|lia].
  - destruct (index_of c l) as [k|]; simpl; [|set_solver]. destruct IH as (?&?&?). split_and!; [done|set_solver|lia].
Qed.

(** At most one newline, at the end. *)
Definition one_line (l : list Z) : Prop := NL ∉ take (length l - 1) l.

Lemma not_in_take (x : Z) n l : (x ∉ l) → x ∉ take n l.
Proof. intros Hx (i&Hi&_)%elem_of_take. apply Hx. by eapply list_elem_of_lookup_2. Qed.

Lemma one_line_app l k : (NL ∉ l) → one_line k → one_line (l ++ k).
Proof.
  unfold one_line. intros Hl Hk. rewrite length_app, take_app, not_elem_of_app. split; [by apply not_in_take|].
  destruct k as [|x k]; [rewrite take_nil; set_solver|].
  by replace (length l + length (x :: k) - 1 - length l)%nat with (length (x :: k) - 1)%nat by (simpl; lia).
Qed.

Lemma prefix_take_drop (l k : list Z) n : (n ≤ length l)%nat → l `prefix_of` k → take n k = take n l ∧ drop n l `prefix_of` drop n k.
Proof. intros Hn [r ->]. rewrite take_app_le, drop_app_le by done. split; [done|]. by apply prefix_app_r. Qed.

(** Why a copy stopped after [k] bytes of [all], the characters that could be read. *)
Inductive stopped (m : amem) (has_mm : bool) (iov : kiov) (all : list Z) (k : nat) : Z → Prop :=
  | stop_fault : ¬ Forall (ok_store has_mm m (user iov)) (addrs iov) → stopped m has_mm iov all k (- EFAULT)
  | stop_full : Z.of_nat k = count iov → stopped m has_mm iov all k 0
  | stop_empty : k = length all → stopped m has_mm iov all k 0
  | stop_line : last (take k all) = Some NL → stopped m has_mm iov all k 0.

(** The outcome of the copy loop. *)
Record copied_ok (has_mm : bool) (m : amem) (iov : kiov) (ready : list Z) (k : nat) (ret : Z) (t' : tty) (m' : amem) (iov' : kiov) : Prop := {
  cy_state : ∃ all line, ready `prefix_of` all ∧ (k ≤ length all)%nat ∧ tty_ok t' (drop k all) line ∧ one_line (take k all) ∧
    bytes m' = puts (bytes m) (take k (addrs iov)) (take k all) ∧ stopped m has_mm iov all k ret;
  cy_iov : consumed iov iov' k;
  cy_count : Z.of_nat k ≤ count iov;
  cy_writable : writable m' = writable m
}.

Lemma copied_stop has_mm m iov ready line t :
  tty_ok t ready line → kiov_ok iov → (count iov = 0 ∨ ready = []) → copied_ok has_mm m iov ready 0 0 t m iov.
Proof.
  intros Hok Hi Hw. split; [|by apply consumed_0|apply Hi|done].
  exists ready, line. split_and!; [done|lia|done|unfold one_line; set_solver|done|].
  destruct Hw as [Hw| ->]; [by apply stop_full|by apply stop_empty].
Qed.

(** One piece of a line, then the rest. *)
Lemma copied_step has_mm m iov data m1 iov1 ready ready1 k ret t' m' iov' :
  kiov_ok iov → (NL ∉ data) → data `prefix_of` ready → drop (length data) ready `prefix_of` ready1 → Z.of_nat (length data) ≤ count iov →
  consumed iov iov1 (length data) → writable m1 = writable m → bytes m1 = puts (bytes m) (take (length data) (addrs iov)) data →
  (∀ a, can_store m a → can_store m1 a) →
  copied_ok has_mm m1 iov1 ready1 k ret t' m' iov' → copied_ok has_mm m iov ready (length data + k) ret t' m' iov'.
Proof.
  intros Hiov Hnl [r ->] Hp Hcnt Hcs Hw Hb Hst [(all&line&Hpre&Hk&Hok&Hol&Hby&Hstop) Hcs' Hc' Hw']. rewrite drop_app_length in Hp.
  pose proof Hcs as (Hok1&Ha1&Hc1&Hu1).
  assert (length (take (length data) (addrs iov)) = length data) as Hla by (rewrite length_take; pose proof (ko_addrs _ Hiov); lia).
  split; [|by eapply consumed_trans|lia|congruence].
  exists (data ++ all), line. rewrite drop_app_add, take_app_add. split_and!.
  - apply prefix_app. by etrans.
  - rewrite length_app. lia.
  - done.
  - by apply one_line_app.
  - rewrite Hby, Hb, Ha1, puts_app by done. by rewrite take_add.
  - inversion Hstop as [Hnf E|E1 E|E1 E|E1 E]; subst ret.
    + apply stop_fault. intros Hall. apply Hnf. rewrite Hu1, Ha1. eapply Forall_impl; [by apply Forall_drop|]. intros a [??]. split; auto.
    + apply stop_full. lia.
    + apply stop_empty. rewrite length_app. lia.
    + apply stop_line. rewrite take_app_add, last_app, E1. done.
Qed.

Lemma tty_copy_spec has_mm fuel evs i t m iov ready line acc :
  tty_ok t ready line → kiov_ok iov → (Z.to_nat (count iov) ≤ fuel)%nat → 0 ≤ acc → acc + count iov < 2 ^ 64 →
  (∀ j, Forall event_ok (evs j)) → (user iov = true ∨ Forall (can_store m) (addrs iov)) →
  ∃ k ret t' m' iov', tty_copy has_mm fuel evs i t m iov acc = Ok (acc + Z.of_nat k, ret, t', m', iov') ∧
    copied_ok has_mm m iov ready k ret t' m' iov'.
Proof.
  revert i t m iov ready line acc. induction fuel as [|fuel IH]; intros i t m iov ready line acc Hok Hiov Hf Hacc Hov Hev Hst;
    pose proof (ko_count _ Hiov); destruct (decide (count iov = 0)) as [Hc0|Hc0].
  all: try (cbn [tty_copy]; rewrite Hc0; exists 0%nat, 0, t, m, iov; rewrite Z.add_0_r; split; [done|]; by eapply copied_stop; auto).
  { lia. }
  cbn [tty_copy]. unfold truth. rewrite (proj2 (Z.eqb_neq _ _) Hc0). cbn [negb].
  assert (Hoff : Z.land (t_tail t) (PAGE_SIZE - 1) = t_tail t mod 4096) by apply (ring_offset (t_tail t)).
  assert (Hleft : u64 (PAGE_SIZE - t_tail t mod 4096) = 4096 - t_tail t mod 4096) by apply (offset_left (t_tail t)).
  rewrite Hoff, Hleft, (ok_readable _ _ _ Hok), !MIN_spec. pose proof (ok_cap _ _ _ Hok).
  pose proof (Z.mod_pos_bound (t_tail t) 4096 ltac:(lia)) as Hm. set (cz := Z.min _ _). set (n := Z.to_nat cz).
  destruct (Z.eqb_spec cz 0) as [Hz|Hz].
  { exists 0%nat, 0, t, m, iov. rewrite Z.add_0_r. split; [done|]. eapply copied_stop; [done|done|]. right. apply nil_length_inv. lia. }
  assert (Hn : (0 < n ≤ length ready)%nat ∧ Z.of_nat n ≤ count iov ∧ t_tail t mod 4096 + Z.of_nat n ≤ 4096) by lia. destruct Hn as (Hn&Hnc&Hfit).
  pose proof (slice_queue (ring t) (ready ++ line) (ty_ring _ _ _ Hok) n ltac:(rewrite length_app; lia) Hfit) as Hsl. simpl in Hsl.
  rewrite Hsl. cbn [res_bind]. rewrite take_app_le by lia. clear Hsl.
  pose proof (index_of_spec NL (take n ready)) as Hix. set (nl := index_of NL (take n ready)) in *.
  set (data := match nl with Some k => take (S k) (take n ready) | None => take n ready end).
  assert (Hdata : data = take (length data) ready ∧ (0 < length data ≤ n)%nat ∧
    match nl with Some _ => last data = Some NL ∧ one_line data | None => NL ∉ data end).
  { subst data. destruct nl as [k|]; rewrite ?length_take in *.
    - destruct Hix as (Hk1&Hk2&Hk3). rewrite ?length_take in Hk3. rewrite !take_take. split_and!; [f_equal; lia|lia|lia| |].
      + rewrite Nat.min_l by lia. rewrite lookup_take_Some in Hk1. destruct Hk1 as [Hk1 _].
        rewrite (take_S_r _ _ _ Hk1), last_snoc. done.
      + unfold one_line. rewrite length_take, take_take. replace (Nat.min _ _) with k by lia. rewrite take_take, Nat.min_l in Hk2 by lia. done.
    - split_and!; [f_equal; lia|lia|lia|done]. }
  clearbody data. destruct Hdata as (Hdt&Hdl&Hnl).
  destruct (copy_to_kiov_ok has_mm m data iov Hiov) as (k1&m1&iov1&Ec&Hk1&Hmv&Hw&Hb&Hst1&Hall); rewrite Nat.min_l in * by lia.
  { destruct Hst as [|Hst]; [by left|right; by apply Forall_take]. }
  rewrite Ec. cbn [res_bind]. apply moved_consumed in Hmv.
  destruct (events_ok t ready line (evs i) Hok (Hev i)) as (t1&ready1&line1&->&Hok1&Hp1&Ht1). cbn [res_bind].
  assert (Hlr1 : (length ready ≤ length ready1)%nat) by by apply prefix_length.
  assert (Hok2 : tty_ok (Tty (t_head t1) (u32 (t_tail t1 + Z.of_nat k1)) (t_canon t1) (t_termios t1) (t_winsize t1) (t_buffer t1)) (drop k1 ready1) line1).
  { destruct Hok1 as [Hr Hc Hcc]. split; [|simpl|done].
    - rewrite <-drop_app_le by lia. apply (holds_read _ _ Hr k1 0 0). rewrite length_app. lia.
    - rewrite Hc, length_drop. unfold u32, wrap. rewrite Zplus_mod_idemp_l. f_equal. lia. }
  rewrite u64_small by (unfold in_u64; lia).
  destruct (prefix_take_drop ready ready1 (length data) ltac:(lia) Hp1) as [Htk Hdp].
  destruct (Nat.eqb_spec k1 (length data)) as [->|Hne]; cbn [negb].
  - destruct nl as [k|].
    + destruct Hnl as [Hlast Hone]. eexists _, _, _, _, _. split; [done|]. split; [|done|lia|done].
      exists ready1, line1. split_and!; [done|lia|done|by rewrite Htk, <-Hdt| |].
      * rewrite Hb, (take_ge data) by lia. by rewrite Htk, <-Hdt.
      * apply stop_line. by rewrite Htk, <-Hdt.
    + pose proof Hmv as (Hok1'&Ha1&Hc1&Hu1).
      destruct (IH (S i) _ m1 iov1 _ _ (acc + Z.of_nat (length data)) Hok2 Hok1') as (k&ret&t'&m'&iov'&->&Hcp); [lia|lia|lia|done| |].
      { rewrite Hu1, Ha1. destruct Hst as [|Hst]; [by left|right]. eapply Forall_impl; [by apply Forall_drop|exact Hst1]. }
      exists (length data + k)%nat, ret, t', m', iov'. split; [f_equal; f_equal; f_equal; f_equal; f_equal; lia|].
      eapply (copied_step has_mm m iov data m1 iov1 ready (drop (length data) ready1)); try done; [rewrite Hdt; apply prefix_take|lia|].
      rewrite Hb. by rewrite (take_ge data) by lia.
  - eexists _, _, _, _, _. split; [done|]. split; [|done|lia|done]. exists ready1, line1.
    assert (take k1 ready1 = take k1 data) as Htk1.
    { rewrite Hdt, take_take, Nat.min_l by lia. by apply (prefix_take_drop ready ready1 k1 ltac:(lia) Hp1). }
    rewrite Htk1. split_and!; [done|lia|done| |done|].
    + unfold one_line. rewrite length_take, take_take. destruct nl as [k|]; [|by apply not_in_take].
      destruct Hnl as [_ Hone]. unfold one_line in Hone. intros Hin. apply Hone. apply elem_of_take in Hin as (j&Hj&Hlt).
      apply elem_of_take. exists j. split; [done|lia].
    + apply stop_fault. intros Hfa. apply Hne, Hall. by apply Forall_take.
Qed.

(** ** Writing *)

Definition expand (oflag : Z) (l : list Z) : list Z := mjoin (tty_opost oflag <$> l).

Lemma expand_cons oflag c l : expand oflag (c :: l) = tty_opost oflag c ++ expand oflag l.
Proof. done. Qed.
Lemma expand_app oflag l k : expand oflag (l ++ k) = expand oflag l ++ expand oflag k.
Proof. induction l as [|c l IH]; [done|]. simpl. rewrite !expand_cons, IH. by rewrite app_assoc. Qed.

Lemma opost_cases oflag c : tty_opost oflag c = [c] ∨ tty_opost oflag c = [CR; c].
Proof. unfold tty_opost. destruct (_ && _); auto. Qed.

(** The characters counted are those whose whole expansion was taken; at most
    the carriage return of the next one went out with them. *)
Lemma consumed_loop_spec oflag w l sent n0 :
  0 ≤ sent ≤ w → w ≤ sent + Z.of_nat (length (expand oflag l)) →
  ∃ n rest, consumed_loop oflag w l sent n0 = n0 + Z.of_nat n ∧ (n ≤ length l)%nat ∧
    take (Z.to_nat (w - sent)) (expand oflag l) = expand oflag (take n l) ++ rest ∧ (rest = [] ∨ rest = [CR]) ∧
    (n = length l → rest = [] ∧ w = sent + Z.of_nat (length (expand oflag l))).
Proof.
  revert sent n0. induction l as [|c l IH]; intros sent n0 Hs Hw.
  { exists 0%nat, []. cbn [consumed_loop]. rewrite Z.add_0_r. simpl in Hw. split_and!; [done|done|by destruct (Z.to_nat (w - sent))|by left|]. intros _. split; [done|simpl; lia]. }
  cbn [consumed_loop]. rewrite expand_cons in *. rewrite length_app in *. rewrite Z.gtb_ltb.
  set (e := tty_opost oflag c) in *. destruct (Z.ltb_spec w (sent + Z.of_nat (length e))) as [Hlt|Hge].
  - exists 0%nat, (take (Z.to_nat (w - sent)) e). rewrite Z.add_0_r. split_and!; [done|simpl; lia| | |simpl; lia].
    + rewrite take_app_le by lia. done.
    + destruct (opost_cases oflag c) as [E|E]; subst e; rewrite E in *; simpl in Hlt.
      * left. replace (Z.to_nat (w - sent)) with 0%nat by lia. done.
      * destruct (decide (w = sent)) as [->|]; [left; by rewrite Z.sub_diag|right]. by replace (Z.to_nat (w - sent)) with 1%nat by lia.
  - destruct (IH (sent + Z.of_nat (length e)) (n0 + 1)) as (n&rest&->&Hn&Htk&Hr&Hend); [lia|lia|].
    exists (S n), rest. split_and!; [lia|simpl; lia| |done|].
    + cbn [take]. rewrite expand_cons, <-app_assoc, <-Htk. fold e.
      rewrite take_app, take_ge by lia. f_equal. f_equal. lia.
    + simpl. intros Hnl. destruct (Hend ltac:(lia)) as [-> ?]. split; [done|lia].
Qed.

(** Why a write stopped. *)
Inductive write_stop (has_mm : bool) (m : amem) (iov : kiov) (k : nat) (rest : list Z) : Z → Prop :=
  | ws_all : Z.of_nat k = count iov → rest = [] → write_stop has_mm m iov k rest 0
  | ws_fault : ¬ Forall (ok_load has_mm m (user iov)) (addrs iov) → rest = [] → write_stop has_mm m iov k rest (- EFAULT)
  | ws_device r : r < 0 → rest = [] → write_stop has_mm m iov k rest r
  | ws_short : Z.of_nat k < count iov → write_stop has_mm m iov k rest (- EINTR).

Record written_ok (has_mm : bool) (m : amem) (oflag : Z) (iov iov' : kiov) (k : nat) (ret : Z) (s : list Z) : Prop := {
  wr_iov : consumed iov iov' k;
  wr_count : Z.of_nat k ≤ count iov;
  wr_sent : ∃ d rest, loaded m (take k (addrs iov)) d ∧ s = expand oflag d ++ rest ∧ (rest = [] ∨ rest = [CR]) ∧ write_stop has_mm m iov k rest ret
}.

Lemma written_none has_mm m oflag iov ret : kiov_ok iov → write_stop has_mm m iov 0 [] ret → written_ok has_mm m oflag iov iov 0 ret [].
Proof.
  intros Hi Hs. split; [by apply consumed_0|apply Hi|]. exists [], []. rewrite take_0. split_and!; [constructor|done|by left|done].
Qed.

Lemma written_step has_mm m oflag iov iov1 iov' k1 d k ret s :
  kiov_ok iov → consumed iov iov1 k1 → loaded m (take k1 (addrs iov)) d → Z.of_nat k1 ≤ count iov →
  written_ok has_mm m oflag iov1 iov' k ret s → written_ok has_mm m oflag iov iov' (k1 + k) ret (expand oflag d ++ s).
Proof.
  intros Hi Hc Hd Hk1 [Hc' Hk (d'&rest&Hd'&->&Hr&Hst)]. pose proof Hc as (Hok1&Ha1&Hc1&Hu1).
  split; [by eapply consumed_trans|lia|]. exists (d ++ d'), rest. rewrite expand_app, app_assoc, take_add.
  split_and!; [by apply Forall2_app; [|rewrite <-Ha1]|done|done|].
  inversion Hst as [E1 E2 E|Hnf E2 E|r Hr0 E2 E|E1 E]; subst.
  - apply ws_all; [lia|done].
  - apply ws_fault; [|done]. intros Hall. apply Hnf. rewrite Hu1, Ha1. by apply Forall_drop.
  - by apply ws_device.
  - apply ws_short. lia.
Qed.

Lemma write_chunks_spec has_mm fuel dev i oflag m iov acc sent :
  kiov_ok iov → (Z.to_nat (count iov) ≤ fuel)%nat → 0 ≤ acc → acc + count iov < 2 ^ 64 →
  (∀ j out, dev j out ≤ Z.of_nat (length out)) → (user iov = true ∨ Forall (can_load m) (addrs iov)) →
  ∃ k ret iov' s, write_chunks has_mm fuel dev i oflag m iov acc sent = Ok (acc + Z.of_nat k, ret, iov', sent ++ s) ∧
    written_ok has_mm m oflag iov iov' k ret s.
Proof.
  revert i iov acc sent. induction fuel as [|fuel IH]; intros i iov acc sent Hiov Hf Hacc Hov Hdev Hld;
    pose proof (ko_count _ Hiov); destruct (decide (count iov = 0)) as [Hc0|Hc0].
  all: try (cbn [write_chunks]; rewrite Hc0; exists 0%nat, 0, iov, []; rewrite Z.add_0_r, app_nil_r; split; [done|];
    apply written_none; [done|]; by apply ws_all).
  { lia. }
  cbn [write_chunks]. unfold truth. rewrite (proj2 (Z.eqb_neq _ _) Hc0), MIN_spec. cbn [negb]. change TTY_WRITE_CHUNK with 2048.
  set (cz := Z.min (count iov) 2048). assert (0 < cz ≤ count iov) as Hcz by lia.
  destruct (copy_from_kiov_ok has_mm m (Z.to_nat cz) iov Hiov) as (k1&buf&iov1&->&Hk1&_&Hbuf&Hall); rewrite Nat.min_l in * by lia.
  { destruct Hld as [|Hld]; [by left|right; by apply Forall_take]. }
  cbn [res_bind]. destruct (Z.eqb_spec (Z.of_nat k1) cz) as [Ek|Ek]; cbn [negb].
  2: { exists 0%nat, (- EFAULT), iov, []. rewrite Z.add_0_r, app_nil_r. split; [done|]. apply written_none; [done|]. apply ws_fault; [|done].
       intros Hfa. apply Ek. rewrite Hall; [lia|]. by apply Forall_take. }
  set (input := take k1 buf) in *. assert (length input = k1) as Hli by (subst input; rewrite length_take; lia).
  change (mjoin (tty_opost oflag <$> input)) with (expand oflag input). set (w := dev i (expand oflag input)).
  destruct (Z.ltb_spec w 0) as [Hneg|Hpos].
  { exists 0%nat, w, iov, []. rewrite Z.add_0_r, app_nil_r. split; [done|]. apply written_none; [done|]. by apply ws_device. }
  destruct (consumed_loop_spec oflag w input 0 0) as (n&rest&->&Hn&Htk&Hr&Hend); [lia|apply Hdev|].
  rewrite Z.sub_0_r in Htk. rewrite Htk. rewrite Z.add_0_l. pose proof (moved_advance iov n Hiov ltac:(lia)) as Hmv%moved_consumed.
  rewrite u64_small by (unfold in_u64; lia).
  assert (loaded m (take n (addrs iov)) (take n input)) as Hdn.
  { subst input. apply (Forall2_take _ _ _ n) in Hbuf. by rewrite take_take, Nat.min_l in Hbuf by lia. }
  destruct (Z.eqb_spec (Z.of_nat n) (Z.of_nat k1)) as [En|En]; cbn [negb].
  - destruct (Hend ltac:(lia)) as [-> _]. rewrite app_nil_r. pose proof Hmv as (Hok1&Ha1&Hc1&Hu1).
    destruct (IH (S i) (kiov_advance iov (Z.of_nat n)) (acc + Z.of_nat n) (sent ++ expand oflag (take n input)) Hok1) as (k&ret&iov'&s&->&Hwr); [lia|lia|lia|done| |].
    { rewrite Hu1, Ha1. destruct Hld as [|Hld]; [by left|right; by apply Forall_drop]. }
    exists (n + k)%nat, ret, iov', (expand oflag (take n input) ++ s). split; [|by eapply written_step; [..|lia|]].
    rewrite <-app_assoc. do 4 f_equal. lia.
  - exists n, (- EINTR), (kiov_advance iov (Z.of_nat n)), (expand oflag (take n input) ++ rest). split; [done|]. split; [done|lia|].
    exists (take n input), rest. split_and!; [done..|]. apply ws_short. lia.
Qed.

(** ** Settings in memory *)

Definition termios_wf (tm : termios) : Prop :=
  in_u32 (c_iflag tm) ∧ in_u32 (c_oflag tm) ∧ in_u32 (c_cflag tm) ∧ in_u32 (c_lflag tm) ∧ 0 ≤ c_line tm < 256 ∧ length (c_cc tm) = NCCS.

Lemma termios_bytes_of tm : termios_wf tm → termios_of (termios_bytes tm) = tm ∧ length (termios_bytes tm) = 36%nat.
Proof.
  intros (H1&H2&H3&H4&H5&H6). destruct tm as [a b c d e cc]. cbn [c_iflag c_oflag c_cflag c_lflag c_line c_cc] in *.
  unfold termios_of, termios_bytes. cbn [c_iflag c_oflag c_cflag c_lflag c_line c_cc]. split.
  2: { rewrite !length_app, H6. done. }
  unfold field. f_equal.
  - change (of_le (le32 a) = a). by apply le32_of.
  - change (of_le (le32 b) = b). by apply le32_of.
  - change (of_le (le32 c) = c). by apply le32_of.
  - change (of_le (le32 d) = d). by apply le32_of.
  - change (e + 256 * 0 = e). lia.
  - change (take NCCS cc = cc). apply take_ge. lia.
Qed.

(** ** Properties *)

(** C28: the terminal's ring refines the line discipline.  For any character, in
    any state, [tty_receive] returns and does to the characters that can be read
    and to the line being edited, to the echo and to the readers exactly what
    [discipline] says: a carriage return may become a newline; in canonical mode
    the erase character takes back the last character of the line, never one that
    can already be read; a full ring drops what comes, keeping one place for a
    newline; a newline, or any character outside canonical mode, makes the whole
    line readable.  Counters that wrap do not disturb any of this. *)
Theorem tty_receive_refines t ready line c :
  tty_ok t ready line →
  ∃ t' ready' line' echo wake, tty_receive t c = Ok (t', echo, wake) ∧
    discipline (t_termios t) ready line c = (ready', line', echo, wake) ∧ tty_ok t' ready' line' ∧
    t_termios t' = t_termios t ∧ ready `prefix_of` ready'.
Proof.
  intros Hok. destruct (receive_ok t ready line c Hok) as (t'&r'&l'&e&w&H1&H2&H3&H4&_&_&H5). eauto 10.
Qed.

(** A terminal just set up, with its counters about to wrap. *)
Definition demo_tty : tty :=
  let t := tty_init (replicate 4096 0) in
  Tty (2 ^ 32 - 1) (2 ^ 32 - 1) (2 ^ 32 - 1) (t_termios t) (t_winsize t) (t_buffer t).

Lemma demo_tty_ok : tty_ok demo_tty [] [].
Proof.
  split; [|reflexivity|reflexivity]. split; [lia|reflexivity| |by split|reflexivity|done|by intros ? ? ?].
  cbn [data as_ring ring buffer t_buffer demo_tty tty_init]. by rewrite length_replicate.
Qed.

Lemma tty_receive_refines_witness :
  ∃ t' ready' line' echo wake, tty_receive demo_tty 13 = Ok (t', echo, wake) ∧ tty_ok t' ready' line' ∧ ready' = [NL] ∧ echo = [CR; NL].
Proof.
  destruct (tty_receive_refines demo_tty [] [] 13 demo_tty_ok) as (t'&r'&l'&e&w&H1&H2&H3&_).
  exists t', r', l', e, w. assert (discipline (t_termios demo_tty) [] [] 13 = ([NL], [], [CR; NL], true)) as H4 by (vm_compute; reflexivity).
  rewrite H4 in H2. injection H2 as <- <- <- <-. split_and!; [exact H1|exact H3|reflexivity|reflexivity].
Defined.

(** The terminals found in the turns are in order, and a kernel buffer can be stored to. *)
Definition turns_ok (iov : kiov) (env : list turn) : Prop :=
  ∀ t m, Locked t m ∈ env → (∃ ready line, tty_ok t ready line) ∧ (user iov = true ∨ Forall (can_store m) (addrs iov)).

Lemma tty_wait_spec iov env :
  turns_ok iov env →
  match tty_wait env with
  | inr (t, m) => Locked t m ∈ env ∧ ∃ ready line, tty_ok t ready line ∧ ready ≠ []
  | inl Blocked => ∀ t m, Locked t m ∈ env → ∃ line, tty_ok t [] line
  | inl (Returned r) => (r = - EINTR ∧ WaitSignalled ∈ env) ∨ RlockFailed r ∈ env
  end.
Proof.
  induction env as [|[|e|t m] env IH]; intros Hok; simpl; [set_solver|left; split; [done|left]|right; left|].
  destruct (Hok t m) as [(ready&line&Ht) _]; [left|]. rewrite (ok_nothing _ _ _ Ht).
  assert (turns_ok iov env) as Hok' by (intros ? ? ?; apply Hok; by right). specialize (IH Hok').
  destruct (decide (ready = [])) as [->|Hne].
  - rewrite bool_decide_eq_true_2 by done. cbn [negb]. destruct (tty_wait env) as [[|r]|[t1 m1]].
    + intros t2 m2 [[= -> ->]|Hin]%elem_of_cons; eauto.
    + destruct IH as [[? ?]|?]; [left|right]; [split; [done|by right]|by right].
    + destruct IH as [Hin IH]. split; [by right|done].
  - rewrite bool_decide_eq_false_2 by done. cbn [negb]. split; [left|eauto].
Qed.

(** a read of a terminal takes what can be read, in order and by lines.  The
    call waits until something can be read, or returns the error of the wait with
    nothing done.  Then it delivers [k] characters of [all]: those that could be
    read at the time, followed by what became readable while it copied; they are
    the first ones, in order, with no newline among them but the last, stored at
    the first [k] places of the vector, and exactly the others are left.  It stops
    only after a newline, with the vector full, with nothing left, or when the
    vector could not be stored to; it reports [k], or the fault when [k] is 0. *)
Theorem tty_read_spec has_mm t0 m0 iov env evs :
  kiov_ok iov → turns_ok iov env → (∀ j, Forall event_ok (evs j)) →
  ∃ r, tty_read has_mm t0 m0 iov env evs = Ok r ∧
    ((r = TtyResult Blocked t0 m0 iov ∧ ∀ t m, Locked t m ∈ env → ∃ line, tty_ok t [] line) ∨
     (∃ e, r = TtyResult (Returned e) t0 m0 iov ∧ ((e = - EINTR ∧ WaitSignalled ∈ env) ∨ RlockFailed e ∈ env)) ∨
     (∃ t m ready line k ret, Locked t m ∈ env ∧ tty_ok t ready line ∧ ready ≠ [] ∧
        tr_out r = Returned (if decide (k = O) then ret else Z.of_nat k) ∧
        copied_ok has_mm m iov ready k ret (tr_tty r) (tr_mem r) (tr_iov r))).
Proof.
  intros Hiov Hok Hev. unfold tty_read. pose proof (tty_wait_spec iov env Hok) as Hw.
  destruct (tty_wait env) as [[|e]|[t m]]; [eexists; split; [done|by left]|eexists; split; [done|right; left; eauto]|].
  destruct Hw as (Hin&ready&line&Ht&Hne). destruct (Hok t m Hin) as [_ Hst]. pose proof (ko_count _ Hiov).
  destruct (tty_copy_spec has_mm (Z.to_nat (count iov)) evs 0 t m iov ready line 0) as (k&ret&t'&m'&iov'&->&Hc); [done..|lia|lia|done|done|].
  cbn [res_bind]. eexists. split; [done|]. right. right. exists t, m, ready, line, k, ret. split_and!; [done..| |done].
  simpl. unfold truth. rewrite Z.add_0_l. case_decide as Hk; [by subst k|]. by rewrite (proj2 (Z.eqb_neq (Z.of_nat k) 0)) by lia.
Qed.

Lemma tty_read_spec_witness :
  ∃ t m iov r, tty_ok t [104; NL; 105] [] ∧ kiov_ok iov ∧ tty_read true t m iov [Locked t m] (λ _, []) = Ok r ∧ tr_out r ≠ Blocked.
Proof.
  set (t := Tty 3 0 3 (t_termios demo_tty) (t_winsize demo_tty) ([104; NL; 105] ++ replicate 4093 0)).
  assert (tty_ok t [104; NL; 105] []) as Ht.
  { split; [|reflexivity|reflexivity]. split; [lia|reflexivity| |by split|reflexivity|done|].
    - cbn [data as_ring ring buffer t_buffer t]. by rewrite length_app, length_replicate.
    - intros i x Hx. destruct i as [|[|[|i]]]; [by injection Hx as <-..|done]. }
  assert (kiov_ok example_iov) as Hi.
  { split; [|split; simpl; lia|simpl; lia|reflexivity]. repeat (apply Forall_cons; split; [simpl; lia|]). constructor. }
  destruct (tty_read_spec true t example_amem example_iov [Locked t example_amem] (λ _, [])) as (r&Hr&Hc); [exact Hi| |by constructor|].
  { intros t1 m1 [[= -> ->]|Hin]%elem_of_cons; [|by apply not_elem_of_nil in Hin]. split; [eauto|by left]. }
  exists t, example_amem, example_iov, r. split_and!; [exact Ht|exact Hi|exact Hr|].
  destruct Hc as [[_ Hc]|[(e&->&_)|(?&?&?&?&?&?&_&_&_&->&_)]]; [|done|done].
  destruct (Hc t example_amem) as [line Hl]; [by left|]. pose proof (ok_readable _ _ _ Hl) as Hz. by vm_compute in Hz.
Defined.

(** a write to a terminal counts exactly the characters that went out whole.
    Whatever the serial driver takes of each chunk (no more than it is given),
    [tty_write] returns; the characters it counts are the first of the vector and
    the vector moves past them; the driver was given their expansion (with a
    carriage return before each newline when that is set) and beyond it at most
    the carriage return of the next one.  It stops with everything written, at a
    character that could not be loaded, at an error of the driver, or when the
    driver took less than a chunk; it reports the count, or the error when the
    count is 0. *)
Theorem tty_write_spec has_mm (ok : bool) t m iov dev :
  kiov_ok iov → (∀ i out, dev i out ≤ Z.of_nat (length out)) → (user iov = true ∨ Forall (can_load m) (addrs iov)) →
  if ok then ∃ k ret iov' s, tty_write has_mm ok t m iov dev = Ok (if decide (k = O) then ret else Z.of_nat k, iov', s) ∧
    written_ok has_mm m (c_oflag (t_termios t)) iov iov' k ret s
  else tty_write has_mm ok t m iov dev = Ok (- ENOMEM, iov, []).
Proof.
  intros Hiov Hdev Hld. unfold tty_write. destruct ok; cbn [negb]; [|done]. pose proof (ko_count _ Hiov).
  destruct (write_chunks_spec has_mm (Z.to_nat (count iov)) dev 0 (c_oflag (t_termios t)) m iov 0 []) as (k&ret&iov'&s&->&Hw); [done|lia|lia|lia|done|done|].
  cbn [res_bind]. exists k, ret, iov', s. split; [|done]. unfold truth. rewrite Z.add_0_l, app_nil_l.
  case_decide as Hk; [by subst k|]. by rewrite (proj2 (Z.eqb_neq (Z.of_nat k) 0)) by lia.
Qed.

Lemma tty_write_spec_witness :
  ∃ k ret iov' s, tty_write true true demo_tty example_amem example_iov (λ _ out, Z.of_nat (length out)) = Ok (if decide (k = O) then ret else Z.of_nat k, iov', s) ∧
    written_ok true example_amem (c_oflag (t_termios demo_tty)) example_iov iov' k ret s.
Proof.
  assert (kiov_ok example_iov) as Hi.
  { split; [|split; simpl; lia|simpl; lia|reflexivity]. repeat (apply Forall_cons; split; [simpl; lia|]). constructor. }
  exact (tty_write_spec true true demo_tty example_amem example_iov (λ _ out, Z.of_nat (length out)) Hi (λ _ _, Z.le_refl _) (or_introl eq_refl)).
Defined.

Lemma range_nodup a n : Z.of_nat n < 2 ^ 64 → NoDup (range a n).
Proof.
  intros Hn. apply NoDup_alt. intros i j x Hi Hj. rewrite range_lookup in Hi, Hj. repeat case_decide; simplify_eq.
  assert (u64 (a + Z.of_nat i - a) = u64 (a + Z.of_nat j - a)) as E.
  { unfold u64, wrap in *. by rewrite Zminus_mod, Hi, <-Zminus_mod. }
  replace (a + Z.of_nat i - a) with (Z.of_nat i) in E by lia. replace (a + Z.of_nat j - a) with (Z.of_nat j) in E by lia.
  rewrite !u64_small in E by (unfold in_u64; lia). lia.
Qed.

(** The settings survive a trip through user memory: what [TCGETS] stores at an
    address, [TCSETS] (and its variants) sets again from there. *)
Theorem tty_termios_roundtrip has_mm t t' m arg cmd :
  termios_wf (t_termios t) → in_u64 arg → Forall (ok_store has_mm m true) (range arg 36) → cmd ∈ [TCSETS; TCSETSW; TCSETSF] →
  ∃ m', tty_ioctl has_mm t m TCGETS arg = (0, t, m') ∧
    tty_ioctl has_mm t' m' cmd arg = (0, set_termios t' (t_termios t), m') ∧
    ∀ a, a ∉ range arg 36 → bytes m' !! a = bytes m !! a.
Proof.
  intros Hwf Harg Hst Hcmd. destruct (termios_bytes_of _ Hwf) as [Hof Hlen]. set (data := termios_bytes (t_termios t)) in *.
  destruct (copy_to_user m has_mm arg data) as [missing m'] eqn:Ec.
  pose proof (put_piece_spec has_mm m true arg data missing m') as Hp. unfold put_piece in Hp. rewrite Ec, Hlen in Hp.
  destruct Hp as (_&Hw&Hb&Hst'&Hall); [lia|done|done|]. specialize (Hall Hst). subst missing. rewrite Nat.sub_0_r, !take_ge in Hb by (rewrite ?range_length; lia).
  destruct (copy_from_user m' has_mm arg 36) as [missing' got] eqn:Eg.
  pose proof (get_piece_spec has_mm m' true arg 36 missing' got) as Hg. unfold get_piece in Hg. rewrite Eg in Hg.
  destruct Hg as (_&Hlg&Hld&Hall'); [lia|done|done|].
  assert (missing' = O) as ->.
  { apply Hall'. eapply Forall_impl; [exact Hst|]. intros a [Ha Hu]. split; [|done]. by destruct (Hst' a Ha). }
  rewrite Nat.sub_0_r, !take_ge in Hld by (rewrite ?range_length; lia).
  assert (got = data) as ->.
  { eapply loaded_inj; [exact Hld|]. destruct m' as [b' w']. cbn [bytes] in Hb. rewrite Hb. apply puts_loaded; [apply range_nodup; lia|by rewrite range_length]. }
  exists m'. split_and!.
  - unfold tty_ioctl. change (TCGETS =? TCGETS) with true. cbv iota. fold data. by rewrite Ec.
  - unfold tty_ioctl. rewrite !elem_of_cons in Hcmd. destruct Hcmd as [->|[->|[->|Hn]]]; [| | |by apply not_elem_of_nil in Hn].
    all: cbv [Z.eqb TCSETS TCSETSW TCSETSF TCGETS Pos.eqb orb]; rewrite Eg; by rewrite decide_True, Hof.
  - intros a Ha. rewrite Hb. by apply puts_lookup_other.
Qed.
