(* ===== verification/Ext2dir.v ===== *)
(** * ext2 directories: [fs/ext2/dir.c]

    A directory is a sequence of blocks of bytes (a hole is a block that was never
    allocated), each filled from end to end with variable-length records.  Records
    are read and written as bytes, little-endian, at the offsets of
    [struct ext2_dirent]; an access outside the block faults.  Offsets inside a
    block never pass its end and are natural numbers.  What the block map and the
    page cache answer is an argument.  The operations run under [dir->mutex].

    A directory refines a finite map from names to inode numbers. *)
From stdpp Require Import base tactics numbers list gmap.
From S2P Require Import Prelude.

Definition EISDIR : Z := 21.
Definition EXT2_FT_UNKNOWN : Z := 0.
Definition EXT2_FT_REG_FILE : Z := 1.
Definition EXT2_FT_DIR : Z := 2.
Definition EXT2_FT_CHRDEV : Z := 3.
Definition EXT2_FT_BLKDEV : Z := 4.
Definition EXT2_FT_FIFO : Z := 5.
Definition EXT2_FT_SOCK : Z := 6.
Definition EXT2_FT_SYMLINK : Z := 7.
Definition EXT2_FT_MAX : Z := 8.
Definition S_IFMT : Z := 0xf000.
Definition S_IFIFO : Z := 0x1000.
Definition S_IFCHR : Z := 0x2000.
Definition S_IFDIR : Z := 0x4000.
Definition S_IFBLK : Z := 0x6000.
Definition S_IFREG : Z := 0x8000.
Definition S_IFLNK : Z := 0xa000.
Definition S_IFSOCK : Z := 0xc000.
(** [DT_UNKNOWN, DT_REG, DT_DIR, DT_CHR, DT_BLK, DT_FIFO, DT_SOCK, DT_LNK] *)
Definition ext2_dtype : list Z := [0; 8; 4; 2; 6; 1; 12; 10].

(** [s_inodes_count], the block size, and [EXT2_FEATURE_INCOMPAT_FILETYPE]. *)
Record dir_sb := DirSb { inodes_count : Z; bs : nat; filetype : bool }.
Record inode := Inode { i_ino : Z; i_mode : Z }.
Record dir := Dir { d_inode : inode; i_size : Z; blocks : list (option (list Z)) }.

(** [sizeof(struct ext2_dirent)] *)
Definition HDR : nat := 8.
Record header := Header { h_ino : Z; h_rec : nat; h_nlen : nat; h_type : Z }.

(** ** Bytes *)

Definition peek (buf : list Z) (off n : nat) : res (list Z) :=
  if decide (off + n ≤ length buf)%nat then Ok (take n (drop off buf)) else Fault.
Definition poke (buf : list Z) (off : nat) (l : list Z) : res (list Z) :=
  if decide (off + length l ≤ length buf)%nat then Ok (take off buf ++ l ++ drop (off + length l) buf) else Fault.

Definition load_header (buf : list Z) (off : nat) : res header :=
  let! l := peek buf off HDR in
  Ok (Header (field l 0 4) (Z.to_nat (field l 4 2)) (Z.to_nat (field l 6 1)) (field l 7 1)).
Definition load_name (buf : list Z) (off n : nat) : res (list Z) := peek buf (off + HDR) n.

Section dir.
Context (sb : dir_sb).

(** [ALIGN_UP(sizeof(struct ext2_dirent) + len, 4)] *)
Definition ext2_dirent_rec_len (len : nat) : nat := Z.to_nat (ALIGN_UP (Z.of_nat HDR + Z.of_nat len) 4).

Definition ext2_dirent_type (i : inode) : Z :=
  if filetype sb then
    let fmt := Z.land (i_mode i) S_IFMT in
    if fmt =? S_IFREG then EXT2_FT_REG_FILE else if fmt =? S_IFDIR then EXT2_FT_DIR else
    if fmt =? S_IFCHR then EXT2_FT_CHRDEV else if fmt =? S_IFBLK then EXT2_FT_BLKDEV else
    if fmt =? S_IFIFO then EXT2_FT_FIFO else if fmt =? S_IFLNK then EXT2_FT_SYMLINK else
    if fmt =? S_IFSOCK then EXT2_FT_SOCK else EXT2_FT_UNKNOWN
  else EXT2_FT_UNKNOWN.

(** An error, or the record. *)
Definition ext2_get_dirent (buf : list Z) (off end_ : nat) : res (Z + header) :=
  if (end_ - off <? HDR)%nat then Ok (inl (- EUCLEAN)) else
  let! d := load_header buf off in
  if (h_rec d <? HDR)%nat || negb (Nat.eqb (h_rec d mod 4) 0) || (end_ - off <? h_rec d)%nat || (h_rec d - HDR <? h_nlen d)%nat
  then Ok (inl (- EUCLEAN)) else
  if h_ino d >? inodes_count sb then Ok (inl (- EUCLEAN)) else Ok (inr d).

(** ** Searching *)

Fixpoint find_loop (fuel : nat) (buf : list Z) (off end_ : nat) (name : list Z) : res (Z + nat) :=
  if (off <? end_)%nat then
    match fuel with
    | O => Loop
    | S fuel =>
        let! d := ext2_get_dirent buf off end_ in
        match d with
        | inl e => Ok (inl e)
        | inr d =>
            let! same :=
              if truth (h_ino d) && Nat.eqb (h_nlen d) (length name)
              then let! n := load_name buf off (length name) in Ok (bool_decide (n = name)) else Ok false in
            if same then Ok (inr off) else find_loop fuel buf (off + h_rec d) end_ name
        end
    end
  else Ok (inl (- ENOENT)).
Definition ext2_find_dirent_block (buf : list Z) (end_ : nat) (name : list Z) : res (Z + nat) := find_loop end_ buf 0 end_ name.

(** The block [lbn]: an error, a hole, or its bytes.  [io] is what the lookup of
    the block returns. *)
Definition ext2_get_dir_page (io : nat → Z) (d : dir) (lbn : nat) : res (Z + option (list Z)) :=
  if truth (io lbn) then Ok (inl (io lbn)) else let! b := arr_get (blocks d) lbn in Ok (inr b).

(** [left > block_size ? block_size : left] *)
Definition block_end (d : dir) (lbn : nat) : nat := Nat.min (bs sb) (Z.to_nat (i_size d) - lbn * bs sb).

(** The loop over the blocks, from [lbn]; the block and the offset in it. *)
Fixpoint find_blocks (fuel : nat) (io : nat → Z) (d : dir) (lbn : nat) (name : list Z) : res (Z + nat * nat) :=
  if Z.of_nat (lbn * bs sb) <? i_size d then
    match fuel with
    | O => Loop
    | S fuel =>
        let! p := ext2_get_dir_page io d lbn in
        match p with
        | inl e => Ok (inl e)
        | inr None => find_blocks fuel io d (S lbn) name
        | inr (Some buf) =>
            let! r := ext2_find_dirent_block buf (block_end d lbn) name in
            match r with
            | inr off => Ok (inr (lbn, off))
            | inl e => if negb (e =? - ENOENT) then Ok (inl e) else find_blocks fuel io d (S lbn) name
            end
        end
    end
  else Ok (inl (- ENOENT)).
Definition ext2_find_dirent (io : nat → Z) (d : dir) (name : list Z) : res (Z + nat * nat) :=
  find_blocks (S (length (blocks d))) io d 0 name.

Definition get_block (d : dir) (lbn : nat) : res (list Z) := let! b := arr_get (blocks d) lbn in deref b.
Definition put_block (d : dir) (lbn : nat) (buf : list Z) : res dir :=
  let! bl := arr_set (blocks d) lbn (Some buf) in Ok (Dir (d_inode d) (i_size d) bl).

Definition ext2_find_ino (io : nat → Z) (d : dir) (name : list Z) : res (Z + Z) :=
  let! r := ext2_find_dirent io d name in
  match r with
  | inl e => Ok (inl e)
  | inr (lbn, off) => let! buf := get_block d lbn in let! h := load_header buf off in Ok (inr (h_ino h))
  end.

(** ** Changing a record *)

Definition ext2_set_dirent (d : dir) (lbn off : nat) (i : inode) : res dir :=
  let! buf := get_block d lbn in
  let! buf := poke buf off (le32 (i_ino i)) in
  let! buf := poke buf (off + 7) [ext2_dirent_type i] in
  put_block d lbn buf.

(** The walk to the record before [off]. *)
Fixpoint prev_loop (fuel : nat) (buf : list Z) (cur off : nat) (prev : option nat) : res (nat * option nat) :=
  if (cur <? off)%nat then
    match fuel with
    | O => Loop
    | S fuel => let! h := load_header buf cur in prev_loop fuel buf (cur + h_rec h) off (Some cur)
    end
  else Ok (cur, prev).

Definition ext2_delete_dirent (d : dir) (lbn off : nat) : res dir :=
  let! buf := get_block d lbn in
  let! (cur, prev) := prev_loop off buf 0 off None in
  let! h := load_header buf cur in
  let! buf := match prev with
    | Some p => let! hp := load_header buf p in poke buf (p + 4) (le16 (u16 (Z.of_nat (h_rec hp) + Z.of_nat (h_rec h))))
    | None => Ok buf
    end in
  let! buf := poke buf cur (le32 0) in
  put_block d lbn buf.

(** ** Adding a record *)

(** A record, written field by field: inode, length, name length, type, name. *)
Definition write_dirent (buf : list Z) (off : nat) (ino : Z) (rec_len : nat) (type : Z) (name : list Z) : res (list Z) :=
  let! buf := poke buf off (le32 ino) in
  let! buf := poke buf (off + 4) (le16 (Z.of_nat rec_len)) in
  let! buf := poke buf (off + 6) [u8 (Z.of_nat (length name))] in
  let! buf := poke buf (off + 7) [type] in
  poke buf (off + HDR) name.

Fixpoint add_loop (fuel : nat) (buf : list Z) (off : nat) (name : list Z) (i : inode) : res (Z * list Z) :=
  let need := ext2_dirent_rec_len (length name) in
  if (off <? bs sb)%nat then
    match fuel with
    | O => Loop
    | S fuel =>
        let! d := ext2_get_dirent buf off (bs sb) in
        match d with
        | inl e => Ok (e, buf)
        | inr d =>
            let used := if truth (h_ino d) then ext2_dirent_rec_len (h_nlen d) else 0%nat in
            if (need <=? h_rec d - used)%nat then
              let! (slot, buf) :=
                if Nat.eqb used 0 then Ok (off, buf)
                else let! buf := poke buf (off + 4) (le16 (Z.of_nat used)) in Ok ((off + used)%nat, buf) in
              let! buf := write_dirent buf slot (i_ino i) (h_rec d - used) (ext2_dirent_type i) name in
              Ok (0, buf)
            else add_loop fuel buf (off + h_rec d) name i
        end
    end
  else Ok (- ENOSPC, buf).
Definition ext2_add_dirent_block (buf : list Z) (name : list Z) (i : inode) : res (Z * list Z) := add_loop (bs sb) buf 0 name i.

(** What the steps of a new block return: the inode's page, the new block, its page. *)
Record grow := Grow { g_inode : Z; g_bmap : Z; g_page : Z }.

(** The new last block is one unused record. *)
Definition ext2_append_dir_block (g : grow) (d : dir) (junk : list Z) : res (Z * dir) :=
  let size := i_size d + Z.of_nat (bs sb) in
  if size >? UINT32_MAX then Ok (- EFBIG, d) else
  if truth (g_inode g) then Ok (g_inode g, d) else
  if truth (g_bmap g) then Ok (g_bmap g, d) else
  if truth (g_page g) then Ok (g_page g, d) else
  let! buf := poke junk 0 (replicate (bs sb) 0) in
  let! buf := poke buf 4 (le16 (Z.of_nat (bs sb))) in
  Ok (0, Dir (d_inode d) size (blocks d ++ [Some buf])).

(** The loop over the blocks: the answer of the first that has one, or none. *)
Fixpoint add_blocks (fuel : nat) (io : nat → Z) (d : dir) (lbn : nat) (name : list Z) (i : inode) : res (option Z * dir) :=
  if Z.of_nat (lbn * bs sb) <? i_size d then
    match fuel with
    | O => Loop
    | S fuel =>
        let! p := ext2_get_dir_page io d lbn in
        match p with
        | inl e => Ok (Some e, d)
        | inr None => add_blocks fuel io d (S lbn) name i
        | inr (Some buf) =>
            let! (ret, buf) := ext2_add_dirent_block buf name i in
            let! d := put_block d lbn buf in
            if negb (ret =? - ENOSPC) then Ok (Some ret, d) else add_blocks fuel io d (S lbn) name i
        end
    end
  else Ok (None, d).

Definition ext2_add_dirent (io : nat → Z) (g : grow) (junk : list Z) (d : dir) (name : list Z) (i : inode) : res (Z * dir) :=
  if truth (i_size d mod Z.of_nat (bs sb)) then Ok (- EUCLEAN, d) else
  let! (r, d) := add_blocks (S (length (blocks d))) io d 0 name i in
  match r with
  | Some ret => Ok (ret, d)
  | None =>
      let! (ret, d) := ext2_append_dir_block g d junk in
      if truth ret then Ok (ret, d) else
      let lbn := (length (blocks d) - 1)%nat in
      let! buf := get_block d lbn in
      let! (ret, buf) := ext2_add_dirent_block buf name i in
      let! d := put_block d lbn buf in
      Ok (ret, d)
  end.

(** ["."] and [".."] *)
Definition ext2_init_dir (g : grow) (junk : list Z) (d : dir) (parent : inode) : res (Z * dir) :=
  let len := ext2_dirent_rec_len 1 in
  let! _ := Assert (i_size d =? 0) in
  let! (ret, d) := ext2_append_dir_block g d junk in
  if truth ret then Ok (ret, d) else
  let lbn := (length (blocks d) - 1)%nat in
  let! buf := get_block d lbn in
  let! buf := write_dirent buf 0 (i_ino (d_inode d)) len (ext2_dirent_type (d_inode d)) [46] in
  let! buf := write_dirent buf len (i_ino parent) (bs sb - len) (ext2_dirent_type parent) [46; 46] in
  let! d := put_block d lbn buf in
  Ok (0, d).

(** ** Emptiness and listing *)

Fixpoint empty_loop (fuel : nat) (buf : list Z) (ino : Z) (off end_ : nat) : res Z :=
  if (off <? end_)%nat then
    match fuel with
    | O => Loop
    | S fuel =>
        let! d := ext2_get_dirent buf off end_ in
        match d with
        | inl e => Ok e
        | inr d =>
            if negb (truth (h_ino d)) then empty_loop fuel buf ino (off + h_rec d) end_ else
            let! dot := if Nat.eqb (h_nlen d) 1 then let! n := load_name buf off 1 in Ok (bool_decide (n = [46]) && (h_ino d =? ino)) else Ok false in
            if dot then empty_loop fuel buf ino (off + h_rec d) end_ else
            let! dots := if Nat.eqb (h_nlen d) 2 then let! n := load_name buf off 2 in Ok (bool_decide (n = [46; 46])) else Ok false in
            if dots then empty_loop fuel buf ino (off + h_rec d) end_ else Ok 0
        end
    end
  else Ok 1.
Definition ext2_dir_is_empty_block (d : dir) (buf : list Z) (end_ : nat) : res Z := empty_loop end_ buf (i_ino (d_inode d)) 0 end_.

Fixpoint empty_blocks (fuel : nat) (io : nat → Z) (d : dir) (lbn : nat) : res Z :=
  if Z.of_nat (lbn * bs sb) <? i_size d then
    match fuel with
    | O => Loop
    | S fuel =>
        let! p := ext2_get_dir_page io d lbn in
        match p with
        | inl e => Ok e
        | inr None => empty_blocks fuel io d (S lbn)
        | inr (Some buf) =>
            let! ret := ext2_dir_is_empty_block d buf (block_end d lbn) in
            if negb (ret =? 1) then Ok ret else empty_blocks fuel io d (S lbn)
        end
    end
  else Ok 1.
Definition ext2_dir_is_empty (io : nat → Z) (d : dir) : res Z := empty_blocks (S (length (blocks d))) io d 0.
End dir.

(** ** Bytes of a block *)

Definition sub (buf : list Z) (off n : nat) : list Z := take n (drop off buf).

Lemma sub_lookup buf off n i : sub buf off n !! i = if decide (i < n)%nat then buf !! (off + i)%nat else None.
Proof. unfold sub. rewrite lookup_take. case_decide; [by rewrite lookup_drop|done]. Qed.

Lemma sub_length buf off n : (off + n ≤ length buf)%nat → length (sub buf off n) = n.
Proof. intros. unfold sub. rewrite length_take, length_drop. lia. Qed.

Lemma peek_ok buf off n : (off + n ≤ length buf)%nat → peek buf off n = Ok (sub buf off n).
Proof. intros. unfold peek. by rewrite decide_True. Qed.

Lemma poke_lookup (buf : list Z) off (l : list Z) i :
  (off + length l ≤ length buf)%nat →
  (take off buf ++ l ++ drop (off + length l) buf) !! i = if decide (off ≤ i < off + length l)%nat then l !! (i - off)%nat else buf !! i.
Proof.
  intros Hl. destruct (decide (i < off)%nat).
  { rewrite decide_False by lia. rewrite lookup_app_l by (rewrite length_take; lia). by rewrite lookup_take_lt by lia. }
  rewrite lookup_app_r by (rewrite length_take; lia). rewrite length_take, Nat.min_l by lia. case_decide.
  - by rewrite lookup_app_l by lia.
  - rewrite lookup_app_r, lookup_drop by lia. f_equal. lia.
Qed.

(** A store: its bytes are there, the others as before. *)
Lemma poke_ok buf off l :
  (off + length l ≤ length buf)%nat →
  ∃ buf', poke buf off l = Ok buf' ∧ length buf' = length buf ∧ sub buf' off (length l) = l ∧
    (∀ o n, (o + n ≤ off ∨ off + length l ≤ o)%nat → sub buf' o n = sub buf o n) ∧
    (∀ i, ¬ (off ≤ i < off + length l)%nat → buf' !! i = buf !! i).
Proof.
  intros Hl. unfold poke. rewrite decide_True by done. eexists. split; [done|]. split_and!.
  - rewrite !length_app, length_take, length_drop. lia.
  - apply list_eq. intros i. rewrite sub_lookup. case_decide.
    + rewrite poke_lookup, decide_True by lia. f_equal. lia.
    + symmetry. apply lookup_ge_None. lia.
  - intros o n Ho. apply list_eq. intros i. rewrite !sub_lookup. case_decide; [|done]. by rewrite poke_lookup, decide_False by lia.
  - intros i Hi. by rewrite poke_lookup, decide_False by lia.
Qed.

Lemma sub_app buf off n k : sub buf off (n + k) = sub buf off n ++ sub buf (off + n) k.
Proof. unfold sub. by rewrite <-drop_drop, take_take_drop. Qed.

(** ** Records *)

Record entry := Entry { e_ino : Z; e_rec : nat; e_type : Z; e_name : list Z }.

Definition header_bytes (e : entry) : list Z :=
  le32 (e_ino e) ++ le16 (Z.of_nat (e_rec e)) ++ [Z.of_nat (length (e_name e))] ++ [e_type e].

(** The record at [off]; the bytes behind the name are not constrained. *)
Definition entry_at (buf : list Z) (off : nat) (e : entry) : Prop :=
  sub buf off HDR = header_bytes e ∧ sub buf (off + HDR) (length (e_name e)) = e_name e.

(** The records [l] fill the bytes from [off] to [end_]. *)
Fixpoint chain (buf : list Z) (off : nat) (l : list entry) (end_ : nat) : Prop :=
  match l with [] => off = end_ | e :: l => entry_at buf off e ∧ chain buf (off + e_rec e) l end_ end.

Fixpoint total (l : list entry) : nat := match l with [] => 0 | e :: l => e_rec e + total l end.

Lemma chain_total buf off l end_ : chain buf off l end_ → end_ = (off + total l)%nat.
Proof.
  revert off. induction l as [|e l IH]; intros off; simpl; [lia|]. intros [_ Hc]. apply IH in Hc. lia.
Qed.

Lemma total_app l k : total (l ++ k) = (total l + total k)%nat.
Proof. induction l as [|e l IH]; simpl; lia. Qed.

Lemma chain_app buf off l k end_ : chain buf off (l ++ k) end_ ↔ chain buf off l (off + total l)%nat ∧ chain buf (off + total l) k end_.
Proof.
  revert off. induction l as [|e l IH]; intros off; simpl.
  - rewrite Nat.add_0_r. tauto.
  - rewrite IH, Nat.add_assoc. tauto.
Qed.

(** A chain survives changes outside its bytes. *)
Lemma records_agree buf buf' off l end_ :
  (∀ i, (off ≤ i < end_)%nat → buf' !! i = buf !! i) → Forall (λ e, HDR + length (e_name e) ≤ e_rec e)%nat l →
  chain buf off l end_ → chain buf' off l end_.
Proof.
  revert off. induction l as [|e l IH]; intros off Hb Hl; simpl; [done|]. intros [[Hh Hn] Hc].
  apply Forall_cons in Hl as [He Hl]. pose proof (chain_total _ _ _ _ Hc) as Ht. split; [split|].
  - rewrite <-Hh. apply list_eq. intros i. rewrite !sub_lookup. case_decide; [|done]. apply Hb. lia.
  - rewrite <-Hn at 2. apply list_eq. intros i. rewrite !sub_lookup. case_decide; [|done]. apply Hb. lia.
  - apply IH; [|done|done]. intros i Hi. apply Hb. lia.
Qed.

Section dir.
Context (sb : dir_sb).
Context (Hcount : 0 ≤ inodes_count sb < 2 ^ 32) (Hbs : (1024 ≤ bs sb ≤ 4096)%nat) (Hbs4 : (bs sb mod 4 = 0)%nat).

Record entry_wf (e : entry) : Prop := {
  w_ino : 0 ≤ e_ino e ≤ inodes_count sb;
  w_rec : (HDR + length (e_name e) ≤ e_rec e ≤ 4096)%nat;
  w_rec4 : (e_rec e mod 4 = 0)%nat;
  w_name : (length (e_name e) < 256)%nat
}.

Lemma entries_fit l : Forall entry_wf l → Forall (λ e, HDR + length (e_name e) ≤ e_rec e)%nat l.
Proof. intros Hl. eapply Forall_impl; [done|]. intros e He. apply He. Qed.

Lemma load_header_at buf off e :
  entry_wf e → entry_at buf off e → (off + HDR ≤ length buf)%nat →
  load_header buf off = Ok (Header (e_ino e) (e_rec e) (length (e_name e)) (e_type e)).
Proof.
  intros [Hi Hr _ Hn] [Hh _] Hl. unfold load_header. rewrite peek_ok by done. cbn [res_bind]. rewrite Hh. f_equal. f_equal.
  - change (of_le (le32 (e_ino e)) = e_ino e). apply le32_of. lia.
  - change (Z.to_nat (of_le (le16 (Z.of_nat (e_rec e)))) = e_rec e). rewrite le16_of by lia. lia.
  - change (Z.to_nat (Z.of_nat (length (e_name e)) + 256 * 0) = length (e_name e)). lia.
  - change (e_type e + 256 * 0 = e_type e). lia.
Qed.

Lemma get_dirent_at buf off e end_ :
  entry_wf e → entry_at buf off e → (off + e_rec e ≤ end_)%nat → (end_ ≤ length buf)%nat →
  ext2_get_dirent sb buf off end_ = Ok (inr (Header (e_ino e) (e_rec e) (length (e_name e)) (e_type e))).
Proof.
  intros Hw He Hle Hl. pose proof Hw as [Hi Hr Hr4 Hn]. unfold ext2_get_dirent. unfold HDR in *.
  rewrite (proj2 (Nat.ltb_ge _ _)) by lia. rewrite (load_header_at buf off e) by (done || unfold HDR; lia). cbn [res_bind h_rec h_nlen h_ino].
  rewrite Hr4, !(proj2 (Nat.ltb_ge _ _)) by lia. cbn [Nat.eqb negb orb].
  rewrite Z.gtb_ltb, (proj2 (Z.ltb_ge _ _)) by lia. done.
Qed.

(** ** Searching a block *)

Definition used_by (name : list Z) (e : entry) : Prop := e_ino e ≠ 0 ∧ e_name e = name.
#[local] Instance used_by_dec name e : Decision (used_by name e).
Proof. unfold used_by. apply _. Defined.

(** The offset of the first record in use with the name. *)
Fixpoint offset_of (off : nat) (l : list entry) (name : list Z) : option nat :=
  match l with [] => None | e :: l => if decide (used_by name e) then Some off else offset_of (off + e_rec e) l name end.

Lemma find_dirent_loop_spec fuel buf off l end_ name :
  Forall entry_wf l → chain buf off l end_ → (end_ ≤ length buf)%nat → (end_ - off ≤ fuel)%nat →
  find_loop sb fuel buf off end_ name = Ok (match offset_of off l name with Some o => inr o | None => inl (- ENOENT) end).
Proof.
  revert fuel off. induction l as [|e l IH]; intros fuel off Hl Hc Hlen Hf.
  { simpl in Hc. subst end_. destruct fuel; simpl; by rewrite Nat.ltb_irrefl. }
  apply Forall_cons in Hl as [Hw Hl]. destruct Hc as [He Hc]. pose proof (chain_total _ _ _ _ Hc) as Ht. pose proof Hw as [Hi Hr _ Hn]. unfold HDR in *.
  destruct fuel as [|fuel]; [lia|]. cbn [find_loop offset_of]. rewrite (proj2 (Nat.ltb_lt _ _)) by lia.
  rewrite (get_dirent_at buf off e end_) by (done || lia). cbn [res_bind h_ino h_nlen h_rec].
  assert ((if truth (e_ino e) && Nat.eqb (length (e_name e)) (length name)
    then let! n := load_name buf off (length name) in Ok (bool_decide (n = name)) else Ok false) = Ok (bool_decide (used_by name e))) as ->.
  { unfold truth. destruct (Z.eqb_spec (e_ino e) 0) as [E|E]; cbn [negb andb].
    - rewrite bool_decide_eq_false_2; [done|]. by intros [? _].
    - destruct (Nat.eqb_spec (length (e_name e)) (length name)) as [El|El].
      + unfold load_name. rewrite peek_ok by (unfold HDR; lia). cbn [res_bind]. destruct He as [_ Hnm]. unfold HDR in Hnm. rewrite El in Hnm.
        unfold HDR. rewrite Hnm. f_equal. apply bool_decide_ext. unfold used_by. tauto.
      + rewrite bool_decide_eq_false_2; [done|]. intros [_ Hnm]. by rewrite Hnm in El. }
  cbn [res_bind]. case_bool_decide; [by rewrite decide_True|]. rewrite decide_False by done. apply IH; [done|done|done|lia].
Qed.

Lemma offset_of_Some off l name o :
  offset_of off l name = Some o ↔
  ∃ l1 e l2, l = l1 ++ e :: l2 ∧ o = (off + total l1)%nat ∧ used_by name e ∧ Forall (λ e, ¬ used_by name e) l1.
Proof.
  revert off. induction l as [|e l IH]; intros off; simpl; [split; [done|by intros ([|]&?&?&?&_)]|].
  case_decide as Hu.
  - split.
    + intros [= <-]. exists [], e, l. split_and!; [done|simpl; lia|done|constructor].
    + intros ([|e1 l1]&e'&l2&Heq&->&_&Hn); simplify_eq/=; [f_equal; lia|]. by apply Forall_cons in Hn as [? _].
  - rewrite IH. split.
    + intros (l1&e'&l2&->&->&Hu'&Hn). exists (e :: l1), e', l2. split_and!; [done|simpl; lia|done|by constructor].
    + intros ([|e1 l1]&e'&l2&Heq&->&Hu'&Hn); simplify_eq/=; [done|]. apply Forall_cons in Hn as [_ Hn]. exists l1, e', l2. split_and!; [done|simpl; lia|done..].
Qed.

Lemma offset_of_None off l name : offset_of off l name = None ↔ Forall (λ e, ¬ used_by name e) l.
Proof.
  revert off. induction l as [|e l IH]; intros off; simpl; [split; [constructor|done]|].
  rewrite Forall_cons. case_decide; [naive_solver|]. rewrite IH. tauto.
Qed.

(** ** Adding to a block *)

Lemma rec_len_spec n : (n ≤ 4096)%nat → (ext2_dirent_rec_len n mod 4 = 0)%nat ∧ (HDR + n ≤ ext2_dirent_rec_len n < HDR + n + 4)%nat.
Proof.
  intros Hn. unfold ext2_dirent_rec_len, HDR. destruct (ALIGN_UP_spec (Z.of_nat 8 + Z.of_nat n) 2) as [Hm Hr]; [lia|lia|lia|].
  change (2 ^ 2) with 4 in *. set (y := ALIGN_UP _ _) in *. split; [|lia].
  apply Nat2Z.inj. rewrite Nat2Z.inj_mod. rewrite Z2Nat.id by lia. done.
Qed.

Lemma write_dirent_ok buf off ino rec_len type name :
  (off + HDR + length name ≤ length buf)%nat → (length name < 256)%nat →
  ∃ buf', write_dirent buf off ino rec_len type name = Ok buf' ∧ length buf' = length buf ∧
    entry_at buf' off (Entry ino rec_len type name) ∧
    (∀ i, ¬ (off ≤ i < off + HDR + length name)%nat → buf' !! i = buf !! i).
Proof.
  unfold HDR. intros Hl Hn. unfold write_dirent.
  destruct (poke_ok buf off (le32 ino)) as (b1&->&L1&S1&O1&I1); [simpl; lia|]. cbn [res_bind].
  destruct (poke_ok b1 (off + 4) (le16 (Z.of_nat rec_len))) as (b2&->&L2&S2&O2&I2); [simpl; lia|]. cbn [res_bind].
  destruct (poke_ok b2 (off + 6) [u8 (Z.of_nat (length name))]) as (b3&->&L3&S3&O3&I3); [simpl; lia|]. cbn [res_bind].
  destruct (poke_ok b3 (off + 7) [type]) as (b4&->&L4&S4&O4&I4); [simpl; lia|]. cbn [res_bind]. unfold HDR.
  destruct (poke_ok b4 (off + 8) name) as (b5&->&L5&S5&O5&I5); [lia|].
  change (length (le32 ino)) with 4%nat in *. change (length (le16 (Z.of_nat rec_len))) with 2%nat in *. cbn [length] in *.
  exists b5. split_and!; [done|lia| |].
  - split; [|done]. unfold HDR, header_bytes. cbn [e_ino e_rec e_type e_name].
    change 8%nat with (4 + (2 + (1 + 1)))%nat. rewrite !sub_app. f_equal; [|f_equal; [|f_equal]].
    + rewrite O5, O4, O3, O2 by lia. done.
    + rewrite O5, O4, O3 by lia. done.
    + rewrite <-!Nat.add_assoc. cbn [Nat.add]. rewrite O5, O4 by lia. rewrite S3. unfold u8, wrap. rewrite Z.mod_small by lia. done.
    + rewrite <-!Nat.add_assoc. cbn [Nat.add]. rewrite O5 by lia. done.
  - intros i Hi. rewrite I5, I4, I3, I2, I1 by (simpl; lia). done.
Qed.

(** The record [e] gives up its free bytes to a new one. *)
Definition with_new (e : entry) (ino type : Z) (name : list Z) : list entry :=
  if decide (e_ino e = 0) then [Entry ino (e_rec e) type name]
  else let used := ext2_dirent_rec_len (length (e_name e)) in
       [Entry (e_ino e) used (e_type e) (e_name e); Entry ino (e_rec e - used) type name].

Definition free_bytes (e : entry) : nat := e_rec e - if decide (e_ino e = 0) then 0 else ext2_dirent_rec_len (length (e_name e)).

Lemma used_le e : entry_wf e → (ext2_dirent_rec_len (length (e_name e)) ≤ e_rec e)%nat.
Proof.
  intros [_ Hr Hr4 Hn]. destruct (rec_len_spec (length (e_name e))) as [H4 Hb]; [lia|]. unfold HDR in *.
  set (r := ext2_dirent_rec_len (length (e_name e))) in *. pose proof (Nat.div_mod_eq r 4). pose proof (Nat.div_mod_eq (e_rec e) 4). lia.
Qed.

Lemma with_new_wf e ino type name :
  entry_wf e → (ext2_dirent_rec_len (length name) ≤ free_bytes e)%nat → 0 ≤ ino ≤ inodes_count sb → (length name < 256)%nat →
  Forall entry_wf (with_new e ino type name) ∧ total (with_new e ino type name) = e_rec e.
Proof.
  intros He Hfree Hino Hn. pose proof (used_le e He) as Hle. destruct (rec_len_spec (length name)) as [H4 Hb]; [lia|].
  destruct (rec_len_spec (length (e_name e))) as [H4e Hbe]; [destruct He; lia|]. unfold free_bytes, with_new, HDR in *. destruct He as [Hi Hr Hr4 Hne]. unfold HDR in *.
  case_decide; simpl.
  - split; [|lia]. apply Forall_singleton. split; cbn [e_ino e_rec e_type e_name]; unfold HDR; lia || done.
  - split; [|lia]. apply Forall_cons. split; [split; cbn [e_ino e_rec e_type e_name]; unfold HDR; lia || done|]. apply Forall_singleton. split; cbn [e_ino e_rec e_type e_name]; unfold HDR; [lia|lia| |lia].
    set (r := ext2_dirent_rec_len (length (e_name e))) in *. pose proof (Nat.div_mod_eq r 4). pose proof (Nat.div_mod_eq (e_rec e) 4).
    replace (e_rec e - r)%nat with ((e_rec e / 4 - r / 4) * 4)%nat by lia. apply Nat.Div0.mod_mul.
Qed.

(** The stores of a successful addition at the record [e]. *)
Lemma add_here buf off e end_ ino type name :
  entry_wf e → entry_at buf off e → (off + e_rec e ≤ end_)%nat → (end_ ≤ length buf)%nat →
  (ext2_dirent_rec_len (length name) ≤ free_bytes e)%nat → (length name < 256)%nat →
  ∃ buf', (let! (slot, buf) :=
             (if Nat.eqb (if truth (e_ino e) then ext2_dirent_rec_len (length (e_name e)) else 0) 0 then Ok (off, buf)
              else let! buf := poke buf (off + 4) (le16 (Z.of_nat (if truth (e_ino e) then ext2_dirent_rec_len (length (e_name e)) else 0%nat))) in
                   Ok ((off + if truth (e_ino e) then ext2_dirent_rec_len (length (e_name e)) else 0)%nat, buf)) in
           write_dirent buf slot ino (e_rec e - if truth (e_ino e) then ext2_dirent_rec_len (length (e_name e)) else 0) type name) = Ok buf' ∧
    length buf' = length buf ∧ chain buf' off (with_new e ino type name) (off + e_rec e) ∧
    (∀ i, ¬ (off ≤ i < off + e_rec e)%nat → buf' !! i = buf !! i).
Proof.
  intros He Hat Hle Hl Hfree Hn. pose proof (used_le e He) as Hu. destruct (rec_len_spec (length name)) as [_ Hb]; [lia|].
  destruct (rec_len_spec (length (e_name e))) as [_ Hbe]; [destruct He; lia|].
  unfold free_bytes, with_new in *. unfold truth, HDR in *. destruct (Z.eqb_spec (e_ino e) 0) as [E|E]; cbn [negb].
  - rewrite decide_True in Hfree by done. rewrite decide_True by done. cbn [Nat.eqb res_bind]. rewrite Nat.sub_0_r in *.
    destruct (write_dirent_ok buf off ino (e_rec e) type name) as (b&->&Lb&Eb&Ob); unfold HDR in *; [lia|done|].
    exists b. split_and!; [done|done| |intros i Hi; apply Ob; lia]. simpl. split; [done|lia].
  - rewrite decide_False in Hfree by done. rewrite decide_False by done. set (u := ext2_dirent_rec_len (length (e_name e))) in *.
    rewrite (proj2 (Nat.eqb_neq u 0)) by lia. destruct (poke_ok buf (off + 4) (le16 (Z.of_nat u))) as (b1&->&L1&S1&O1&I1); [simpl; lia|].
    change (length (le16 (Z.of_nat u))) with 2%nat in *. cbn [res_bind].
    destruct (write_dirent_ok b1 (off + u) ino (e_rec e - u) type name) as (b&->&Lb&Eb&Ob); unfold HDR in *; [lia|done|].
    exists b. split_and!; [done|lia| |intros i Hi; rewrite Ob, I1 by lia; done]. simpl. split_and!; [|done|lia].
    destruct Hat as [Hh Hnm]. unfold HDR, header_bytes in *. split; unfold HDR, header_bytes; cbn [e_ino e_rec e_type e_name].
    + assert (sub b off 8 = sub b1 off 8) as ->.
      { apply list_eq. intros i. rewrite !sub_lookup. case_decide; [|done]. apply Ob. lia. }
      change 8%nat with (4 + (2 + 2))%nat in Hh |- *. rewrite !sub_app in Hh |- *.
      assert (sub buf off 4 = le32 (e_ino e) ∧ sub buf (off + 4) 2 = le16 (Z.of_nat (e_rec e)) ∧
              sub buf (off + 4 + 2) 2 = [Z.of_nat (length (e_name e))] ++ [e_type e]) as (H1&H2&H3).
      { apply app_inj_1 in Hh as [H1 Hh]; [|rewrite sub_length by lia; done]. apply app_inj_1 in Hh as [H2 H3]; [done|rewrite sub_length by lia; done]. }
      rewrite (O1 off 4%nat), (O1 (off + 4 + 2)%nat 2%nat), S1, H1, H3 by lia. done.
    + rewrite <-Hnm at 2. apply list_eq. intros i. rewrite !sub_lookup. case_decide; [|done]. rewrite Ob, I1 by lia. done.
Qed.

Lemma add_loop_spec fuel buf off l name i :
  Forall entry_wf l → chain buf off l (bs sb) → length buf = bs sb → (bs sb - off ≤ fuel)%nat →
  0 ≤ i_ino i ≤ inodes_count sb → (length name < 256)%nat →
  (add_loop sb fuel buf off name i = Ok (- ENOSPC, buf) ∧ Forall (λ e, free_bytes e < ext2_dirent_rec_len (length name))%nat l) ∨
  ∃ l1 e l2 buf', l = l1 ++ e :: l2 ∧ add_loop sb fuel buf off name i = Ok (0, buf') ∧ length buf' = bs sb ∧
    chain buf' off (l1 ++ with_new e (i_ino i) (ext2_dirent_type sb i) name ++ l2) (bs sb) ∧
    (ext2_dirent_rec_len (length name) ≤ free_bytes e)%nat ∧ (∀ j, (j < off)%nat → buf' !! j = buf !! j).
Proof.
  revert fuel buf off. induction l as [|e l IH]; intros fuel buf off Hl Hc Hlen Hf Hino Hn.
  { simpl in Hc. left. split; [|constructor]. rewrite Hc. destruct fuel; cbn [add_loop]; by rewrite Nat.ltb_irrefl. }
  apply Forall_cons in Hl as [He Hl]. destruct Hc as [Hat Hc]. pose proof (chain_total _ _ _ _ Hc) as Ht. pose proof He as [_ Hr _ _]. unfold HDR in Hr.
  destruct fuel as [|fuel]; [lia|]. cbn [add_loop]. rewrite (proj2 (Nat.ltb_lt _ _)) by lia.
  rewrite (get_dirent_at buf off e (bs sb)) by (done || lia). cbn [res_bind h_ino h_nlen h_rec].
  assert (e_rec e - (if truth (e_ino e) then ext2_dirent_rec_len (length (e_name e)) else 0) = free_bytes e)%nat as Hfb.
  { unfold free_bytes, truth. destruct (Z.eqb_spec (e_ino e) 0); [by rewrite decide_True|by rewrite decide_False]. }
  rewrite Hfb. destruct (Nat.leb_spec (ext2_dirent_rec_len (length name)) (free_bytes e)) as [Hroom|Hno].
  - right. destruct (add_here buf off e (bs sb) (i_ino i) (ext2_dirent_type sb i) name) as (buf'&Hex&Hl'&Hc'&Ho'); [done|done|lia|lia|done|done|].
    rewrite Hfb in Hex. exists [], e, l, buf'. split; [done|]. split.
    { destruct (Nat.eqb _ 0); [cbn [res_bind] in Hex |- *; by rewrite Hex|].
      destruct (poke buf (off + 4) _); [|done..]. cbn [res_bind] in Hex |- *. by rewrite Hex. }
    split_and!; [lia| |done|intros j Hj; apply Ho'; lia]. simpl. rewrite chain_app.
    destruct (with_new_wf e (i_ino i) (ext2_dirent_type sb i) name He Hroom Hino Hn) as [_ ->]. split; [done|].
    eapply records_agree; [|by apply entries_fit|done]. intros j Hj. apply Ho'. lia.
  - destruct (IH fuel buf (off + e_rec e)%nat Hl Hc Hlen ltac:(lia) Hino Hn) as [[Ha Hall]|(l1&e1&l2&buf'&->&Ha&Hl'&Hc'&Hroom&Ho')].
    + left. split; [done|]. by constructor.
    + right. exists (e :: l1), e1, l2, buf'. split_and!; [done|done|done| |done|intros j Hj; apply Ho'; lia]. simpl. split; [|done].
      destruct Hat as [Hh Hnm]. unfold HDR in *. split; unfold HDR.
      * rewrite <-Hh. apply list_eq. intros j. rewrite !sub_lookup. case_decide; [|done]. apply Ho'. lia.
      * rewrite <-Hnm at 2. apply list_eq. intros j. rewrite !sub_lookup. case_decide; [|done]. apply Ho'. lia.
Qed.

(** ** Changing a block *)

Lemma prev_loop_spec fuel buf cur l1 e l2 end_ prev :
  Forall entry_wf (l1 ++ e :: l2) → chain buf cur (l1 ++ e :: l2) end_ → (end_ ≤ length buf)%nat → (total l1 ≤ fuel)%nat →
  prev_loop fuel buf cur (cur + total l1) prev =
    Ok ((cur + total l1)%nat, match last l1 with Some p => Some (cur + total l1 - e_rec p)%nat | None => prev end).
Proof.
  revert fuel cur prev. induction l1 as [|e1 l1 IH]; intros fuel cur prev Hl Hc Hlen Hf.
  { simpl. rewrite Nat.add_0_r. destruct fuel; simpl; by rewrite Nat.ltb_irrefl. }
  cbn [app] in *. apply Forall_cons in Hl as [He Hl]. destruct Hc as [Hat Hc]. pose proof (chain_total _ _ _ _ Hc) as Ht. pose proof He as [_ Hr _ _]. unfold HDR in Hr.
  cbn [total] in *. destruct fuel as [|fuel]; [lia|]. cbn [prev_loop]. rewrite (proj2 (Nat.ltb_lt _ _)) by lia.
  rewrite (load_header_at buf cur e1) by (done || unfold HDR; lia). cbn [res_bind h_rec].
  replace (cur + (e_rec e1 + total l1))%nat with (cur + e_rec e1 + total l1)%nat by lia. rewrite IH by (done || lia).
  f_equal. f_equal. rewrite last_cons. destruct (last l1) eqn:El; [done|]. apply last_None in El as ->. simpl. f_equal. lia.
Qed.

(** Another header for the record at [off], its name and the bytes around kept. *)
Lemma entry_rehead buf buf' off e e' :
  e_name e' = e_name e → entry_at buf off e → sub buf' off HDR = header_bytes e' →
  (∀ i, (off + HDR ≤ i < off + HDR + length (e_name e))%nat → buf' !! i = buf !! i) → entry_at buf' off e'.
Proof.
  intros Hn [_ Hnm] Hh Ho. split; [done|]. rewrite Hn. transitivity (sub buf (off + HDR) (length (e_name e))); [|done].
  apply list_eq. intros i. rewrite !sub_lookup. case_decide; [apply Ho; lia|done].
Qed.

Definition with_ino (ino : Z) (e : entry) : entry := Entry ino (e_rec e) (e_type e) (e_name e).
Definition with_rec (rec_len : nat) (e : entry) : entry := Entry (e_ino e) rec_len (e_type e) (e_name e).

(** The fields of a header, for the stores into one. *)
Lemma header_split buf off e :
  (off + HDR ≤ length buf)%nat → sub buf off HDR = header_bytes e ↔
  sub buf off 4 = le32 (e_ino e) ∧ sub buf (off + 4) 2 = le16 (Z.of_nat (e_rec e)) ∧
  sub buf (off + 6) 1 = [Z.of_nat (length (e_name e))] ∧ sub buf (off + 7) 1 = [e_type e].
Proof.
  unfold HDR, header_bytes. intros Hl. change 8%nat with (4 + (2 + (1 + 1)))%nat at 1. rewrite !sub_app, <-!Nat.add_assoc. cbn [Nat.add]. split.
  - intros H. apply app_inj_1 in H as [H1 H]; [|rewrite sub_length by lia; done]. apply app_inj_1 in H as [H2 H]; [|rewrite sub_length by lia; done].
    by apply app_inj_1 in H as [H3 H]; [|rewrite sub_length by lia; done].
  - by intros (->&->&->&->).
Qed.

(** Storing the inode number, and the length, of the record at [off]. *)
Lemma poke_ino buf off e ino :
  entry_wf e → entry_at buf off e → (off + e_rec e ≤ length buf)%nat →
  ∃ buf', poke buf off (le32 ino) = Ok buf' ∧ length buf' = length buf ∧ entry_at buf' off (with_ino ino e) ∧
    (∀ i, ¬ (off ≤ i < off + 4)%nat → buf' !! i = buf !! i).
Proof.
  intros [_ Hr _ _] Hat Hl. unfold HDR in Hr. destruct (poke_ok buf off (le32 ino)) as (b&->&Lb&Sb&Ob&Ib); [simpl; lia|].
  change (length (le32 ino)) with 4%nat in *. exists b. split_and!; [done|done| |done].
  apply (entry_rehead buf b off e); [done|exact Hat| |intros i Hi; apply Ib; unfold HDR in Hi; lia]. destruct Hat as [Hh _].
  rewrite header_split in Hh |- * by (unfold HDR; lia). destruct Hh as (H1&H2&H3&H4).
  split_and!; cbn [with_ino with_rec e_ino e_rec e_name e_type]; done || (rewrite Ob by lia; done).
Qed.

Lemma poke_rec buf off e n :
  entry_wf e → entry_at buf off e → (off + e_rec e ≤ length buf)%nat →
  ∃ buf', poke buf (off + 4) (le16 (Z.of_nat n)) = Ok buf' ∧ length buf' = length buf ∧ entry_at buf' off (with_rec n e) ∧
    (∀ i, ¬ (off + 4 ≤ i < off + 6)%nat → buf' !! i = buf !! i).
Proof.
  intros [_ Hr _ _] Hat Hl. unfold HDR in Hr. destruct (poke_ok buf (off + 4) (le16 (Z.of_nat n))) as (b&->&Lb&Sb&Ob&Ib); [simpl; lia|].
  change (length (le16 (Z.of_nat n))) with 2%nat in *. exists b. split_and!; [done|done| |intros i Hi; apply Ib; lia].
  apply (entry_rehead buf b off e); [done|exact Hat| |intros i Hi; apply Ib; unfold HDR in Hi; lia]. destruct Hat as [Hh _].
  rewrite header_split in Hh |- * by (unfold HDR; lia). destruct Hh as (H1&H2&H3&H4).
  split_and!; cbn [with_ino with_rec e_ino e_rec e_name e_type]; done || (rewrite Ob by lia; done).
Qed.

(** The records after the one behind [l1] was removed: the one before it, if any, takes its bytes. *)
Definition removed (l1 : list entry) (e : entry) (l2 : list entry) : list entry :=
  match last l1 with
  | Some p => take (length l1 - 1) l1 ++ with_rec (e_rec p + e_rec e) p :: l2
  | None => with_ino 0 e :: l2
  end.

(** A block: its bytes are the records [l]. *)
Record block_ok (buf : list Z) (l : list entry) : Prop := {
  b_len : length buf = bs sb;
  b_wf : Forall entry_wf l;
  b_chain : chain buf 0 l (bs sb)
}.

(** Stores inside the bytes of some records leave the chains on both sides. *)
Lemma chain_around buf buf' l1 k l2 l' end_ :
  Forall entry_wf (l1 ++ k ++ l2) → chain buf 0 (l1 ++ k ++ l2) end_ →
  (∀ i, ¬ (total l1 ≤ i < total l1 + total k)%nat → buf' !! i = buf !! i) →
  chain buf' (total l1) l' (total l1 + total k) → chain buf' 0 (l1 ++ l' ++ l2) end_.
Proof.
  intros Hwf Hc Ho Hl'. rewrite !Forall_app in Hwf. destruct Hwf as (Hw1&_&Hw2). rewrite !chain_app in Hc. destruct Hc as (Hc1&_&Hc2). simpl in *.
  pose proof (chain_total _ _ _ _ Hl') as Ht. rewrite !chain_app. simpl. split_and!.
  - eapply records_agree; [|by apply entries_fit|done]. intros i Hi. apply Ho. lia.
  - by rewrite <-Ht.
  - rewrite <-Ht. eapply records_agree; [|by apply entries_fit|done]. intros i Hi. apply Ho. lia.
Qed.

Lemma block_record buf l1 e l2 :
  block_ok buf (l1 ++ e :: l2) →
  entry_wf e ∧ entry_at buf (total l1) e ∧ (total l1 + e_rec e + total l2 = bs sb)%nat.
Proof.
  intros [Hl Hw Hc]. pose proof (chain_total _ _ _ _ Hc) as Ht. rewrite total_app in Ht. simpl in Ht.
  apply Forall_app in Hw as [_ [He _]%Forall_cons]. apply chain_app in Hc as [_ [Hat _]]. simpl in Hat. split_and!; [done|done|lia].
Qed.

Lemma delete_bytes buf l1 e l2 :
  block_ok buf (l1 ++ e :: l2) →
  ∃ buf', (let! (cur, prev) := prev_loop (total l1) buf 0 (total l1) None in
           let! h := load_header buf cur in
           let! buf := match prev with
             | Some p => let! hp := load_header buf p in poke buf (p + 4) (le16 (u16 (Z.of_nat (h_rec hp) + Z.of_nat (h_rec h))))
             | None => Ok buf
             end in
           poke buf cur (le32 0)) = Ok buf' ∧ block_ok buf' (removed l1 e l2).
Proof.
  intros Hb. pose proof Hb as [Hl Hw Hc]. destruct (block_record _ _ _ _ Hb) as (He&Hat&Ht). pose proof He as [_ Hr Hr4 _]. unfold HDR in Hr.
  pose proof (prev_loop_spec (total l1) buf 0 l1 e l2 (bs sb) None Hw Hc ltac:(lia) ltac:(lia)) as Hp. cbn [Nat.add] in Hp.
  rewrite Hp. cbn [res_bind]. rewrite (load_header_at buf (total l1) e) by (done || unfold HDR; lia). cbn [res_bind h_rec].
  unfold removed. destruct (last l1) as [p|] eqn:El.
  - apply last_Some in El as [k ->]. rewrite total_app in *. simpl total in *. rewrite <-app_assoc in Hb, Hw, Hc. cbn [app] in Hb, Hw, Hc.
    destruct (block_record _ _ _ _ Hb) as (Hpw&Hpat&_). pose proof Hpw as [Hpi Hpr Hpr4 Hpn]. unfold HDR in Hpr.
    replace (total k + (e_rec p + 0) - e_rec p)%nat with (total k) by lia.
    rewrite (load_header_at buf (total k) p) by (done || unfold HDR; lia). cbn [res_bind h_rec].
    replace (u16 (Z.of_nat (e_rec p) + Z.of_nat (e_rec e))) with (Z.of_nat (e_rec p + e_rec e)).
    2: { unfold u16, wrap. rewrite Z.mod_small; lia. }
    destruct (poke_rec buf (total k) p (e_rec p + e_rec e) Hpw Hpat) as (b1&->&L1&E1&O1); [lia|]. cbn [res_bind].
    destruct (poke_ok b1 (total k + (e_rec p + 0)) (le32 0)) as (b2&->&L2&_&_&O2); [simpl; lia|]. change (length (le32 0)) with 4%nat in O2.
    exists b2. split; [done|]. rewrite length_app. simpl length. replace (length k + 1 - 1)%nat with (length k) by lia. rewrite take_app_length.
    assert (entry_wf (with_rec (e_rec p + e_rec e) p)) as Hw'.
    { split; cbn [with_rec e_ino e_rec e_name]; unfold HDR; [done|lia| |done].
      pose proof (Nat.div_mod_eq (e_rec p) 4). pose proof (Nat.div_mod_eq (e_rec e) 4).
      replace (e_rec p + e_rec e)%nat with ((e_rec p / 4 + e_rec e / 4) * 4)%nat by lia. apply Nat.Div0.mod_mul. }
    split; [lia| |].
    + apply Forall_app in Hw as [Hw1 [_ [_ Hw2]%Forall_cons]%Forall_cons]. apply Forall_app. split; [done|]. by constructor.
    + change (k ++ p :: e :: l2) with (k ++ [p; e] ++ l2) in Hw, Hc.
      apply (chain_around buf b2 k [p; e] l2 [with_rec (e_rec p + e_rec e) p]); [done|done| |].
      * simpl. intros i Hi. rewrite O2, O1 by lia. done.
      * simpl. split; [|lia]. destruct E1 as [H1 H2]. unfold HDR in *. split; unfold HDR.
        -- rewrite <-H1. apply list_eq. intros i. rewrite !sub_lookup. case_decide; [|done]. apply O2. lia.
        -- rewrite <-H2 at 2. apply list_eq. intros i. rewrite !sub_lookup. case_decide; [|done]. apply O2. simpl in *. lia.
  - apply last_None in El as ->. simpl in *. destruct (poke_ino buf 0 e 0 He Hat) as (b1&->&L1&E1&O1); [lia|].
    exists b1. split; [done|]. apply Forall_cons in Hw as [_ Hw2]. split; [lia| |].
    + constructor; [|done]. destruct He. split; try done. simpl. lia.
    + apply (chain_around buf b1 [] [e] l2 [with_ino 0 e]); [by constructor|done| |simpl; split; [done|lia]].
      intros i Hi. simpl in Hi. apply O1. lia.
Qed.

Lemma set_bytes buf l1 e l2 i :
  block_ok buf (l1 ++ e :: l2) → 0 ≤ i_ino i ≤ inodes_count sb →
  ∃ buf', (let! buf := poke buf (total l1) (le32 (i_ino i)) in poke buf (total l1 + 7) [ext2_dirent_type sb i]) = Ok buf' ∧
    block_ok buf' (l1 ++ Entry (i_ino i) (e_rec e) (ext2_dirent_type sb i) (e_name e) :: l2).
Proof.
  intros Hb Hino. pose proof Hb as [Hl Hw Hc]. destruct (block_record _ _ _ _ Hb) as (He&Hat&Ht). pose proof He as [Hi Hr Hr4 Hn]. unfold HDR in Hr.
  destruct (poke_ino buf (total l1) e (i_ino i) He Hat) as (b1&->&L1&E1&O1); [lia|]. cbn [res_bind].
  destruct (poke_ok b1 (total l1 + 7) [ext2_dirent_type sb i]) as (b2&->&L2&S2&O2&I2); [simpl; lia|]. cbn [length] in *.
  exists b2. split; [done|]. split; [lia| |].
  - rewrite !Forall_app, !Forall_cons in Hw |- *. destruct Hw as (?&_&?). split_and!; [done| |done]. split; done.
  - apply (chain_around buf b2 l1 [e] l2 [Entry (i_ino i) (e_rec e) (ext2_dirent_type sb i) (e_name e)]); [done|done| |].
    + simpl. intros j Hj. rewrite I2, O1 by lia. done.
    + simpl. split; [|lia]. apply (entry_rehead b1 b2 (total l1) (with_ino (i_ino i) e)); [done|done| |].
      * destruct E1 as [Hh _]. rewrite header_split in Hh |- * by (unfold HDR; lia). destruct Hh as (H1&H2&H3&H4).
        split_and!; cbn [with_ino e_ino e_rec e_name e_type]; done || (rewrite O2 by lia; done).
      * unfold HDR. intros j Hj. apply I2. lia.
Qed.

Lemma add_bytes buf l name i :
  block_ok buf l → 0 ≤ i_ino i ≤ inodes_count sb → (length name < 256)%nat →
  (ext2_add_dirent_block sb buf name i = Ok (- ENOSPC, buf) ∧ Forall (λ e, free_bytes e < ext2_dirent_rec_len (length name))%nat l) ∨
  ∃ l1 e l2 buf', l = l1 ++ e :: l2 ∧ ext2_add_dirent_block sb buf name i = Ok (0, buf') ∧
    block_ok buf' (l1 ++ with_new e (i_ino i) (ext2_dirent_type sb i) name ++ l2).
Proof.
  intros [Hl Hw Hc] Hino Hn. unfold ext2_add_dirent_block.
  destruct (add_loop_spec (bs sb) buf 0 l name i Hw Hc Hl ltac:(lia) Hino Hn) as [?|(l1&e&l2&buf'&->&Ha&Hl'&Hc'&Hroom&_)]; [by left|right].
  exists l1, e, l2, buf'. split_and!; [done|done|]. apply Forall_app in Hw as [Hw1 [He Hw2]%Forall_cons].
  split; [done| |done]. rewrite !Forall_app. split_and!; [done| |done]. by apply with_new_wf.
Qed.

(** ** Directories *)

(** The names in use, with their inode numbers. *)
Definition binding (e : entry) : option (list Z * Z) := if decide (e_ino e = 0) then None else Some (e_name e, e_ino e).
Definition names (l : list entry) : list (list Z * Z) := omap binding l.
Definition contents (es : list (option (list entry))) : list (list Z * Z) := mjoin ((λ o, from_option names [] o) <$> es).

Definition opt_block_ok (b : option (list Z)) (o : option (list entry)) : Prop :=
  match b, o with Some buf, Some l => block_ok buf l | None, None => True | _, _ => False end.

Record dir_ok (d : dir) (es : list (option (list entry))) : Prop := {
  dk_blocks : Forall2 opt_block_ok (blocks d) es;
  dk_size : i_size d = Z.of_nat (length (blocks d) * bs sb)
}.

(** The directory represents the map [c]. *)
Definition represents (d : dir) (c : gmap (list Z) Z) : Prop :=
  ∃ es, dir_ok d es ∧ NoDup (contents es).*1 ∧ c = list_to_map (contents es).

Lemma names_app l k : names (l ++ k) = names l ++ names k.
Proof. apply omap_app. Qed.

Lemma elem_names name ino l : (name, ino) ∈ names l ↔ ∃ e, e ∈ l ∧ used_by name e ∧ e_ino e = ino.
Proof.
  unfold names. rewrite list_elem_of_omap. unfold binding, used_by. split.
  - intros (e&He&Hb). case_decide; simplify_eq. eauto.
  - intros (e&He&[Hi <-]&<-). exists e. split; [done|]. by rewrite decide_False.
Qed.

Lemma contents_app es fs : contents (es ++ fs) = contents es ++ contents fs.
Proof. unfold contents. by rewrite fmap_app, join_app. Qed.
Lemma contents_cons o es : contents (o :: es) = from_option names [] o ++ contents es.
Proof. done. Qed.

Lemma elem_contents name ino es :
  (name, ino) ∈ contents es ↔ ∃ b l e, es !! b = Some (Some l) ∧ e ∈ l ∧ used_by name e ∧ e_ino e = ino.
Proof.
  induction es as [|o es IH].
  { split; [by intros ?%not_elem_of_nil|by intros (?&?&?&?&_)]. }
  rewrite contents_cons, elem_of_app, IH. split.
  - intros [Ho|(b&l&e&Hb&He)]; [|by exists (S b), l, e]. destruct o as [l|]; [|by apply not_elem_of_nil in Ho].
    apply elem_names in Ho as (e&He). by exists 0%nat, l, e.
  - intros ([|b]&l&e&Hb&He); [left|right; eauto]. simpl in Hb. simplify_eq. simpl. apply elem_names. eauto.
Qed.

(** One block is replaced. *)
Lemma contents_insert es b l l' :
  es !! b = Some (Some l) → ∃ r, contents es ≡ₚ names l ++ r ∧ contents (<[b := Some l']> es) ≡ₚ names l' ++ r.
Proof.
  intros Hb. destruct (list_elem_of_split_length es b (Some l) Hb) as (e1&e2&->&->).
  exists (contents e1 ++ contents e2). rewrite insert_app_r_alt, Nat.sub_diag by lia. simpl.
  rewrite !contents_app, !contents_cons. simpl. split; solve_Permutation.
Qed.

Lemma dir_get d es b l : dir_ok d es → es !! b = Some (Some l) → ∃ buf, blocks d !! b = Some (Some buf) ∧ block_ok buf l.
Proof.
  intros [Hf _] Hb. destruct (Forall2_lookup_r _ _ _ _ _ Hf Hb) as ([buf|]&Hbl&Hok); [|done]. eauto.
Qed.

Lemma dir_put d es b l' buf' : dir_ok d es → (b < length (blocks d))%nat → block_ok buf' l' →
  ∃ d', put_block d b buf' = Ok d' ∧ dir_ok d' (<[b := Some l']> es) ∧ d_inode d' = d_inode d ∧ i_size d' = i_size d.
Proof.
  intros [Hf Hs] Hlt Hok. unfold put_block. rewrite arr_set_Ok by done. cbn [res_bind]. eexists. split_and!; [done| |done..].
  split; simpl; [by apply Forall2_insert|by rewrite length_insert].
Qed.

Lemma block_end_full d es lbn : dir_ok d es → (lbn < length (blocks d))%nat → block_end sb d lbn = bs sb.
Proof. intros [_ Hs] Hlt. unfold block_end. rewrite Hs. nia. Qed.

Lemma in_dir d es lbn : dir_ok d es → (Z.of_nat (lbn * bs sb) <? i_size d) = bool_decide (lbn < length (blocks d))%nat.
Proof.
  intros [_ ->]. case_bool_decide; [apply Z.ltb_lt|apply Z.ltb_ge]; nia.
Qed.

Lemma find_blocks_spec fuel io d es lbn name :
  dir_ok d es → (length (blocks d) - lbn < fuel)%nat →
  ∃ r, find_blocks sb fuel io d lbn name = Ok r ∧
    match r with
    | inr (b, off) => ∃ l1 e l2, es !! b = Some (Some (l1 ++ e :: l2)) ∧ off = total l1 ∧ used_by name e
    | inl err => (err = - ENOENT ∧ ∀ b l, (lbn ≤ b)%nat → es !! b = Some (Some l) → Forall (λ e, ¬ used_by name e) l) ∨ (∃ b, io b = err ∧ err ≠ 0)
    end.
Proof.
  intros Hok. revert lbn. induction fuel as [|fuel IH]; intros lbn Hf; [lia|]. cbn [find_blocks]. rewrite (in_dir d es) by done.
  pose proof (Forall2_length _ _ _ (dk_blocks _ _ Hok)) as Hlen.
  case_bool_decide as Hlt.
  2: { eexists. split; [done|]. left. split; [done|]. intros b l Hb Hes. apply lookup_lt_Some in Hes. lia. }
  unfold ext2_get_dir_page, truth. destruct (Z.eqb_spec (io lbn) 0) as [E|E]; cbn [negb res_bind].
  2: { eexists. split; [done|]. right. eauto. }
  destruct (lookup_lt_is_Some_2 es lbn) as [o Ho]; [lia|]. destruct (Forall2_lookup_r _ _ _ _ _ (dk_blocks _ _ Hok) Ho) as (b&Hb&Hbo).
  rewrite (arr_get_Ok _ _ _ Hb). cbn [res_bind]. destruct (IH (S lbn)) as (r&Hr&Hspec); [lia|].
  destruct b as [buf|], o as [l|]; [|done|done|].
  - destruct Hbo as [Hl Hw Hc]. rewrite (block_end_full d es lbn Hok Hlt). unfold ext2_find_dirent_block.
    rewrite (find_dirent_loop_spec (bs sb) buf 0 l (bs sb) name Hw Hc) by lia. cbn [res_bind].
    destruct (offset_of 0 l name) as [off|] eqn:Eo.
    + eexists. split; [done|]. apply offset_of_Some in Eo as (l1&e&l2&->&->&Hu&_). by exists l1, e, l2.
    + rewrite Z.eqb_refl. cbn [negb]. exists r. split; [done|]. destruct r as [err|[b off]]; [|done].
      destruct Hspec as [[-> Hall]|?]; [left|by right]. split; [done|]. intros b l' Hle Hb'. apply offset_of_None in Eo.
      destruct (decide (b = lbn)) as [->|]; [by simplify_eq|]. apply (Hall b); [lia|done].
  - exists r. split; [done|]. destruct r as [err|[b off]]; [|done]. destruct Hspec as [[-> Hall]|?]; [left|by right].
    split; [done|]. intros b l' Hle Hb'. destruct (decide (b = lbn)) as [->|]; [by simplify_eq|]. apply (Hall b); [lia|done].
Qed.

(** ** What a change of one block does to the map *)

Lemma names_removed l1 e l2 : names (removed l1 e l2) = names (l1 ++ l2).
Proof.
  unfold removed. destruct (last l1) as [p|] eqn:El.
  - apply last_Some in El as [k ->]. rewrite length_app. simpl length. replace (length k + 1 - 1)%nat with (length k) by lia.
    rewrite take_app_length, <-app_assoc, !(names_app k). done.
  - apply last_None in El as ->. done.
Qed.

Lemma names_used l1 e l2 name : used_by name e → names (l1 ++ e :: l2) ≡ₚ (name, e_ino e) :: names (l1 ++ l2).
Proof.
  intros [Hi <-]. rewrite !names_app. change (names (e :: l2)) with (names ([e] ++ l2)). rewrite names_app.
  replace (names [e]) with [(e_name e, e_ino e)]; [solve_Permutation|]. unfold names. simpl. unfold binding. by rewrite decide_False.
Qed.

Lemma names_with_new l1 e l2 ino type name :
  ino ≠ 0 → names (l1 ++ with_new e ino type name ++ l2) ≡ₚ (name, ino) :: names (l1 ++ e :: l2).
Proof.
  intros Hi. change (e :: l2) with ([e] ++ l2). rewrite !names_app. unfold names at 2 5. unfold with_new.
  case_decide as E; simpl; unfold binding; simpl.
  - rewrite (decide_True (P := e_ino e = 0)), (decide_False (P := ino = 0)) by done. solve_Permutation.
  - rewrite (decide_False (P := e_ino e = 0)), (decide_False (P := ino = 0)) by done. solve_Permutation.
Qed.

Lemma represents_lookup es name ino :
  NoDup (contents es).*1 → (name, ino) ∈ contents es → (list_to_map (contents es) : gmap (list Z) Z) !! name = Some ino.
Proof. intros. by apply elem_of_list_to_map_1. Qed.

Lemma represents_delete d' es es' name ino r :
  NoDup (contents es).*1 → contents es ≡ₚ (name, ino) :: r → contents es' ≡ₚ r → dir_ok d' es' →
  represents d' (delete name (list_to_map (contents es))).
Proof.
  intros Hnd Hc Hc' Hok. rewrite Hc in Hnd. apply NoDup_cons in Hnd as [Hni Hnd]. exists es'. split; [done|]. split; [by rewrite Hc'|].
  rewrite (list_to_map_proper (contents es') r) by (by rewrite ?Hc').
  rewrite (list_to_map_proper (contents es) ((name, ino) :: r)) by (rewrite ?Hc; by try apply NoDup_cons).
  simpl. rewrite delete_insert_id; [done|]. by apply not_elem_of_list_to_map_1.
Qed.

Lemma represents_insert d' es es' name ino :
  NoDup (contents es).*1 → (list_to_map (contents es) : gmap (list Z) Z) !! name = None →
  contents es' ≡ₚ (name, ino) :: contents es → dir_ok d' es' →
  represents d' (<[name := ino]> (list_to_map (contents es))).
Proof.
  intros Hnd Hno Hc Hok. apply not_elem_of_list_to_map in Hno. exists es'.
  assert (NoDup (((name, ino) :: contents es).*1)) as Hnd' by by apply NoDup_cons.
  split; [done|]. split; [by rewrite Hc|]. rewrite (list_to_map_proper (contents es') ((name, ino) :: contents es)) by (by rewrite ?Hc). done.
Qed.

(** The record in use with the name, where a search leaves it. *)
Definition located (es : list (option (list entry))) (b off : nat) (name : list Z) (l1 : list entry) (e : entry) (l2 : list entry) : Prop :=
  es !! b = Some (Some (l1 ++ e :: l2)) ∧ off = total l1 ∧ used_by name e.

Lemma located_lookup es b off name l1 e l2 :
  NoDup (contents es).*1 → located es b off name l1 e l2 → (list_to_map (contents es) : gmap (list Z) Z) !! name = Some (e_ino e).
Proof.
  intros Hnd (Hb&_&Hu). apply represents_lookup; [done|]. apply elem_contents. exists b, (l1 ++ e :: l2), e. split_and!; [done|set_solver|done..].
Qed.

Lemma located_buf d es b off name l1 e l2 :
  dir_ok d es → located es b off name l1 e l2 → ∃ buf, get_block d b = Ok buf ∧ block_ok buf (l1 ++ e :: l2) ∧ (b < length (blocks d))%nat.
Proof.
  intros Hok (Hb&_&_). destruct (dir_get _ _ _ _ Hok Hb) as (buf&Hbuf&Hblk). exists buf. split_and!; [|done|by eapply lookup_lt_Some].
  unfold get_block. by rewrite (arr_get_Ok _ _ _ Hbuf).
Qed.

Lemma delete_located d es b off name l1 e l2 :
  dir_ok d es → NoDup (contents es).*1 → located es b off name l1 e l2 →
  ∃ d', ext2_delete_dirent d b off = Ok d' ∧ represents d' (delete name (list_to_map (contents es))).
Proof.
  intros Hok Hnd Hloc. destruct (located_buf d es b off name l1 e l2 Hok Hloc) as (buf&Hget&Hblk&Hlt). destruct Hloc as (Hb&->&Hu).
  destruct (delete_bytes buf l1 e l2 Hblk) as (buf'&Hex&Hblk').
  destruct (dir_put d es b _ buf' Hok Hlt Hblk') as (d'&Hput&Hok'&_). exists d'. split.
  - unfold ext2_delete_dirent. rewrite Hget. cbn [res_bind]. revert Hex.
    destruct (prev_loop _ _ _ _ _) as [[cur prev]| | |]; [|done..]. cbn [res_bind]. destruct (load_header buf cur) as [h| | |]; [|done..]. cbn [res_bind].
    destruct prev as [q|]; cbn [res_bind].
    + destruct (load_header buf q) as [hp| | |]; [|done..]. cbn [res_bind]. destruct (poke buf _ _) as [b1| | |]; [|done..]. cbn [res_bind]. by intros ->.
    + by intros ->.
  - destruct (contents_insert es b (l1 ++ e :: l2) (removed l1 e l2) Hb) as (r&Hc&Hc').
    rewrite names_removed in Hc'. rewrite (names_used _ _ _ _ Hu) in Hc. simpl in Hc. by eapply represents_delete.
Qed.

Lemma set_located d es b off name l1 e l2 i :
  dir_ok d es → NoDup (contents es).*1 → located es b off name l1 e l2 → 1 ≤ i_ino i ≤ inodes_count sb →
  ∃ d', ext2_set_dirent sb d b off i = Ok d' ∧ represents d' (<[name := i_ino i]> (list_to_map (contents es))).
Proof.
  intros Hok Hnd Hloc Hino. destruct (located_buf d es b off name l1 e l2 Hok Hloc) as (buf&Hget&Hblk&Hlt). destruct Hloc as (Hb&->&Hu).
  destruct (set_bytes buf l1 e l2 i Hblk) as (buf'&Hex&Hblk'); [lia|].
  destruct (dir_put d es b _ buf' Hok Hlt Hblk') as (d'&Hput&Hok'&_). exists d'. split.
  - unfold ext2_set_dirent. rewrite Hget. cbn [res_bind]. destruct (poke buf _ _) as [b1| | |]; [|done..]. cbn [res_bind] in Hex |- *. by rewrite Hex.
  - set (e' := Entry (i_ino i) (e_rec e) (ext2_dirent_type sb i) (e_name e)) in *.
    assert (used_by name e') as Hu' by (split; [simpl; lia|by destruct Hu]).
    destruct (contents_insert es b (l1 ++ e :: l2) (l1 ++ e' :: l2) Hb) as (r&Hc&Hc').
    rewrite (names_used _ _ _ _ Hu') in Hc'. rewrite (names_used _ _ _ _ Hu) in Hc. simpl in Hc, Hc'.
    pose proof Hnd as Hnd'. rewrite Hc in Hnd'. apply NoDup_cons in Hnd' as [Hni Hndr].
    exists (<[b := Some (l1 ++ e' :: l2)]> es). split; [done|]. split; [rewrite Hc'; by apply NoDup_cons|].
    rewrite (list_to_map_proper (contents es) ((name, e_ino e) :: names (l1 ++ l2) ++ r)) by (rewrite ?Hc; by try apply NoDup_cons).
    rewrite (list_to_map_proper (contents (<[b := _]> es)) ((name, i_ino i) :: names (l1 ++ l2) ++ r)) by (rewrite ?Hc'; by try apply NoDup_cons).
    simpl. by rewrite insert_insert_eq.
Qed.

(** A search: what it finds, and the inode number that is read there. *)
Lemma find_dirent_spec io d es name :
  dir_ok d es → NoDup (contents es).*1 →
  ∃ r, ext2_find_dirent sb io d name = Ok r ∧
    match r with
    | inl err => ext2_find_ino sb io d name = Ok (inl err) ∧
        ((err = - ENOENT ∧ (list_to_map (contents es) : gmap (list Z) Z) !! name = None) ∨ ∃ b, io b = err ∧ err ≠ 0)
    | inr (b, off) => ∃ l1 e l2, located es b off name l1 e l2 ∧
        (list_to_map (contents es) : gmap (list Z) Z) !! name = Some (e_ino e) ∧ ext2_find_ino sb io d name = Ok (inr (e_ino e))
    end.
Proof.
  intros Hok Hnd. destruct (find_blocks_spec (S (length (blocks d))) io d es 0 name Hok) as (r&Hr&Hspec); [lia|].
  exists r. unfold ext2_find_ino, ext2_find_dirent. rewrite Hr. split; [done|]. destruct r as [err|[b off]].
  - split; [done|]. destruct Hspec as [[-> Hall]|?]; [left|by right]. split; [done|]. apply not_elem_of_list_to_map_1. intros (p&Hp&Hin)%list_elem_of_fmap.
    destruct p as [n ino]. simpl in Hp. subst n. apply elem_contents in Hin as (b&l&e&Hb&He&Hu&_).
    apply (Hall b l) in Hb; [|lia]. rewrite Forall_forall in Hb. by apply (Hb e).
  - destruct Hspec as (l1&e&l2&Hloc). pose proof Hloc as (Hb&Hoff&Hu). exists l1, e, l2. split_and!; [done|by eapply located_lookup|].
    cbn [res_bind]. destruct (located_buf d es b off name l1 e l2 Hok Hloc) as (buf&->&Hblk&_). cbn [res_bind].
    destruct (block_record _ _ _ _ Hblk) as (He&Hat&Ht). pose proof He as [_ Hrec _ _]. rewrite Hoff, (load_header_at buf (total l1) e); [done|done|done|].
    destruct Hblk. lia.
Qed.

(** C20: searching, replacing and removing a name act on the map a directory represents.
    [ext2_find_dirent] faults and loops on no directory; it answers [-ENOENT] only for
    a name the map does not have (or the error of a block it could not read), and
    otherwise the record whose inode number is the one the map gives, the answer of
    [ext2_find_ino].  Deleting the record found leaves the map without the name and
    nothing else changed; setting it to another inode leaves the map with that inode
    under the name. *)
Theorem ext2_find_delete_set io d c name :
  represents d c →
  ∃ r, ext2_find_dirent sb io d name = Ok r ∧
    match r with
    | inl err => (err = - ENOENT ∧ c !! name = None) ∨ ∃ b, io b = err ∧ err ≠ 0
    | inr (b, off) => ∃ ino, c !! name = Some ino ∧ ext2_find_ino sb io d name = Ok (inr ino) ∧
        (∃ d', ext2_delete_dirent d b off = Ok d' ∧ represents d' (delete name c)) ∧
        ∀ i, 1 ≤ i_ino i ≤ inodes_count sb → ∃ d', ext2_set_dirent sb d b off i = Ok d' ∧ represents d' (<[name := i_ino i]> c)
    end.
Proof.
  intros (es&Hok&Hnd&->). destruct (find_dirent_spec io d es name Hok Hnd) as (r&Hr&Hspec).
  exists r. split; [done|]. destruct r as [err|[b off]]; [tauto|]. destruct Hspec as (l1&e&l2&Hloc&Hlk&Hfind).
  exists (e_ino e). split_and!; [done|done|by eapply delete_located|]. intros i Hi. by eapply set_located.
Qed.

(** ** Adding a name *)

Lemma put_same d b buf : blocks d !! b = Some (Some buf) → put_block d b buf = Ok d.
Proof.
  intros Hb. unfold put_block. rewrite arr_set_Ok by by eapply lookup_lt_Some. cbn [res_bind]. rewrite list_insert_id by done. by destruct d.
Qed.

(** The addition to the block [b] of a directory: its answer, and the directory. *)
Lemma add_to_block d es b buf l name i :
  dir_ok d es → blocks d !! b = Some (Some buf) → es !! b = Some (Some l) → block_ok buf l → 1 ≤ i_ino i ≤ inodes_count sb → (length name < 256)%nat →
  ∃ ret buf' d', ext2_add_dirent_block sb buf name i = Ok (ret, buf') ∧ put_block d b buf' = Ok d' ∧
    ((ret = - ENOSPC ∧ d' = d ∧ Forall (λ e, free_bytes e < ext2_dirent_rec_len (length name))%nat l) ∨
     (ret = 0 ∧ ∃ es', dir_ok d' es' ∧ contents es' ≡ₚ (name, i_ino i) :: contents es)).
Proof.
  intros Hok Hbuf Hb Hblk Hino Hn. destruct (add_bytes buf l name i Hblk) as [[Ha Hfull]|(l1&e&l2&buf'&->&Ha&Hblk')]; [lia|done| |].
  - exists (- ENOSPC), buf, d. split_and!; [done|by apply put_same|by left].
  - destruct (dir_put d es b (l1 ++ with_new e (i_ino i) (ext2_dirent_type sb i) name ++ l2) buf' Hok) as (d'&Hput&Hok'&_); [by eapply lookup_lt_Some|done|].
    exists 0, buf', d'. split_and!; [done|done|right]. split; [done|]. eexists. split; [done|].
    destruct (contents_insert es b (l1 ++ e :: l2) (l1 ++ with_new e (i_ino i) (ext2_dirent_type sb i) name ++ l2) Hb) as (r&Hc&Hc').
    rewrite Hc', Hc, names_with_new by lia. done.
Qed.

(** No record of the blocks from [lbn] on has room for the name. *)
Definition full_from (es : list (option (list entry))) (lbn : nat) (name : list Z) : Prop :=
  ∀ b l, (lbn ≤ b)%nat → es !! b = Some (Some l) → Forall (λ e, free_bytes e < ext2_dirent_rec_len (length name))%nat l.

Lemma add_blocks_spec fuel io d es lbn name i :
  dir_ok d es → (length (blocks d) - lbn < fuel)%nat → 1 ≤ i_ino i ≤ inodes_count sb → (length name < 256)%nat →
  ∃ r d', add_blocks sb fuel io d lbn name i = Ok (r, d') ∧
    match r with
    | None => d' = d ∧ full_from es lbn name
    | Some ret => (ret = 0 ∧ ∃ es', dir_ok d' es' ∧ contents es' ≡ₚ (name, i_ino i) :: contents es) ∨ (d' = d ∧ ret ≠ 0 ∧ ∃ b, io b = ret)
    end.
Proof.
  intros Hok Hf Hino Hn. revert lbn Hf. induction fuel as [|fuel IH]; intros lbn Hf; [lia|]. cbn [add_blocks]. rewrite (in_dir d es) by done.
  pose proof (Forall2_length _ _ _ (dk_blocks _ _ Hok)) as Hlen. case_bool_decide as Hlt.
  2: { exists None, d. split_and!; [done|done|]. intros b l Hb Hes. apply lookup_lt_Some in Hes. lia. }
  unfold ext2_get_dir_page, truth. destruct (Z.eqb_spec (io lbn) 0) as [E|E]; cbn [negb res_bind].
  2: { exists (Some (io lbn)), d. split; [done|]. right. eauto. }
  destruct (lookup_lt_is_Some_2 es lbn) as [o Ho]; [lia|]. destruct (Forall2_lookup_r _ _ _ _ _ (dk_blocks _ _ Hok) Ho) as (b&Hb&Hbo).
  rewrite (arr_get_Ok _ _ _ Hb). cbn [res_bind].
  destruct (IH (S lbn)) as (r&d1&Hr&Hspec); [lia|].
  assert ((∀ l, o = Some l → Forall (λ e, free_bytes e < ext2_dirent_rec_len (length name))%nat l) →
    match r with
    | None => d1 = d ∧ full_from es lbn name
    | Some ret => (ret = 0 ∧ ∃ es', dir_ok d1 es' ∧ contents es' ≡ₚ (name, i_ino i) :: contents es) ∨ (d1 = d ∧ ret ≠ 0 ∧ ∃ b, io b = ret)
    end) as Hskip.
  { intros Hhere. destruct r as [ret|]; [done|]. destruct Hspec as [-> Hfull]. split; [done|]. intros b' l Hle Hes.
    destruct (decide (b' = lbn)) as [->|]; [simplify_eq; by apply Hhere|]. apply (Hfull b'); [lia|done]. }
  destruct b as [buf|], o as [l|]; [|done|done|].
  - destruct (add_to_block d es lbn buf l name i Hok Hb Ho Hbo Hino Hn) as (ret&buf'&d'&Ha&Hput&Hcase).
    rewrite Ha. cbn [res_bind]. rewrite Hput. cbn [res_bind]. destruct Hcase as [(->&->&Hfull)|[-> Hes']].
    + rewrite Z.eqb_refl. cbn [negb]. exists r, d1. split; [done|]. apply Hskip. by intros ? [= <-].
    + cbn. exists (Some 0), d'. split; [done|]. by left.
  - exists r, d1. split; [done|]. by apply Hskip.
Qed.

Lemma append_block_ok junk :
  length junk = bs sb →
  ∃ buf, (let! buf := poke junk 0 (replicate (bs sb) 0) in poke buf 4 (le16 (Z.of_nat (bs sb)))) = Ok buf ∧
    block_ok buf [Entry 0 (bs sb) 0 []].
Proof.
  intros Hj. destruct (poke_ok junk 0 (replicate (bs sb) 0)) as (b1&->&L1&S1&_&_); [rewrite length_replicate; lia|]. cbn [res_bind].
  rewrite length_replicate in *. destruct (poke_ok b1 4 (le16 (Z.of_nat (bs sb)))) as (b2&->&L2&S2&O2&_); [simpl; lia|].
  change (length (le16 (Z.of_nat (bs sb)))) with 2%nat in *. exists b2. split; [done|].
  assert (∀ o n, (o + n ≤ bs sb)%nat → sub b1 o n = replicate n 0) as Hz.
  { intros o n Hon. apply list_eq. intros j. rewrite sub_lookup. case_decide as Hd.
    - rewrite lookup_replicate_2 by done. pose proof (sub_lookup b1 0 (bs sb) (o + j)) as Hs. rewrite S1, decide_True in Hs by lia.
      rewrite lookup_replicate_2 in Hs by lia. by symmetry.
    - symmetry. apply lookup_ge_None. rewrite length_replicate. lia. }
  split; [lia| |].
  - apply Forall_singleton. split; cbn [e_ino e_rec e_name length]; unfold HDR; lia || done.
  - cbn [chain e_rec]. split; [|lia]. split; [|done]. rewrite header_split by (unfold HDR; lia). cbn [e_ino e_rec e_name e_type length].
    split_and!; [rewrite O2, Hz by lia|exact S2|rewrite O2, Hz by lia|rewrite O2, Hz by lia]; done.
Qed.

Lemma append_dir_block_spec g d es junk :
  dir_ok d es → length junk = bs sb →
  ∃ ret d', ext2_append_dir_block sb g d junk = Ok (ret, d') ∧
    ((ret = 0 ∧ d_inode d' = d_inode d ∧ dir_ok d' (es ++ [Some [Entry 0 (bs sb) 0 []]])) ∨
     (ret ≠ 0 ∧ d' = d ∧ (ret = - EFBIG ∧ i_size d + Z.of_nat (bs sb) > UINT32_MAX ∨ ret = g_inode g ∨ ret = g_bmap g ∨ ret = g_page g))).
Proof.
  intros Hok Hj. unfold ext2_append_dir_block, truth. destruct (Z.gtb_spec (i_size d + Z.of_nat (bs sb)) UINT32_MAX).
  { exists (- EFBIG), d. split; [done|]. right. split_and!; [done|done|left; split; [done|lia]]. }
  destruct (Z.eqb_spec (g_inode g) 0) as [_|]; cbn [negb]; [|exists (g_inode g), d; split; [done|]; right; tauto].
  destruct (Z.eqb_spec (g_bmap g) 0) as [_|]; cbn [negb]; [|exists (g_bmap g), d; split; [done|]; right; tauto].
  destruct (Z.eqb_spec (g_page g) 0) as [_|]; cbn [negb]; [|exists (g_page g), d; split; [done|]; right; tauto].
  destruct (append_block_ok junk Hj) as (buf&Hex&Hblk). destruct (poke junk 0 _) as [b1| | |]; [|done..]. cbn [res_bind] in Hex |- *.
  rewrite Hex. cbn [res_bind]. eexists _, _. split; [done|]. left. split_and!; [done|done|]. destruct Hok as [Hf Hs]. split; simpl.
  - apply Forall2_app; [done|]. by constructor.
  - rewrite length_app. simpl. rewrite Hs. lia.
Qed.

Lemma new_block_last d es o : dir_ok d (es ++ [o]) → (length (blocks d) - 1)%nat = length es ∧ (es ++ [o]) !! length es = Some o.
Proof.
  intros [Hf _]. apply Forall2_length in Hf. rewrite length_app in Hf. simpl in Hf. split; [lia|]. by rewrite lookup_app_r, Nat.sub_diag by lia.
Qed.

Lemma free_unused n : free_bytes (Entry 0 n 0 []) = n.
Proof. unfold free_bytes. rewrite decide_True by done. apply Nat.sub_0_r. Qed.

(** C19: adding a name keeps a directory a map.  For a name the map does not have and an
    inode number in range, [ext2_add_dirent] neither faults nor loops.  It returns 0 and
    the directory then represents the map with the new binding, all the others kept,
    whether the record came from an unused one, from the free tail of another, or from
    a new block; or it returns an error and the directory is unchanged, and the error is
    that of a block it could not read, or, when no block has room for the record,
    that of the new block. *)
Theorem ext2_add_dirent_spec io g junk d c name i :
  represents d c → c !! name = None → (length name < 256)%nat → 1 ≤ i_ino i ≤ inodes_count sb → length junk = bs sb →
  ∃ ret d', ext2_add_dirent sb io g junk d name i = Ok (ret, d') ∧
    ((ret = 0 ∧ represents d' (<[name := i_ino i]> c)) ∨
     (ret ≠ 0 ∧ d' = d ∧
      ((∃ b, io b = ret) ∨ ret = - EFBIG ∧ i_size d + Z.of_nat (bs sb) > UINT32_MAX ∨ ret = g_inode g ∨ ret = g_bmap g ∨ ret = g_page g))).
Proof.
  intros (es&Hok&Hnd&->) Hno Hn Hino Hj. unfold ext2_add_dirent. pose proof Hok as [_ Hs].
  rewrite Hs, Nat2Z.inj_mul, Z.mod_mul by lia. cbn [truth Z.eqb negb].
  destruct (add_blocks_spec (S (length (blocks d))) io d es 0 name i Hok ltac:(lia) Hino Hn) as (r&d1&Ha&Hspec).
  rewrite Ha. cbn [res_bind]. destruct r as [ret|].
  { exists ret, d1. split; [done|]. destruct Hspec as [(->&es'&Hok'&Hc)|(->&?&?)]; [left|right; tauto]. split; [done|]. by eapply represents_insert. }
  destruct Hspec as [-> _]. destruct (append_dir_block_spec g d es junk Hok Hj) as (ret&d1&Hap&Hcase). rewrite Hap. cbn [res_bind].
  destruct Hcase as [(->&_&Hok1)|(Hne&->&Hwhy)].
  2: { unfold truth. rewrite (proj2 (Z.eqb_neq _ _) Hne). cbn [negb]. exists ret, d. split; [done|]. right. rewrite <-Nat2Z.inj_mul, <-Hs. tauto. }
  cbn [truth Z.eqb negb]. destruct (new_block_last _ _ _ Hok1) as [-> Hlast]. set (es1 := es ++ _) in *.
  destruct (dir_get _ _ _ _ Hok1 Hlast) as (buf&Hbuf&Hblk). unfold get_block. rewrite (arr_get_Ok _ _ _ Hbuf). cbn [deref res_bind].
  destruct (add_to_block d1 es1 (length es) buf _ name i Hok1 Hbuf Hlast Hblk Hino Hn) as (ret&buf'&d'&->&Hput&Hcase). cbn [res_bind].
  rewrite Hput. cbn [res_bind]. exists ret, d'. split; [done|]. destruct Hcase as [(_&_&Hfull)|(->&es'&Hok'&Hc)].
  - apply Forall_cons in Hfull as [Hfull _]. cbv beta in Hfull. rewrite free_unused in Hfull.
    destruct (rec_len_spec (length name)) as [_ Hr]; [lia|]. unfold HDR in Hr. lia.
  - left. split; [done|]. eapply represents_insert; [done|done| |done]. rewrite Hc. unfold es1. rewrite contents_app. cbn. by rewrite app_nil_r.
Qed.

(** ** New and empty directories *)

Lemma init_bytes buf e i j :
  block_ok buf [e] → e_rec e = bs sb → 0 ≤ i_ino i ≤ inodes_count sb → 0 ≤ i_ino j ≤ inodes_count sb →
  ∃ buf', (let! buf := write_dirent buf 0 (i_ino i) 12 (ext2_dirent_type sb i) [46] in
           write_dirent buf 12 (i_ino j) (bs sb - 12) (ext2_dirent_type sb j) [46; 46]) = Ok buf' ∧
    block_ok buf' [Entry (i_ino i) 12 (ext2_dirent_type sb i) [46]; Entry (i_ino j) (bs sb - 12) (ext2_dirent_type sb j) [46; 46]].
Proof.
  intros [Hl _ _] He Hi Hj. destruct (write_dirent_ok buf 0 (i_ino i) 12 (ext2_dirent_type sb i) [46]) as (b1&->&L1&E1&O1); [simpl; lia|simpl; lia|].
  cbn [res_bind]. destruct (write_dirent_ok b1 12 (i_ino j) (bs sb - 12) (ext2_dirent_type sb j) [46; 46]) as (b2&->&L2&E2&O2); [simpl; lia|simpl; lia|].
  exists b2. split; [done|]. split; [lia| |].
  - apply Forall_cons; split; [split|apply Forall_singleton; split]; cbn [e_ino e_rec e_name length]; unfold HDR; try lia; [done|].
    pose proof (Nat.div_mod_eq (bs sb) 4). replace (bs sb - 12)%nat with ((bs sb / 4 - 3) * 4)%nat by lia. apply Nat.Div0.mod_mul.
  - cbn [chain e_rec Nat.add]. split_and!; [|done|lia]. destruct E1 as [H1 H2]. cbn [e_name length] in H2. unfold HDR in *. split; cbn [e_name length]; unfold HDR.
    + rewrite <-H1. apply list_eq. intros k. rewrite !sub_lookup. case_decide; [|done]. apply O2. lia.
    + rewrite <-H2. apply list_eq. intros k. rewrite !sub_lookup. case_decide; [|done]. apply O2. lia.
Qed.

(** The records that a directory without entries may have. *)
Definition dots (ino : Z) (c : gmap (list Z) Z) : Prop := map_Forall (λ n x, (n = [46] ∧ x = ino) ∨ n = [46; 46]) c.
Definition dot_entry (ino : Z) (e : entry) : Prop := e_ino e = 0 ∨ (e_name e = [46] ∧ e_ino e = ino) ∨ e_name e = [46; 46].
#[local] Instance dot_entry_dec ino e : Decision (dot_entry ino e).
Proof. unfold dot_entry. apply _. Defined.


Lemma name_is buf off e s x :
  entry_at buf off e → (off + HDR + length (e_name e) ≤ length buf)%nat →
  (if Nat.eqb (length (e_name e)) (length s) then let! n := load_name buf off (length s) in Ok (bool_decide (n = s) && x) else Ok false) =
    Ok (bool_decide (e_name e = s) && x).
Proof.
  intros [_ Hn] Hl. destruct (Nat.eqb_spec (length (e_name e)) (length s)) as [E|E].
  - unfold load_name. rewrite peek_ok by lia. cbn [res_bind]. by rewrite <-E, Hn.
  - rewrite bool_decide_eq_false_2; [done|]. intros H. by rewrite H in E.
Qed.

Lemma empty_loop_spec fuel buf ino off l end_ :
  Forall entry_wf l → chain buf off l end_ → (end_ ≤ length buf)%nat → (end_ - off ≤ fuel)%nat →
  empty_loop sb fuel buf ino off end_ = Ok (if decide (Forall (dot_entry ino) l) then 1 else 0).
Proof.
  revert fuel off. induction l as [|e l IH]; intros fuel off Hl Hc Hlen Hf.
  { simpl in Hc. subst end_. rewrite decide_True by constructor. destruct fuel; simpl; by rewrite Nat.ltb_irrefl. }
  apply Forall_cons in Hl as [Hw Hl]. destruct Hc as [He Hc]. pose proof (chain_total _ _ _ _ Hc) as Ht. pose proof Hw as [Hi Hr _ Hn]. unfold HDR in Hr.
  destruct fuel as [|fuel]; [lia|]. cbn [empty_loop]. rewrite (proj2 (Nat.ltb_lt _ _)) by lia.
  rewrite (get_dirent_at buf off e end_) by (done || lia). cbn [res_bind h_ino h_nlen h_rec].
  pose proof (name_is buf off e [46] (e_ino e =? ino) He ltac:(unfold HDR; lia)) as N1. cbn [length] in N1.
  pose proof (name_is buf off e [46; 46] true He ltac:(unfold HDR; lia)) as N2. cbn [length] in N2.
  rewrite N1. cbn [res_bind]. assert (∀ n : list Z, bool_decide (n = [46; 46]) && true = bool_decide (n = [46; 46])) as Hb by (intros; apply andb_true_r).
  rewrite IH by (done || lia).
  assert ((if Nat.eqb (length (e_name e)) 2 then let! n := load_name buf off 2 in Ok (bool_decide (n = [46; 46])) else Ok false) = Ok (bool_decide (e_name e = [46; 46]))) as ->.
  { rewrite <-Hb, <-N2. destruct (Nat.eqb _ 2); [|done]. destruct (load_name buf off 2); [|done..]. cbn [res_bind]. by rewrite Hb. }
  cbn [res_bind]. assert (dot_entry ino e → (if decide (Forall (dot_entry ino) l) then 1 else 0) = (if decide (Forall (dot_entry ino) (e :: l)) then 1 else 0)) as Hgo.
  { intros Hd. destruct (decide (Forall _ l)) as [H1|H1], (decide (Forall _ (e :: l))) as [H2|H2]; try done; exfalso; rewrite Forall_cons in H2; tauto. }
  unfold truth. destruct (Z.eqb_spec (e_ino e) 0) as [E0|E0]; cbn [negb]; [rewrite Hgo by (by left); reflexivity|].
  destruct (Z.eqb_spec (e_ino e) ino) as [Ei|Ei]; repeat case_bool_decide; cbn [andb];
    try (rewrite Hgo by (unfold dot_entry; tauto); done).
  all: rewrite decide_False; [done|]; rewrite Forall_cons; unfold dot_entry; tauto.
Qed.

Lemma empty_blocks_spec fuel d es lbn io :
  dir_ok d es → (length (blocks d) - lbn < fuel)%nat →
  ∃ r, empty_blocks sb fuel io d lbn = Ok r ∧
    ((r = 1 ∧ ∀ b l, (lbn ≤ b)%nat → es !! b = Some (Some l) → Forall (dot_entry (i_ino (d_inode d))) l) ∨
     (r = 0 ∧ ∃ b l, es !! b = Some (Some l) ∧ ¬ Forall (dot_entry (i_ino (d_inode d))) l) ∨ (r ≠ 0 ∧ ∃ b, io b = r)).
Proof.
  intros Hok. revert lbn. induction fuel as [|fuel IH]; intros lbn Hf; [lia|]. cbn [empty_blocks]. rewrite (in_dir d es) by done.
  pose proof (Forall2_length _ _ _ (dk_blocks _ _ Hok)) as Hlen. case_bool_decide as Hlt.
  2: { eexists. split; [done|]. left. split; [done|]. intros b l Hb Hes. apply lookup_lt_Some in Hes. lia. }
  unfold ext2_get_dir_page, truth. destruct (Z.eqb_spec (io lbn) 0) as [E|E]; cbn [negb res_bind].
  2: { eexists. split; [done|]. right. right. eauto. }
  destruct (lookup_lt_is_Some_2 es lbn) as [o Ho]; [lia|]. destruct (Forall2_lookup_r _ _ _ _ _ (dk_blocks _ _ Hok) Ho) as (b&Hb&Hbo).
  rewrite (arr_get_Ok _ _ _ Hb). cbn [res_bind]. destruct (IH (S lbn)) as (r&Hr&Hspec); [lia|].
  destruct b as [buf|], o as [l|]; [|done|done|].
  - destruct Hbo as [Hl Hw Hc]. rewrite (block_end_full d es lbn Hok Hlt). unfold ext2_dir_is_empty_block.
    rewrite (empty_loop_spec (bs sb) buf _ 0 l (bs sb) Hw Hc) by lia. cbn [res_bind]. case_decide as Hd; cbn [Z.eqb Pos.eqb negb].
    + exists r. split; [done|]. destruct Hspec as [[-> Hall]|?]; [left|by right]. split; [done|]. intros b l' Hle Hb'.
      destruct (decide (b = lbn)) as [->|]; [by simplify_eq|]. apply (Hall b); [lia|done].
    + eexists. split; [done|]. right. left. eauto.
  - exists r. split; [done|]. destruct Hspec as [[-> Hall]|?]; [left|by right]. split; [done|]. intros b l' Hle Hb'.
    destruct (decide (b = lbn)) as [->|]; [by simplify_eq|]. apply (Hall b); [lia|done].
Qed.

(** a new directory, and when a directory is empty.  [ext2_init_dir] on a directory of
    size 0 makes it represent the map of ["."] to itself and [".."] to its parent, or
    returns the error of the new block with the directory unchanged.
    [ext2_dir_is_empty] answers 1 exactly for a directory whose names are among ["."],
    bound to itself, and [".."], 0 for one with another name, or the error of a block
    it could not read. *)
Theorem ext2_empty_dir_spec io d c :
  represents d c →
  (∃ r, ext2_dir_is_empty sb io d = Ok r ∧
     ((r = 1 ∧ dots (i_ino (d_inode d)) c) ∨ (r = 0 ∧ ¬ dots (i_ino (d_inode d)) c) ∨ (r ≠ 0 ∧ ∃ b, io b = r))) ∧
  ∀ g junk parent, i_size d = 0 → length junk = bs sb → 1 ≤ i_ino (d_inode d) ≤ inodes_count sb → 1 ≤ i_ino parent ≤ inodes_count sb →
    ∃ ret d', ext2_init_dir sb g junk d parent = Ok (ret, d') ∧
      ((ret = 0 ∧ represents d' {[ [46] := i_ino (d_inode d); [46; 46] := i_ino parent ]}) ∨
       (ret ≠ 0 ∧ d' = d ∧ (ret = g_inode g ∨ ret = g_bmap g ∨ ret = g_page g))).
Proof.
  intros (es&Hok&Hnd&->). split.
  - destruct (empty_blocks_spec (S (length (blocks d))) d es 0 io Hok) as (r&Hr&Hspec); [lia|]. exists r. split; [done|].
    destruct Hspec as [[-> Hall]|[(->&b&l&Hb&Hno)|?]]; [left|right; left|by right; right]; (split; [done|]).
    + intros n x Hx. apply elem_of_list_to_map in Hx; [|done]. apply elem_contents in Hx as (b&l&e&Hb&He&[Hi Hn]&<-).
      specialize (Hall b l ltac:(lia) Hb). rewrite Forall_forall in Hall. destruct (Hall e He) as [?|[[? ?]|?]]; [done|left|right]; by rewrite <-Hn.
    + intros Hdots. apply Hno. apply Forall_forall. intros e He. destruct (decide (e_ino e = 0)) as [|Hi]; [by left|right].
      apply (Hdots (e_name e) (e_ino e)). apply represents_lookup; [done|]. apply elem_contents. by exists b, l, e.
  - intros g junk parent Hz Hj Hi Hp. pose proof Hok as [Hf Hs]. assert (es = []) as ->.
    { apply Forall2_length in Hf. destruct es; [done|]. simpl in Hf. rewrite Hz in Hs. nia. }
    unfold ext2_init_dir. rewrite Hz. cbn [Z.eqb Assert res_bind]. change (ext2_dirent_rec_len 1) with 12%nat.
    destruct (append_dir_block_spec g d [] junk Hok Hj) as (ret&d1&Hap&Hcase). rewrite Hap. cbn [res_bind].
    destruct Hcase as [(->&Hin&Hok1)|(Hne&->&Hwhy)].
    2: { unfold truth. rewrite (proj2 (Z.eqb_neq _ _) Hne). cbn [negb]. exists ret, d. split; [done|]. right. split_and!; [done|done|].
         destruct Hwhy as [[_ Hbig]|?]; [|done]. unfold UINT32_MAX in Hbig. lia. }
    cbn [truth Z.eqb negb]. destruct (new_block_last _ [] _ Hok1) as [-> Hlast]. destruct (dir_get _ _ _ _ Hok1 Hlast) as (buf&Hbuf&Hblk).
    unfold get_block. simpl length in Hbuf |- *. rewrite (arr_get_Ok _ _ _ Hbuf). cbn [deref res_bind]. rewrite Hin.
    destruct (init_bytes buf _ (d_inode d) parent Hblk eq_refl ltac:(lia) ltac:(lia)) as (buf'&Hex&Hblk').
    destruct (write_dirent buf 0 _ _ _ _) as [b1| | |]; [|done..]. cbn [res_bind] in Hex |- *. rewrite Hex. cbn [res_bind].
    destruct (dir_put d1 _ 0 _ buf' Hok1 ltac:(by eapply lookup_lt_Some) Hblk') as (d'&->&Hok'&_). cbn [res_bind]. exists 0, d'. split; [done|].
    left. split; [done|]. eexists. split; [exact Hok'|]. cbn. unfold binding. cbn [e_ino e_name].
    rewrite (decide_False (P := i_ino (d_inode d) = 0)), (decide_False (P := i_ino parent = 0)) by lia. cbn. split; [|done].
    apply NoDup_cons. split; [set_solver|]. apply NoDup_singleton.
Qed.
End dir.

(** ** Concrete directories *)

Definition sb0 : dir_sb := DirSb 100 1024 true.
(** A directory of one block: ["."], ["a"], and the free rest behind ["a"]. *)
Definition buf0 : list Z :=
  le32 2 ++ le16 12 ++ [1; 2; 46; 0; 0; 0] ++ le32 5 ++ le16 1012 ++ [1; 1; 97] ++ replicate 1003 0.
Definition dir0 : dir := Dir (Inode 2 S_IFDIR) 1024 [Some buf0].

Lemma dir0_represents : represents sb0 dir0 {[ [46] := 2; [97] := 5 ]}.
Proof.
  exists [Some [Entry 2 12 2 [46]; Entry 5 1012 1 [97]]]. split; [|split].
  - split; [|done]. constructor; [|constructor]. split; [by vm_compute| |].
    + apply Forall_cons; split; [split|apply Forall_singleton; split]; vm_compute; intuition (discriminate || lia).
    + split; [split; by vm_compute|split; [split; by vm_compute|done]].
  - vm_compute. apply NoDup_cons. split; [set_solver|]. apply NoDup_singleton.
  - by vm_compute.
Qed.

Example dir0_find : ext2_find_ino sb0 (λ _, 0) dir0 [97] = Ok (inr 5) ∧ ext2_find_ino sb0 (λ _, 0) dir0 [98] = Ok (inl (- ENOENT)).
Proof. by vm_compute. Qed.

(** A found name can be deleted. *)
Lemma ext2_find_delete_set_witness : ∃ d', ext2_delete_dirent dir0 0 12 = Ok d' ∧ represents sb0 d' {[ [46] := 2 ]}.
Proof.
  destruct (ext2_find_delete_set sb0 ltac:(cbn; lia) ltac:(cbn; lia) eq_refl (λ _, 0) dir0 _ [97] dir0_represents) as (r&Hr&Hspec).
  assert (ext2_find_dirent sb0 (λ _, 0) dir0 [97] = Ok (inr (0%nat, 12%nat))) as Hc by by vm_compute. rewrite Hc in Hr. injection Hr as <-.
  destruct Hspec as (ino&_&_&Hdel&_). exact Hdel.
Defined.

(** The new name goes to the free tail of ["a"]. *)
Lemma ext2_add_dirent_spec_witness :
  ∃ d', ext2_add_dirent sb0 (λ _, 0) (Grow 0 0 0) (replicate 1024 0) dir0 [98] (Inode 7 S_IFREG) = Ok (0, d') ∧
    represents sb0 d' {[ [98] := 7; [46] := 2; [97] := 5 ]}.
Proof.
  destruct (ext2_add_dirent_spec sb0 ltac:(cbn; lia) ltac:(cbn; lia) eq_refl (λ _, 0) (Grow 0 0 0) (replicate 1024 0) dir0 _ [98] (Inode 7 S_IFREG)
    dir0_represents eq_refl ltac:(cbn; lia) ltac:(cbn; lia) ltac:(by rewrite length_replicate)) as (ret&d'&Hr&Hspec).
  destruct Hspec as [[-> Hrep]|(Hne&_&[[b Hb]|[[-> Hbig]|Hg]])].
  - exists d'. split; [exact Hr|exact Hrep].
  - by destruct Hne.
  - exfalso. cbn in Hbig. unfold UINT32_MAX in Hbig. lia.
  - exfalso. cbn in Hg. lia.
Defined.

(** A directory of no blocks: initialised, it has its two names. *)
Lemma ext2_empty_dir_spec_witness :
  ∃ d', ext2_init_dir sb0 (Grow 0 0 0) (replicate 1024 0) (Dir (Inode 3 S_IFDIR) 0 []) (Inode 2 S_IFDIR) = Ok (0, d') ∧
    represents sb0 d' {[ [46] := 3; [46; 46] := 2 ]}.
Proof.
  assert (represents sb0 (Dir (Inode 3 S_IFDIR) 0 []) ∅) as Hrep by (exists []; split_and!; [split; [constructor|done]|constructor|done]).
  destruct (ext2_empty_dir_spec sb0 ltac:(cbn; lia) ltac:(cbn; lia) eq_refl (λ _, 0) _ _ Hrep) as [_ Hinit].
  destruct (Hinit (Grow 0 0 0) (replicate 1024 0) (Inode 2 S_IFDIR) eq_refl ltac:(by rewrite length_replicate) ltac:(cbn; lia) ltac:(cbn; lia))
    as (ret&d'&Hr&[[-> Hrep']|(Hne&_&Hg)]).
  - exists d'. split; [exact Hr|exact Hrep'].
  - exfalso. cbn in Hg. lia.
Defined.
