(* ===== verification/Getdents.v ===== *)
(** * Listing a directory: [ext2_dir_readdir] of [fs/ext2/dir.c] under
    [sys_getdents64] of [fs/vfs/file.c]

    The call copies records of the directory to the user's buffer, from the file
    position on, until the directory ends, the next record does not fit, or a copy
    or a read fails.  The state of a call is the position and the bytes delivered so
    far.  Positions are never negative ([ext2_llseek] refuses such) and are natural
    numbers.  What the block lookups, the copies to the user, the page allocator and
    the position lock answer are arguments.  The directory is the same for the whole
    call. *)
From stdpp Require Import base tactics numbers list gmap.
From S2P Require Import Prelude Ext2dir.

Definition VFS_NAME_MAX : nat := 255.
Definition DT_UNKNOWN : Z := 0.
(** [offsetof(struct dirent64, d_name)] *)
Definition D_NAME : nat := 19.
Definition le64 (x : Z) : list Z := le32 x ++ le32 (Z.shiftr x 32).

(** [struct getdents_ctx]: [done] is the length of [out]. *)
Record getdents_ctx := Ctx { pos : nat; count : nat; out : list Z; error : Z }.

(** [struct dirent64], the name and the zeros behind it. *)
Definition dirent64 (ino : Z) (off : nat) (reclen : nat) (type : Z) (name : list Z) : list Z :=
  le64 ino ++ le64 (Z.of_nat off) ++ le16 (Z.of_nat reclen) ++ [u8 type] ++ name ++ replicate (reclen - D_NAME - length name) 0.

Definition reclen_of (namelen : nat) : nat := Z.to_nat (ALIGN_UP (Z.of_nat D_NAME + Z.of_nat namelen + 1) 8).

(** [bad off n]: the copy of [n] bytes to [buf + off] does not complete. *)
Definition filldir64 (bad : nat → nat → bool) (d : getdents_ctx) (name : list Z) (offset : nat) (ino type : Z) : bool * getdents_ctx :=
  if (VFS_NAME_MAX <? length name)%nat then (false, Ctx (pos d) (count d) (out d) (- EIO)) else
  let reclen := reclen_of (length name) in
  if (count d - length (out d) <? reclen)%nat then (false, Ctx (pos d) (count d) (out d) (- EINVAL)) else
  if bad (length (out d)) reclen then (false, Ctx (pos d) (count d) (out d) (- EFAULT)) else
  (true, Ctx (pos d) (count d) (out d ++ dirent64 ino offset reclen type name) (error d)).

Definition set_pos (n : nat) (d : getdents_ctx) : getdents_ctx := Ctx n (count d) (out d) (error d).

Section readdir.
Context (sb : dir_sb) (bad : nat → nat → bool).

Fixpoint readdir_loop (fuel : nat) (buf : list Z) (off end_ : nat) (c : getdents_ctx) : res (Z * getdents_ctx) :=
  if (off <? end_)%nat then
    match fuel with
    | O => Loop
    | S fuel =>
        let! h := ext2_get_dirent sb buf off end_ in
        match h with
        | inl e => Ok (e, c)
        | inr h =>
            let next := (pos c + h_rec h)%nat in
            let! (more, c) :=
              if truth (h_ino h) then
                let! type := if filetype sb && (h_type h <? EXT2_FT_MAX) then arr_get ext2_dtype (Z.to_nat (h_type h)) else Ok DT_UNKNOWN in
                let! name := load_name buf off (h_nlen h) in
                Ok (filldir64 bad c name next (h_ino h) type)
              else Ok (true, c) in
            if negb more then Ok (0, c) else readdir_loop fuel buf (off + h_rec h) end_ (set_pos next c)
        end
    end
  else Ok (1, c).
Definition ext2_readdir_block (buf : list Z) (end_ : nat) (c : getdents_ctx) : res (Z * getdents_ctx) :=
  readdir_loop end_ buf (pos c mod bs sb) end_ c.

(** An error, or 0 for a hole, or 1 with the bytes. *)
Definition ext2_read_dir_block (io : nat → Z) (d : dir) (lbn end_ : nat) : res (Z * list Z) :=
  let! p := ext2_get_dir_page io d lbn in
  match p with
  | inl e => Ok (e, [])
  | inr None => Ok (0, [])
  | inr (Some data) => let! buf := peek data 0 end_ in Ok (1, buf)
  end.

Fixpoint blocks_loop (fuel : nat) (io : nat → Z) (d : dir) (c : getdents_ctx) : res (Z * getdents_ctx) :=
  if (i_size d <=? Z.of_nat (pos c)) then Ok (0, c) else
  match fuel with
  | O => Loop
  | S fuel =>
      let lbn := (pos c / bs sb)%nat in
      let off := (pos c mod bs sb)%nat in
      let left := (Z.to_nat (i_size d) - pos c)%nat in
      let end_ := if (bs sb <? off + left)%nat then bs sb else (off + left)%nat in
      let! (ret, buf) := ext2_read_dir_block io d lbn end_ in
      let c := if ret =? 0 then set_pos (S lbn * bs sb) c else c in
      if ret <? 0 then Ok (ret, c) else
      if ret =? 0 then blocks_loop fuel io d c else
      let! (ret, c) := ext2_readdir_block buf end_ c in
      if ret <=? 0 then Ok (ret, c) else blocks_loop fuel io d c
  end.

(** [page]: the page allocator had a page. *)
Definition ext2_dir_readdir (io : nat → Z) (page : bool) (d : dir) (c : getdents_ctx) : res (Z * getdents_ctx) :=
  if negb (Z.land (i_mode (d_inode d)) S_IFMT =? S_IFDIR) then Ok (- ENOTDIR, c) else
  if negb page then Ok (- ENOMEM, c) else
  blocks_loop (S (length (blocks d))) io d c.

(** The open file: no such descriptor, or its operations list directories or not, with
    its position; the answer of the lock; the new position. *)
Definition sys_getdents64 (io : nat → Z) (page : bool) (file : option (bool * nat)) (lock : Z) (d : dir) (n : nat) : res (Z * option nat * list Z) :=
  match file with
  | None => Ok (- EBADF, None, [])
  | Some (readdir, f_pos) =>
      if negb readdir then Ok (- ENOTDIR, Some f_pos, []) else
      if truth lock then Ok (lock, Some f_pos, []) else
      let! (ret, c) := ext2_dir_readdir io page d (Ctx f_pos n [] 0) in
      Ok (if negb (Nat.eqb (length (out c)) 0) then Z.of_nat (length (out c)) else if truth ret then ret else error c, Some (pos c), out c)
  end.
End readdir.

(** ** The records a directory lists *)

Lemma reclen_spec n : (n ≤ 255)%nat → (D_NAME + n < reclen_of n ≤ 280)%nat.
Proof.
  intros Hn. unfold reclen_of, D_NAME. destruct (ALIGN_UP_spec (Z.of_nat 19 + Z.of_nat n + 1) 3) as [Hm Hr]; [lia|lia|lia|].
  change (2 ^ 3) with 8 in *. set (y := ALIGN_UP _ _) in *. pose proof (Z.div_mod y 8). lia.
Qed.

Lemma dirent64_length ino off type name : (length name ≤ 255)%nat → length (dirent64 ino off (reclen_of (length name)) type name) = reclen_of (length name).
Proof.
  intros Hn. pose proof (reclen_spec _ Hn) as Hr. unfold dirent64, le64, D_NAME in *. rewrite !length_app, length_replicate.
  change (length (le32 ino)) with 4%nat. change (length (le32 (Z.shiftr ino 32))) with 4%nat. simpl length. lia.
Qed.

Section listing.
Context (sb : dir_sb) (bad : nat → nat → bool).
Context (Hcount : 0 ≤ inodes_count sb < 2 ^ 32) (Hbs : (1024 ≤ bs sb ≤ 4096)%nat) (Hbs4 : (bs sb mod 4 = 0)%nat).

Definition d_type (e : entry) : Z := if filetype sb && (e_type e <? EXT2_FT_MAX) then ext2_dtype !!! Z.to_nat (e_type e) else DT_UNKNOWN.

(** A record of the directory, with the position behind it; what the user gets for it. *)
Definition item : Type := nat * entry.
Definition record_of (x : item) : list Z := dirent64 (e_ino x.2) x.1 (reclen_of (length (e_name x.2))) (d_type x.2) (e_name x.2).
Definition records (l : list item) : list Z := mjoin (record_of <$> l).

(** The used records of a block whose first one is at [start], and of the blocks from [lbn] on. *)
Fixpoint block_items (start : nat) (l : list entry) : list item :=
  match l with
  | [] => []
  | e :: l => (if decide (e_ino e = 0) then [] else [((start + e_rec e)%nat, e)]) ++ block_items (start + e_rec e) l
  end.
Fixpoint items (lbn : nat) (es : list (option (list entry))) : list item :=
  match es with
  | [] => []
  | o :: es => from_option (block_items (lbn * bs sb)) [] o ++ items (S lbn) es
  end.

(** [p] is a position between two records, and [rest] the used records behind it. *)
Definition listing (es : list (option (list entry))) (p : nat) (rest : list item) : Prop :=
  (∃ lbn l1 l2, es !! lbn = Some (Some (l1 ++ l2)) ∧ p = (lbn * bs sb + total l1)%nat ∧ rest = block_items p l2 ++ items (S lbn) (drop (S lbn) es)) ∨
  (∃ lbn, (lbn ≤ length es)%nat ∧ p = (lbn * bs sb)%nat ∧ rest = items lbn (drop lbn es)).

Lemma records_app l k : records (l ++ k) = records l ++ records k.
Proof. unfold records. by rewrite fmap_app, join_app. Qed.

(** Why the next record [x] was not delivered. *)
Definition refused (c : getdents_ctx) (x : item) : Prop :=
  let reclen := reclen_of (length (e_name x.2)) in
  (error c = - EINVAL ∧ (count c - length (out c) < reclen)%nat) ∨ (error c = - EFAULT ∧ bad (length (out c)) reclen = true).

Lemma filldir64_spec c e next :
  (length (e_name e) < 256)%nat → (length (out c) ≤ count c)%nat →
  ∃ b c', filldir64 bad c (e_name e) next (e_ino e) (d_type e) = (b, c') ∧ pos c' = pos c ∧ count c' = count c ∧ (length (out c') ≤ count c')%nat ∧
    if b then out c' = out c ++ record_of (next, e) ∧ error c' = error c else out c' = out c ∧ refused c' (next, e).
Proof.
  intros Hn Hle. unfold filldir64, VFS_NAME_MAX. rewrite (proj2 (Nat.ltb_ge _ _)) by lia. unfold refused. cbn [snd].
  destruct (Nat.ltb_spec (count c - length (out c)) (reclen_of (length (e_name e)))).
  { eexists _, _. split; [done|]. cbn. split_and!; try done. by left. }
  destruct (bad _ _) eqn:Eb.
  { eexists _, _. split; [done|]. cbn. split_and!; try done. by right. }
  eexists _, _. split; [done|]. cbn [pos count out error]. split_and!; try done. rewrite length_app, dirent64_length; lia.
Qed.

Lemma readdir_loop_spec fuel buf off l c :
  Forall (entry_wf sb) l → chain buf off l (bs sb) → length buf = bs sb → (bs sb - off ≤ fuel)%nat → (length (out c) ≤ count c)%nat →
  ∃ l3 l4 got ret c', readdir_loop sb bad fuel buf off (bs sb) c = Ok (ret, c') ∧ l = l3 ++ l4 ∧ pos c' = (pos c + total l3)%nat ∧
    block_items (pos c) l = got ++ block_items (pos c') l4 ∧ out c' = out c ++ records got ∧ count c' = count c ∧ (length (out c') ≤ count c')%nat ∧
    ((ret = 1 ∧ l4 = [] ∧ error c' = error c) ∨ (ret = 0 ∧ ∃ x r, block_items (pos c') l4 = x :: r ∧ refused c' x)).
Proof.
  revert fuel off c. induction l as [|e l IH]; intros fuel off c Hl Hc Hlen Hf Hle.
  { simpl in Hc. exists [], [], [], 1, c. split_and!; [|done|simpl; lia|done|by rewrite app_nil_r|done|done|by left].
    rewrite Hc. destruct fuel; simpl; by rewrite Nat.ltb_irrefl. }
  apply Forall_cons in Hl as [Hw Hl]. destruct Hc as [He Hc]. pose proof (chain_total _ _ _ _ Hc) as Ht. pose proof Hw as [Hi Hr _ Hn]. unfold HDR in Hr.
  destruct fuel as [|fuel]; [lia|]. cbn [readdir_loop]. rewrite (proj2 (Nat.ltb_lt _ _)) by lia.
  rewrite (get_dirent_at sb Hcount Hbs Hbs4 buf off e (bs sb)) by (done || lia). cbn [res_bind h_ino h_nlen h_rec h_type].
  assert (load_name buf off (length (e_name e)) = Ok (e_name e)) as Hnm.
  { destruct He as [_ Hname]. unfold load_name. rewrite peek_ok by (unfold HDR; lia). by rewrite Hname. }
  assert ((if filetype sb && (e_type e <? EXT2_FT_MAX) then arr_get ext2_dtype (Z.to_nat (e_type e)) else Ok DT_UNKNOWN) = Ok (d_type e)) as Hty.
  { unfold d_type. destruct (filetype sb); [|done]. cbn [andb]. destruct (Z.ltb_spec (e_type e) EXT2_FT_MAX) as [Hlt|]; [|done]. unfold EXT2_FT_MAX in Hlt.
    apply arr_get_Ok. apply list_lookup_lookup_total_lt. simpl. lia. }
  set (next := (pos c + e_rec e)%nat). cbn [block_items]. fold next. unfold truth. destruct (Z.eqb_spec (e_ino e) 0) as [E|E]; cbn [negb].
  - rewrite decide_True by done. cbn [res_bind app negb].
    destruct (IH fuel (off + e_rec e)%nat (set_pos next c) Hl Hc Hlen ltac:(lia) Hle) as (l3&l4&got&ret&c'&Hex&->&Hp&Hit&Hrest).
    exists (e :: l3), l4, got, ret, c'. split_and!; [done|done|simpl in *; lia|done|apply Hrest..].
  - rewrite decide_False by done. rewrite Hty. cbn [res_bind]. rewrite Hnm. cbn [res_bind].
    destruct (filldir64_spec c e next Hn Hle) as (b&c1&->&Hp1&Hc1&Hle1&Hb). cbn [res_bind]. destruct b; cbn [negb].
    + destruct Hb as [Ho He1]. destruct (IH fuel (off + e_rec e)%nat (set_pos next c1) Hl Hc Hlen ltac:(lia) Hle1) as (l3&l4&got&ret&c'&Hex&->&Hp&Hit&Ho'&Hcnt&Hle'&Hend).
      exists (e :: l3), l4, ((next, e) :: got), ret, c'. cbn [set_pos pos out count error] in *.
      split_and!; [done|done|unfold next in *; cbn [total]; lia| | |congruence|done|].
      * cbn [app]. by rewrite Hit.
      * rewrite Ho', Ho. by rewrite <-app_assoc.
      * destruct Hend as [(?&?&?)|?]; [left|by right]. split_and!; [done|done|congruence].
    + destruct Hb as [Ho Href]. exists [], (e :: l), [], 0, c1. cbn [app]. split_and!; try done.
      * simpl. lia.
      * cbn [block_items]. rewrite Hp1. fold next. by rewrite decide_False.
      * by rewrite app_nil_r.
      * right. split; [done|]. cbn [block_items]. rewrite Hp1. fold next. rewrite decide_False by done. cbn [app]. eauto.
Qed.

Lemma block_total buf l : block_ok sb buf l → total l = bs sb.
Proof. intros [_ _ Hc]. apply chain_total in Hc. lia. Qed.

(** A position behind the last record, or inside a block. *)
Lemma listing_cases d es p rest :
  dir_ok sb d es → listing es p rest →
  (p = (length es * bs sb)%nat ∧ rest = []) ∨
  ∃ lbn o, es !! lbn = Some o ∧ (p / bs sb)%nat = lbn ∧
    match o with
    | None => p = (lbn * bs sb)%nat ∧ rest = items (S lbn) (drop (S lbn) es)
    | Some l => ∃ l1 l2, l = l1 ++ l2 ∧ (p mod bs sb)%nat = total l1 ∧ p = (lbn * bs sb + total l1)%nat ∧ rest = block_items p l2 ++ items (S lbn) (drop (S lbn) es)
    end.
Proof.
  intros Hok Hli. assert (∀ lbn, (lbn ≤ length es)%nat → p = (lbn * bs sb)%nat → rest = items lbn (drop lbn es) →
    (p = (length es * bs sb)%nat ∧ rest = []) ∨
    ∃ lbn o, es !! lbn = Some o ∧ (p / bs sb)%nat = lbn ∧
    match o with
    | None => p = (lbn * bs sb)%nat ∧ rest = items (S lbn) (drop (S lbn) es)
    | Some l => ∃ l1 l2, l = l1 ++ l2 ∧ (p mod bs sb)%nat = total l1 ∧ p = (lbn * bs sb + total l1)%nat ∧ rest = block_items p l2 ++ items (S lbn) (drop (S lbn) es)
    end) as Hstart.
  { intros lbn Hle -> ->. destruct (es !! lbn) as [o|] eqn:Eo.
    - right. exists lbn, o. rewrite Nat.div_mul by lia. split_and!; [done|done|]. rewrite (drop_S _ _ _ Eo). cbn [items]. destruct o as [l|]; [|done].
      exists [], l. rewrite Nat.Div0.mod_mul, Nat.add_0_r. done.
    - left. apply lookup_ge_None in Eo. rewrite drop_ge by done. split; [f_equal; lia|done]. }
  destruct Hli as [(lbn&l1&l2&Hes&Hp&->)|(lbn&Hle&Hp&Hr)]; [|by apply (Hstart lbn)].
  destruct (dir_get sb d es lbn _ Hok Hes) as (buf&_&Hblk). apply block_total in Hblk. rewrite total_app in Hblk.
  destruct (decide (total l1 = bs sb)) as [E|E].
  - apply (Hstart (S lbn)); [apply lookup_lt_Some in Hes; lia|lia|]. assert (l2 = []) as ->; [|done].
    destruct l2 as [|e l2]; [done|]. destruct (dir_get sb d es lbn _ Hok Hes) as (buf'&_&Hblk'). apply (block_record sb Hbs Hbs4) in Hblk' as ([_ Hr _ _]&_&Ht).
    unfold HDR in Hr. simpl in Hblk. lia.
  - right. exists lbn, (Some (l1 ++ l2)). rewrite Hp, Nat.add_comm, Nat.div_add, Nat.div_small by lia. split_and!; [done|done|].
    exists l1, l2. rewrite Nat.Div0.mod_add, Nat.mod_small by lia. rewrite (Nat.add_comm (total l1)). done.
Qed.

(** A read delivers the next records in order, up to a stated reason to stop. *)
Definition delivers (es : list (option (list entry))) (io : nat → Z) (c : getdents_ctx) (rest : list item) (r : res (Z * getdents_ctx)) : Prop :=
  ∃ got rest' ret c', r = Ok (ret, c') ∧ rest = got ++ rest' ∧ listing es (pos c') rest' ∧ out c' = out c ++ records got ∧
    count c' = count c ∧ (length (out c') ≤ count c')%nat ∧
    ((ret = 0 ∧ rest' = [] ∧ error c' = error c) ∨ (ret = 0 ∧ ∃ x k, rest' = x :: k ∧ refused c' x) ∨ (ret < 0 ∧ ∃ b, io b = ret)).

Lemma delivers_more es io c c1 rest got r :
  delivers es io c1 rest r → out c1 = out c ++ records got → count c1 = count c → error c1 = error c → delivers es io c (got ++ rest) r.
Proof.
  intros (got'&rest'&ret&c'&->&->&Hli&Ho&Hc&Hle&Hend) Ho1 Hc1 He1. exists (got ++ got'), rest', ret, c'.
  split_and!; [done|by rewrite app_assoc|done|by rewrite records_app, Ho, Ho1, app_assoc|congruence|done|].
  rewrite <-He1. done.
Qed.

Lemma blocks_loop_spec fuel io d es c rest :
  dir_ok sb d es → listing es (pos c) rest → (∀ b, io b ≤ 0) → (length (out c) ≤ count c)%nat →
  (length (blocks d) - pos c / bs sb < fuel)%nat → delivers es io c rest (blocks_loop sb bad fuel io d c).
Proof.
  intros Hok. revert c rest. induction fuel as [|fuel IH]; intros c rest Hli Hio Hle Hf; [lia|]. cbn [blocks_loop].
  pose proof Hok as [Hfa Hs]. pose proof (Forall2_length _ _ _ Hfa) as Hlen. rewrite Hs.
  destruct (listing_cases d es (pos c) rest Hok Hli) as [[Hp ->]|(lbn&o&Ho&Hdiv&Hcase)].
  { rewrite (proj2 (Z.leb_le _ _)) by lia. exists [], [], 0, c. split_and!; [done|done|done|by rewrite app_nil_r|done|done|by left]. }
  pose proof (lookup_lt_Some _ _ _ Ho) as Hlt. assert (pos c < length (blocks d) * bs sb)%nat as Hin.
  { pose proof (Nat.div_mod_eq (pos c) (bs sb)) as Hdm. pose proof (Nat.mod_upper_bound (pos c) (bs sb)). rewrite Hdiv in Hdm. nia. }
  rewrite (proj2 (Z.leb_gt _ _)) by lia. rewrite Hdiv, Nat2Z.id.
  assert (pos c mod bs sb + (length (blocks d) * bs sb - pos c) ≥ bs sb)%nat as Hend.
  { pose proof (Nat.div_mod_eq (pos c) (bs sb)) as Hdm. rewrite Hdiv in Hdm. nia. }
  replace (if (bs sb <? pos c mod bs sb + (length (blocks d) * bs sb - pos c))%nat then bs sb else (pos c mod bs sb + (length (blocks d) * bs sb - pos c))%nat)
    with (bs sb) by (destruct (Nat.ltb_spec (bs sb) (pos c mod bs sb + (length (blocks d) * bs sb - pos c))); lia).
  unfold ext2_read_dir_block, ext2_get_dir_page, truth. destruct (Z.eqb_spec (io lbn) 0) as [E|E]; cbn [negb res_bind].
  2: { pose proof (Hio lbn). rewrite (proj2 (Z.eqb_neq _ _) E), (proj2 (Z.ltb_lt _ _)) by lia.
       exists [], rest, (io lbn), c. split_and!; [done|done|done|by rewrite app_nil_r|done|done|]. right. right. split; [lia|eauto]. }
  destruct (Forall2_lookup_r _ _ _ _ _ Hfa Ho) as (b&Hb&Hbo). rewrite (arr_get_Ok _ _ _ Hb). cbn [res_bind].
  destruct b as [buf|], o as [l|]; [|done|done|].
  - destruct Hcase as (l1&l2&->&Hmod&Hp&->). pose proof Hbo as [Hl Hw Hc]. rewrite peek_ok by lia. cbn [res_bind].
    change (1 =? 0) with false. change (1 <? 0) with false. cbn match.
    replace (sub buf 0 (bs sb)) with buf by (unfold sub; rewrite drop_0, take_ge by lia; done).
    unfold ext2_readdir_block. rewrite Hmod. apply Forall_app in Hw as [_ Hw2]. apply chain_app in Hc as [_ Hc2]. cbn [Nat.add] in Hc2.
    destruct (readdir_loop_spec (bs sb) buf (total l1) l2 c Hw2 Hc2 Hl ltac:(lia) Hle) as (l3&l4&got&ret&c'&->&->&Hp'&Hit&Ho'&Hcnt&Hle'&Hwhy).
    cbn [res_bind]. rewrite Hit, <-app_assoc. assert (listing es (pos c') (block_items (pos c') l4 ++ items (S lbn) (drop (S lbn) es))) as Hli'.
    { left. exists lbn, (l1 ++ l3), l4. rewrite <-app_assoc. split_and!; [done| |done]. rewrite total_app. lia. }
    destruct Hwhy as [(->&->&He)|(->&x&r&Hx&Href)].
    + change (1 <=? 0) with false. cbn match. eapply delivers_more; [|exact Ho'|exact Hcnt|exact He].
      apply IH; [exact Hli'|done|done|]. pose proof (block_total _ _ Hbo) as Ht. rewrite app_nil_r, total_app in Ht.
      rewrite Hp', Hp. replace (lbn * bs sb + total l1 + total l3)%nat with (S lbn * bs sb)%nat by lia. rewrite Nat.div_mul by lia. lia.
    + change (0 <=? 0) with true. cbn match. exists got, (block_items (pos c') l4 ++ items (S lbn) (drop (S lbn) es)), 0, c'.
      split_and!; [done|done|done|done|done|done|]. right. left. split; [done|]. rewrite Hx. cbn [app]. eauto.
  - destruct Hcase as [Hp ->]. cbn [Z.eqb Z.ltb Z.compare].
    change (items (S lbn) (drop (S lbn) es)) with ([] ++ items (S lbn) (drop (S lbn) es)).
    eapply delivers_more; [apply IH|by rewrite app_nil_r|done|done]; [|done|done|change (length (blocks d) - (S lbn * bs sb) / bs sb < fuel)%nat; rewrite Nat.div_mul by lia; lia].
    right. exists (S lbn). split_and!; [lia|done|done].
Qed.

Lemma records_nonempty x l : (0 < length (records (x :: l)))%nat.
Proof. unfold records, record_of, dirent64, le64. simpl. rewrite !length_app. simpl. lia. Qed.

Definition is_dir (d : dir) : Prop := Z.land (i_mode (d_inode d)) S_IFMT = S_IFDIR.

Lemma getdents_step io d es p rest n :
  dir_ok sb d es → is_dir d → (∀ b, io b ≤ 0) → listing es p rest →
  ∃ ret p' got rest', sys_getdents64 sb bad io true (Some (true, p)) 0 d n = Ok (ret, Some p', records got) ∧
    rest = got ++ rest' ∧ listing es p' rest' ∧ (length (records got) ≤ n)%nat ∧
    (got ≠ [] → ret = Z.of_nat (length (records got))) ∧
    (got = [] → (ret = 0 ∧ rest = []) ∨
      (∃ x k, rest = x :: k ∧ let reclen := reclen_of (length (e_name x.2)) in
         (ret = - EINVAL ∧ (n < reclen)%nat) ∨ (ret = - EFAULT ∧ bad 0 reclen = true)) ∨
      (ret < 0 ∧ ∃ b, io b = ret)).
Proof.
  intros Hok Hdir Hio Hli. unfold sys_getdents64, ext2_dir_readdir. unfold is_dir in Hdir. rewrite Hdir, Z.eqb_refl. cbn [negb truth Z.eqb].
  destruct (blocks_loop_spec (S (length (blocks d))) io d es (Ctx p n [] 0) rest Hok Hli Hio) as (got&rest'&ret&c'&->&->&Hli'&Ho&Hc&Hle&Hend);
    [simpl; lia|simpl pos; lia|]. cbn [out count error app] in *. cbn [res_bind]. rewrite Ho in *. exists (if negb (Nat.eqb (length (records got)) 0) then Z.of_nat (length (records got)) else if truth ret then ret else error c'), (pos c'), got, rest'.
  split_and!; [done|done|done|lia| |].
  - intros Hg. destruct got as [|x got]; [done|]. pose proof (records_nonempty x got). rewrite (proj2 (Nat.eqb_neq _ _)) by lia. done.
  - intros ->. cbn [records fmap list_fmap mjoin list_join length Nat.eqb negb app] in *. unfold truth. destruct Hend as [(->&->&->)|[(->&x&k&->&Href)|(Hneg&b&Hb)]].
    + by left.
    + right. left. exists x, k. split; [done|]. unfold refused in Href. rewrite Ho, Hc in Href. cbn [length] in Href. rewrite Nat.sub_0_r in Href. exact Href.
    + right. right. rewrite (proj2 (Z.eqb_neq ret 0)) by lia. split; [done|eauto].
Qed.

Lemma listing_names d es p rest :
  dir_ok sb d es → listing es p rest → Forall (λ x : item, length (e_name x.2) < 256)%nat rest.
Proof.
  intros [Hf _] Hli. assert (∀ l s, Forall (entry_wf sb) l → Forall (λ x : item, length (e_name x.2) < 256)%nat (block_items s l)) as Hb.
  { intros l. induction l as [|e l IH]; intros s Hl; simpl; [constructor|]. apply Forall_cons in Hl as [He Hl].
    apply Forall_app. split; [|by apply IH]. case_decide; [constructor|]. apply Forall_singleton. apply He. }
  assert (Forall (λ o, Forall (entry_wf sb) (from_option id [] o)) es) as Hw.
  { apply Forall_lookup. intros j o Hj. destruct (Forall2_lookup_r _ _ _ _ _ Hf Hj) as (b&_&Hbo).
    destruct o as [l|]; [|constructor]. destruct b as [buf|]; [|done]. apply Hbo. }
  assert (∀ fs lbn, Forall (λ o, Forall (entry_wf sb) (from_option id [] o)) fs → Forall (λ x : item, length (e_name x.2) < 256)%nat (items lbn fs)) as Hi.
  { intros fs. induction fs as [|o fs IH]; intros lbn Hfs; simpl; [constructor|]. apply Forall_cons in Hfs as [Ho Hfs].
    apply Forall_app. split; [|by apply IH]. destruct o as [l|]; [by apply Hb|constructor]. }
  destruct Hli as [(lbn&l1&l2&Hes&_&->)|(lbn&_&_&->)]; [|apply Hi; by apply Forall_drop].
  apply Forall_app. split; [|apply Hi; by apply Forall_drop]. apply Hb. rewrite Forall_lookup in Hw. specialize (Hw _ _ Hes). simpl in Hw.
  by apply Forall_app in Hw as [_ ?].
Qed.

Lemma items_contents es lbn : (λ x : item, (e_name x.2, e_ino x.2)) <$> items lbn es = contents es.
Proof.
  revert lbn. induction es as [|o es IH]; intros lbn; [done|]. cbn [items]. rewrite contents_cons, fmap_app, IH. f_equal. destruct o as [l|]; [|done].
  simpl. generalize (lbn * bs sb)%nat. induction l as [|e l IHl]; intros s; [done|]. simpl. rewrite fmap_app, IHl. unfold binding. by case_decide.
Qed.
End listing.

(** A program that reads the whole directory with a buffer of [n] bytes. *)
Fixpoint read_all (sb : dir_sb) (fuel : nat) (d : dir) (n p : nat) : res (list Z) :=
  match fuel with
  | O => Loop
  | S fuel =>
      let! (ret, p', user) := sys_getdents64 sb (λ _ _, false) (λ _, 0) true (Some (true, p)) 0 d n in
      match p' with
      | Some p' => if ret <=? 0 then Ok user else let! more := read_all sb fuel d n p' in Ok (user ++ more)
      | None => Ok []
      end
  end.

Section getdents.
Context (sb : dir_sb).
Context (Hcount : 0 ≤ inodes_count sb < 2 ^ 32) (Hbs : (1024 ≤ bs sb ≤ 4096)%nat) (Hbs4 : (bs sb mod 4 = 0)%nat).

Lemma read_all_from d es n fuel p rest :
  dir_ok sb d es → is_dir d → (280 ≤ n)%nat → listing sb es p rest → (length rest < fuel)%nat →
  read_all sb fuel d n p = Ok (records sb rest).
Proof.
  intros Hok Hdir Hn. revert p rest. induction fuel as [|fuel IH]; intros p rest Hli Hf; [lia|]. cbn [read_all].
  pose proof (listing_names sb d es p rest Hok Hli) as Hnm.
  destruct (getdents_step sb (λ _ _, false) Hcount Hbs Hbs4 (λ _, 0) d es p rest n Hok Hdir ltac:(done) Hli) as (ret&p'&got&rest'&->&->&Hli'&_&Hsome&Hnone).
  cbn [res_bind]. destruct got as [|x got].
  - destruct (Hnone eq_refl) as [[-> ->]|[(x&k&Heq&[[_ Hshort]|[_ ?]])|[? [_ ?]]]]; [done| |done|lia].
    simpl in Heq. rewrite Heq in Hnm. apply Forall_cons in Hnm as [Hx _]. pose proof (reclen_spec (length (e_name x.2))). lia.
  - rewrite (Hsome ltac:(done)). pose proof (records_nonempty sb Hbs Hbs4 x got). rewrite (proj2 (Z.leb_gt _ _)) by lia.
    rewrite (IH p' rest'); [|done|rewrite length_app in Hf; simpl in Hf; lia]. cbn [res_bind]. by rewrite records_app.
Qed.

(** C27: listing a directory.  From a position between two records, one call of
    [sys_getdents64] delivers the next used records, in order and each exactly once,
    never more bytes than the buffer has, and leaves the position behind the last one
    delivered, so that the next call goes on from there.  It returns the number of
    bytes if a record was delivered; otherwise 0 only when no record is left,
    [-EINVAL] only when the next record is larger than the buffer, [-EFAULT] only
    when its copy failed, or the error of a block it could not read.  Reading from
    the start with a buffer of at least 280 bytes until the answer is 0 ends and
    delivers every record of the directory, whose names and inode numbers are those
    of the map the directory represents. *)
Theorem getdents64_lists_all d es :
  dir_ok sb d es → is_dir d →
  (∀ io bad p rest n, (∀ b, io b ≤ 0) → listing sb es p rest →
     ∃ ret p' got rest', sys_getdents64 sb bad io true (Some (true, p)) 0 d n = Ok (ret, Some p', records sb got) ∧
       rest = got ++ rest' ∧ listing sb es p' rest' ∧ (length (records sb got) ≤ n)%nat ∧
       (got ≠ [] → ret = Z.of_nat (length (records sb got))) ∧
       (got = [] → (ret = 0 ∧ rest = []) ∨
         (∃ x k, rest = x :: k ∧ let reclen := reclen_of (length (e_name x.2)) in
            (ret = - EINVAL ∧ (n < reclen)%nat) ∨ (ret = - EFAULT ∧ bad 0%nat reclen = true)) ∨
         (ret < 0 ∧ ∃ b, io b = ret))) ∧
  (∀ n, (280 ≤ n)%nat → read_all sb (S (length (items sb 0 es))) d n 0 = Ok (records sb (items sb 0 es))) ∧
  (λ x : item, (e_name x.2, e_ino x.2)) <$> items sb 0 es = contents es.
Proof.
  intros Hok Hdir. split_and!.
  - intros. by apply getdents_step.
  - intros n Hn. apply (read_all_from d es); [done|done|done| |lia]. right. exists 0%nat. split_and!; [lia|done|by rewrite drop_0].
  - apply items_contents.
Qed.
End getdents.

(** Two names, one call for both, and one call each. *)
Definition dents0 : list (option (list entry)) := [Some [Entry 2 12 2 [46]; Entry 5 1012 1 [97]]].

Lemma getdents64_lists_all_witness :
  read_all sb0 3 dir0 280 0 = Ok (dirent64 2 12 24 4 [46] ++ dirent64 5 1024 24 8 [97]) ∧
  ∃ p' rest', sys_getdents64 sb0 (λ _ _, false) (λ _, 0) true (Some (true, 0%nat)) 0 dir0 24 = Ok (24, Some p', dirent64 2 12 24 4 [46]) ∧ listing sb0 dents0 p' rest'.
Proof.
  assert (dir_ok sb0 dir0 dents0) as Hok.
  { split; [|done]. constructor; [|constructor]. split; [by vm_compute| |].
    - apply Forall_cons; split; [split|apply Forall_singleton; split]; vm_compute; intuition (discriminate || lia).
    - split; [split; by vm_compute|split; [split; by vm_compute|done]]. }
  destruct (getdents64_lists_all sb0 ltac:(cbn; lia) ltac:(cbn; lia) eq_refl dir0 dents0 Hok eq_refl) as (Hstep&Hall&_). split.
  - transitivity (Ok (A := list Z) (records sb0 (items sb0 0 dents0))); [apply (Hall 280%nat); lia|by vm_compute].
  - destruct (Hstep (λ _, 0) (λ _ _, false) 0%nat (items sb0 0 dents0) 24%nat) as (ret&p'&got&rest'&Hr&_&Hli&_); [done|right; exists 0%nat; split_and!; [simpl; lia|done|done]|].
    exists p', rest'. split; [|exact Hli].
    assert (sys_getdents64 sb0 (λ _ _, false) (λ _, 0) true (Some (true, 0%nat)) 0 dir0 24 = Ok (24, Some 12%nat, dirent64 2 12 24 4 [46])) as Hc by by vm_compute.
    rewrite Hc in Hr |- *. by injection Hr as <- <- _.
Defined.
