(* ===== verification/Dcache.v ===== *)
(** * The directory-entry cache: [fs/vfs/dentry.c] and the hash of
    [include/nuvix/hashtable.h]

    The dentries in memory form a forest: each counts its children and the
    references held elsewhere, and is freed with the last of them, which drops the
    reference it held on its parent.  A published dentry is on the chain of the hash
    table its parent and name select.  A dentry is named by the serial number of its
    allocation, which stands for its address (so a freed dentry is never mistaken for
    a later one); [fail] says which allocations fail.  References taken and dropped on
    inodes are logged.  The operations run one after another, as under the cache's
    lock and the directory's mutex. *)
From stdpp Require Import base tactics numbers list gmap.
From S2P Require Import Prelude Refcount.

Record dentry := Dentry { d_name : list Z; d_parent : option nat; d_inode : option Z; d_count : Z; d_hashed : bool }.
(** [igets], [iputs]: the inode references that were taken for dentries, and dropped. *)
Record dcache := Dcache { dents : gmap nat dentry; table : gmap Z (list nat); next : nat; igets : list Z; iputs : list Z }.

Definition DCACHE_BITS : Z := 8.
Definition hash_64 (value bits : Z) : Z := if truth bits then Z.shiftr (u64 (value * 0x61c8864680b583eb)) (64 - bits) else 0.

Definition dentry_key (parent : option nat) (name : list Z) : Z :=
  foldl (λ key c, u64 (u64 (key * 31) + u8 c)) (u64 (from_option Z.of_nat 0 parent)) name.
Definition slot (parent : option nat) (name : list Z) : Z := hash_64 (dentry_key parent name) DCACHE_BITS.
Definition bucket (c : dcache) (b : Z) : list nat := default [] (table c !! b).

Definition with_count (n : Z) (d : dentry) : dentry := Dentry (d_name d) (d_parent d) (d_inode d) n (d_hashed d).
Definition with_hashed (h : bool) (d : dentry) : dentry := Dentry (d_name d) (d_parent d) (d_inode d) (d_count d) h.
Definition with_inode (i : option Z) (d : dentry) : dentry := Dentry (d_name d) (d_parent d) i (d_count d) (d_hashed d).
Definition put_dentry (c : dcache) (x : nat) (d : dentry) : dcache := Dcache (<[x := d]> (dents c)) (table c) (next c) (igets c) (iputs c).
Definition put_bucket (c : dcache) (b : Z) (l : list nat) : dcache := Dcache (dents c) (<[b := l]> (table c)) (next c) (igets c) (iputs c).

Section dcache.
Context (CONFIG_DEBUG_REFCOUNT : bool) (fail : nat → bool).

Definition dget (c : dcache) (x : nat) : res dcache :=
  let! d := deref (dents c !! x) in
  let! n := refcount_inc CONFIG_DEBUG_REFCOUNT [] (d_count d) in
  Ok (put_dentry c x (with_count n d)).

(** [hlist_add_head] and [hlist_del_init] on the chain of the dentry. *)
Definition hash_add (c : dcache) (x : nat) (b : Z) : res dcache :=
  let! d := deref (dents c !! x) in
  Ok (put_bucket (put_dentry c x (with_hashed true d)) b (x :: bucket c b)).
Definition hash_del (c : dcache) (x : nat) : res dcache :=
  let! d := deref (dents c !! x) in
  if negb (d_hashed d) then Ok c else
  let b := slot (d_parent d) (d_name d) in
  Ok (put_bucket (put_dentry c x (with_hashed false d)) b (filter (λ y, y ≠ x) (bucket c b))).

Definition iput (c : dcache) (i : option Z) : dcache :=
  match i with None => c | Some i => Dcache (dents c) (table c) (next c) (igets c) (i :: iputs c) end.

(** The loop ends at the root; each turn frees a dentry. *)
Fixpoint dput (fuel : nat) (c : dcache) (o : option nat) : res dcache :=
  match o with
  | None => Ok c
  | Some x =>
      match fuel with
      | O => Loop
      | S fuel =>
          let! d := deref (dents c !! x) in
          let! (last, n) := refcount_dec_and_test CONFIG_DEBUG_REFCOUNT [] (d_count d) in
          let c := put_dentry c x (with_count n d) in
          if negb last then Ok c else
          let! c := hash_del c x in
          let c := iput c (d_inode d) in
          dput fuel (Dcache (delete x (dents c)) (table c) (next c) (igets c) (iputs c)) (d_parent d)
      end
  end.

Definition d_alloc (c : dcache) (parent : option nat) (name : list Z) : res (Z * option nat * dcache) :=
  let x := next c in
  let c := Dcache (dents c) (table c) (S x) (igets c) (iputs c) in
  if fail x then Ok (- ENOMEM, None, c) else
  let! c := match parent with Some p => dget c p | None => Ok c end in
  Ok (0, Some x, put_dentry c x (Dentry name parent None 1 false)).

Fixpoint find_in (c : dcache) (parent : option nat) (name : list Z) (l : list nat) : res (option nat) :=
  match l with
  | [] => Ok None
  | x :: l =>
      let! d := deref (dents c !! x) in
      if bool_decide (d_parent d = parent) && Nat.eqb (length (d_name d)) (length name) && bool_decide (d_name d = name)
      then Ok (Some x) else find_in c parent name l
  end.
Definition dcache_find_locked (c : dcache) (parent : option nat) (name : list Z) : res (option nat) :=
  find_in c parent name (bucket c (slot parent name)).

Definition dcache_find (c : dcache) (parent : option nat) (name : list Z) : res (option nat * dcache) :=
  let! o := dcache_find_locked c parent name in
  match o with
  | Some x => let! c := dget c x in Ok (Some x, c)
  | None => Ok (None, c)
  end.

(** The dentry that is published under the name. *)
Definition dcache_insert (c : dcache) (x : nat) : res (nat * dcache) :=
  let! d := deref (dents c !! x) in
  let! _ := Assert (negb (d_hashed d)) in
  let! o := dcache_find_locked c (d_parent d) (d_name d) in
  match o with
  | Some y =>
      let! c := dget c y in
      let! c := dput (S (next c)) c (Some x) in
      Ok (y, c)
  | None => let! c := hash_add c x (slot (d_parent d) (d_name d)) in Ok (x, c)
  end.

Definition dcache_drop (c : dcache) (x : nat) : res dcache := hash_del c x.
End dcache.

(** ** The invariant *)

Definition parent_of (m : gmap nat dentry) (x : nat) : option nat := m !! x ≫= d_parent.
Definition children (m : gmap nat dentry) (x : nat) : gset nat := filter (λ y, parent_of m y = Some x) (dom m).
Definition inodes (m : gmap nat dentry) : list Z := omap (λ kd, d_inode kd.2) (map_to_list m).

Lemma elem_children m x y : y ∈ children m x ↔ parent_of m y = Some x.
Proof.
  unfold children. rewrite elem_of_filter, elem_of_dom. split; [by intros [? _]|]. intros Hp. split; [done|].
  unfold parent_of in Hp. destruct (m !! y); [eauto|done].
Qed.

Lemma children_same m m' x : (∀ y, parent_of m' y = parent_of m y) → children m' x = children m x.
Proof. intros H. apply set_eq. intros y. by rewrite !elem_children, H. Qed.

Lemma parent_of_insert m x d y : parent_of (<[x := d]> m) y = if decide (y = x) then d_parent d else parent_of m y.
Proof. unfold parent_of. case_decide; [subst; by rewrite lookup_insert_eq|by rewrite lookup_insert_ne by done]. Qed.
Lemma parent_of_delete m x y : parent_of (delete x m) y = if decide (y = x) then None else parent_of m y.
Proof. unfold parent_of. case_decide; [subst; by rewrite lookup_delete_eq|by rewrite lookup_delete_ne by done]. Qed.

(** A dentry that was not there becomes a child of its parent, and no longer when it goes. *)
Lemma children_insert m x d y :
  m !! x = None → size (children (<[x := d]> m) y) = (size (children m y) + if decide (d_parent d = Some y) then 1 else 0)%nat.
Proof.
  intros Hx. assert (parent_of m x = None) as Hnp by (unfold parent_of; by rewrite Hx). case_decide as Hp.
  - assert (children (<[x:=d]> m) y = {[x]} ∪ children m y) as ->.
    { apply set_eq. intros z. rewrite elem_of_union, elem_of_singleton, !elem_children, parent_of_insert. case_decide; naive_solver. }
    rewrite size_union, size_singleton; [lia|]. intros z ->%elem_of_singleton Hz. apply elem_children in Hz. congruence.
  - rewrite Nat.add_0_r. f_equal. apply set_eq. intros z. rewrite !elem_children, parent_of_insert. case_decide; [|done]. subst. rewrite Hnp. naive_solver.
Qed.

Lemma children_delete m x d y :
  m !! x = Some d → size (children m y) = (size (children (delete x m) y) + if decide (d_parent d = Some y) then 1 else 0)%nat.
Proof. intros Hx. rewrite <-(children_insert (delete x m) x d y) by apply lookup_delete_eq. by rewrite insert_delete_id. Qed.

Lemma inodes_insert m x d : m !! x = None → inodes (<[x := d]> m) ≡ₚ option_list (d_inode d) ++ inodes m.
Proof. intros Hx. unfold inodes. rewrite map_to_list_insert by done. simpl. by destruct (d_inode d). Qed.
Lemma inodes_delete m x d : m !! x = Some d → inodes m ≡ₚ option_list (d_inode d) ++ inodes (delete x m).
Proof. intros Hx. rewrite <-(inodes_insert (delete x m) x d) by apply lookup_delete_eq. by rewrite insert_delete_id. Qed.
Lemma inodes_update m x d d' : m !! x = Some d → d_inode d' = d_inode d → inodes (<[x := d']> m) ≡ₚ inodes m.
Proof.
  intros Hx Hi. rewrite <-insert_delete_eq, (inodes_insert (delete x m)) by apply lookup_delete_eq. rewrite Hi. symmetry. by apply inodes_delete.
Qed.

Definition ext_add (x : nat) (ext : nat → nat) : nat → nat := λ y, if decide (y = x) then S (ext y) else ext y.
Definition ext_opt (o : option nat) (ext : nat → nat) : nat → nat := match o with Some x => ext_add x ext | None => ext end.

Section invariant.
(** What the file system answers for a name in a directory: an error, or the inode, if any. *)
Context (lookup_inode : Z → list Z → Z + option Z).

(** [ext]: how many references are held outside the cache. *)
Record dc_ok (ext : nat → nat) (c : dcache) : Prop := {
  dc_count : ∀ x d, dents c !! x = Some d → d_count d = Z.of_nat (size (children (dents c) x) + ext x) ∧ (0 < d_count d)%Z;
  dc_ext : ∀ x, (0 < ext x)%nat → is_Some (dents c !! x);
  dc_parent : ∀ x d p, dents c !! x = Some d → d_parent d = Some p → (p < x)%nat ∧ is_Some (dents c !! p);
  dc_next : ∀ x, is_Some (dents c !! x) → (x < next c)%nat;
  dc_table : ∀ b x, x ∈ bucket c b ↔ ∃ d, dents c !! x = Some d ∧ d_hashed d = true ∧ b = slot (d_parent d) (d_name d);
  dc_nodup : ∀ b, NoDup (bucket c b);
  dc_unique : ∀ x y d e, dents c !! x = Some d → dents c !! y = Some e → d_hashed d = true → d_hashed e = true →
    d_parent d = d_parent e → d_name d = d_name e → x = y;
  dc_coherent : ∀ x d p e, dents c !! x = Some d → d_hashed d = true → d_parent d = Some p → dents c !! p = Some e →
    ∃ i, d_inode e = Some i ∧ lookup_inode i (d_name d) = inr (d_inode d);
  dc_inodes : igets c ≡ₚ iputs c ++ inodes (dents c)
}.

(** What the dentries of [c'] that are as old as [c] have kept. *)
Record evolves (c c' : dcache) : Prop := {
  ev_next : (next c ≤ next c')%nat;
  ev_kept : ∀ x d', (x < next c)%nat → dents c' !! x = Some d' →
    ∃ d, dents c !! x = Some d ∧ d_name d' = d_name d ∧ d_parent d' = d_parent d ∧ d_inode d' = d_inode d
}.

#[global] Instance evolves_preorder : PreOrder evolves.
Proof.
  split.
  - intros c. split; [done|eauto].
  - intros c1 c2 c3 [Hn1 Hk1] [Hn2 Hk2]. split; [lia|]. intros x d' Hx Hd'.
    destruct (Hk2 x d') as (d2&Hd2&?&?&?); [lia|done|]. destruct (Hk1 x d2 Hx Hd2) as (d1&Hd1&?&?&?). exists d1. split_and!; [done|congruence..].
Qed.

(** Every count can still rise by [n]. *)
Definition room (n : Z) (c : dcache) : Prop := ∀ x d, dents c !! x = Some d → d_count d + n < REFCOUNT_MAX.

Lemma room_le n k c : room n c → k ≤ n → room k c.
Proof. intros Hr Hk x d Hd. specialize (Hr x d Hd). lia. Qed.

Lemma dc_ok_ext ext ext' c : (∀ z, ext z = ext' z) → dc_ok ext c → dc_ok ext' c.
Proof. intros He [H1 H2 H3 H4 H5 H6 H7 H8 H9]. split; [| |done..]; intros x; rewrite <-He; [apply H1|apply H2]. Qed.

Lemma ext_add_comm x y ext z : ext_add x (ext_add y ext) z = ext_add y (ext_add x ext) z.
Proof. unfold ext_add. repeat case_decide; done. Qed.

(** Another count for [x], and as many outside references. *)
Lemma dc_recount ext ext' c x d n :
  dc_ok ext c → dents c !! x = Some d → (∀ y, y ≠ x → ext' y = ext y) → (n : Z) = Z.of_nat (size (children (dents c) x) + ext' x) → (0 < n)%Z →
  dc_ok ext' (put_dentry c x (with_count n d)).
Proof.
  intros [H1 H2 H3 H4 H5 H6 H7 H8 H9] Hx He Hn Hpos.
  assert (∀ y, parent_of (<[x := with_count n d]> (dents c)) y = parent_of (dents c) y) as Hpar.
  { intros y. rewrite parent_of_insert. case_decide; [subst; unfold parent_of; by rewrite Hx|done]. }
  assert (∀ y e, <[x := with_count n d]> (dents c) !! y = Some e → ∃ e0, dents c !! y = Some e0 ∧ d_name e = d_name e0 ∧ d_parent e = d_parent e0 ∧
    d_inode e = d_inode e0 ∧ d_hashed e = d_hashed e0) as Hold.
  { intros y e [[<- <-]|[_ ?]]%lookup_insert_Some; [by exists d|by exists e]. }
  assert (∀ y, is_Some (<[x := with_count n d]> (dents c) !! y) ↔ is_Some (dents c !! y)) as Hdom.
  { intros y. rewrite lookup_insert_is_Some'. split; [intros [<-|?]; eauto|by right]. }
  split; cbn [put_dentry dents table next igets iputs].
  - intros y e [[<- <-]|[Hne Hy]]%lookup_insert_Some; rewrite (children_same (dents c)) by done; [done|]. rewrite He by done. by apply H1.
  - intros y Hy. apply Hdom. destruct (decide (y = x)) as [->|]; [eauto|]. rewrite He in Hy by done. by apply H2.
  - intros y e p Hy Hp. apply Hold in Hy as (e0&Hy&_&Hpe&_). rewrite Hdom. apply (H3 y e0 p Hy). congruence.
  - intros y Hy. apply H4. by apply Hdom.
  - intros b y. rewrite (H5 b y). split.
    + intros (e&Hy&Hh&->). destruct (decide (y = x)) as [->|]; [|exists e; by rewrite lookup_insert_ne by done].
      assert (e = d) as -> by congruence. exists (with_count n d). by rewrite lookup_insert_eq.
    + intros (e&Hy&Hh&->). apply Hold in Hy as (e0&Hy&Hn0&Hp0&_&Hh0). exists e0. split_and!; congruence.
  - done.
  - intros y z e f Hy Hz. apply Hold in Hy as (e0&Hy&?&?&_&?). apply Hold in Hz as (f0&Hz&?&?&_&?). intros. apply (H7 y z e0 f0 Hy Hz); congruence.
  - intros y e p f Hy Hh Hp Hf. apply Hold in Hy as (e0&Hy&Hn0&Hp0&Hi0&Hh0). apply Hold in Hf as (f0&Hf&_&_&Hif&_).
    rewrite Hif, Hn0, Hi0. apply (H8 y e0 p f0 Hy); congruence.
  - rewrite H9. f_equiv. symmetry. by eapply inodes_update.
Qed.

(** ** Taking a reference *)

Section operations.
Context (CONFIG_DEBUG_REFCOUNT : bool).

Lemma inc_ok n : 0 < n < REFCOUNT_MAX → refcount_inc CONFIG_DEBUG_REFCOUNT [] n = Ok (n + 1).
Proof.
  intros Hn. unfold refcount_inc, refcount_inc_not_zero, truth, debug_Assert, Assert.
  rewrite (proj2 (Z.eqb_neq n 0)), (proj2 (Z.eqb_neq n REFCOUNT_MAX)), (proj2 (Z.ltb_ge n 0)) by lia.
  rewrite Z.gtb_ltb, (proj2 (Z.ltb_lt 0 n)), (proj2 (Z.ltb_lt n REFCOUNT_MAX)) by lia. by destruct CONFIG_DEBUG_REFCOUNT.
Qed.

Lemma dec_ok n : 0 < n → refcount_dec_and_test CONFIG_DEBUG_REFCOUNT [] n = Ok (n =? 1, n - 1).
Proof.
  intros Hn. unfold refcount_dec_and_test, debug_Assert, Assert. rewrite Z.gtb_ltb, (proj2 (Z.ltb_lt 0 n)), (proj2 (Z.leb_gt n 0)) by lia.
  destruct CONFIG_DEBUG_REFCOUNT; cbn [res_bind]; destruct (Z.eqb_spec n 1) as [->|]; done.
Qed.

Lemma dec_ref n : 1 < n → refcount_dec CONFIG_DEBUG_REFCOUNT [] n = Ok (n - 1).
Proof.
  intros Hn. unfold refcount_dec, debug_Assert, Assert. rewrite !Z.gtb_ltb, (proj2 (Z.ltb_lt 0 n)), (proj2 (Z.ltb_lt 1 n)), (proj2 (Z.leb_gt n 0)), (proj2 (Z.eqb_neq n 1)) by lia.
  by destruct CONFIG_DEBUG_REFCOUNT.
Qed.

Lemma dget_spec ext c x n :
  dc_ok ext c → is_Some (dents c !! x) → room (n + 1) c → 0 ≤ n →
  ∃ d, dents c !! x = Some d ∧ let c' := put_dentry c x (with_count (d_count d + 1) d) in
    dget CONFIG_DEBUG_REFCOUNT c x = Ok c' ∧ dc_ok (ext_add x ext) c' ∧ evolves c c' ∧ room n c'.
Proof.
  intros Hok [d Hd] Hroom Hn. exists d. split; [done|]. destruct (dc_count _ _ Hok x d Hd) as [Hc Hpos]. pose proof (Hroom x d Hd).
  unfold dget. rewrite Hd. cbn [deref res_bind]. rewrite inc_ok by lia. cbn [res_bind]. split_and!; [done| | |].
  - eapply dc_recount; [done|done| | |lia].
    + intros y Hy. unfold ext_add. by rewrite decide_False.
    + unfold ext_add. rewrite decide_True by done. lia.
  - split; [done|]. intros y d' _. cbn [put_dentry dents]. intros [[<- <-]|[_ ?]]%lookup_insert_Some; [by exists d|eauto].
  - intros y d'. cbn [put_dentry dents]. intros [[<- <-]|[_ Hy]]%lookup_insert_Some; [simpl; lia|]. specialize (Hroom y d' Hy). lia.
Qed.

(** ** Dropping one *)

Definition unhashed_table (c : dcache) (x : nat) (d : dentry) : gmap Z (list nat) :=
  if d_hashed d then let b := slot (d_parent d) (d_name d) in <[b := filter (λ y, y ≠ x) (bucket c b)]> (table c) else table c.

Lemma hash_del_eq c x d :
  dents c !! x = Some d →
  hash_del c x = Ok (Dcache (<[x := with_hashed false d]> (dents c)) (unhashed_table c x d) (next c) (igets c) (iputs c)).
Proof.
  intros Hd. unfold hash_del, unhashed_table. rewrite Hd. cbn [deref res_bind]. destruct (d_hashed d) eqn:Eh; cbn [negb]; [done|].
  replace (with_hashed false d) with d by (destruct d; by simpl in *; subst). rewrite insert_id by done. by destruct c.
Qed.

Lemma unhashed_table_spec ext c x d b y :
  dc_ok ext c → dents c !! x = Some d → y ∈ default [] (unhashed_table c x d !! b) ↔ y ≠ x ∧ y ∈ bucket c b.
Proof.
  intros Hok Hd. unfold unhashed_table. destruct (d_hashed d) eqn:Eh.
  - destruct (decide (b = slot (d_parent d) (d_name d))) as [->|Hb].
    + rewrite lookup_insert_eq. simpl. by rewrite list_elem_of_filter.
    + rewrite lookup_insert_ne by done. fold (bucket c b). split; [|by intros [_ ?]]. intros Hy. split; [|done]. intros ->.
      apply (dc_table _ _ Hok) in Hy as (e&He&_&->). by simplify_eq.
  - fold (bucket c b). split; [|by intros [_ ?]]. intros Hy. split; [|done]. intros ->.
    apply (dc_table _ _ Hok) in Hy as (e&He&Hh&_). congruence.
Qed.

Lemma unhashed_table_nodup ext c x d b : dc_ok ext c → NoDup (default [] (unhashed_table c x d !! b)).
Proof.
  intros Hok. unfold unhashed_table. destruct (d_hashed d); [|apply (dc_nodup _ _ Hok)].
  destruct (decide (b = slot (d_parent d) (d_name d))) as [->|Hb].
  - rewrite lookup_insert_eq. apply NoDup_filter, (dc_nodup _ _ Hok).
  - rewrite lookup_insert_ne by done. apply (dc_nodup _ _ Hok).
Qed.

(** The last reference to [x] goes, and [x] with it; the reference it held on its parent is now the caller's. *)
Lemma dc_remove ext c x d :
  dc_ok (ext_add x ext) c → dents c !! x = Some d → d_count d = 1 →
  dc_ok (ext_opt (d_parent d) ext) (Dcache (delete x (dents c)) (unhashed_table c x d) (next c) (igets c) (option_list (d_inode d) ++ iputs c)).
Proof.
  intros Hok Hx Hone. pose proof Hok as [H1 H2 H3 H4 H5 H6 H7 H8 H9]. destruct (H1 x d Hx) as [Hc _]. unfold ext_add in Hc. rewrite decide_True in Hc by done.
  assert (size (children (dents c) x) = 0%nat ∧ ext x = 0%nat) as [Hch Hex] by lia.
  assert (∀ y, parent_of (dents c) y ≠ Some x) as Hleaf.
  { intros y Hy. apply elem_children in Hy. apply size_empty_inv in Hch. set_solver. }
  split; cbn [dents table next igets iputs].
  - intros y e [Hne Hy]%lookup_delete_Some. destruct (H1 y e Hy) as [Hcy Hpos]. split; [|done]. rewrite Hcy.
    rewrite (children_delete (dents c) x d y Hx). unfold ext_opt, ext_add.
    destruct (d_parent d) as [p|]; repeat case_decide; simplify_eq; lia.
  - intros y Hy. assert (y ≠ x ∧ is_Some (dents c !! y)) as [Hne [e He]].
    { destruct (d_parent d) as [p|] eqn:Ep; simpl in Hy.
      - unfold ext_add in Hy. case_decide; [subst; destruct (H3 x d p Hx Ep); split; [lia|done]|].
        assert (y ≠ x) by (intros ->; lia). split; [done|]. apply H2. unfold ext_add. by rewrite decide_False.
      - assert (y ≠ x) by (intros ->; lia). split; [done|]. apply H2. unfold ext_add. by rewrite decide_False. }
    exists e. by rewrite lookup_delete_ne.
  - intros y e p [Hne Hy]%lookup_delete_Some Hp. destruct (H3 y e p Hy Hp) as [Hlt [f Hf]]. split; [done|]. exists f.
    rewrite lookup_delete_ne; [done|]. intros ->. apply (Hleaf y). unfold parent_of. by rewrite Hy.
  - intros y [e [_ He]%lookup_delete_Some]. apply H4. eauto.
  - intros b y. unfold bucket. cbn [table]. rewrite (unhashed_table_spec _ _ _ _ _ _ Hok Hx), (H5 b y). split.
    + intros (Hne&e&He&Hh&Hb). exists e. by rewrite lookup_delete_ne.
    + intros (e&[Hne He]%lookup_delete_Some&Hh&Hb). split; [done|]. by exists e.
  - intros b. by eapply unhashed_table_nodup.
  - intros y z e f [_ Hy]%lookup_delete_Some [_ Hz]%lookup_delete_Some. by apply H7.
  - intros y e p f [_ Hy]%lookup_delete_Some Hh Hp [_ Hf]%lookup_delete_Some. by eapply H8.
  - rewrite H9, (inodes_delete _ x d Hx). solve_Permutation.
Qed.

Lemma iput_eq c i : iput c i = Dcache (dents c) (table c) (next c) (igets c) (option_list i ++ iputs c).
Proof. destruct i; [done|by destruct c]. Qed.

Lemma dput_spec fuel ext c o n :
  dc_ok (ext_opt o ext) c → (from_option S 0 o ≤ fuel)%nat → room n c →
  ∃ c', dput CONFIG_DEBUG_REFCOUNT fuel c o = Ok c' ∧ dc_ok ext c' ∧ evolves c c' ∧ room n c'.
Proof.
  revert ext c o. induction fuel as [|fuel IH]; intros ext c [x|] Hok Hf Hroom; simpl in Hf; [lia|by exists c|..|by exists c].
  assert (is_Some (dents c !! x)) as [d Hd].
  { apply (dc_ext _ _ Hok). simpl. unfold ext_add. rewrite decide_True by done. lia. }
  destruct (dc_count _ _ Hok x d Hd) as [Hc Hpos]. cbn [dput]. rewrite Hd. cbn [deref res_bind]. rewrite dec_ok by done. cbn [res_bind].
  destruct (Z.eqb_spec (d_count d) 1) as [E|E]; cbn [negb].
  - cbn [ext_opt] in Hok. pose proof (dc_remove ext c x d Hok Hd E) as Hok'.
    rewrite (hash_del_eq (put_dentry c x (with_count (d_count d - 1) d)) x (with_count (d_count d - 1) d)) by apply lookup_insert_eq.
    cbn [res_bind]. rewrite iput_eq. cbn [put_dentry dents table next igets iputs]. rewrite insert_insert_eq, delete_insert_eq.
    change (unhashed_table _ x (with_count (d_count d - 1) d)) with (unhashed_table c x d).
    destruct (IH ext _ (d_parent d) Hok') as (c'&Hex&Hokc&Hev&Hr).
    + destruct (d_parent d) as [p|] eqn:Ep; simpl; [|lia]. destruct (dc_parent _ _ Hok x d p Hd Ep). lia.
    + intros y e. cbn [dents]. intros [_ Hy]%lookup_delete_Some. by apply (Hroom y).
    + exists c'. split_and!; [done|done| |done]. etrans; [|exact Hev]. split; [done|]. cbn [dents]. intros y e _ [_ Hy]%lookup_delete_Some. eauto.
  - eexists. split; [done|]. split_and!.
    + eapply dc_recount; [done|done| | |lia].
      * intros y Hy. simpl. unfold ext_add. by rewrite decide_False.
      * simpl in Hc. unfold ext_add in Hc. rewrite decide_True in Hc by done. lia.
    + split; [done|]. intros y d' _. cbn [put_dentry dents]. intros [[<- <-]|[_ ?]]%lookup_insert_Some; [by exists d|eauto].
    + intros y d'. cbn [put_dentry dents]. intros [[<- <-]|[_ Hy]]%lookup_insert_Some; [|by apply (Hroom y)]. specialize (Hroom x d Hd). simpl. lia.
Qed.

(** ** Searching and publishing *)

Lemma find_in_spec c parent name l :
  (∀ x, x ∈ l → is_Some (dents c !! x)) →
  ∃ o, find_in c parent name l = Ok o ∧
    match o with
    | Some x => x ∈ l ∧ ∃ d, dents c !! x = Some d ∧ d_parent d = parent ∧ d_name d = name
    | None => ∀ x d, x ∈ l → dents c !! x = Some d → ¬ (d_parent d = parent ∧ d_name d = name)
    end.
Proof.
  induction l as [|x l IH]; intros Hl; [exists None; split; [done|]; by intros ?? ?%not_elem_of_nil|]. cbn [find_in].
  destruct (Hl x) as [d Hd]; [by left|]. rewrite Hd. cbn [deref res_bind].
  destruct IH as (o&Ho&Hspec); [intros y Hy; apply Hl; by right|].
  destruct (decide (d_parent d = parent ∧ d_name d = name)) as [[Hp Hn]|Hno].
  - rewrite !bool_decide_eq_true_2, Hn, Nat.eqb_refl by done. exists (Some x). split; [done|]. split; [by left|eauto].
  - assert (bool_decide (d_parent d = parent) && Nat.eqb (length (d_name d)) (length name) && bool_decide (d_name d = name) = false) as ->.
    { apply not_true_iff_false. rewrite !andb_true_iff, !bool_decide_eq_true. naive_solver. }
    exists o. split; [done|]. destruct o as [y|]; [destruct Hspec; split; [by right|done]|].
    intros y e [->|Hy]%elem_of_cons He; [by simplify_eq|eauto].
Qed.

Lemma find_locked_spec ext c parent name :
  dc_ok ext c →
  ∃ o, dcache_find_locked c parent name = Ok o ∧
    match o with
    | Some x => ∃ d, dents c !! x = Some d ∧ d_hashed d = true ∧ d_parent d = parent ∧ d_name d = name
    | None => ∀ x d, dents c !! x = Some d → d_hashed d = true → ¬ (d_parent d = parent ∧ d_name d = name)
    end.
Proof.
  intros Hok. destruct (find_in_spec c parent name (bucket c (slot parent name))) as (o&Ho&Hspec).
  { intros x (d&Hd&_)%(dc_table _ _ Hok). eauto. }
  exists o. split; [done|]. destruct o as [x|].
  - destruct Hspec as [Hx (d&Hd&?&?)]. apply (dc_table _ _ Hok) in Hx as (e&He&Hh&_). simplify_eq. eauto.
  - intros x d Hd Hh [<- <-]. apply (Hspec x d); [|done|done]. apply (dc_table _ _ Hok). eauto.
Qed.

(** What a published dentry under [p] stands for. *)
Definition stands_for (c : dcache) (p : nat) (name : list Z) (x : nat) (i : option Z) : Prop :=
  ∃ d, dents c !! x = Some d ∧ d_parent d = Some p ∧ d_name d = name ∧ d_inode d = i.

Lemma evolves_stands_for c c' p name x i :
  evolves c c' → (x < next c)%nat → is_Some (dents c' !! x) → stands_for c p name x i → stands_for c' p name x i.
Proof.
  intros Hev Hx [d' Hd'] (d&Hd&Hp&Hn&Hi). destruct (ev_kept _ _ Hev x d' Hx Hd') as (e&He&?&?&?). exists d'. split_and!; [done|congruence..].
Qed.

Lemma ext_add_live x ext c : dc_ok (ext_add x ext) c → is_Some (dents c !! x).
Proof. intros Hok. apply (dc_ext _ _ Hok). unfold ext_add. rewrite decide_True by done. lia. Qed.

(** The inode a live directory [p] gives for a name is that of any dentry published under it. *)
Lemma dcache_find_spec ext c p name n ip e :
  dc_ok ext c → room (n + 1) c → 0 ≤ n → dents c !! p = Some e → d_inode e = Some ip →
  ∃ o c', dcache_find CONFIG_DEBUG_REFCOUNT c (Some p) name = Ok (o, c') ∧ evolves c c' ∧ room n c' ∧
    match o with
    | Some x => dc_ok (ext_add x ext) c' ∧ ∃ i, lookup_inode ip name = inr i ∧ stands_for c' p name x i
    | None => c' = c
    end.
Proof.
  intros Hok Hroom Hn He Hi. unfold dcache_find. destruct (find_locked_spec ext c (Some p) name Hok) as (o&->&Hspec). cbn [res_bind].
  destruct o as [x|].
  - destruct Hspec as (d&Hd&Hh&Hp&Hnm). destruct (dget_spec ext c x n Hok ltac:(eauto) Hroom Hn) as (d0&Hd0&->&Hok'&Hev&Hr). assert (d0 = d) as -> by congruence.
    cbn [res_bind]. eexists _, _. split; [done|]. split; [done|]. split; [done|]. split; [done|].
    destruct (dc_coherent _ _ Hok x _ p e Hd Hh Hp He) as (i&Hi'&Hl). exists (d_inode d). split; [congruence|].
    exists (with_count (d_count d + 1) d). split; [apply lookup_insert_eq|done].
  - exists None, c. split_and!; [done|done| |done]. eapply room_le; [done|lia].
Qed.

Lemma room_bump n c : room n c → room n (Dcache (dents c) (table c) (S (next c)) (igets c) (iputs c)).
Proof. done. Qed.

Lemma dc_bump ext c : dc_ok ext c → dc_ok ext (Dcache (dents c) (table c) (S (next c)) (igets c) (iputs c)).
Proof.
  intros [H1 H2 H3 H4 H5 H6 H7 H8 H9]. split; try done. cbn. intros x Hx. specialize (H4 x Hx). lia.
Qed.

(** A new dentry: the reference taken on its parent is its own now. *)
Lemma dc_insert_new ext c x p name :
  dc_ok (ext_add p ext) c → dents c !! x = None → (x < next c)%nat → (p < x)%nat →
  dc_ok (ext_add x ext) (put_dentry c x (Dentry name (Some p) None 1 false)).
Proof.
  intros Hok Hx Hnx Hpx. pose proof (ext_add_live _ _ _ Hok) as Hp. destruct Hok as [H1 H2 H3 H4 H5 H6 H7 H8 H9].
  assert (ext x = 0%nat) as Hext.
  { destruct (ext x) eqn:E; [done|]. destruct (H2 x) as [d Hd]; [unfold ext_add; case_decide; lia|congruence]. }
  assert (size (children (dents c) x) = 0%nat) as Hch.
  { apply size_empty_iff. intros y. rewrite elem_children. split; [|set_solver]. unfold parent_of.
    destruct (dents c !! y) as [d|] eqn:Ey; [|done]. intros Hy. destruct (H3 y d x Ey Hy) as [_ [? ?]]. congruence. }
  assert (∀ y d, dents c !! y = Some d → y ≠ x) as Hne by (intros y d Hy ->; congruence).
  split; cbn [put_dentry dents table next igets iputs].
  - intros y d [[<- <-]|[Hyx Hy]]%lookup_insert_Some; rewrite children_insert by done; simpl.
    + unfold ext_add. rewrite (decide_True (P := x = x)) by done. rewrite Hch, Hext. rewrite decide_False by (intros [= ->]; lia). lia.
    + destruct (H1 y d Hy) as [Hc Hpos]. split; [|done]. rewrite Hc. unfold ext_add. rewrite (decide_False (P := y = x)) by done.
      repeat case_decide; simplify_eq; lia.
  - intros y Hy. destruct (decide (y = x)) as [->|Hyx]; [rewrite lookup_insert_eq; eauto|]. rewrite lookup_insert_ne by done.
    apply H2. unfold ext_add in *. rewrite decide_False in Hy by done. case_decide; lia.
  - intros y d q [[<- <-]|[Hyx Hy]]%lookup_insert_Some Hq; simpl in Hq; rewrite lookup_insert_is_Some'; [simplify_eq; auto|].
    destruct (H3 y d q Hy Hq). auto.
  - intros y Hy%lookup_insert_is_Some'. destruct Hy as [<-|Hy]; [done|auto].
  - intros b y. rewrite (H5 b y). split.
    + intros (d&Hd&?&?). exists d. rewrite lookup_insert_ne by (symmetry; eauto). done.
    + intros (d&[[<- <-]|[_ Hd]]%lookup_insert_Some&?&?); [done|eauto].
  - done.
  - intros y z d e [[<- <-]|[_ Hy]]%lookup_insert_Some [[<- <-]|[_ Hz]]%lookup_insert_Some; simpl; try done. by apply H7.
  - intros y d q e [[<- <-]|[_ Hy]]%lookup_insert_Some Hh Hq; [done|]. intros [[<- <-]|[_ He]]%lookup_insert_Some; [|by eapply H8].
    destruct (H3 y d _ Hy Hq) as [_ [? ?]]. congruence.
  - by rewrite H9, inodes_insert.
Qed.

Lemma d_alloc_spec fail ext c p name n :
  dc_ok ext c → is_Some (dents c !! p) → room (n + 1) c → 0 ≤ n → 1 + n < REFCOUNT_MAX →
  ∃ ret o c', d_alloc CONFIG_DEBUG_REFCOUNT fail c (Some p) name = Ok (ret, o, c') ∧ evolves c c' ∧ room n c' ∧
    ((ret = - ENOMEM ∧ fail (next c) = true ∧ o = None ∧ dc_ok ext c') ∨
     (ret = 0 ∧ ∃ x, o = Some x ∧ dc_ok (ext_add x ext) c' ∧ dents c' !! x = Some (Dentry name (Some p) None 1 false) ∧ x = next c)).
Proof.
  intros Hok Hp Hroom Hn Hmax. unfold d_alloc. destruct (fail (next c)) eqn:Ef.
  { eexists _, _, _. split; [done|]. split_and!; [|eapply room_le; [exact Hroom|lia]|left; split_and!; [done..|by apply dc_bump]].
    split; [simpl; lia|]. intros x d _ Hd. eauto. }
  destruct (dget_spec ext _ p n (dc_bump ext c Hok) Hp (room_bump _ _ Hroom) Hn) as (dp&Hdp&->&Hok'&Hev&Hr). cbn [res_bind].
  cbn in Hdp. set (c1 := put_dentry _ p _) in *.
  assert (∀ y, is_Some (dents c1 !! y) → (y < next c)%nat) as Hold.
  { intros y Hy. cbn in Hy. apply (dc_next _ _ Hok). apply lookup_insert_is_Some' in Hy as [<-|]; eauto. }
  assert (dents c1 !! next c = None) as Hfresh.
  { apply eq_None_not_Some. intros Hy%Hold. lia. }
  eexists _, _, _. split; [done|]. split_and!.
  - split; [simpl; lia|]. intros y d' Hy. cbn [put_dentry dents]. intros [[<- _]|[_ Hd']]%lookup_insert_Some; [lia|].
    by apply (ev_kept _ _ Hev) in Hd'; [|simpl; lia].
  - intros y d. cbn [put_dentry dents]. intros [[<- <-]|[_ Hy]]%lookup_insert_Some; [simpl; lia|]. by apply (Hr y).
  - right. split; [done|]. exists (next c). split; [done|]. split; [|split; [apply lookup_insert_eq|done]].
    apply dc_insert_new; [done|done|simpl; lia|by apply (dc_next _ _ Hok)].
Qed.

Lemma no_children ext c x d : dc_ok (ext_add x ext) c → dents c !! x = Some d → d_count d = 1 → ∀ y, parent_of (dents c) y ≠ Some x.
Proof.
  intros Hok Hx Hone y Hy. destruct (dc_count _ _ Hok x d Hx) as [Hc _]. unfold ext_add in Hc. rewrite decide_True in Hc by done.
  apply elem_children in Hy. assert (size (children (dents c) x) = 0%nat) as Hs by lia. apply size_empty_inv in Hs. set_solver.
Qed.

(** The file system gives a private dentry its inode. *)
Lemma dc_set_inode ext c x d i :
  dc_ok (ext_add x ext) c → dents c !! x = Some d → d_count d = 1 → d_hashed d = false → d_inode d = None →
  dc_ok (ext_add x ext) (Dcache (<[x := with_inode (Some i) d]> (dents c)) (table c) (next c) (i :: igets c) (iputs c)).
Proof.
  intros Hok Hx Hone Hh Hi. pose proof (no_children ext c x d Hok Hx Hone) as Hleaf. destruct Hok as [H1 H2 H3 H4 H5 H6 H7 H8 H9].
  assert (∀ y, parent_of (<[x := with_inode (Some i) d]> (dents c)) y = parent_of (dents c) y) as Hpar.
  { intros y. rewrite parent_of_insert. case_decide; [subst; unfold parent_of; by rewrite Hx|done]. }
  assert (∀ y, is_Some (<[x := with_inode (Some i) d]> (dents c) !! y) ↔ is_Some (dents c !! y)) as Hdom.
  { intros y. rewrite lookup_insert_is_Some'. split; [intros [<-|?]; eauto|by right]. }
  split; cbn [dents table next igets iputs].
  - intros y e [[<- <-]|[_ Hy]]%lookup_insert_Some; rewrite (children_same (dents c)) by done; [exact (H1 x d Hx)|by apply H1].
  - intros y Hy. by apply Hdom, H2.
  - intros y e q [[<- <-]|[_ Hy]]%lookup_insert_Some Hq; rewrite Hdom; [by apply (H3 x d)|by apply (H3 y e)].
  - intros y Hy. by apply H4, Hdom.
  - intros b y. unfold bucket. cbn [table]. rewrite (H5 b y). split.
    + intros (e&He&?&?). exists e. rewrite lookup_insert_ne; [done|]. intros ->. congruence.
    + intros (e&[[<- <-]|[_ He]]%lookup_insert_Some&?&?); [simpl in *; congruence|eauto].
  - done.
  - intros y z e f [[<- <-]|[_ Hy]]%lookup_insert_Some [[<- <-]|[_ Hz]]%lookup_insert_Some; simpl; try congruence. by apply H7.
  - intros y e q f [[<- <-]|[_ Hy]]%lookup_insert_Some He Hq; [simpl in *; congruence|].
    intros [[<- <-]|[_ Hf]]%lookup_insert_Some; [|by eapply H8]. destruct (Hleaf y). unfold parent_of. by rewrite Hy.
  - rewrite H9, <-(insert_delete_eq (dents c)), (inodes_insert (delete x (dents c))) by apply lookup_delete_eq. simpl.
    rewrite (inodes_delete (dents c) x d Hx), Hi. simpl. by rewrite Permutation_middle.
Qed.

Lemma hash_add_spec ext c x d p e :
  dc_ok ext c → dents c !! x = Some d → d_hashed d = false → d_parent d = Some p → dents c !! p = Some e →
  (∃ i, d_inode e = Some i ∧ lookup_inode i (d_name d) = inr (d_inode d)) →
  (∀ y f, dents c !! y = Some f → d_hashed f = true → ¬ (d_parent f = d_parent d ∧ d_name f = d_name d)) →
  ∃ c', hash_add c x (slot (d_parent d) (d_name d)) = Ok c' ∧ dc_ok ext c' ∧ dents c' = <[x := with_hashed true d]> (dents c) ∧ next c' = next c.
Proof.
  intros [H1 H2 H3 H4 H5 H6 H7 H8 H9] Hx Hh Hp He Hcoh Hfree. unfold hash_add. rewrite Hx. cbn [deref res_bind]. eexists. split; [done|]. split; [|done].
  set (b0 := slot (d_parent d) (d_name d)).
  assert (∀ y, parent_of (<[x := with_hashed true d]> (dents c)) y = parent_of (dents c) y) as Hpar.
  { intros y. rewrite parent_of_insert. case_decide; [subst; unfold parent_of; by rewrite Hx|done]. }
  assert (∀ y, is_Some (<[x := with_hashed true d]> (dents c) !! y) ↔ is_Some (dents c !! y)) as Hdom.
  { intros y. rewrite lookup_insert_is_Some'. split; [intros [<-|?]; eauto|by right]. }
  assert (x ∉ bucket c b0) as Hnb by (intros (f&Hf&?&_)%H5; congruence).
  assert (∀ b, bucket (put_bucket (put_dentry c x (with_hashed true d)) b0 (x :: bucket c b0)) b = if decide (b = b0) then x :: bucket c b0 else bucket c b) as Hbk.
  { intros b. unfold bucket at 1. cbn [put_bucket put_dentry table]. case_decide; [subst; by rewrite lookup_insert_eq|by rewrite lookup_insert_ne by done]. }
  split; cbn [put_bucket put_dentry dents next igets iputs].
  - intros y f [[<- <-]|[_ Hy]]%lookup_insert_Some; rewrite (children_same (dents c)) by done; [exact (H1 x d Hx)|by apply H1].
  - intros y Hy. by apply Hdom, H2.
  - intros y f q [[<- <-]|[_ Hy]]%lookup_insert_Some Hq; rewrite Hdom; [by apply (H3 x d)|by apply (H3 y f)].
  - intros y Hy. by apply H4, Hdom.
  - intros b y. rewrite Hbk. split.
    + intros Hy. assert (y = x ∧ b = b0 ∨ y ≠ x ∧ y ∈ bucket c b) as [[-> ->]|[Hyx Hin]].
      { case_decide as Hb; [subst; apply elem_of_cons in Hy as [->|Hy]; [by left|right]|right]; (split; [|done]); intros ->; [done|].
        apply H5 in Hy as (f&Hf&?&_). congruence. }
      * exists (with_hashed true d). by rewrite lookup_insert_eq.
      * apply H5 in Hin as (f&Hf&?&?). exists f. by rewrite lookup_insert_ne.
    + intros (f&[[<- <-]|[Hne Hf]]%lookup_insert_Some&Hhf&->).
      * change (slot (d_parent (with_hashed true d)) (d_name (with_hashed true d))) with b0. rewrite decide_True by done. by left.
      * assert (y ∈ bucket c (slot (d_parent f) (d_name f))) by (apply H5; eauto). case_decide as Hb; [right; by rewrite <-Hb|done].
  - intros b. rewrite Hbk. case_decide; [|done]. by apply NoDup_cons.
  - intros y z f g [[<- <-]|[_ Hy]]%lookup_insert_Some [[<- <-]|[_ Hz]]%lookup_insert_Some; simpl; intros Hf Hg Hpp Hnn; [done| | |by eapply H7].
    + by destruct (Hfree z g Hz Hg).
    + by destruct (Hfree y f Hy Hf).
  - assert (x ≠ p) as Hxp by (destruct (H3 x d p Hx Hp); lia).
    intros y f q g [[<- <-]|[_ Hy]]%lookup_insert_Some Hf Hq.
    + simpl in Hq. rewrite Hp in Hq. injection Hq as <-. rewrite lookup_insert_ne by done. intros Hg. simplify_eq. done.
    + intros [[<- <-]|[_ Hg]]%lookup_insert_Some; [apply (H8 y f x d)|apply (H8 y f q g)]; done.
  - rewrite H9. f_equiv. symmetry. by eapply inodes_update.
Qed.

(** The caller's reference to [x] becomes one to the dentry that is published. *)
Lemma dcache_insert_spec ext c x d p e i n :
  dc_ok (ext_add x ext) c → room (n + 1) c → 0 ≤ n → dents c !! x = Some d → d_hashed d = false → d_parent d = Some p →
  dents c !! p = Some e → d_inode e = Some i → lookup_inode i (d_name d) = inr (d_inode d) →
  ∃ y c', dcache_insert CONFIG_DEBUG_REFCOUNT c x = Ok (y, c') ∧ dc_ok (ext_add y ext) c' ∧ evolves c c' ∧ room n c' ∧
    stands_for c' p (d_name d) y (d_inode d).
Proof.
  intros Hok Hroom Hn Hx Hh Hp He Hi Hl. unfold dcache_insert. rewrite Hx. cbn [deref res_bind]. rewrite Hh. cbn [negb Assert res_bind]. rewrite Hp.
  destruct (find_locked_spec _ c (Some p) (d_name d) Hok) as (o&->&Hspec). cbn [res_bind]. destruct o as [y|].
  - destruct Hspec as (f&Hf&Hhf&Hpf&Hnf). destruct (dget_spec _ c y n Hok ltac:(eauto) Hroom Hn) as (f0&Hf0&->&Hok1&Hev1&Hr1).
    assert (f0 = f) as -> by congruence. cbn [res_bind]. set (c1 := put_dentry c y _) in *.
    destruct (dput_spec (S (next c1)) (ext_add y ext) c1 (Some x) n) as (c'&->&Hok'&Hev'&Hr').
    + simpl. eapply dc_ok_ext; [|exact Hok1]. intros z. apply ext_add_comm.
    + simpl. pose proof (dc_next _ _ Hok x ltac:(eauto)). lia.
    + done.
    + cbn [res_bind]. exists y, c'. split_and!; [done|done|by etrans|done|].
      apply (evolves_stands_for c); [by etrans|apply (dc_next _ _ Hok); eauto|by eapply ext_add_live|].
      exists f. split_and!; [done..|]. destruct (dc_coherent _ _ Hok y f p e Hf Hhf Hpf He) as (i'&Hi'&Hl'). rewrite Hnf in Hl'. congruence.
  - destruct (hash_add_spec _ c x d p e Hok Hx Hh Hp He) as (c'&Hadd&Hok'&Hd'&Hnx); [eauto|intros y f Hf Hhf; rewrite Hp; exact (Hspec y f Hf Hhf)|].
    rewrite Hp in Hadd. rewrite Hadd. cbn [res_bind]. exists x, c'. split_and!; [done|done| | |].
    + split; [lia|]. intros y g _. rewrite Hd'. intros [[<- <-]|[_ ?]]%lookup_insert_Some; [exists d|]; eauto.
    + intros y g. rewrite Hd'. intros [[<- <-]|[_ Hy]]%lookup_insert_Some; [specialize (Hroom x d Hx)|specialize (Hroom y g Hy)]; simpl; lia.
    + exists (with_hashed true d). rewrite Hd', lookup_insert_eq. done.
Qed.
End operations.
End invariant.
