(* ===== verification/Path.v ===== *)
(** * Path resolution: [fs/vfs/path.c], [vfs_get_root] of [fs/vfs/super.c] and
    [ext2_lookup] of [fs/ext2/namei.c]

    A path is walked from the root or the working directory, a component at a time,
    each looked up in the directory-entry cache and then in the file system.  The
    walk holds one reference, on the dentry it has reached.  A path string is the
    bytes before its terminator; reading past the terminator faults.  The operations
    of a directory's inode are an interface: whether it can be searched, and what it
    answers for a name.  The directory's mutex has no state here, since one call runs
    at a time.

    The theorem relates the walk to a reference resolution on lists of components and
    of inodes, and accounts for every reference. *)
From stdpp Require Import base tactics numbers list gmap.
From S2P Require Import Prelude Refcount Ext2dir Dcache.

Definition SLASH : Z := 47.
Definition NAME_MAX : nat := 255.
Definition S_ISDIR (m : Z) : bool := Z.land m S_IFMT =? S_IFDIR.
Definition S_ISLNK (m : Z) : bool := Z.land m S_IFMT =? S_IFLNK.

(** [i_mode], whether [i_ops->lookup] is there, and what it answers. *)
Class InodeOps := {
  i_mode : Z → Z;
  has_lookup : Z → bool;
  lookup_inode : Z → list Z → Z + option Z
}.

Section path.
Context `{InodeOps} (CONFIG_DEBUG_REFCOUNT : bool) (fail : nat → bool).

Definition path_get (c : dcache) (x : nat) : res dcache := dget CONFIG_DEBUG_REFCOUNT c x.
Definition path_put (c : dcache) (x : nat) : res dcache := dput CONFIG_DEBUG_REFCOUNT (S (next c)) c (Some x).

(** The answer of the file system stored in the dentry. *)
Definition d_lookup (c : dcache) (dir : Z) (x : nat) : res (Z * dcache) :=
  let! d := deref (dents c !! x) in
  match lookup_inode dir (d_name d) with
  | inl e => Ok (e, c)
  | inr None => Ok (0, c)
  | inr (Some i) => Ok (0, Dcache (<[x := with_inode (Some i) d]> (dents c)) (table c) (next c) (i :: igets c) (iputs c))
  end.

Definition path_lookup_locked (c : dcache) (base : nat) (name : list Z) : res (Z * option nat * dcache) :=
  let! b := deref (dents c !! base) in
  match d_inode b with
  | None => Panic
  | Some dir =>
      let! _ := Assert (S_ISDIR (i_mode dir)) in
      if Nat.eqb (length name) 0 then Ok (- ENOENT, None, c) else
      if (NAME_MAX <? length name)%nat then Ok (- ENAMETOOLONG, None, c) else
      if bool_decide (SLASH ∈ name) then Ok (- EINVAL, None, c) else
      if bool_decide (name = [46]) then let! c := path_get c base in Ok (0, Some base, c) else
      if bool_decide (name = [46; 46]) then
        let dentry := default base (d_parent b) in
        let! c := dget CONFIG_DEBUG_REFCOUNT c dentry in
        Ok (0, Some dentry, c) else
      if negb (has_lookup dir) then Ok (- EOPNOTSUPP, None, c) else
      let! (found, c) := dcache_find CONFIG_DEBUG_REFCOUNT c (Some base) name in
      match found with
      | Some x => Ok (0, Some x, c)
      | None =>
          let! (ret, dentry, c) := d_alloc CONFIG_DEBUG_REFCOUNT fail c (Some base) name in
          if truth ret then Ok (ret, None, c) else
          let! dentry := deref dentry in
          let! (ret, c) := d_lookup c dir dentry in
          if truth ret then let! c := dput CONFIG_DEBUG_REFCOUNT (S (next c)) c (Some dentry) in Ok (ret, None, c) else
          let! (x, c) := dcache_insert CONFIG_DEBUG_REFCOUNT c dentry in
          Ok (0, Some x, c)
      end
  end.

Definition path_lookup (c : dcache) (base : nat) (name : list Z) : res (Z * option nat * dcache) :=
  let! b := deref (dents c !! base) in
  match d_inode b with
  | None => Ok (- ENOENT, None, c)
  | Some dir => if negb (S_ISDIR (i_mode dir)) then Ok (- ENOTDIR, None, c) else path_lookup_locked c base name
  end.

(** The root dentry, if a file system is mounted. *)
Definition vfs_get_root (root : option nat) (c : dcache) : res (Z * option nat * dcache) :=
  match root with
  | None => Ok (- ENODEV, None, c)
  | Some x => let! c := path_get c x in Ok (0, Some x, c)
  end.

Definition char (path : list Z) (i : nat) : res Z := arr_get (path ++ [0]) i.

Fixpoint component_end (fuel : nat) (path : list Z) (cursor : nat) : res nat :=
  match fuel with
  | O => Loop
  | S fuel =>
      let! ch := char path cursor in
      if truth ch && negb (ch =? SLASH) then component_end fuel path (S cursor) else Ok cursor
  end.

(** The inode of a dentry. *)
Definition inode_of (c : dcache) (x : nat) : res (option Z) := let! d := deref (dents c !! x) in Ok (d_inode d).

Record walk := Walk { w_cur : nat; w_start : nat; w_len : nat }.

(** The loop over the components: 0 when it ends, or the error to leave with. *)
Fixpoint walk_loop (fuel : nat) (path : list Z) (parent : bool) (w : walk) (cursor : nat) (c : dcache) : res (Z * walk * dcache) :=
  let! ch := char path cursor in
  if truth ch then
    match fuel with
    | O => Loop
    | S fuel =>
        let start := cursor in
        let! cursor := component_end (S (length path)) path cursor in
        let len := (cursor - start)%nat in
        let w := Walk (w_cur w) start len in
        if (NAME_MAX <? len)%nat then Ok (- ENAMETOOLONG, w, c) else
        let! ch := char path cursor in
        let! at_last := if parent then if truth ch then let! n := char path (S cursor) in Ok (negb (truth n)) else Ok true else Ok false in
        if at_last then Ok (0, w, c) else
        let name := take len (drop start path) in
        let! (ret, next, c) := path_lookup c (w_cur w) name in
        if truth ret then Ok (ret, w, c) else
        let! next := deref next in
        let! c := path_put c (w_cur w) in
        let w := Walk next start len in
        let! i := inode_of c next in
        match i with
        | None => Ok (- ENOENT, w, c)
        | Some i =>
            if S_ISLNK (i_mode i) then Ok (- EOPNOTSUPP, w, c) else
            if negb (truth ch) then Ok (0, w, c) else
            let cursor := S cursor in
            let! ch := char path cursor in
            if ch =? SLASH then Ok (- EINVAL, w, c) else walk_loop fuel path parent w cursor c
        end
    end
  else Ok (0, w, c).

Definition path_walk (root cwd : option nat) (path : list Z) (parent : bool) (c : dcache) : res (Z * option walk * dcache) :=
  let! ch := char path 0 in
  if negb (truth ch) then Ok (- ENOENT, None, c) else
  let! (ret, base, cursor, c) :=
    if ch =? SLASH then
      let! n := char path 1 in
      if n =? SLASH then Ok (- EINVAL, None, 0%nat, c) else
      let! (ret, base, c) := vfs_get_root root c in
      Ok (ret, base, 1%nat, c)
    else match cwd with
      | None => Ok (- ENOENT, None, 0%nat, c)
      | Some x => let! c := path_get c x in Ok (0, Some x, 0%nat, c)
      end in
  if truth ret then Ok (ret, None, c) else
  let! cur := deref base in
  let! (ret, w, c) := walk_loop (S (length path)) path parent (Walk cur cursor 0) cursor c in
  let! ret :=
    if truth ret then Ok ret else
    let! i := inode_of c (w_cur w) in
    match i with
    | None => Ok (- ENOENT)
    | Some i =>
        let! trail := if parent then Ok true else let! ch := char path (length path - 1) in Ok (ch =? SLASH) in
        Ok (if trail && negb (S_ISDIR (i_mode i)) then - ENOTDIR else 0)
    end in
  if truth ret then let! c := path_put c (w_cur w) in Ok (ret, None, c) else Ok (0, Some w, c).

Definition path_resolve (root cwd : option nat) (path : list Z) (c : dcache) : res (Z * option nat * dcache) :=
  let! (ret, w, c) := path_walk root cwd path false c in Ok (ret, w_cur <$> w, c).
(** The directory, and where in the path the last name is. *)
Definition path_resolve_parent (root cwd : option nat) (path : list Z) (c : dcache) : res (Z * option walk * dcache) :=
  path_walk root cwd path true c.
End path.

(** ** The lookup of an ext2 directory *)

(** [dirs]: the directory of an inode number; [iget]: what reading an inode returns. *)
Definition ext2_lookup (sb : dir_sb) (mode : Z → Z) (io : Z → nat → Z) (dirs : Z → dir) (iget : Z → Z) (dir : Z) (name : list Z) : res (Z + option Z) :=
  if negb (S_ISDIR (mode dir)) then Ok (inl (- ENOTDIR)) else
  if (NAME_MAX <? length name)%nat then Ok (inl (- ENAMETOOLONG)) else
  let! r := ext2_find_ino sb (io dir) (dirs dir) name in
  match r with
  | inl ret => if ret =? - ENOENT then Ok (inr None) else Ok (inl ret)
  | inr ino => if truth (iget ino) then Ok (inl (iget ino)) else Ok (inr (Some ino))
  end.

(** ** The reference resolution *)

(** The components between the slashes. *)
Fixpoint split (l : list Z) : list (list Z) :=
  match l with
  | [] => [[]]
  | x :: l => if x =? SLASH then [] :: split l else match split l with n :: k => (x :: n) :: k | [] => [] end
  end.

(** A place: the names and inodes from a dentry up to the root. *)
Definition place : Type := list (list Z * option Z).

Inductive at_place (m : gmap nat dentry) : nat → place → Prop :=
  | at_root x d : m !! x = Some d → d_parent d = None → at_place m x [(d_name d, d_inode d)]
  | at_child x d p l : m !! x = Some d → d_parent d = Some p → at_place m p l → at_place m x ((d_name d, d_inode d) :: l).

Section reference.
Context `{InodeOps}.

Definition ref_step (l : place) (name : list Z) : Z + place :=
  match l with
  | (_, Some dir) :: up =>
      if negb (S_ISDIR (i_mode dir)) then inl (- ENOTDIR) else
      if Nat.eqb (length name) 0 then inl (- ENOENT) else
      if (NAME_MAX <? length name)%nat then inl (- ENAMETOOLONG) else
      if decide (SLASH ∈ name) then inl (- EINVAL) else
      if decide (name = [46]) then inr l else
      if decide (name = [46; 46]) then inr (if up is [] then l else up) else
      if negb (has_lookup dir) then inl (- EOPNOTSUPP) else
      match lookup_inode dir name with inl e => inl e | inr i => inr ((name, i) :: l) end
  | _ => inl (- ENOENT)
  end.

(** A step that has to arrive at something other than a link. *)
Definition ref_enter (l : place) (name : list Z) : Z + place :=
  match ref_step l name with
  | inl e => inl e
  | inr l' => match l' with
    | (_, Some i) :: _ => if S_ISLNK (i_mode i) then inl (- EOPNOTSUPP) else inr l'
    | _ => inl (- ENOENT)
    end
  end.

Definition no_more (names : list (list Z)) : bool := match names with [] | [[]] => true | _ => false end.

(** The place the names lead to, or that of their parent, and the last name. *)
Fixpoint ref_walk (parent : bool) (l : place) (last : list Z) (names : list (list Z)) : Z + place * list Z :=
  match names with
  | [] => inr (l, last)
  | n :: rest =>
      if no_more names then inr (l, last) else
      if (NAME_MAX <? length n)%nat then inl (- ENAMETOOLONG) else
      if parent && no_more rest then inr (l, n) else
      match ref_enter l n with
      | inl e => inl e
      | inr l' => match rest with
        | [] :: _ :: _ => inl (- EINVAL)
        | _ => ref_walk parent l' n rest
        end
      end
  end.

Definition ref_path (root cwd : option place) (path : list Z) (parent : bool) : Z + place * list Z :=
  let finish l :=
    match ref_walk parent l [] (split (if decide (head path = Some SLASH) then tail path else path)) with
    | inl e => inl e
    | inr (((_, Some i) :: _) as l, last_name) =>
        if (parent || bool_decide (last path = Some SLASH)) && negb (S_ISDIR (i_mode i)) then inl (- ENOTDIR) else inr (l, last_name)
    | inr (_, _) => inl (- ENOENT)
    end in
  match path with
  | [] => inl (- ENOENT)
  | x :: rest =>
      if x =? SLASH then
        if decide (head rest = Some SLASH) then inl (- EINVAL) else
        match root with None => inl (- ENODEV) | Some l => finish l end
      else match cwd with None => inl (- ENOENT) | Some l => finish l end
  end.
End reference.

(** ** Places of dentries *)

Lemma at_place_live m x l : at_place m x l → is_Some (m !! x).
Proof. destruct 1; eauto. Qed.

Lemma at_place_head m x l d : at_place m x l → m !! x = Some d → ∃ up, l = (d_name d, d_inode d) :: up ∧
  match d_parent d with Some p => at_place m p up | None => up = [] end.
Proof. intros Hat Hd. destruct Hat as [x e He Hp|x e p l He Hp Hat]; simplify_eq; rewrite Hp; eauto. Qed.

Section steps.
Context `{InodeOps} (CONFIG_DEBUG_REFCOUNT : bool) (fail : nat → bool).
Context (Hneg : ∀ i n e, lookup_inode i n = inl e → e < 0).
Local Abbreviation dc_ok := (dc_ok lookup_inode).

Lemma at_place_evolves ext c c' x l :
  dc_ok ext c' → evolves c c' → (∀ y, is_Some (dents c !! y) → (y < next c)%nat) → is_Some (dents c' !! x) →
  at_place (dents c) x l → at_place (dents c') x l.
Proof.
  intros Hok Hev Hnx Hx Hat. revert Hx. induction Hat as [x d Hd Hp|x d p l Hd Hp Hat IH]; intros [d' Hd'];
    destruct (ev_kept _ _ Hev x d' (Hnx x ltac:(eauto)) Hd') as (e&He&Hn&Hp'&Hi); simplify_eq; rewrite <-Hn, <-Hi.
  - constructor; [done|congruence].
  - assert (d_parent d' = Some p) as Hpp by congruence. apply at_child with p; [done|done|]. apply IH. by apply (dc_parent _ _ _ Hok x d' p).
Qed.

Lemma at_place_step ext c c' x l : dc_ok ext c → dc_ok (ext_add x ext) c' → evolves c c' → at_place (dents c) x l → at_place (dents c') x l.
Proof. intros Hc Hc' Hev. apply (at_place_evolves _ c c' x l Hc' Hev); [apply (dc_next _ _ _ Hc)|by eapply ext_add_live]. Qed.

Lemma dput_one ext c x n : dc_ok (ext_add x ext) c → room n c →
  ∃ c', dput CONFIG_DEBUG_REFCOUNT (S (next c)) c (Some x) = Ok c' ∧ dc_ok ext c' ∧ evolves c c' ∧ room n c'.
Proof.
  intros Hok Hr. apply (dput_spec lookup_inode CONFIG_DEBUG_REFCOUNT); [done| |done]. simpl. pose proof (ext_add_live _ _ _ _ Hok) as Hx. apply (dc_next _ _ _ Hok) in Hx. lia.
Qed.

(** ** One component *)

Definition out_of_memory (ret : Z) : Prop := ret = - ENOMEM ∧ ∃ k, fail k = true.

Definition looked_up (ext : nat → nat) (c : dcache) (l : place) (name : list Z) (n : Z) (r : res (Z * option nat * dcache)) : Prop :=
  ∃ ret o c', r = Ok (ret, o, c') ∧ evolves c c' ∧ room n c' ∧
    match o with
    | Some y => ret = 0 ∧ dc_ok (ext_add y ext) c' ∧ ∃ l', ref_step l name = inr l' ∧ at_place (dents c') y l'
    | None => ret < 0 ∧ dc_ok ext c' ∧ (ref_step l name = inl ret ∨ out_of_memory ret)
    end.

Lemma looked_up_error ext c l name n e : dc_ok ext c → room n c → e < 0 → ref_step l name = inl e → looked_up ext c l name n (Ok (e, None, c)).
Proof. intros. exists e, None, c. split_and!; [done|done|done|done|done|by left]. Qed.

Lemma looked_up_get ext c l name n x l' :
  dc_ok ext c → room (n + 1) c → 0 ≤ n → at_place (dents c) x l' → ref_step l name = inr l' →
  looked_up ext c l name n (let! c := dget CONFIG_DEBUG_REFCOUNT c x in Ok (0, Some x, c)).
Proof.
  intros Hok Hr Hn Hat Hs. destruct (dget_spec lookup_inode CONFIG_DEBUG_REFCOUNT ext c x n Hok (at_place_live _ _ _ Hat) Hr Hn) as (d&_&->&Hok'&Hev&Hr').
  cbn [res_bind]. eexists _, (Some x), _. split; [done|]. split_and!; [done|done|done|done|]. exists l'. split; [done|]. by apply (at_place_step ext c).
Qed.

Lemma stands_for_place c p name x i l : at_place (dents c) p l → stands_for c p name x i → at_place (dents c) x ((name, i) :: l).
Proof. intros Hp (d&Hd&Hpar&<-&<-). by apply at_child with p. Qed.

(** The dentry is new: the file system is asked, and the answer published. *)
Lemma d_lookup_spec ext c p l ip name n :
  dc_ok ext c → room (n + 2) c → 0 ≤ n → at_place (dents c) p ((name.1, Some ip) :: l) →
  ref_step ((name.1, Some ip) :: l) name.2 = match lookup_inode ip name.2 with inl e => inl e | inr i => inr ((name.2, i) :: (name.1, Some ip) :: l) end →
  looked_up ext c ((name.1, Some ip) :: l) name.2 n
    (let! (ret, dentry, c) := d_alloc CONFIG_DEBUG_REFCOUNT fail c (Some p) name.2 in
     if truth ret then Ok (ret, None, c) else
     let! dentry := deref dentry in
     let! (ret, c) := d_lookup c ip dentry in
     if truth ret then let! c := dput CONFIG_DEBUG_REFCOUNT (S (next c)) c (Some dentry) in Ok (ret, None, c) else
     let! (x, c) := dcache_insert CONFIG_DEBUG_REFCOUNT c dentry in
     Ok (0, Some x, c)).
Proof.
  intros Hok Hr Hn Hat Hstep. pose proof (at_place_live _ _ _ Hat) as [e He]. pose proof (at_place_head _ _ _ _ Hat He) as (up&[= Hen Hei <-]&_).
  assert (1 + (n + 1) < REFCOUNT_MAX) as Hmax. { pose proof (Hr p e He). destruct (dc_count _ _ _ Hok p e He). lia. }
  destruct (d_alloc_spec lookup_inode CONFIG_DEBUG_REFCOUNT fail ext c p name.2 (n + 1) Hok ltac:(eauto)) as (ret&o&c1&->&Hev1&Hr1&Hcase); [eapply room_le; [exact Hr|lia]|lia|done|].
  cbn [res_bind]. destruct Hcase as [(->&Hf&->&Hok1)|(->&x&->&Hok1&Hx&Hxn)].
  { exists (- ENOMEM), None, c1. split; [done|]. split_and!; [done|eapply room_le; [done|lia]|done|done|]. right. split; [done|eauto]. }
  cbn [truth Z.eqb negb deref res_bind]. unfold d_lookup. rewrite Hx. cbn [deref res_bind d_name].
  assert (∃ e1, dents c1 !! p = Some e1 ∧ d_inode e1 = Some ip) as (e1&He1&Hi1).
  { destruct (dc_parent _ _ _ Hok1 x _ p Hx eq_refl) as [_ [e1 He1]]. exists e1. split; [done|].
    destruct (ev_kept _ _ Hev1 p e1) as (e0&He0&_&_&Hi0); [by apply (dc_next _ _ _ Hok)|done|]. congruence. }
  destruct (lookup_inode ip name.2) as [err|oi] eqn:El.
  - pose proof (Hneg _ _ _ El). cbn [res_bind]. unfold truth. rewrite (proj2 (Z.eqb_neq err 0)) by lia. cbn [negb].
    destruct (dput_one ext c1 x (n + 1) Hok1 Hr1) as (c2&->&Hok2&Hev2&Hr2). cbn [res_bind].
    exists err, None, c2. split; [done|]. split_and!; [by etrans|eapply room_le; [done|lia]|lia|done|by left].
  - set (c2 := match oi with None => c1 | Some i => Dcache (<[x := with_inode (Some i) (Dentry name.2 (Some p) None 1 false)]> (dents c1)) (table c1) (next c1) (i :: igets c1) (iputs c1) end).
    assert (dc_ok (ext_add x ext) c2 ∧ dents c2 !! x = Some (Dentry name.2 (Some p) oi 1 false) ∧ dents c2 !! p = Some e1 ∧ next c2 = next c1 ∧
      (∀ y, y ≠ x → dents c2 !! y = dents c1 !! y)) as (Hok2&Hx2&Hp2&Hn2&Hoth).
    { assert (x ≠ p) by (pose proof (dc_parent _ _ _ Hok1 x _ p Hx eq_refl) as [? _]; lia). destruct oi as [i|]; [|done].
      split; [by apply dc_set_inode|]. cbn [c2 dents next]. rewrite lookup_insert_eq, lookup_insert_ne by done. split_and!; [done..|].
      intros y Hy. by rewrite lookup_insert_ne. }
    assert (evolves c c2) as Hev2.
    { pose proof (ev_next _ _ Hev1). split; [lia|]. intros y d' Hy. rewrite Hoth by lia. by apply (ev_kept _ _ Hev1). }
    assert (room (n + 1) c2) as Hr2.
    { intros y d Hy. destruct (decide (y = x)) as [->|Hyx]; [simplify_eq; simpl; lia|]. rewrite Hoth in Hy by done. by apply (Hr1 y). }
    match goal with |- looked_up _ _ _ _ _ (res_bind ?m _) => assert (m = Ok (0, c2)) as -> by (by destruct oi) end.
    cbn [res_bind truth Z.eqb negb].
    destruct (dcache_insert_spec lookup_inode CONFIG_DEBUG_REFCOUNT ext c2 x _ p e1 ip n Hok2 Hr2 Hn Hx2 eq_refl eq_refl Hp2 Hi1 El) as (y&c3&->&Hok3&Hev3&Hr3&Hst).
    cbn [res_bind]. exists 0, (Some y), c3. split; [done|]. split_and!; [by etrans|done|done|done|].
    exists ((name.2, oi) :: (name.1, Some ip) :: l). split; [done|]. apply (stands_for_place c3 p name.2 y oi); [|done].
    apply (at_place_evolves (ext_add y ext) c c3); [done|by etrans|apply (dc_next _ _ _ Hok)| |done].
    destruct Hst as (d&Hd&Hdp&_). by apply (dc_parent _ _ _ Hok3 y d p).
Qed.

Lemma path_lookup_spec ext c x l name n :
  dc_ok ext c → room (n + 2) c → 0 ≤ n → at_place (dents c) x l →
  looked_up ext c l name n (path_lookup CONFIG_DEBUG_REFCOUNT fail c x name).
Proof.
  intros Hok Hr Hn Hat. pose proof (at_place_live _ _ _ Hat) as [d Hd]. destruct (at_place_head _ _ _ _ Hat Hd) as (up&->&Hup).
  assert (room n c) as Hrn by (eapply room_le; [exact Hr|lia]). assert (room (n + 1) c) as Hr1 by (eapply room_le; [exact Hr|lia]).
  unfold path_lookup. rewrite Hd. cbn [deref res_bind]. destruct (d_inode d) as [dir|] eqn:Ei; [|by apply looked_up_error].
  destruct (S_ISDIR (i_mode dir)) eqn:Edir; cbn [negb].
  2: { apply looked_up_error; [done..|]. cbn [ref_step]. by rewrite Edir. }
  unfold path_lookup_locked. rewrite Hd. cbn [deref res_bind]. rewrite Ei, Edir. cbn [Assert res_bind].
  assert (ref_step ((d_name d, Some dir) :: up) name =
      if Nat.eqb (length name) 0 then inl (- ENOENT) else
      if (NAME_MAX <? length name)%nat then inl (- ENAMETOOLONG) else
      if decide (SLASH ∈ name) then inl (- EINVAL) else
      if decide (name = [46]) then inr ((d_name d, Some dir) :: up) else
      if decide (name = [46; 46]) then inr (if up is [] then (d_name d, Some dir) :: up else up) else
      if negb (has_lookup dir) then inl (- EOPNOTSUPP) else
      match lookup_inode dir name with inl e => inl e | inr i => inr ((name, i) :: (d_name d, Some dir) :: up) end) as Hs.
  { cbn [ref_step]. by rewrite Edir. }
  destruct (Nat.eqb (length name) 0); [by apply looked_up_error|]. destruct (NAME_MAX <? length name)%nat; [by apply looked_up_error|].
  case_bool_decide; [rewrite decide_True in Hs by done; by apply looked_up_error|rewrite decide_False in Hs by done].
  case_bool_decide; [rewrite decide_True in Hs by done; by eapply looked_up_get|rewrite decide_False in Hs by done].
  case_bool_decide.
  { rewrite decide_True in Hs by done. destruct (d_parent d) as [p|] eqn:Ep; cbn [default from_option].
    - destruct up as [|u up]; [by inversion Hup|]. by eapply looked_up_get.
    - subst up. by eapply looked_up_get. }
  rewrite decide_False in Hs by done. destruct (has_lookup dir); cbn [negb]; [|by apply looked_up_error].
  destruct (dcache_find_spec lookup_inode CONFIG_DEBUG_REFCOUNT ext c x name (n + 1) dir d Hok) as (o&c1&->&Hev1&Hr1'&Hfound); [eapply room_le; [exact Hr|lia]|lia|done|done|].
  cbn [res_bind]. destruct o as [y|].
  - destruct Hfound as (Hok1&i&Hl&Hst). rewrite Hl in Hs. exists 0, (Some y), c1. split; [done|].
    split_and!; [done|eapply room_le; [done|lia]|done|done|]. eexists. split; [exact Hs|]. apply (stands_for_place c1 x name y i); [|done].
    apply (at_place_evolves (ext_add y ext) c c1); [done|done|apply (dc_next _ _ _ Hok)| |done].
    destruct Hst as (dy&Hdy&Hdp&_). by apply (dc_parent _ _ _ Hok1 y dy x).
  - subst c1. by apply (d_lookup_spec ext c x up dir (d_name d, name) n).
Qed.
End steps.

(** ** Strings *)

(** A path string: no byte of it is its terminator. *)
Definition string (l : list Z) : Prop := Forall (λ b, b ≠ 0) l.

Lemma char_at path i : (i ≤ length path)%nat → char path i = Ok (default 0 (path !! i)).
Proof.
  intros Hi. unfold char. destruct (path !! i) as [b|] eqn:E.
  - apply arr_get_Ok. rewrite lookup_app_l; [done|by eapply lookup_lt_Some].
  - apply lookup_ge_None in E. assert (i = length path) as -> by lia. apply arr_get_Ok. by rewrite list_lookup_middle.
Qed.

Lemma truth_at path i : string path → (i ≤ length path)%nat → truth (default 0 (path !! i)) = bool_decide (i < length path)%nat.
Proof.
  intros Hs Hi. unfold truth. case_bool_decide as Hlt.
  - destruct (lookup_lt_is_Some_2 path i Hlt) as [b Hb]. rewrite Hb. simpl. unfold string in Hs. rewrite Forall_lookup in Hs. specialize (Hs _ _ Hb).
    by rewrite (proj2 (Z.eqb_neq _ _)).
  - by rewrite lookup_ge_None_2 by lia.
Qed.

(** The first component, and what is behind it. *)
Lemma split_shape l : ∃ n k, split l = n :: k ∧ (SLASH ∉ n) ∧ ((k = [] ∧ l = n) ∨ ∃ l', l = n ++ SLASH :: l' ∧ k = split l').
Proof.
  induction l as [|x l IH]; simpl.
  { exists [], []. split_and!; [done|apply not_elem_of_nil|by left]. }
  destruct (Z.eqb_spec x SLASH) as [->|Hx].
  { exists [], (split l). split_and!; [done|apply not_elem_of_nil|]. right. by exists l. }
  destruct IH as (n&k&->&Hn&Hk). exists (x :: n), k. split_and!; [done| |].
  - rewrite not_elem_of_cons. split; [congruence|done].
  - destruct Hk as [[-> ->]|(l'&->&->)]; [by left|right]. by exists l'.
Qed.

Lemma split_nonempty l : split l ≠ [].
Proof. destruct (split_shape l) as (n&k&->&_). done. Qed.

Lemma no_more_split l : no_more (split l) = bool_decide (l = []).
Proof.
  destruct (split_shape l) as (n&k&->&_&[[-> ->]|(l'&->&->)]).
  - destruct n; [by rewrite bool_decide_eq_true_2|by rewrite bool_decide_eq_false_2].
  - rewrite bool_decide_eq_false_2 by by destruct n. pose proof (split_nonempty l') as Hne. by destruct n, (split l').
Qed.

Lemma lookup_head (l : list Z) i : l !! i = head (drop i l).
Proof. by rewrite head_lookup, lookup_drop, Nat.add_0_r. Qed.

Lemma component_end_spec path n tl cursor fuel :
  string path → (cursor ≤ length path)%nat → drop cursor path = n ++ tl → SLASH ∉ n → (tl = [] ∨ head tl = Some SLASH) → (length n < fuel)%nat →
  component_end fuel path cursor = Ok (cursor + length n)%nat.
Proof.
  intros Hs. revert cursor fuel. induction n as [|x n IH]; intros cursor fuel Hc Hd Hn Htl Hf; (destruct fuel as [|fuel]; [simpl in Hf; lia|]); cbn [component_end].
  - rewrite char_at by done. cbn [res_bind]. rewrite lookup_head, Hd. cbn [app length]. rewrite Nat.add_0_r.
    by destruct Htl as [-> | ->].
  - apply not_elem_of_cons in Hn as [Hx Hn]. assert (path !! cursor = Some x) as Hpx by (by rewrite lookup_head, Hd).
    pose proof (lookup_lt_Some _ _ _ Hpx). rewrite char_at by done. cbn [res_bind].
    rewrite truth_at, bool_decide_eq_true_2 by done. rewrite Hpx. change (default 0 (Some x)) with x. rewrite (proj2 (Z.eqb_neq x SLASH)) by auto. cbn [negb andb].
    rewrite (IH (S cursor) fuel); [simpl; f_equal; lia|lia| |done|done|simpl in Hf; lia].
    rewrite <-Nat.add_1_r, <-drop_drop, Hd. done.
Qed.

(** ** The walk *)

Section walking.
Context `{InodeOps} (CONFIG_DEBUG_REFCOUNT : bool) (fail : nat → bool).
Context (Hneg : ∀ i n e, lookup_inode i n = inl e → e < 0).
Local Abbreviation dc_ok := (dc_ok lookup_inode).

(** The walk holds a reference on the place it has reached. *)
Definition walked (ext : nat → nat) (c : dcache) (path : list Z) (ref : Z + place * list Z) (r : res (Z * walk * dcache)) : Prop :=
  ∃ ret w c', r = Ok (ret, w, c') ∧ evolves c c' ∧ dc_ok (ext_add (w_cur w) ext) c' ∧
    ((ret < 0 ∧ (ref = inl ret ∨ out_of_memory fail ret)) ∨
     (ret = 0 ∧ ∃ l, at_place (dents c') (w_cur w) l ∧ ref = inr (l, take (w_len w) (drop (w_start w) path)))).

Lemma walked_error ext c path ref w e : dc_ok (ext_add (w_cur w) ext) c → e < 0 → ref = inl e → walked ext c path ref (Ok (e, w, c)).
Proof. intros. exists e, w, c. split_and!; [done..|]. left. split; [done|by left]. Qed.

Lemma walked_ends ext c path w l :
  dc_ok (ext_add (w_cur w) ext) c → at_place (dents c) (w_cur w) l →
  walked ext c path (inr (l, take (w_len w) (drop (w_start w) path))) (Ok (0, w, c)).
Proof. intros. exists 0, w, c. split_and!; [done..|]. right. split; [done|eauto]. Qed.

Lemma walked_trans ext c c1 path ref r : evolves c c1 → walked ext c1 path ref r → walked ext c path ref r.
Proof. intros Hev (ret&w&c'&->&Hev'&?&?). exists ret, w, c'. split_and!; [done|by etrans|done..]. Qed.

(** The reference moves from one dentry to the next. *)
Lemma path_put_spec ext c x y n :
  dc_ok (ext_add y (ext_add x ext)) c → room n c →
  ∃ c', path_put CONFIG_DEBUG_REFCOUNT c x = Ok c' ∧ dc_ok (ext_add y ext) c' ∧ evolves c c' ∧ room n c'.
Proof.
  intros Hok Hr. apply (dput_one CONFIG_DEBUG_REFCOUNT); [|done]. eapply dc_ok_ext; [|exact Hok]. intros z. apply ext_add_comm.
Qed.

Lemma walk_loop_spec fuel path parent ext w cursor c l :
  string path → dc_ok (ext_add (w_cur w) ext) c → at_place (dents c) (w_cur w) l → (cursor ≤ length path)%nat → (length path - cursor < fuel)%nat →
  room (2 * Z.of_nat (length path - cursor)) c →
  walked ext c path (ref_walk parent l (take (w_len w) (drop (w_start w) path)) (split (drop cursor path)))
    (walk_loop CONFIG_DEBUG_REFCOUNT fail fuel path parent w cursor c).
Proof.
  intros Hs. revert w cursor c l. induction fuel as [|fuel IH]; intros w cursor c l Hok Hat Hc Hf Hr; [lia|]. cbn [walk_loop].
  rewrite char_at by done. cbn [res_bind]. rewrite truth_at by done. case_bool_decide as Hlt.
  2: { rewrite (drop_ge path cursor) by lia. cbn. by apply walked_ends. }
  destruct (split_shape (drop cursor path)) as (n&k&Hsp&Hn&Hk).
  assert (no_more (n :: k) = false) as Hmore.
  { rewrite <-Hsp, no_more_split, bool_decide_eq_false_2; [done|]. intros He. apply (f_equal length) in He. rewrite length_drop in He. simpl in He. lia. }
  assert (∃ tl, drop cursor path = n ++ tl ∧ (tl = [] ∨ head tl = Some SLASH) ∧ match tl with [] => k = [] | _ :: l' => k = split l' end) as (tl&Hd&Htl&Hktl).
  { destruct Hk as [[-> Hk]|(l'&Hk&->)]; [exists []; rewrite app_nil_r; by split_and!; [|left|]|exists (SLASH :: l'); split_and!; [done|by right|done]]. }
  assert (length path - cursor = length n + length tl)%nat as Hlen by (rewrite <-length_drop, Hd, length_app; done).
  rewrite (component_end_spec path n tl cursor) by (done || lia). cbn [res_bind w_cur].
  replace (cursor + length n - cursor)%nat with (length n) by lia. rewrite Hsp. cbn [ref_walk]. rewrite Hmore.
  assert (take (length n) (drop cursor path) = n) as Htake by (by rewrite Hd, take_app_length).
  destruct (NAME_MAX <? length n)%nat; [by apply walked_error|].
  assert (drop (cursor + length n) path = tl) as Hdtl by (by rewrite <-drop_drop, Hd, drop_app_length).
  rewrite char_at by lia. cbn [res_bind]. rewrite truth_at by (done || lia).
  assert ((if parent then if bool_decide (cursor + length n < length path)%nat then let! n0 := char path (S (cursor + length n)) in Ok (negb (truth n0)) else Ok true else Ok false)
    = Ok (parent && no_more k)) as ->.
  { destruct parent; [|done]. cbn [andb]. destruct tl as [|s l']; simpl in Hlen; case_bool_decide; try lia; [by rewrite Hktl|].
    rewrite char_at by lia. cbn [res_bind]. rewrite truth_at by (done || lia). f_equal. rewrite Hktl, no_more_split. 
    destruct l' as [|y l']; simpl in Hlen; [rewrite bool_decide_eq_false_2, bool_decide_eq_true_2 by (done || lia)|rewrite bool_decide_eq_true_2, bool_decide_eq_false_2 by (done || lia)]; done. }
  cbn [res_bind]. rewrite Htake. destruct (parent && no_more k) eqn:Elast.
  { rewrite <-Htake at 1. apply (walked_ends ext c path (Walk (w_cur w) cursor (length n))); done. }
  destruct (path_lookup_spec CONFIG_DEBUG_REFCOUNT fail Hneg _ c (w_cur w) l n (2 * Z.of_nat (length path - cursor) - 2) Hok) as (ret&o&c1&->&Hev1&Hr1&Hcase);
    [eapply room_le; [exact Hr|lia]|lia|done|].
  cbn [res_bind]. destruct o as [y|].
  2: { destruct Hcase as (Hneg1&Hok1&Href). unfold truth. rewrite (proj2 (Z.eqb_neq ret 0)) by lia. cbn [negb].
       exists ret, (Walk (w_cur w) cursor (length n)), c1. split_and!; [done..|]. left. split; [done|]. destruct Href as [Href|]; [left|by right].
       unfold ref_enter. by rewrite Href. }
  destruct Hcase as (->&Hok1&l1&Hstep&Hat1). cbn [truth Z.eqb negb deref res_bind].
  destruct (path_put_spec ext c1 (w_cur w) y _ Hok1 Hr1) as (c2&->&Hok2&Hev2&Hr2). cbn [res_bind].
  assert (at_place (dents c2) y l1) as Hat2.
  { eapply at_place_evolves; [exact Hok2|exact Hev2|apply (dc_next _ _ _ Hok1)|by eapply ext_add_live|done]. }
  apply (walked_trans _ _ c2); [by etrans|]. pose proof (at_place_live _ _ _ Hat2) as [dy Hdy]. destruct (at_place_head _ _ _ _ Hat2 Hdy) as (up&->&_).
  unfold inode_of. rewrite Hdy. cbn [deref res_bind]. unfold ref_enter. rewrite Hstep. destruct (d_inode dy) as [i|] eqn:Ei; [|by apply walked_error].
  destruct (S_ISLNK (i_mode i)); [by apply walked_error|].
  destruct tl as [|s l'].
  { simpl in Hlen. rewrite bool_decide_eq_false_2 by lia. cbn [negb]. rewrite Hktl. cbn [ref_walk].
    rewrite <-Htake at 1. apply (walked_ends ext c2 path (Walk y cursor (length n))); done. }
  simpl in Hlen. rewrite bool_decide_eq_true_2 by lia. cbn [negb]. rewrite char_at by lia. cbn [res_bind].
  assert (drop (S (cursor + length n)) path = l') as Hdl by (by rewrite <-Nat.add_1_r, <-drop_drop, Hdtl).
  rewrite lookup_head, Hdl. rewrite Hktl.
  assert (walked ext c2 path (ref_walk parent ((d_name dy, Some i) :: up) n (split l')) (walk_loop CONFIG_DEBUG_REFCOUNT fail fuel path parent (Walk y cursor (length n)) (S (cursor + length n)) c2)) as Hgo.
  { rewrite <-Htake at 1. rewrite <-Hdl at 1. apply (IH (Walk y cursor (length n))); [done|done|lia|lia|]. eapply room_le; [exact Hr2|]. 
    assert (1 ≤ length n + 1)%nat by lia. lia. }
  destruct l' as [|x l']; [exact Hgo|]. change (default 0 (head (x :: l'))) with x. destruct (Z.eqb_spec x SLASH) as [->|Hx].
  - cbn [split]. change (SLASH =? SLASH) with true. cbn match. destruct (split l') eqn:E; [by destruct (split_nonempty l')|]. by apply walked_error.
  - destruct (split_shape (x :: l')) as (m&k'&Hm&_&Hmk). rewrite Hm in Hgo |- *. destruct m as [|z m]; [|exact Hgo].
    exfalso. destruct Hmk as [[_ ?]|(l2&Hl2&_)]; [done|]. simpl in Hl2. congruence.
Qed.

Definition held (c : dcache) (o : option nat) (l : option place) : Prop :=
  match o, l with Some x, Some l => at_place (dents c) x l | None, None => True | _, _ => False end.

(** What the end of the walk makes of the place it reached. *)
Definition ref_end (path : list Z) (parent : bool) (r : Z + place * list Z) : Z + place * list Z :=
  match r with
  | inl e => inl e
  | inr (((_, Some i) :: _) as l, last_name) =>
      if (parent || bool_decide (last path = Some SLASH)) && negb (S_ISDIR (i_mode i)) then inl (- ENOTDIR) else inr (l, last_name)
  | inr (_, _) => inl (- ENOENT)
  end.

Definition resolves (ext : nat → nat) (c : dcache) (path : list Z) (ref : Z + place * list Z) (r : res (Z * option walk * dcache)) : Prop :=
  ∃ ret o c', r = Ok (ret, o, c') ∧ evolves c c' ∧
    match o with
    | Some w => ret = 0 ∧ dc_ok (ext_add (w_cur w) ext) c' ∧
        ∃ l, at_place (dents c') (w_cur w) l ∧ ref = inr (l, take (w_len w) (drop (w_start w) path))
    | None => ret < 0 ∧ dc_ok ext c' ∧ (ref = inl ret ∨ out_of_memory fail ret)
    end.

Lemma room_some c : ∃ n, room n c.
Proof.
  unfold room. induction (dents c) as [|x d m _ IH] using map_ind; [exists 0; by intros ?? ?%lookup_empty_Some|].
  destruct IH as [n Hn]. exists (Z.min n (REFCOUNT_MAX - 1 - d_count d)). intros y e [[<- <-]|[_ Hy]]%lookup_insert_Some; [lia|].
  specialize (Hn y e Hy). lia.
Qed.

Lemma resolves_put ext c path ref ret w : dc_ok (ext_add (w_cur w) ext) c → ret < 0 → (ref = inl ret ∨ out_of_memory fail ret) →
  resolves ext c path ref (let! c := path_put CONFIG_DEBUG_REFCOUNT c (w_cur w) in Ok (ret, None, c)).
Proof.
  intros Hok Hret Href. destruct (room_some c) as [n Hr]. destruct (dput_one CONFIG_DEBUG_REFCOUNT ext c (w_cur w) n Hok Hr) as (c'&Hp&Hok'&Hev&_).
  unfold path_put. rewrite Hp. cbn [res_bind]. by exists ret, None, c'.
Qed.

Lemma resolves_trans ext c c1 path ref r : evolves c c1 → resolves ext c1 path ref r → resolves ext c path ref r.
Proof. intros Hev (ret&o&c'&->&Hev'&Ho). exists ret, o, c'. split; [done|]. split; [by etrans|done]. Qed.

(** The walk from a place, and the checks behind it. *)
Lemma walk_finish ext c path parent x cursor l :
  string path → path ≠ [] → dc_ok (ext_add x ext) c → at_place (dents c) x l → (cursor ≤ length path)%nat → room (2 * Z.of_nat (length path)) c →
  resolves ext c path (ref_end path parent (ref_walk parent l [] (split (drop cursor path))))
    (let! (ret, w, c) := walk_loop CONFIG_DEBUG_REFCOUNT fail (S (length path)) path parent (Walk x cursor 0) cursor c in
     let! ret :=
       if truth ret then Ok ret else
       let! i := inode_of c (w_cur w) in
       match i with
       | None => Ok (- ENOENT)
       | Some i =>
           let! trail := if parent then Ok true else let! ch := char path (length path - 1) in Ok (ch =? SLASH) in
           Ok (if trail && negb (S_ISDIR (i_mode i)) then - ENOTDIR else 0)
       end in
     if truth ret then let! c := path_put CONFIG_DEBUG_REFCOUNT c (w_cur w) in Ok (ret, None, c) else Ok (0, Some w, c)).
Proof.
  intros Hs Hne Hok Hat Hc Hr. destruct (walk_loop_spec (S (length path)) path parent ext (Walk x cursor 0) cursor c l Hs Hok Hat Hc) as (ret&w&c1&->&Hev&Hok1&Hcase);
    [lia|eapply room_le; [exact Hr|lia]|]. cbn [res_bind w_len w_start] in *. rewrite take_0 in Hcase. apply (resolves_trans _ _ c1); [done|].
  destruct Hcase as [(Hret&Href)|(->&l1&Hat1&Href)].
  { unfold truth at 1. rewrite (proj2 (Z.eqb_neq ret 0)) by lia. cbn [negb res_bind]. unfold truth. rewrite (proj2 (Z.eqb_neq ret 0)) by lia. cbn [negb].
    apply resolves_put; [done|done|]. destruct Href as [-> |]; [by left|by right]. }
  change (truth 0) with false. cbn match. rewrite Href. pose proof (at_place_live _ _ _ Hat1) as [d Hd].
  destruct (at_place_head _ _ _ _ Hat1 Hd) as (up&->&_). unfold inode_of. rewrite Hd. cbn [deref res_bind ref_end].
  destruct (d_inode d) as [i|] eqn:Ei; [|apply resolves_put; [done|done|by left]].
  assert ((if parent then Ok true else let! ch := char path (length path - 1) in Ok (ch =? SLASH)) = Ok (parent || bool_decide (last path = Some SLASH))) as ->.
  { destruct parent; [done|]. assert (0 < length path)%nat by (destruct path; [done|simpl; lia]). rewrite char_at by lia. cbn [res_bind orb]. f_equal.
    rewrite last_lookup. replace (pred (length path)) with (length path - 1)%nat by lia.
    destruct (lookup_lt_is_Some_2 path (length path - 1)) as [b Hb]; [lia|]. rewrite Hb. change (default 0 (Some b)) with b.
    destruct (Z.eqb_spec b SLASH) as [->|Hb']; [by rewrite bool_decide_eq_true_2|rewrite bool_decide_eq_false_2; [done|congruence]]. }
  cbn [res_bind]. destruct ((parent || bool_decide (last path = Some SLASH)) && negb (S_ISDIR (i_mode i))).
  - change (truth (- ENOTDIR)) with true. cbn match. apply resolves_put; [done|done|by left].
  - change (truth 0) with false. cbn match. exists 0, (Some w), c1. split; [done|]. split; [done|]. split; [done|]. split; [done|]. eauto.
Qed.

(** C21: resolving a path.  On any path string, with the dentries of the root and the
    working directory at their places, the walk ends and does not fault.  It returns the
    dentry of exactly the place the reference resolution of the path leads to (with
    [path_resolve_parent], the place of the directory, and where the last name is), or
    the error the reference resolution gives; the one other answer is [-ENOMEM], when an
    allocation failed.  On success one reference more is held, on the result; on every
    error none: all counts, the hash chains and the inode references stay exactly
    accounted for, and no dentry of the cache moved or changed its inode. *)
Theorem path_walk_spec ext c root cwd rootp cwdp path parent :
  string path → dc_ok ext c → room (2 * Z.of_nat (length path) + 1) c → held c root rootp → held c cwd cwdp →
  resolves ext c path (ref_path rootp cwdp path parent) (path_walk CONFIG_DEBUG_REFCOUNT fail root cwd path parent c).
Proof.
  intros Hs Hok Hr Hroot Hcwd.
  assert (∀ e, e < 0 → ref_path rootp cwdp path parent = inl e → resolves ext c path (ref_path rootp cwdp path parent) (Ok (e, None, c))) as Herr.
  { intros e He Href. exists e, None, c. split; [done|]. split; [done|]. split; [done|]. split; [done|by left]. }
  unfold path_walk. rewrite char_at by lia. cbn [res_bind]. rewrite truth_at by (done || lia). destruct path as [|b rest]; [by apply Herr|].
  rewrite bool_decide_eq_true_2 by (simpl; lia). cbn [negb]. change (default 0 ((b :: rest) !! 0%nat)) with b.
  assert (∀ x l cursor, at_place (dents c) x l → (cursor ≤ length (b :: rest))%nat →
    ∃ c1, dget CONFIG_DEBUG_REFCOUNT c x = Ok c1 ∧ evolves c c1 ∧
      resolves ext c1 (b :: rest) (ref_end (b :: rest) parent (ref_walk parent l [] (split (drop cursor (b :: rest)))))
        (let! (ret, w, c) := walk_loop CONFIG_DEBUG_REFCOUNT fail (S (length (b :: rest))) (b :: rest) parent (Walk x cursor 0) cursor c1 in
         let! ret :=
           if truth ret then Ok ret else
           let! i := inode_of c (w_cur w) in
           match i with
           | None => Ok (- ENOENT)
           | Some i =>
               let! trail := if parent then Ok true else let! ch := char (b :: rest) (length (b :: rest) - 1) in Ok (ch =? SLASH) in
               Ok (if trail && negb (S_ISDIR (i_mode i)) then - ENOTDIR else 0)
           end in
         if truth ret then let! c := path_put CONFIG_DEBUG_REFCOUNT c (w_cur w) in Ok (ret, None, c) else Ok (0, Some w, c))) as Hgo.
  { intros x l cursor Hat Hcur.
    destruct (dget_spec lookup_inode CONFIG_DEBUG_REFCOUNT ext c x _ Hok (at_place_live _ _ _ Hat) Hr ltac:(lia)) as (d&_&Hget&Hok1&Hev&Hr1).
    eexists. split; [exact Hget|]. split; [done|]. apply walk_finish; [done|done|done| |done|done]. by apply (at_place_step ext c). }
  destruct (Z.eqb_spec b SLASH) as [->|Hb].
  - rewrite char_at by (simpl; lia). cbn [res_bind]. change ((SLASH :: rest) !! 1%nat) with (rest !! 0%nat). rewrite lookup_head, drop_0.
    destruct (decide (head rest = Some SLASH)) as [Hh|Hh].
    { rewrite Hh. cbn. apply Herr; [done|]. cbn [ref_path]. change (SLASH =? SLASH) with true. cbn match. by rewrite decide_True. }
    assert ((default 0 (head rest) =? SLASH) = false) as ->.
    { destruct rest as [|y rest]; [done|]. change (default 0 (head (y :: rest))) with y. apply Z.eqb_neq. intros ->. by apply Hh. }
    assert (ref_path rootp cwdp (SLASH :: rest) parent = match rootp with None => inl (- ENODEV) | Some l => ref_end (SLASH :: rest) parent (ref_walk parent l [] (split rest)) end) as Href.
    { cbn [ref_path]. change (SLASH =? SLASH) with true. cbn match. rewrite decide_False by done. destruct rootp; [|done]. cbn [head]. by rewrite decide_True. }
    unfold vfs_get_root, path_get. destruct root as [x|], rootp as [l|]; [|done|done|cbn [res_bind]; by apply Herr].
    destruct (Hgo x l 1%nat Hroot) as (c1&->&Hev&Hres); [simpl; lia|]. cbn [res_bind truth Z.eqb negb deref].
    rewrite Href. by apply (resolves_trans _ _ c1).
  - assert (ref_path rootp cwdp (b :: rest) parent = match cwdp with None => inl (- ENOENT) | Some l => ref_end (b :: rest) parent (ref_walk parent l [] (split (b :: rest))) end) as Href.
    { cbn [ref_path]. rewrite (proj2 (Z.eqb_neq _ _)) by done. destruct cwdp; [|done]. cbn [head]. by rewrite decide_False by congruence. }
    unfold path_get. destruct cwd as [x|], cwdp as [l|]; [|done|done|cbn [res_bind]; by apply Herr].
    destruct (Hgo x l 0%nat Hcwd) as (c1&->&Hev&Hres); [simpl; lia|]. cbn [res_bind truth Z.eqb negb deref].
    rewrite Href. by apply (resolves_trans _ _ c1).
Qed.
End walking.

(** ** ext2 as the file system *)

Section ext2.
Context (sb : dir_sb) (mode : Z → Z) (io : Z → nat → Z) (dirs : Z → dir) (iget : Z → Z).
Context (Hcount : 0 ≤ inodes_count sb < 2 ^ 32) (Hbs : (1024 ≤ bs sb ≤ 4096)%nat) (Hbs4 : (bs sb mod 4 = 0)%nat).

(** On a directory that represents a map, the answer is the map's. *)
Lemma ext2_lookup_spec dir name c :
  represents sb (dirs dir) c → S_ISDIR (mode dir) = true → (length name ≤ NAME_MAX)%nat →
  ∃ r, ext2_lookup sb mode io dirs iget dir name = Ok r ∧
    match r with
    | inl e => e ≠ 0 ∧ ((∃ b, io dir b = e) ∨ ∃ ino, c !! name = Some ino ∧ iget ino = e)
    | inr None => c !! name = None ∨ ∃ b, io dir b = - ENOENT
    | inr (Some ino) => c !! name = Some ino ∧ iget ino = 0
    end.
Proof.
  intros (es&Hok&Hnd&->) Hdir Hlen. unfold ext2_lookup. rewrite Hdir, (proj2 (Nat.ltb_ge _ _)) by done. cbn [negb].
  destruct (find_dirent_spec sb Hcount Hbs Hbs4 (io dir) (dirs dir) es name Hok Hnd) as (r&_&Hspec). destruct r as [err|[b off]].
  - destruct Hspec as [-> Herr]. cbn [res_bind]. destruct (Z.eqb_spec err (- ENOENT)) as [->|Hne].
    + exists (inr None). split; [done|]. destruct Herr as [[_ ?]|(b&?&_)]; [by left|right; eauto].
    + exists (inl err). split; [done|]. destruct Herr as [[? _]|(b&?&?)]; [done|split; [done|left; eauto]].
  - destruct Hspec as (l1&e&l2&_&Hlk&->). cbn [res_bind]. unfold truth. destruct (Z.eqb_spec (iget (e_ino e)) 0) as [E|E]; cbn [negb].
    + by exists (inr (Some (e_ino e))).
    + exists (inl (iget (e_ino e))). split; [done|]. split; [done|right; eauto].
Qed.

(** The interface, filled in by ext2. *)
#[local] Instance ext2_inode_ops : InodeOps := {
  i_mode := mode;
  has_lookup _ := true;
  lookup_inode dir name := match ext2_lookup sb mode io dirs iget dir name with Ok r => r | _ => inl (- EIO) end
}.
End ext2.

(** ** A concrete walk *)

(** An ext2 file system whose root directory, inode 2, is the block of [dir0]. *)
Definition mode0 (i : Z) : Z := if i =? 2 then S_IFDIR else S_IFREG.
Definition ops0 : InodeOps := ext2_inode_ops sb0 mode0 (λ _ _, 0) (λ _, dir0) (λ _, 0).
Definition dcache0 : dcache := Dcache {[ 0%nat := Dentry [SLASH] None (Some 2) 1 false ]} ∅ 1 [2] [].
Definition ext0 (x : nat) : nat := if decide (x = 0%nat) then 1 else 0.

Lemma ops0_errors i n e : @lookup_inode ops0 i n = inl e → e < 0.
Proof.
  cbn [lookup_inode ops0 ext2_inode_ops]. destruct (S_ISDIR (mode0 i)) eqn:Ed; [|unfold ext2_lookup; rewrite Ed; cbn; intros [= <-]; done].
  destruct (decide (length n ≤ NAME_MAX)%nat) as [Hn|Hn].
  - destruct (ext2_lookup_spec sb0 mode0 (λ _ _, 0) (λ _, dir0) (λ _, 0) ltac:(cbn; lia) ltac:(cbn; lia) eq_refl i n _ dir0_represents Ed Hn) as (r&->&Hr).
    intros ->. destruct Hr as (Hne&[[_ ?]|(?&_&?)]); congruence.
  - unfold ext2_lookup. rewrite Ed, (proj2 (Nat.ltb_lt _ _)) by lia. cbn. intros [= <-]. done.
Qed.

Lemma dcache0_ok : dc_ok (@lookup_inode ops0) ext0 dcache0.
Proof.
  assert (∀ x d, dents dcache0 !! x = Some d → x = 0%nat ∧ d = Dentry [SLASH] None (Some 2) 1 false) as Hone.
  { intros x d. cbn [dcache0 dents]. rewrite lookup_singleton_Some. naive_solver. }
  assert (∀ b, bucket dcache0 b = []) as Hb by (intros b; unfold bucket; cbn [dcache0 table]; by rewrite lookup_empty).
  split.
  - intros x d Hx. apply Hone in Hx as [-> ->]. split; [|done]. by vm_compute.
  - intros x Hx. unfold ext0 in Hx. case_decide; [subst; eauto|lia].
  - intros x d p Hx Hp. by apply Hone in Hx as [-> ->].
  - intros x [d Hx]. apply Hone in Hx as [-> _]. simpl. lia.
  - intros b x. rewrite Hb. split; [by intros ?%not_elem_of_nil|]. intros (d&Hx&Hh&_). by apply Hone in Hx as [-> ->].
  - intros b. rewrite Hb. constructor.
  - intros x y d e Hx Hy. by apply Hone in Hx as [-> ->]; apply Hone in Hy as [-> ->].
  - intros x d p e Hx Hh. by apply Hone in Hx as [-> ->].
  - by vm_compute.
Qed.

(** ["/a"] leads to inode 5. *)
Lemma path_walk_spec_witness :
  ∃ w c', path_walk (H := ops0) true (λ _, false) (Some 0%nat) None [47; 97] false dcache0 = Ok (0, Some w, c') ∧
    dc_ok (@lookup_inode ops0) (ext_add (w_cur w) ext0) c' ∧ at_place (dents c') (w_cur w) [([97], Some 5); ([47], Some 2)].
Proof.
  destruct (path_walk_spec (H := ops0) true (λ _, false) ops0_errors ext0 dcache0 (Some 0%nat) None (Some [([47], Some 2)]) None [47; 97] false)
    as (ret&o&c'&Hr&_&Ho).
  - by repeat constructor.
  - exact dcache0_ok.
  - intros x d. cbn [dcache0 dents]. rewrite lookup_singleton_Some. intros [_ <-]. vm_compute. done.
  - simpl. apply (at_root _ 0%nat (Dentry [SLASH] None (Some 2) 1 false)); done.
  - done.
  - assert (@ref_path ops0 (Some [([47], Some 2)]) None [47; 97] false = inr ([([97], Some 5); ([47], Some 2)], [97])) as Href by by vm_compute.
    destruct o as [w|].
    + destruct Ho as (->&Hok&l&Hat&Hl). rewrite Href in Hl. injection Hl as <- _. by exists w, c'.
    + exfalso. destruct Ho as (_&_&[Hl|[_ [k Hk]]]); [rewrite Href in Hl; discriminate|done].
Defined.
