(* ===== verification/Icache.v ===== *)
(** * The inode cache: [fs/vfs/inode.c]

    At most one inode of a file system and number is in memory, found through a hash
    table and shared by counting.  An inode is loaded after it is published
    ([I_NEW]) and written back before it is unpublished ([I_FREEING]); whoever wants
    it meanwhile waits.  The functions are modelled as the sections they execute under
    [icache_lock], each one atomic: a lookup is a sequence of attempts, each on the
    state it finds when it gets the lock again, and [iput] is up to three sections.
    Any number of threads run these sections in any order.  An inode is named by the
    serial number of its allocation. *)
From stdpp Require Import base tactics numbers list gmap.
From S2P Require Import Prelude Refcount Dcache.

Definition I_NEW : Z := 1.
Definition I_FREEING : Z := 2.

(** [i_key]: [i_sb] (0 for none) and [i_ino]. *)
Record inode := Inode { i_count : Z; i_state : Z; i_key : Z * Z; i_hashed : bool }.
Record icache := Icache { inodes : gmap nat inode; table : gmap Z (list nat); next : nat }.

Definition inode_key (key : Z * Z) : Z := Z.lxor (u64 key.1) (u64 key.2).
Definition slot (key : Z * Z) : Z := hash_64 (inode_key key) 8.
Definition bucket (c : icache) (b : Z) : list nat := default [] (table c !! b).

Definition with_count (n : Z) (i : inode) : inode := Inode n (i_state i) (i_key i) (i_hashed i).
Definition with_state (s : Z) (i : inode) : inode := Inode (i_count i) s (i_key i) (i_hashed i).
Definition with_hashed (h : bool) (i : inode) : inode := Inode (i_count i) (i_state i) (i_key i) h.
Definition put_inode (c : icache) (x : nat) (i : inode) : icache := Icache (<[x := i]> (inodes c)) (table c) (next c).
Definition put_bucket (c : icache) (b : Z) (l : list nat) : icache := Icache (inodes c) (<[b := l]> (table c)) (next c).

Section icache.
Context (CONFIG_DEBUG_REFCOUNT : bool).

(** [alloc]: the allocation succeeds.  The caller sets [i_ino]. *)
Definition i_alloc (c : icache) (alloc : bool) (key : Z * Z) : option nat * icache :=
  if negb alloc then (None, c) else (Some (next c), Icache (<[next c := Inode 1 0 key false]> (inodes c)) (table c) (S (next c))).

Definition ihold (c : icache) (x : nat) : res icache :=
  let! i := deref (inodes c !! x) in
  let! n := refcount_inc CONFIG_DEBUG_REFCOUNT [] (i_count i) in
  Ok (put_inode c x (with_count n i)).

Definition hash_add (c : icache) (x : nat) (i : inode) : icache :=
  let b := slot (i_key i) in put_bucket (put_inode c x (with_hashed true i)) b (x :: bucket c b).
Definition hash_del (c : icache) (x : nat) (i : inode) : icache :=
  if negb (i_hashed i) then c else
  let b := slot (i_key i) in put_bucket (put_inode c x (with_hashed false i)) b (filter (λ y, y ≠ x) (bucket c b)).

Fixpoint find_in (c : icache) (key : Z * Z) (l : list nat) : res (option nat) :=
  match l with
  | [] => Ok None
  | x :: l => let! i := deref (inodes c !! x) in if bool_decide (i_key i = key) then Ok (Some x) else find_in c key l
  end.
Definition icache_find_locked (c : icache) (key : Z * Z) : res (option nat) := find_in c key (bucket c (slot key)).

(** One attempt: the caller has to wait, or has the answer. *)
Definition find_try (c : icache) (key : Z * Z) : res (option (option nat * icache)) :=
  let! o := icache_find_locked c key in
  match o with
  | None => Ok (Some (None, c))
  | Some x =>
      let! i := deref (inodes c !! x) in
      if truth (i_state i) then Ok None else
      let! c := ihold c x in
      Ok (Some (Some x, c))
  end.
(** [env]: the states found at the later attempts. *)
Fixpoint icache_find (env : list icache) (c : icache) (key : Z * Z) : res (option (option nat * icache)) :=
  let! r := find_try c key in
  match r, env with
  | None, c' :: env => icache_find env c' key
  | _, _ => Ok r
  end.

(** The inode found, which the caller holds besides its own, or its own, published as new. *)
Definition insert_try (c : icache) (x : nat) : res (option (nat * icache)) :=
  let! i := deref (inodes c !! x) in
  let! o := icache_find_locked c (i_key i) in
  match o with
  | None => Ok (Some (x, hash_add c x (with_state I_NEW i)))
  | Some y =>
      let! n := deref (inodes c !! y) in
      if truth (i_state n) then Ok None else
      let! c := ihold c y in
      Ok (Some (y, c))
  end.
Fixpoint insert_loop (env : list icache) (c : icache) (x : nat) : res (option (nat * icache)) :=
  let! r := insert_try c x in
  match r, env with
  | None, c' :: env => insert_loop env c' x
  | _, _ => Ok r
  end.

(** An inode just allocated on disk: no other may be cached, but for one that goes. *)
Definition inserts_try (c : icache) (x : nat) : res (option (Z * icache)) :=
  let! i := deref (inodes c !! x) in
  let! o := icache_find_locked c (i_key i) in
  match o with
  | None => Ok (Some (0, hash_add c x i))
  | Some y => let! n := deref (inodes c !! y) in if negb (i_state n =? I_FREEING) then Ok (Some (- EUCLEAN, c)) else Ok None
  end.
Fixpoint icache_inserts (env : list icache) (c : icache) (x : nat) : res (option (Z * icache)) :=
  let! r := inserts_try c x in
  match r, env with
  | None, c' :: env => icache_inserts env c' x
  | _, _ => Ok r
  end.

Definition icache_ready (c : icache) (x : nat) : res icache :=
  let! i := deref (inodes c !! x) in Ok (put_inode c x (with_state 0 i)).
Definition icache_abort (c : icache) (x : nat) : res icache :=
  let! i := deref (inodes c !! x) in
  let c := hash_del c x i in
  let! i := deref (inodes c !! x) in
  Ok (put_inode c x (with_state 0 i)).

(** The sections of [iput]: the count, with whether it was the last reference and the
    inode is cached; the removal behind the eviction; the release of the memory. *)
Definition iput_count (c : icache) (x : nat) : res (bool * bool * icache) :=
  let! i := deref (inodes c !! x) in
  let! (last, n) := refcount_dec_and_test CONFIG_DEBUG_REFCOUNT [] (i_count i) in
  let i := with_count n i in
  if negb last then Ok (false, false, put_inode c x i) else
  let cached := i_hashed i in
  Ok (true, cached, put_inode c x (if cached then with_state I_FREEING i else i)).
Definition iput_unhash (c : icache) (x : nat) : res icache :=
  let! i := deref (inodes c !! x) in Ok (hash_del c x i).
Definition iput_destroy (c : icache) (x : nat) : res icache :=
  let! _ := deref (inodes c !! x) in Ok (Icache (delete x (inodes c)) (table c) (next c)).

(** [evict], [between]: what the others do while the inode is evicted, and before it is released. *)
Definition iput (evict between : icache → icache) (c : icache) (o : option nat) : res icache :=
  match o with
  | None => Ok c
  | Some x =>
      let! (last, cached, c) := iput_count c x in
      if negb last then Ok c else
      let! c := if cached then let! c := iput_unhash (evict c) x in Ok (between c) else Ok c in
      iput_destroy c x
  end.

Definition icache_insert (env : list icache) (evict between : icache → icache) (c : icache) (x : nat) : res (option (nat * icache)) :=
  let! i := deref (inodes c !! x) in
  let! _ := Assert (negb (i_hashed i)) in
  let! r := insert_loop env c x in
  match r with
  | Some (y, c) => if Nat.eqb y x then Ok (Some (x, c)) else let! c := iput evict between c (Some x) in Ok (Some (y, c))
  | None => Ok None
  end.
End icache.

(** ** Threads *)

Section threads.
Context (CONFIG_DEBUG_REFCOUNT : bool).

(** The cache, how many references to each inode the threads hold, the inodes one of
    them is loading, those one is putting away, and which of these it found cached and
    has still to remove from the table: where the thread in [iput] is. *)
Record conf := Conf { cache : icache; refs : nat → nat; loading : gset nat; dying : gset nat; evicting : gset nat }.

Definition more (x : nat) (f : nat → nat) : nat → nat := λ y, if decide (y = x) then S (f y) else f y.
Definition less (x : nat) (f : nat → nat) : nat → nat := λ y, if decide (y = x) then pred (f y) else f y.

(** The sections, with what their callers have to hold: an inode is published by the
    thread that allocated it, and loaded or given up by the one that published it. *)
Inductive step : conf → conf → Prop :=
  | step_alloc c f L D V key x c' :
      i_alloc c true key = (Some x, c') → step (Conf c f L D V) (Conf c' (more x f) L D V)
  | step_find c f L D V key x c' :
      find_try CONFIG_DEBUG_REFCOUNT c key = Ok (Some (Some x, c')) → step (Conf c f L D V) (Conf c' (more x f) L D V)
  | step_hold c f L D V x c' :
      (0 < f x)%nat → ihold CONFIG_DEBUG_REFCOUNT c x = Ok c' → step (Conf c f L D V) (Conf c' (more x f) L D V)
  | step_publish c f L D V x i c' :
      inodes c !! x = Some i → (0 < f x)%nat → i_hashed i = false → insert_try CONFIG_DEBUG_REFCOUNT c x = Ok (Some (x, c')) →
      step (Conf c f L D V) (Conf c' f ({[x]} ∪ L) D V)
  | step_shared c f L D V x i y c' :
      inodes c !! x = Some i → (0 < f x)%nat → i_hashed i = false → insert_try CONFIG_DEBUG_REFCOUNT c x = Ok (Some (y, c')) → y ≠ x →
      step (Conf c f L D V) (Conf c' (more y f) L D V)
  | step_inserts c f L D V x i c' :
      inodes c !! x = Some i → (0 < f x)%nat → i_hashed i = false → inserts_try c x = Ok (Some (0, c')) → step (Conf c f L D V) (Conf c' f L D V)
  | step_ready c f L D V x c' :
      x ∈ L → icache_ready c x = Ok c' → step (Conf c f L D V) (Conf c' f (L ∖ {[x]}) D V)
  | step_abort c f L D V x c' :
      x ∈ L → icache_abort c x = Ok c' → step (Conf c f L D V) (Conf c' f (L ∖ {[x]}) D V)
  | step_put c f L D V x last cached c' :
      (0 < f x)%nat → x ∉ L → iput_count CONFIG_DEBUG_REFCOUNT c x = Ok (last, cached, c') →
      step (Conf c f L D V) (Conf c' (less x f) L (if last then {[x]} ∪ D else D) (if last && cached then {[x]} ∪ V else V))
  | step_unhash c f L D V x c' :
      x ∈ V → iput_unhash c x = Ok c' → step (Conf c f L D V) (Conf c' f L D (V ∖ {[x]}))
  | step_destroy c f L D V x c' :
      x ∈ D → (x ∉ V) → iput_destroy c x = Ok c' → step (Conf c f L D V) (Conf c' f L (D ∖ {[x]}) V).

Definition start : conf := Conf (Icache ∅ ∅ 0) (λ _, 0%nat) ∅ ∅ ∅.
(** Fewer references are held to an inode than its count can take. *)
Definition bounded (s : conf) : Prop := ∀ x, Z.of_nat (refs s x) < REFCOUNT_MAX.
Definition reachable (s : conf) : Prop := rtc (λ s s', step s s' ∧ bounded s') start s.
End threads.

(** ** The hash table *)

#[local] Arguments slot : simpl never.

Record table_ok (c : icache) : Prop := {
  t_next : ∀ x, is_Some (inodes c !! x) → (x < next c)%nat;
  t_table : ∀ b x, x ∈ bucket c b ↔ ∃ i, inodes c !! x = Some i ∧ i_hashed i = true ∧ b = slot (i_key i);
  t_unique : ∀ x y i j, inodes c !! x = Some i → inodes c !! y = Some j → i_hashed i = true → i_hashed j = true → i_key i = i_key j → x = y
}.

Lemma table_put c x i i' :
  table_ok c → inodes c !! x = Some i → i_key i' = i_key i → i_hashed i' = i_hashed i → table_ok (put_inode c x i').
Proof.
  intros [H1 H2 H3] Hx Hk Hh.
  assert (∀ y j, <[x := i']> (inodes c) !! y = Some j → ∃ j0, inodes c !! y = Some j0 ∧ i_key j = i_key j0 ∧ i_hashed j = i_hashed j0) as Hold.
  { intros y j [[<- <-]|[_ ?]]%lookup_insert_Some; eauto. }
  split; cbn [put_inode inodes table next].
  - intros y [j Hy]. apply Hold in Hy as (j0&Hy&_). eauto.
  - intros b y. rewrite (H2 b y). split.
    + intros (j&Hy&Hj&->). destruct (decide (y = x)) as [->|]; [|exists j; by rewrite lookup_insert_ne by done].
      assert (j = i) as -> by congruence. exists i'. rewrite lookup_insert_eq. split_and!; congruence.
    + intros (j&Hy&Hj&->). apply Hold in Hy as (j0&Hy&?&?). exists j0. split_and!; congruence.
  - intros y z j k Hy Hz ???. apply Hold in Hy as (j0&Hy&?&?). apply Hold in Hz as (k0&Hz&?&?). apply (H3 y z j0 k0 Hy Hz); congruence.
Qed.

Lemma table_new c i : table_ok c → i_hashed i = false → table_ok (Icache (<[next c := i]> (inodes c)) (table c) (S (next c))).
Proof.
  intros [H1 H2 H3] Hh. assert (inodes c !! next c = None) as Hx by (apply eq_None_not_Some; intros ?%H1; lia). split; cbn [inodes table next].
  - intros y [j [[<- _]|[_ Hy]]%lookup_insert_Some]; [lia|]. assert (y < next c)%nat by eauto. lia.
  - intros b y. rewrite (H2 b y). split.
    + intros (j&Hy&?&?). exists j. rewrite lookup_insert_ne by congruence. done.
    + intros (j&[[<- <-]|[_ Hy]]%lookup_insert_Some&?&?); [congruence|eauto].
  - intros y z j k [[<- <-]|[_ Hy]]%lookup_insert_Some [[<- <-]|[_ Hz]]%lookup_insert_Some; try congruence. by apply H3.
Qed.

Lemma table_delete c x i : table_ok c → inodes c !! x = Some i → i_hashed i = false → table_ok (Icache (delete x (inodes c)) (table c) (next c)).
Proof.
  intros [H1 H2 H3] Hx Hh. split; cbn [inodes table next].
  - intros y [j [_ Hy]%lookup_delete_Some]. eauto.
  - intros b y. rewrite (H2 b y). split.
    + intros (j&Hy&?&?). exists j. rewrite lookup_delete_ne by congruence. done.
    + intros (j&[_ Hy]%lookup_delete_Some&?&?). eauto.
  - intros y z j k [_ Hy]%lookup_delete_Some [_ Hz]%lookup_delete_Some. by apply H3.
Qed.

Lemma bucket_put c b0 l b : bucket (put_bucket c b0 l) b = if decide (b = b0) then l else bucket c b.
Proof. unfold bucket. cbn [put_bucket table]. case_decide; [subst; by rewrite lookup_insert_eq|by rewrite lookup_insert_ne by done]. Qed.

Lemma table_add c x i i' :
  table_ok c → inodes c !! x = Some i → i_hashed i = false → i_key i' = i_key i →
  (∀ y j, inodes c !! y = Some j → i_hashed j = true → i_key j ≠ i_key i) → table_ok (hash_add c x i').
Proof.
  intros [H1 H2 H3] Hx Hh Hk Hfree. unfold hash_add. rewrite Hk. set (b0 := slot (i_key i)). split.
  - intros y. cbn. intros [<-|Hy]%lookup_insert_is_Some'; eauto.
  - intros b y. rewrite bucket_put. cbn [put_bucket put_inode inodes]. split.
    + intros Hy. assert (y = x ∧ b = b0 ∨ y ≠ x ∧ y ∈ bucket c b) as [[-> ->]|[Hne Hin]].
      { assert (y ∈ bucket c b → y ≠ x) as Hyx by (intros (j&?&?&_)%H2 ->; congruence).
        case_decide as Hb; [subst b; apply elem_of_cons in Hy as [->|Hy]; [by left|right; auto]|right; auto]. }
      * exists (with_hashed true i'). rewrite lookup_insert_eq. split_and!; [done|done|]. unfold b0. cbn [with_hashed i_key]. by rewrite Hk.
      * apply H2 in Hin as (j&?&?&?). exists j. by rewrite lookup_insert_ne.
    + intros (j&[[<- <-]|[_ Hj]]%lookup_insert_Some&Hhj&->).
      * cbn [with_hashed i_key]. rewrite Hk. fold b0. rewrite decide_True by done. by left.
      * assert (y ∈ bucket c (slot (i_key j))) by (apply H2; eauto). case_decide as Hb; [right; by rewrite <-Hb|done].
  - intros y z j k. cbn [put_bucket put_inode inodes]. intros [[<- <-]|[_ Hy]]%lookup_insert_Some [[<- <-]|[_ Hz]]%lookup_insert_Some; simpl; intros Hhj Hhk Hkk; [done| | |by eapply H3].
    + destruct (Hfree z k Hz Hhk). congruence.
    + destruct (Hfree y j Hy Hhj). congruence.
Qed.

Lemma hash_del_inodes c x i : inodes c !! x = Some i → inodes (hash_del c x i) = <[x := with_hashed false i]> (inodes c).
Proof.
  intros Hx. unfold hash_del. destruct (i_hashed i) eqn:E; cbn [negb]; [done|].
  replace (with_hashed false i) with i by (destruct i; by simpl in *; subst). by rewrite insert_id.
Qed.

Lemma table_del c x i : table_ok c → inodes c !! x = Some i → table_ok (hash_del c x i).
Proof.
  intros Hok Hx. unfold hash_del. destruct (i_hashed i) eqn:E; cbn [negb]; [|done]. destruct Hok as [H1 H2 H3]. split.
  - intros y. cbn. intros [<-|Hy]%lookup_insert_is_Some'; eauto.
  - intros b y. rewrite bucket_put. cbn [put_bucket put_inode inodes].
    transitivity (y ≠ x ∧ y ∈ bucket c b).
    { case_decide as Hb; [subst; by rewrite list_elem_of_filter|]. split; [|by intros [_ ?]]. intros Hy. split; [|done].
      intros ->. apply H2 in Hy as (j&?&_&?). congruence. }
    rewrite (H2 b y). split.
    + intros (Hne&j&?&?&?). exists j. by rewrite lookup_insert_ne.
    + intros (j&[[<- <-]|[Hne Hj]]%lookup_insert_Some&?&?); [done|]. split; [done|eauto].
  - intros y z j k. cbn [put_bucket put_inode inodes]. intros [[<- <-]|[_ Hy]]%lookup_insert_Some [[<- <-]|[_ Hz]]%lookup_insert_Some; simpl; try done. by apply H3.
Qed.

Lemma icache_find_in_spec c key l :
  (∀ x, x ∈ l → is_Some (inodes c !! x)) →
  ∃ o, find_in c key l = Ok o ∧
    match o with
    | Some x => x ∈ l ∧ ∃ i, inodes c !! x = Some i ∧ i_key i = key
    | None => ∀ x i, x ∈ l → inodes c !! x = Some i → i_key i ≠ key
    end.
Proof.
  induction l as [|x l IH]; intros Hl; [exists None; split; [done|]; by intros ?? ?%not_elem_of_nil|]. cbn [find_in].
  destruct (Hl x) as [i Hi]; [by left|]. rewrite Hi. cbn [deref res_bind]. case_bool_decide as Hk.
  - exists (Some x). split; [done|]. split; [by left|eauto].
  - destruct IH as (o&Ho&Hspec); [intros y Hy; apply Hl; by right|]. exists o. split; [done|].
    destruct o as [y|]; [destruct Hspec; split; [by right|done]|]. intros y j [->|Hy]%elem_of_cons Hj; [by simplify_eq|eauto].
Qed.

(** The one published inode of a key, if there is one. *)
Lemma icache_find_locked_spec c key :
  table_ok c →
  ∃ o, icache_find_locked c key = Ok o ∧
    match o with
    | Some x => ∃ i, inodes c !! x = Some i ∧ i_hashed i = true ∧ i_key i = key
    | None => ∀ x i, inodes c !! x = Some i → i_hashed i = true → i_key i ≠ key
    end.
Proof.
  intros Hok. destruct (icache_find_in_spec c key (bucket c (slot key))) as (o&Ho&Hspec); [intros x (i&Hi&_)%(t_table _ Hok); eauto|].
  exists o. split; [done|]. destruct o as [x|].
  - destruct Hspec as [Hx (i&Hi&?)]. apply (t_table _ Hok) in Hx as (j&Hj&?&_). exists i. split_and!; congruence.
  - intros x i Hi Hh Hk. apply (Hspec x i); [|done|done]. apply (t_table _ Hok). exists i. by rewrite Hk.
Qed.

(** ** The invariant of the threads *)

(** An inode counts the references held to it; one is put away exactly when there is
    none left.  Loading it and putting it away are seen in its state, and nobody holds
    or publishes an inode that is put away. *)
Definition inode_ok (n : nat) (l d : Prop) (o : option inode) : Prop :=
  match o with
  | None => n = 0%nat ∧ ¬ l ∧ ¬ d
  | Some i => i_count i = Z.of_nat n ∧ (d ↔ n = 0%nat) ∧
      ((i_state i = 0 ∧ ¬ l ∧ (i_hashed i = true → (0 < n)%nat)) ∨
       (i_state i = I_NEW ∧ l ∧ (0 < n)%nat ∧ i_hashed i = true) ∨
       (i_state i = I_FREEING ∧ ¬ l ∧ n = 0%nat))
  end.

(** Only an inode that is put away is to be removed from the table, and one that is
    still published is. *)
Definition evict_ok (d v : Prop) (o : option inode) : Prop :=
  (v → d) ∧ ∀ i, o = Some i → i_hashed i = true → d → v.

Record inv (s : conf) : Prop := {
  inv_table : table_ok (cache s);
  inv_inode : ∀ x, inode_ok (refs s x) (x ∈ loading s) (x ∈ dying s) (inodes (cache s) !! x);
  inv_evict : ∀ x, evict_ok (x ∈ dying s) (x ∈ evicting s) (inodes (cache s) !! x)
}.

Section safety.
Context (CONFIG_DEBUG_REFCOUNT : bool).

Lemma inv_at x c f L D V c' f' L' D' V' :
  inv (Conf c f L D V) → table_ok c' → (∀ y, y ≠ x → inodes c' !! y = inodes c !! y ∧ f' y = f y ∧ (y ∈ L' ↔ y ∈ L) ∧ (y ∈ D' ↔ y ∈ D) ∧ (y ∈ V' ↔ y ∈ V)) →
  inode_ok (f' x) (x ∈ L') (x ∈ D') (inodes c' !! x) → evict_ok (x ∈ D') (x ∈ V') (inodes c' !! x) → inv (Conf c' f' L' D' V').
Proof.
  intros [_ Hi Hv] Ht Hoth Hx Hxv. split; [done| |]; intros y; cbn [refs loading dying evicting cache] in *; (destruct (decide (y = x)) as [->|Hy]; [done|]);
    destruct (Hoth y Hy) as (->&Hf&HL&HD&HV).
  - specialize (Hi y). unfold inode_ok in *. rewrite Hf. destruct (inodes c !! y); [|tauto]. rewrite HL, HD. done.
  - destruct (Hv y) as [Hvd Hdv]. split; [rewrite HD, HV; done|]. intros i Hy' Hh ?%HD. by apply HV, (Hdv i).
Qed.

(** An inode that is not put away is not to be removed either. *)
Lemma evict_alive c f L D V x o : inv (Conf c f L D V) → (x ∉ D) → evict_ok (x ∈ D) (x ∈ V) o.
Proof. intros [_ _ Hv] HD. destruct (Hv x) as [Hvd _]. split; [done|]. by intros ? _ _ ?. Qed.

(** A held inode: what the invariant says of it. *)
Lemma held_inode c f L D V x : inv (Conf c f L D V) → (0 < f x)%nat → ∃ i, inodes c !! x = Some i ∧ i_count i = Z.of_nat (f x) ∧ (x ∉ D) ∧
  ((i_state i = 0 ∧ x ∉ L) ∨ (i_state i = I_NEW ∧ x ∈ L ∧ i_hashed i = true)).
Proof.
  intros [_ Hi _] Hf. specialize (Hi x). cbn in Hi. unfold inode_ok in Hi. destruct (inodes c !! x) as [i|]; [|lia]. exists i.
  destruct Hi as (Hc&HD&Hs). split; [done|]. split; [done|]. split; [intros ?%HD; lia|]. destruct Hs as [(?&?&_)|[(?&?&_&?)|(_&_&?)]]; [by left|by right|lia].
Qed.

Lemma ihold_ok c f L D V x i :
  bounded (Conf c f L D V) → inodes c !! x = Some i → i_count i = Z.of_nat (f x) → (0 < f x)%nat →
  ihold CONFIG_DEBUG_REFCOUNT c x = Ok (put_inode c x (with_count (i_count i + 1) i)).
Proof.
  intros Hb Hx Hc Hf. specialize (Hb x). cbn in Hb. unfold ihold. rewrite Hx. cbn [deref res_bind]. rewrite inc_ok by lia. done.
Qed.

Lemma inv_hold c f L D V x i :
  inv (Conf c f L D V) → inodes c !! x = Some i → (0 < f x)%nat → inv (Conf (put_inode c x (with_count (i_count i + 1) i)) (more x f) L D V).
Proof.
  intros Hinv Hx Hf. destruct (held_inode c f L D V x Hinv Hf) as (_&_&_&HxD&_).
  apply (inv_at x c f L D V); [done|by apply (table_put _ _ _ _ (inv_table _ Hinv) Hx)| | |by apply (evict_alive c f L)].
  - intros y Hy. cbn [put_inode inodes]. rewrite lookup_insert_ne by done. unfold more. by rewrite decide_False.
  - cbn [put_inode inodes]. rewrite lookup_insert_eq. unfold more. rewrite decide_True by done. pose proof (inv_inode _ Hinv x) as Hi. cbn in Hi. rewrite Hx in Hi.
    unfold inode_ok in *. destruct Hi as (Hc&HD&Hs). cbn [with_count i_count i_state i_hashed]. split; [lia|]. split; [split; [intros ?%HD; lia|lia]|].
    destruct Hs as [(?&?&?)|[(?&?&?&?)|(?&?&?)]]; [left|right; left|lia]; split_and!; auto with lia.
Qed.

(** One attempt of a lookup. *)
Lemma find_try_spec c f L D V key :
  inv (Conf c f L D V) → bounded (Conf c f L D V) →
  ∃ r, find_try CONFIG_DEBUG_REFCOUNT c key = Ok r ∧
    match r with
    | Some (Some x, c') => ∃ i, inodes c !! x = Some i ∧ i_key i = key ∧ i_hashed i = true ∧ i_state i = 0 ∧ (0 < f x)%nat ∧
        c' = put_inode c x (with_count (i_count i + 1) i)
    | Some (None, c') => c' = c ∧ ∀ x i, inodes c !! x = Some i → i_hashed i = true → i_key i ≠ key
    | None => ∃ x i, inodes c !! x = Some i ∧ i_key i = key ∧ i_hashed i = true ∧ (x ∈ L ∨ x ∈ D)
    end.
Proof.
  intros Hinv Hb. unfold find_try. destruct (icache_find_locked_spec c key (inv_table _ Hinv)) as (o&->&Hspec). cbn [res_bind]. destruct o as [x|]; [|by eexists].
  destruct Hspec as (i&Hx&Hh&Hk). rewrite Hx. cbn [deref res_bind]. pose proof (inv_inode _ Hinv x) as Hi. cbn in Hi. rewrite Hx in Hi. destruct Hi as (Hc&HD&Hs).
  unfold truth. destruct (Z.eqb_spec (i_state i) 0) as [E|E]; cbn [negb].
  - assert (0 < f x)%nat as Hf by (destruct Hs as [(_&_&Hs)|[(Hs&_)|(Hs&_)]]; [auto|by rewrite E in Hs..]).
    rewrite (ihold_ok c f L D V x i) by done. cbn [res_bind]. eexists. split; [done|]. exists i. by split_and!.
  - exists None. split; [done|]. exists x, i. split_and!; [done..|]. destruct Hs as [(?&_)|[(_&?&_)|(_&_&?)]]; [done|by left|right; tauto].
Qed.

(** A step that writes one inode back, its key and whether it is published kept. *)
Lemma inv_put c f L D V x i i' f' L' D' V' :
  inv (Conf c f L D V) → inodes c !! x = Some i → i_key i' = i_key i → i_hashed i' = i_hashed i →
  (∀ y, y ≠ x → f' y = f y ∧ (y ∈ L' ↔ y ∈ L) ∧ (y ∈ D' ↔ y ∈ D) ∧ (y ∈ V' ↔ y ∈ V)) →
  inode_ok (f' x) (x ∈ L') (x ∈ D') (Some i') → evict_ok (x ∈ D') (x ∈ V') (Some i') → inv (Conf (put_inode c x i') f' L' D' V').
Proof.
  intros Hinv Hx Hk Hh Hoth Hok Hv. apply (inv_at x c f L D V); [done|by apply (table_put _ _ _ _ (inv_table _ Hinv) Hx)| | |].
  - intros y Hy. cbn [put_inode inodes]. rewrite lookup_insert_ne by done. split; [done|auto].
  - cbn [put_inode inodes]. by rewrite lookup_insert_eq.
  - cbn [put_inode inodes]. by rewrite lookup_insert_eq.
Qed.

Lemma inv_publish c f L D V L' x i i' :
  inv (Conf c f L D V) → inodes c !! x = Some i → i_hashed i = false → i_key i' = i_key i →
  (∀ y j, inodes c !! y = Some j → i_hashed j = true → i_key j ≠ i_key i) →
  (∀ y, y ≠ x → (y ∈ L' ↔ y ∈ L)) → (x ∉ D) → inode_ok (f x) (x ∈ L') (x ∈ D) (Some (with_hashed true i')) → inv (Conf (hash_add c x i') f L' D V).
Proof.
  intros Hinv Hx Hh Hk Hfree HL HxD Hok. apply (inv_at x c f L D V); [done|by apply (table_add _ _ i); [apply (inv_table _ Hinv)|..]| | |by apply (evict_alive c f L)].
  - intros y Hy. cbn [hash_add put_bucket put_inode inodes]. rewrite lookup_insert_ne by done. split_and!; [done|done|auto|done|done].
  - cbn [hash_add put_bucket put_inode inodes]. by rewrite lookup_insert_eq.
Qed.

Lemma inv_unhash c f L D V L' V' x i :
  inv (Conf c f L D V) → inodes c !! x = Some i →
  (∀ y, y ≠ x → (y ∈ L' ↔ y ∈ L) ∧ (y ∈ V' ↔ y ∈ V)) → (x ∈ V' → x ∈ D) →
  ∀ s, inode_ok (f x) (x ∈ L') (x ∈ D) (Some (with_state s (with_hashed false i))) →
  inv (Conf (put_inode (hash_del c x i) x (with_state s (with_hashed false i))) f L' D V').
Proof.
  intros Hinv Hx HL Hv s Hok. assert (inodes (hash_del c x i) !! x = Some (with_hashed false i)) as Hx' by (by rewrite hash_del_inodes, lookup_insert_eq).
  apply (inv_at x c f L D V); [done| | | |].
  - by apply (table_put _ _ (with_hashed false i)); [apply table_del; [apply (inv_table _ Hinv)|]|..].
  - intros y Hy. cbn [put_inode inodes]. rewrite hash_del_inodes by done. rewrite !lookup_insert_ne by done. destruct (HL y Hy). by split_and!.
  - cbn [put_inode inodes]. by rewrite lookup_insert_eq.
  - cbn [put_inode inodes]. rewrite lookup_insert_eq. split; [done|]. intros j [= <-]. done.
Qed.

(** One attempt to publish: it shares the inode that is there, or publishes the caller's. *)
Lemma insert_try_spec c f L D V x i :
  inv (Conf c f L D V) → bounded (Conf c f L D V) → inodes c !! x = Some i → i_hashed i = false →
  ∃ r, insert_try CONFIG_DEBUG_REFCOUNT c x = Ok r ∧
    match r with
    | Some (y, c') => (y = x ∧ c' = hash_add c x (with_state I_NEW i) ∧ ∀ z j, inodes c !! z = Some j → i_hashed j = true → i_key j ≠ i_key i) ∨
        (y ≠ x ∧ ∃ j, inodes c !! y = Some j ∧ i_key j = i_key i ∧ i_hashed j = true ∧ i_state j = 0 ∧ (0 < f y)%nat ∧
          c' = put_inode c y (with_count (i_count j + 1) j))
    | None => ∃ y j, inodes c !! y = Some j ∧ i_key j = i_key i ∧ i_hashed j = true ∧ (y ∈ L ∨ y ∈ D)
    end.
Proof.
  intros Hinv Hb Hx Hh. unfold insert_try. rewrite Hx. cbn [deref res_bind]. destruct (find_try_spec c f L D V (i_key i) Hinv Hb) as (r&Hr&Hspec).
  unfold find_try in Hr. destruct (icache_find_locked_spec c (i_key i) (inv_table _ Hinv)) as (o&Ho&Hspec'). rewrite Ho in Hr |- *. cbn [res_bind] in Hr |- *.
  destruct o as [y|].
  - destruct Hspec' as (j&Hy&Hhj&_). rewrite Hy in Hr |- *. cbn [deref res_bind] in Hr |- *. destruct (truth (i_state j)).
    + injection Hr as <-. by exists None.
    + destruct (ihold CONFIG_DEBUG_REFCOUNT c y) as [c1| | |]; cbn [res_bind] in Hr |- *; try discriminate. injection Hr as <-.
      exists (Some (y, c1)). split; [done|]. right. split; [|done]. intros ->. congruence.
  - eexists. split; [done|]. left. done.
Qed.

Lemma step_publish_inv c f L D V x i c' :
  inv (Conf c f L D V) → bounded (Conf c f L D V) → inodes c !! x = Some i → (0 < f x)%nat → i_hashed i = false →
  insert_try CONFIG_DEBUG_REFCOUNT c x = Ok (Some (x, c')) → inv (Conf c' f ({[x]} ∪ L) D V).
Proof.
  intros Hinv Hb Hx Hf Hh Hop. destruct (insert_try_spec c f L D V x i Hinv Hb Hx Hh) as (r&Hr&Hspec). rewrite Hr in Hop. injection Hop as ->.
  destruct Hspec as [(_&->&Hfree)|[? _]]; [|done]. destruct (held_inode c f L D V x Hinv Hf) as (i0&Hx0&Hc&HD&_). assert (i0 = i) as -> by congruence.
  apply (inv_publish c f L D V _ x i); [done..|set_solver|done|]. unfold inode_ok. cbn. split; [done|]. split; [split; [done|lia]|]. right. left. set_solver.
Qed.

Lemma step_shared_inv c f L D V x i y c' :
  inv (Conf c f L D V) → bounded (Conf c f L D V) → inodes c !! x = Some i → i_hashed i = false →
  insert_try CONFIG_DEBUG_REFCOUNT c x = Ok (Some (y, c')) → y ≠ x → inv (Conf c' (more y f) L D V).
Proof.
  intros Hinv Hb Hx Hh Hop Hne. destruct (insert_try_spec c f L D V x i Hinv Hb Hx Hh) as (r&Hr&Hspec). rewrite Hr in Hop. injection Hop as ->.
  destruct Hspec as [(?&_)|(_&j&Hy&_&_&_&Hfy&->)]; [done|by apply inv_hold].
Qed.

Lemma step_inserts_inv c f L D V x i c' :
  inv (Conf c f L D V) → inodes c !! x = Some i → (0 < f x)%nat → i_hashed i = false → inserts_try c x = Ok (Some (0, c')) → inv (Conf c' f L D V).
Proof.
  intros Hinv Hx Hf Hh Hop. unfold inserts_try in Hop. rewrite Hx in Hop. cbn [deref res_bind] in Hop.
  destruct (icache_find_locked_spec c (i_key i) (inv_table _ Hinv)) as (o&Ho&Hspec). rewrite Ho in Hop. cbn [res_bind] in Hop. destruct o as [y|].
  { destruct Hspec as (j&Hy&_). rewrite Hy in Hop. cbn [deref res_bind] in Hop. destruct (negb _); discriminate. }
  injection Hop as <-. destruct (held_inode c f L D V x Hinv Hf) as (i0&Hx0&Hc&HD&Hs). assert (i0 = i) as -> by congruence.
  apply (inv_publish c f L D V L x i); [done..|]. unfold inode_ok. cbn. split; [done|]. split; [split; [done|lia]|].
  left. destruct Hs as [[? ?]|(_&_&?)]; [auto|congruence].
Qed.

(** The inode a thread is loading. *)
Lemma loading_inode c f L D V x : inv (Conf c f L D V) → x ∈ L → ∃ i, inodes c !! x = Some i ∧ i_count i = Z.of_nat (f x) ∧ i_state i = I_NEW ∧ (0 < f x)%nat ∧ i_hashed i = true ∧ (x ∉ D).
Proof.
  intros Hinv HL. pose proof (inv_inode _ Hinv x) as Hi. cbn in Hi. unfold inode_ok in Hi. destruct (inodes c !! x) as [i|]; [|tauto]. exists i.
  destruct Hi as (Hc&HD&[(_&?&_)|[(?&_&?&?)|(_&?&_)]]); [done| |done]. split_and!; [done..|]. intros ?%HD. lia.
Qed.

Lemma step_ready_inv c f L D V x c' : inv (Conf c f L D V) → x ∈ L → icache_ready c x = Ok c' → inv (Conf c' f (L ∖ {[x]}) D V).
Proof.
  intros Hinv HL Hop. destruct (loading_inode c f L D V x Hinv HL) as (i&Hx&Hc&Hs&Hf&Hh&HD). unfold icache_ready in Hop. rewrite Hx in Hop. injection Hop as <-.
  apply (inv_put c f L D V x i); [done..|set_solver| |by apply (evict_alive c f L)]. unfold inode_ok. cbn. split; [done|]. split; [split; [done|lia]|]. left. set_solver.
Qed.

Lemma step_abort_inv c f L D V x c' : inv (Conf c f L D V) → x ∈ L → icache_abort c x = Ok c' → inv (Conf c' f (L ∖ {[x]}) D V).
Proof.
  intros Hinv HL Hop. destruct (loading_inode c f L D V x Hinv HL) as (i&Hx&Hc&Hs&Hf&Hh&HD). unfold icache_abort in Hop. rewrite Hx in Hop. cbn [deref res_bind] in Hop.
  rewrite hash_del_inodes, lookup_insert_eq in Hop by done. injection Hop as <-.
  apply (inv_unhash c f L D V); [done|done|set_solver|apply (inv_evict _ Hinv x)|]. unfold inode_ok. cbn. split; [done|]. split; [split; [done|lia]|]. left. set_solver.
Qed.

Lemma step_put_inv c f L D V x last cached c' :
  inv (Conf c f L D V) → (0 < f x)%nat → x ∉ L → iput_count CONFIG_DEBUG_REFCOUNT c x = Ok (last, cached, c') →
  inv (Conf c' (less x f) L (if last then {[x]} ∪ D else D) (if last && cached then {[x]} ∪ V else V)).
Proof.
  intros Hinv Hf HL Hop. destruct (held_inode c f L D V x Hinv Hf) as (i&Hx&Hc&HD&Hs). destruct Hs as [[Hs _]|(_&?&_)]; [|done].
  unfold iput_count in Hop. rewrite Hx in Hop. cbn [deref res_bind] in Hop. rewrite dec_ok in Hop by lia. cbn [res_bind] in Hop.
  assert (∀ y, y ≠ x → less x f y = f y) as Hl by (intros y Hy; unfold less; by rewrite decide_False).
  assert (less x f x = pred (f x)) as Hlx by (unfold less; by rewrite decide_True).
  destruct (Z.eqb_spec (i_count i) 1) as [E|E]; cbn [negb] in Hop; injection Hop as <- <- <-.
  - cbn [with_count i_hashed]. apply (inv_put c f L D V x i); [done|done|by destruct (i_hashed i)|by destruct (i_hashed i) eqn:?|intros y Hy; split_and!; [auto|done|set_solver|destruct (i_hashed i); set_solver]| |].
    rewrite Hlx. unfold inode_ok. destruct (i_hashed i) eqn:Eh; cbn; rewrite Hc in E; (split; [lia|]; split; [split; [lia|set_solver]|]).
    + right. right. split_and!; [done|done|lia].
    + left. split_and!; [done|done|congruence].
    + split; [set_solver|]. intros j [= <-]. destruct (i_hashed i) eqn:Eh; cbn [with_state with_count i_hashed]; [set_solver|congruence].
  - apply (inv_put c f L D V x i); [done..|intros y Hy; split_and!; [auto|done|done|done]| |by apply (evict_alive c f L)]. rewrite Hlx. unfold inode_ok. cbn.
    split; [lia|]. split; [split; [done|lia]|]. left. split_and!; [done|done|lia].
Qed.

(** The inode a thread is putting away. *)
Lemma dying_inode c f L D V x i : inv (Conf c f L D V) → x ∈ D → inodes c !! x = Some i → i_count i = Z.of_nat (f x) ∧ f x = 0%nat ∧ (x ∉ L) ∧ (i_state i = I_FREEING ∨ i_state i = 0 ∧ i_hashed i = false).
Proof.
  intros Hinv HD Hx. pose proof (inv_inode _ Hinv x) as Hi. cbn in Hi. rewrite Hx in Hi. destruct Hi as (Hc&HD'&Hs). pose proof (proj1 HD' HD).
  destruct Hs as [(?&?&Hh)|[(_&_&?&_)|(?&?&_)]]; [|lia|by split_and!; [..|left]].
  split_and!; [done..|]. right. split; [done|]. destruct (i_hashed i); [|done]. specialize (Hh eq_refl). lia.
Qed.

Lemma dying_present c f L D V x : inv (Conf c f L D V) → x ∈ D → is_Some (inodes c !! x).
Proof.
  intros Hinv HD. pose proof (inv_inode _ Hinv x) as Hi. cbn in Hi. destruct (inodes c !! x); [done|]. by destruct Hi as (_&_&Hn).
Qed.

Lemma step_unhash_inv c f L D V x c' : inv (Conf c f L D V) → x ∈ V → iput_unhash c x = Ok c' → inv (Conf c' f L D (V ∖ {[x]})).
Proof.
  intros Hinv HV Hop. destruct (dying_present c f L D V x Hinv) as [i Hx]; [by apply (inv_evict _ Hinv x)|].
  assert (x ∈ D) as HD by (by apply (inv_evict _ Hinv x)). destruct (dying_inode c f L D V x i Hinv HD Hx) as (Hc&Hf&HL&Hs). unfold iput_unhash in Hop. rewrite Hx in Hop. injection Hop as <-.
  assert (hash_del c x i = put_inode (hash_del c x i) x (with_state (i_state i) (with_hashed false i))) as ->.
  { unfold put_inode. rewrite insert_id; [by destruct (hash_del c x i)|]. rewrite hash_del_inodes, lookup_insert_eq by done. by destruct i. }
  apply (inv_unhash c f L D V); [done|done|set_solver|done|]. unfold inode_ok. cbn. split; [done|]. split; [done|]. destruct Hs as [?|[? _]]; [right; right|left]; done.
Qed.

(** The removal is done: nothing finds the inode any more. *)
Lemma dying_unhashed c f L D V x i :
  inv (Conf c f L D V) → x ∈ D → (x ∉ V) → inodes c !! x = Some i → i_hashed i = false.
Proof.
  intros Hinv HD HV Hx. pose proof (inv_evict _ Hinv x) as [_ Hv]. cbn in Hv. destruct (i_hashed i) eqn:E; [|done]. destruct HV. by apply (Hv i).
Qed.

Lemma step_destroy_inv c f L D V x c' :
  inv (Conf c f L D V) → x ∈ D → (x ∉ V) → iput_destroy c x = Ok c' → inv (Conf c' f L (D ∖ {[x]}) V).
Proof.
  intros Hinv HD HV Hop. destruct (dying_present c f L D V x Hinv HD) as [i Hx]. pose proof (dying_unhashed c f L D V x i Hinv HD HV Hx) as Hh. destruct (dying_inode c f L D V x i Hinv HD Hx) as (Hc&Hf&HL&Hs). unfold iput_destroy in Hop. rewrite Hx in Hop. injection Hop as <-.
  apply (inv_at x c f L D V); [done|by apply (table_delete _ _ i); [apply (inv_table _ Hinv)|..]| | |].
  - intros y Hy. cbn [inodes]. rewrite lookup_delete_ne by done. set_solver.
  - cbn [inodes]. rewrite lookup_delete_eq. unfold inode_ok. set_solver.
  - split; [set_solver|]. cbn [inodes]. by rewrite lookup_delete_eq.
Qed.

Lemma icache_step_inv s s' : inv s → bounded s → step CONFIG_DEBUG_REFCOUNT s s' → inv s'.
Proof.
  intros Hinv Hb Hstep. destruct Hstep as [c f L D V key x c' Hop|c f L D V key x c' Hop|c f L D V x c' Hf Hop|c f L D V x i c' Hx Hf Hh Hop|c f L D V x i y c' Hx Hf Hh Hop Hne|
    c f L D V x i c' Hx Hf Hh Hop|c f L D V x c' HL Hop|c f L D V x c' HL Hop|c f L D V x last cached c' Hf HL Hop|c f L D V x c' HV Hop|c f L D V x c' HD HV Hop].
  - injection Hop as <- <-. assert (inodes c !! next c = None) as Hn by (apply eq_None_not_Some; intros ?%(t_next _ (inv_table _ Hinv)); cbn in *; lia).
    apply (inv_at (next c) c f L D V); [done|by apply table_new; [apply (inv_table _ Hinv)|]| | |].
    + intros y Hy. cbn [inodes]. rewrite lookup_insert_ne by done. unfold more. by rewrite decide_False.
    + cbn [inodes]. rewrite lookup_insert_eq. unfold more. rewrite decide_True by done. pose proof (inv_inode _ Hinv (next c)) as Hi. cbn in Hi. rewrite Hn in Hi.
      destruct Hi as (->&?&?). cbn. split_and!; [done|naive_solver|]. left. naive_solver.
    + cbn [inodes]. rewrite lookup_insert_eq. split; [apply (inv_evict _ Hinv (next c))|]. by intros j [= <-].
  - destruct (find_try_spec c f L D V key Hinv Hb) as (r&Hr&Hspec). rewrite Hr in Hop. injection Hop as ->. destruct Hspec as (i&Hx&_&_&_&Hf&->). by apply inv_hold.
  - destruct (held_inode c f L D V x Hinv Hf) as (i&Hx&Hc&_). rewrite (ihold_ok c f L D V x i) in Hop by done. injection Hop as <-. by apply inv_hold.
  - by eapply step_publish_inv.
  - by eapply step_shared_inv.
  - by eapply step_inserts_inv.
  - by eapply step_ready_inv.
  - by eapply step_abort_inv.
  - by eapply step_put_inv.
  - by eapply step_unhash_inv.
  - by eapply step_destroy_inv.
Qed.

Lemma icache_reachable_inv s : reachable CONFIG_DEBUG_REFCOUNT s → inv s ∧ bounded s.
Proof.
  intros Hr. unfold reachable in Hr. apply (rtc_ind_r (λ s, inv s ∧ bounded s) start) in Hr; [done| |].
  - split; [split; [split| |]|].
    + intros x [i Hi]. cbn in Hi. by rewrite lookup_empty in Hi.
    + intros b x. unfold bucket. cbn. rewrite lookup_empty. split; [by intros ?%not_elem_of_nil|]. intros (i&Hi&_). by rewrite lookup_empty in Hi.
    + intros x y i j Hi. cbn in Hi. by rewrite lookup_empty in Hi.
    + intros x. cbn. rewrite lookup_empty. unfold inode_ok. set_solver.
    + intros x. cbn. rewrite lookup_empty. split; [done|]. done.
    + intros x. cbn. done.
  - intros s1 s2 _ [Hstep Hb2] [Hinv Hb]. split; [by eapply icache_step_inv|done].
Qed.
End safety.

(** C22: the inode cache under any interleaving of any number of threads that allocate,
    look up, publish, load, give up, hold and put inodes.  In every reachable state no
    file system and number has two published inodes; an inode somebody holds is in
    memory, counted exactly, and not being put away, and one being put away is held by
    nobody.  A lookup never faults: it answers with a published, loaded inode of the
    key that others still hold, or that there is none, or waits, and then only for an
    inode that some thread is loading or putting away.  A thread that put the last
    reference finds the inode in memory at each of its later sections, and when it
    releases the memory - whatever the others did meanwhile - no chain and no thread
    has the inode any more. *)
Theorem icache_reachable_safe dbg s :
  reachable dbg s →
  (∀ x y i j, inodes (cache s) !! x = Some i → inodes (cache s) !! y = Some j → i_hashed i = true → i_hashed j = true → i_key i = i_key j → x = y) ∧
  (∀ x, (0 < refs s x)%nat → (x ∉ dying s) ∧ ∃ i, inodes (cache s) !! x = Some i ∧ i_count i = Z.of_nat (refs s x)) ∧
  (∀ key, ∃ r, find_try dbg (cache s) key = Ok r ∧
     match r with
     | Some (Some x, c') => ∃ i, inodes (cache s) !! x = Some i ∧ i_key i = key ∧ i_hashed i = true ∧ i_state i = 0 ∧ (0 < refs s x)%nat
     | Some (None, c') => ∀ x i, inodes (cache s) !! x = Some i → i_hashed i = true → i_key i ≠ key
     | None => ∃ x i, inodes (cache s) !! x = Some i ∧ i_key i = key ∧ i_hashed i = true ∧ (x ∈ loading s ∨ x ∈ dying s)
     end) ∧
  (∀ x, x ∈ evicting s → ∃ c', iput_unhash (cache s) x = Ok c') ∧
  (∀ x, x ∈ dying s → (x ∉ evicting s) →
     refs s x = 0%nat ∧ (∀ b, x ∉ bucket (cache s) b) ∧ ∃ c', iput_destroy (cache s) x = Ok c').
Proof.
  intros Hr. destruct (icache_reachable_inv dbg s Hr) as [Hinv Hb]. destruct s as [c f L D V]. cbn [cache refs loading dying evicting]. split_and!.
  - apply (t_unique _ (inv_table _ Hinv)).
  - intros x Hf. destruct (held_inode c f L D V x Hinv Hf) as (i&Hx&Hc&HD&_). eauto.
  - intros key. destruct (find_try_spec dbg c f L D V key Hinv Hb) as (r&Hr'&Hspec). exists r. split; [done|].
    destruct r as [[[x|] c']|]; [|by destruct Hspec|done]. destruct Hspec as (i&?&?&?&?&?&_). exists i. by split_and!.
  - intros x HV. destruct (dying_present c f L D V x Hinv) as [i Hx]; [by apply (inv_evict _ Hinv x)|].
    unfold iput_unhash. rewrite Hx. by eexists.
  - intros x HD HV. destruct (dying_present c f L D V x Hinv HD) as [i Hx]. pose proof (dying_unhashed c f L D V x i Hinv HD HV Hx) as Hh.
    destruct (dying_inode c f L D V x i Hinv HD Hx) as (_&Hf&_). split_and!; [done| |unfold iput_destroy; rewrite Hx; by eexists].
    intros b (j&Hj&?&_)%(t_table _ (inv_table _ Hinv)). cbn in Hj. congruence.
Qed.

(** An inode is allocated, published, loaded and found by its number. *)
Definition loaded : icache := Icache {[ 0%nat := Inode 1 0 (7, 12) true ]} {[ slot (7, 12) := [0%nat] ]} 1.

Lemma loaded_reachable : ∃ L f, reachable true (Conf loaded f L ∅ ∅) ∧ f 0%nat = 1%nat.
Proof.
  eexists _, _. split.
  - eapply rtc_l; [split; [apply (step_alloc true _ _ _ _ _ (7, 12)); reflexivity|]|].
    { intros x. cbn. unfold more. case_decide; done. }
    eapply rtc_l; [split; [eapply (step_publish true _ _ _ _ _ 0%nat); [reflexivity|by vm_compute|reflexivity|reflexivity]|]|].
    { intros x. cbn. unfold more. case_decide; done. }
    eapply rtc_l; [split; [eapply (step_ready true _ _ _ _ _ 0%nat); [set_solver|reflexivity]|]|].
    { intros x. cbn. unfold more. case_decide; done. }
    apply rtc_refl.
  - done.
Qed.

Lemma icache_reachable_safe_witness :
  ∃ f L, reachable true (Conf loaded f L ∅ ∅) ∧ ∃ r, find_try true loaded (7, 12) = Ok r ∧
    match r with Some (Some x, _) => ∃ i, inodes loaded !! x = Some i ∧ i_key i = (7, 12) ∧ i_state i = 0 ∧ (0 < f x)%nat | _ => False end.
Proof.
  destruct loaded_reachable as (L&f&Hr&Hf). exists f, L. split; [exact Hr|].
  destruct (icache_reachable_safe true _ Hr) as (_&_&Hfind&_). destruct (Hfind (7, 12)) as (r&Hr'&Hspec). exists r. split; [exact Hr'|].
  destruct r as [[[x|] c']|].
  - destruct Hspec as (i&?&?&_&?&?). eauto.
  - exact (Hspec 0%nat (Inode 1 0 (7, 12) true) eq_refl eq_refl eq_refl).
  - cbn [cache] in Hr'. vm_compute in Hr'. discriminate Hr'.
Defined.
