(* ===== verification/Pid.v ===== *)
(** * Process identifiers: [kernel/pid.c]

    A number is given out from a bitmap, cyclically, and stays taken while its
    [struct pid] is referenced: by the tasks that have it as thread, process, group or
    session id, or by a caller for a while.  A published task is on the list of each of
    its four ids, and an id with a task on some list is in the hash table.  All of it
    is under [pid_lock], so each operation is one transition of the state; the count
    that [pid_put] drops before it takes the lock is one too, since a number stays
    taken until its bit is cleared.  Ids and tasks are named by numbers; the fields of
    [struct task] are those this file uses.

    The theorems keep the state consistent (counts, lists, table and bitmap), give the
    numbers out without duplicates, and keep every process group inside one session;
    the last one shows a run in which a new process escapes that. *)
From stdpp Require Import base tactics numbers list gmap countable.
From S2P Require Import Prelude Refcount Bitmap Dcache.

Definition PID_INIT : Z := 1.
Definition PID_MAX : Z := 32768.

Inductive pid_type := TID | TGID | PGID | SID.
#[global] Instance pid_type_eq_dec : EqDecision pid_type.
Proof. solve_decision. Defined.
#[global] Instance pid_type_countable : Countable pid_type.
Proof.
  refine (inj_countable' (λ t, match t with TID => 0 | TGID => 1 | PGID => 2 | SID => 3 end)%nat
    (λ n, match n with 0 => TID | 1 => TGID | 2 => PGID | _ => SID end)%nat _). by intros [].
Defined.
Definition pid_types : list pid_type := [TID; TGID; PGID; SID].

Record pid := Pid { refcount : Z; nr : Z; hashed : bool; tasks : pid_type → list nat }.
Record task := Task { pids : pid_type → option nat; linked : pid_type → bool; parent : option nat; forknoexec : bool }.
(** [next]: the serial number of the next allocation of a [struct pid]. *)
Record ids := Ids { pidmap : list Z; next_pid : Z; pobjs : gmap nat pid; tobjs : gmap nat task; table : gmap Z (list nat); next : nat }.

Definition upd {A} (f : pid_type → A) (ty : pid_type) (v : A) : pid_type → A := λ t, if decide (t = ty) then v else f t.
Definition slot (n : Z) : Z := hash_64 (u64 n) 8.
Definition bucket (s : ids) (b : Z) : list nat := default [] (table s !! b).
Definition with_refcount (n : Z) (p : pid) : pid := Pid n (nr p) (hashed p) (tasks p).
Definition with_hashed (h : bool) (p : pid) : pid := Pid (refcount p) (nr p) h (tasks p).
Definition with_tasks (f : pid_type → list nat) (p : pid) : pid := Pid (refcount p) (nr p) (hashed p) f.
Definition with_pids (f : pid_type → option nat) (t : task) : task := Task f (linked t) (parent t) (forknoexec t).
Definition with_linked (f : pid_type → bool) (t : task) : task := Task (pids t) f (parent t) (forknoexec t).
Definition put_pid (s : ids) (x : nat) (p : pid) : ids := Ids (pidmap s) (next_pid s) (<[x := p]> (pobjs s)) (tobjs s) (table s) (next s).
Definition put_task (s : ids) (t : nat) (tk : task) : ids := Ids (pidmap s) (next_pid s) (pobjs s) (<[t := tk]> (tobjs s)) (table s) (next s).
Definition put_bucket (s : ids) (b : Z) (l : list nat) : ids := Ids (pidmap s) (next_pid s) (pobjs s) (tobjs s) (<[b := l]> (table s)) (next s).

Section pid.
Context (CONFIG_DEBUG_REFCOUNT : bool).

Definition get_pid (s : ids) (x : option nat) : res (nat * pid) := let! x := deref x in let! p := deref (pobjs s !! x) in Ok (x, p).

(** ** Numbers *)

Definition pid_alloc (alloc : bool) (s : ids) : res (Z * option nat * ids) :=
  if negb alloc then Ok (- ENOMEM, None, s) else
  let! n := find_next_zero_bit (pidmap s) PID_MAX (next_pid s) in
  let! n := if n =? PID_MAX then
      let! n := find_next_zero_bit (pidmap s) (next_pid s) PID_INIT in
      Ok (if n =? next_pid s then None else Some n)
    else Ok (Some n) in
  match n with
  | None => Ok (- EAGAIN, None, s)
  | Some n =>
      let! map := set_bit n (pidmap s) in
      let np := if n + 1 =? PID_MAX then PID_INIT else n + 1 in
      let x := next s in
      Ok (0, Some x, Ids map np (<[x := Pid 1 n false (λ _, [])]> (pobjs s)) (tobjs s) (table s) (S x))
  end.

Definition pid_put (s : ids) (x : nat) : res ids :=
  let! p := deref (pobjs s !! x) in
  let! (last, n) := refcount_dec_and_test CONFIG_DEBUG_REFCOUNT [] (refcount p) in
  if negb last then Ok (put_pid s x (with_refcount n p)) else
  let! _ := Assert (negb (hashed p)) in
  let! map := clear_bit (nr p) (pidmap s) in
  Ok (Ids map (next_pid s) (delete x (pobjs s)) (tobjs s) (table s) (next s)).

Definition pid_get (s : ids) (x : nat) : res ids :=
  let! p := deref (pobjs s !! x) in
  let! n := refcount_inc CONFIG_DEBUG_REFCOUNT [] (refcount p) in
  Ok (put_pid s x (with_refcount n p)).

(** ** Searching *)

Fixpoint find_in (s : ids) (n : Z) (l : list nat) : res (option nat) :=
  match l with
  | [] => Ok None
  | x :: l => let! p := deref (pobjs s !! x) in if nr p =? n then Ok (Some x) else find_in s n l
  end.
Definition find_pid_locked (s : ids) (n : Z) : res (option nat) := find_in s n (bucket s (slot n)).
Definition pid_task_locked (s : ids) (x : option nat) (ty : pid_type) : res (option nat) :=
  match x with None => Ok None | Some x => let! p := deref (pobjs s !! x) in Ok (head (tasks p ty)) end.

Definition task_pid_nr (s : ids) (t : nat) (ty : pid_type) : res Z :=
  let! tk := deref (tobjs s !! t) in
  match pids tk ty with None => Ok 0 | Some x => let! p := deref (pobjs s !! x) in Ok (nr p) end.
Definition query_pid (s : ids) (current : nat) (n : Z) (ty : pid_type) : res Z :=
  let! t := if truth n then let! x := find_pid_locked s n in pid_task_locked s x TID else Ok (Some current) in
  match t with None => Ok (- ESRCH) | Some t => let! tk := deref (tobjs s !! t) in let! (_, p) := get_pid s (pids tk ty) in Ok (nr p) end.
Definition sys_getppid (s : ids) (current init : nat) : res Z :=
  if Nat.eqb current init then Ok 0 else
  let! tk := deref (tobjs s !! current) in
  let! pt := deref (parent tk) in let! ptk := deref (tobjs s !! pt) in
  let! (_, p) := get_pid s (pids ptk TGID) in Ok (nr p).

(** ** Identities of a task *)

Fixpoint ref_loop (s : ids) (f : pid_type → option nat) (tys : list pid_type) : res ids :=
  match tys with [] => Ok s | ty :: tys => let! x := deref (f ty) in let! s := pid_get s x in ref_loop s f tys end.
Definition pid_prepare (alloc : bool) (s : ids) (t : nat) (par : option nat) : res (Z * ids) :=
  let! (ret, x, s) := pid_alloc alloc s in
  if truth ret then Ok (ret, s) else
  let! x := deref x in
  let! tk := deref (tobjs s !! t) in
  let! f := match par with
    | None => Ok (λ _, Some x)
    | Some p => let! ptk := deref (tobjs s !! p) in Ok (λ ty, match ty with TID | TGID => Some x | _ => pids ptk ty end)
    end in
  let s := put_task s t (with_pids f tk) in
  let! s := ref_loop s f pid_types in
  let! s := pid_put s x in
  Ok (0, s).

Definition hash_add (s : ids) (x : nat) (p : pid) : ids :=
  let b := slot (nr p) in put_bucket (put_pid s x (with_hashed true p)) b (x :: bucket s b).
Definition hash_del (s : ids) (x : nat) (p : pid) : ids :=
  if negb (hashed p) then s else
  let b := slot (nr p) in put_bucket (put_pid s x (with_hashed false p)) b (filter (λ y, y ≠ x) (bucket s b)).

(** [hlist_add_head] and [hlist_del] of the link [ty] of [t]. *)
Definition link_add (s : ids) (t x : nat) (ty : pid_type) : res ids :=
  let! tk := deref (tobjs s !! t) in let! p := deref (pobjs s !! x) in
  Ok (put_task (put_pid s x (with_tasks (upd (tasks p) ty (t :: tasks p ty)) p)) t (with_linked (upd (linked tk) ty true) tk)).
Definition link_del (s : ids) (t : nat) (ty : pid_type) : res ids :=
  let! tk := deref (tobjs s !! t) in
  if negb (linked tk ty) then Fault else
  let! (x, p) := get_pid s (pids tk ty) in
  Ok (put_task (put_pid s x (with_tasks (upd (tasks p) ty (filter (λ u, u ≠ t) (tasks p ty))) p)) t (with_linked (upd (linked tk) ty false) tk)).

Fixpoint publish_loop (s : ids) (t : nat) (tys : list pid_type) : res ids :=
  match tys with
  | [] => Ok s
  | ty :: tys =>
      let! tk := deref (tobjs s !! t) in
      let! _ := Assert (negb (linked tk ty)) in
      let! (x, p) := get_pid s (pids tk ty) in
      let s := if negb (hashed p) then hash_add s x p else s in
      let! s := link_add s t x ty in
      publish_loop s t tys
  end.
Definition pid_publish (s : ids) (t : nat) : res ids :=
  let! tk := deref (tobjs s !! t) in
  match parent tk with
  | None => Ok s
  | Some _ =>
      let! (_, p) := get_pid s (pids tk TID) in
      let! _ := Assert (bool_decide (tasks p TID = [])) in
      publish_loop s t pid_types
  end.

Definition unhash_unused_pid (s : ids) (x : nat) : res ids :=
  let! p := deref (pobjs s !! x) in
  if existsb (λ ty, negb (bool_decide (tasks p ty = []))) pid_types then Ok s else Ok (hash_del s x p).

Fixpoint unpublish_loop (s : ids) (t : nat) (tys : list pid_type) : res ids :=
  match tys with
  | [] => Ok s
  | ty :: tys =>
      let! s := link_del s t ty in
      let! tk := deref (tobjs s !! t) in
      let! x := deref (pids tk ty) in
      let! s := unhash_unused_pid s x in
      unpublish_loop s t tys
  end.
Definition pid_unpublish (s : ids) (t : nat) : res ids :=
  let! tk := deref (tobjs s !! t) in
  let! _ := Assert (linked tk TID) in
  unpublish_loop s t pid_types.

Definition pid_reparent (s : ids) (t par : nat) : res ids :=
  let! tk := deref (tobjs s !! t) in Ok (put_task s t (Task (pids tk) (linked tk) (Some par) (forknoexec tk))).

(** The end of [task_put]: the ids are dropped, and the task is freed. *)
Fixpoint drop_loop (s : ids) (t : nat) (tys : list pid_type) : res ids :=
  match tys with
  | [] => Ok s
  | ty :: tys =>
      let! tk := deref (tobjs s !! t) in
      let! _ := Assert (negb (linked tk ty)) in
      let s := put_task s t (with_pids (upd (pids tk) ty None) tk) in
      let! s := match pids tk ty with Some x => pid_put s x | None => Ok s end in
      drop_loop s t tys
  end.
Definition put_ids (s : ids) (t : nat) : res ids :=
  let! s := drop_loop s t pid_types in
  Ok (Ids (pidmap s) (next_pid s) (pobjs s) (delete t (tobjs s)) (table s) (next s)).

(** ** Groups and sessions *)

Definition change_pid (s : ids) (t : nat) (ty : pid_type) (x : nat) : res ids :=
  let! tk := deref (tobjs s !! t) in
  let! old := deref (pids tk ty) in
  let! s := link_del s t ty in
  let! s := pid_get s x in
  let! tk := deref (tobjs s !! t) in
  let s := put_task s t (with_pids (upd (pids tk) ty (Some x)) tk) in
  let! s := link_add s t x ty in
  let! s := unhash_unused_pid s old in
  let! o := deref (pobjs s !! old) in
  let! n := refcount_dec CONFIG_DEBUG_REFCOUNT [] (refcount o) in
  Ok (put_pid s old (with_refcount n o)).

Fixpoint change_loop (s : ids) (ts : list nat) (changes : list (pid_type * nat)) : res ids :=
  match ts with
  | [] => Ok s
  | t :: ts =>
      let! s := foldl (λ r c, let! s := r in change_pid s t c.1 c.2) (Ok s) changes in
      change_loop s ts changes
  end.

(** The old group's id, which the caller puts, if the call came to take it. *)
Definition setpgid_locked (s : ids) (current : nat) (n pgid : Z) : res (Z * option nat * ids) :=
  let! ctk := deref (tobjs s !! current) in
  let! n := if truth n then Ok n else let! (_, p) := get_pid s (pids ctk TGID) in Ok (nr p) in
  let pgid := if truth pgid then pgid else n in
  if pgid <? 0 then Ok (- EINVAL, None, s) else
  let! x := find_pid_locked s n in
  let! t := pid_task_locked s x TID in
  match t with
  | None => Ok (- ESRCH, None, s)
  | Some t =>
      let! tk := deref (tobjs s !! t) in
      let! tgid := deref (pids tk TGID) in
      if negb (bool_decide (pids tk TID = Some tgid)) then Ok (- EINVAL, None, s) else
      if negb (Nat.eqb t current) && negb (bool_decide (parent tk = Some current)) then Ok (- ESRCH, None, s) else
      if negb (Nat.eqb t current) && negb (bool_decide (pids tk SID = pids ctk SID)) then Ok (- EPERM, None, s) else
      if negb (Nat.eqb t current) && negb (forknoexec tk) then Ok (- EACCES, None, s) else
      if bool_decide (pids tk SID = Some tgid) then Ok (- EPERM, None, s) else
      let! pgrp := find_pid_locked s pgid in
      let! good :=
        if bool_decide (pgrp = Some tgid) then Ok true else
        let! m := pid_task_locked s pgrp PGID in
        match m with None => Ok false | Some m => let! mtk := deref (tobjs s !! m) in Ok (bool_decide (pids mtk SID = pids tk SID)) end in
      if negb good then Ok (- EPERM, None, s) else
      let! old := deref (pids tk PGID) in
      let! s := pid_get s old in
      if bool_decide (pgrp = Some old) then Ok (0, Some old, s) else
      let! g := deref pgrp in
      let! tg := deref (pobjs s !! tgid) in
      let! s := change_loop s (tasks tg TGID) [(PGID, g)] in
      Ok (0, Some old, s)
  end.
Definition put_opt (s : ids) (x : option nat) : res ids := match x with Some x => pid_put s x | None => Ok s end.
Definition sys_setpgid (s : ids) (current : nat) (n pgid : Z) : res (Z * ids) :=
  let! (ret, old, s) := setpgid_locked s current n pgid in
  let! s := put_opt s old in
  Ok (ret, s).

Definition pid_setsid (s : ids) (t : nat) : res (Z * ids) :=
  let! tk := deref (tobjs s !! t) in
  let! tgid := deref (pids tk TGID) in
  let! tg := deref (pobjs s !! tgid) in
  if bool_decide (pids tk SID = Some tgid) || negb (bool_decide (tasks tg PGID = [])) then Ok (- EPERM, s) else
  let! old_pgrp := deref (pids tk PGID) in
  let! old_sid := deref (pids tk SID) in
  let! s := pid_get s old_pgrp in
  let! s := pid_get s old_sid in
  let! s := change_loop s (tasks tg TGID) [(PGID, tgid); (SID, tgid)] in
  let! s := pid_put s old_sid in
  let! s := pid_put s old_pgrp in
  Ok (nr tg, s).
End pid.

(** ** Who holds an id *)

Definition pid_of (m : gmap nat task) (t : nat) (ty : pid_type) : option nat := m !! t ≫= λ tk, pids tk ty.
(** The tasks that have the id [x], and as what. *)
Definition holders (m : gmap nat task) (x : nat) : gset (nat * pid_type) :=
  filter (λ k, pid_of m k.1 k.2 = Some x) (list_to_set (elements (dom m) ≫= λ t, pair t <$> pid_types)).

Lemma elem_holders m x t ty : (t, ty) ∈ holders m x ↔ pid_of m t ty = Some x.
Proof.
  unfold holders. rewrite elem_of_filter, elem_of_list_to_set, list_elem_of_bind. cbn [fst snd]. split; [by intros [? _]|]. intros Hp. split; [done|].
  exists t. rewrite list_elem_of_fmap. split; [exists ty; split; [done|]; destruct ty; set_solver|].
  rewrite elem_of_elements, elem_of_dom. unfold pid_of in Hp. destruct (m !! t); [eauto|done].
Qed.

Lemma holders_same m m' x : (∀ t ty, pid_of m' t ty = Some x ↔ pid_of m t ty = Some x) → holders m' x = holders m x.
Proof. intros H. apply set_eq. intros [t ty]. by rewrite !elem_holders. Qed.

Lemma holders_add m m' x t ty :
  pid_of m t ty ≠ Some x → pid_of m' t ty = Some x → (∀ u k, (u, k) ≠ (t, ty) → (pid_of m' u k = Some x ↔ pid_of m u k = Some x)) →
  size (holders m' x) = S (size (holders m x)).
Proof.
  intros Hn Hp Ho. assert (holders m' x = {[ (t, ty) ]} ∪ holders m x) as ->.
  { apply set_eq. intros [u k]. rewrite elem_of_union, elem_of_singleton, !elem_holders. destruct (decide ((u, k) = (t, ty))) as [[= -> ->]|Hne]; [naive_solver|]. rewrite (Ho u k Hne). naive_solver. }
  rewrite size_union, size_singleton; [done|]. intros z ->%elem_of_singleton Hz. by apply elem_holders in Hz.
Qed.

Lemma pid_of_put m t tk u k : pid_of (<[t := tk]> m) u k = if decide (u = t) then pids tk k else pid_of m u k.
Proof. unfold pid_of. case_decide; [subst; by rewrite lookup_insert_eq|by rewrite lookup_insert_ne by done]. Qed.

(** ** The invariant *)

(** [ext]: how many references callers hold. *)
Record pid_ok (ext : nat → nat) (m : gmap nat task) (x : nat) (p : pid) : Prop := {
  p_nr : PID_INIT ≤ nr p < PID_MAX;
  p_count : refcount p = Z.of_nat (size (holders m x) + ext x) ∧ (0 < refcount p)%Z;
  p_tasks : ∀ t ty, t ∈ tasks p ty ↔ ∃ tk, m !! t = Some tk ∧ linked tk ty = true ∧ pids tk ty = Some x;
  p_list : ∀ ty, NoDup (tasks p ty) ∧ (tasks p ty ≠ [] → hashed p = true)
}.

Record base_ok (ext : nat → nat) (s : ids) : Prop := {
  i_map : words (pidmap s) ∧ bits (pidmap s) = PID_MAX;
  i_next_pid : PID_INIT ≤ next_pid s < PID_MAX;
  i_bit : ∀ n, 0 ≤ n < PID_MAX → bit (pidmap s) n = true ↔ n = 0 ∨ ∃ x p, pobjs s !! x = Some p ∧ nr p = n;
  i_pid : ∀ x p, pobjs s !! x = Some p → pid_ok ext (tobjs s) x p;
  i_live : ∀ x, (0 < ext x)%nat ∨ (∃ t ty, pid_of (tobjs s) t ty = Some x) → is_Some (pobjs s !! x);
  i_next : ∀ x, is_Some (pobjs s !! x) → (x < next s)%nat;
  i_unique : ∀ x y p q, pobjs s !! x = Some p → pobjs s !! y = Some q → nr p = nr q → x = y;
  i_table : ∀ b x, x ∈ bucket s b ↔ ∃ p, pobjs s !! x = Some p ∧ hashed p = true ∧ b = slot (nr p);
  i_linked : ∀ t tk ty, tobjs s !! t = Some tk → linked tk ty = true → is_Some (pids tk ty)
}.

(** Only an id with a task on some list is in the table, [o] aside. *)
Definition tight_but (o : option nat) (s : ids) : Prop :=
  ∀ x p, o ≠ Some x → pobjs s !! x = Some p → hashed p = true → ∃ ty, tasks p ty ≠ [].

Definition room (n : Z) (s : ids) : Prop := ∀ x p, pobjs s !! x = Some p → refcount p + n < REFCOUNT_MAX.

Lemma base_ext ext ext' s : (∀ z, ext z = ext' z) → base_ok ext s → base_ok ext' s.
Proof.
  intros He [H1 H2 H3 H4 H5 H6 H7 H8 H9]. split; try done.
  - intros x p Hx. destruct (H4 x p Hx) as [Ha Hb Hc Hd]. split; [done| |done..]. by rewrite <-He.
  - intros x. rewrite <-He. apply H5.
Qed.

(** Writing an id back, with its number, its lists and what the table says of it kept. *)
Lemma base_put_pid ext ext' s x p p' :
  base_ok ext s → pobjs s !! x = Some p → nr p' = nr p → hashed p' = hashed p → (∀ y, y ≠ x → ext' y = ext y) → pid_ok ext' (tobjs s) x p' →
  base_ok ext' (put_pid s x p').
Proof.
  intros [H1 H2 H3 H4 H5 H6 H7 H8 H9] Hx Hnr Hh He Hok.
  assert (∀ y q, <[x := p']> (pobjs s) !! y = Some q → ∃ q0, pobjs s !! y = Some q0 ∧ nr q = nr q0 ∧ hashed q = hashed q0) as Hold.
  { intros y q [[<- <-]|[_ ?]]%lookup_insert_Some; eauto. }
  assert (∀ y q, pobjs s !! y = Some q → ∃ q0, <[x := p']> (pobjs s) !! y = Some q0 ∧ nr q0 = nr q ∧ hashed q0 = hashed q) as Hnew.
  { intros y q Hy. destruct (decide (y = x)) as [->|]; [exists p'; rewrite lookup_insert_eq; split_and!; congruence|exists q; by rewrite lookup_insert_ne]. }
  split; cbn [put_pid pidmap next_pid pobjs tobjs table next].
  - done.
  - done.
  - intros n Hn. rewrite (H3 n Hn). f_equiv. split; intros (y&q&Hy&<-); [apply Hnew in Hy as (q0&?&?&_)|apply Hold in Hy as (q0&?&?&_)]; eauto.
  - intros y q [[<- <-]|[Hne Hy]]%lookup_insert_Some; [done|]. destruct (H4 y q Hy) as [Ha Hb Hc Hd]. split; [done| |done..]. by rewrite He.
  - intros y Hy. rewrite lookup_insert_is_Some'. destruct (decide (y = x)); [by left|]. right. apply H5. by rewrite He in Hy.
  - intros y [<-|Hy]%lookup_insert_is_Some'; eauto.
  - intros y z q r Hy Hz. apply Hold in Hy as (q0&Hy&?&_). apply Hold in Hz as (r0&Hz&?&_). intros. apply (H7 y z q0 r0); congruence.
  - intros b y. rewrite (H8 b y). split; intros (q&Hy&?&?); [apply Hnew in Hy as (q0&?&?&?)|apply Hold in Hy as (q0&?&?&?)]; exists q0; split_and!; congruence.
  - done.
Qed.

Section primitives.
Context (CONFIG_DEBUG_REFCOUNT : bool).

Lemma pid_get_spec ext s x n :
  base_ok ext s → is_Some (pobjs s !! x) → room (n + 1) s → 0 ≤ n →
  ∃ p, pobjs s !! x = Some p ∧ pid_get CONFIG_DEBUG_REFCOUNT s x = Ok (put_pid s x (with_refcount (refcount p + 1) p)) ∧
    base_ok (ext_add x ext) (put_pid s x (with_refcount (refcount p + 1) p)) ∧ room n (put_pid s x (with_refcount (refcount p + 1) p)).
Proof.
  intros Hok [p Hx] Hr Hn. exists p. split; [done|]. pose proof (i_pid _ _ Hok x p Hx) as [Hnr [Hc Hpos] Ht Hh]. pose proof (Hr x p Hx).
  unfold pid_get. rewrite Hx. cbn [deref res_bind]. rewrite inc_ok by lia. split; [done|]. split.
  - apply (base_put_pid ext _ s x p); [done..|intros y Hy; unfold ext_add; by rewrite decide_False|]. split; [done| |done..].
    unfold ext_add. rewrite decide_True by done. cbn [with_refcount refcount]. lia.
  - intros y q. cbn [put_pid pobjs]. intros [[<- <-]|[_ Hy]]%lookup_insert_Some; [simpl; lia|]. specialize (Hr y q Hy). lia.
Qed.

(** A reference that is not the last one. *)
Lemma base_dec ext s x p :
  base_ok (ext_add x ext) s → pobjs s !! x = Some p → 1 < refcount p → base_ok ext (put_pid s x (with_refcount (refcount p - 1) p)).
Proof.
  intros Hok Hx Hgt. pose proof (i_pid _ _ Hok x p Hx) as [Hnr [Hc Hpos] Ht Hh].
  apply (base_put_pid (ext_add x ext) _ s x p); [done..|intros y Hy; unfold ext_add; by rewrite decide_False|]. split; [done| |done..].
  unfold ext_add in Hc. rewrite decide_True in Hc by done. cbn [with_refcount refcount]. lia.
Qed.

(** The last reference: nothing has the id, its number is free again. *)
Lemma base_free ext s x p map' :
  base_ok (ext_add x ext) s → pobjs s !! x = Some p → refcount p = 1 → hashed p = false → updates (pidmap s) (nr p) false map' →
  base_ok ext (Ids map' (next_pid s) (delete x (pobjs s)) (tobjs s) (table s) (next s)).
Proof.
  intros Hok Hx Hone Hh (Hw&Hb&Hbit). pose proof (i_pid _ _ Hok x p Hx) as [Hnr [Hc _] _ _]. unfold ext_add in Hc. rewrite decide_True in Hc by done.
  assert (size (holders (tobjs s) x) = 0%nat ∧ ext x = 0%nat) as [Hs0 He0] by lia. apply size_empty_inv in Hs0.
  destruct Hok as [H1 H2 H3 H4 H5 H6 H7 H8 H9]. split; cbn [pidmap next_pid pobjs tobjs table next].
  - split; [done|]. rewrite Hb. apply H1.
  - done.
  - intros n Hn. rewrite Hbit by lia. destruct (Z.eqb_spec n (nr p)) as [->|Hne].
    + split; [done|]. unfold PID_INIT in Hnr. intros [?|(y&q&[Hyx Hy]%lookup_delete_Some&Hq)]; [lia|]. destruct Hyx. by apply (H7 x y p q).
    + rewrite (H3 n Hn). f_equiv. split; intros (y&q&Hy&Hq).
      * exists y, q. rewrite lookup_delete_ne; [done|]. intros ->. congruence.
      * apply lookup_delete_Some in Hy as [_ Hy]. eauto.
  - intros y q [Hyx Hy]%lookup_delete_Some. destruct (H4 y q Hy) as [Ha Hb' Hc' Hd]. split; [done| |done..]. unfold ext_add in Hb'. by rewrite decide_False in Hb'.
  - intros y Hy. assert (y ≠ x) as Hyx.
    { intros ->. destruct Hy as [Hy|(t&ty&Hy)]; [lia|]. apply elem_holders, Hs0 in Hy. by apply not_elem_of_empty in Hy. }
    rewrite lookup_delete_ne by done. apply H5. unfold ext_add. by rewrite decide_False.
  - intros y [q [_ Hy]%lookup_delete_Some]. eauto.
  - intros y z q r [_ Hy]%lookup_delete_Some [_ Hz]%lookup_delete_Some. by apply H7.
  - intros b y. rewrite (H8 b y). split; intros (q&Hy&?&?).
    + exists q. rewrite lookup_delete_ne; [done|]. intros ->. congruence.
    + apply lookup_delete_Some in Hy as [_ Hy]. eauto.
  - done.
Qed.

(** What dropping a reference changes: at most the id, which stays as it was but for its count, or is gone. *)
Lemma pid_put_spec ext s x o :
  base_ok (ext_add x ext) s → tight_but o s → o ≠ Some x →
  ∃ s', pid_put CONFIG_DEBUG_REFCOUNT s x = Ok s' ∧ base_ok ext s' ∧ tight_but o s' ∧ tobjs s' = tobjs s ∧
    (∀ n, room n s → room n s') ∧ (∀ y p', pobjs s' !! y = Some p' → ∃ p, pobjs s !! y = Some p ∧ nr p' = nr p ∧ tasks p' = tasks p ∧ hashed p' = hashed p).
Proof.
  intros Hok Htight Ho. assert (is_Some (pobjs s !! x)) as [p Hx] by (apply (i_live _ _ Hok); left; unfold ext_add; rewrite decide_True by done; lia).
  pose proof (i_pid _ _ Hok x p Hx) as [Hnr [Hc Hpos] Ht Hh]. unfold pid_put. rewrite Hx. cbn [deref res_bind]. rewrite dec_ok by done. cbn [res_bind].
  destruct (Z.eqb_spec (refcount p) 1) as [E|E]; cbn [negb].
  - assert (hashed p = false) as Hun.
    { destruct (hashed p) eqn:Ehd; [|done]. destruct (Htight x p Ho Hx Ehd) as [ty Hne]. exfalso. destruct (tasks p ty) as [|t l] eqn:El; [done|].
      assert (t ∈ tasks p ty) as Hin by (rewrite El; by left). apply Ht in Hin as (tk&Htk&_&Hp).
      assert ((t, ty) ∈ holders (tobjs s) x) as Hin by (apply elem_holders; unfold pid_of; by rewrite Htk).
      unfold ext_add in Hc. rewrite decide_True in Hc by done. assert (size (holders (tobjs s) x) = 0%nat) as Hz by lia. apply size_empty_inv in Hz. apply Hz in Hin. by apply not_elem_of_empty in Hin. }
    rewrite Hun. cbn [negb Assert res_bind]. destruct (i_map _ _ Hok) as [Hw Hb]. unfold PID_INIT in Hnr.
    destruct (clear_bit_spec (pidmap s) (nr p)) as (map'&->&Hup); [rewrite Hb; lia|done|]. cbn [res_bind].
    eexists. split; [done|]. cbn [tobjs pobjs]. split; [by eapply base_free|]. split; [|split; [done|split]].
    + intros y q Hy. cbn [pobjs]. intros [_ Hq]%lookup_delete_Some. by apply (Htight y q).
    + intros n Hr y q. cbn [pobjs]. intros [_ Hy]%lookup_delete_Some. by apply (Hr y).
    + intros y q [_ Hy]%lookup_delete_Some. eauto.
  - eexists. split; [done|]. cbn [put_pid tobjs pobjs]. split; [apply base_dec; [done|done|lia]|]. split; [|split; [done|split]].
    + intros y q Hy. cbn [put_pid pobjs]. intros [[<- <-]|[_ Hq]]%lookup_insert_Some; [by apply (Htight x p)|by apply (Htight y q)].
    + intros n Hr y q. cbn [put_pid pobjs]. intros [[<- <-]|[_ Hy]]%lookup_insert_Some; [|by apply (Hr y)]. specialize (Hr x p Hx). simpl. lia.
    + intros y q [[<- <-]|[_ Hq]]%lookup_insert_Some; eauto.
Qed.
End primitives.

(** ** Links and tables *)

(** Writing ids and tasks back, no id coming or going, changing its number or entering or leaving the table. *)
Lemma base_change ext ext' s P' T' :
  base_ok ext s →
  (∀ x, match pobjs s !! x, P' !! x with Some p, Some p' => nr p' = nr p ∧ hashed p' = hashed p | None, None => True | _, _ => False end) →
  (∀ x p', P' !! x = Some p' → pid_ok ext' T' x p') →
  (∀ x, (0 < ext' x)%nat ∨ (∃ t ty, pid_of T' t ty = Some x) → is_Some (pobjs s !! x)) →
  (∀ t tk ty, T' !! t = Some tk → linked tk ty = true → is_Some (pids tk ty)) →
  base_ok ext' (Ids (pidmap s) (next_pid s) P' T' (table s) (next s)).
Proof.
  intros [H1 H2 H3 H4 H5 H6 H7 H8 H9] Hsame Hok Hlive Hl.
  assert (∀ x p', P' !! x = Some p' → ∃ p, pobjs s !! x = Some p ∧ nr p' = nr p ∧ hashed p' = hashed p) as Hold.
  { intros x p' Hx. specialize (Hsame x). rewrite Hx in Hsame. destruct (pobjs s !! x); [|done]. naive_solver. }
  assert (∀ x p, pobjs s !! x = Some p → ∃ p', P' !! x = Some p' ∧ nr p' = nr p ∧ hashed p' = hashed p) as Hnew.
  { intros x p Hx. specialize (Hsame x). rewrite Hx in Hsame. destruct (P' !! x); [|done]. naive_solver. }
  split; cbn [pidmap next_pid pobjs tobjs table next].
  - done.
  - done.
  - intros n Hn. rewrite (H3 n Hn). f_equiv. split; intros (y&q&Hy&<-); [apply Hnew in Hy as (q0&?&?&_)|apply Hold in Hy as (q0&?&?&_)]; eauto.
  - done.
  - intros x Hx. destruct (Hlive x Hx) as [p Hp]. destruct (Hnew x p Hp) as (p'&?&_). eauto.
  - intros x [p' Hx]. apply Hold in Hx as (p&?&_). eauto.
  - intros y z q r Hy Hz. apply Hold in Hy as (q0&Hy&?&_). apply Hold in Hz as (r0&Hz&?&_). intros. apply (H7 y z q0 r0); congruence.
  - intros b y. rewrite (H8 b y). split; intros (q&Hy&?&?); [apply Hnew in Hy as (q0&?&?&?)|apply Hold in Hy as (q0&?&?&?)]; exists q0; split_and!; congruence.
  - done.
Qed.

Lemma same_put (P : gmap nat pid) x p p' y :
  P !! x = Some p → nr p' = nr p → hashed p' = hashed p →
  match P !! y, <[x := p']> P !! y with Some p, Some p' => nr p' = nr p ∧ hashed p' = hashed p | None, None => True | _, _ => False end.
Proof.
  intros Hx Hn Hh. destruct (decide (y = x)) as [->|Hne]; [by rewrite Hx, lookup_insert_eq|]. rewrite lookup_insert_ne by done. by destruct (P !! y).
Qed.

(** The link [ty] of [t] goes from [b] to [b'], and so does the place of [t] on the list. *)
Lemma base_relink ext s t tk x p ty b l :
  base_ok ext s → tobjs s !! t = Some tk → pids tk ty = Some x → pobjs s !! x = Some p →
  (∀ u, u ∈ l ↔ if decide (u = t) then b = true else u ∈ tasks p ty) → NoDup l ∧ (l ≠ [] → hashed p = true) →
  base_ok ext (put_task (put_pid s x (with_tasks (upd (tasks p) ty l) p)) t (with_linked (upd (linked tk) ty b) tk)).
Proof.
  intros Hok Ht Hp Hx Hl Hh. set (tk' := with_linked _ tk).
  assert (∀ u k, pid_of (<[t := tk']> (tobjs s)) u k = pid_of (tobjs s) u k) as Hpid.
  { intros u k. rewrite pid_of_put. case_decide; [|done]. subst u. unfold pid_of. by rewrite Ht. }
  apply (base_change ext ext s); [done|..]; cbn [put_task put_pid pobjs tobjs].
  - intros y. by apply (same_put _ _ p).
  - intros y q. intros [[<- <-]|[Hne Hy]]%lookup_insert_Some.
    + destruct (i_pid _ _ Hok x p Hx) as [Hnr Hc Hts Hhs]. split; [done| | |].
      * cbn [with_tasks refcount]. rewrite (holders_same (tobjs s)); [done|]. intros u k. by rewrite Hpid.
      * intros u k. cbn [with_tasks tasks]. unfold upd at 1. destruct (decide (k = ty)) as [->|Hk].
        -- rewrite Hl. case_decide as Hu; [subst u|].
           ++ rewrite lookup_insert_eq. split; [intros ->; exists tk'; split_and!; [done| |done]; simpl; unfold upd; by rewrite decide_True|].
              intros (?&[= <-]&Hlk&_). simpl in Hlk. unfold upd in Hlk. by rewrite decide_True in Hlk.
           ++ rewrite lookup_insert_ne by done. apply Hts.
        -- rewrite Hts. destruct (decide (u = t)) as [->|Hu]; [|by rewrite lookup_insert_ne by done]. rewrite Ht, lookup_insert_eq.
           split; intros (?&[= <-]&?&?); eexists; (split; [done|]); simpl in *; unfold upd in *; by rewrite ?decide_False in * by done.
      * intros k. cbn [with_tasks tasks hashed]. unfold upd. case_decide; [done|apply Hhs].
    + destruct (i_pid _ _ Hok y q Hy) as [Hnr Hc Hts Hhs]. split; [done| | |done].
      * rewrite (holders_same (tobjs s)); [done|]. intros u k. by rewrite Hpid.
      * intros u k. rewrite Hts. destruct (decide (u = t)) as [->|Hu]; [|by rewrite lookup_insert_ne by done]. rewrite Ht, lookup_insert_eq.
        split; intros (?&[= <-]&Hlk&Hpk); eexists; (split; [done|]); simpl in *; unfold upd in *; (destruct (decide (k = ty)) as [->|]; [congruence|done]).
  - intros y [Hy|(u&k&Hy)]; apply (i_live _ _ Hok); [by left|right]. exists u, k. by rewrite <-Hpid.
  - intros u uk k [[<- <-]|[_ Hu]]%lookup_insert_Some; [|by apply (i_linked _ _ Hok u)]. simpl. unfold upd. case_decide; [subst; eauto|]. by apply (i_linked _ _ Hok t).
Qed.

Lemma link_del_spec ext s t tk ty x :
  base_ok ext s → tobjs s !! t = Some tk → linked tk ty = true → pids tk ty = Some x →
  ∃ p, pobjs s !! x = Some p ∧ let s' := put_task (put_pid s x (with_tasks (upd (tasks p) ty (filter (λ u, u ≠ t) (tasks p ty))) p)) t (with_linked (upd (linked tk) ty false) tk) in
    link_del s t ty = Ok s' ∧ base_ok ext s'.
Proof.
  intros Hok Ht Hl Hp. destruct (i_live _ _ Hok x) as [p Hx]; [right; exists t, ty; unfold pid_of; by rewrite Ht|]. exists p. split; [done|].
  unfold link_del, get_pid. rewrite Ht. cbn [deref res_bind]. rewrite Hl, Hp. cbn [negb deref res_bind]. rewrite Hx. cbn [deref res_bind]. split; [done|].
  apply base_relink; [done..| |split].
  - intros u. rewrite list_elem_of_filter. case_decide; [split; [by intros [? _]|done]|]. split; [by intros [_ ?]|done].
  - apply list.NoDup_filter, (p_list _ _ _ _ (i_pid _ _ Hok x p Hx) ty).
  - intros Hne. apply (p_list _ _ _ _ (i_pid _ _ Hok x p Hx) ty). intros E. rewrite E in Hne. done.
Qed.

Lemma link_add_spec ext s t tk ty x p :
  base_ok ext s → tobjs s !! t = Some tk → linked tk ty = false → pids tk ty = Some x → pobjs s !! x = Some p → hashed p = true →
  let s' := put_task (put_pid s x (with_tasks (upd (tasks p) ty (t :: tasks p ty)) p)) t (with_linked (upd (linked tk) ty true) tk) in
  link_add s t x ty = Ok s' ∧ base_ok ext s'.
Proof.
  intros Hok Ht Hl Hp Hx Hh. unfold link_add. rewrite Ht. cbn [deref res_bind]. rewrite Hx. cbn [deref res_bind]. split; [done|].
  pose proof (i_pid _ _ Hok x p Hx) as [_ _ Hts Hlist].
  apply base_relink; [done..| |split; [|done]].
  - intros u. rewrite elem_of_cons. case_decide; [split; auto|]. naive_solver.
  - apply list.NoDup_cons. split; [|apply Hlist]. rewrite Hts. intros (?&?&?&_). congruence.
Qed.

(** An unlinked task is given another id: the caller's reference to it is the task's, and that to the old id the caller's. *)
Lemma base_assign ext s t tk ty x :
  base_ok (ext_add x ext) s → tobjs s !! t = Some tk → linked tk ty = false → pids tk ty ≠ Some x →
  base_ok (ext_opt (pids tk ty) ext) (put_task s t (with_pids (upd (pids tk) ty (Some x)) tk)).
Proof.
  intros Hok Ht Hl Hne. set (tk' := with_pids _ tk).
  assert (pid_of (tobjs s) t ty = pids tk ty) as Hold by (unfold pid_of; by rewrite Ht).
  assert (pid_of (<[t := tk']> (tobjs s)) t ty = Some x) as Hnew by (rewrite pid_of_put, decide_True by done; simpl; unfold upd; by rewrite decide_True).
  assert (∀ u k, (u, k) ≠ (t, ty) → pid_of (<[t := tk']> (tobjs s)) u k = pid_of (tobjs s) u k) as Hoth.
  { intros u k Huk. rewrite pid_of_put. case_decide as Hu; [|done]. subst u. unfold pid_of. rewrite Ht. simpl. unfold upd. rewrite decide_False; [done|]. congruence. }
  apply (base_change (ext_add x ext) _ s); [done|intros y; cbn [put_task pobjs]; by destruct (pobjs s !! y)|..]; cbn [put_task pobjs tobjs].
  - intros y q Hy. destruct (i_pid _ _ Hok y q Hy) as [Hnr [Hc Hpos] Hts Hhs]. split; [done| | |done].
    + split; [|done]. rewrite Hc. unfold ext_add. destruct (decide (y = x)) as [->|Hyx].
      * rewrite (holders_add (tobjs s) (<[t := tk']> (tobjs s)) x t ty); [|by rewrite Hold|done|intros u k Huk; by rewrite Hoth].
        unfold ext_opt. destruct (pids tk ty) as [o|]; [|lia]. unfold ext_add. rewrite decide_False by congruence. lia.
      * destruct (decide (pids tk ty = Some y)) as [Ho|Ho].
        -- rewrite (holders_add (<[t := tk']> (tobjs s)) (tobjs s) y t ty); [|rewrite Hnew; congruence|by rewrite Hold|intros u k Huk; by rewrite Hoth].
           rewrite Ho. unfold ext_opt, ext_add. rewrite decide_True by done. lia.
        -- rewrite (holders_same (tobjs s) (<[t := tk']> (tobjs s)) y).
           ++ unfold ext_opt. destruct (pids tk ty) as [o|]; [|lia]. unfold ext_add. rewrite decide_False by congruence. lia.
           ++ intros u k. destruct (decide ((u, k) = (t, ty))) as [[= -> ->]|Huk]; [|by rewrite Hoth]. rewrite Hnew, Hold. split; congruence.
    + intros u k. rewrite Hts. destruct (decide (u = t)) as [->|Hu]; [|by rewrite lookup_insert_ne by done]. rewrite Ht, lookup_insert_eq.
      split; intros (?&[= <-]&Hlk&Hpk); eexists; (split; [done|]); simpl in *; unfold upd in *; (destruct (decide (k = ty)) as [->|]; [congruence|done]).
  - intros y Hy. apply (i_live _ _ Hok). destruct Hy as [Hy|(u&k&Hy)].
    + destruct (pids tk ty) as [o|] eqn:Eo; cbn [ext_opt] in Hy.
      * unfold ext_add in Hy. case_decide; [subst; right; exists t, ty; by rewrite Hold|left; unfold ext_add; case_decide; lia].
      * left. unfold ext_add. case_decide; lia.
    + destruct (decide ((u, k) = (t, ty))) as [[= -> ->]|Huk].
      * left. rewrite Hnew in Hy. injection Hy as <-. unfold ext_add. rewrite decide_True by done. lia.
      * right. exists u, k. by rewrite <-Hoth.
  - intros u uk k [[<- <-]|[_ Hu]]%lookup_insert_Some; [|by apply (i_linked _ _ Hok u)]. simpl. unfold upd. case_decide; [eauto|]. by apply (i_linked _ _ Hok t).
Qed.

#[local] Opaque slot.

(** An id leaves the table, or enters it. *)
Lemma hash_del_spec ext s x p :
  base_ok ext s → pobjs s !! x = Some p → (∀ ty, tasks p ty = []) →
  base_ok ext (hash_del s x p) ∧ pobjs (hash_del s x p) = <[x := with_hashed false p]> (pobjs s) ∧ tobjs (hash_del s x p) = tobjs s.
Proof.
  intros Hok Hx Hempty. unfold hash_del. destruct (hashed p) eqn:Eh; cbn [negb].
  2: { replace (with_hashed false p) with p by (destruct p; by simpl in *; subst). by rewrite insert_id. }
  split; [|done]. destruct Hok as [H1 H2 H3 H4 H5 H6 H7 H8 H9]. set (p' := with_hashed false p).
  assert (∀ y q, <[x := p']> (pobjs s) !! y = Some q → ∃ q0, pobjs s !! y = Some q0 ∧ nr q = nr q0) as Hold.
  { intros y q [[<- <-]|[_ ?]]%lookup_insert_Some; eauto. }
  assert (∀ y q, pobjs s !! y = Some q → ∃ q0, <[x := p']> (pobjs s) !! y = Some q0 ∧ nr q0 = nr q) as Hnew.
  { intros y q Hy. destruct (decide (y = x)) as [->|]; [exists p'; rewrite lookup_insert_eq; split; [done|simpl; congruence]|exists q; by rewrite lookup_insert_ne]. }
  split; cbn [put_bucket put_pid pidmap next_pid pobjs tobjs next].
  - done.
  - done.
  - intros n Hn. rewrite (H3 n Hn). f_equiv. split; intros (y&q&Hy&<-); [apply Hnew in Hy as (q0&?&?)|apply Hold in Hy as (q0&?&?)]; eauto.
  - intros y q [[<- <-]|[_ Hy]]%lookup_insert_Some; [|by apply H4]. destruct (H4 x p Hx) as [Ha Hb Hc Hd]. split; [done..|].
    intros ty. cbn [p' with_hashed tasks]. rewrite Hempty. split; [constructor|done].
  - intros y Hy. rewrite lookup_insert_is_Some'. right. by apply H5.
  - intros y [<-|Hy]%lookup_insert_is_Some'; eauto.
  - intros y z q r Hy Hz. apply Hold in Hy as (q0&Hy&?). apply Hold in Hz as (r0&Hz&?). intros. apply (H7 y z q0 r0); congruence.
  - intros b y. unfold bucket. cbn [put_bucket put_pid table]. destruct (decide (b = slot (nr p))) as [->|Hb].
    + rewrite lookup_insert_eq. cbn [default from_option id]. rewrite list_elem_of_filter, (H8 (slot (nr p)) y). split.
      * intros (Hne&q&?&?&?). exists q. by rewrite lookup_insert_ne.
      * intros (q&[[<- <-]|[Hne Hq]]%lookup_insert_Some&?&?); [done|]. split; [done|eauto].
    + rewrite lookup_insert_ne by done. fold (bucket s b). rewrite (H8 b y). split.
      * intros (q&?&?&?). exists q. rewrite lookup_insert_ne; [done|]. intros ->. congruence.
      * intros (q&[[<- <-]|[Hne Hq]]%lookup_insert_Some&?&?); [done|eauto].
  - done.
Qed.

Lemma pid_hash_add_spec ext s x p :
  base_ok ext s → pobjs s !! x = Some p → hashed p = false → base_ok ext (hash_add s x p).
Proof.
  intros [H1 H2 H3 H4 H5 H6 H7 H8 H9] Hx Hh. set (p' := with_hashed true p).
  assert (∀ y q, <[x := p']> (pobjs s) !! y = Some q → ∃ q0, pobjs s !! y = Some q0 ∧ nr q = nr q0) as Hold.
  { intros y q [[<- <-]|[_ ?]]%lookup_insert_Some; eauto. }
  assert (∀ y q, pobjs s !! y = Some q → ∃ q0, <[x := p']> (pobjs s) !! y = Some q0 ∧ nr q0 = nr q) as Hnew.
  { intros y q Hy. destruct (decide (y = x)) as [->|]; [exists p'; rewrite lookup_insert_eq; split; [done|simpl; congruence]|exists q; by rewrite lookup_insert_ne]. }
  split; cbn [hash_add put_bucket put_pid pidmap next_pid pobjs tobjs next].
  - done.
  - done.
  - intros n Hn. rewrite (H3 n Hn). f_equiv. split; intros (y&q&Hy&<-); [apply Hnew in Hy as (q0&?&?)|apply Hold in Hy as (q0&?&?)]; eauto.
  - intros y q [[<- <-]|[_ Hy]]%lookup_insert_Some; [|by apply H4]. destruct (H4 x p Hx) as [Ha Hb Hc Hd]. split; [done..|]. intros ty. split; [apply Hd|done].
  - intros y Hy. rewrite lookup_insert_is_Some'. right. by apply H5.
  - intros y [<-|Hy]%lookup_insert_is_Some'; eauto.
  - intros y z q r Hy Hz. apply Hold in Hy as (q0&Hy&?). apply Hold in Hz as (r0&Hz&?). intros. apply (H7 y z q0 r0); congruence.
  - intros b y. unfold bucket. cbn [hash_add put_bucket put_pid table]. fold (bucket s (slot (nr p))). destruct (decide (b = slot (nr p))) as [->|Hb].
    + rewrite lookup_insert_eq. cbn [default from_option id]. rewrite elem_of_cons, (H8 (slot (nr p)) y). split.
      * intros [->|(q&?&?&?)]; [exists p'; by rewrite lookup_insert_eq|exists q]. rewrite lookup_insert_ne; [done|]. intros ->. congruence.
      * intros (q&[[<- <-]|[Hne Hq]]%lookup_insert_Some&?&?); [by left|right; eauto].
    + rewrite lookup_insert_ne by done. fold (bucket s b). rewrite (H8 b y). split.
      * intros (q&?&?&?). exists q. rewrite lookup_insert_ne; [done|]. intros ->. congruence.
      * intros (q&[[<- <-]|[Hne Hq]]%lookup_insert_Some&?&Hbq); [done|eauto].
  - done.
Qed.

(** ** Moving a task to another id *)

(** The ids that are there, their numbers, and, [o] aside, whether they are in the table. *)
Definition keeps (o : option nat) (s s' : ids) : Prop :=
  ∀ y, match pobjs s !! y, pobjs s' !! y with
       | Some q, Some q' => nr q' = nr q ∧ (o ≠ Some y → hashed q' = hashed q)
       | None, None => True
       | _, _ => False
       end.

#[local] Instance keeps_preorder o : PreOrder (keeps o).
Proof.
  split.
  - intros s y. by destruct (pobjs s !! y).
  - intros s1 s2 s3 H1 H2 y. specialize (H1 y). specialize (H2 y). destruct (pobjs s1 !! y), (pobjs s2 !! y), (pobjs s3 !! y); try done.
    destruct H1 as [? Ha], H2 as [? Hb]. split; [congruence|]. intros Hy. rewrite Hb, Ha by done. done.
Qed.

Lemma keeps_put o s x p p' :
  pobjs s !! x = Some p → nr p' = nr p → (o ≠ Some x → hashed p' = hashed p) → keeps o s (put_pid s x p').
Proof.
  intros Hx Hn Hh y. cbn [put_pid pobjs]. destruct (decide (y = x)) as [->|Hne]; [by rewrite Hx, lookup_insert_eq|].
  rewrite lookup_insert_ne by done. by destruct (pobjs s !! y).
Qed.

Lemma keeps_live o s s' x p : keeps o s s' → pobjs s !! x = Some p → ∃ p', pobjs s' !! x = Some p' ∧ nr p' = nr p ∧ (o ≠ Some x → hashed p' = hashed p).
Proof. intros Hk Hx. specialize (Hk x). rewrite Hx in Hk. destruct (pobjs s' !! x); [eauto|done]. Qed.

Lemma unhash_unused_spec ext s o p :
  base_ok ext s → pobjs s !! o = Some p → tight_but (Some o) s →
  ∃ s', unhash_unused_pid s o = Ok s' ∧ base_ok ext s' ∧ tight_but None s' ∧ tobjs s' = tobjs s ∧ keeps (Some o) s s' ∧ (∀ n, room n s → room n s') ∧
    ∃ h, pobjs s' = <[o := with_hashed h p]> (pobjs s).
Proof.
  intros Hok Hx Ht. unfold unhash_unused_pid. rewrite Hx. cbn [deref res_bind].
  destruct (existsb (λ ty, negb (bool_decide (tasks p ty = []))) pid_types) eqn:Ee.
  - exists s. split; [done|]. split; [done|]. split; [|split; [done|split; [done|split; [done|]]]].
    + intros y q _ Hy Hh. destruct (decide (y = o)) as [->|Hne]; [|apply (Ht y q); [congruence|done|done]].
      apply existsb_exists in Ee as (ty&_&Hty). exists ty. assert (q = p) as -> by congruence. apply negb_true_iff, bool_decide_eq_false in Hty. done.
    + exists (hashed p). rewrite insert_id; [done|]. rewrite Hx. by destruct p.
  - assert (∀ ty, tasks p ty = []) as Hempty.
    { intros ty. destruct (decide (tasks p ty = [])) as [|Hne]; [done|]. exfalso. apply not_true_iff_false in Ee. apply Ee. apply existsb_exists.
      exists ty. split; [destruct ty; cbn; tauto|]. by rewrite bool_decide_eq_false_2. }
    destruct (hash_del_spec ext s o p Hok Hx Hempty) as (Hok'&Hp'&Ht'). exists (hash_del s o p). split; [done|]. split; [done|].
    split; [|split; [done|split; [|split; [|by exists false]]]].
    + intros y q _. rewrite Hp'. intros [[<- <-]|[Hne Hy]]%lookup_insert_Some Hh; [done|]. apply (Ht y q); [congruence|done|done].
    + intros y. rewrite Hp'. destruct (decide (y = o)) as [->|Hne]; [by rewrite Hx, lookup_insert_eq|]. rewrite lookup_insert_ne by done. by destruct (pobjs s !! y).
    + intros n Hr y q. rewrite Hp'. intros [[<- <-]|[_ Hy]]%lookup_insert_Some; [exact (Hr o p Hx)|exact (Hr y q Hy)].
Qed.

(** The same task but for its id [ty]. *)
Definition moved (tk : task) (ty : pid_type) (x : nat) (tk' : task) : Prop :=
  (∀ k, pids tk' k = if decide (k = ty) then Some x else pids tk k) ∧ (∀ k, linked tk' k = linked tk k) ∧ parent tk' = parent tk ∧ forknoexec tk' = forknoexec tk.

Section change.
Context (CONFIG_DEBUG_REFCOUNT : bool).

(** The caller holds a reference to the old id. *)
Lemma change_pid_spec ext s t tk ty o x px n :
  base_ok ext s → tight_but None s → room (n + 1) s → 0 ≤ n → tobjs s !! t = Some tk → linked tk ty = true → pids tk ty = Some o → o ≠ x → (0 < ext o)%nat →
  pobjs s !! x = Some px → hashed px = true →
  ∃ s' tk', change_pid CONFIG_DEBUG_REFCOUNT s t ty x = Ok s' ∧ base_ok ext s' ∧ tight_but None s' ∧ room n s' ∧ keeps (Some o) s s' ∧
    tobjs s' = <[t := tk']> (tobjs s) ∧ moved tk ty x tk'.
Proof.
  intros Hok Htight Hr Hn Ht Hl Hp Hox Hext Hx Hhx. unfold change_pid. rewrite Ht. cbn [deref res_bind]. rewrite Hp. cbn [deref res_bind].
  destruct (link_del_spec ext s t tk ty o Hok Ht Hl Hp) as (po&Ho&->&Hok1). cbn [res_bind].
  set (s1 := put_task (put_pid s o _) t _) in *.
  assert (keeps (Some o) s s1) as K1 by (by apply (keeps_put (Some o) s o po)).
  assert (pobjs s1 !! x = Some px) as Hx1 by (cbn; by rewrite lookup_insert_ne).
  assert (room (n + 1) s1) as R1 by (intros y q; cbn; intros [[<- <-]|[_ Hy]]%lookup_insert_Some; [exact (Hr o po Ho)|exact (Hr y q Hy)]).
  assert (tight_but (Some o) s1) as T1.
  { intros y q Hy. cbn. intros [[<- <-]|[_ Hq]]%lookup_insert_Some; [done|]. by apply (Htight y q). }
  destruct (pid_get_spec CONFIG_DEBUG_REFCOUNT ext s1 x n Hok1 ltac:(eauto) R1 Hn) as (px0&Hpx0&->&Hok2&R2). assert (px0 = px) as -> by congruence. cbn [res_bind].
  set (s2 := put_pid s1 x _) in *. assert (keeps (Some o) s1 s2) as K2 by (by apply (keeps_put (Some o) s1 x px)).
  assert (tobjs s2 !! t = Some (with_linked (upd (linked tk) ty false) tk)) as Ht2 by (cbn; apply lookup_insert_eq). rewrite Ht2. cbn [deref res_bind].
  set (tk2 := with_linked _ tk) in *.
  pose proof (base_assign ext s2 t tk2 ty x Hok2 Ht2) as Hok3. cbn [tk2 with_linked linked pids] in Hok3. unfold upd at 1 in Hok3. rewrite decide_True in Hok3 by done.
  specialize (Hok3 eq_refl ltac:(congruence)). change (pids tk2) with (pids tk). rewrite Hp in Hok3. cbn [ext_opt] in Hok3.
  set (tk3 := with_pids (upd (pids tk) ty (Some x)) tk2) in *. set (s3 := put_task s2 t tk3) in *.
  assert (tobjs s3 !! t = Some tk3) as Ht3 by (cbn; apply lookup_insert_eq).
  assert (pobjs s3 !! x = Some (with_refcount (refcount px + 1) px)) as Hx3 by (cbn; apply lookup_insert_eq).
  assert (pids tk3 ty = Some x) as Hp3 by (cbn; unfold upd; by rewrite decide_True).
  destruct (link_add_spec (ext_add o ext) s3 t tk3 ty x _ Hok3 Ht3 ltac:(cbn; unfold upd; by rewrite decide_True) Hp3 Hx3 Hhx) as [-> Hok4]. cbn [res_bind]. set (s4 := put_task (put_pid s3 x _) t _) in *.
  set (tk4 := with_linked _ tk3) in s4.
  assert (keeps (Some o) s2 s4) as K4 by (by apply (keeps_put (Some o) s3 x _ _ Hx3)).
  assert (pobjs s4 !! o = Some (with_tasks (upd (tasks po) ty (filter (λ u, u ≠ t) (tasks po ty))) po)) as Ho4.
  { cbn. rewrite !lookup_insert_ne by done. apply lookup_insert_eq. }
  assert (tight_but (Some o) s4) as T4.
  { intros y q Hy. cbn. intros [[<- <-]|[Hyx [[<- <-]|[_ Hq]]%lookup_insert_Some]]%lookup_insert_Some; [|done|].
    - intros _. exists ty. cbn. unfold upd. by rewrite decide_True.
    - by apply (T1 y q). }
  assert (room n s4) as R4 by (intros y q; cbn; intros [[<- <-]|[_ Hy]]%lookup_insert_Some; [exact (R2 x _ Hx3)|exact (R2 y q Hy)]).
  destruct (unhash_unused_spec _ s4 o _ Hok4 Ho4 T4) as (s5&->&Hok5&T5&Ht5&K5&R5&h&Hp5). cbn [res_bind].
  assert (pobjs s5 !! o = Some (with_hashed h (with_tasks (upd (tasks po) ty (filter (λ u, u ≠ t) (tasks po ty))) po))) as Ho5 by (rewrite Hp5; apply lookup_insert_eq).
  rewrite Ho5. cbn [deref res_bind]. pose proof (i_pid _ _ Hok5 o _ Ho5) as [_ [Hc5 _] _ _]. unfold ext_add in Hc5. rewrite decide_True in Hc5 by done.
  rewrite dec_ref by lia. cbn [res_bind]. eexists _, tk4. split; [done|]. split; [|split; [|split; [|split; [|split]]]].
  - apply (base_dec ext s5 o); [done|done|lia].
  - intros y q Hy. cbn [put_pid pobjs]. intros [[<- <-]|[_ Hq]]%lookup_insert_Some; [exact (T5 o _ Hy Ho5)|exact (T5 y q Hy Hq)].
  - intros y q. cbn [put_pid pobjs]. intros [[<- <-]|[_ Hy]]%lookup_insert_Some; [specialize (R5 n R4 o _ Ho5); cbn in *; lia|exact (R5 n R4 y q Hy)].
  - etrans; [exact K1|]. etrans; [exact K2|]. etrans; [exact K4|]. etrans; [exact K5|]. by apply (keeps_put (Some o) s5 o _ _ Ho5).
  - cbn [put_pid tobjs]. rewrite Ht5. cbn. by rewrite !insert_insert_eq.
  - split; [|split; [|done]]; intros k; cbn; unfold upd; repeat case_decide; subst; try done.
Qed.

(** *** All the threads of a process *)

(** [tk] with the ids of the types [tys] set to [g]. *)
Definition regrouped (tk : task) (tys : list pid_type) (g : nat) (tk' : task) : Prop :=
  (∀ k, pids tk' k = if decide (k ∈ tys) then Some g else pids tk k) ∧ (∀ k, linked tk' k = linked tk k) ∧ parent tk' = parent tk ∧ forknoexec tk' = forknoexec tk.

(** The ids are there as before, and [g] is still in the table. *)
Definition alive_with (g : nat) (s s' : ids) : Prop :=
  (∀ y q, pobjs s !! y = Some q → ∃ q', pobjs s' !! y = Some q' ∧ nr q' = nr q ∧ (y = g → hashed q' = hashed q)).

Lemma keeps_alive o g s s' : o ≠ g → keeps (Some o) s s' → alive_with g s s'.
Proof. intros Hne Hk y q Hy. destruct (keeps_live _ _ _ _ _ Hk Hy) as (q'&?&?&Hh). exists q'. split; [done|]. split; [done|]. intros ->. apply Hh. congruence. Qed.

Lemma alive_trans g s1 s2 s3 : alive_with g s1 s2 → alive_with g s2 s3 → alive_with g s1 s3.
Proof.
  intros H1 H2 y q Hy. destruct (H1 y q Hy) as (q2&Hy2&Hn2&Hh2). destruct (H2 y q2 Hy2) as (q3&Hy3&Hn3&Hh3).
  exists q3. split; [done|]. split; [congruence|]. intros E. rewrite Hh3, Hh2 by done. done.
Qed.

(** What a task must be for its ids of the types in [cs] to move to [g]. *)
Definition movable (ext : nat → nat) (g : nat) (tys : list pid_type) (tk : task) : Prop :=
  ∀ ty, ty ∈ tys → linked tk ty = true ∧ ∃ o, pids tk ty = Some o ∧ o ≠ g ∧ (0 < ext o)%nat.

Lemma change_task_spec ext t g tys s tk pg n :
  base_ok ext s → tight_but None s → room (n + Z.of_nat (length tys)) s → 0 ≤ n → NoDup tys → tobjs s !! t = Some tk → movable ext g tys tk →
  pobjs s !! g = Some pg → hashed pg = true →
  ∃ s' tk', foldl (λ r c, let! s := r in change_pid CONFIG_DEBUG_REFCOUNT s t c.1 c.2) (Ok s) ((λ ty, (ty, g)) <$> tys) = Ok s' ∧
    base_ok ext s' ∧ tight_but None s' ∧ room n s' ∧ alive_with g s s' ∧ tobjs s' = <[t := tk']> (tobjs s) ∧ regrouped tk tys g tk'.
Proof.
  intros Hok Htight Hr Hn Hnd Ht Hm Hg Hh. revert s tk pg Hok Htight Hr Ht Hm Hg Hh.
  induction Hnd as [|ty tys Hnew Hnd IH]; intros s tk pg Hok Htight Hr Ht Hm Hg Hh.
  - exists s, tk. split; [done|]. split; [done|]. split; [done|]. split; [intros y q Hy; specialize (Hr y q Hy); cbn in Hr; lia|].
    split; [intros y q Hy; by exists q|]. split; [by rewrite insert_id|done].
  - destruct (Hm ty ltac:(by left)) as (Hl&o&Hp&Hne&Hpos).
    destruct (change_pid_spec ext s t tk ty o g pg (n + Z.of_nat (length tys)) Hok Htight) as (s1&tk1&E&Hok1&T1&R1&K1&Ht1&Hmv);
      [intros y q Hy; specialize (Hr y q Hy); cbn [length] in Hr; lia|lia|done..|].
    destruct (keeps_live _ _ _ _ _ K1 Hg) as (pg1&Hg1&_&Hh1). destruct Hmv as (M1&M2&M3&M4).
    destruct (IH s1 tk1 pg1 Hok1 T1 R1) as (s2&tk2&E2&Hok2&T2&R2&A2&Ht2&N1&N2&N3&N4).
    + rewrite Ht1. apply lookup_insert_eq.
    + intros k Hk. destruct (Hm k ltac:(by right)) as (Hlk&Hpk). rewrite M2, M1, decide_False by (intros ->; done). done.
    + done.
    + rewrite Hh1; [done|congruence].
    + exists s2, tk2. split; [cbn [fmap list_fmap foldl fst snd res_bind]; by rewrite E|]. split; [done|]. split; [done|]. split; [done|].
      split; [by eapply alive_trans; [apply (keeps_alive o)|]|]. split; [by rewrite Ht2, Ht1, insert_insert_eq|].
      split; [|split; [intros k; by rewrite N2, M2|split; congruence]]. intros k. rewrite N1, M1. repeat case_decide; set_solver.
Qed.

Lemma change_loop_spec ext g tys ts s pg n :
  base_ok ext s → tight_but None s → room (n + Z.of_nat (length ts * length tys)) s → 0 ≤ n → NoDup tys → NoDup ts →
  (∀ t, t ∈ ts → ∃ tk, tobjs s !! t = Some tk ∧ movable ext g tys tk) → pobjs s !! g = Some pg → hashed pg = true →
  ∃ s', change_loop CONFIG_DEBUG_REFCOUNT s ts ((λ ty, (ty, g)) <$> tys) = Ok s' ∧ base_ok ext s' ∧ tight_but None s' ∧ room n s' ∧ alive_with g s s' ∧
    ∀ t, if decide (t ∈ ts) then ∃ tk tk', tobjs s !! t = Some tk ∧ tobjs s' !! t = Some tk' ∧ regrouped tk tys g tk' else tobjs s' !! t = tobjs s !! t.
Proof.
  intros Hok Htight Hr Hn Htys Hnd Hm Hg Hh. revert s pg Hok Htight Hr Hm Hg Hh.
  induction Hnd as [|t ts Hnew Hnd IH]; intros s pg Hok Htight Hr Hm Hg Hh.
  - exists s. split; [done|]. split; [done|]. split; [done|]. split; [intros y q Hy; specialize (Hr y q Hy); cbn in Hr; lia|]. split; [intros y q Hy; by exists q|]. done.
  - destruct (Hm t ltac:(by left)) as (tk&Ht&Hmt).
    destruct (change_task_spec ext t g tys s tk pg (n + Z.of_nat (length ts * length tys)) Hok Htight) as (s1&tk1&E1&Hok1&T1&R1&A1&Ht1&M);
      [intros y q Hy; specialize (Hr y q Hy); cbn [length] in Hr; lia|lia|done..|].
    destruct (A1 g pg Hg) as (pg1&Hg1&_&Hh1).
    destruct (IH s1 pg1 Hok1 T1 R1) as (s2&E2&Hok2&T2&R2&A2&Hall).
    + intros u Hu. destruct (Hm u ltac:(by right)) as (tku&Hut&Hmu). exists tku. split; [|done]. rewrite Ht1, lookup_insert_ne by (intros ->; done). done.
    + done.
    + by rewrite Hh1.
    + exists s2. split; [cbn [change_loop]; by rewrite E1|]. split; [done|]. split; [done|]. split; [done|]. split; [by eapply alive_trans|].
      intros u. specialize (Hall u). destruct (decide (u = t)) as [->|Hne].
      * rewrite decide_True by (by left). rewrite decide_False in Hall by done. exists tk, tk1. rewrite Hall, Ht1, lookup_insert_eq. done.
      * rewrite Ht1, lookup_insert_ne in Hall by done. destruct (decide (u ∈ ts)); [rewrite decide_True by (by right); done|].
        rewrite decide_False by (rewrite elem_of_cons; naive_solver). done.
Qed.
End change.

(** ** Groups and sessions *)

Definition pub (m : gmap nat task) (t : nat) (tk : task) : Prop := m !! t = Some tk ∧ linked tk TID = true.

(** A task is on all four lists or on none, the threads of a process are in one group
    and one session, a group lies in one session, and a process whose number is a
    group's is in the session of that group. *)
Record pol (m : gmap nat task) : Prop := {
  g_whole : ∀ t tk ty, m !! t = Some tk → linked tk ty = linked tk TID;
  g_threads : ∀ t tk u uk, pub m t tk → pub m u uk → pids tk TGID = pids uk TGID → pids tk PGID = pids uk PGID ∧ pids tk SID = pids uk SID;
  g_group : ∀ t tk u uk, pub m t tk → pub m u uk → pids tk PGID = pids uk PGID → pids tk SID = pids uk SID;
  g_leader : ∀ t tk u uk, pub m t tk → pub m u uk → pids tk PGID = pids uk TGID → pids tk SID = pids uk SID
}.

Definition pids_ok (s : ids) : Prop := base_ok (λ _, 0%nat) s ∧ tight_but None s ∧ pol (tobjs s).

(** The published threads of the process [x] move to [g], the other tasks stay. *)
Definition regroup (m m' : gmap nat task) (x : nat) (tys : list pid_type) (g : nat) : Prop :=
  ∀ u, match m !! u, m' !! u with
       | Some tk, Some tk' => if decide (linked tk TGID = true ∧ pids tk TGID = Some x) then regrouped tk tys g tk' else tk' = tk
       | None, None => True
       | _, _ => False
       end.

Lemma regroup_back m m' x tys g u tk' :
  pol m → TGID ∉ tys → regroup m m' x tys g → pub m' u tk' →
  ∃ tk, pub m u tk ∧ pids tk' TGID = pids tk TGID ∧ if decide (pids tk TGID = Some x) then regrouped tk tys g tk' else tk' = tk.
Proof.
  intros Hp Htg Hr [Hu Hl]. specialize (Hr u). rewrite Hu in Hr. destruct (m !! u) as [tk|] eqn:E; [|done]. exists tk.
  pose proof (g_whole m Hp u tk TGID E) as Hw. case_decide as Hd.
  - destruct Hr as (H1&H2&H3). rewrite decide_True by apply Hd. split; [split; [done|by rewrite <-H2]|]. split; [|done]. by rewrite H1, decide_False.
  - subst tk'. split; [done|]. split; [done|]. case_decide; [|done]. exfalso. apply Hd. split; [congruence|done].
Qed.

Lemma pol_regroup m m' x tys g sid :
  pol m → TGID ∉ tys → PGID ∈ tys → regroup m m' x tys g →
  (∀ u tk tk', pub m u tk → pids tk TGID = Some x → regrouped tk tys g tk' → pids tk' SID = sid) →
  (∀ u tk, pub m u tk → pids tk TGID ≠ Some x → pids tk PGID = Some g ∨ pids tk PGID = Some x ∨ pids tk TGID = Some g → pids tk SID = sid) →
  pol m'.
Proof.
  intros Hp Htg Hpg Hr Hin Hout.
  assert (∀ u tk tk', pub m u tk → pids tk TGID = Some x → regrouped tk tys g tk' → pids tk' PGID = Some g) as Hg.
  { intros u tk tk' _ _ (H&_). by rewrite H, decide_True. }
  split.
  - intros u tk' ty Hu. specialize (Hr u). rewrite Hu in Hr. destruct (m !! u) as [tk|] eqn:E; [|done].
    pose proof (g_whole m Hp u tk ty E). case_decide; [|by subst]. destruct Hr as (_&H2&_). by rewrite !H2.
  - intros t tk u uk Ht Hu He. apply (regroup_back _ _ _ _ _ _ _ Hp Htg Hr) in Ht as (tk0&Ht&Et&Dt), Hu as (uk0&Hu&Eu&Du).
    repeat case_decide; try subst tk; try subst uk; [|congruence..|by apply (g_threads m Hp t tk0 u uk0)].
    rewrite (Hg t tk0 tk), (Hg u uk0 uk), (Hin t tk0 tk), (Hin u uk0 uk) by done. done.
  - intros t tk u uk Ht Hu He. apply (regroup_back _ _ _ _ _ _ _ Hp Htg Hr) in Ht as (tk0&Ht&Et&Dt), Hu as (uk0&Hu&Eu&Du).
    repeat case_decide; try subst tk; try subst uk; [| | |by apply (g_group m Hp t tk0 u uk0)].
    + by rewrite (Hin t tk0 tk), (Hin u uk0 uk).
    + rewrite (Hin u uk0 uk) by done. rewrite (Hg u uk0 uk) in He by done. apply (Hout t tk0); auto.
    + rewrite (Hin t tk0 tk) by done. rewrite (Hg t tk0 tk) in He by done. symmetry. apply (Hout u uk0); auto.
  - intros t tk u uk Ht Hu He. apply (regroup_back _ _ _ _ _ _ _ Hp Htg Hr) in Ht as (tk0&Ht&Et&Dt), Hu as (uk0&Hu&Eu&Du).
    repeat case_decide; try subst tk; try subst uk; [| | |by apply (g_leader m Hp t tk0 u uk0)].
    + by rewrite (Hin t tk0 tk), (Hin u uk0 uk).
    + rewrite (Hin u uk0 uk) by done. apply (Hout t tk0); [done..|]. right. left. congruence.
    + rewrite (Hin t tk0 tk) by done. rewrite (Hg t tk0 tk) in He by done. symmetry. apply (Hout u uk0); auto.
Qed.

Lemma find_in_pid s n l :
  (∀ x, x ∈ l → is_Some (pobjs s !! x)) → ∃ r, find_in s n l = Ok r ∧ 
    match r with Some x => x ∈ l ∧ ∃ p, pobjs s !! x = Some p ∧ nr p = n | None => ∀ x p, x ∈ l → pobjs s !! x = Some p → nr p ≠ n end.
Proof.
  induction l as [|x l IH]; intros Hl; [exists None; split; [done|]; by intros ? ? ?%elem_of_nil|]. cbn [find_in]. destruct (Hl x ltac:(by left)) as [p Hx]. rewrite Hx. cbn [deref res_bind].
  destruct (Z.eqb_spec (nr p) n); [exists (Some x); split; [done|]; split; [by left|eauto]|].
  destruct IH as (r&->&Hr); [intros y Hy; apply Hl; by right|]. exists r. split; [done|]. destruct r.
  - destruct Hr as [? ?]. split; [by right|done].
  - intros y q [->|Hy]%elem_of_cons Hq; [congruence|by eapply Hr].
Qed.

Lemma find_pid_spec ext s n :
  base_ok ext s → ∃ r, find_pid_locked s n = Ok r ∧
    match r with Some x => ∃ p, pobjs s !! x = Some p ∧ hashed p = true ∧ nr p = n | None => True end ∧
    ∀ x p, pobjs s !! x = Some p → hashed p = true → nr p = n → r = Some x.
Proof.
  intros Hok. destruct (find_in_pid s n (bucket s (slot n))) as (r&E&Hr); [intros x Hx; apply (i_table _ _ Hok) in Hx as (p&?&_); eauto|].
  exists r. split; [exact E|]. destruct r as [x|].
  - destruct Hr as (Hx&p&Hp&Hn). apply (i_table _ _ Hok) in Hx as (q&?&?&_). split; [exists p; split; [done|]; split; [congruence|done]|].
    intros y q' Hy _ Hny. f_equal. apply (i_unique _ _ Hok x y p q'); congruence.
  - split; [done|]. intros y q Hy Hhy <-. exfalso. apply (Hr y q); [|done|done]. apply (i_table _ _ Hok). by exists q.
Qed.

(** The task found through an id. *)
Lemma pid_task_spec ext s r ty :
  base_ok ext s → (∀ x, r = Some x → is_Some (pobjs s !! x)) →
  ∃ o, pid_task_locked s r ty = Ok o ∧ 
    match o with
    | Some t => ∃ x tk, r = Some x ∧ tobjs s !! t = Some tk ∧ linked tk ty = true ∧ pids tk ty = Some x
    | None => ∀ t tk, tobjs s !! t = Some tk → linked tk ty = true → is_Some r → pids tk ty ≠ r
    end.
Proof.
  intros Hok Hr. unfold pid_task_locked. destruct r as [x|]; [|exists None; split; [done|]; by intros ? ? _ _ [? ?]]. destruct (Hr x eq_refl) as [p Hx]. rewrite Hx. cbn [deref res_bind].
  eexists. split; [done|]. destruct (head (tasks p ty)) as [t|] eqn:E.
  2: { intros t tk Ht Hl _ Hp. assert (t ∈ tasks p ty) as Hin by (apply (p_tasks _ _ _ _ (i_pid _ _ Hok x p Hx)); eauto).
    destruct (tasks p ty); [by apply elem_of_nil in Hin|done]. }
  assert (t ∈ tasks p ty) as Ht by (destruct (tasks p ty); [done|]; injection E as ->; by left).
  apply (p_tasks _ _ _ _ (i_pid _ _ Hok x p Hx)) in Ht as (tk&?&?&?). eauto 10.
Qed.

Section calls.
Context (CONFIG_DEBUG_REFCOUNT : bool).

Lemma change_group_spec ext s x g tys px pg n :
  base_ok ext s → tight_but None s → pol (tobjs s) → room (n + Z.of_nat (size (tobjs s) * length tys)) s → 0 ≤ n → NoDup tys →
  pobjs s !! x = Some px → pobjs s !! g = Some pg → hashed pg = true →
  (∀ u tk, pub (tobjs s) u tk → pids tk TGID = Some x → movable ext g tys tk) →
  ∃ s', change_loop CONFIG_DEBUG_REFCOUNT s (tasks px TGID) ((λ ty, (ty, g)) <$> tys) = Ok s' ∧ base_ok ext s' ∧ tight_but None s' ∧ room n s' ∧
    alive_with g s s' ∧ regroup (tobjs s) (tobjs s') x tys g.
Proof.
  intros Hok Ht Hpol Hr Hn Hnd Hx Hg Hh Hm. pose proof (i_pid _ _ Hok x px Hx) as [_ _ Hts Hl].
  assert (length (tasks px TGID) ≤ size (tobjs s))%nat as Hlen.
  { rewrite <-(size_list_to_set (C := gset nat)) by apply Hl. rewrite <-size_dom. apply subseteq_size. intros u Hu.
    apply elem_of_list_to_set, Hts in Hu as (tk&Hu&_). rewrite elem_of_dom. eauto. }
  destruct (change_loop_spec CONFIG_DEBUG_REFCOUNT ext g tys (tasks px TGID) s pg n Hok Ht) as (s'&E&Hok'&Ht'&Hr'&Ha&Hall); try done.
  - intros y q Hy. specialize (Hr y q Hy). nia.
  - apply Hl.
  - intros u (tk&Hu&Hlk&Hp)%Hts. exists tk. split; [done|]. apply (Hm u); [|done]. split; [done|]. by rewrite <-(g_whole _ Hpol u tk TGID Hu).
  - exists s'. split; [done|]. split; [done|]. split; [done|]. split; [done|]. split; [done|]. intros u. specialize (Hall u).
    case_decide as Hu; [apply Hts in Hu as (tk&Hu&Hlk&Hp); destruct Hall as (tk0&tk'&Hu0&->&Hre)|].
    + rewrite Hu. assert (tk0 = tk) as -> by congruence. by rewrite decide_True.
    + rewrite Hall. destruct (tobjs s !! u) as [tk|] eqn:E'; [|done]. rewrite decide_False; [done|]. intros [? ?]. apply Hu, Hts. eauto.
Qed.

Lemma get_put_ids ext s x n :
  base_ok ext s → is_Some (pobjs s !! x) → room (n + 1) s → 0 ≤ n →
  ∃ s', pid_get CONFIG_DEBUG_REFCOUNT s x = Ok s' ∧ base_ok (ext_add x ext) s' ∧ room n s' ∧ tobjs s' = tobjs s ∧
    (∀ y q', pobjs s' !! y = Some q' → ∃ q, pobjs s !! y = Some q ∧ nr q' = nr q ∧ hashed q' = hashed q ∧ tasks q' = tasks q) ∧
    (∀ y q, pobjs s !! y = Some q → ∃ q', pobjs s' !! y = Some q' ∧ nr q' = nr q ∧ hashed q' = hashed q ∧ tasks q' = tasks q).
Proof.
  intros Hok Hx Hr Hn. destruct (pid_get_spec CONFIG_DEBUG_REFCOUNT ext s x n Hok Hx Hr Hn) as (p&Hp&E&Hok'&Hr').
  eexists. split; [exact E|]. split; [done|]. split; [done|]. split; [done|]. cbn [put_pid pobjs]. split.
  - intros y q' [[<- <-]|[_ Hy]]%lookup_insert_Some; eauto.
  - intros y q Hy. destruct (decide (y = x)) as [->|Hne]; [|exists q; by rewrite lookup_insert_ne by done].
    assert (q = p) as -> by congruence. eexists. rewrite lookup_insert_eq. done.
Qed.

Lemma tight_same o s s' :
  tight_but o s → (∀ y q', pobjs s' !! y = Some q' → ∃ q, pobjs s !! y = Some q ∧ nr q' = nr q ∧ hashed q' = hashed q ∧ tasks q' = tasks q) → tight_but o s'.
Proof. intros Ht He y q' Hne Hy Hh. destruct (He y q' Hy) as (q&Hq&_&E1&E2). rewrite E2. apply (Ht y q); [done..|congruence]. Qed.

(** Giving back the reference taken to the old group's id. *)
Lemma put_back s x :
  base_ok (ext_add x (λ _, 0%nat)) s → tight_but None s → pol (tobjs s) →
  ∃ s', pid_put CONFIG_DEBUG_REFCOUNT s x = Ok s' ∧ pids_ok s' ∧ tobjs s' = tobjs s.
Proof.
  intros Hok Ht Hp. destruct (pid_put_spec CONFIG_DEBUG_REFCOUNT _ s x None Hok Ht) as (s'&E&Hok'&Ht'&Ho&_); [done|].
  exists s'. split; [exact E|]. split; [|done]. split; [done|]. split; [done|]. by rewrite Ho.
Qed.

(** The threads of the process [x] are in the group [g] already. *)
Lemma regroup_id m x g :
  (∀ u tk, m !! u = Some tk → linked tk TGID = true → pids tk TGID = Some x → pids tk PGID = Some g) → regroup m m x [PGID] g.
Proof.
  intros H u. destruct (m !! u) as [tk|] eqn:E; [|done]. case_decide as Hd; [|done]. split; [|done].
  intros k. case_decide as Hk; [|done]. apply list_elem_of_singleton in Hk as ->. by apply (H u tk E); apply Hd.
Qed.

(** What [sys_setpgid] did: [x] is the process, [g] its new group. *)
Definition group_set (s s' : ids) (current : nat) (ctk : task) (n pgid : Z) : Prop :=
  ∃ t tk x px g pg, pub (tobjs s) t tk ∧ (t = current ∨ parent tk = Some current) ∧ pids tk TGID = Some x ∧ pids tk SID ≠ Some x ∧
    pobjs s !! x = Some px ∧ (if truth n then nr px = n else pids ctk TGID = Some x) ∧ pobjs s !! g = Some pg ∧ nr pg = (if truth pgid then pgid else nr px) ∧
    regroup (tobjs s) (tobjs s') x [PGID] g.

(** The last part of [setpgid_locked], and the put that follows it. *)
Lemma set_group s t tk x tx old g pg :
  pids_ok s → room (Z.of_nat (size (tobjs s)) + 1) s → pub (tobjs s) t tk → pids tk TGID = Some x → pobjs s !! x = Some tx → pids tk PGID = Some old →
  pobjs s !! g = Some pg → hashed pg = true → (g = x ∨ ∃ m mk, pub (tobjs s) m mk ∧ pids mk PGID = Some g ∧ pids mk SID = pids tk SID) →
  ∃ s1 s', pid_get CONFIG_DEBUG_REFCOUNT s old = Ok s1 ∧ pids_ok s' ∧ regroup (tobjs s) (tobjs s') x [PGID] g ∧
    if decide (g = old) then pid_put CONFIG_DEBUG_REFCOUNT s1 old = Ok s'
    else ∃ s2 tx1, pobjs s1 !! x = Some tx1 ∧ change_loop CONFIG_DEBUG_REFCOUNT s1 (tasks tx1 TGID) [(PGID, g)] = Ok s2 ∧ pid_put CONFIG_DEBUG_REFCOUNT s2 old = Ok s'.
Proof.
  intros (Hok&Ht&Hpol) Hr Hpt Hx Htx Hold Hg Hh Hsame. pose proof (proj1 Hpt) as Htt.
  assert (∀ u uk, pub (tobjs s) u uk → pids uk TGID = Some x → pids uk PGID = Some old ∧ pids uk SID = pids tk SID) as Hthr.
  { intros u uk Hu He. destruct (g_threads _ Hpol u uk t tk Hu Hpt) as [E1 E2]; [congruence|]. by rewrite E1, E2. }
  destruct (get_put_ids _ s old (Z.of_nat (size (tobjs s))) Hok) as (s1&E1&Hok1&Hr1&Ht1&Hback&Hfwd); [|done|lia|].
  { apply (i_live _ _ Hok). right. exists t, PGID. unfold pid_of. by rewrite Htt. }
  pose proof (tight_same _ _ _ Ht Hback) as Htight1. exists s1. case_decide as Hgo.
  - destruct (put_back s1 old Hok1 Htight1 ltac:(by rewrite Ht1)) as (s'&E'&Hok'&Ht'). exists s'. split; [done|]. split; [done|]. split; [|done].
    rewrite Ht', Ht1. apply regroup_id. intros u uk Hu Hl Hux. subst g. apply (Hthr u uk); [|done]. split; [done|]. by rewrite <-(g_whole _ Hpol u uk TGID Hu).
  - destruct (Hfwd x tx Htx) as (tx1&Htx1&_). destruct (Hfwd g pg Hg) as (pg1&Hg1&_&Hh1&_).
    destruct (change_group_spec _ s1 x g [PGID] tx1 pg1 0 Hok1 Htight1) as (s2&E2&Hok2&Ht2&_&_&Hre); try done.
    + by rewrite Ht1.
    + intros y q Hy. specialize (Hr1 y q Hy). rewrite Ht1. cbn [length]. nia.
    + apply NoDup_singleton.
    + by rewrite Hh1.
    + rewrite Ht1. intros u uk Hu Hux ty ->%list_elem_of_singleton. destruct Hu as [Hu Hlu]. rewrite (g_whole _ Hpol u uk PGID Hu). split; [done|].
      exists old. split; [by apply (Hthr u uk)|]. split; [done|]. unfold ext_add. rewrite decide_True by done. lia.
    + rewrite Ht1 in Hre. assert (pol (tobjs s2)) as Hpol2.
      { apply (pol_regroup (tobjs s) (tobjs s2) x [PGID] g (pids tk SID) Hpol); [set_solver..|done| |].
        - intros u uk uk' Hu Hux (H&_). rewrite H, decide_False by set_solver. by apply (Hthr u uk).
        - intros u uk Hu Hux [Hug|[Hug|Hug]].
          + destruct Hsame as [->|(m&mk&Hm&Hmg&<-)]; [apply (g_leader _ Hpol u uk t tk); [done|done|congruence]|apply (g_group _ Hpol u uk m mk); [done|done|congruence]].
          + apply (g_leader _ Hpol u uk t tk); [done|done|congruence].
          + destruct Hsame as [->|(m&mk&Hm&Hmg&<-)]; [done|]. symmetry. apply (g_leader _ Hpol m mk u uk); [done|done|congruence]. }
      destruct (put_back s2 old Hok2 Ht2 Hpol2) as (s'&E'&Hok'&Ht'). exists s'. split; [done|]. split; [done|]. rewrite Ht'. split; [done|]. by exists s2, tx1.
Qed.

Lemma linked_pid ext s t tk ty :
  base_ok ext s → pol (tobjs s) → pub (tobjs s) t tk → ∃ x p, pids tk ty = Some x ∧ pobjs s !! x = Some p.
Proof.
  intros Hok Hpol [Ht Hl]. destruct (i_linked _ _ Hok t tk ty Ht) as [x Hx]; [by rewrite (g_whole _ Hpol t tk ty Ht)|].
  destruct (i_live _ _ Hok x) as [p Hp]; [right; exists t, ty; unfold pid_of; by rewrite Ht|]. eauto.
Qed.

(** The group to join exists: it is the process's own number or has a member in the session. *)
Lemma good_group s x tk pgrp :
  base_ok (λ _, 0%nat) s → pol (tobjs s) → (∀ g, pgrp = Some g → is_Some (pobjs s !! g)) →
  ∃ good, (if bool_decide (pgrp = Some x) then Ok true else
      let! m := pid_task_locked s pgrp PGID in
      match m with None => Ok false | Some m => let! mtk := deref (tobjs s !! m) in Ok (bool_decide (pids mtk SID = pids tk SID)) end) = Ok good ∧
    (good = true ↔ ∃ g, pgrp = Some g ∧ (g = x ∨ ∃ m mk, pub (tobjs s) m mk ∧ pids mk PGID = Some g ∧ pids mk SID = pids tk SID)).
Proof.
  intros Hok Hpol Hg. case_bool_decide as E; [exists true; split; [done|]; split; eauto|].
  destruct (pid_task_spec _ s pgrp PGID Hok Hg) as (o&->&Ho). cbn [res_bind]. destruct o as [m|].
  - destruct Ho as (g&mk&->&Hm&Hl&Hp). rewrite Hm. cbn [deref res_bind]. eexists. split; [done|].
    assert (pub (tobjs s) m mk) as Hpm by (split; [done|]; by rewrite <-(g_whole _ Hpol m mk PGID Hm)).
    rewrite bool_decide_eq_true. split; [intros Hb; exists g; split; [done|]; right; by exists m, mk|].
    intros (g'&[= <-]&[->|(u&uk&Hu&Hug&<-)]); [done|]. apply (g_group _ Hpol m mk u uk); [done|done|congruence].
  - exists false. split; [done|]. split; [done|]. intros (g&->&[->|(u&uk&[Hu Hul]&Hug&_)]); [done|]. exfalso.
    apply (Ho u uk); [done|by rewrite (g_whole _ Hpol u uk PGID Hu)|done|done].
Qed.

(** *** What the call answers *)

(** The task has the number [n] as its id of the kind [ty]. *)
Definition has_number (s : ids) (tk : task) (ty : pid_type) (n : Z) : Prop :=
  ∃ x p, pids tk ty = Some x ∧ pobjs s !! x = Some p ∧ nr p = n.
(** The process with the number [n], by its first thread. *)
Definition process (s : ids) (n : Z) (t : nat) (tk : task) : Prop :=
  pub (tobjs s) t tk ∧ has_number s tk TID n ∧ pids tk TID = pids tk TGID.
(** A process moves itself, or a child in its session that has not executed a program. *)
Definition may_move (current : nat) (ctk : task) (t : nat) (tk : task) : Prop :=
  t = current ∨ parent tk = Some current ∧ pids tk SID = pids ctk SID ∧ forknoexec tk = true.
(** The group [n] is the process's own, or has a member in its session. *)
Definition joinable (s : ids) (tk : task) (n : Z) : Prop :=
  has_number s tk TGID n ∨ ∃ m mk, pub (tobjs s) m mk ∧ has_number s mk PGID n ∧ pids mk SID = pids tk SID.

(** The answer for the process [n] and the group [g], the checks in the source's order. *)
Inductive setpgid_answer (s : ids) (current : nat) (ctk : task) (n g : Z) : Z → Prop :=
  | answer_negative : g < 0 → setpgid_answer s current ctk n g (- EINVAL)
  | answer_nobody : 0 ≤ g → (∀ t tk, pub (tobjs s) t tk → ¬ has_number s tk TID n) → setpgid_answer s current ctk n g (- ESRCH)
  | answer_thread t tk : 0 ≤ g → pub (tobjs s) t tk → has_number s tk TID n → pids tk TID ≠ pids tk TGID → setpgid_answer s current ctk n g (- EINVAL)
  | answer_stranger t tk : 0 ≤ g → process s n t tk → t ≠ current → parent tk ≠ Some current → setpgid_answer s current ctk n g (- ESRCH)
  | answer_session t tk :
      0 ≤ g → process s n t tk → t ≠ current → parent tk = Some current → pids tk SID ≠ pids ctk SID → setpgid_answer s current ctk n g (- EPERM)
  | answer_exec t tk :
      0 ≤ g → process s n t tk → t ≠ current → parent tk = Some current → pids tk SID = pids ctk SID → forknoexec tk = false →
      setpgid_answer s current ctk n g (- EACCES)
  | answer_leader t tk : 0 ≤ g → process s n t tk → may_move current ctk t tk → pids tk SID = pids tk TGID → setpgid_answer s current ctk n g (- EPERM)
  | answer_no_group t tk :
      0 ≤ g → process s n t tk → may_move current ctk t tk → pids tk SID ≠ pids tk TGID → ¬ joinable s tk g → setpgid_answer s current ctk n g (- EPERM)
  | answer_moved t tk :
      0 ≤ g → process s n t tk → may_move current ctk t tk → pids tk SID ≠ pids tk TGID → joinable s tk g → setpgid_answer s current ctk n g 0.

(** The id of a published task is found by its number. *)
Lemma published_found s t tk ty x p :
  base_ok (λ _, 0%nat) s → pol (tobjs s) → pub (tobjs s) t tk → pids tk ty = Some x → pobjs s !! x = Some p → hashed p = true.
Proof.
  intros Hok Hpol [Ht Hl] Hx Hp. destruct (p_list _ _ _ _ (i_pid _ _ Hok x p Hp) ty) as [_ Hh]. apply Hh.
  assert (t ∈ tasks p ty) as Hin; [|by intros E; rewrite E, elem_of_nil in Hin].
  apply (p_tasks _ _ _ _ (i_pid _ _ Hok x p Hp)). exists tk. split; [done|]. by rewrite (g_whole _ Hpol t tk ty Ht).
Qed.

(** The group a number names is the one the search finds. *)
Lemma joinable_found s t tk x px n r :
  base_ok (λ _, 0%nat) s → pol (tobjs s) → pub (tobjs s) t tk → pids tk TGID = Some x → pobjs s !! x = Some px →
  match r with Some y => ∃ p, pobjs s !! y = Some p ∧ hashed p = true ∧ nr p = n | None => True end →
  (∀ y p, pobjs s !! y = Some p → hashed p = true → nr p = n → r = Some y) →
  joinable s tk n ↔ ∃ g, r = Some g ∧ (g = x ∨ ∃ m mk, pub (tobjs s) m mk ∧ pids mk PGID = Some g ∧ pids mk SID = pids tk SID).
Proof.
  intros Hok Hpol Ht Hx Hpx Hr Hall. split.
  - intros [(y&p&Hy&Hp&Hn)|(m&mk&Hm&(y&p&Hy&Hp&Hn)&Hsid)]; exists y; (split; [apply (Hall y p); [done|by eapply published_found|done]|]).
    + left. congruence.
    + right. by exists m, mk.
  - intros (g&->&[->|(m&mk&Hm&Hg&Hsid)]); destruct Hr as (p&Hp&_&Hn); [left|right]; [by exists x, p|]. exists m, mk. split_and!; [done|by exists g, p|done].
Qed.

Lemma other_check (t c : nat) (b : bool) : negb (Nat.eqb t c) && negb b = bool_decide (t ≠ c ∧ b = false).
Proof. destruct (Nat.eqb_spec t c), b; simpl; symmetry; rewrite ?bool_decide_eq_true, ?bool_decide_eq_false; naive_solver. Qed.

Lemma setpgid_fails s current ctk n pgid num ret :
  pids_ok s → ret ≠ 0 → (if truth n then num = n else has_number s ctk TGID num) →
  setpgid_answer s current ctk num (if truth pgid then pgid else num) ret →
  ∃ num ret' s', (let! (r, old, s) := Ok (ret, None, s) in let! s := put_opt CONFIG_DEBUG_REFCOUNT s old in Ok (r, s)) = Ok (ret', s') ∧
    pids_ok s' ∧ (if truth n then num = n else has_number s ctk TGID num) ∧
    setpgid_answer s current ctk num (if truth pgid then pgid else num) ret' ∧
    (if decide (ret' = 0) then group_set s s' current ctk n pgid else s' = s).
Proof. intros Hok Hret Hnum Hans. exists num, ret, s. split_and!; [done..|]. by rewrite decide_False. Qed.

(** C24: [sys_setpgid] ends for any arguments, and its answer is the one the checks give,
    in their order: [-EINVAL] for a negative group, [-ESRCH] when nobody has the number,
    [-EINVAL] when it is that of a thread, [-ESRCH] when the process is neither the
    caller nor its child, [-EPERM] for a child in another session, [-EACCES] for a
    child that has executed a program, [-EPERM] for a session leader, and [-EPERM] when
    the group is neither the process's own nor has a member in its session; in all
    other cases 0.  A failure leaves the state alone; a success moves every thread of
    the process to the group.  Either way the counts, lists, table and bitmap agree, and
    every process group still lies within one session. *)
Theorem sys_setpgid_spec s current ctk n pgid :
  pids_ok s → room (Z.of_nat (size (tobjs s)) + 1) s → pub (tobjs s) current ctk →
  ∃ num ret s', sys_setpgid CONFIG_DEBUG_REFCOUNT s current n pgid = Ok (ret, s') ∧ pids_ok s' ∧
    (if truth n then num = n else has_number s ctk TGID num) ∧
    setpgid_answer s current ctk num (if truth pgid then pgid else num) ret ∧
    (if decide (ret = 0) then group_set s s' current ctk n pgid else s' = s).
Proof.
  intros Hs Hr Hcur. pose proof Hs as (Hok&Ht&Hpol). unfold sys_setpgid, setpgid_locked. rewrite (proj1 Hcur). cbn [deref res_bind].
  destruct (linked_pid _ s current ctk TGID Hok Hpol Hcur) as (cx&cp&Ecx&Hcx).
  set (n1 := if truth n then n else nr cp).
  assert ((if truth n then Ok n else let! (_, p) := get_pid s (pids ctk TGID) in Ok (nr p)) = Ok n1) as ->.
  { unfold n1, get_pid. destruct (truth n); [done|]. rewrite Ecx. cbn [deref res_bind]. by rewrite Hcx. }
  assert (if truth n then n1 = n else has_number s ctk TGID n1) as Hnum by (unfold n1; destruct (truth n); [done|by exists cx, cp]).
  cbn [res_bind]. set (pgid1 := if truth pgid then pgid else n1) in *.
  destruct (Z.ltb_spec pgid1 0) as [|Hpos]; [apply (setpgid_fails _ _ _ _ _ n1); [done|done|done|by apply answer_negative]|].
  destruct (find_pid_spec _ s n1 Hok) as (r&->&Hfound&Hfall). cbn [res_bind].
  destruct (pid_task_spec _ s r TID Hok) as (o&->&Ho); [intros x ->; destruct Hfound as (p&?&_); eauto|]. cbn [res_bind].
  destruct o as [t|].
  2: { apply (setpgid_fails _ _ _ _ _ n1); [done|done|done|]. apply answer_nobody; [done|]. intros t tk Hu (y&p&Hy&Hp&Hn).
    pose proof (Hfall y p Hp (published_found _ _ _ _ _ _ Hok Hpol Hu Hy Hp) Hn) as ->. destruct Hu as [Hu Hl]. by apply (Ho t tk Hu Hl). }
  destruct Ho as (y&tk&->&Htk&Hl&Hy). destruct Hfound as (py&Hpy&Hhy&Hny).
  assert (pub (tobjs s) t tk) as Hpub by done. rewrite Htk. cbn [deref res_bind].
  assert (has_number s tk TID n1) as Hnumt by (by exists y, py).
  destruct (linked_pid _ s t tk TGID Hok Hpol Hpub) as (x&px&Ex&Hx). rewrite Ex, Hy. cbn [deref res_bind].
  case_bool_decide as Hxy; cbn [negb]; [injection Hxy as ->|apply (setpgid_fails _ _ _ _ _ n1); [done|done|done|apply (answer_thread _ _ _ _ _ t tk); [done..|congruence]]].
  assert (py = px) as -> by congruence. assert (process s n1 t tk) as Hproc by (split_and!; [done|done|congruence]).
  rewrite !other_check. destruct (bool_decide_reflect (t ≠ current ∧ bool_decide (parent tk = Some current) = false)) as [Ep|Ep].
  { destruct Ep as [Hne Hp%bool_decide_eq_false]. apply (setpgid_fails _ _ _ _ _ n1); [done|done|done|by apply (answer_stranger _ _ _ _ _ t tk)]. }
  assert (t ≠ current → parent tk = Some current) as Hpar.
  { intros Hne. apply dec_stable. intros Hp. apply Ep. by rewrite bool_decide_eq_false. }
  destruct (bool_decide_reflect (t ≠ current ∧ bool_decide (pids tk SID = pids ctk SID) = false)) as [Eq|Eq].
  { destruct Eq as [Hne Hp%bool_decide_eq_false]. apply (setpgid_fails _ _ _ _ _ n1); [done|done|done|apply (answer_session _ _ _ _ _ t tk); auto]. }
  assert (t ≠ current → pids tk SID = pids ctk SID) as Hsess.
  { intros Hne. apply dec_stable. intros Hp. apply Eq. by rewrite bool_decide_eq_false. }
  destruct (bool_decide_reflect (t ≠ current ∧ forknoexec tk = false)) as [Ee|Ee].
  { destruct Ee as [Hne Hp]. apply (setpgid_fails _ _ _ _ _ n1); [done|done|done|apply (answer_exec _ _ _ _ _ t tk); auto]. }
  assert (may_move current ctk t tk) as Hmay.
  { destruct (decide (t = current)); [by left|right]. split_and!; [auto|auto|]. destruct (forknoexec tk); [done|]. by destruct Ee. }
  clear Ep Eq Ee. destruct (bool_decide_reflect (pids tk SID = Some x)) as [|Hlead].
  { apply (setpgid_fails _ _ _ _ _ n1); [done|done|done|apply (answer_leader _ _ _ _ _ t tk); [done..|congruence]]. }
  destruct (find_pid_spec _ s pgid1 Hok) as (pgrp&->&Hpg&Hpgall). cbn [res_bind].
  pose proof (joinable_found s t tk x px pgid1 pgrp Hok Hpol Hpub Ex Hx Hpg Hpgall) as Hjoin.
  destruct (good_group s x tk pgrp Hok Hpol) as (good&->&Hgood); [intros g ->; destruct Hpg as (p&?&_); eauto|]. cbn [res_bind].
  destruct good; cbn [negb].
  2: { apply (setpgid_fails _ _ _ _ _ n1); [done|done|done|apply (answer_no_group _ _ _ _ _ t tk); [done..|congruence|]].
    intros Hj%Hjoin%Hgood. done. }
  pose proof (proj1 Hgood eq_refl) as Hg. assert (joinable s tk pgid1) as Hj by (by apply Hjoin). destruct Hg as (g&->&Hsame). destruct Hpg as (pg&Hg&Hhg&Hng).
  destruct (linked_pid _ s t tk PGID Hok Hpol Hpub) as (old&po&Eold&_). rewrite Eold. cbn [deref res_bind].
  destruct (set_group s t tk x px old g pg Hs Hr Hpub Ex Hx Eold Hg Hhg Hsame) as (s1&s'&E1&Hs'&Hre&Hend). rewrite E1. cbn [res_bind].
  exists n1, 0, s'. split_and!; [|done|done|apply (answer_moved _ _ _ _ _ t tk); [done..|congruence|done]|rewrite decide_True by done].
  - case_decide as Hgo; [subst g; rewrite bool_decide_true by done; cbn [res_bind put_opt]; by rewrite Hend|].
    rewrite bool_decide_false by congruence. cbn [deref res_bind]. destruct Hend as (s2&tx1&->&E2&E3). cbn [deref res_bind]. rewrite E2. cbn [res_bind put_opt]. by rewrite E3.
  - exists t, tk, x, px, g, pg. split; [done|]. split; [|split; [done|split; [done|split; [done|split; [|split; [done|split; [|done]]]]]]].
    + destruct Hmay as [?|[? _]]; [by left|by right].
    + unfold n1 in Hny. destruct (truth n); [done|]. rewrite Ecx. f_equal. by apply (i_unique _ _ Hok cx x cp px).
    + rewrite Hng. unfold pgid1. destruct (truth pgid); [done|]. by rewrite Hny.
Qed.

(** A process that may start a session: no group has its number, and its ids stay referenced. *)
Lemma setsid_movable s t tk x tx og os u uk :
  base_ok (λ _, 0%nat) s → pol (tobjs s) → pub (tobjs s) t tk → pids tk TGID = Some x → pobjs s !! x = Some tx → tasks tx PGID = [] → pids tk SID ≠ Some x →
  pids tk PGID = Some og → pids tk SID = Some os → pub (tobjs s) u uk → pids uk TGID = Some x →
  movable (ext_add os (ext_add og (λ _, 0%nat))) x [PGID; SID] uk.
Proof.
  intros Hok Hpol Ht Ex Hx Hnone Hns Eog Eos Hu Hux. destruct (g_threads _ Hpol u uk t tk Hu Ht) as [E1 E2]; [congruence|]. destruct Hu as [Hu Hlu].
  intros ty Hty. split; [by rewrite (g_whole _ Hpol u uk ty Hu)|]. apply elem_of_cons in Hty as [->|Hty].
  - exists og. rewrite E1. split; [done|]. split; [|unfold ext_add; rewrite (decide_True _ _ (eq_refl og)); case_decide; lia]. intros ->.
    assert (u ∈ tasks tx PGID) as Hin; [|by rewrite Hnone, elem_of_nil in Hin].
    apply (p_tasks _ _ _ _ (i_pid _ _ Hok x tx Hx)). exists uk. split; [done|]. split; [by rewrite (g_whole _ Hpol u uk PGID Hu)|congruence].
  - apply list_elem_of_singleton in Hty as ->. exists os. rewrite E2. split; [done|]. split; [congruence|]. unfold ext_add. rewrite decide_True by done. lia.
Qed.

(** [pid_setsid] fails with [-EPERM], changing nothing, when the process leads a
    session already or a group has its number; otherwise every thread of the process
    ends up in a new group and a new session that have the process's number, which is
    the result.  Counts, lists, table and bitmap still agree, and every group lies
    within one session. *)
Theorem pid_setsid_spec s t tk x tx :
  pids_ok s → room (Z.of_nat (2 * size (tobjs s)) + 2) s → pub (tobjs s) t tk → pids tk TGID = Some x → pobjs s !! x = Some tx →
  if decide (pids tk SID = Some x ∨ tasks tx PGID ≠ []) then pid_setsid CONFIG_DEBUG_REFCOUNT s t = Ok (- EPERM, s)
  else ∃ s', pid_setsid CONFIG_DEBUG_REFCOUNT s t = Ok (nr tx, s') ∧ pids_ok s' ∧ regroup (tobjs s) (tobjs s') x [PGID; SID] x.
Proof.
  intros (Hok&Htight&Hpol) Hr Ht Ex Hx. unfold pid_setsid. rewrite (proj1 Ht). cbn [deref res_bind]. rewrite Ex. cbn [deref res_bind]. rewrite Hx. cbn [deref res_bind].
  case_decide as Hd.
  { destruct Hd as [Hd|Hd]; [by rewrite bool_decide_true|]. rewrite (bool_decide_false (tasks tx PGID = [])) by done. by rewrite orb_true_r. }
  apply Decidable.not_or in Hd as [Hns Hnone]. apply dec_stable in Hnone. rewrite bool_decide_false, bool_decide_true by done. cbn [negb orb].
  destruct (linked_pid _ s t tk PGID Hok Hpol Ht) as (og&pog&Eog&Hog). destruct (linked_pid _ s t tk SID Hok Hpol Ht) as (os&pos&Eos&Hos).
  rewrite Eog, Eos. cbn [deref res_bind].
  destruct (get_put_ids _ s og (Z.of_nat (2 * size (tobjs s)) + 1) Hok) as (s1&->&Hok1&Hr1&Ht1&Hb1&Hf1); [eauto|by rewrite <-Z.add_assoc|lia|]. cbn [res_bind].
  destruct (Hf1 os pos Hos) as (pos1&Hos1&_).
  destruct (get_put_ids _ s1 os (Z.of_nat (2 * size (tobjs s))) Hok1) as (s2&->&Hok2&Hr2&Ht2&Hb2&Hf2); [eauto|done|lia|]. cbn [res_bind].
  destruct (Hf1 x tx Hx) as (tx1&Htx1&_&Hh1&Hts1). destruct (Hf2 x tx1 Htx1) as (tx2&Htx2&_&Hh2&Hts2).
  replace (tasks tx TGID) with (tasks tx2 TGID) by congruence. pose proof (tight_same _ _ _ (tight_same _ _ _ Htight Hb1) Hb2) as Htight2.
  assert (tobjs s2 = tobjs s) as Hts by congruence.
  destruct (change_group_spec _ s2 x x [PGID; SID] tx2 tx2 0 Hok2 Htight2) as (s3&E3&Hok3&Ht3&_&_&Hre); try done.
  - by rewrite Hts.
  - intros y q Hy. specialize (Hr2 y q Hy). rewrite Hts. cbn [length]. nia.
  - apply base.NoDup_cons_2; [set_solver|apply NoDup_singleton].
  - rewrite Hh2, Hh1. destruct (i_pid _ _ Hok x tx Hx) as [_ _ Hin Hl]. apply (Hl TGID). intros E.
    assert (t ∈ tasks tx TGID) as Hmem; [|by rewrite E, elem_of_nil in Hmem]. apply Hin. exists tk. destruct Ht as [Ht Hlt]. by rewrite (g_whole _ Hpol t tk TGID Ht).
  - rewrite Hts. intros u uk Hu Hux. by apply (setsid_movable s t tk x tx og os u uk).
  - cbn [fmap list_fmap] in E3. rewrite E3. cbn [res_bind]. rewrite Hts in Hre.
    assert (pol (tobjs s3)) as Hpol3.
    { apply (pol_regroup (tobjs s) (tobjs s3) x [PGID; SID] x (Some x) Hpol); [set_solver..|done| |].
      - intros u uk uk' _ _ (H&_). rewrite H, decide_True by set_solver. done.
      - intros u uk [Hu Hlu] Hne Hor. exfalso. assert (u ∈ tasks tx PGID) as Hin; [|by rewrite Hnone, elem_of_nil in Hin].
        apply (p_tasks _ _ _ _ (i_pid _ _ Hok x tx Hx)). exists uk. split; [done|]. split; [by rewrite (g_whole _ Hpol u uk PGID Hu)|]. naive_solver. }
    destruct (pid_put_spec CONFIG_DEBUG_REFCOUNT _ s3 os None Hok3 Ht3) as (s4&->&Hok4&Ht4&E4&_); [done|]. cbn [res_bind]. rewrite <-E4 in Hpol3.
    destruct (put_back s4 og Hok4 Ht4 Hpol3) as (s5&->&Hok5&E5). cbn [res_bind]. exists s5. split; [done|]. split; [done|]. by rewrite E5, E4.
Qed.
End calls.

(** ** Publishing a task and taking it back *)

(** [tk] with the links of the types [tys] set to [b]. *)
Definition relinked (tk : task) (tys : list pid_type) (b : bool) (tk' : task) : Prop :=
  (∀ k, linked tk' k = if decide (k ∈ tys) then b else linked tk k) ∧ pids tk' = pids tk ∧ parent tk' = parent tk ∧ forknoexec tk' = forknoexec tk.

Lemma relinked_cons tk ty tys b tk' : relinked (with_linked (upd (linked tk) ty b) tk) tys b tk' → relinked tk (ty :: tys) b tk'.
Proof.
  intros (H1&H2&H3&H4). split; [|by rewrite H2, H3, H4]. intros k. rewrite H1. cbn [with_linked linked]. unfold upd.
  repeat case_decide; try done; exfalso; set_solver.
Qed.

Lemma task_pid ext s t tk ty x : base_ok ext s → tobjs s !! t = Some tk → pids tk ty = Some x → is_Some (pobjs s !! x).
Proof. intros Hok Ht Hx. apply (i_live _ _ Hok). right. exists t, ty. unfold pid_of. by rewrite Ht. Qed.

Lemma publish_loop_spec ext t tys s tk :
  base_ok ext s → tight_but None s → tobjs s !! t = Some tk → NoDup tys → (∀ ty, ty ∈ tys → linked tk ty = false ∧ is_Some (pids tk ty)) →
  ∃ s' tk', publish_loop s t tys = Ok s' ∧ base_ok ext s' ∧ tight_but None s' ∧ tobjs s' = <[t := tk']> (tobjs s) ∧ relinked tk tys true tk'.
Proof.
  intros Hok Ht Htk Hnd Hun. revert s tk Hok Ht Htk Hun. induction Hnd as [|ty tys Hnew Hnd IH]; intros s tk Hok Ht Htk Hun.
  { exists s, tk. split; [done|]. split; [done|]. split; [done|]. split; [by rewrite insert_id|]. split; [|done]. intros k. by rewrite decide_False by set_solver. }
  destruct (Hun ty ltac:(by left)) as (Hl&x&Hx). destruct (task_pid _ _ _ _ _ _ Hok Htk Hx) as [p Hp].
  cbn [publish_loop]. unfold get_pid. rewrite Htk. cbn [deref res_bind]. rewrite Hl, Hx. cbn [negb Assert deref res_bind]. rewrite Hp. cbn [deref res_bind].
  set (s1 := if negb (hashed p) then hash_add s x p else s).
  assert (base_ok ext s1 ∧ pobjs s1 !! x = Some (with_hashed true p) ∧ tobjs s1 = tobjs s ∧ tight_but (Some x) s1) as (Hok1&Hp1&Hts1&T1).
  { unfold s1. destruct (hashed p) eqn:Eh; cbn [negb].
    - split; [done|]. split; [rewrite Hp; by destruct p; cbn in *; subst|]. split; [done|]. intros y q _ Hy. by apply (Ht y q).
    - split; [by apply pid_hash_add_spec|]. split; [apply lookup_insert_eq|]. split; [done|]. intros y q Hne. unfold hash_add. cbn [put_bucket put_pid pobjs]. intros [[<- <-]|[_ Hy]]%lookup_insert_Some; [done|by apply (Ht y q)]. }
  rewrite <-Hts1 in Htk. destruct (link_add_spec ext s1 t tk ty x _ Hok1 Htk Hl Hx Hp1 eq_refl) as [-> Hok2]. cbn [res_bind].
  set (s2 := put_task (put_pid s1 x _) t _) in *. set (tk2 := with_linked (upd (linked tk) ty true) tk) in *.
  destruct (IH s2 tk2 Hok2) as (s'&tk'&E&Hok'&Ht'&Hts'&Hre).
  - intros y q _. cbn [s2 put_task put_pid pobjs]. intros [[<- <-]|[Hne Hy]]%lookup_insert_Some Hh; [exists ty; cbn; unfold upd; by rewrite decide_True|apply (T1 y q); [congruence|done..]].
  - apply lookup_insert_eq.
  - intros k Hk. cbn [tk2 with_linked linked pids]. unfold upd. rewrite decide_False by (intros ->; done). apply Hun. by right.
  - exists s', tk'. split; [done|]. split; [done|]. split; [done|]. split; [|by apply relinked_cons].
    rewrite Hts'. cbn [s2 put_task put_pid tobjs]. by rewrite insert_insert_eq, Hts1.
Qed.

Lemma unpublish_loop_spec ext t tys s tk :
  base_ok ext s → tight_but None s → tobjs s !! t = Some tk → NoDup tys → (∀ ty, ty ∈ tys → linked tk ty = true) →
  ∃ s' tk', unpublish_loop s t tys = Ok s' ∧ base_ok ext s' ∧ tight_but None s' ∧ tobjs s' = <[t := tk']> (tobjs s) ∧ relinked tk tys false tk'.
Proof.
  intros Hok Ht Htk Hnd Hln. revert s tk Hok Ht Htk Hln. induction Hnd as [|ty tys Hnew Hnd IH]; intros s tk Hok Ht Htk Hln.
  { exists s, tk. split; [done|]. split; [done|]. split; [done|]. split; [by rewrite insert_id|]. split; [|done]. intros k. by rewrite decide_False by set_solver. }
  pose proof (Hln ty ltac:(by left)) as Hl. destruct (i_linked _ _ Hok t tk ty Htk Hl) as [x Hx].
  cbn [unpublish_loop]. destruct (link_del_spec ext s t tk ty x Hok Htk Hl Hx) as (p&Hp&->&Hok1). cbn [res_bind].
  set (s1 := put_task (put_pid s x _) t _) in *. set (tk1 := with_linked (upd (linked tk) ty false) tk) in *.
  assert (tobjs s1 !! t = Some tk1) as Htk1 by apply lookup_insert_eq. rewrite Htk1. cbn [deref res_bind]. change (pids tk1 ty) with (pids tk ty). rewrite Hx. cbn [deref res_bind].
  edestruct (unhash_unused_spec ext s1 x) as (s2&->&Hok2&T2&Hts2&_); [done|apply lookup_insert_eq| |].
  { intros y q Hne. cbn [s1 put_task put_pid pobjs]. intros [[<- <-]|[_ Hy]]%lookup_insert_Some; [done|by apply (Ht y q)]. }
  cbn [res_bind]. destruct (IH s2 tk1 Hok2 T2) as (s'&tk'&E&Hok'&Ht'&Hts'&Hre).
  - by rewrite Hts2.
  - intros k Hk. cbn [tk1 with_linked linked]. unfold upd. rewrite decide_False by (intros ->; done). apply Hln. by right.
  - exists s', tk'. split; [done|]. split; [done|]. split; [done|]. split; [|by apply relinked_cons].
    rewrite Hts', Hts2. cbn [s1 put_task put_pid tobjs]. by rewrite insert_insert_eq.
Qed.

Lemma all_types_nodup : NoDup pid_types.
Proof. repeat (apply base.NoDup_cons_2; [set_solver|]). constructor. Qed.

Lemma all_types ty : ty ∈ pid_types.
Proof. destruct ty; set_solver. Qed.

Lemma relinked_all tk b tk' : relinked tk pid_types b tk' → (∀ k, linked tk' k = b) ∧ pids tk' = pids tk.
Proof. intros (H1&H2&_). split; [|done]. intros k. rewrite H1, decide_True; [done|apply all_types]. Qed.

(** [pid_unpublish] takes a published task off all its lists. *)
Lemma pid_unpublish_spec s t tk :
  pids_ok s → pub (tobjs s) t tk →
  ∃ s' tk', pid_unpublish s t = Ok s' ∧ pids_ok s' ∧ tobjs s' = <[t := tk']> (tobjs s) ∧ relinked tk pid_types false tk'.
Proof.
  intros (Hok&Ht&Hpol) [Htk Hl]. unfold pid_unpublish. rewrite Htk. cbn [deref res_bind]. rewrite Hl. cbn [Assert res_bind].
  destruct (unpublish_loop_spec _ t pid_types s tk Hok Ht Htk all_types_nodup) as (s'&tk'&->&Hok'&Ht'&Hts&Hre); [intros ty _; by rewrite (g_whole _ Hpol t tk ty Htk)|].
  exists s', tk'. split; [done|]. split; [|done]. split; [done|]. split; [done|]. rewrite Hts. apply relinked_all in Hre as [Hno _].
  assert (∀ u uk, pub (<[t := tk']> (tobjs s)) u uk → pub (tobjs s) u uk) as Hsub by (intros u uk [[[<- <-]|[_ Hu]]%lookup_insert_Some Hlu]; [by rewrite Hno in Hlu|done]).
  split.
  - intros u uk ty [[<- <-]|[_ Hu]]%lookup_insert_Some; [by rewrite !Hno|by apply (g_whole _ Hpol u)].
  - intros u uk v vk Hu Hv. by apply (g_threads _ Hpol u uk v vk); apply Hsub.
  - intros u uk v vk Hu Hv. by apply (g_group _ Hpol u uk v vk); apply Hsub.
  - intros u uk v vk Hu Hv. by apply (g_leader _ Hpol u uk v vk); apply Hsub.
Qed.

(** The group and session of [tk] agree with those of the published tasks. *)
Definition fits (m : gmap nat task) (tk : task) : Prop :=
  ∀ u uk, pub m u uk → (pids tk TGID = pids uk TGID → pids tk PGID = pids uk PGID) ∧
    (pids tk TGID = pids uk TGID ∨ pids tk PGID = pids uk PGID ∨ pids tk PGID = pids uk TGID ∨ pids uk PGID = pids tk TGID → pids tk SID = pids uk SID).

Lemma pol_publish m t tk tk' :
  pol m → m !! t = Some tk → linked tk TID = false → fits m tk → (∀ k, linked tk' k = true) → pids tk' = pids tk → pol (<[t := tk']> m).
Proof.
  intros Hpol Ht Hl Hfit Hon Hp.
  split.
  - intros u uk ty [[<- <-]|[_ Hu]]%lookup_insert_Some; [by rewrite !Hon|by apply (g_whole _ Hpol u)].
  - intros u uk v vk [[[<- <-]|[Hu0 Hu]]%lookup_insert_Some Hlu] [[[<- <-]|[Hv0 Hv]]%lookup_insert_Some Hlv] E; rewrite ?Hp in *; [done| | |by apply (g_threads _ Hpol u uk v vk)].
    + destruct (Hfit v vk (conj Hv Hlv)) as [H1 H2]. auto.
    + destruct (Hfit u uk (conj Hu Hlu)) as [H1 H2]. symmetry in E. split; symmetry; auto.
  - intros u uk v vk [[[<- <-]|[Hu0 Hu]]%lookup_insert_Some Hlu] [[[<- <-]|[Hv0 Hv]]%lookup_insert_Some Hlv] E; rewrite ?Hp in *; [done| | |by apply (g_group _ Hpol u uk v vk)].
    + apply (Hfit v vk (conj Hv Hlv)). auto.
    + symmetry. apply (Hfit u uk (conj Hu Hlu)). auto.
  - intros u uk v vk [[[<- <-]|[Hu0 Hu]]%lookup_insert_Some Hlu] [[[<- <-]|[Hv0 Hv]]%lookup_insert_Some Hlv] E; rewrite ?Hp in *; [done| | |by apply (g_leader _ Hpol u uk v vk)].
    + apply (Hfit v vk (conj Hv Hlv)). auto.
    + symmetry. apply (Hfit u uk (conj Hu Hlu)). auto.
Qed.

(** [pid_publish] puts a prepared task on all its lists; groups stay within sessions
    if the task's group and session, copied when it was prepared, still fit. *)
Lemma pid_publish_spec s t tk x p :
  pids_ok s → tobjs s !! t = Some tk → is_Some (parent tk) → (∀ ty, linked tk ty = false ∧ is_Some (pids tk ty)) →
  pids tk TID = Some x → pobjs s !! x = Some p → tasks p TID = [] → fits (tobjs s) tk →
  ∃ s' tk', pid_publish s t = Ok s' ∧ pids_ok s' ∧ tobjs s' = <[t := tk']> (tobjs s) ∧ relinked tk pid_types true tk'.
Proof.
  intros (Hok&Ht&Hpol) Htk [par Hpar] Hun Hx Hp Hnone Hfit. unfold pid_publish, get_pid. rewrite Htk. cbn [deref res_bind]. rewrite Hpar, Hx. cbn [deref res_bind].
  rewrite Hp. cbn [deref res_bind]. rewrite bool_decide_true by done. cbn [Assert res_bind].
  destruct (publish_loop_spec _ t pid_types s tk Hok Ht Htk all_types_nodup) as (s'&tk'&->&Hok'&Ht'&Hts&Hre); [intros ty _; apply Hun|].
  exists s', tk'. split; [done|]. split; [|done]. split; [done|]. split; [done|]. rewrite Hts. pose proof (relinked_all _ _ _ Hre) as [Hon Hpids].
  apply (pol_publish _ _ tk); try done. apply Hun.
Qed.

(** ** Numbers are given out cyclically and never twice *)

Definition taken (s : ids) (n : Z) : Prop := ∃ x p, pobjs s !! x = Some p ∧ nr p = n.
(** From [next_pid] upwards and round, [j] comes before [n]. *)
Definition passed (s : ids) (n j : Z) : Prop := next_pid s ≤ j < n ∨ n < next_pid s ∧ (next_pid s ≤ j ∨ j < n).

Lemma free_taken ext s n : base_ok ext s → PID_INIT ≤ n < PID_MAX → bit (pidmap s) n = true ↔ taken s n.
Proof. intros Hok Hn. unfold PID_INIT in Hn. rewrite (i_bit _ _ Hok) by lia. split; [intros [?|?]; [lia|done]|by right]. Qed.

Lemma base_new ext s n map' np :
  base_ok ext s → PID_INIT ≤ n < PID_MAX → ¬ taken s n → updates (pidmap s) n true map' → PID_INIT ≤ np < PID_MAX →
  base_ok (ext_add (next s) ext) (Ids map' np (<[next s := Pid 1 n false (λ _, [])]> (pobjs s)) (tobjs s) (table s) (S (next s))).
Proof.
  intros [H1 H2 H3 H4 H5 H6 H7 H8 H9] Hn Hfree (Hw&Hb&Hbit) Hnp. set (x := next s).
  assert (pobjs s !! x = None) as Hx by (apply eq_None_not_Some; intros Hx; apply H6 in Hx; unfold x in *; lia).
  assert (∀ t ty, pid_of (tobjs s) t ty ≠ Some x) as Hno.
  { intros t ty Hp. destruct (H5 x) as [p Hp']; [right; eauto|]. congruence. }
  assert (ext x = 0%nat) as He0 by (destruct (ext x) eqn:E; [done|]; destruct (H5 x) as [p Hp]; [left; lia|congruence]).
  split; cbn [pidmap next_pid pobjs tobjs table next].
  - split; [done|]. rewrite Hb. apply H1.
  - done.
  - intros m Hm. rewrite Hbit by lia. destruct (Z.eqb_spec m n) as [->|Hne].
    + split; [|done]. intros _. right. exists x. eexists. by rewrite lookup_insert_eq.
    + rewrite (H3 m Hm). f_equiv. split; intros (y&q&Hy&Hq).
      * exists y, q. rewrite lookup_insert_ne; [done|]. intros ->. congruence.
      * apply lookup_insert_Some in Hy as [[<- <-]|[_ Hy]]; [done|eauto].
  - intros y q [[<- <-]|[Hne Hy]]%lookup_insert_Some.
    + split; [done| | |intros ty; split; [constructor|done]].
      * cbn [refcount]. assert (holders (tobjs s) x = ∅) as ->; [|rewrite size_empty; unfold ext_add; rewrite decide_True by done; lia].
        apply set_eq. intros [t ty]. rewrite elem_holders. split; [intros Hp; by apply Hno in Hp|by intros ?%not_elem_of_empty].
      * intros t ty. cbn [tasks]. rewrite elem_of_nil. split; [done|]. intros (tk&Ht&_&Hp). apply (Hno t ty). unfold pid_of. by rewrite Ht.
    + destruct (H4 y q Hy) as [Ha Hc Hd Hl]. split; [done| |done..]. unfold ext_add. by rewrite decide_False.
  - intros y Hy. rewrite lookup_insert_is_Some'. destruct (decide (x = y)) as [|Hne]; [by left|right]. apply H5. unfold ext_add in Hy. by rewrite decide_False in Hy.
  - intros y [<-|Hy]%lookup_insert_is_Some'; [unfold x; lia|]. apply H6 in Hy. lia.
  - intros y z q r [[<- <-]|[Hy1 Hy]]%lookup_insert_Some [[<- <-]|[Hz1 Hz]]%lookup_insert_Some Hnr; [done| | |by apply (H7 y z q r)].
    + destruct Hfree. by exists z, r.
    + destruct Hfree. by exists y, q.
  - intros b y. rewrite (H8 b y). split; intros (q&Hy&?&?).
    + exists q. rewrite lookup_insert_ne; [done|]. intros ->. congruence.
    + apply lookup_insert_Some in Hy as [[<- <-]|[_ Hy]]; [done|eauto].
  - done.
Qed.

(** [pid_alloc] fails only without memory ([-ENOMEM]) or when all the numbers from
    1 to 32767 are in use ([-EAGAIN]), changing nothing; otherwise the new id has a
    number in that range that no id has, the first free one cyclically from where the
    last search ended, and it comes with one reference, the caller's. *)
Theorem pid_alloc_spec ext alloc s :
  base_ok ext s →
  alloc = false ∧ pid_alloc alloc s = Ok (- ENOMEM, None, s) ∨
  alloc = true ∧ pid_alloc alloc s = Ok (- EAGAIN, None, s) ∧ (∀ n, PID_INIT ≤ n < PID_MAX → taken s n) ∨
  ∃ n s', alloc = true ∧ pid_alloc alloc s = Ok (0, Some (next s), s') ∧ PID_INIT ≤ n < PID_MAX ∧ ¬ taken s n ∧
    (∀ j, PID_INIT ≤ j < PID_MAX → passed s n j → taken s j) ∧
    pobjs s' = <[next s := Pid 1 n false (λ _, [])]> (pobjs s) ∧ tobjs s' = tobjs s ∧ base_ok (ext_add (next s) ext) s'.
Proof.
  intros Hok. unfold pid_alloc. destruct alloc; cbn [negb]; [right|by left]. pose proof (i_map _ _ Hok) as [Hw Hb]. pose proof (i_next_pid _ _ Hok) as Hnp.
  unfold PID_INIT in Hnp.
  assert (∀ n, PID_INIT ≤ n < PID_MAX → bit (pidmap s) n = false → ∃ map', set_bit n (pidmap s) = Ok map' ∧ ¬ taken s n ∧
    base_ok (ext_add (next s) ext) (Ids map' (if n + 1 =? PID_MAX then PID_INIT else n + 1) (<[next s := Pid 1 n false (λ _, [])]> (pobjs s)) (tobjs s) (table s) (S (next s)))) as Hset.
  { intros n Hn Hf. assert (¬ taken s n) as Hfree by (rewrite <-(free_taken ext s n Hok Hn); congruence). unfold PID_INIT in Hn.
    destruct (set_bit_spec (pidmap s) n) as (map'&E&Hup); [lia|done|]. exists map'. split; [done|]. split; [done|].
    apply base_new; [done..|]. destruct (Z.eqb_spec (n + 1) PID_MAX); unfold PID_INIT, PID_MAX in *; lia. }
  destruct (find_next_spec (pidmap s) PID_MAX (next_pid s)) as [(r&->&Hall&Hr) _]; [lia|lia|]. cbn [res_bind].
  destruct (Z.eqb_spec r PID_MAX) as [->|Hne]; cbn [res_bind].
  - destruct (find_next_spec (pidmap s) (next_pid s) PID_INIT) as [(r2&->&Hall2&Hr2) _]; [done|lia|]. cbn [res_bind].
    destruct (Z.eqb_spec r2 (next_pid s)) as [->|Hne2]; cbn [res_bind].
    + left. split; [done|]. split; [done|]. intros n Hn. apply (free_taken ext s n Hok Hn). destruct (decide (n < next_pid s)); [apply Hall2; lia|apply Hall; lia].
    + destruct Hr2 as [[Hr2 Hf]|?]; [|done]. right. destruct (Hset r2 ltac:(lia) Hf) as (map'&->&Hfree&Hok'). cbn [res_bind].
      exists r2. eexists. split_and!; [done|done|lia|lia|done| |done|done|done]. intros j Hj Hp. apply (free_taken ext s j Hok Hj).
      unfold passed in Hp. destruct (decide (j < next_pid s)); [apply Hall2; lia|apply Hall; lia].
  - destruct Hr as [[Hr Hf]|?]; [|done]. right. destruct (Hset r ltac:(unfold PID_INIT; lia) Hf) as (map'&->&Hfree&Hok'). cbn [res_bind].
    exists r. eexists. split_and!; [done|done|unfold PID_INIT; lia|lia|done| |done|done|done]. intros j Hj Hp. apply (free_taken ext s j Hok Hj).
    unfold passed in Hp. apply Hall; lia.
Qed.

(** ** Two processes: process 1, which leads group and session 1, and its child 2 in them *)

Definition all_on : pid_type → bool := λ _, true.
Definition two_tasks : gmap nat task := {[ 10%nat := Task (λ _, Some 1%nat) all_on None false;
  20%nat := Task (λ ty, match ty with TID | TGID => Some 2%nat | _ => Some 1%nat end) all_on (Some 10%nat) true ]}.
Definition two_pids : gmap nat pid := {[ 1%nat := Pid 6 1 true (λ ty, match ty with TID | TGID => [10%nat] | _ => [20%nat; 10%nat] end);
  2%nat := Pid 2 2 true (λ ty, match ty with TID | TGID => [20%nat] | _ => [] end) ]}.
Definition two : ids := Ids (7 :: replicate 511 0) 3 two_pids two_tasks {[ slot 1 := [1%nat]; slot 2 := [2%nat] ]} 3.

Lemma two_pid x p : two_pids !! x = Some p → x = 1%nat ∧ p = Pid 6 1 true (λ ty, match ty with TID | TGID => [10%nat] | _ => [20%nat; 10%nat] end) ∨
  x = 2%nat ∧ p = Pid 2 2 true (λ ty, match ty with TID | TGID => [20%nat] | _ => [] end).
Proof. unfold two_pids. intros [[<- <-]|[_ Hp]]%lookup_insert_Some; [by left|]. apply lookup_singleton_Some in Hp as [<- <-]. by right. Qed.

Lemma two_task t tk : two_tasks !! t = Some tk → t = 10%nat ∧ tk = Task (λ _, Some 1%nat) all_on None false ∨
  t = 20%nat ∧ tk = Task (λ ty, match ty with TID | TGID => Some 2%nat | _ => Some 1%nat end) all_on (Some 10%nat) true.
Proof. unfold two_tasks. intros [[<- <-]|[_ Hp]]%lookup_insert_Some; [by left|]. apply lookup_singleton_Some in Hp as [<- <-]. by right. Qed.

Lemma two_bit n : 0 ≤ n < PID_MAX → bit (7 :: replicate 511 0) n = (n <? 3).
Proof.
  intros Hn. unfold bit, BIT_WORD. change BITS_PER_LONG with 64. destruct (decide (n < 64)) as [Hlt|Hge].
  - rewrite Z.div_small, Z.mod_small by lia.
    change (Z.testbit 7 n = (n <? 3)). destruct (decide (n < 3)) as [H3|H3]; [|rewrite (proj2 (Z.ltb_ge n 3)), (Z.bits_above_log2 7 n) by (cbn; lia); done].
    assert (n = 0 ∨ n = 1 ∨ n = 2) as [->|[->| ->]] by lia; done.
  - rewrite (proj2 (Z.ltb_ge n 3)) by lia. assert (1 ≤ n / 64) by (apply Z.div_le_lower_bound; lia).
    replace (Z.to_nat (n / 64)) with (S (Z.to_nat (n / 64 - 1))) by lia. cbn [lookup list_lookup].
    destruct (replicate 511 0 !! _) as [w|] eqn:E; cbn [default from_option id]; [|apply Z.bits_0]. apply lookup_replicate in E as [-> _]. apply Z.bits_0.
Qed.

Lemma two_base : base_ok (λ _, 0%nat) two.
Proof.
  split; cbn [two pidmap next_pid pobjs tobjs next].
  - split; [|done]. unfold words. constructor; [done|]. by apply Forall_replicate.
  - done.
  - intros n Hn. rewrite two_bit by done. rewrite Z.ltb_lt. split.
    + intros H3. assert (n = 0 ∨ n = 1 ∨ n = 2) as [->|[->| ->]] by lia; [by left|right; exists 1%nat; by eexists|right; exists 2%nat; by eexists].
    + intros [->|(x&p&[[-> ->]|[-> ->]]%two_pid&<-)]; done.
  - intros x p [[-> ->]|[-> ->]]%two_pid; (split; [done|by vm_compute| |]).
    1,3: intros t ty; split;
      [intros Ht; destruct ty; cbn in Ht; rewrite ?elem_of_cons, ?elem_of_nil in Ht; (repeat destruct Ht as [->|Ht]); try done; by eexists
      |intros (tk&[[-> ->]|[-> ->]]%two_task&_&Hp); destruct ty; cbn in *; try done; set_solver].
    all: intros ty; split; [|done]; destruct ty; cbn; repeat constructor; set_solver.
  - intros x [Hx|(t&ty&Hp)]; [lia|]. unfold pid_of in Hp. destruct (two_tasks !! t) as [tk|] eqn:E; [|done].
    apply two_task in E as [[-> ->]|[-> ->]]; cbn in Hp; destruct ty; injection Hp as <-; by eexists.
  - intros x [p [[-> ->]|[-> ->]]%two_pid]; lia.
  - intros x y p q [[-> ->]|[-> ->]]%two_pid [[-> ->]|[-> ->]]%two_pid; done.
  - intros b x. assert (slot 1 ≠ slot 2) as Hne by (by vm_compute). unfold bucket. cbn [two table]. split.
    + destruct (decide (b = slot 1)) as [->|H1]; [rewrite lookup_insert_eq|rewrite lookup_insert_ne by done].
      * cbn [default from_option id]. intros ->%list_elem_of_singleton. by eexists.
      * destruct (decide (b = slot 2)) as [->|H2]; [rewrite lookup_singleton_eq|by rewrite lookup_singleton_ne by done; intros ?%elem_of_nil].
        cbn [default from_option id]. intros ->%list_elem_of_singleton. by eexists.
    + intros (p&[[-> ->]|[-> ->]]%two_pid&_&->); cbn [nr]; [rewrite lookup_insert_eq; by left|].
      rewrite lookup_insert_ne by done. rewrite lookup_singleton_eq. by left.
  - intros t tk ty [[-> ->]|[-> ->]]%two_task _; [done|]. destruct ty; done.
Qed.

Lemma two_ok : pids_ok two.
Proof.
  split; [apply two_base|]. split.
  - intros x p _ [[-> ->]|[-> ->]]%two_pid _; by exists TID.
  - split.
    + intros t tk ty [[-> ->]|[-> ->]]%two_task; done.
    + intros t tk u uk [[[-> ->]|[-> ->]]%two_task _] [[[-> ->]|[-> ->]]%two_task _]; done.
    + intros t tk u uk [[[-> ->]|[-> ->]]%two_task _] [[[-> ->]|[-> ->]]%two_task _]; done.
    + intros t tk u uk [[[-> ->]|[-> ->]]%two_task _] [[[-> ->]|[-> ->]]%two_task _]; done.
Qed.

Lemma two_room : room (Z.of_nat (2 * size (tobjs two)) + 2) two.
Proof. intros x p [[-> ->]|[-> ->]]%two_pid; by vm_compute. Qed.

(** Process 2 makes its own group. *)
Lemma sys_setpgid_spec_witness :
  ∃ s', sys_setpgid true two 20 0 0 = Ok (0, s') ∧ pids_ok s' ∧
    group_set two s' 20 (Task (λ ty, match ty with TID | TGID => Some 2%nat | _ => Some 1%nat end) all_on (Some 10%nat) true) 0 0.
Proof.
  destruct (sys_setpgid_spec true two 20 (Task (λ ty, match ty with TID | TGID => Some 2%nat | _ => Some 1%nat end) all_on (Some 10%nat) true) 0 0) as (num&ret&s'&E&Hok&_&_&H).
  - exact two_ok.
  - intros x p [[-> ->]|[-> ->]]%two_pid; by vm_compute.
  - done.
  - assert (∃ s', sys_setpgid true two 20 0 0 = Ok (0, s')) as [s0 E0] by (eexists; vm_compute; reflexivity).
    assert (ret = 0) as -> by (rewrite E0 in E; by injection E as <- _).
    exists s'. split; [exact E|]. split; [exact Hok|]. by rewrite decide_True in H.
Defined.

(** Process 2 starts a session; process 1 may not. *)
Lemma pid_setsid_spec_witness :
  pid_setsid true two 10 = Ok (- EPERM, two) ∧ ∃ s', pid_setsid true two 20 = Ok (2, s') ∧ pids_ok s'.
Proof.
  split.
  - assert (pub (tobjs two) 10 (Task (λ _, Some 1%nat) all_on None false)) as Hp by done.
    pose proof (pid_setsid_spec true two 10 _ 1 _ two_ok two_room Hp eq_refl eq_refl) as H. by rewrite decide_True in H by (by left).
  - assert (pub (tobjs two) 20 (Task (λ ty, match ty with TID | TGID => Some 2%nat | _ => Some 1%nat end) all_on (Some 10%nat) true)) as Hp by done.
    pose proof (pid_setsid_spec true two 20 _ 2 _ two_ok two_room Hp eq_refl eq_refl) as H. rewrite decide_False in H by (intros [?|?]; done).
    destruct H as (s'&E&Hok&_). by exists s'.
Defined.

Lemma pid_alloc_spec_witness : ∃ s', pid_alloc true two = Ok (0, Some 3%nat, s') ∧ base_ok (ext_add 3 (λ _, 0%nat)) s'.
Proof.
  destruct (pid_alloc_spec (λ _, 0%nat) true two two_base) as [[H _]|[(_&_&H)|(n&s'&_&E&_&_&_&_&_&Hok)]].
  - discriminate H.
  - exfalso. destruct (H 5 ltac:(done)) as (x&p&[[-> ->]|[-> ->]]%two_pid&Hn); discriminate Hn.
  - exists s'. split; [exact E|exact Hok].
Defined.

(** ** A fork that overlaps with calls of its relatives *)

Inductive event := Fork (t par : nat) | Publish (t : nat) | Setpgid (t : nat) (n pgid : Z) | Setsid (t : nat).

(** The part of [sys_clone] before [sched_publish], which takes [pid_lock] again: the ids are
    copied from the parent, which becomes the child's parent. *)
Definition clone_prepare (s : ids) (t par : nat) : res (Z * ids) :=
  let! (ret, s) := pid_prepare true true s t (Some par) in
  if truth ret then Ok (ret, s) else let! s := pid_reparent s t par in Ok (ret, s).

Definition occurs (s : ids) (e : event) : res (Z * ids) :=
  match e with
  | Fork t par => clone_prepare s t par
  | Publish t => let! s := pid_publish s t in Ok (0, s)
  | Setpgid t n pgid => sys_setpgid true s t n pgid
  | Setsid t => pid_setsid true s t
  end.
Fixpoint occur (s : ids) (es : list event) : res (list Z * ids) :=
  match es with
  | [] => Ok ([], s)
  | e :: es => let! (r, s) := occurs s e in let! (rs, s) := occur s es in Ok (r :: rs, s)
  end.

(** After start-up: process 1 is published, tasks 20, 30 and 40 are allocated. *)
Definition blank (t : nat) : task := Task (λ _, None) (λ _, false) (Some t) true.
Definition booted : res ids :=
  let s := Ids (1 :: replicate 511 0) PID_INIT ∅ {[ 10%nat := blank 10; 20%nat := blank 20; 30%nat := blank 30; 40%nat := blank 40 ]} ∅ 1 in
  let! (_, s) := pid_prepare true true s 10 None in pid_publish s 10.

(** C39: the ids of a new process are copied when it is prepared and used when it is
    published, without the lock in between.  Process 2 leads group 2; its child 3, in
    that group, is in [clone]; process 2 moves child 3 to a group of its own, itself to
    group 1, and, group 2 being empty, starts the session and group 2; then the new
    process is published: in group 2 still, and in session 1.  Every call succeeds and
    group 2 spans two sessions. *)
Theorem clone_race_splits_group :
  ∃ s0 s a b, booted = Ok s0 ∧
    occur s0 [Fork 20 10; Publish 20; Setpgid 20 0 0; Fork 30 20; Publish 30;
              Fork 40 30; Setpgid 20 3 3; Setpgid 20 0 1; Setsid 20; Publish 40] = Ok ([0; 0; 0; 0; 0; 0; 0; 0; 2; 0], s) ∧
    pub (tobjs s) 20 a ∧ pub (tobjs s) 40 b ∧ pids a PGID = Some 2%nat ∧ pids b PGID = Some 2%nat ∧ pids a SID = Some 2%nat ∧ pids b SID = Some 1%nat.
Proof. do 4 eexists. split; [vm_compute; reflexivity|]. split; [vm_compute; reflexivity|]. by vm_compute. Qed.
