(* ===== verification/Wait.v ===== *)
(** * Sleeping: [kernel/wait.c], [include/nuvix/wait.h], [kernel/mutex.c], [kernel/completion.c]

    A wait queue is a list of the tasks that wait, in order; the entry of a task is on
    the stack of its call, so a task is on a queue at most once.  Of a task only its
    scheduling state and its pending signals matter here; [sched_wake_view] below ties
    the state to the scheduler.  Everything between taking and releasing the lock of
    the queue is one step: a waiting call is a sequence of attempts, each one a step,
    with any steps of other tasks between them.

    Mutexes, completions and [wait_event] share their loop, which is proved once
    against an interface: something that can be taken a number of times.  The theorem
    is that no wake-up is lost; mutual exclusion and the counting of completions are
    proved on top of it. *)
From stdpp Require Import base tactics numbers list gmap.
From S2P Require Import Prelude Task Sched.

Record waitq := Waitq { waiters : list positive; states : positive → Z; pending : positive → bool * bool }.

Definition ERESTARTSYS : Z := 512.
Definition ETIMEDOUT : Z := 110.

Definition set_state (w : waitq) (t : positive) (st : Z) : waitq := Waitq (waiters w) (λ u, if decide (u = t) then st else states w u) (pending w).
Definition set_waiters (w : waitq) (l : list positive) : waitq := Waitq l (states w) (pending w).

(** [wake_task], as far as the state of the task goes. *)
Definition wake_state (w : waitq) (t : positive) (mask : Z) : bool * waitq :=
  if truth (Z.land mask (states w t)) then (true, set_state w t TASK_RUNNABLE) else (false, w).
Definition WAKE : Z := Z.lor TASK_NORMAL TASK_KILLABLE.
Definition wakes (w : waitq) (t : positive) : bool * waitq := wake_state w t WAKE.

(** [signal_pending_state]; the two flags are [signal_pending] and a pending [SIGKILL]. *)
Definition pending_state (w : waitq) (st : Z) (t : positive) : bool :=
  (truth (Z.land st TASK_INTERRUPTIBLE) && (pending w t).1) || (truth (Z.land st TASK_KILLABLE) && (pending w t).2).

Definition prepare_to_wait_locked (w : waitq) (t : positive) (st : Z) : waitq :=
  set_state (if decide (t ∈ waiters w) then w else set_waiters w (waiters w ++ [t])) t st.
Definition finish_wait_locked (w : waitq) (t : positive) : waitq :=
  if decide (t ∈ waiters w) then
    let w := (wakes w t).2 in set_waiters w (filter (λ u, u ≠ t) (waiters w))
  else w.
Fixpoint wake_one_loop (w : waitq) (l : list positive) : waitq :=
  match l with [] => w | t :: l => let '(woke, w) := wakes w t in if woke then w else wake_one_loop w l end.
Definition wake_up_one_locked (w : waitq) : waitq := wake_one_loop w (waiters w).
Definition wake_up_all_locked (w : waitq) : waitq := foldl (λ w t, (wakes w t).2) w (waiters w).

(** ** Mutexes *)

Record mutex := Mutex { m_wait : waitq; owner : option positive }.

(** One turn of the loop of [mutex_lock_state]: a result, or the task parks. *)
Definition mutex_lock_state (CONFIG_DEBUG_LOCK : bool) (m : mutex) (t : positive) (st : Z) : res (option Z * mutex) :=
  let w := finish_wait_locked (m_wait m) t in
  let! _ := if CONFIG_DEBUG_LOCK then Assert (negb (bool_decide (owner m = Some t))) else Ok () in
  match owner m with
  | None => Ok (Some 0, Mutex w (Some t))
  | Some _ => if pending_state w st t then Ok (Some (- EINTR), Mutex w (owner m)) else Ok (None, Mutex (prepare_to_wait_locked w t st) (owner m))
  end.
Definition mutex_trylock (m : mutex) (t : positive) : bool * mutex :=
  match owner m with None => (true, Mutex (m_wait m) (Some t)) | Some _ => (false, m) end.
Definition mutex_unlock (CONFIG_DEBUG_LOCK : bool) (m : mutex) (t : positive) : res mutex :=
  let! _ := if CONFIG_DEBUG_LOCK then Assert (bool_decide (owner m = Some t)) else Ok () in
  Ok (Mutex (wake_up_one_locked (m_wait m)) None).

(** ** Completions *)

Record completion := Completion { c_wait : waitq; done : Z }.

Definition take_completion_locked (d : Z) : bool * Z :=
  if d =? 0 then (false, d) else (true, if d =? UINT32_MAX then d else d - 1).
Definition complete (c : completion) : completion :=
  Completion (wake_up_one_locked (c_wait c)) (if done c =? UINT32_MAX then done c else done c + 1).
Definition complete_all (c : completion) : completion := Completion (wake_up_all_locked (c_wait c)) UINT32_MAX.
Definition reinit_completion (c : completion) : completion := Completion (c_wait c) 0.
Definition try_wait_for_completion (c : completion) : bool * completion :=
  let '(b, d) := take_completion_locked (done c) in (b, Completion (c_wait c) d).

(** One turn of the loop of [wait_for_completion_state]. *)
Definition wait_for_completion_state (c : completion) (t : positive) (st : Z) : option Z * completion :=
  let w := finish_wait_locked (c_wait c) t in
  let '(b, d) := take_completion_locked (done c) in
  if b then (Some 0, Completion w d) else
  if pending_state w st t then (Some (- ERESTARTSYS), Completion w d) else (None, Completion (prepare_to_wait_locked w t st) d).
(** One turn of the loop of [wait_for_completion_until], at the time [now]; [started] is
    what [timer_start] returns if it is called. *)
Definition wait_for_completion_until (c : completion) (t : positive) (now deadline : Z) (armed : bool) (started : Z) : option Z * bool * completion :=
  let w := finish_wait_locked (c_wait c) t in
  let '(b, d) := take_completion_locked (done c) in
  if b then (Some 0, armed, Completion w d) else
  if deadline <=? now then (Some (- ETIMEDOUT), armed, Completion w d) else
  if negb armed && truth started then (Some started, armed, Completion w d) else
  (None, true, Completion (prepare_to_wait_locked w t TASK_UNINTERRUPTIBLE) d).
(** A deadline that passes wakes the task under the lock. *)
Definition completion_timed_out (c : completion) (t : positive) : completion := Completion (wakes (c_wait c) t).2 (done c).

(** ** [wait_event]: one turn of the loop of [__wait_event] *)

Definition wait_event (w : waitq) (condition : bool) (t : positive) (st : Z) : option Z * waitq :=
  let w := finish_wait_locked w t in
  if condition then (Some 0, w) else if pending_state w st t then (Some (- ERESTARTSYS), w) else (None, prepare_to_wait_locked w t st).

(** ** The interface: something that can be taken a number of times *)

Class Waitable (R : Type) := { take : positive → R → option R; avail : R → Z }.
Class WaitableLaws (R : Type) `{Waitable R} := {
  take_none : ∀ t r, take t r = None → avail r ≤ 0;
  take_some : ∀ t r r', take t r = Some r' → avail r' ≤ avail r ∧ (avail r < UINT32_MAX → avail r' < avail r)
}.

(** The turn that the three loops share: take it, or leave, or park. *)
Definition attempt {R} `{Waitable R} (giveup : option Z) (st : Z) (t : positive) (w : waitq) (r : R) : option Z * waitq * R :=
  let w := finish_wait_locked w t in
  match take t r with
  | Some r => (Some 0, w, r)
  | None => match giveup with Some e => (Some e, w, r) | None => (None, prepare_to_wait_locked w t st, r) end
  end.

Definition sleeping (st : Z) : Prop := st = TASK_INTERRUPTIBLE ∨ st = TASK_UNINTERRUPTIBLE ∨ st = TASK_KILLABLE.
Definition awake (w : waitq) : list positive := filter (λ t, states w t = TASK_RUNNABLE) (waiters w).

(** *** Waking *)

Lemma wakes_sleeping w t : sleeping (states w t) → wakes w t = (true, set_state w t TASK_RUNNABLE).
Proof. intros [E|[E|E]]; unfold wakes, wake_state; by rewrite E. Qed.

Lemma wakes_runnable w t : states w t = TASK_RUNNABLE → wakes w t = (false, w).
Proof. intros E. unfold wakes, wake_state. by rewrite E. Qed.

Definition ready_or_sleeping (w : waitq) (l : list positive) : Prop := ∀ t, t ∈ l → states w t = TASK_RUNNABLE ∨ sleeping (states w t).

Lemma sleeping_not_runnable st : sleeping st → st ≠ TASK_RUNNABLE.
Proof. by intros [->|[->| ->]]. Qed.

Lemma wake_one_spec w l :
  ready_or_sleeping w l →
  (∀ t, t ∈ l → states w t = TASK_RUNNABLE) ∧ wake_one_loop w l = w ∨
  ∃ t, t ∈ l ∧ sleeping (states w t) ∧ wake_one_loop w l = set_state w t TASK_RUNNABLE.
Proof.
  induction l as [|t l IH]; intros Hl; [left; split; [intros t Ht; by apply elem_of_nil in Ht|done]|]. cbn [wake_one_loop].
  destruct (Hl t ltac:(by left)) as [E|E].
  - rewrite wakes_runnable by done. destruct IH as [[H1 H2]|(u&Hu&Hs&H2)]; [intros u Hu; apply Hl; by right| |].
    + left. split; [|done]. intros u [->|Hu]%elem_of_cons; auto.
    + right. exists u. split; [by right|done].
  - right. exists t. rewrite wakes_sleeping by done. split; [by left|done].
Qed.

Lemma wake_all_spec w l :
  ready_or_sleeping w l → let w' := foldl (λ w t, (wakes w t).2) w l in
  waiters w' = waiters w ∧ (∀ t, states w' t = if decide (t ∈ l) then TASK_RUNNABLE else states w t) ∧ pending w' = pending w.
Proof.
  revert w. induction l as [|t l IH]; intros w Hl; cbn [foldl]; [split; [done|split; [|done]]; intros t; by rewrite decide_False by apply not_elem_of_nil|].
  assert (∃ w1, (wakes w t).2 = w1 ∧ waiters w1 = waiters w ∧ (∀ u, states w1 u = if decide (u = t) then TASK_RUNNABLE else states w u) ∧ pending w1 = pending w) as (w1&->&E1&E2&E3).
  { destruct (Hl t ltac:(by left)) as [E|E].
    - exists w. rewrite wakes_runnable by done. split; [done|]. split; [done|]. split; [|done]. intros u. case_decide; [by subst|done].
    - eexists. rewrite wakes_sleeping by done. done. }
  destruct (IH w1) as (H1&H2&H3).
  - intros u Hu. rewrite E2. case_decide; [by left|]. apply Hl. by right.
  - rewrite H1, H3. split; [done|]. split; [|done]. intros u. rewrite H2, E2. repeat case_decide; try done; exfalso; set_solver.
Qed.

(** *** Counting the awake *)

Lemma split_waiter (l : list positive) t : NoDup l → t ∈ l → ∃ l1 l2, l = l1 ++ t :: l2 ∧ (t ∉ l1) ∧ (t ∉ l2).
Proof.
  intros Hnd (l1&l2&->)%list_elem_of_split. exists l1, l2. split; [done|]. apply NoDup_app in Hnd as (_&H1&H2).
  apply list.NoDup_cons in H2 as [H2 _]. split; [|done]. intros Ht. by apply (H1 t Ht); left.
Qed.

Lemma filter_other (l : list positive) t : t ∉ l → filter (λ u, u ≠ t) l = l.
Proof.
  induction l as [|x l IH]; [done|]. rewrite not_elem_of_cons, filter_cons. intros [Hx Hl]. rewrite decide_True by congruence. by rewrite IH.
Qed.

(** Waking a waiter that sleeps makes one more awake. *)
Lemma awake_wake w t : NoDup (waiters w) → t ∈ waiters w → states w t ≠ TASK_RUNNABLE → length (awake (set_state w t TASK_RUNNABLE)) = S (length (awake w)).
Proof.
  intros Hnd Ht Hs. unfold awake. cbn [set_state waiters states]. destruct (split_waiter _ t Hnd Ht) as (l1&l2&->&H1&H2).
  assert (∀ l : list positive, (t ∉ l) → filter (λ u, (if decide (u = t) then TASK_RUNNABLE else states w u) = TASK_RUNNABLE) l = filter (λ u, states w u = TASK_RUNNABLE) l) as Hext.
  { intros l Hl. apply filter_ext_in. intros x Hx. rewrite decide_False; [done|]. by intros ->. }
  rewrite !filter_app, !filter_cons, !length_app, !Hext by done. rewrite (decide_False (P := states w t = _)) by done.
  rewrite decide_True by (by rewrite decide_True by done). cbn [length]. lia.
Qed.

(** A waiter that is awake and leaves. *)
Lemma awake_leave w t : NoDup (waiters w) → t ∈ waiters w → states w t = TASK_RUNNABLE →
  length (awake w) = S (length (awake (set_waiters w (filter (λ u, u ≠ t) (waiters w))))).
Proof.
  intros Hnd Ht Hs. unfold awake. cbn [set_waiters waiters states]. destruct (split_waiter _ t Hnd Ht) as (l1&l2&->&H1&H2).
  rewrite !filter_app, !filter_cons, !length_app, !filter_other by done. rewrite (decide_True (P := states w t = _)) by done.
  rewrite decide_False by tauto. cbn [length]. lia.
Qed.

Lemma awake_all w : (∀ t, t ∈ waiters w → states w t = TASK_RUNNABLE) → awake w = waiters w.
Proof. intros H. unfold awake. rewrite (filter_ext_in _ (λ _, True)) by (intros x Hx; split; [done|intros _; by apply H]). induction (waiters w) as [|x l IH]; [done|]. rewrite filter_cons, decide_True by done. f_equal. apply IH. intros t Ht. apply H. by right. Qed.

(** ** Runs *)

Section runs.
Context {R : Type} `{WaitableLaws R}.

(** [calls]: the tasks inside a waiting call, with the state they sleep in. *)
Record sys := Sys { s_wait : waitq; s_res : R; calls : gmap positive Z }.

Definition after_attempt (s : sys) (t : positive) (st : Z) (giveup : option Z) : sys :=
  let '(ret, w, r) := attempt giveup st t (s_wait s) (s_res s) in
  Sys w r (match ret with Some _ => delete t (calls s) | None => <[t := st]> (calls s) end).

(** What can happen: a turn of a waiting call, a notification of one or all, something
    that takes without waiting, any wake-up, other tasks going their way, signals. *)
Inductive wstep (s : sys) : sys → Prop :=
  | W_attempt t st giveup : sleeping st → states (s_wait s) t = TASK_RUNNABLE → calls s !! t = None ∨ calls s !! t = Some st →
      Z.of_nat (length (waiters (s_wait s))) + 1 < UINT32_MAX → wstep s (after_attempt s t st giveup)
  | W_notify r : avail r ≤ avail (s_res s) + 1 → wstep s (Sys (wake_up_one_locked (s_wait s)) r (calls s))
  | W_notify_all r : wstep s (Sys (wake_up_all_locked (s_wait s)) r (calls s))
  | W_take r : avail r ≤ avail (s_res s) → wstep s (Sys (s_wait s) r (calls s))
  | W_wake t mask : wstep s (Sys (wake_state (s_wait s) t mask).2 (s_res s) (calls s))
  | W_other t st : calls s !! t = None → wstep s (Sys (set_state (s_wait s) t st) (s_res s) (calls s))
  | W_signal p : wstep s (Sys (Waitq (waiters (s_wait s)) (states (s_wait s)) p) (s_res s) (calls s)).

Record winv (s : sys) : Prop := {
  w_nodup : NoDup (waiters (s_wait s));
  w_calls : ∀ t, t ∈ waiters (s_wait s) ↔ is_Some (calls s !! t);
  w_state : ∀ t st, calls s !! t = Some st → sleeping st ∧ (states (s_wait s) t = TASK_RUNNABLE ∨ states (s_wait s) t = st);
  w_few : Z.of_nat (length (waiters (s_wait s))) < UINT32_MAX;
  w_lost : ∀ t, t ∈ waiters (s_wait s) → states (s_wait s) t ≠ TASK_RUNNABLE → avail (s_res s) ≤ Z.of_nat (length (awake (s_wait s)))
}.

Lemma winv_ready s : winv s → ready_or_sleeping (s_wait s) (waiters (s_wait s)).
Proof. intros Hi t Ht. apply (w_calls s Hi) in Ht as [st Ht]. destruct (w_state s Hi t st Ht) as [Hs [->| ->]]; auto. Qed.

Lemma awake_few w : (length (awake w) ≤ length (waiters w))%nat.
Proof. apply length_filter. Qed.

Lemma finish_spec w t :
  NoDup (waiters w) → states w t = TASK_RUNNABLE →
  let w' := set_waiters w (filter (λ u, u ≠ t) (waiters w)) in finish_wait_locked w t = w' ∧ (length (awake w) ≤ S (length (awake w')))%nat.
Proof.
  intros Hnd Hs. unfold finish_wait_locked. case_decide as Ht.
  - rewrite wakes_runnable by done. split; [done|]. by rewrite (awake_leave w t).
  - rewrite filter_other by done. split; [by destruct w|]. unfold awake. cbn [set_waiters waiters states]. lia.
Qed.

Lemma elem_rest (l : list positive) t u : u ∈ filter (λ v, v ≠ t) l ↔ u ≠ t ∧ u ∈ l.
Proof. by rewrite list_elem_of_filter. Qed.

Lemma leave_inv s t r :
  winv s → states (s_wait s) t = TASK_RUNNABLE → avail r ≤ 0 ∨ (avail (s_res s) < UINT32_MAX → avail r < avail (s_res s)) →
  winv (Sys (finish_wait_locked (s_wait s) t) r (delete t (calls s))).
Proof.
  intros Hi Hs Hr. destruct (finish_spec _ t (w_nodup s Hi) Hs) as [-> Ha]. destruct Hi as [H1 H2 H3 H4 H5]. split; cbn [s_wait s_res calls set_waiters waiters states].
  - by apply list.NoDup_filter.
  - intros u. rewrite elem_rest, H2. destruct (decide (u = t)) as [->|Hne]; [rewrite lookup_delete_eq; split; [tauto|by intros []]|rewrite lookup_delete_ne by done; tauto].
  - intros u st [_ Hu]%lookup_delete_Some. by apply H3.
  - pose proof (length_filter (λ u, u ≠ t) (waiters (s_wait s))). lia.
  - intros u [Hut Hu]%elem_rest Hst. destruct Hr as [Hr|Hr]; [lia|]. specialize (H5 u Hu Hst). pose proof (awake_few (s_wait s)).
    specialize (Hr ltac:(lia)). cbn [set_waiters] in Ha. lia.
Qed.

Lemma park_inv s t st :
  winv s → states (s_wait s) t = TASK_RUNNABLE → sleeping st → avail (s_res s) ≤ 0 → Z.of_nat (length (waiters (s_wait s))) + 1 < UINT32_MAX →
  winv (Sys (prepare_to_wait_locked (finish_wait_locked (s_wait s) t) t st) (s_res s) (<[t := st]> (calls s))).
Proof.
  intros Hi Hs Hst Hr Hfew. destruct (finish_spec _ t (w_nodup s Hi) Hs) as [-> _]. unfold prepare_to_wait_locked. cbn [set_waiters waiters].
  rewrite decide_False by (rewrite elem_rest; tauto). destruct Hi as [H1 H2 H3 H4 H5]. split; cbn [s_wait s_res calls set_state set_waiters waiters states].
  - apply NoDup_app. split; [by apply list.NoDup_filter|]. split; [intros u [? _]%elem_rest ->%list_elem_of_singleton; done|apply NoDup_singleton].
  - intros u. rewrite elem_of_app, elem_rest, list_elem_of_singleton, H2, lookup_insert_is_Some. destruct (decide (u = t)); naive_solver.
  - intros u k [[<- <-]|[Hne Hu]]%lookup_insert_Some; [rewrite decide_True by done; auto|]. rewrite decide_False by done. by apply H3.
  - rewrite length_app. pose proof (length_filter (λ u, u ≠ t) (waiters (s_wait s))). cbn [length]. lia.
  - intros u _ _. lia.
Qed.

Lemma attempt_inv s t st giveup :
  winv s → sleeping st → states (s_wait s) t = TASK_RUNNABLE → Z.of_nat (length (waiters (s_wait s))) + 1 < UINT32_MAX → winv (after_attempt s t st giveup).
Proof.
  intros Hi Hst Hs Hfew. unfold after_attempt, attempt. destruct (take t (s_res s)) as [r|] eqn:E.
  - apply leave_inv; [done..|]. right. by apply (take_some t).
  - apply take_none in E. destruct giveup as [e|]; [apply leave_inv; auto|by apply park_inv].
Qed.

(** A task's state changes to [TASK_RUNNABLE], at most. *)
Lemma wake_inv s t r :
  winv s → (states (s_wait s) t ≠ TASK_RUNNABLE ∧ t ∈ waiters (s_wait s) ∧ avail r ≤ avail (s_res s) + 1 ∨ avail r ≤ avail (s_res s)) →
  winv (Sys (set_state (s_wait s) t TASK_RUNNABLE) r (calls s)).
Proof.
  intros [H1 H2 H3 H4 H5] Hr. split; cbn [s_wait s_res calls set_state waiters states]; [done..| |done|].
  - intros u st Hu. destruct (H3 u st Hu) as [? ?]. split; [done|]. case_decide; [by left|done].
  - intros u Hu Hst. case_decide as Hut; [done|]. specialize (H5 u Hu Hst). destruct Hr as [(Hs&Ht&Hr)|Hr].
    + rewrite awake_wake by done. lia.
    + destruct (decide (t ∈ waiters (s_wait s) ∧ states (s_wait s) t ≠ TASK_RUNNABLE)) as [[Ht Hs]|Hn].
      * rewrite awake_wake by done. lia.
      * assert (awake (set_state (s_wait s) t TASK_RUNNABLE) = awake (s_wait s)) as E; [|rewrite E; lia].
        apply filter_ext_in. intros x Hx. cbn [set_state states]. case_decide; [|done]. subst x. destruct (decide (states (s_wait s) t = TASK_RUNNABLE)); tauto.
Qed.

Lemma wstep_inv s s' : winv s → wstep s s' → winv s'.
Proof.
  intros Hi [t st g Hst Hs _ Hfew|r Hr|r|r Hr|t mask|t st Ht|p].
  - by apply attempt_inv.
  - unfold wake_up_one_locked. destruct (wake_one_spec _ _ (winv_ready s Hi)) as [[Hall ->]|(t&Ht&Hst&->)].
    + destruct Hi as [H1 H2 H3 H4 H5]. split; [done..|]. cbn [s_wait]. intros t Ht Hs. by rewrite Hall in Hs.
    + apply wake_inv; [done|]. left. split; [by apply sleeping_not_runnable|done].
  - destruct (wake_all_spec _ _ (winv_ready s Hi)) as (E1&E2&_). fold (wake_up_all_locked (s_wait s)) in *. destruct Hi as [H1 H2 H3 H4 H5].
    split; cbn [s_wait s_res calls]; rewrite ?E1; [done..| |done|].
    + intros t st Ht. rewrite E2. destruct (H3 t st Ht). split; [done|]. case_decide; [by left|done].
    + intros t Ht. rewrite E2, decide_True by done. done.
  - destruct Hi as [H1 H2 H3 H4 H5]. split; [done..|]. cbn [s_wait s_res]. intros t Ht Hs. specialize (H5 t Ht Hs). lia.
  - unfold wake_state. destruct (truth _); [apply wake_inv; [done|right; lia]|by destruct s].
  - destruct Hi as [H1 H2 H3 H4 H5].
    assert (t ∉ waiters (s_wait s)) as Hno by (rewrite H2, Ht; by intros []).
    split; cbn [s_wait s_res calls set_state waiters states]; [done..| |done|].
    + intros u k Hu. rewrite decide_False by congruence. by apply H3.
    + intros u Hu. rewrite decide_False by (intros ->; done). intros Hst. specialize (H5 u Hu Hst).
      assert (awake (set_state (s_wait s) t st) = awake (s_wait s)) as E; [|rewrite E; lia].
      apply filter_ext_in. intros x Hx. cbn [set_state states]. rewrite decide_False by (intros ->; done). done.
  - destruct Hi as [H1 H2 H3 H4 H5]. by split.
Qed.
End runs.

(** *** The scheduler's side *)

Definition state_of (m : machine) (t : positive) : Z := from_option state TASK_NEW (tasks m !! t).

(** [sched_wake] of the scheduler does to the states what [wakes] does, and answers the same. *)
Lemma sched_wake_view m me t tk l p :
  sched_inv m → tasks m !! t = Some tk →
  ∃ ipi m', sched_wake m me t = Ok ((wakes (Waitq l (state_of m) p) t).1, ipi, m') ∧ sched_inv m' ∧
    ∀ u, state_of m' u = states (wakes (Waitq l (state_of m) p) t).2 u.
Proof.
  intros Hi Ht. destruct (wake_task_inv m me t WAKE tk Hi Ht eq_refl) as (ipi&m'&E&Hi'&Hw&Hq). exists ipi, m'.
  unfold wakes, wake_state. cbn [states]. assert (state_of m t = state tk) as Hst by (unfold state_of; by rewrite Ht). rewrite Hst.
  assert (∀ u, u ≠ t → state_of m' u = state_of m u) as Hother.
  { intros u Hu. specialize (Hq u Hu). unfold vtab in Hq. unfold state_of. destruct (tasks m' !! u), (tasks m !! u); [|done..]. cbn in *. injection Hq as _ ? _ _. done. }
  destruct (truth (Z.land WAKE (state tk))); cbn [fst snd].
  - split; [exact E|]. split; [done|]. intros u. cbn [set_state states]. case_decide as Hu; [|by apply Hother].
    subst u. destruct Hw as (tk'&r&Ht'&Hrun&_). unfold state_of. rewrite Ht'. exact Hrun.
  - split; [exact E|]. split; [done|]. subst m'. done.
Qed.

(** ** Mutexes *)

#[global] Instance owner_waitable : Waitable (option positive) := {
  take t o := match o with None => Some (Some t) | Some _ => None end;
  avail o := match o with None => 1 | Some _ => 0 end
}.
#[global] Instance owner_laws : WaitableLaws (option positive).
Proof. split; intros t [o|]; cbn; intros; simplify_eq; cbn; lia. Qed.

Section mutexes.
Context (CONFIG_DEBUG_LOCK : bool).

(** [holds]: the tasks whose call returned 0 or true and that have not unlocked since. *)
Record msys := MSys { mx : mutex; m_calls : gmap positive Z; holds : gset positive }.

Definition outcome (cs : gmap positive Z) (t : positive) (st : Z) (ret : option Z) : gmap positive Z :=
  match ret with Some _ => delete t cs | None => <[t := st]> cs end.

Definition may_lock (s : msys) (t : positive) (st : Z) : Prop :=
  sleeping st ∧ states (m_wait (mx s)) t = TASK_RUNNABLE ∧ (m_calls s !! t = None ∧ (t ∉ holds s) ∨ m_calls s !! t = Some st) ∧
  Z.of_nat (length (waiters (m_wait (mx s)))) + 1 < UINT32_MAX.

Inductive mstep (s : msys) : msys → Prop :=
  | M_lock t st ret m : may_lock s t st → mutex_lock_state CONFIG_DEBUG_LOCK (mx s) t st = Ok (ret, m) →
      mstep s (MSys m (outcome (m_calls s) t st ret) (if decide (ret = Some 0) then {[t]} ∪ holds s else holds s))
  | M_trylock t b m : m_calls s !! t = None → mutex_trylock (mx s) t = (b, m) → mstep s (MSys m (m_calls s) (if b then {[t]} ∪ holds s else holds s))
  | M_unlock t m : t ∈ holds s → m_calls s !! t = None → mutex_unlock CONFIG_DEBUG_LOCK (mx s) t = Ok m → mstep s (MSys m (m_calls s) (holds s ∖ {[t]}))
  | M_wake t mask : mstep s (MSys (Mutex (wake_state (m_wait (mx s)) t mask).2 (owner (mx s))) (m_calls s) (holds s))
  | M_other t st : m_calls s !! t = None → mstep s (MSys (Mutex (set_state (m_wait (mx s)) t st) (owner (mx s))) (m_calls s) (holds s))
  | M_signal p : mstep s (MSys (Mutex (Waitq (waiters (m_wait (mx s))) (states (m_wait (mx s))) p) (owner (mx s))) (m_calls s) (holds s)).

Definition m_sys (s : msys) : sys := Sys (m_wait (mx s)) (owner (mx s)) (m_calls s).
Definition minv (s : msys) : Prop := winv (m_sys s) ∧ holds s = match owner (mx s) with Some t => {[t]} | None => ∅ end ∧
  ∀ t, owner (mx s) = Some t → m_calls s !! t = None.

(** A turn of [mutex_lock_state] is a turn of the shared loop. *)
Lemma lock_attempt m t st ret m' cs :
  mutex_lock_state CONFIG_DEBUG_LOCK m t st = Ok (ret, m') →
  ∃ giveup, Sys (m_wait m') (owner m') (outcome cs t st ret) = after_attempt (Sys (m_wait m) (owner m) cs) t st giveup ∧
    match ret with Some 0 => owner m = None ∧ owner m' = Some t | _ => owner m' = owner m end.
Proof.
  unfold mutex_lock_state, after_attempt, attempt. cbn [s_wait s_res calls]. intros E.
  assert ((match owner m with
    | None => Ok (Some 0, Mutex (finish_wait_locked (m_wait m) t) (Some t))
    | Some _ => if pending_state (finish_wait_locked (m_wait m) t) st t then Ok (Some (- EINTR), Mutex (finish_wait_locked (m_wait m) t) (owner m))
        else Ok (None, Mutex (prepare_to_wait_locked (finish_wait_locked (m_wait m) t) t st) (owner m)) end) = Ok (ret, m')) as E'.
  { destruct CONFIG_DEBUG_LOCK; [|done]. destruct (bool_decide (owner m = Some t)); done. }
  clear E. destruct (owner m) as [o|] eqn:Eo; cbn [take owner_waitable].
  - destruct (pending_state _ st t); injection E' as <- <-; [exists (Some (- EINTR))|exists None]; done.
  - injection E' as <- <-. by exists None.
Qed.

Lemma lock_keeps_owner s t st ret m :
  minv s → may_lock s t st → mutex_lock_state CONFIG_DEBUG_LOCK (mx s) t st = Ok (ret, m) → ∀ u, owner m = Some u → outcome (m_calls s) t st ret !! u = None.
Proof.
  intros (_&Hh&Ho) (_&_&Hc&_) E u Hu. destruct (lock_attempt _ _ _ _ _ (m_calls s) E) as (_&_&Hret).
  destruct ret as [z|]; cbn [outcome].
  - destruct (decide (u = t)) as [->|Hne]; [apply lookup_delete_eq|]. rewrite lookup_delete_ne by done. apply Ho. destruct z; [|congruence..].
    destruct Hret as [_ Hret]. congruence.
  - rewrite Hret in Hu. rewrite lookup_insert_ne; [by apply Ho|]. intros ->. destruct Hc as [[_ Hn]|Hc]; [|apply Ho in Hu; congruence].
    rewrite Hh, Hu in Hn. set_solver.
Qed.

Lemma mstep_inv s s' : minv s → mstep s s' → minv s'.
Proof.
  intros (Hw&Hh&Ho) [t st ret m Hmay E|t b m Hc E|t m Ht Hc E|t mask|t st Hc|p].
  - destruct (lock_attempt _ _ _ _ _ (m_calls s) E) as (g&Ea&Hret). split; [|split].
    + unfold m_sys. cbn [mx m_calls]. rewrite Ea. destruct Hmay as (?&?&_&?). by apply attempt_inv.
    + cbn [mx holds]. rewrite Hh. destruct ret as [[]|]; [destruct Hret as [-> ->]; rewrite decide_True by done; set_solver|rewrite Hret; by rewrite decide_False by done..].
    + by apply (lock_keeps_owner s).
  - unfold mutex_trylock in E. destruct (owner (mx s)) eqn:Eo; injection E as <- <-; (split; [|split; [cbn [mx holds owner]; rewrite ?Eo; set_solver|cbn; rewrite ?Eo; congruence || (intros u; apply Ho)]]).
    + done.
    + apply (wstep_inv (m_sys s)); [done|]. unfold m_sys. cbn [mx m_wait owner m_calls]. apply (W_take (m_sys s)). unfold m_sys. cbn. rewrite Eo. cbn. lia.
  - unfold mutex_unlock in E. rewrite Hh in Ht. destruct (owner (mx s)) as [o|] eqn:Eo; [|by apply not_elem_of_empty in Ht]. apply elem_of_singleton in Ht as <-.
    rewrite bool_decide_true in E by done. assert (m = Mutex (wake_up_one_locked (m_wait (mx s))) None) as -> by (destruct CONFIG_DEBUG_LOCK; by injection E).
    split; [|split; [cbn [mx holds owner]; set_solver|done]]. apply (wstep_inv (m_sys s)); [done|]. apply (W_notify (m_sys s)). unfold m_sys. cbn. rewrite Eo. cbn. lia.
  - split; [|done]. apply (wstep_inv (m_sys s)); [done|]. apply (W_wake (m_sys s)).
  - split; [|done]. apply (wstep_inv (m_sys s)); [done|]. by apply (W_other (m_sys s)).
  - split; [|done]. apply (wstep_inv (m_sys s)); [done|]. apply (W_signal (m_sys s)).
Qed.

(** Nobody holds the mutex or waits for it; the tasks are in any state. *)
Definition mutex_start (f : positive → Z) (p : positive → bool * bool) : msys := MSys (Mutex (Waitq [] f p) None) ∅ ∅.

Lemma mutex_start_inv f p : minv (mutex_start f p).
Proof.
  split; [|done]. split; cbn.
  - constructor.
  - intros t. rewrite elem_of_nil. split; [done|by intros []].
  - intros t st Ht. by rewrite lookup_empty in Ht.
  - done.
  - intros t Ht. by apply elem_of_nil in Ht.
Qed.

Lemma reachable_minv f p s : rtc mstep (mutex_start f p) s → minv s.
Proof. intros Hr. pose proof (mutex_start_inv f p) as Hi. induction Hr as [s|s1 s2 s3 Hs _ IH]; [done|]. apply IH. by apply (mstep_inv s1). Qed.

(** C25: whatever the tasks do, at most one of them is between locking and unlocking a
    mutex; its unlock passes the check of the owner, and a call that may be made passes
    the check for recursion; the tasks inside a call of lock that has to wait are those
    on the queue; and no wake-up is lost: when the mutex is free and a task sleeps
    inside such a call, another task in one is awake, and its next turn takes the
    mutex. *)
Theorem mutex_reachable_safe f p s :
  rtc mstep (mutex_start f p) s →
  (∀ t u, t ∈ holds s → u ∈ holds s → t = u) ∧
  (∀ t, t ∈ holds s → ∃ m, mutex_unlock CONFIG_DEBUG_LOCK (mx s) t = Ok m) ∧
  (∀ t st, may_lock s t st → ∃ ret m, mutex_lock_state CONFIG_DEBUG_LOCK (mx s) t st = Ok (ret, m)) ∧
  (∀ t, is_Some (m_calls s !! t) ↔ t ∈ waiters (m_wait (mx s))) ∧
  (holds s = ∅ → ∀ t, is_Some (m_calls s !! t) → states (m_wait (mx s)) t ≠ TASK_RUNNABLE →
    ∃ u st m, m_calls s !! u = Some st ∧ states (m_wait (mx s)) u = TASK_RUNNABLE ∧
      mutex_lock_state CONFIG_DEBUG_LOCK (mx s) u st = Ok (Some 0, m) ∧ owner m = Some u).
Proof.
  intros (Hw&Hh&Ho)%reachable_minv. rewrite Hh. split; [|split; [|split; [|split]]].
  - intros t u. destruct (owner (mx s)); set_solver.
  - intros t Ht. destruct (owner (mx s)) as [o|] eqn:Eo; [|by apply not_elem_of_empty in Ht]. apply elem_of_singleton in Ht as ->.
    unfold mutex_unlock. rewrite Eo, bool_decide_true by done. destruct CONFIG_DEBUG_LOCK; eauto.
  - intros t st (_&_&Hc&_). unfold mutex_lock_state. assert (bool_decide (owner (mx s) = Some t) = false) as ->.
    { apply bool_decide_false. intros Eo. rewrite Eo in Hh. destruct Hc as [[_ Hn]|Hc]; [set_solver|]. apply Ho in Eo. congruence. }
    destruct CONFIG_DEBUG_LOCK; cbn [negb Assert res_bind]; destruct (owner (mx s)); [destruct (pending_state _ st t)| |destruct (pending_state _ st t)|]; eauto.
  - intros t. symmetry. apply (w_calls _ Hw).
  - intros Hfree t Hcall Hs. pose proof (proj2 (w_calls _ Hw t) Hcall) as Ht. assert (owner (mx s) = None) as Eo by (destruct (owner (mx s)); [set_solver|done]).
    pose proof (w_lost _ Hw t Ht Hs) as Hl. unfold m_sys in Hl. cbn [s_wait s_res] in Hl. rewrite Eo in Hl. cbn [avail owner_waitable] in Hl.
    destruct (awake (m_wait (mx s))) as [|u l] eqn:Ea; [cbn in Hl; lia|]. assert (u ∈ awake (m_wait (mx s))) as [Hu Hin]%list_elem_of_filter by (rewrite Ea; by left).
    apply (w_calls _ Hw) in Hin as [st Hst]. exists u, st, (Mutex (finish_wait_locked (m_wait (mx s)) u) (Some u)). split; [done|]. split; [done|].
    unfold mutex_lock_state. rewrite Eo. destruct CONFIG_DEBUG_LOCK; done.
Qed.
End mutexes.

(** ** Completions *)

#[global] Instance done_waitable : Waitable Z := {
  take _ d := let '(b, d') := take_completion_locked d in if b then Some d' else None;
  avail d := d
}.
#[global] Instance done_laws : WaitableLaws Z.
Proof.
  split; cbn; unfold take_completion_locked; intros t d.
  - destruct (Z.eqb_spec d 0); [lia|done].
  - intros r. destruct (Z.eqb_spec d 0); [done|]. intros [= <-]. destruct (Z.eqb_spec d UINT32_MAX); lia.
Qed.

(** [posted] and [taken]: calls of [complete], and waits that returned 0, since the last [reinit_completion]. *)
Record csys := CSys { cp : completion; c_calls : gmap positive Z; posted : Z; taken : Z }.

Definition may_wait (s : csys) (t : positive) (st : Z) : Prop :=
  sleeping st ∧ states (c_wait (cp s)) t = TASK_RUNNABLE ∧ (c_calls s !! t = None ∨ c_calls s !! t = Some st) ∧
  Z.of_nat (length (waiters (c_wait (cp s)))) + 1 < UINT32_MAX.
Definition won (n : Z) (ret : option Z) : Z := if decide (ret = Some 0) then n + 1 else n.

Inductive cstep (s : csys) : csys → Prop :=
  | C_wait t st ret c : may_wait s t st → wait_for_completion_state (cp s) t st = (ret, c) →
      cstep s (CSys c (outcome (c_calls s) t st ret) (posted s) (won (taken s) ret))
  | C_until t now deadline armed started ret armed' c : may_wait s t TASK_UNINTERRUPTIBLE →
      wait_for_completion_until (cp s) t now deadline armed started = (ret, armed', c) →
      cstep s (CSys c (outcome (c_calls s) t TASK_UNINTERRUPTIBLE ret) (posted s) (won (taken s) ret))
  | C_try b c : try_wait_for_completion (cp s) = (b, c) → cstep s (CSys c (c_calls s) (posted s) (if b then taken s + 1 else taken s))
  | C_complete : cstep s (CSys (complete (cp s)) (c_calls s) (posted s + 1) (taken s))
  | C_complete_all : cstep s (CSys (complete_all (cp s)) (c_calls s) (posted s) (taken s))
  | C_reinit : cstep s (CSys (reinit_completion (cp s)) (c_calls s) 0 0)
  | C_timed_out t : cstep s (CSys (completion_timed_out (cp s) t) (c_calls s) (posted s) (taken s))
  | C_wake t mask : cstep s (CSys (Completion (wake_state (c_wait (cp s)) t mask).2 (done (cp s))) (c_calls s) (posted s) (taken s))
  | C_other t st : c_calls s !! t = None → cstep s (CSys (Completion (set_state (c_wait (cp s)) t st) (done (cp s))) (c_calls s) (posted s) (taken s))
  | C_signal p : cstep s (CSys (Completion (Waitq (waiters (c_wait (cp s))) (states (c_wait (cp s))) p) (done (cp s))) (c_calls s) (posted s) (taken s)).

Definition c_sys (s : csys) : sys := Sys (c_wait (cp s)) (done (cp s)) (c_calls s).
Definition counted (d n k : Z) : Prop := 0 ≤ d ≤ UINT32_MAX ∧ (d = UINT32_MAX ∨ d = n - k).
Definition cinv (s : csys) : Prop := winv (c_sys s) ∧ counted (done (cp s)) (posted s) (taken s).

Lemma take_counted d n k b d' : take_completion_locked d = (b, d') → counted d n k → counted d' n (if b then k + 1 else k) ∧ (b = true ↔ d ≠ 0).
Proof.
  unfold take_completion_locked, counted. destruct (Z.eqb_spec d 0); intros [= <- <-]; [split; [done|split; done]|].
  destruct (Z.eqb_spec d UINT32_MAX); unfold UINT32_MAX in *; split; [lia|done|lia|done].
Qed.

(** The turns of the two waiting calls are turns of the shared loop. *)
Lemma wait_attempt c t st ret c' cs :
  wait_for_completion_state c t st = (ret, c') →
  (∃ giveup, Sys (c_wait c') (done c') (outcome cs t st ret) = after_attempt (Sys (c_wait c) (done c) cs) t st giveup) ∧
  ∃ b, take_completion_locked (done c) = (b, done c') ∧ (b = true ↔ ret = Some 0).
Proof.
  unfold wait_for_completion_state, after_attempt, attempt. cbn [s_wait s_res take done_waitable]. destruct (take_completion_locked (done c)) as [b d] eqn:E.
  destruct b; [intros [= <- <-]; split; [by exists None|by exists true]|].
  assert (d = done c) as -> by (unfold take_completion_locked in E; destruct (done c =? 0); by injection E).
  destruct (pending_state _ st t); intros [= <- <-]; (split; [|by exists false]); [by exists (Some (- ERESTARTSYS))|by exists None].
Qed.

Lemma until_attempt c t now deadline armed started ret armed' c' cs :
  wait_for_completion_until c t now deadline armed started = (ret, armed', c') →
  (∃ giveup, Sys (c_wait c') (done c') (outcome cs t TASK_UNINTERRUPTIBLE ret) = after_attempt (Sys (c_wait c) (done c) cs) t TASK_UNINTERRUPTIBLE giveup) ∧
  ∃ b, take_completion_locked (done c) = (b, done c') ∧ (b = true ↔ ret = Some 0).
Proof.
  unfold wait_for_completion_until, after_attempt, attempt. cbn [s_wait s_res take done_waitable]. destruct (take_completion_locked (done c)) as [b d] eqn:E.
  destruct b; [intros [= <- <- <-]; split; [by exists None|by exists true]|].
  assert (d = done c) as -> by (unfold take_completion_locked in E; destruct (done c =? 0); by injection E).
  destruct (deadline <=? now); [intros [= <- <- <-]; split; [by exists (Some (- ETIMEDOUT))|by exists false]|].
  destruct (negb armed && truth started) eqn:Es; intros [= <- <- <-]; [|split; [by exists None|by exists false]].
  split; [by exists (Some started)|]. exists false. split; [done|]. split; [done|]. intros [= ->]. by destruct armed.
Qed.

Lemma turn_inv s t st ret c :
  cinv s → may_wait s t st →
  (∃ giveup, Sys (c_wait c) (done c) (outcome (c_calls s) t st ret) = after_attempt (Sys (c_wait (cp s)) (done (cp s)) (c_calls s)) t st giveup) →
  (∃ b, take_completion_locked (done (cp s)) = (b, done c) ∧ (b = true ↔ ret = Some 0)) →
  cinv (CSys c (outcome (c_calls s) t st ret) (posted s) (won (taken s) ret)).
Proof.
  intros [Hw Hc] (Hst&Hs&_&Hfew) (g&Ea) (b&Eb&Hret). split.
  - unfold c_sys. cbn [cp c_calls]. rewrite Ea. by apply (attempt_inv (c_sys s)).
  - cbn [cp posted taken]. destruct (take_counted _ _ _ _ _ Eb Hc) as [Hc' _]. unfold won. case_decide as E.
    + apply Hret in E. by rewrite E in Hc'.
    + destruct b; [by destruct E; apply Hret|done].
Qed.

Lemma cstep_inv s s' : cinv s → cstep s s' → cinv s'.
Proof.
  intros Hi Hs. destruct Hs as [t st ret c Hmay E|t now deadline armed started ret armed' c Hmay E|b c E| | | |t|t mask|t st Hc|p].
  - destruct (wait_attempt _ _ _ _ _ (c_calls s) E). by apply turn_inv.
  - destruct (until_attempt _ _ _ _ _ _ _ _ _ (c_calls s) E). by apply turn_inv.
  - unfold try_wait_for_completion in E. destruct (take_completion_locked (done (cp s))) as [b' d] eqn:Et. injection E as <- <-. destruct Hi as [Hw Hc].
    destruct (take_counted _ _ _ _ _ Et Hc) as [Hc' _]. split; [|exact Hc']. apply (wstep_inv (c_sys s)); [done|]. apply (W_take (c_sys s)). cbn.
    unfold take_completion_locked in Et. destruct (Z.eqb_spec (done (cp s)) 0); injection Et as _ <-; [lia|]. case_match; lia.
  - destruct Hi as [Hw [Hc1 Hc2]]. split; [apply (wstep_inv (c_sys s)); [done|]; apply (W_notify (c_sys s))|]; cbn [complete done cp posted taken avail done_waitable c_sys s_res].
    + destruct (Z.eqb_spec (done (cp s)) UINT32_MAX); cbn; lia.
    + split; destruct (Z.eqb_spec (done (cp s)) UINT32_MAX); lia.
  - destruct Hi as [Hw [Hc1 Hc2]]. split; [apply (wstep_inv (c_sys s)); [done|]; apply (W_notify_all (c_sys s))|]. split; [done|by left].
  - destruct Hi as [Hw [Hc1 Hc2]]. split; [apply (wstep_inv (c_sys s)); [done|]; apply (W_take (c_sys s)); cbn; lia|]. split; [done|by right].
  - destruct Hi as [Hw Hc]. split; [apply (wstep_inv (c_sys s)); [done|]; apply (W_wake (c_sys s))|done].
  - destruct Hi as [Hw Hc]. split; [apply (wstep_inv (c_sys s)); [done|]; apply (W_wake (c_sys s))|done].
  - destruct Hi as [Hw Hd]. split; [apply (wstep_inv (c_sys s)); [done|]; by apply (W_other (c_sys s))|done].
  - destruct Hi as [Hw Hc]. split; [apply (wstep_inv (c_sys s)); [done|]; apply (W_signal (c_sys s))|done].
Qed.

Definition completion_start (f : positive → Z) (p : positive → bool * bool) : csys := CSys (Completion (Waitq [] f p) 0) ∅ 0 0.

Lemma reachable_cinv f p s : rtc cstep (completion_start f p) s → cinv s.
Proof.
  intros Hr. assert (cinv (completion_start f p)) as Hi.
  { split; [|split; [done|by right]]. split; cbn; [constructor| | |done|intros t Ht; by apply elem_of_nil in Ht].
    - intros t. rewrite elem_of_nil. split; [done|by intros []].
    - intros t st Ht. by rewrite lookup_empty in Ht. }
  induction Hr as [s|s1 s2 s3 Hs _ IH]; [done|]. apply IH. by apply (cstep_inv s1).
Qed.

(** C26: whatever the tasks do, unless the counter is at its maximum ([complete_all]), it
    is the number of calls of [complete] less that of the waits they ended, so no wait
    returns without a completion of its own; the tasks inside a wait that has not
    returned are those on the queue; and no wake-up is lost: while a task sleeps inside
    a wait, at least as many other tasks in one are awake as there are completions to
    take, and the next turn of each of them takes one. *)
Theorem completion_reachable_safe f p s :
  rtc cstep (completion_start f p) s →
  0 ≤ done (cp s) ∧ (done (cp s) = UINT32_MAX ∨ done (cp s) = posted s - taken s) ∧
  (∀ t, is_Some (c_calls s !! t) ↔ t ∈ waiters (c_wait (cp s))) ∧
  ∀ t, is_Some (c_calls s !! t) → states (c_wait (cp s)) t ≠ TASK_RUNNABLE →
    NoDup (awake (c_wait (cp s))) ∧ done (cp s) ≤ Z.of_nat (length (awake (c_wait (cp s)))) ∧
    ∀ u, u ∈ awake (c_wait (cp s)) → 0 < done (cp s) → ∃ st c, c_calls s !! u = Some st ∧
      wait_for_completion_state (cp s) u st = (Some 0, c) ∧ done c = done (cp s) - 1.
Proof.
  intros [Hw [Hc1 Hc2]]%reachable_cinv. split; [lia|]. split; [done|].
  split; [intros t; symmetry; apply (w_calls _ Hw)|]. intros t Hcall Hs. pose proof (proj2 (w_calls _ Hw t) Hcall) as Ht.
  pose proof (w_lost _ Hw t Ht Hs) as Hl. cbn in Hl. split; [apply NoDup_filter, (w_nodup _ Hw)|]. split; [done|]. intros u [Hu Hin]%list_elem_of_filter Hpos.
  apply (w_calls _ Hw) in Hin as [st Hst]. exists st. eexists. split; [done|]. unfold wait_for_completion_state, take_completion_locked.
  pose proof (awake_few (c_wait (cp s))). pose proof (w_few _ Hw). cbn in *.
  rewrite (proj2 (Z.eqb_neq (done (cp s)) 0)), (proj2 (Z.eqb_neq (done (cp s)) UINT32_MAX)) by lia. done.
Qed.

(** ** [wait_event] *)

(** A condition that stays true can be taken by any number of waiters, so those that
    make it true must wake them all. *)
#[global] Instance event_waitable : Waitable bool := { take _ c := if c then Some c else None; avail c := if c : bool then UINT32_MAX else 0 }.
#[global] Instance event_laws : WaitableLaws bool.
Proof. split; intros t []; cbn; intros; simplify_eq; unfold UINT32_MAX; lia. Qed.

Lemma event_attempt w c t st ret w' cs :
  wait_event w c t st = (ret, w') →
  ∃ giveup, Sys w' c (outcome cs t st ret) = after_attempt (Sys w c cs) t st giveup.
Proof.
  unfold wait_event, after_attempt, attempt. cbn [s_wait s_res take event_waitable]. destruct c; [intros [= <- <-]; by exists None|].
  destruct (pending_state _ st t); intros [= <- <-]; [by exists (Some (- ERESTARTSYS))|by exists None].
Qed.

(** A task that sleeps in [wait_event] sleeps because the condition is false. *)
Lemma wait_event_no_lost s s' t :
  winv s → wstep (R := bool) s s' → t ∈ waiters (s_wait s') → states (s_wait s') t ≠ TASK_RUNNABLE → s_res s' = false.
Proof.
  intros Hi Hs Ht Hst. apply (wstep_inv s s' Hi) in Hs. pose proof (w_lost _ Hs t Ht Hst) as Hl. pose proof (awake_few (s_wait s')). pose proof (w_few _ Hs).
  destruct (s_res s'); [cbn in Hl; lia|done].
Qed.

(** ** Runs of three tasks *)

Definition all_ready : positive → Z := λ _, TASK_RUNNABLE.
Definition no_pending : positive → bool * bool := λ _, (false, false).

Ltac may_turn := split; [right; left; reflexivity|split; [reflexivity|split; [|vm_compute; reflexivity]]].

(** Task 1 locks, tasks 2 and 3 go to sleep, task 1 unlocks: 3 sleeps, and 2 will take the mutex. *)
Lemma mutex_reachable_safe_witness :
  ∃ s, rtc (mstep true) (mutex_start all_ready no_pending) s ∧ holds s = ∅ ∧ states (m_wait (mx s)) 3 = TASK_UNINTERRUPTIBLE ∧
    ∃ u st m, mutex_lock_state true (mx s) u st = Ok (Some 0, m) ∧ owner m = Some u.
Proof.
  assert (∃ s, rtc (mstep true) (mutex_start all_ready no_pending) s ∧ holds s = ∅ ∧ waiters (m_wait (mx s)) = [2; 3]%positive ∧
    states (m_wait (mx s)) 3 = TASK_UNINTERRUPTIBLE) as (s&Hr&Hh&Hq&Hs).
  { eexists. split; [|split; [|split]].
    - eapply rtc_l; [eapply (M_lock _ _ 1 TASK_UNINTERRUPTIBLE); [may_turn; left; split; [reflexivity|by vm_compute]|reflexivity]|].
      eapply rtc_l; [eapply (M_lock _ _ 2 TASK_UNINTERRUPTIBLE); [may_turn; left; split; [reflexivity|by vm_compute]|reflexivity]|].
      eapply rtc_l; [eapply (M_lock _ _ 3 TASK_UNINTERRUPTIBLE); [may_turn; left; split; [reflexivity|by vm_compute]|reflexivity]|].
      eapply rtc_l; [eapply (M_unlock _ _ 1); [by vm_compute|reflexivity|reflexivity]|]. apply rtc_refl.
    - by vm_compute.
    - reflexivity.
    - reflexivity. }
  exists s. split; [done|]. split; [done|]. split; [done|].
  destruct (mutex_reachable_safe true all_ready no_pending s Hr) as (_&_&_&Hc&H).
  destruct (H Hh 3%positive) as (u&st&m&_&_&E&Eo); [apply Hc; rewrite Hq; right; left|by rewrite Hs|]. by exists u, st, m.
Defined.

(** Tasks 1 and 2 wait, one completion is posted: task 2 sleeps on, and task 1 will return. *)
Lemma completion_reachable_safe_witness :
  ∃ s, rtc cstep (completion_start all_ready no_pending) s ∧ states (c_wait (cp s)) 2 = TASK_UNINTERRUPTIBLE ∧
    done (cp s) = posted s - taken s ∧ done (cp s) ≤ Z.of_nat (length (awake (c_wait (cp s)))).
Proof.
  assert (∃ s, rtc cstep (completion_start all_ready no_pending) s ∧ waiters (c_wait (cp s)) = [1; 2]%positive ∧
    states (c_wait (cp s)) 2 = TASK_UNINTERRUPTIBLE ∧ done (cp s) = 1) as (s&Hr&Hq&Hs&Hd).
  { eexists. split; [|split; [|split]].
    - eapply rtc_l; [eapply (C_wait _ 1 TASK_UNINTERRUPTIBLE); [may_turn; by left|reflexivity]|].
      eapply rtc_l; [eapply (C_wait _ 2 TASK_UNINTERRUPTIBLE); [may_turn; by left|reflexivity]|].
      eapply rtc_l; [apply C_complete|]. apply rtc_refl.
    - reflexivity.
    - reflexivity.
    - reflexivity. }
  exists s. split; [done|]. split; [done|]. destruct (completion_reachable_safe all_ready no_pending s Hr) as (_&H1&Hc&H2).
  split; [destruct H1 as [H1|H1]; [rewrite H1 in Hd; discriminate Hd|done]|]. apply (H2 2%positive); [apply Hc; rewrite Hq; right; left|by rewrite Hs].
Defined.
