(* ===== verification/Pagecache.v ===== *)
(** * The page cache: [mm/mapping.c]

    A page of a mapping (a file or a device) is in memory at most once, found through
    a hash table and shared by counting.  Of the 256 pages that may be cached, those
    to be written are on one list and those that nobody uses on another, from which
    the oldest makes room for a new one.  The functions are modelled as the sections
    they execute under the mutex of the cache, each one atomic; any number of threads
    run them in any order.  The mutex of a page is held over its loading, while it is
    written to, and over its writeback; a page is named by the serial number of its
    allocation and [D] is the content of a page.

    The theorems: a page in use is not freed or evicted, what was last written to a
    page is what is found in the cache or, if it is not cached, on the disk, and room
    is refused only when all pages are in use.  All of that except in the window in
    which [mapping_purge] has taken its reference, of which the last theorem shows that
    it brings the kernel down. *)
From stdpp Require Import base tactics numbers list gmap.
From S2P Require Import Prelude Refcount Dcache.

Definition MAPPING_CACHE_PAGES : Z := 256.
Definition CACHE_PAGE_DIRTY : Z := 1.
Definition CACHE_PAGE_WRITEBACK : Z := 2.

Section pages.
Context (CONFIG_DEBUG_REFCOUNT : bool) {D : Type}.

(** [p_key]: [mapping] and [index]. *)
Record cpage := Cpage { p_key : Z * Z; p_refs : Z; p_state : Z; p_hashed : bool; p_error : Z; p_data : D }.
(** [m_error]: the field of each mapping; [m_held]: its references, [get] less [put]. *)
Record pcache := Pcache { pages : gmap nat cpage; table : gmap Z (list nat); dirty : list nat; lru : list nat; nr : Z; m_error : Z → Z; m_held : Z → Z; next : nat }.

Definition set_pages (c : pcache) (P : gmap nat cpage) : pcache := Pcache P (table c) (dirty c) (lru c) (nr c) (m_error c) (m_held c) (next c).
Definition put_page (c : pcache) (x : nat) (p : cpage) : pcache := set_pages c (<[x := p]> (pages c)).
Definition set_lists (c : pcache) (d l : list nat) : pcache := Pcache (pages c) (table c) d l (nr c) (m_error c) (m_held c) (next c).
Definition set_table (c : pcache) (T : gmap Z (list nat)) (n : Z) : pcache := Pcache (pages c) T (dirty c) (lru c) n (m_error c) (m_held c) (next c).
Definition with_refs (n : Z) (p : cpage) : cpage := Cpage (p_key p) n (p_state p) (p_hashed p) (p_error p) (p_data p).
Definition with_pstate (s : Z) (p : cpage) : cpage := Cpage (p_key p) (p_refs p) s (p_hashed p) (p_error p) (p_data p).
Definition with_phashed (h : bool) (p : cpage) : cpage := Cpage (p_key p) (p_refs p) (p_state p) h (p_error p) (p_data p).
Definition with_load (e : Z) (d : D) (p : cpage) : cpage := Cpage (p_key p) (p_refs p) (p_state p) (p_hashed p) e d.

Definition mapping_key (k : Z * Z) : Z := Z.lxor (u64 k.1) (u64 k.2).
Definition slot (k : Z * Z) : Z := hash_64 (mapping_key k) 8.
Definition bucket (T : gmap Z (list nat)) (b : Z) : list nat := default [] (T !! b).
Definition tab_add (T : gmap Z (list nat)) (b : Z) (x : nat) : gmap Z (list nat) := <[b := x :: bucket T b]> T.
Definition tab_del (T : gmap Z (list nat)) (b : Z) (x : nat) : gmap Z (list nat) := <[b := filter (λ y, y ≠ x) (bucket T b)]> T.
Definition hash_add (c : pcache) (x : nat) (p : cpage) (n : Z) : pcache := set_table (put_page c x (with_phashed true p)) (tab_add (table c) (slot (p_key p)) x) n.
Definition hash_del (c : pcache) (x : nat) (p : cpage) (n : Z) : pcache := set_table (put_page c x (with_phashed false p)) (tab_del (table c) (slot (p_key p)) x) n.

Definition mapping_hold (c : pcache) (m : Z) : pcache :=
  Pcache (pages c) (table c) (dirty c) (lru c) (nr c) (m_error c) (λ k, if k =? m then m_held c k + 1 else m_held c k) (next c).
Definition mapping_release (c : pcache) (m : Z) : pcache :=
  Pcache (pages c) (table c) (dirty c) (lru c) (nr c) (m_error c) (λ k, if k =? m then m_held c k - 1 else m_held c k) (next c).
Definition set_error (c : pcache) (m e : Z) : pcache :=
  Pcache (pages c) (table c) (dirty c) (lru c) (nr c) (λ k, if k =? m then e else m_error c k) (m_held c) (next c).

Fixpoint find_in (c : pcache) (k : Z * Z) (l : list nat) : res (option nat) :=
  match l with
  | [] => Ok None
  | x :: l => let! p := deref (pages c !! x) in if bool_decide (p_key p = k) then Ok (Some x) else find_in c k l
  end.
Definition mapping_find (c : pcache) (k : Z * Z) : res (option nat) := find_in c k (bucket (table c) (slot k)).

Definition cache_page_destroy (c : pcache) (x : nat) : pcache := set_pages c (delete x (pages c)).

Definition without (x : nat) (l : list nat) : list nat := filter (λ y, y ≠ x) l.
Definition mapping_link (c : pcache) (x : nat) : res pcache :=
  let! p := deref (pages c !! x) in
  let d := without x (dirty c) in let l := without x (lru c) in
  Ok (if p_hashed p then
        if truth (p_state p) then set_lists c (d ++ [x]) l
        else if refcount_read (p_refs p) =? 1 then set_lists c d (l ++ [x]) else set_lists c d l
      else set_lists c d l).

(** [refcount_inc] and [refcount_dec] of a page. *)
Definition page_get (c : pcache) (x : nat) : res pcache :=
  let! p := deref (pages c !! x) in let! n := refcount_inc CONFIG_DEBUG_REFCOUNT [] (p_refs p) in Ok (put_page c x (with_refs n p)).
Definition page_drop (c : pcache) (x : nat) : res pcache :=
  let! p := deref (pages c !! x) in let! n := refcount_dec CONFIG_DEBUG_REFCOUNT [] (p_refs p) in Ok (put_page c x (with_refs n p)).

Definition mapping_make_room (c : pcache) : res (bool * pcache) :=
  if nr c <? MAPPING_CACHE_PAGES then Ok (true, c) else
  match lru c with
  | [] => Ok (false, c)
  | x :: _ =>
      let! p := deref (pages c !! x) in
      let! _ := Assert ((refcount_read (p_refs p) =? 1) && negb (truth (p_state p))) in
      let c := set_lists c (dirty c) (without x (lru c)) in
      let c := hash_del c x p (nr c - 1) in
      let! p := deref (pages c !! x) in
      let! (last, n) := refcount_dec_and_test CONFIG_DEBUG_REFCOUNT [] (p_refs p) in
      Ok (true, if last then cache_page_destroy c x else put_page c x (with_refs n p))
  end.

(** ** The sections of [mapping_get] *)

(** The page is cached: the caller holds it, and waits for its mutex. *)
Definition get_found (c : pcache) (k : Z * Z) : res (option nat * pcache) :=
  let! o := mapping_find c k in
  match o with
  | None => Ok (None, c)
  | Some x => let! c := page_get c x in let! c := mapping_link c x in Ok (Some x, c)
  end.

Inductive got := Failed | Shared (x : nat) | Created (x : nat).

(** The second section: [page] and [kmem], the allocations; [d], what is in a new page. *)
Definition get_insert (c : pcache) (k : Z * Z) (page kmem : bool) (d : D) : res (got * pcache) :=
  if negb page || negb kmem then Ok (Failed, c) else
  let x := next c in
  let p := Cpage k 1 0 false 0 d in
  let c := Pcache (<[x := p]> (pages c)) (table c) (dirty c) (lru c) (nr c) (m_error c) (m_held c) (S x) in
  let! (o, c) := get_found c k in
  match o with
  | Some y => Ok (Shared y, cache_page_destroy c x)
  | None =>
      let! (room, c) := mapping_make_room c in
      if negb room then Ok (Failed, cache_page_destroy c x) else
      let! c := page_get c x in
      let! p := deref (pages c !! x) in
      Ok (Created x, hash_add c x p (nr c + 1))
  end.

(** [read_page] returned [ret] and left [d] in the page. *)
Definition get_loaded (c : pcache) (x : nat) (ret : Z) (d : D) : res pcache :=
  let! p := deref (pages c !! x) in
  let p := with_load ret d p in
  if truth ret then page_drop (hash_del c x p (nr c - 1)) x else Ok (put_page c x p).
(** With the mutex of the page: what [mapping_get] returns to one that found it. *)
Definition get_ready (c : pcache) (x : nat) : res Z := let! p := deref (pages c !! x) in Ok (p_error p).

Definition mapping_put (c : pcache) (x : nat) : res pcache :=
  let! p := deref (pages c !! x) in
  let! _ := Assert (truth (refcount_read (p_refs p))) in
  let! (last, n) := refcount_dec_and_test CONFIG_DEBUG_REFCOUNT [] (p_refs p) in
  let c := put_page c x (with_refs n p) in
  if last then let! _ := Assert (negb (p_hashed p)) in Ok (cache_page_destroy c x) else mapping_link c x.

(** The caller, with the mutex of the page, has written [d] to it. *)
Definition mapping_dirty (c : pcache) (x : nat) (d : D) : res pcache :=
  let! p := deref (pages c !! x) in
  let! _ := Assert (p_hashed p) in
  let p := with_load (p_error p) d p in
  let c := put_page c x p in
  let c := if negb (truth (Z.land (p_state p) CACHE_PAGE_DIRTY))
    then put_page (mapping_hold c (p_key p).1) x (with_pstate (Z.lor (p_state p) CACHE_PAGE_DIRTY) p) else c in
  mapping_link c x.

(** The sections of [mapping_writeback] around [write_page]. *)
Definition writeback_begin (c : pcache) (x : nat) : res (bool * pcache) :=
  let! p := deref (pages c !! x) in
  if negb (truth (Z.land (p_state p) CACHE_PAGE_DIRTY)) then Ok (false, c) else
  let c := put_page c x (with_pstate CACHE_PAGE_WRITEBACK p) in
  let! c := page_get c x in
  let! c := mapping_link c x in
  Ok (true, c).
Definition writeback_end (c : pcache) (x : nat) (ret : Z) : res pcache :=
  let! p := deref (pages c !! x) in
  let c := put_page c x (with_pstate 0 p) in
  let c := if truth ret then set_error c (p_key p).1 ret else c in
  let! c := page_drop c x in
  let! c := mapping_link c x in
  Ok (mapping_release c (p_key p).1).

(** [m]: the mapping, or all of them. *)
Fixpoint collect_loop (c : pcache) (m : option Z) (l : list nat) : res (list nat * pcache) :=
  match l with
  | [] => Ok ([], c)
  | x :: l =>
      let! p := deref (pages c !! x) in
      if negb (bool_decide (m = None ∨ m = Some (p_key p).1)) then collect_loop c m l else
      let! c := page_get (mapping_hold c (p_key p).1) x in
      let! (xs, c) := collect_loop c m l in
      Ok (x :: xs, c)
  end.
Definition mapping_collect (c : pcache) (m : option Z) : res (list nat * pcache) := collect_loop c m (dirty c).

(** The sections of [mapping_purge]: a page of the range is picked, in any order of the
    table, and removed, which is followed by [mapping_put]. *)
Definition purge_pick (c : pcache) (m start end_ : Z) (x : nat) : res (option pcache) :=
  let! p := deref (pages c !! x) in
  if p_hashed p && bool_decide ((p_key p).1 = m) && (start <=? (p_key p).2) && ((p_key p).2 <? end_) then
    let! c := page_get c x in Ok (Some c)
  else Ok None.
Definition purge_remove (c : pcache) (x : nat) : res (bool * pcache) :=
  let! p := deref (pages c !! x) in
  if p_hashed p then
    let! _ := Assert (negb (truth (Z.land (p_state p) CACHE_PAGE_WRITEBACK))) in
    let isdirty := truth (Z.land (p_state p) CACHE_PAGE_DIRTY) in
    let c := hash_del c x (with_pstate 0 p) (nr c - 1) in
    let c := set_lists c (without x (dirty c)) (without x (lru c)) in
    let! c := page_drop c x in
    Ok (isdirty, c)
  else Ok (false, c).
End pages.
Arguments cpage : clear implicits.
Arguments pcache : clear implicits.

(** ** Threads *)

Inductive phase := Loading | Writing.
#[global] Instance phase_eq_dec : EqDecision phase.
Proof. solve_decision. Defined.

(** The cache; the references threads hold to each page, and how many of them are of
    purges that have not come to remove the page; the pages whose mutex is held for
    loading or writeback; the disk; and what was last written to each page. *)
Record conf (D : Type) := Conf { cache : pcache D; held : nat → nat; purging : nat → nat; busy : nat → option phase; disk : Z * Z → D; store : Z * Z → D }.
Arguments Conf {D}.
Arguments cache {D}.
Arguments held {D}.
Arguments purging {D}.
Arguments busy {D}.
Arguments disk {D}.
Arguments store {D}.

Definition at_ {A} (x : nat) (v : A) (f : nat → A) : nat → A := λ y, if decide (y = x) then v else f y.
Definition at_key {A} (k : Z * Z) (v : A) (f : Z * Z → A) : Z * Z → A := λ j, if decide (j = k) then v else f j.

(** References that their holders do not put: those of purges, of the thread that
    loads the page, and of the one that writes it back, which has taken another. *)
Definition reserved {D} (s : conf D) (x : nat) : nat := purging s x + match busy s x with None => 0 | Some Loading => 1 | Some Writing => 2 end.
Definition free_page {D} (s : conf D) (x : nat) : Prop := (reserved s x < held s x)%nat.

Section steps.
Context (CONFIG_DEBUG_REFCOUNT : bool) {D : Type}.

Inductive pstep (s : conf D) : conf D → Prop :=
  | P_found k x c : get_found CONFIG_DEBUG_REFCOUNT (cache s) k = Ok (Some x, c) →
      pstep s (Conf c (at_ x (S (held s x)) (held s)) (purging s) (busy s) (disk s) (store s))
  | P_shared k d x c : get_insert CONFIG_DEBUG_REFCOUNT (cache s) k true true d = Ok (Shared x, c) →
      pstep s (Conf c (at_ x (S (held s x)) (held s)) (purging s) (busy s) (disk s) (store s))
  | P_created k d x c : get_insert CONFIG_DEBUG_REFCOUNT (cache s) k true true d = Ok (Created x, c) →
      pstep s (Conf c (at_ x 1%nat (held s)) (purging s) (at_ x (Some Loading) (busy s)) (disk s) (store s))
  | P_failed k d c : get_insert CONFIG_DEBUG_REFCOUNT (cache s) k true true d = Ok (Failed, c) →
      pstep s (Conf c (held s) (purging s) (busy s) (disk s) (store s))
  | P_loaded x p ret d c : busy s x = Some Loading → pages (cache s) !! x = Some p → (ret = 0 → d = disk s (p_key p)) →
      get_loaded CONFIG_DEBUG_REFCOUNT (cache s) x ret d = Ok c → pstep s (Conf c (held s) (purging s) (at_ x None (busy s)) (disk s) (store s))
  | P_put x c : free_page s x → mapping_put CONFIG_DEBUG_REFCOUNT (cache s) x = Ok c →
      pstep s (Conf c (at_ x (pred (held s x)) (held s)) (purging s) (busy s) (disk s) (store s))
  | P_write x p d c : free_page s x → busy s x = None → pages (cache s) !! x = Some p → p_hashed p = true → mapping_dirty (cache s) x d = Ok c →
      pstep s (Conf c (held s) (purging s) (busy s) (disk s) (at_key (p_key p) d (store s)))
  | P_begin x c : free_page s x → busy s x = None → writeback_begin CONFIG_DEBUG_REFCOUNT (cache s) x = Ok (true, c) →
      pstep s (Conf c (at_ x (S (held s x)) (held s)) (purging s) (at_ x (Some Writing) (busy s)) (disk s) (store s))
  | P_end x p ret d c : busy s x = Some Writing → pages (cache s) !! x = Some p → (ret = 0 → d = p_data p) →
      writeback_end CONFIG_DEBUG_REFCOUNT (cache s) x ret = Ok c →
      pstep s (Conf c (at_ x (pred (held s x)) (held s)) (purging s) (at_ x None (busy s)) (at_key (p_key p) d (disk s)) (store s))
  | P_collect m xs c : mapping_collect CONFIG_DEBUG_REFCOUNT (cache s) m = Ok (xs, c) →
      pstep s (Conf c (λ x, if decide (x ∈ xs) then S (held s x) else held s x) (purging s) (busy s) (disk s) (store s))
  | P_pick m start end_ x c : purge_pick CONFIG_DEBUG_REFCOUNT (cache s) m start end_ x = Ok (Some c) →
      pstep s (Conf c (at_ x (S (held s x)) (held s)) (at_ x (S (purging s x)) (purging s)) (busy s) (disk s) (store s))
  | P_remove x p isdirty c : (0 < purging s x)%nat → busy s x = None → pages (cache s) !! x = Some p →
      purge_remove CONFIG_DEBUG_REFCOUNT (cache s) x = Ok (isdirty, c) →
      pstep s (Conf c (held s) (at_ x (pred (purging s x)) (purging s)) (busy s) (disk s) (if p_hashed p then at_key (p_key p) (disk s (p_key p)) (store s) else store s))
  | P_mapping m : pstep s (Conf (mapping_release (cache s) m) (held s) (purging s) (busy s) (disk s) (store s)).

Definition pc_start (d : Z * Z → D) : conf D := Conf (Pcache ∅ ∅ [] [] 0 (λ _, 0) (λ _, 0) 0) (λ _, 0%nat) (λ _, 0%nat) (λ _, None) d d.
(** Fewer references are held to a page than its count can take. *)
Definition pc_bounded (s : conf D) : Prop := ∀ x, Z.of_nat (held s x) + 2 < REFCOUNT_MAX.
Definition pc_reachable (d : Z * Z → D) (s : conf D) : Prop := rtc (λ s s', pstep s s' ∧ pc_bounded s') (pc_start d) s.
End steps.

(** ** The invariant *)

#[local] Arguments slot : simpl never.

Section inv.
Context {D : Type}.
Implicit Types (c : pcache D) (p : cpage D) (P : gmap nat (cpage D)).

Definition slot_of P (x : nat) : option Z := p ← P !! x; if p_hashed p then Some (slot (p_key p)) else None.
Definition tab_ok (T : gmap Z (list nat)) (f : nat → option Z) : Prop := ∀ b x, x ∈ bucket T b ↔ f x = Some b.
Definition hashed_set P : gset nat := dom (filter (λ kp, p_hashed kp.2 = true) P).

(** What the page [x] is, given the references [n] to it, [g] of them of purges, whether it is busy,
    whether it is on the lists [dl] and [ll], and whether the mapping has seen no error. *)
Record page_ok (n g : nat) (b : option phase) (dl ll : Prop) (ok : Prop) (dk st : D) p : Prop := {
  k_refs : p_refs p = (if p_hashed p then 1 else 0) + Z.of_nat n ∧ 0 < p_refs p;
  k_dirty : dl ↔ p_hashed p = true ∧ p_state p ≠ 0;
  k_lru : ll → p_hashed p = true ∧ p_state p = 0 ∧ (n = 0%nat ∨ (0 < g)%nat);
  k_idle : p_hashed p = true → p_state p = 0 → n = 0%nat → ll;
  k_state : p_state p = 0 ∨ p_state p = CACHE_PAGE_DIRTY ∨ p_state p = CACHE_PAGE_WRITEBACK;
  k_writing : b = Some Writing ↔ p_state p = CACHE_PAGE_WRITEBACK;
  k_loading : b = Some Loading → p_hashed p = true ∧ p_state p = 0 ∧ ¬ ll;
  k_detached : p_hashed p = false → p_state p = 0;
  k_reserved : (g + match b with None => 0 | Some Loading => 1 | Some Writing => 2 end ≤ n)%nat;
  k_error : p_hashed p = true → b ≠ Some Loading → p_error p = 0;
  k_data : ok → p_hashed p = true → b ≠ Some Loading → p_data p = st;
  k_clean : ok → p_hashed p = true → p_state p = 0 → dk = st
}.

Definition at_page (s : conf D) (x : nat) : Prop :=
  match pages (cache s) !! x with
  | None => held s x = 0%nat ∧ purging s x = 0%nat ∧ busy s x = None ∧ (x ∉ dirty (cache s)) ∧ (x ∉ lru (cache s))
  | Some p => page_ok (held s x) (purging s x) (busy s x) (x ∈ dirty (cache s)) (x ∈ lru (cache s)) (m_error (cache s) (p_key p).1 = 0) (disk s (p_key p)) (store s (p_key p)) p
  end.

Record pc_inv (s : conf D) : Prop := {
  c_table : tab_ok (table (cache s)) (slot_of (pages (cache s)));
  c_unique : ∀ x y p q, pages (cache s) !! x = Some p → pages (cache s) !! y = Some q → p_hashed p = true → p_hashed q = true → p_key p = p_key q → x = y;
  c_next : ∀ x, is_Some (pages (cache s) !! x) → (x < next (cache s))%nat;
  c_nr : nr (cache s) = Z.of_nat (size (hashed_set (pages (cache s)))) ∧ nr (cache s) ≤ MAPPING_CACHE_PAGES;
  c_lists : NoDup (dirty (cache s)) ∧ NoDup (lru (cache s));
  c_page : ∀ x, at_page s x;
  c_absent : ∀ k, m_error (cache s) k.1 = 0 → (∀ x p, pages (cache s) !! x = Some p → p_hashed p = true → p_key p ≠ k) → disk s k = store s k
}.

Lemma page_ok_weaken n g b (dl dl' ll ll' ok ok' : Prop) dk dk' st st' p :
  page_ok n g b dl ll ok dk st p → (dl' ↔ dl) → (ll' ↔ ll) → (ok' → ok) → (p_hashed p = true → dk' = dk ∧ st' = st) → page_ok n g b dl' ll' ok' dk' st' p.
Proof.
  intros [] Hd Hl Hok Hs. split; [done|by rewrite Hd|by rewrite Hl|by rewrite Hl|done|done|by rewrite Hl|done..| |].
  - intros Ho Hh Hb. destruct (Hs Hh) as [_ ->]. auto.
  - intros Ho Hh Hb. destruct (Hs Hh) as [-> ->]. auto.
Qed.

(** A step that concerns one page. *)
Lemma inv_step x s s' :
  pc_inv s → tab_ok (table (cache s')) (slot_of (pages (cache s'))) →
  (∀ y z p q, pages (cache s') !! y = Some p → pages (cache s') !! z = Some q → p_hashed p = true → p_hashed q = true → p_key p = p_key q → y = z) →
  (∀ y, is_Some (pages (cache s') !! y) → (y < next (cache s'))%nat) →
  nr (cache s') = Z.of_nat (size (hashed_set (pages (cache s')))) ∧ nr (cache s') ≤ MAPPING_CACHE_PAGES →
  NoDup (dirty (cache s')) ∧ NoDup (lru (cache s')) →
  (∀ y, y ≠ x → pages (cache s') !! y = pages (cache s) !! y ∧ held s' y = held s y ∧ purging s' y = purging s y ∧ busy s' y = busy s y ∧
    (y ∈ dirty (cache s') ↔ y ∈ dirty (cache s)) ∧ (y ∈ lru (cache s') ↔ y ∈ lru (cache s))) →
  (∀ m, m_error (cache s') m = 0 → m_error (cache s) m = 0) →
  (∀ k, disk s' k = disk s k ∧ store s' k = store s k ∨ ∃ p, pages (cache s) !! x = Some p ∧ p_hashed p = true ∧ p_key p = k) →
  at_page s' x →
  (∀ p, pages (cache s) !! x = Some p → p_hashed p = true → m_error (cache s') (p_key p).1 = 0 →
    (∃ p', pages (cache s') !! x = Some p' ∧ p_hashed p' = true ∧ p_key p' = p_key p) ∨ disk s' (p_key p) = store s' (p_key p)) →
  pc_inv s'.
Proof.
  intros [H1 H2 H3 H4 H5 H6 H7] T1 T2 T3 T4 T5 Hoth Herr Hsto Hx Habs. split; [done..| |].
  - intros y. destruct (decide (y = x)) as [->|Hne]; [done|]. destruct (Hoth y Hne) as (E1&E2&E3&E4&E5&E6). specialize (H6 y). unfold at_page in *.
    rewrite E1. destruct (pages (cache s) !! y) as [q|] eqn:Ey; [|rewrite E2, E3, E4, E5, E6; done]. rewrite E2, E3, E4.
    apply (page_ok_weaken _ _ _ _ _ _ _ _ _ _ _ _ _ _ H6); [done..|apply Herr|]. intros Hh. destruct (Hsto (p_key q)) as [|(p&Hp&Hhp&Hk)]; [done|].
    destruct Hne. by apply (H2 y x q p).
  - intros k Hk Hno. 
    assert ((∃ p, pages (cache s) !! x = Some p ∧ p_hashed p = true ∧ p_key p = k) ∨ ¬ ∃ p, pages (cache s) !! x = Some p ∧ p_hashed p = true ∧ p_key p = k)
      as [(p&Hp&Hhp&<-)|Hn].
    { destruct (pages (cache s) !! x) as [p|]; [|right; by intros (?&?&_)]. destruct (decide (p_hashed p = true ∧ p_key p = k)) as [[? ?]|Hd]; [left; eauto|right].
      intros (q&[= <-]&?&?). by apply Hd. }
    + destruct (Habs p Hp Hhp Hk) as [(p'&Hp'&Hh'&Hk')|E]; [by destruct (Hno x p' Hp' Hh')|done].
    + destruct (Hsto k) as [[-> ->]|?]; [|done]. apply H7; [by apply Herr|]. intros y q Hy Hhq Hkq.
      destruct (decide (y = x)) as [->|Hne]; [apply Hn; eauto|]. apply (Hno y q); [by rewrite (proj1 (Hoth y Hne))|done..].
Qed.

Lemma same_hashed P x p p' :
  P !! x = Some p → p_key p' = p_key p → p_hashed p' = p_hashed p →
  (∀ y, slot_of (<[x := p']> P) y = slot_of P y) ∧ hashed_set (<[x := p']> P) = hashed_set P.
Proof.
  intros Hx Hk Hh. split.
  - intros y. unfold slot_of. destruct (decide (y = x)) as [->|]; [rewrite lookup_insert_eq, Hx; cbn; by rewrite Hk, Hh|by rewrite lookup_insert_ne].
  - apply set_eq. intros y. unfold hashed_set. rewrite !elem_of_dom. unfold is_Some. setoid_rewrite map_lookup_filter_Some. cbn [snd].
    destruct (decide (y = x)) as [->|]; [rewrite lookup_insert_eq, Hx|by rewrite lookup_insert_ne].
    split; intros (q&[= <-]&?); eexists; (split; [done|congruence]).
Qed.

(** A page changes, but for its key and whether it is in the table. *)
Lemma inv_page x s s' p p' :
  pc_inv s → pages (cache s) !! x = Some p → pages (cache s') = <[x := p']> (pages (cache s)) → p_key p' = p_key p → p_hashed p' = p_hashed p →
  table (cache s') = table (cache s) → nr (cache s') = nr (cache s) → next (cache s') = next (cache s) →
  NoDup (dirty (cache s')) ∧ NoDup (lru (cache s')) →
  (∀ y, y ≠ x → held s' y = held s y ∧ purging s' y = purging s y ∧ busy s' y = busy s y ∧
    (y ∈ dirty (cache s') ↔ y ∈ dirty (cache s)) ∧ (y ∈ lru (cache s') ↔ y ∈ lru (cache s))) →
  (∀ m, m_error (cache s') m = 0 → m_error (cache s) m = 0) →
  (∀ k, disk s' k = disk s k ∧ store s' k = store s k ∨ k = p_key p ∧ p_hashed p = true) →
  page_ok (held s' x) (purging s' x) (busy s' x) (x ∈ dirty (cache s')) (x ∈ lru (cache s')) (m_error (cache s') (p_key p).1 = 0) (disk s' (p_key p)) (store s' (p_key p)) p' →
  pc_inv s'.
Proof.
  intros Hi Hx HP Hk Hh HT Hnr Hnext Hl Hoth Herr Hsto Hok. destruct (same_hashed (pages (cache s)) x p p' Hx Hk Hh) as [Hslot Hset].
  assert (∀ y q, <[x := p']> (pages (cache s)) !! y = Some q → ∃ q0, pages (cache s) !! y = Some q0 ∧ p_key q = p_key q0 ∧ p_hashed q = p_hashed q0) as Hold.
  { intros y q [[<- <-]|[_ ?]]%lookup_insert_Some; eauto. }
  apply (inv_step x s s' Hi); rewrite ?HP, ?HT, ?Hnr, ?Hnext.
  - intros b y. rewrite Hslot. apply (c_table s Hi).
  - intros y z q r Hy Hz. apply Hold in Hy as (q0&Hy&?&?). apply Hold in Hz as (r0&Hz&?&?). intros. apply (c_unique s Hi y z q0 r0); congruence.
  - intros y [q Hy]. apply Hold in Hy as (q0&Hy&_). apply (c_next s Hi). eauto.
  - rewrite Hset. apply (c_nr s Hi).
  - done.
  - intros y Hy. rewrite lookup_insert_ne by done. split; [done|]. by apply Hoth.
  - done.
  - intros k. destruct (Hsto k) as [|[-> ?]]; [by left|right; eauto].
  - unfold at_page. rewrite HP, lookup_insert_eq. by rewrite Hk.
  - intros q Hq Hhq _. left. exists p'. rewrite lookup_insert_eq. split; [done|]. split; congruence.
Qed.

(** *** The table *)

Lemma bucket_insert T b0 l b : bucket (<[b0 := l]> T) b = if decide (b = b0) then l else bucket T b.
Proof. unfold bucket. case_decide; [subst; by rewrite lookup_insert_eq|by rewrite lookup_insert_ne by done]. Qed.

Lemma tab_add_ok T f b0 x : tab_ok T f → f x = None → tab_ok (tab_add T b0 x) (at_ x (Some b0) f).
Proof.
  intros Ht Hx b y. unfold tab_add, at_. rewrite bucket_insert. case_decide as Hb; [subst b; rewrite elem_of_cons|]; rewrite (Ht _ y); case_decide; subst; naive_solver.
Qed.

Lemma tab_del_ok T f b0 x : tab_ok T f → f x = Some b0 → tab_ok (tab_del T b0 x) (at_ x None f).
Proof.
  intros Ht Hx b y. unfold tab_del, at_. rewrite bucket_insert. case_decide as Hb; [subst b; rewrite list_elem_of_filter|]; rewrite (Ht _ y); case_decide; subst; naive_solver.
Qed.

Lemma tab_ext T f g : tab_ok T f → (∀ x, g x = f x) → tab_ok T g.
Proof. intros Ht He b x. rewrite He. apply Ht. Qed.

Lemma elem_hashed P x : x ∈ hashed_set P ↔ ∃ p, P !! x = Some p ∧ p_hashed p = true.
Proof. unfold hashed_set. rewrite elem_of_dom. unfold is_Some. by setoid_rewrite map_lookup_filter_Some. Qed.

Lemma pc_slot_insert P x p y : slot_of (<[x := p]> P) y = at_ x (if p_hashed p then Some (slot (p_key p)) else None) (slot_of P) y.
Proof. unfold slot_of, at_. case_decide; [subst; by rewrite lookup_insert_eq|by rewrite lookup_insert_ne]. Qed.

Lemma slot_delete P x y : slot_of (delete x P) y = at_ x None (slot_of P) y.
Proof. unfold slot_of, at_. case_decide; [subst; by rewrite lookup_delete_eq|by rewrite lookup_delete_ne]. Qed.

(** The page [x] leaves the table: it stays detached as [o] or is freed. *)
Lemma pc_inv_unhash x s s' p (o : option (cpage D)) :
  pc_inv s → pages (cache s) !! x = Some p → p_hashed p = true → pages (cache s') = partial_alter (λ _, o) x (pages (cache s)) →
  (∀ q, o = Some q → p_hashed q = false) → table (cache s') = tab_del (table (cache s)) (slot (p_key p)) x → nr (cache s') = nr (cache s) - 1 →
  next (cache s') = next (cache s) → NoDup (dirty (cache s')) ∧ NoDup (lru (cache s')) →
  (∀ y, y ≠ x → held s' y = held s y ∧ purging s' y = purging s y ∧ busy s' y = busy s y ∧
    (y ∈ dirty (cache s') ↔ y ∈ dirty (cache s)) ∧ (y ∈ lru (cache s') ↔ y ∈ lru (cache s))) →
  (∀ m, m_error (cache s') m = 0 → m_error (cache s) m = 0) →
  (∀ k, disk s' k = disk s k ∧ store s' k = store s k ∨ k = p_key p) → at_page s' x →
  (m_error (cache s') (p_key p).1 = 0 → disk s' (p_key p) = store s' (p_key p)) → pc_inv s'.
Proof.
  intros Hi Hx Hh HP Ho HT Hnr Hnext Hl Hoth Herr Hsto Hat Habs.
  assert (∀ y q, pages (cache s') !! y = Some q → p_hashed q = true → y ≠ x ∧ pages (cache s) !! y = Some q) as Hold.
  { intros y q Hy Hhq. rewrite HP in Hy. destruct (decide (y = x)) as [->|Hne]; [rewrite lookup_partial_alter_eq in Hy; apply Ho in Hy; congruence|].
    by rewrite lookup_partial_alter_ne in Hy by done. }
  assert (slot_of (pages (cache s)) x = Some (slot (p_key p))) as Hslot by (unfold slot_of; rewrite Hx; cbn; by rewrite Hh).
  apply (inv_step x s s' Hi).
  - rewrite HT. eapply tab_ext; [apply tab_del_ok; [apply (c_table s Hi)|done]|]. intros y. rewrite HP. unfold slot_of, at_.
    case_decide as Hy; [subst; rewrite lookup_partial_alter_eq; destruct o as [q|]; [cbn; by rewrite (Ho q eq_refl)|done]|by rewrite lookup_partial_alter_ne].
  - intros y z q r Hy Hz Hhq Hhr. apply Hold in Hy as [_ Hy]; [|done]. apply Hold in Hz as [_ Hz]; [|done]. by apply (c_unique s Hi y z q r).
  - intros y Hy. rewrite Hnext. apply (c_next s Hi). destruct (decide (y = x)) as [->|Hne]; [eauto|]. rewrite HP, lookup_partial_alter_ne in Hy by done. done.
  - destruct (c_nr s Hi) as [Hn Hmax]. rewrite Hnr. assert (hashed_set (pages (cache s)) = {[x]} ∪ hashed_set (pages (cache s'))) as E.
    { apply set_eq. intros y. rewrite elem_of_union, elem_of_singleton, !elem_hashed. split.
      - intros (q&Hy&Hhq). destruct (decide (y = x)) as [|Hne]; [by left|right]. exists q. by rewrite HP, lookup_partial_alter_ne.
      - intros [->|(q&Hy&Hhq)]; [eauto|]. apply Hold in Hy as [_ Hy]; [eauto|done]. }
    rewrite E, size_union, size_singleton in Hn; [lia|]. intros y ->%elem_of_singleton (q&Hq&Hhq)%elem_hashed. by apply Hold in Hq as [? _].
  - done.
  - intros y Hy. rewrite HP, lookup_partial_alter_ne by done. split; [done|]. by apply Hoth.
  - done.
  - intros k. destruct (Hsto k) as [|Hk]; [by left|subst k; right; eauto].
  - done.
  - intros q Hq _. assert (q = p) as -> by congruence. auto.
Qed.

(** The page [x] enters the table, being loaded. *)
Lemma inv_hash x s p n c f b :
  pc_inv s → cache s = c → held s = f → busy s = b → pages c !! x = Some p → p_hashed p = false → p_refs p = 1 → p_state p = 0 → n = nr c + 1 → n ≤ MAPPING_CACHE_PAGES →
  (∀ y q, pages c !! y = Some q → p_hashed q = true → p_key q ≠ p_key p) → purging s x = 0%nat → b x = None →
  pc_inv (Conf (hash_add c x (with_refs 2 p) n) f (purging s) (at_ x (Some Loading) b) (disk s) (store s)).
Proof.
  intros Hi <- <- <- Hx Hh Hrefs Hst -> Hmax Hfree Hpu Hb. set (p' := with_phashed true (with_refs 2 p)).
  pose proof (c_page s Hi x) as Hp. unfold at_page in Hp. rewrite Hx in Hp. destruct Hp as [K1 K2 K3 K4 K5 K6 K7 K8 K9 K10 K11 K12].
  rewrite Hh in K1. assert (held s x = 1%nat) as Hheld by lia.
  apply (inv_step x s _ Hi); cbn [cache held purging busy disk store hash_add set_table put_page set_pages pages table nr next dirty lru m_error].
  - eapply tab_ext; [apply tab_add_ok; [apply (c_table s Hi)|unfold slot_of; rewrite Hx; cbn; by rewrite Hh]|]. intros y. rewrite pc_slot_insert. done.
  - intros y z q r [[<- <-]|[Hy1 Hy]]%lookup_insert_Some [[<- <-]|[Hz1 Hz]]%lookup_insert_Some Hhq Hhr Hk; [done| | |by apply (c_unique s Hi y z q r)].
    + destruct (Hfree z r Hz Hhr). done.
    + by destruct (Hfree y q Hy Hhq).
  - intros y [<-|Hy]%lookup_insert_is_Some'; apply (c_next s Hi); eauto.
  - destruct (c_nr s Hi) as [Hn _]. split; [|done]. fold p'. assert (hashed_set (<[x := p']> (pages (cache s))) = {[x]} ∪ hashed_set (pages (cache s))) as ->.
    { apply set_eq. intros y. rewrite elem_of_union, elem_of_singleton, !elem_hashed. split.
      - intros (q&[[<- <-]|[_ Hy]]%lookup_insert_Some&Hhq); [by left|right; eauto].
      - intros [->|(q&Hy&Hhq)]; [exists p'; by rewrite lookup_insert_eq|]. exists q. rewrite lookup_insert_ne; [done|]. intros ->. congruence. }
    rewrite size_union, size_singleton; [lia|]. intros y ->%elem_of_singleton (q&Hq&Hhq)%elem_hashed. congruence.
  - apply (c_lists s Hi).
  - intros y Hy. rewrite lookup_insert_ne by done. unfold at_. rewrite decide_False by done. done.
  - done.
  - by left.
  - unfold at_page. cbn [hash_add cache held purging busy disk store set_table put_page set_pages pages dirty lru m_error]. rewrite lookup_insert_eq. unfold at_. rewrite decide_True by done.
    rewrite Hheld, Hpu. rewrite Hh in *. split; cbn [p' with_phashed with_refs p_hashed p_refs p_state p_error p_data p_key]; try done.
    + rewrite K2. naive_solver.
    + intros Hl. destruct (K3 Hl) as [? _]. done.
    + rewrite Hst. split; [done|]. by unfold CACHE_PAGE_WRITEBACK.
    + intros _. split; [done|]. split; [done|]. by intros [? _]%K3.
    + intros Ho _ _. apply (c_absent s Hi); [done|]. exact Hfree.
  - intros q Hq Hhq. congruence.
Qed.

Lemma inv_alloc s k d :
  pc_inv s → let c := cache s in let x := next c in
  pc_inv (Conf (Pcache (<[x := Cpage k 1 0 false 0 d]> (pages c)) (table c) (dirty c) (lru c) (nr c) (m_error c) (m_held c) (S x))
    (at_ x 1%nat (held s)) (purging s) (busy s) (disk s) (store s)) ∧ pages c !! x = None ∧ purging s x = 0%nat ∧ busy s x = None ∧ held s x = 0%nat.
Proof.
  intros Hi c x. assert (pages c !! x = None) as Hx by (apply eq_None_not_Some; intros H%(c_next s Hi); unfold x, c in H; lia).
  pose proof (c_page s Hi x) as Hp. unfold at_page in Hp. fold c in Hp. rewrite Hx in Hp. destruct Hp as (P1&P2&P3&P4&P5). split; [|done].
  apply (inv_step x s _ Hi); cbn [cache held purging busy disk store pages table nr next dirty lru m_error].
  - eapply tab_ext; [apply (c_table s Hi)|]. intros y. rewrite pc_slot_insert. unfold at_. case_decide; [subst y|done]. unfold slot_of. fold c. by rewrite Hx.
  - intros y z q r [[<- <-]|[Hy1 Hy]]%lookup_insert_Some [[<- <-]|[Hz1 Hz]]%lookup_insert_Some; try done. by apply (c_unique s Hi y z q r).
  - intros y [<-|Hy]%lookup_insert_is_Some'; [lia|]. pose proof (c_next s Hi y Hy). unfold x, c. lia.
  - assert (hashed_set (<[x := Cpage k 1 0 false 0 d]> (pages c)) = hashed_set (pages c)) as ->; [|apply (c_nr s Hi)].
    apply set_eq. intros y. rewrite !elem_hashed. split; [intros (q&[[<- <-]|[_ Hy]]%lookup_insert_Some&?); [done|eauto]|].
    intros (q&Hy&?). exists q. rewrite lookup_insert_ne; [done|]. intros ->. congruence.
  - apply (c_lists s Hi).
  - intros y Hy. rewrite lookup_insert_ne by done. unfold at_. rewrite decide_False by done. done.
  - done.
  - by left.
  - unfold at_page. cbn [cache held purging busy disk store pages dirty lru m_error]. rewrite lookup_insert_eq. unfold at_. rewrite decide_True by done.
    fold x c. rewrite P2, P3. split; cbn; try done; try tauto; try lia.
  - intros q Hq. fold c in Hq. congruence.
Qed.

(** A detached page that one thread holds is freed. *)
Lemma inv_free x s p :
  pc_inv s → pages (cache s) !! x = Some p → p_hashed p = false → held s x = 1%nat → purging s x = 0%nat → busy s x = None →
  pc_inv (Conf (cache_page_destroy (cache s) x) (at_ x 0%nat (held s)) (purging s) (busy s) (disk s) (store s)).
Proof.
  intros Hi Hx Hh Hf Hpu Hb. pose proof (c_page s Hi x) as Hp. unfold at_page in Hp. rewrite Hx in Hp. destruct Hp as [K1 K2 K3 K4 K5 K6 K7 K8 K9 K10 K11 K12].
  apply (inv_step x s _ Hi); cbn [cache held purging busy disk store cache_page_destroy set_pages pages table nr next dirty lru m_error].
  - eapply tab_ext; [apply (c_table s Hi)|]. intros y. rewrite slot_delete. unfold at_. case_decide; [subst y|done]. unfold slot_of. rewrite Hx. cbn. by rewrite Hh.
  - intros y z q r [_ Hy]%lookup_delete_Some [_ Hz]%lookup_delete_Some. by apply (c_unique s Hi y z q r).
  - intros y [q [_ Hy]%lookup_delete_Some]. apply (c_next s Hi). eauto.
  - assert (hashed_set (delete x (pages (cache s))) = hashed_set (pages (cache s))) as ->; [|apply (c_nr s Hi)].
    apply set_eq. intros y. rewrite !elem_hashed. split; [intros (q&[_ Hy]%lookup_delete_Some&?); eauto|].
    intros (q&Hy&?). exists q. rewrite lookup_delete_ne; [done|]. intros ->. congruence.
  - apply (c_lists s Hi).
  - intros y Hy. rewrite lookup_delete_ne by done. unfold at_. by rewrite decide_False by done.
  - done.
  - by left.
  - unfold at_page. cbn [cache held purging busy cache_page_destroy set_pages pages dirty lru]. rewrite lookup_delete_eq. unfold at_. rewrite decide_True by done.
    split_and!; try done; [rewrite K2|intros [? _]%K3]; rewrite Hh in *; naive_solver.
  - intros q Hq. congruence.
Qed.
End inv.

(** ** The operations *)

Section operations.
Context (CONFIG_DEBUG_REFCOUNT : bool) {D : Type}.
Implicit Types (c : pcache D) (p : cpage D) (s : conf D).

Lemma read_refs n : 0 ≤ n < REFCOUNT_MAX → refcount_read n = n.
Proof. intros Hn. unfold refcount_read. apply u32_small. unfold in_u32. unfold REFCOUNT_MAX, INT32_MAX in Hn. lia. Qed.

Lemma elem_without x y l : y ∈ without x l ↔ y ≠ x ∧ y ∈ l.
Proof. unfold without. by rewrite list_elem_of_filter. Qed.

(** Where [mapping_link] puts the page [x], and that it moves no other. *)
Definition relisted c x p (d l : list nat) : Prop :=
  (∀ y, y ≠ x → (y ∈ d ↔ y ∈ dirty c) ∧ (y ∈ l ↔ y ∈ lru c)) ∧ (x ∈ d ↔ p_hashed p = true ∧ p_state p ≠ 0) ∧
  (x ∈ l ↔ p_hashed p = true ∧ p_state p = 0 ∧ p_refs p = 1) ∧ (NoDup (dirty c) ∧ NoDup (lru c) → NoDup d ∧ NoDup l).

Lemma without_app x l : NoDup l → NoDup (without x l ++ [x]).
Proof.
  intros Hl. apply NoDup_app. split; [by apply list.NoDup_filter|]. split; [intros y [? _]%elem_without ->%list_elem_of_singleton; done|apply NoDup_singleton].
Qed.

Lemma pc_link_spec c x p :
  pages c !! x = Some p → 0 ≤ p_refs p < REFCOUNT_MAX → ∃ d l, mapping_link c x = Ok (set_lists c d l) ∧ relisted c x p d l.
Proof.
  intros Hx Hr. unfold mapping_link. rewrite Hx. cbn [deref res_bind]. rewrite read_refs by done.
  assert (∀ l, NoDup l → NoDup (without x l)) as Hnd by (intros l ?; by apply list.NoDup_filter).
  assert (∀ l y, y ≠ x → (y ∈ without x l ↔ y ∈ l) ∧ (y ∈ without x l ++ [x] ↔ y ∈ l)) as Hoth.
  { intros l y Hy. rewrite elem_of_app, list_elem_of_singleton, elem_without. tauto. }
  assert (∀ l, (x ∉ without x l) ∧ x ∈ without x l ++ [x]) as Hself.
  { intros l. rewrite elem_of_app, list_elem_of_singleton, elem_without. tauto. }
  unfold truth. destruct (p_hashed p) eqn:Eh; [destruct (Z.eqb_spec (p_state p) 0) as [Es|Es]; cbn [negb]; [destruct (Z.eqb_spec (p_refs p) 1) as [Er|Er]|]|];
    eexists _, _; (split; [reflexivity|]); (split; [intros y Hy; split; by apply Hoth|]);
    (split; [|split; [|intros [? ?]; split; auto using without_app]]); (split; [intros H|intros H]);
    first [exfalso; revert H; apply Hself|apply Hself|by split_and!|destruct H as (?&?&?); congruence|destruct H as (?&?); congruence].
Qed.

Definition others {A} (x : nat) (f f' : nat → A) : Prop := ∀ y, y ≠ x → f' y = f y.

Lemma others_at {A} x (v : A) f : others x f (at_ x v f).
Proof. intros y Hy. unfold at_. by rewrite decide_False. Qed.

(** A page changes and is linked again. *)
Lemma inv_relinked x s p p' d l f' g' b' er mh dk st :
  pc_inv s → pages (cache s) !! x = Some p → p_key p' = p_key p → p_hashed p' = p_hashed p → relisted (cache s) x p' d l →
  others x (held s) f' → others x (purging s) g' → others x (busy s) b' → (∀ m, er m = 0 → m_error (cache s) m = 0) →
  (∀ k, dk k = disk s k ∧ st k = store s k ∨ k = p_key p ∧ p_hashed p = true) →
  p_refs p' = (if p_hashed p then 1 else 0) + Z.of_nat (f' x) → 0 < p_refs p' →
  (p_state p' = 0 ∨ p_state p' = CACHE_PAGE_DIRTY ∨ p_state p' = CACHE_PAGE_WRITEBACK) → (b' x = Some Writing ↔ p_state p' = CACHE_PAGE_WRITEBACK) →
  (b' x = Some Loading → p_hashed p = true ∧ p_state p' = 0) → (p_hashed p = false → p_state p' = 0) →
  (g' x + match b' x with None => 0 | Some Loading => 1 | Some Writing => 2 end ≤ f' x)%nat → (p_hashed p = true → b' x ≠ Some Loading → p_error p' = 0) →
  (er (p_key p).1 = 0 → p_hashed p = true → b' x ≠ Some Loading → p_data p' = st (p_key p)) →
  (er (p_key p).1 = 0 → p_hashed p = true → p_state p' = 0 → dk (p_key p) = st (p_key p)) →
  pc_inv (Conf (Pcache (<[x := p']> (pages (cache s))) (table (cache s)) d l (nr (cache s)) er mh (next (cache s))) f' g' b' dk st).
Proof.
  intros Hi Hx Hk Hh (R1&R2&R3&R4) Of Og Ob Herr Hsto A1 A2 A3 A4 A5 A6 A7 A8 A9 A10.
  apply (inv_page x s _ p p'); cbn [cache held purging busy disk store pages table nr next dirty lru m_error]; try done.
  - apply R4, (c_lists s Hi).
  - intros y Hy. rewrite (Of y Hy), (Og y Hy), (Ob y Hy). split_and!; try done; by apply R1.
  - split; rewrite ?Hh; try done.
    + by rewrite <-Hh.
    + rewrite R3, Hh. intros (?&?&Hr). split; [done|]. split; [done|]. left. rewrite A1 in Hr. destruct (p_hashed p); [lia|done].
    + intros Hh' Hs Hn. apply R3. rewrite Hh. split; [done|]. split; [done|]. rewrite A1, Hh', Hn. done.
    + intros Hl. destruct (A5 Hl) as [? ?]. split; [done|]. split; [done|]. rewrite R3, Hh. intros (_&_&Hr). rewrite Hl in A7. rewrite A1 in Hr. destruct (p_hashed p); [lia|done].
Qed.

Lemma found_page s x p :
  pc_inv s → pages (cache s) !! x = Some p →
  page_ok (held s x) (purging s x) (busy s x) (x ∈ dirty (cache s)) (x ∈ lru (cache s)) (m_error (cache s) (p_key p).1 = 0) (disk s (p_key p)) (store s (p_key p)) p.
Proof. intros Hi Hx. pose proof (c_page s Hi x) as Hp. unfold at_page in Hp. by rewrite Hx in Hp. Qed.

Lemma held_page s x : pc_inv s → (0 < held s x)%nat → ∃ p, pages (cache s) !! x = Some p.
Proof. intros Hi Hf. pose proof (c_page s Hi x) as Hp. unfold at_page in Hp. destruct (pages (cache s) !! x); [eauto|lia]. Qed.

Lemma pc_get_ok c x p : pages c !! x = Some p → 0 < p_refs p < REFCOUNT_MAX → page_get CONFIG_DEBUG_REFCOUNT c x = Ok (put_page c x (with_refs (p_refs p + 1) p)).
Proof. intros Hx Hr. unfold page_get. rewrite Hx. cbn [deref res_bind]. by rewrite inc_ok. Qed.

Lemma drop_ok c x p : pages c !! x = Some p → 1 < p_refs p → page_drop CONFIG_DEBUG_REFCOUNT c x = Ok (put_page c x (with_refs (p_refs p - 1) p)).
Proof. intros Hx Hr. unfold page_drop. rewrite Hx. cbn [deref res_bind]. by rewrite dec_ref. Qed.

Lemma refs_bound s x p : pc_inv s → Z.of_nat (held s x) + 2 < REFCOUNT_MAX → pages (cache s) !! x = Some p → 0 < p_refs p < REFCOUNT_MAX.
Proof. intros Hi Hb Hx. destruct (k_refs _ _ _ _ _ _ _ _ _ (found_page s x p Hi Hx)) as [E ?]. destruct (p_hashed p); lia. Qed.

(** *** Searching *)

Lemma page_find_in c k l :
  (∀ x, x ∈ l → is_Some (pages c !! x)) →
  ∃ o, find_in c k l = Ok o ∧ match o with Some x => x ∈ l ∧ ∃ p, pages c !! x = Some p ∧ p_key p = k | None => ∀ x p, x ∈ l → pages c !! x = Some p → p_key p ≠ k end.
Proof.
  induction l as [|x l IH]; intros Hl; [exists None; split; [done|]; by intros ?? ?%not_elem_of_nil|]. cbn [find_in].
  destruct (Hl x) as [p Hp]; [by left|]. rewrite Hp. cbn [deref res_bind]. case_bool_decide as Hk; [exists (Some x); split; [done|]; split; [by left|eauto]|].
  destruct IH as (o&->&Ho); [intros y Hy; apply Hl; by right|]. exists o. split; [done|].
  destruct o as [y|]; [destruct Ho; split; [by right|done]|]. intros y q [->|Hy]%elem_of_cons Hq; [congruence|eauto].
Qed.

Lemma mapping_find_spec c k :
  tab_ok (table c) (slot_of (pages c)) →
  ∃ o, mapping_find c k = Ok o ∧ match o with
    | Some x => ∃ p, pages c !! x = Some p ∧ p_hashed p = true ∧ p_key p = k
    | None => ∀ x p, pages c !! x = Some p → p_hashed p = true → p_key p ≠ k end.
Proof.
  intros Ht. destruct (page_find_in c k (bucket (table c) (slot k))) as (o&E&Ho).
  { intros x Hx%Ht. unfold slot_of in Hx. destruct (pages c !! x); [eauto|done]. }
  exists o. split; [exact E|]. destruct o as [x|].
  - destruct Ho as (Hx%Ht&p&Hp&Hk). exists p. split; [done|]. split; [|done]. unfold slot_of in Hx. rewrite Hp in Hx. cbn in Hx. by destruct (p_hashed p).
  - intros x p Hp Hh Hk. apply (Ho x p); [|done|done]. apply Ht. unfold slot_of. rewrite Hp. cbn. by rewrite Hh, Hk.
Qed.

(** *** One lemma per section *)

(** Taking a reference and linking the page again. *)
Lemma share_inv s x p :
  pc_inv s → pc_bounded s → pages (cache s) !! x = Some p → p_hashed p = true →
  ∃ c, (let! c := page_get CONFIG_DEBUG_REFCOUNT (cache s) x in mapping_link c x) = Ok c ∧
    pc_inv (Conf c (at_ x (S (held s x)) (held s)) (purging s) (busy s) (disk s) (store s)) ∧
    (∀ y, y ≠ x → pages c !! y = pages (cache s) !! y) ∧ next c = next (cache s).
Proof.
  intros Hi Hb Hx Hh. pose proof (refs_bound s x p Hi (Hb x) Hx) as Hr. rewrite (pc_get_ok _ _ p) by done. cbn [res_bind]. set (p' := with_refs (p_refs p + 1) p).
  pose proof (found_page s x p Hi Hx) as [K1 K2 K3 K4 K5 K6 K7 K8 K9 K10 K11 K12]. rewrite Hh in K1. pose proof (Hb x) as Hbx.
  destruct (pc_link_spec (put_page (cache s) x p') x p') as (d&l&->&Hl); [apply lookup_insert_eq|cbn; lia|]. eexists. split; [done|]. split; [|split; [|done]].
  - apply (inv_relinked x s p p' d l); try done.
    + apply others_at.
    + by left.
    + unfold at_. rewrite decide_True by done. rewrite Hh. cbn. lia.
    + cbn. lia.
    + intros E. destruct (K7 E) as (?&?&_). done.
    + unfold at_. rewrite decide_True by done. lia.
  - intros y Hy. cbn. by rewrite lookup_insert_ne.
Qed.

Lemma get_found_spec s k :
  pc_inv s → pc_bounded s →
  ∃ o c, get_found CONFIG_DEBUG_REFCOUNT (cache s) k = Ok (o, c) ∧ match o with
    | None => c = cache s ∧ ∀ x p, pages (cache s) !! x = Some p → p_hashed p = true → p_key p ≠ k
    | Some x => (∃ p, pages (cache s) !! x = Some p ∧ p_hashed p = true ∧ p_key p = k) ∧ (∀ y, y ≠ x → pages c !! y = pages (cache s) !! y) ∧
        pc_inv (Conf c (at_ x (S (held s x)) (held s)) (purging s) (busy s) (disk s) (store s)) end.
Proof.
  intros Hi Hb. unfold get_found. destruct (mapping_find_spec (cache s) k (c_table s Hi)) as (o&->&Ho). cbn [res_bind]. destruct o as [x|]; [|by exists None, (cache s)].
  destruct Ho as (p&Hx&Hh&Hk). destruct (share_inv s x p Hi Hb Hx Hh) as (c&E&Hc&Hoth&_).
  destruct (page_get CONFIG_DEBUG_REFCOUNT (cache s) x) as [c1| | |]; cbn [res_bind] in *; [|done..]. rewrite E. cbn [res_bind]. exists (Some x), c. split; [done|]. split; [eauto|done].
Qed.

Lemma put_spec s x :
  pc_inv s → pc_bounded s → free_page s x →
  ∃ c, mapping_put CONFIG_DEBUG_REFCOUNT (cache s) x = Ok c ∧ pc_inv (Conf c (at_ x (pred (held s x)) (held s)) (purging s) (busy s) (disk s) (store s)).
Proof.
  intros Hi Hb Hf. unfold free_page, reserved in Hf. destruct (held_page s x Hi ltac:(lia)) as [p Hx]. pose proof (refs_bound s x p Hi (Hb x) Hx) as Hr.
  pose proof (found_page s x p Hi Hx) as [K1 K2 K3 K4 K5 K6 K7 K8 K9 K10 K11 K12].
  unfold mapping_put. rewrite Hx. cbn [deref res_bind]. rewrite read_refs by lia. unfold truth. rewrite (proj2 (Z.eqb_neq (p_refs p) 0)) by lia. cbn [negb Assert res_bind].
  rewrite dec_ok by lia. cbn [res_bind]. destruct (Z.eqb_spec (p_refs p) 1) as [E1|E1].
  - assert (p_hashed p = false ∧ held s x = 1%nat) as [Hh Hn] by (destruct (p_hashed p); lia). rewrite Hh. cbn [negb Assert res_bind].
    eexists. split; [done|]. unfold cache_page_destroy, put_page, set_pages. cbn [pages table dirty lru nr m_error m_held next]. rewrite delete_insert_eq, Hn.
    assert (purging s x = 0%nat ∧ busy s x = None) as [Hg Hbz] by (destruct (busy s x) as [[]|]; lia || (split; [lia|done])).
    exact (inv_free x s p Hi Hx Hh Hn Hg Hbz).
  - set (p' := with_refs (p_refs p - 1) p). destruct (pc_link_spec (put_page (cache s) x p') x p') as (d&l&->&Hl); [apply lookup_insert_eq|cbn; lia|].
    eexists. split; [done|]. apply (inv_relinked x s p p' d l); try done.
    + apply others_at.
    + by left.
    + unfold at_. rewrite decide_True by done. cbn. lia.
    + cbn. lia.
    + intros E. destruct (K7 E) as (?&?&_). done.
    + unfold at_. rewrite decide_True by done. lia.
Qed.

Lemma clean_or_dirty n g b dl ll ok dk st p : page_ok (D := D) n g b dl ll ok dk st p → b ≠ Some Writing → p_state p = 0 ∨ p_state p = CACHE_PAGE_DIRTY.
Proof. intros K Hb. destruct (k_state _ _ _ _ _ _ _ _ _ K) as [|[|E]]; [by left|by right|]. by apply (k_writing _ _ _ _ _ _ _ _ _ K) in E. Qed.

Lemma write_spec s x p d :
  pc_inv s → pc_bounded s → busy s x = None → pages (cache s) !! x = Some p → p_hashed p = true →
  ∃ c, mapping_dirty (cache s) x d = Ok c ∧ pc_inv (Conf c (held s) (purging s) (busy s) (disk s) (at_key (p_key p) d (store s))).
Proof.
  intros Hi Hb Hbz Hx Hh. pose proof (refs_bound s x p Hi (Hb x) Hx) as Hr. pose proof (found_page s x p Hi Hx) as K.
  pose proof (clean_or_dirty _ _ _ _ _ _ _ _ _ K ltac:(by rewrite Hbz)) as Hst. destruct K as [K1 K2 K3 K4 K5 K6 K7 K8 K9 K10 K11 K12].
  unfold mapping_dirty. rewrite Hx. cbn [deref res_bind]. rewrite Hh. cbn [Assert res_bind].
  set (p1 := with_load (p_error p) d p). set (p' := with_pstate CACHE_PAGE_DIRTY p1).
  assert (∃ mh, (if negb (truth (Z.land (p_state p1) CACHE_PAGE_DIRTY))
    then put_page (mapping_hold (put_page (cache s) x p1) (p_key p1).1) x (with_pstate (Z.lor (p_state p1) CACHE_PAGE_DIRTY) p1) else put_page (cache s) x p1) =
    Pcache (<[x := p']> (pages (cache s))) (table (cache s)) (dirty (cache s)) (lru (cache s)) (nr (cache s)) (m_error (cache s)) mh (next (cache s))) as [mh ->].
  { destruct Hst as [E|E].
    - eexists. change (p_state p1) with (p_state p). rewrite E. cbn [Z.land truth negb Z.eqb]. unfold put_page, set_pages, mapping_hold. cbn [pages table dirty lru nr m_error m_held next].
      rewrite insert_insert_eq. done.
    - exists (m_held (cache s)). change (p_state p1) with (p_state p). rewrite E. change (negb (truth (Z.land CACHE_PAGE_DIRTY CACHE_PAGE_DIRTY))) with false. cbn [negb].
      unfold p', p1, with_pstate, with_load. cbn. rewrite <-E. by destruct (cache s). }
  destruct (pc_link_spec (Pcache (<[x := p']> (pages (cache s))) (table (cache s)) (dirty (cache s)) (lru (cache s)) (nr (cache s)) (m_error (cache s)) mh (next (cache s))) x p') as (d'&l&->&Hl);
    [apply lookup_insert_eq|cbn; lia|]. eexists. split; [done|]. apply (inv_relinked x s p p' d' l); try done.
  - intros k. unfold at_key. case_decide; [by right|by left].
  - apply K1.
  - apply Hr.
  - right. by left.
  - by rewrite Hbz.
  - by rewrite Hbz.
  - by rewrite Hh.
  - intros _ _ _. unfold at_key. by rewrite decide_True.
Qed.

Lemma put_twice c x p q : put_page (put_page c x p) x q = put_page c x q.
Proof. unfold put_page, set_pages. cbn. by rewrite insert_insert_eq. Qed.

Lemma begin_spec s x :
  pc_inv s → pc_bounded s → free_page s x → busy s x = None →
  ∃ b c, writeback_begin CONFIG_DEBUG_REFCOUNT (cache s) x = Ok (b, c) ∧ if b : bool
    then pc_inv (Conf c (at_ x (S (held s x)) (held s)) (purging s) (at_ x (Some Writing) (busy s)) (disk s) (store s)) else c = cache s.
Proof.
  intros Hi Hb Hf Hbz. unfold free_page, reserved in Hf. rewrite Hbz in Hf. destruct (held_page s x Hi ltac:(lia)) as [p Hx]. pose proof (refs_bound s x p Hi (Hb x) Hx) as Hr.
  pose proof (found_page s x p Hi Hx) as K. pose proof (clean_or_dirty _ _ _ _ _ _ _ _ _ K ltac:(by rewrite Hbz)) as Hst. destruct K as [K1 K2 K3 K4 K5 K6 K7 K8 K9 K10 K11 K12].
  unfold writeback_begin. rewrite Hx. cbn [deref res_bind]. destruct Hst as [E|E]; rewrite E; cbn; [by exists false, (cache s)|].
  assert (p_hashed p = true) as Hh by (destruct (p_hashed p); [done|]; rewrite K8 in E by done; done). rewrite Hh in K1. pose proof (Hb x) as Hbx.
  rewrite (pc_get_ok _ _ (with_pstate CACHE_PAGE_WRITEBACK p)) by (apply lookup_insert_eq || done). cbn [res_bind].
  set (p' := with_refs (p_refs p + 1) (with_pstate CACHE_PAGE_WRITEBACK p)).
  rewrite put_twice. destruct (pc_link_spec (put_page (cache s) x p') x p') as (d&l&E'&Hl); [apply lookup_insert_eq|cbn; lia|].
  change (with_refs (p_refs (with_pstate CACHE_PAGE_WRITEBACK p) + 1) (with_pstate CACHE_PAGE_WRITEBACK p)) with p'.
  rewrite E'. cbn [res_bind]. eexists true, _. split; [done|]. apply (inv_relinked x s p p' d l); try done.
  - apply others_at.
  - apply others_at.
  - by left.
  - unfold at_. rewrite decide_True by done. rewrite Hh. cbn. lia.
  - cbn. lia.
  - by right; right.
  - unfold at_. by rewrite decide_True.
  - unfold at_. by rewrite decide_True.
  - by rewrite Hh.
  - unfold at_. rewrite !decide_True by done. lia.
  - intros _ _. apply K10; [done|]. by rewrite Hbz.
  - intros Ho _ _. cbn. apply K11; [done..|]. by rewrite Hbz.
Qed.

Lemma pc_end_spec s x p ret d :
  pc_inv s → pc_bounded s → busy s x = Some Writing → pages (cache s) !! x = Some p → (ret = 0 → d = p_data p) →
  ∃ c, writeback_end CONFIG_DEBUG_REFCOUNT (cache s) x ret = Ok c ∧
    pc_inv (Conf c (at_ x (pred (held s x)) (held s)) (purging s) (at_ x None (busy s)) (at_key (p_key p) d (disk s)) (store s)).
Proof.
  intros Hi Hb Hbz Hx Hd. pose proof (refs_bound s x p Hi (Hb x) Hx) as Hr. pose proof (found_page s x p Hi Hx) as [K1 K2 K3 K4 K5 K6 K7 K8 K9 K10 K11 K12].
  assert (p_state p = CACHE_PAGE_WRITEBACK) as E by (by apply K6). assert (p_hashed p = true) as Hh by (destruct (p_hashed p); [done|]; rewrite K8 in E by done; done).
  rewrite Hh in K1. rewrite Hbz in K9. unfold writeback_end. rewrite Hx. cbn [deref res_bind].
  set (er := if truth ret then λ k, if k =? (p_key p).1 then ret else m_error (cache s) k else m_error (cache s)).
  assert ((if truth ret then set_error (put_page (cache s) x (with_pstate 0 p)) (p_key p).1 ret else put_page (cache s) x (with_pstate 0 p)) =
    Pcache (<[x := with_pstate 0 p]> (pages (cache s))) (table (cache s)) (dirty (cache s)) (lru (cache s)) (nr (cache s)) er (m_held (cache s)) (next (cache s))) as ->
    by (unfold er; by destruct (truth ret)).
  rewrite (drop_ok _ _ (with_pstate 0 p)) by (cbn; try lia; apply lookup_insert_eq). cbn [res_bind]. unfold put_page, set_pages. cbn [pages table dirty lru nr m_error m_held next].
  rewrite insert_insert_eq. set (p' := with_refs (p_refs (with_pstate 0 p) - 1) (with_pstate 0 p)).
  destruct (pc_link_spec (Pcache (<[x := p']> (pages (cache s))) (table (cache s)) (dirty (cache s)) (lru (cache s)) (nr (cache s)) er (m_held (cache s)) (next (cache s))) x p')
    as (d'&l&->&Hl); [apply lookup_insert_eq|cbn; lia|]. cbn [res_bind]. eexists. split; [done|].
  apply (inv_relinked x s p p' d' l); try done.
  - apply others_at.
  - apply others_at.
  - intros m. cbn. unfold er. unfold truth. destruct (Z.eqb_spec ret 0); cbn [negb]; [done|]. by destruct (m =? (p_key p).1).
  - intros k. unfold at_key. case_decide; [by right|by left].
  - unfold at_. rewrite decide_True by done. rewrite Hh. cbn. lia.
  - cbn. lia.
  - by left.
  - unfold at_. rewrite decide_True by done. by cbn.
  - unfold at_. rewrite !decide_True by done. lia.
  - intros _ _. apply K10; [done|]. by rewrite Hbz.
  - intros Ho _ _. apply K11; [|done|by rewrite Hbz]. revert Ho. cbn. unfold er, truth. destruct (Z.eqb_spec ret 0); cbn [negb]; [done|]. by rewrite Z.eqb_refl.
  - intros Ho _ _. unfold at_key. rewrite decide_True by done. revert Ho. cbn. unfold er, truth. destruct (Z.eqb_spec ret 0) as [E0|E0]; cbn [negb]; [|by rewrite Z.eqb_refl].
    intros Ho. rewrite (Hd E0). apply K11; [done..|by rewrite Hbz].
Qed.

Lemma loaded_spec s x p ret d :
  pc_inv s → pc_bounded s → busy s x = Some Loading → pages (cache s) !! x = Some p → (ret = 0 → d = disk s (p_key p)) →
  ∃ c, get_loaded CONFIG_DEBUG_REFCOUNT (cache s) x ret d = Ok c ∧ pc_inv (Conf c (held s) (purging s) (at_ x None (busy s)) (disk s) (store s)).
Proof.
  intros Hi Hb Hbz Hx Hd. pose proof (refs_bound s x p Hi (Hb x) Hx) as Hr. pose proof (found_page s x p Hi Hx) as [K1 K2 K3 K4 K5 K6 K7 K8 K9 K10 K11 K12].
  destruct (K7 Hbz) as (Hh&E&Hnl). rewrite Hh in K1. rewrite Hbz in K9. unfold get_loaded, truth. rewrite Hx. cbn [deref res_bind].
  destruct (Z.eqb_spec ret 0) as [E0|E0]; cbn [negb].
  - eexists. split; [done|]. apply (inv_page x s _ p (with_load ret d p)); try done; cbn [cache held purging busy disk store put_page set_pages pages dirty lru m_error].
    + apply (c_lists s Hi).
    + intros y Hy. rewrite (others_at x None (busy s) y Hy). done.
    + by left.
    + unfold at_. rewrite decide_True by done. split; cbn [with_load p_refs p_hashed p_state p_error p_data]; rewrite ?Hh; try done; try lia.
      * by rewrite K2, Hh.
      * rewrite E. split; [done|]. by unfold CACHE_PAGE_WRITEBACK.
      * intros Ho _ _. rewrite (Hd E0). by apply K12.
      * intros Ho _. by apply K12.
  - rewrite (drop_ok _ _ (with_phashed false (with_load ret d p))) by (cbn; try lia; apply lookup_insert_eq). eexists. split; [done|].
    apply (pc_inv_unhash x s _ p (Some (with_refs (p_refs p - 1) (with_phashed false (with_load ret d p))))); try done; cbn [cache held purging busy disk store hash_del put_page set_pages set_table pages table nr next dirty lru m_error].
    + by rewrite insert_insert_eq.
    + by intros q [= <-].
    + apply (c_lists s Hi).
    + intros y Hy. rewrite (others_at x None (busy s) y Hy). done.
    + by left.
    + unfold at_page. cbn [cache held purging busy disk store hash_del put_page set_pages set_table pages dirty lru m_error]. rewrite lookup_insert_eq. unfold at_. rewrite decide_True by done.
      split; cbn [with_refs with_phashed with_load p_refs p_hashed p_state p_error p_data p_key]; try done; try lia.
      * rewrite K2, E. naive_solver.
      * rewrite E. split; [done|]. by unfold CACHE_PAGE_WRITEBACK.
    + intros Ho. by apply K12.
Qed.

Lemma pc_inv_ext c f f' g b dk st : (∀ x, f' x = f x) → pc_inv (Conf (D := D) c f g b dk st) → pc_inv (Conf c f' g b dk st).
Proof. intros He [H1 H2 H3 H4 H5 H6 H7]. split; [done..| |done]. intros x. specialize (H6 x). unfold at_page in *. cbn in *. by rewrite He. Qed.

(** A reference taken without linking: of a page on no list of idle ones, or for a purge. *)
Lemma grab_inv s x p g' mh :
  pc_inv s → Z.of_nat (held s x) + 2 < REFCOUNT_MAX → pages (cache s) !! x = Some p → others x (purging s) g' →
  ((x ∉ lru (cache s)) ∧ g' x = purging s x ∨ g' x = S (purging s x)) →
  let c := Pcache (pages (cache s)) (table (cache s)) (dirty (cache s)) (lru (cache s)) (nr (cache s)) (m_error (cache s)) mh (next (cache s)) in
  ∃ c', page_get CONFIG_DEBUG_REFCOUNT c x = Ok c' ∧ pc_inv (Conf c' (at_ x (S (held s x)) (held s)) g' (busy s) (disk s) (store s)) ∧
    (∀ y, y ≠ x → pages c' !! y = pages (cache s) !! y) ∧ dirty c' = dirty (cache s) ∧ lru c' = lru (cache s).
Proof.
  intros Hi Hb Hx Hg Hl c. pose proof (refs_bound s x p Hi Hb Hx) as Hr. rewrite (pc_get_ok c x p) by done. eexists. split; [done|].
  split; [|split; [intros y Hy; cbn; by rewrite lookup_insert_ne|done]]. pose proof (found_page s x p Hi Hx) as [K1 K2 K3 K4 K5 K6 K7 K8 K9 K10 K11 K12].
  apply (inv_page x s _ p (with_refs (p_refs p + 1) p)); try done; cbn [cache held purging busy disk store put_page set_pages pages dirty lru m_error c].
  - apply (c_lists s Hi).
  - intros y Hy. rewrite (others_at x (S (held s x)) (held s) y Hy), (Hg y Hy). done.
  - by left.
  - unfold at_. rewrite decide_True by done. split; cbn [with_refs p_refs p_hashed p_state p_error p_data]; try done.
    + lia.
    + intros Hll. destruct (K3 Hll) as (?&?&_). split; [done|]. split; [done|]. right. destruct Hl as [[? _]| ->]; [done|lia].
    + destruct Hl as [[_ ->]| ->]; lia.
Qed.

Lemma collect_spec l m s :
  pc_inv s → (∀ x, x ∈ l → Z.of_nat (held s x) + 2 < REFCOUNT_MAX) → NoDup l → (∀ x, x ∈ l → x ∈ dirty (cache s)) →
  ∃ xs c, collect_loop CONFIG_DEBUG_REFCOUNT (cache s) m l = Ok (xs, c) ∧ (∀ x, x ∈ xs → x ∈ l) ∧
    pc_inv (Conf c (λ x, if decide (x ∈ xs) then S (held s x) else held s x) (purging s) (busy s) (disk s) (store s)).
Proof.
  intros Hi Hb Hnd. revert s Hi Hb. induction Hnd as [|x l Hnew Hnd IH]; intros s Hi Hb Hsub.
  - exists [], (cache s). split; [done|]. split; [done|]. apply (pc_inv_ext _ (held s)); [|by destruct s]. intros x. by rewrite decide_False by apply not_elem_of_nil.
  - assert (x ∈ dirty (cache s)) as Hd by (apply Hsub; by left). pose proof (c_page s Hi x) as Hp. unfold at_page in Hp.
    destruct (pages (cache s) !! x) as [p|] eqn:Hx; [|destruct Hp as (_&_&_&?&_); done]. cbn [collect_loop]. rewrite Hx. cbn [deref res_bind]. case_bool_decide as Hm; cbn [negb].
    + destruct (grab_inv s x p (purging s) (m_held (mapping_hold (cache s) (p_key p).1)) Hi (Hb x ltac:(by left)) Hx) as (c1&E1&Hi1&Ho1&Hd1&Hl1).
      { done. }
      { left. split; [|done]. intros Hll. destruct (k_lru _ _ _ _ _ _ _ _ _ Hp Hll) as (_&Hs0&_). destruct (proj1 (k_dirty _ _ _ _ _ _ _ _ _ Hp) Hd) as [_ Hs1]. done. }
      unfold mapping_hold at 1. cbn [mapping_hold m_held] in E1. rewrite E1. cbn [res_bind].
      destruct (IH _ Hi1) as (xs&c&E&Hxs&Hi').
      { intros y Hy. cbn [held]. unfold at_. rewrite decide_False by (intros ->; done). apply Hb. by right. }
      { intros y Hy. cbn [cache]. rewrite Hd1. apply Hsub. by right. }
      cbn [cache] in E. rewrite E. cbn [res_bind]. exists (x :: xs), c. split; [done|]. split; [intros y [->|Hy]%elem_of_cons; [by left|right; auto]|].
      cbn [held purging busy disk store] in Hi'. eapply pc_inv_ext; [|exact Hi']. intros y. cbn. unfold at_.
      destruct (decide (y = x)) as [->|Hne]; [rewrite decide_True by (by left); by rewrite decide_False by (intros ?%Hxs; done)|].
      repeat case_decide; try done; exfalso; set_solver.
    + destruct (IH s Hi) as (xs&c&E&Hxs&Hi'); [intros y Hy; apply Hb; by right|intros y Hy; apply Hsub; by right|]. exists xs, c. split; [done|]. split; [intros y Hy; right; auto|done].
Qed.

Lemma pc_remove_spec s x p :
  pc_inv s → pc_bounded s → (0 < purging s x)%nat → busy s x = None → pages (cache s) !! x = Some p →
  ∃ b c, purge_remove CONFIG_DEBUG_REFCOUNT (cache s) x = Ok (b, c) ∧
    pc_inv (Conf c (held s) (at_ x (pred (purging s x)) (purging s)) (busy s) (disk s) (if p_hashed p then at_key (p_key p) (disk s (p_key p)) (store s) else store s)).
Proof.
  intros Hi Hb Hg Hbz Hx. pose proof (refs_bound s x p Hi (Hb x) Hx) as Hr. pose proof (found_page s x p Hi Hx) as K.
  pose proof (clean_or_dirty _ _ _ _ _ _ _ _ _ K ltac:(by rewrite Hbz)) as Hst. destruct K as [K1 K2 K3 K4 K5 K6 K7 K8 K9 K10 K11 K12].
  unfold purge_remove. rewrite Hx. cbn [deref res_bind]. destruct (p_hashed p) eqn:Hh.
  - assert (truth (Z.land (p_state p) CACHE_PAGE_WRITEBACK) = false) as -> by (destruct Hst as [->| ->]; done). cbn [negb Assert res_bind].
    rewrite (drop_ok _ _ (with_phashed false (with_pstate 0 p))) by (cbn; try lia; apply lookup_insert_eq). cbn [res_bind]. eexists _, _. split; [done|].
    apply (pc_inv_unhash x s _ p (Some (with_refs (p_refs p - 1) (with_phashed false (with_pstate 0 p))))); try done;
      cbn [cache held purging busy disk store hash_del set_lists put_page set_pages set_table pages table nr next dirty lru m_error].
    + by rewrite insert_insert_eq.
    + by intros q [= <-].
    + destruct (c_lists s Hi). by split; apply list.NoDup_filter.
    + intros y Hy. rewrite (others_at x _ (purging s) y Hy). rewrite !elem_without. split_and!; try done; naive_solver.
    + intros k. unfold at_key. case_decide; [by right|by left].
    + unfold at_page. cbn [cache held purging busy disk store hash_del set_lists put_page set_pages set_table pages dirty lru m_error]. rewrite lookup_insert_eq.
      unfold at_. rewrite decide_True by done.
      split; cbn [with_refs with_phashed with_pstate p_refs p_hashed p_state p_error p_data p_key]; rewrite ?elem_without; try done; try lia; try naive_solver.
    + intros _. unfold at_key. by rewrite decide_True.
  - exists false, (cache s). split; [done|]. apply (inv_page x s _ p p); try done; cbn [cache held purging busy disk store].
    + by rewrite insert_id.
    + apply (c_lists s Hi).
    + intros y Hy. by rewrite (others_at x _ (purging s) y Hy).
    + by left.
    + unfold at_. rewrite decide_True by done. split; rewrite ?Hh; try done; try lia. intros [? _]%K3. done.
Qed.

(** *** Making room *)

(** Either there is room, or the oldest idle page goes, or there is none; the check
    passes if the page is not being purged. *)
Lemma room_spec s :
  pc_inv s → pc_bounded s →
  match mapping_make_room CONFIG_DEBUG_REFCOUNT (cache s) with
  | Ok (true, c) => pc_inv (Conf c (held s) (purging s) (busy s) (disk s) (store s)) ∧ nr c < MAPPING_CACHE_PAGES ∧ next c = next (cache s) ∧
      (∀ y q, pages c !! y = Some q → pages (cache s) !! y = Some q) ∧ (∀ y q, pages (cache s) !! y = Some q → p_hashed q = false → pages c !! y = Some q)
  | Ok (false, c) => c = cache s ∧ MAPPING_CACHE_PAGES ≤ nr (cache s) ∧ lru (cache s) = []
  | Panic => ∃ x, (0 < purging s x)%nat
  | _ => False
  end.
Proof.
  intros Hi Hb. unfold mapping_make_room. destruct (Z.ltb_spec (nr (cache s)) MAPPING_CACHE_PAGES); [split; [by destruct s|done]|].
  destruct (lru (cache s)) as [|x rest] eqn:El; [done|]. assert (x ∈ lru (cache s)) as Hl by (rewrite El; by left). rewrite <-El.
  pose proof (c_page s Hi x) as Hp. unfold at_page in Hp. destruct (pages (cache s) !! x) as [p|] eqn:Hx; [|destruct Hp as (_&_&_&_&?); done].
  cbn [deref res_bind]. pose proof (refs_bound s x p Hi (Hb x) Hx) as Hr. destruct Hp as [K1 K2 K3 K4 K5 K6 K7 K8 K9 K10 K11 K12].
  destruct (K3 Hl) as (Hh&Hst&Hn). rewrite read_refs by lia. rewrite Hst, Hh in *. change (negb (truth 0)) with true. rewrite andb_true_r.
  destruct (Z.eqb_spec (p_refs p) 1) as [E1|E1]; cbn [Assert res_bind]; [|exists x; lia]. assert (held s x = 0%nat) as Hf by lia.
  set (c1 := hash_del _ x p _). assert (pages c1 !! x = Some (with_phashed false p)) as Hx1 by apply lookup_insert_eq. rewrite Hx1. cbn [deref res_bind with_phashed p_refs].
  rewrite dec_ok by lia. rewrite E1. cbn [res_bind Z.eqb].
  change (Pos.eqb 1 1) with true. cbn iota. assert (purging s x = 0%nat ∧ busy s x = None) as [Hg Hbz] by (rewrite Hf in K9; destruct (busy s x) as [[]|]; [lia..|split; [lia|done]]).
  split; [|split; [|split; [done|split]]].
  - apply (pc_inv_unhash x s _ p None); try done; cbn [cache held purging busy disk store cache_page_destroy c1 hash_del set_lists put_page set_pages set_table pages table nr next dirty lru m_error].
    + by rewrite delete_insert_eq.
    + destruct (c_lists s Hi). split; [done|by apply list.NoDup_filter].
    + intros y Hy. split_and!; try done. rewrite elem_without. naive_solver.
    + by left.
    + unfold at_page. cbn [cache held purging busy cache_page_destroy c1 hash_del set_lists put_page set_pages set_table pages dirty lru]. rewrite lookup_delete_eq.
      split_and!; try done; [rewrite K2; naive_solver|rewrite elem_without; naive_solver].
    + intros Ho. by apply K12.
  - destruct (c_nr s Hi). cbn. lia.
  - intros y q. cbn. rewrite delete_insert_eq. by intros [_ ?]%lookup_delete_Some.
  - intros y q Hy Hhq. cbn. rewrite delete_insert_eq, lookup_delete_ne; [done|]. intros ->. congruence.
Qed.

(** [mapping_get], past the first search. *)
Lemma pc_insert_spec s k d :
  pc_inv s → pc_bounded s →
  match get_insert CONFIG_DEBUG_REFCOUNT (cache s) k true true d with
  | Ok (Shared x, c) => pc_inv (Conf c (at_ x (S (held s x)) (held s)) (purging s) (busy s) (disk s) (store s))
  | Ok (Created x, c) => pc_inv (Conf c (at_ x 1%nat (held s)) (purging s) (at_ x (Some Loading) (busy s)) (disk s) (store s))
  | Ok (Failed, c) => pc_inv (Conf c (held s) (purging s) (busy s) (disk s) (store s)) ∧ nr (cache s) = MAPPING_CACHE_PAGES ∧ lru (cache s) = []
  | Panic => ∃ x, (0 < purging s x)%nat
  | _ => False
  end.
Proof.
  intros Hi Hb. unfold get_insert. cbn [negb orb]. destruct (inv_alloc s k d Hi) as (Hi1&Hnone&Hg&Hbz&Hf). set (x := next (cache s)) in *.
  set (c1 := Pcache (<[x := _]> (pages (cache s))) _ _ _ _ _ _ _) in *. set (s1 := Conf c1 _ _ _ _ _) in *. set (p := Cpage k 1 0 false 0 d) in *.
  assert (pc_bounded s1) as Hb1 by (intros y; cbn; unfold at_; case_decide; [done|apply Hb]). assert (pages c1 !! x = Some p) as Hx1 by apply lookup_insert_eq.
  destruct (get_found_spec s1 k Hi1 Hb1) as (o&c&E&Ho). change (cache s1) with c1 in *. rewrite E. cbn [res_bind]. destruct o as [y|].
  - destruct Ho as ((q&Hy&Hhq&_)&Hoth&Hi2). assert (y ≠ x) as Hne by (intros ->; rewrite Hx1 in Hy; by injection Hy as <-).
    eapply pc_inv_ext; [|apply (inv_free x _ p Hi2); cbn [cache held purging busy]; [rewrite Hoth by done; done|done| |done|done]].
    + intros z. cbn. unfold at_. repeat case_decide; subst; try done; congruence.
    + unfold at_. rewrite decide_False by done. cbn. unfold at_. by rewrite decide_True.
  - destruct Ho as [-> Hfree]. pose proof (room_spec s1 Hi1 Hb1) as Hroom. change (cache s1) with c1 in Hroom.
    destruct (mapping_make_room CONFIG_DEBUG_REFCOUNT c1) as [[[] c2]| | |]; cbn [res_bind negb]; try done.
    + destruct Hroom as (Hi2&Hnr&Hnx&Hsub&Hkeep). assert (pages c2 !! x = Some p) as Hx2 by (by apply Hkeep).
      rewrite (pc_get_ok c2 x p) by done. cbn [res_bind]. assert (pages (put_page c2 x (with_refs (p_refs p + 1) p)) !! x = Some (with_refs (p_refs p + 1) p)) as -> by apply lookup_insert_eq.
      cbn [deref res_bind]. unfold hash_add. rewrite put_twice. refine (inv_hash x _ p _ c2 _ _ Hi2 eq_refl eq_refl eq_refl Hx2 eq_refl eq_refl eq_refl _ _ _ Hg Hbz).
      * done.
      * cbn. lia.
      * intros y q Hy Hhq. apply (Hfree y q); [by apply Hsub|done].
    + destruct Hroom as (->&Hge&Hl). split; [|split; [destruct (c_nr s Hi); cbn in Hge; lia|done]].
      eapply pc_inv_ext; [|apply (inv_free x s1 p Hi1 Hx1); [done|cbn; unfold at_; by rewrite decide_True|done|done]].
      intros z. cbn. unfold at_. repeat case_decide; subst; done.
Qed.

Lemma pcache_eta c : Pcache (pages c) (table c) (dirty c) (lru c) (nr c) (m_error c) (m_held c) (next c) = c.
Proof. by destruct c. Qed.

Lemma pick_inv s m start end_ x c :
  pc_inv s → pc_bounded s → purge_pick CONFIG_DEBUG_REFCOUNT (cache s) m start end_ x = Ok (Some c) →
  pc_inv (Conf c (at_ x (S (held s x)) (held s)) (at_ x (S (purging s x)) (purging s)) (busy s) (disk s) (store s)).
Proof.
  intros Hi Hb E. unfold purge_pick in E. destruct (pages (cache s) !! x) as [p|] eqn:Hx; cbn [deref res_bind] in E; [|done]. case_match; [|done].
  destruct (grab_inv s x p (at_ x (S (purging s x)) (purging s)) (m_held (cache s)) Hi (Hb x) Hx) as (c'&E'&Hi'&_).
  - apply others_at.
  - right. unfold at_. by rewrite decide_True.
  - rewrite pcache_eta in E'. rewrite E' in E. cbn [res_bind] in E. by injection E as <-.
Qed.

Lemma pstep_inv s s' : pc_inv s → pc_bounded s → pstep CONFIG_DEBUG_REFCOUNT s s' → pc_inv s'.
Proof.
  intros Hi Hb Hs. destruct Hs as [k x c E|k d x c E|k d x c E|k d c E|x p ret d c Hbz Hx Hd E|x c Hf E|x p d c Hf Hbz Hx Hh E|x c Hf Hbz E|x p ret d c Hbz Hx Hd E|m xs c E|m st en x c E|x p isd c Hg Hbz Hx E|m].
  - destruct (get_found_spec s k Hi Hb) as (o&c'&E'&Ho). rewrite E in E'. injection E' as <- <-. apply Ho.
  - pose proof (pc_insert_spec s k d Hi Hb) as H. by rewrite E in H.
  - pose proof (pc_insert_spec s k d Hi Hb) as H. by rewrite E in H.
  - pose proof (pc_insert_spec s k d Hi Hb) as H. rewrite E in H. apply H.
  - destruct (loaded_spec s x p ret d Hi Hb Hbz Hx Hd) as (c'&E'&H). congruence.
  - destruct (put_spec s x Hi Hb Hf) as (c'&E'&H). congruence.
  - destruct (write_spec s x p d Hi Hb Hbz Hx Hh) as (c'&E'&H). congruence.
  - destruct (begin_spec s x Hi Hb Hf Hbz) as (b&c'&E'&H). rewrite E in E'. injection E' as <- <-. done.
  - destruct (pc_end_spec s x p ret d Hi Hb Hbz Hx Hd) as (c'&E'&H). congruence.
  - destruct (collect_spec (dirty (cache s)) m s Hi) as (xs'&c'&E'&_&H); [intros x _; apply Hb|apply (c_lists s Hi)|done|]. unfold mapping_collect in E. rewrite E in E'. injection E' as <- <-. done.
  - by apply (pick_inv s m st en x c).
  - destruct (pc_remove_spec s x p Hi Hb Hg Hbz Hx) as (b&c'&E'&H). rewrite E in E'. injection E' as <- <-. done.
  - destruct Hi as [H1 H2 H3 H4 H5 H6 H7]. split; done.
Qed.

Lemma reachable_pc_inv d s : pc_reachable CONFIG_DEBUG_REFCOUNT d s → pc_inv s ∧ pc_bounded s.
Proof.
  assert (∀ s0, pc_inv s0 ∧ pc_bounded s0 → rtc (λ s s', pstep CONFIG_DEBUG_REFCOUNT s s' ∧ pc_bounded s') s0 s → pc_inv s ∧ pc_bounded s) as H.
  { intros s0 H0 Hr. induction Hr as [s|s1 s2 s3 [Hs Hb] _ IH]; [done|]. apply IH. split; [|done]. destruct H0. by apply (pstep_inv s1). }
  apply H. split; [|done]. split; cbn; try done.
  - intros b x. unfold bucket. rewrite lookup_empty. cbn. rewrite elem_of_nil. unfold slot_of. by rewrite lookup_empty.
  - intros x [p Hp]. by rewrite lookup_empty in Hp.
  - split; constructor.
  - intros x. unfold at_page. cbn. rewrite lookup_empty. split_and!; try done; apply not_elem_of_nil.
Qed.

End operations.

(** ** A purge that overlaps with the search for room *)

(** [n] pages of the mapping 1 are read and put, one after the other. *)
Fixpoint fill (cfg : bool) (n : nat) (c : pcache Z) : res (pcache Z) :=
  match n with
  | O => Ok c
  | S n =>
      let! c := fill cfg n c in
      let! (r, c) := get_insert cfg c (1, Z.of_nat n) true true 0 in
      match r with
      | Created x => let! c := get_loaded cfg c x 0 0 in mapping_put cfg c x
      | _ => Ok c
      end
  end.

(** C40: [mapping_purge] takes its reference to an idle page without taking the page off
    the list of idle ones.  With the cache full, another thread that wants a page then
    finds it at the head of that list, in use, and the check of [mapping_make_room]
    stops the kernel. *)
Theorem purge_race_panics cfg :
  ∃ c c', fill cfg 256 (Pcache ∅ ∅ [] [] 0 (λ _, 0) (λ _, 0) 0) = Ok c ∧ purge_pick cfg c 1 0 1 0 = Ok (Some c') ∧
    head (lru c') = Some 0%nat ∧ get_insert cfg c' (2, 0) true true 0 = Panic.
Proof.
  assert (match fill cfg 256 (Pcache ∅ ∅ [] [] 0 (λ _, 0) (λ _, 0) 0) with
    | Ok c => match purge_pick cfg c 1 0 1 0 with
        | Ok (Some c') => match get_insert cfg c' (2, 0) true true 0 with Panic => bool_decide (head (lru c') = Some 0%nat) | _ => false end
        | _ => false end
    | _ => false end = true) as E by (destruct cfg; vm_compute; reflexivity).
  destruct (fill _ _ _) as [c| | |]; [|done..]. destruct (purge_pick _ _ _ _ _ _) as [[c'|]| | |] eqn:Ep; [|done..].
  destruct (get_insert _ _ _ _ _ _) eqn:Eg; [done| |done..]. apply bool_decide_eq_true in E. by exists c, c'.
Qed.

